(* ===== verification/_CoqProject ===== *)
-Q . S2P
Prelude.v
GoText.v
TextFields.v
Durations.v
NetAddr.v
Subject.v
ApiErrors.v
ApiCodec.v
ClientErrors.v
Token.v
Waiters.v
Lifecycle.v
Policy.v
Settle.v
ClientLease.v
ClientWorker.v
Sql.v
Auth.v
Routes.v
AuthCli.v
Db.v
IdGen.v
Inv.v
Samples.v
Publish.v
Fetch.v
LongPoll.v
Dead.v
StoreSettle.v
ApiSettle.v
ClientSettle.v
StoreSweep.v
Sweeper.v
StreamAdmin.v
ConsumerAdmin.v
Flags.v
Serve.v
Purge.v
ApiAdmin.v
Journal.v
Reads.v
Writer.v
Retention.v
System.v
ApiPublish.v
OpenStore.v
Janitor.v
ExecWorker.v
Verify.v
StoreAudits.v
