(* ===== verification/Prelude.v ===== *)
(** * messq: a verification library

    (header completed below as the components are added) *)

From Stdlib Require Export ZArith Lia Ascii String.
From stdpp Require Export base tactics option numbers strings sorting sets list.

#[global] Open Scope string_scope.
#[global] Open Scope list_scope.
#[global] Open Scope Z_scope.
#[global] Arguments String.append : simpl nomatch.
#[global] Set Default Goal Selector "!".

(** ** Errors: internal/errs *)

(** The sentinel set of [internal/errs/errs.go]. *)
Inductive sentinel : Set :=
| ErrNotFound | ErrConflict | ErrBadRequest | ErrBadSubject | ErrTooLarge
| ErrStreamFull | ErrFlowControl | ErrStaleAck | ErrUnknownToken | ErrWrongGen
| ErrPaused | ErrDiskFull | ErrReadOnly | ErrShuttingDown | ErrUnauthorized
| ErrForbidden | ErrLocked | ErrSchemaNewer | ErrUnavailable.

#[global] Instance sentinel_eq_dec : EqDecision sentinel.
Proof. solve_decision. Defined.

(** An error value: [E k tag] wraps the sentinel [k] ([errs.E]); [Plain tag]
    wraps none; [CmdErr e] is [e] marked as a business rejection
    ([store.CmdErr]).  The message text is reduced to a tag. *)
Inductive error : Set :=
| E (kind : sentinel) (tag : string)
| Plain (tag : string)
| CmdErr (e : error).

#[global] Instance error_eq_dec : EqDecision error.
Proof. solve_decision. Defined.

(** [errors.Is(err, k)]. *)
Fixpoint is_kind (k : sentinel) (e : error) : bool :=
  match e with
  | E k' _ => bool_decide (k = k')
  | Plain _ => false
  | CmdErr e => is_kind k e
  end.

(** ** Fallible computations: a Go [(T, error)] result *)

Inductive result (A : Type) : Type :=
| Ok (a : A)
| Err (e : error).
Arguments Ok {A} a.
Arguments Err {A} e.

Declare Scope result_scope.
Delimit Scope result_scope with result.
#[global] Open Scope result_scope.

Definition rbind {A B} (m : result A) (f : A -> result B) : result B :=
  match m with
  | Ok a => f a
  | Err e => Err e
  end.

Notation "'let?' x := m 'in' k" := (rbind m (fun x => k))
  (at level 10, x pattern, m at level 200, k at level 200) : result_scope.

Definition is_ok {A} (m : result A) : bool :=
  match m with
  | Ok _ => true
  | Err _ => false
  end.

Lemma rbind_ok {A B} (m : result A) (f : A -> result B) (b : B) :
  rbind m f = Ok b <-> exists a, m = Ok a /\ f a = Ok b.
Proof. destruct m; simpl; split; intros; destruct_and?; naive_solver. Qed.

Lemma is_ok_true {A} (m : result A) : is_ok m = true <-> exists a, m = Ok a.
Proof. destruct m; simpl; split; intros; destruct_and?; naive_solver. Qed.

(** ** Time and machine integers *)

(** A [time.Duration] and an instant are integers counting nanoseconds. *)
Definition Millisecond : Z := 1000000.
Definition Second : Z := 1000 * Millisecond.
Definition Minute : Z := 60 * Second.
Definition Hour : Z := 60 * Minute.

(** [Duration.Milliseconds] truncates toward zero; [Time.UnixMilli] rounds down. *)
Definition Milliseconds (d : Z) : Z := Z.quot d Millisecond.
Definition UnixMilli (t : Z) : Z := t / Millisecond.

(** The value an int64 computation stores. *)
Definition wrap64 (z : Z) : Z := (z + 2 ^ 63) mod 2 ^ 64 - 2 ^ 63.

Lemma wrap64_id z : - 2 ^ 63 <= z < 2 ^ 63 -> wrap64 z = z.
Proof. intros H. unfold wrap64. rewrite Z.mod_small; lia. Qed.

Lemma wrap64_lt z : wrap64 z < 2 ^ 63.
Proof. unfold wrap64. pose proof (Z.mod_pos_bound (z + 2 ^ 63) (2 ^ 64) ltac:(lia)). lia. Qed.

(** The sum of a list of integers. *)
Definition sumZ (l : list Z) : Z := foldr Z.add 0 l.

Lemma sumZ_app l k : sumZ (l ++ k) = sumZ l + sumZ k.
Proof. induction l; simpl; lia. Qed.

Lemma sumZ_nonneg l : Forall (fun x => 0 <= x) l -> 0 <= sumZ l.
Proof. induction 1; simpl; lia. Qed.

Lemma sumZ_Permutation l k : Permutation l k -> sumZ l = sumZ k.
Proof. induction 1; simpl; lia. Qed.

Lemma sumZ_bound l m : Forall (fun x => x <= m) l -> sumZ l <= Z.of_nat (length l) * m.
Proof. induction 1; simpl length; simpl sumZ; lia. Qed.

(** Remember the equation of a scrutinee, for well-founded definitions. *)
Definition inspect {A} (a : A) : {b : A | a = b} := exist _ a eq_refl.

(** ** Tactics and hints *)

Create HintDb messq.

(** Turn the boolean tests of the code into propositions [lia] understands. *)
Ltac bool_prop :=
  repeat progress
    (rewrite ?negb_true_iff, ?negb_false_iff, ?andb_true_iff, ?andb_false_iff, ?orb_true_iff,
       ?orb_false_iff, ?Z.ltb_lt, ?Z.ltb_ge, ?Z.leb_le, ?Z.leb_gt, ?Z.eqb_eq, ?Z.eqb_neq,
       ?bool_decide_eq_true, ?bool_decide_eq_false in *).

(** Case analysis on every test of a branch, then arithmetic. *)
Ltac branch :=
  repeat (case_match; simplify_eq/=; try done); bool_prop; try lia.
