(* ===== verification/GoText.v ===== *)
(** * Byte strings, UTF-8 and decimal text

    A Go [string] is a sequence of bytes; it is modelled by [String.string],
    whose characters are the 256 bytes.  This file holds what the components
    use of Go's [strings], [unicode/utf8], [unicode] and [strconv] packages,
    with the lemmas about cutting, splitting and printing they share. *)

From S2P Require Import Prelude.

Abbreviation byte_z c := (Z.of_nat (nat_of_ascii c)).
Abbreviation slen s := (Z.of_nat (String.length s)).

(** ** Package strings *)

(** Does byte [c] occur in [s]? *)
Fixpoint has_byte (c : ascii) (s : string) : bool :=
  match s with
  | EmptyString => false
  | String a s' => bool_decide (a = c) || has_byte c s'
  end.

(** [strings.Cut(s, sep)] for a one-byte separator; also
    [strings.IndexByte] followed by the two slices it delimits. *)
Fixpoint cut (c : ascii) (s : string) : option (string * string) :=
  match s with
  | EmptyString => None
  | String a s' =>
      if bool_decide (a = c) then Some (EmptyString, s')
      else match cut c s' with
           | Some (l, r) => Some (String a l, r)
           | None => None
           end
  end.

(** [strings.Split(s, sep)] for a one-byte separator. *)
Fixpoint split_on (c : ascii) (s : string) : list string :=
  match s with
  | EmptyString => [EmptyString]
  | String a s' =>
      if bool_decide (a = c) then EmptyString :: split_on c s'
      else match split_on c s' with
           | h :: t => String a h :: t
           | [] => [String a EmptyString]
           end
  end.

(** [strings.Join(l, sep)] for a one-byte separator. *)
Fixpoint join_with (c : ascii) (l : list string) : string :=
  match l with
  | [] => EmptyString
  | [s] => s
  | s :: l' => s +:+ String c (join_with c l')
  end.

(** [strings.HasPrefix(s, p)]. *)
Fixpoint has_prefix (p s : string) : bool :=
  match p, s with
  | EmptyString, _ => true
  | String a p', String b s' => bool_decide (a = b) && has_prefix p' s'
  | String _ _, EmptyString => false
  end.

(** [s[i:]] and [s[:i]] for an index in range. *)
Fixpoint drop_str (n : nat) (s : string) : string :=
  match n, s with
  | O, _ => s
  | S n', String _ s' => drop_str n' s'
  | S _, EmptyString => EmptyString
  end.

Fixpoint take_str (n : nat) (s : string) : string :=
  match n, s with
  | O, _ => EmptyString
  | S n', String a s' => String a (take_str n' s')
  | S _, EmptyString => EmptyString
  end.

(** [strings.HasSuffix(s, p)]. *)
Definition has_suffix (p s : string) : bool :=
  (String.length p <=? String.length s)%nat
  && bool_decide (drop_str (String.length s - String.length p) s = p).

(** [strings.Contains(s, sub)]. *)
Fixpoint contains_str (sub s : string) : bool :=
  has_prefix sub s
  || match s with
     | EmptyString => false
     | String _ s' => contains_str sub s'
     end.

(** Does every byte of [s] satisfy [p]? *)
Fixpoint all_bytes (p : ascii -> bool) (s : string) : bool :=
  match s with
  | EmptyString => true
  | String a s' => p a && all_bytes p s'
  end.

(** ** Packages unicode/utf8 and unicode *)

(** [utf8.RuneError]. *)
Definition RuneError : Z := 65533.

(** Is [c] a continuation byte in the range [lo..hi]? *)
Definition cont_in (lo hi : Z) (c : ascii) : bool :=
  (lo <=? byte_z c) && (byte_z c <=? hi).

(** [utf8.DecodeRuneInString]: the rune at the head of [s] and its width.  An
    invalid encoding decodes to [RuneError] with width 1. *)
Definition decode_rune (s : string) : Z * nat :=
  match s with
  | EmptyString => (RuneError, 0%nat)
  | String c0 t =>
      let b0 := byte_z c0 in
      let bad := (RuneError, 1%nat) in
      if b0 <? 128 then (b0, 1%nat)
      else if (194 <=? b0) && (b0 <=? 223) then
        match t with
        | String c1 _ =>
            if cont_in 128 191 c1
            then (Z.lor (Z.shiftl (Z.land b0 31) 6) (Z.land (byte_z c1) 63), 2%nat)
            else bad
        | _ => bad
        end
      else if (224 <=? b0) && (b0 <=? 239) then
        match t with
        | String c1 (String c2 _) =>
            if cont_in (if b0 =? 224 then 160 else 128) (if b0 =? 237 then 159 else 191) c1
               && cont_in 128 191 c2
            then (Z.lor (Z.shiftl (Z.land b0 15) 12)
                    (Z.lor (Z.shiftl (Z.land (byte_z c1) 63) 6) (Z.land (byte_z c2) 63)), 3%nat)
            else bad
        | _ => bad
        end
      else if (240 <=? b0) && (b0 <=? 244) then
        match t with
        | String c1 (String c2 (String c3 _)) =>
            if cont_in (if b0 =? 240 then 144 else 128) (if b0 =? 244 then 143 else 191) c1
               && cont_in 128 191 c2 && cont_in 128 191 c3
            then (Z.lor (Z.shiftl (Z.land b0 7) 18)
                    (Z.lor (Z.shiftl (Z.land (byte_z c1) 63) 12)
                       (Z.lor (Z.shiftl (Z.land (byte_z c2) 63) 6) (Z.land (byte_z c3) 63))), 4%nat)
            else bad
        | _ => bad
        end
      else bad
  end.

(** The runes of [s] ([for _, r := range s]); [skip] counts the bytes of the
    current rune still to be passed over. *)
Fixpoint runes_from (skip : nat) (s : string) : list Z :=
  match s with
  | EmptyString => []
  | String _ s' =>
      match skip with
      | S k => runes_from k s'
      | O => let '(r, w) := decode_rune s in r :: runes_from (Nat.pred w) s'
      end
  end.

Definition runes (s : string) : list Z := runes_from 0 s.

(** [utf8.ValidString]: no byte decodes to an error of width 1. *)
Fixpoint valid_from (skip : nat) (s : string) : bool :=
  match s with
  | EmptyString => true
  | String _ s' =>
      match skip with
      | S k => valid_from k s'
      | O => let '(r, w) := decode_rune s in
             negb ((r =? RuneError) && (w =? 1)%nat) && valid_from (Nat.pred w) s'
      end
  end.

Definition ValidString (s : string) : bool := valid_from 0 s.

(** [unicode.IsControl]: the C0 and C1 ranges (category Cc). *)
Definition IsControl (r : Z) : bool :=
  ((0 <=? r) && (r <=? 31)) || ((127 <=? r) && (r <=? 159)).

(** [unicode.IsSpace]: the White_Space property. *)
Definition IsSpace (r : Z) : bool :=
  ((9 <=? r) && (r <=? 13)) || ((8192 <=? r) && (r <=? 8202))
  || existsb (fun x => r =? x) [32; 133; 160; 5760; 8232; 8233; 8239; 8287; 12288].

(** The runes of [s] with the bytes each occupies. *)
Fixpoint chunks_from (skip : nat) (s : string) : list (Z * string) :=
  match s with
  | EmptyString => []
  | String _ s' =>
      match skip with
      | S k => chunks_from k s'
      | O => let '(r, w) := decode_rune s in (r, take_str w s) :: chunks_from (Nat.pred w) s'
      end
  end.

Definition chunks (s : string) : list (Z * string) := chunks_from 0 s.

Definition unchunk (cs : list (Z * string)) : string :=
  List.fold_right (fun c acc => c.2 +:+ acc) EmptyString cs.

Fixpoint drop_spaces (cs : list (Z * string)) : list (Z * string) :=
  match cs with
  | (r, _) :: cs' => if IsSpace r then drop_spaces cs' else cs
  | [] => []
  end.

(** [strings.TrimSpace]. *)
Definition TrimSpace (s : string) : string :=
  unchunk (List.rev (drop_spaces (List.rev (drop_spaces (chunks s))))).

(** [strings.Builder.WriteRune]: the UTF-8 encoding of a valid rune. *)
Definition byte_chr (b : Z) : ascii := ascii_of_nat (Z.to_nat b).

Definition encode_rune (r : Z) : string :=
  if r <? 128 then String (byte_chr r) EmptyString
  else if r <? 2048 then
    String (byte_chr (192 + r / 64)) (String (byte_chr (128 + r mod 64)) EmptyString)
  else if r <? 65536 then
    String (byte_chr (224 + r / 4096)) (String (byte_chr (128 + r / 64 mod 64))
      (String (byte_chr (128 + r mod 64)) EmptyString))
  else
    String (byte_chr (240 + r / 262144)) (String (byte_chr (128 + r / 4096 mod 64))
      (String (byte_chr (128 + r / 64 mod 64)) (String (byte_chr (128 + r mod 64)) EmptyString))).

(** ** Package strconv and the %d verb *)

Definition digit_char (d : Z) : ascii := ascii_of_nat (Z.to_nat (48 + d)).
Definition is_digit (c : ascii) : bool := (48 <=? byte_z c) && (byte_z c <=? 57).
Definition digit_val (c : ascii) : Z := byte_z c - 48.

(** Decimal digits of a natural number, most significant first; [fuel] bounds
    the number of digits. *)
Fixpoint format_digits (fuel : nat) (n : Z) : string :=
  match fuel with
  | O => EmptyString
  | S f =>
      if n <? 10 then String (digit_char n) EmptyString
      else format_digits f (n / 10) +:+ String (digit_char (n mod 10)) EmptyString
  end.

(** A 64-bit integer has at most twenty decimal digits. *)
Definition format_uint (n : Z) : string := format_digits 20 n.

(** The %d verb. *)
Definition format_int (n : Z) : string :=
  if n <? 0 then String "-" (format_uint (- n)) else format_uint n.

Definition max_uint64 : Z := 2 ^ 64 - 1.
Definition max_int64 : Z := 2 ^ 63 - 1.
Definition max_int32 : Z := 2 ^ 31 - 1.

Fixpoint parse_digits (acc : Z) (s : string) : option Z :=
  match s with
  | EmptyString => Some acc
  | String c s' =>
      if is_digit c then
        let acc' := acc * 10 + digit_val c in
        if max_uint64 <? acc' then None else parse_digits acc' s'
      else None
  end.

(** [strconv.ParseUint(s, 10, 64)]; [None] is either of its errors. *)
Definition parse_uint (s : string) : option Z :=
  match s with
  | EmptyString => None
  | _ => parse_digits 0 s
  end.

(** [fmt.Sscanf] with the verb %d: blanks, a sign, the
    longest run of digits; what follows it is not read. *)
Fixpoint skip_blanks (s : string) : string :=
  match s with
  | String c s' => if (byte_z c =? 32) || (byte_z c =? 9) then skip_blanks s' else s
  | EmptyString => EmptyString
  end.

Fixpoint span_digits (s : string) : string :=
  match s with
  | String c s' => if is_digit c then String c (span_digits s') else EmptyString
  | EmptyString => EmptyString
  end.

Definition sscanf_d (s : string) : option Z :=
  let unsigned (neg : bool) (s : string) : option Z :=
    v ← parse_uint (span_digits s);
    if neg then if v <=? max_int64 + 1 then Some (- v) else None
    else if v <=? max_int64 then Some v else None in
  match skip_blanks s with
  | String c s' as s0 => if byte_z c =? 45 then unsigned true s' else if byte_z c =? 43 then unsigned false s' else unsigned false s0
  | EmptyString => None
  end.

(** Package time: [Duration.String].  [frac_part prec u] prints the fraction
    without its trailing zeros, and nothing when it is zero. *)
Fixpoint pad_zeros (n : nat) (s : string) : string :=
  match n with
  | O => s
  | S n' => String "0" (pad_zeros n' s)
  end.

Fixpoint drop_zeros (s : string) : string :=
  match s with
  | EmptyString => EmptyString
  | String c s' =>
      match drop_zeros s' with
      | EmptyString => if bool_decide (c = "0"%char) then EmptyString else String c EmptyString
      | s'' => String c s''
      end
  end.

Definition frac_part (prec : nat) (v : Z) : string :=
  let digits := format_uint v in
  match drop_zeros (pad_zeros (prec - String.length digits) digits) with
  | EmptyString => EmptyString
  | s => String "." s
  end.

Definition duration_abs (u : Z) : string :=
  if u =? 0 then "0s"
  else if u <? 1000 then format_uint u +:+ "ns"
  else if u <? Millisecond then
    format_uint (u / 1000) +:+ frac_part 3 (u mod 1000)
    +:+ String (ascii_of_nat 194) (String (ascii_of_nat 181) "s")
  else if u <? Second then format_uint (u / Millisecond) +:+ frac_part 6 (u mod Millisecond) +:+ "ms"
  else
    let secs := u / Second in
    let mins := secs / 60 in
    let hours := mins / 60 in
    (if 0 <? hours then format_uint hours +:+ "h" else "")
    +:+ (if 0 <? mins then format_uint (mins mod 60) +:+ "m" else "")
    +:+ format_uint (secs mod 60) +:+ frac_part 9 (u mod Second) +:+ "s".

Definition duration_string (d : Z) : string :=
  if d <? 0 then String "-" (duration_abs (- d)) else duration_abs d.

(** SQLite's NOCASE collation and [strings.EqualFold] on ASCII: letters fold. *)
Definition fold_byte (c : ascii) : ascii :=
  if (65 <=? byte_z c) && (byte_z c <=? 90) then ascii_of_nat (nat_of_ascii c + 32) else c.

Fixpoint fold_case (s : string) : string :=
  match s with
  | EmptyString => EmptyString
  | String c s' => String (fold_byte c) (fold_case s')
  end.

(** ** Lemmas: append and bytes *)

Lemma sapp_assoc (a b c : string) : (a +:+ b) +:+ c = a +:+ (b +:+ c).
Proof. induction a; simpl; congruence. Qed.

Lemma sapp_nil_r (a : string) : a +:+ EmptyString = a.
Proof. induction a; simpl; congruence. Qed.

Lemma sapp_length (a b : string) :
  String.length (a +:+ b) = (String.length a + String.length b)%nat.
Proof. induction a; simpl; congruence. Qed.

Lemma sapp_inv_head (a b c : string) : a +:+ b = a +:+ c -> b = c.
Proof. induction a; simpl; naive_solver. Qed.

Lemma has_byte_app c (a b : string) : has_byte c (a +:+ b) = has_byte c a || has_byte c b.
Proof. induction a; simpl; [done|]. rewrite IHa. by rewrite orb_assoc. Qed.

Lemma all_bytes_app p (a b : string) : all_bytes p (a +:+ b) = all_bytes p a && all_bytes p b.
Proof. induction a; simpl; [done|]. rewrite IHa. by rewrite andb_assoc. Qed.

Lemma all_bytes_no_byte p c (s : string) :
  p c = false -> all_bytes p s = true -> has_byte c s = false.
Proof.
  intros Hc. induction s as [|a s IH]; simpl; [done|].
  intros [Ha Hs]%andb_true_iff. rewrite IH by done.
  rewrite orb_false_r. apply bool_decide_eq_false. intros ->. congruence.
Qed.

(** Every non-empty string ends in a byte. *)
Lemma string_snoc (s : string) :
  s <> EmptyString -> exists t c, s = t +:+ String c EmptyString.
Proof.
  induction s as [|a s IH]; [done|]. intros _.
  destruct s as [|b s]; [by exists EmptyString, a|].
  destruct IH as (t & c & ->); [done|]. by exists (String a t), c.
Qed.

Lemma string_snoc_ind (P : string -> Prop) :
  P EmptyString -> (forall t c, P t -> P (t +:+ String c EmptyString)) -> forall s, P s.
Proof.
  intros H0 HS s. remember (String.length s) as n eqn:Hn. revert s Hn.
  induction n as [n IH] using lt_wf_ind; intros s ->.
  destruct (decide (s = EmptyString)) as [->|Hs]; [done|].
  destruct (string_snoc s Hs) as (t & c & ->). apply HS, (IH (String.length t)); [|done].
  rewrite sapp_length; simpl; lia.
Qed.

(** ** Lemmas: cut and split *)

Lemma cut_Some c s l r :
  cut c s = Some (l, r) -> s = l +:+ String c r /\ has_byte c l = false.
Proof.
  revert l r; induction s as [|a s IH]; simpl; [done|]; intros l r.
  case_bool_decide as Ha; [naive_solver|].
  destruct (cut c s) as [[l' r']|] eqn:Hc; [|done].
  intros [= <- <-]. destruct (IH l' r') as [-> Hl]; [done|]. simpl.
  by rewrite Hl, bool_decide_eq_false_2.
Qed.

Lemma cut_None c s : cut c s = None -> has_byte c s = false.
Proof.
  induction s as [|a s IH]; simpl; [done|].
  case_bool_decide as Ha; [done|].
  destruct (cut c s) as [[]|]; [done|]. intros _. by rewrite IH.
Qed.

Lemma cut_app c l r : has_byte c l = false -> cut c (l +:+ String c r) = Some (l, r).
Proof.
  induction l as [|a l IH]; simpl; [by rewrite bool_decide_eq_true_2|].
  intros [Ha Hl]%orb_false_iff. rewrite Ha, IH; [done|done].
Qed.

Lemma cut_no_byte c s : has_byte c s = false -> cut c s = None.
Proof.
  induction s as [|a s IH]; simpl; [done|].
  intros [Ha Hs]%orb_false_iff. by rewrite Ha, IH.
Qed.

Lemma cut_shorter c s l r :
  cut c s = Some (l, r) -> (String.length r < String.length s)%nat.
Proof. intros [-> _]%cut_Some. rewrite sapp_length; simpl; lia. Qed.

Lemma split_on_not_nil c s : split_on c s <> [].
Proof. destruct s; simpl; [done|]. by repeat case_match. Qed.

Lemma split_on_cut_None c s : cut c s = None -> split_on c s = [s].
Proof.
  induction s as [|a s IH]; simpl; [done|].
  case_bool_decide as Ha; [done|].
  destruct (cut c s) as [[]|]; [done|]. intros _. by rewrite IH.
Qed.

Lemma split_on_cut_Some c s l r : cut c s = Some (l, r) -> split_on c s = l :: split_on c r.
Proof.
  revert l r; induction s as [|a s IH]; simpl; [done|]; intros l r.
  case_bool_decide as Ha; [naive_solver|].
  destruct (cut c s) as [[l' r']|]; [|done]. intros [= <- <-].
  by rewrite (IH l' r').
Qed.

(** Induction along the segments of a string. *)
Lemma cut_ind (c : ascii) (P : string -> Prop) :
  (forall s, cut c s = None -> P s) ->
  (forall s l r, cut c s = Some (l, r) -> P r -> P s) ->
  forall s, P s.
Proof.
  intros HN HS s. remember (String.length s) as n eqn:Hn. revert s Hn.
  induction n as [n IH] using lt_wf_ind; intros s ->.
  destruct (cut c s) as [[l r]|] eqn:Hc; [|eauto].
  eapply HS; [done|]. eapply (IH (String.length r)); [|done].
  by eapply cut_shorter.
Qed.

Lemma join_with_cons c s l : l <> [] -> join_with c (s :: l) = s +:+ String c (join_with c l).
Proof. by destruct l. Qed.

Lemma join_split c s : join_with c (split_on c s) = s.
Proof.
  induction s as [s Hc|s l r Hc IH] using (cut_ind c).
  - by rewrite split_on_cut_None.
  - rewrite (split_on_cut_Some _ _ _ _ Hc). simpl.
    destruct (split_on c r) as [|h t] eqn:Hr; [by apply split_on_not_nil in Hr|].
    rewrite IH. by destruct (cut_Some _ _ _ _ Hc) as [-> _].
Qed.

(** ** Lemmas: prefixes *)

Lemma has_prefix_spec p s : has_prefix p s = true <-> exists t, s = p +:+ t.
Proof.
  revert s; induction p as [|a p IH]; intros s; simpl; [naive_solver|].
  destruct s as [|b s]; [naive_solver|].
  rewrite andb_true_iff, bool_decide_eq_true, IH. naive_solver.
Qed.

Lemma take_str_app a b : take_str (String.length a) (a +:+ b) = a.
Proof. induction a; simpl; [by destruct b|congruence]. Qed.

Lemma drop_str_app a b : drop_str (String.length a) (a +:+ b) = b.
Proof. induction a; simpl; [done|congruence]. Qed.

Lemma drop_str_full n a : drop_str n a +:+ EmptyString = drop_str n a.
Proof. apply sapp_nil_r. Qed.

Lemma take_drop_str n a : take_str n a +:+ drop_str n a = a.
Proof. revert n; induction a; intros [|n]; simpl; congruence. Qed.

Lemma has_suffix_spec p s : has_suffix p s = true <-> exists t, s = t +:+ p.
Proof.
  unfold has_suffix. rewrite andb_true_iff, Nat.leb_le, bool_decide_eq_true. split.
  - intros [_ Hd]. exists (take_str (String.length s - String.length p) s).
    rewrite <-Hd at 2. by rewrite take_drop_str.
  - intros [t ->]. rewrite sapp_length. split; [lia|].
    replace (_ + _ - _)%nat with (String.length t) by lia. apply drop_str_app.
Qed.

(** ** Lemmas: decimal text *)

Lemma byte_z_digit d : 0 <= d <= 9 -> byte_z (digit_char d) = 48 + d.
Proof.
  intros Hd. unfold digit_char. rewrite nat_ascii_embedding by lia. lia.
Qed.

Lemma is_digit_char d : 0 <= d <= 9 -> is_digit (digit_char d) = true.
Proof. intros Hd. unfold is_digit. rewrite byte_z_digit by done. bool_prop. lia. Qed.

Lemma digit_val_char d : 0 <= d <= 9 -> digit_val (digit_char d) = d.
Proof. intros Hd. unfold digit_val. rewrite byte_z_digit by done. lia. Qed.

Lemma digit_char_val c : is_digit c = true -> digit_char (digit_val c) = c.
Proof.
  unfold is_digit, digit_char, digit_val. bool_prop. intros Hc.
  replace (Z.to_nat _) with (nat_of_ascii c) by lia. apply ascii_nat_embedding.
Qed.

Lemma is_digit_range c : is_digit c = true -> 0 <= digit_val c <= 9.
Proof. unfold is_digit, digit_val. bool_prop. lia. Qed.

(** The value a digit string denotes, without the 64-bit bound. *)
Fixpoint dec_val (acc : Z) (s : string) : Z :=
  match s with
  | EmptyString => acc
  | String c s' => dec_val (acc * 10 + digit_val c) s'
  end.

(** [strconv.Atoi] and [strconv.ParseInt(s, 10, 64)]: an optional sign, then
    decimal digits within int64. *)
Definition atoi (raw : string) : option Z :=
  let digits s := if all_bytes is_digit s && negb (bool_decide (s = "")) then Some (dec_val 0 s) else None in
  match raw with
  | String "-" s => n ← digits s; if n <=? max_int64 + 1 then Some (- n) else None
  | String "+" s => n ← digits s; if n <=? max_int64 then Some n else None
  | s => n ← digits s; if n <=? max_int64 then Some n else None
  end.

Lemma dec_val_snoc acc s c :
  dec_val acc (s +:+ String c EmptyString) = dec_val acc s * 10 + digit_val c.
Proof. revert acc; induction s; intros acc; simpl; auto. Qed.

Lemma dec_val_ge acc s : 0 <= acc -> all_bytes is_digit s = true -> acc <= dec_val acc s.
Proof.
  revert acc; induction s as [|c s IH]; intros acc Ha; simpl; [lia|].
  intros [Hc%is_digit_range Hs]%andb_true_iff.
  etrans; [|apply IH; [lia|done]]. lia.
Qed.

Lemma parse_digits_spec acc s v :
  0 <= acc <= max_uint64 ->
  parse_digits acc s = Some v <->
  all_bytes is_digit s = true /\ dec_val acc s = v /\ v <= max_uint64.
Proof.
  revert acc; induction s as [|c s IH]; intros acc Ha; simpl; [naive_solver lia|].
  destruct (is_digit c) eqn:Hc; [|naive_solver].
  pose proof (is_digit_range _ Hc). simpl. case_match; bool_prop.
  - split; [done|]. intros (Hs & <- & Hv).
    pose proof (dec_val_ge (acc * 10 + digit_val c) s ltac:(lia) Hs). lia.
  - rewrite IH by lia. done.
Qed.

Lemma parse_uint_spec s v :
  parse_uint s = Some v <->
  s <> EmptyString /\ all_bytes is_digit s = true /\ dec_val 0 s = v /\ v <= max_uint64.
Proof.
  destruct s as [|c s]; [naive_solver|].
  change (parse_uint (String c s)) with (parse_digits 0 (String c s)).
  rewrite parse_digits_spec by (unfold max_uint64; lia). naive_solver.
Qed.

Lemma format_digits_digits f n :
  0 <= n -> all_bytes is_digit (format_digits f n) = true.
Proof.
  revert n; induction f as [|f IH]; intros n Hn; simpl; [done|].
  case_match; bool_prop; simpl.
  - by rewrite is_digit_char by lia.
  - rewrite all_bytes_app, IH by (apply Z.div_pos; lia). simpl.
    rewrite is_digit_char; [done|]. pose proof (Z.mod_pos_bound n 10). lia.
Qed.

Lemma format_digits_val f n :
  0 <= n < 10 ^ Z.of_nat f -> dec_val 0 (format_digits f n) = n.
Proof.
  revert n; induction f as [|f IH]; intros n Hn; simpl; [lia|].
  rewrite Nat2Z.inj_succ, Z.pow_succ_r in Hn by lia.
  case_match; bool_prop; simpl; [by rewrite digit_val_char by lia|].
  pose proof (Z.mod_pos_bound n 10). pose proof (Z.div_mod n 10).
  rewrite dec_val_snoc, IH, digit_val_char; [lia|lia|].
  split; [apply Z.div_pos; lia|]. apply Z.div_lt_upper_bound; lia.
Qed.

Lemma format_digits_not_empty f n : format_digits (S f) n <> EmptyString.
Proof. simpl. destruct (n <? 10); [done|]. by destruct (format_digits f (n / 10)). Qed.

Lemma format_digits_length f n : (String.length (format_digits f n) <= f)%nat.
Proof.
  revert n; induction f as [|f IH]; intros n; simpl; [lia|].
  case_match; simpl; [lia|]. rewrite sapp_length; simpl. specialize (IH (n / 10)). lia.
Qed.

(** Fewer digits of fuel give the same text for a small enough number. *)
Lemma format_digits_fuel f g n :
  0 <= n < 10 ^ Z.of_nat f -> (1 <= f <= g)%nat -> format_digits g n = format_digits f n.
Proof.
  revert g n; induction f as [|f IH]; intros g n Hn Hg; simpl; [lia|].
  destruct g as [|g]; [lia|]. simpl. case_match; [done|]. bool_prop.
  rewrite Nat2Z.inj_succ, Z.pow_succ_r in Hn by lia. f_equal.
  destruct f as [|f]; [simpl in Hn; lia|]. apply IH; [|lia].
  split; [apply Z.div_pos; lia|]. apply Z.div_lt_upper_bound; lia.
Qed.

(** The inverse laws of printing and parsing. *)
Lemma parse_format_uint n : 0 <= n <= max_uint64 -> parse_uint (format_uint n) = Some n.
Proof.
  unfold max_uint64. intros Hn. apply parse_uint_spec. unfold format_uint, max_uint64. split_and!.
  - apply format_digits_not_empty.
  - apply format_digits_digits. lia.
  - apply format_digits_val. lia.
  - lia.
Qed.

Definition canonical_dec (s : string) : bool :=
  all_bytes is_digit s
  && match s with
     | EmptyString => false
     | String c _ => negb (bool_decide (c = "0"%char))
     end.

Lemma canonical_dec_pos s : canonical_dec s = true -> 0 < dec_val 0 s.
Proof.
  unfold canonical_dec. destruct s as [|c s]; simpl; [done|]. bool_prop.
  intros [[Hc Hs] H0]. pose proof (is_digit_range _ Hc).
  assert (digit_val c <> 0).
  { intros Hz. apply H0. rewrite <-(digit_char_val _ Hc), Hz. done. }
  eapply Z.lt_le_trans; [|apply dec_val_ge; [lia|done]]. lia.
Qed.

Lemma format_digits_dec_val s f :
  canonical_dec s = true -> dec_val 0 s < 10 ^ Z.of_nat f -> format_digits f (dec_val 0 s) = s.
Proof.
  revert f; induction s as [|s c IH] using string_snoc_ind; intros f; [done|].
  intros Hcan Hf. pose proof (canonical_dec_pos _ Hcan) as Hpos.
  rewrite dec_val_snoc in *.
  unfold canonical_dec in Hcan. rewrite all_bytes_app in Hcan. simpl in Hcan. bool_prop.
  destruct Hcan as [[Hs [Hc _]] H0]. pose proof (is_digit_range _ Hc) as Hd.
  destruct f as [|f]; [simpl in Hf; lia|].
  rewrite Nat2Z.inj_succ, Z.pow_succ_r in Hf by lia. simpl.
  destruct s as [|c' s]; simpl in *.
  - replace (_ <? 10) with true by (symmetry; apply Z.ltb_lt; lia).
    rewrite Z.mul_0_l, Z.add_0_l. by rewrite digit_char_val.
  - assert (canonical_dec (String c' s) = true) as Hcan.
    { unfold canonical_dec. simpl. bool_prop. done. }
    pose proof (canonical_dec_pos _ Hcan) as Hp. simpl in Hp.
    replace (_ <? 10) with false by (symmetry; apply Z.ltb_ge; lia).
    rewrite Z.div_add_l, Z.div_small, Z.add_0_r by lia.
    rewrite (IH f) by (done || lia). simpl.
    rewrite Z.add_comm, Z.mod_add, Z.mod_small by lia. by rewrite digit_char_val.
Qed.

Lemma format_parse_uint s v :
  parse_uint s = Some v -> String.get 0 s <> Some "0"%char -> format_uint v = s.
Proof.
  intros (Hne & Hd & <- & Hv)%parse_uint_spec H0. apply format_digits_dec_val.
  - unfold canonical_dec. rewrite Hd. destruct s; [done|]. simpl in *.
    apply negb_true_iff, bool_decide_eq_false. congruence.
  - unfold max_uint64 in Hv. simpl. lia.
Qed.

Lemma format_uint_no_byte c n : is_digit c = false -> 0 <= n -> has_byte c (format_uint n) = false.
Proof. intros Hc Hn. eapply all_bytes_no_byte; [done|]. by apply format_digits_digits. Qed.

Lemma format_uint_head n : 0 < n <= max_uint64 -> String.get 0 (format_uint n) <> Some "0"%char.
Proof.
  intros Hn Hz. assert (dec_val 0 (format_uint n) = n) as Hv.
  { apply format_digits_val. unfold max_uint64 in *. lia. }
  assert (forall f m, 0 < m < 10 ^ Z.of_nat f ->
    String.get 0 (format_digits f m) <> Some "0"%char) as Hf.
  { clear. intros f; induction f as [|f IH]; intros m Hm; simpl; [done|].
    rewrite Nat2Z.inj_succ, Z.pow_succ_r in Hm by lia. case_match; bool_prop; simpl.
    - intros [= Hd%(f_equal digit_val)]. rewrite digit_val_char in Hd by lia.
      change (m = 0) in Hd. lia.
    - assert (0 < m / 10 < 10 ^ Z.of_nat f) as Hm'.
      { split; [apply Z.div_str_pos; lia|]. apply Z.div_lt_upper_bound; lia. }
      specialize (IH _ Hm'). destruct (format_digits f (m / 10)) eqn:He; simpl in *; [|done].
      apply (f_equal (dec_val 0)) in He. rewrite format_digits_val in He by lia. simpl in He. lia. }
  eapply (Hf 20%nat n); [unfold max_uint64 in *; lia|done].
Qed.

(** What [%d] prints, [Sscanf] reads back. *)
Lemma span_digits_all s : all_bytes is_digit s = true -> span_digits s = s.
Proof.
  induction s as [|c s IH]; [done|]. simpl. intros [-> H]%andb_true_iff. by rewrite IH.
Qed.

Lemma sscanf_format n : 0 <= n <= max_int64 -> sscanf_d (format_int n) = Some n.
Proof.
  intros Hn. unfold format_int. replace (n <? 0) with false by (symmetry; apply Z.ltb_ge; lia).
  assert (Hp : parse_uint (format_uint n) = Some n) by (apply parse_format_uint; unfold max_int64, max_uint64 in *; lia).
  assert (Hd : all_bytes is_digit (format_uint n) = true) by (apply format_digits_digits; lia).
  unfold sscanf_d. revert Hp Hd. destruct (format_uint n) as [|c s]; [done|]. intros Hp Hd.
  pose proof Hd as [Hc _]%andb_true_iff. unfold is_digit in Hc. bool_prop. simpl skip_blanks.
  replace (byte_z c =? 32) with false by (symmetry; apply Z.eqb_neq; lia).
  replace (byte_z c =? 9) with false by (symmetry; apply Z.eqb_neq; lia). cbn [orb].
  replace (byte_z c =? 45) with false by (symmetry; apply Z.eqb_neq; lia).
  replace (byte_z c =? 43) with false by (symmetry; apply Z.eqb_neq; lia).
  rewrite span_digits_all, Hp by done. simpl. replace (n <=? max_int64) with true by (symmetry; apply Z.leb_le; lia).
  done.
Qed.
