(* ===== verification/TextFields.v ===== *)
(** * Fields, lines and hexadecimal text

    What the token file uses of Go's [strings] ([Fields]), [bufio] (the line
    scanner) and [encoding/hex], with the laws its round trip needs: where a
    UTF-8 decoder resynchronises, what [Fields] returns of a line written with
    single blanks, and that decoding inverts encoding. *)

From S2P Require Import Prelude GoText.

(** ** strings.Fields *)

(** Maximal runs of runes that are not spaces; [cur] holds the bytes of the
    field being read. *)
Fixpoint fields_from (cur : string) (cs : list (Z * string)) : list string :=
  match cs with
  | [] => if bool_decide (cur = "") then [] else [cur]
  | (r, b) :: cs' =>
      if IsSpace r then
        (if bool_decide (cur = "") then [] else [cur]) ++ fields_from "" cs'
      else fields_from (cur +:+ b) cs'
  end.

Definition Fields (s : string) : list string := fields_from "" (chunks s).

(** ** bufio.ScanLines *)

Definition drop_cr (s : string) : string :=
  if has_suffix (String "013" "") s then take_str (String.length s - 1) s else s.

(** The lines of a text: what follows the last newline is a line unless it is
    empty, and one trailing carriage return is dropped from each. *)
Definition scan_lines (s : string) : list string :=
  let parts := split_on "010"%char s in
  let lines := match List.rev parts with
               | "" :: r => List.rev r
               | _ => parts
               end in
  map drop_cr lines.

(** ** encoding/hex *)

Definition hex_char (d : Z) : ascii := byte_chr (if d <? 10 then 48 + d else 87 + d).

Fixpoint EncodeToString (s : string) : string :=
  match s with
  | EmptyString => EmptyString
  | String c s' => String (hex_char (byte_z c / 16)) (String (hex_char (byte_z c mod 16)) (EncodeToString s'))
  end.

Definition hex_val (c : ascii) : option Z :=
  let b := byte_z c in
  if (48 <=? b) && (b <=? 57) then Some (b - 48)
  else if (97 <=? b) && (b <=? 102) then Some (b - 87)
  else if (65 <=? b) && (b <=? 70) then Some (b - 55)
  else None.

(** [hex.Decode]; [None] is either of its errors. *)
Fixpoint hex_decode (s : string) : option string :=
  match s with
  | EmptyString => Some EmptyString
  | String a (String b s') =>
      x ← hex_val a; y ← hex_val b; t ← hex_decode s';
      Some (String (byte_chr (16 * x + y)) t)
  | String _ EmptyString => None
  end.

(** ** Lemmas: hexadecimal *)

Lemma hex_val_char d : 0 <= d < 16 -> hex_val (hex_char d) = Some d.
Proof.
  intros H. assert (List.In d (map Z.of_nat (seq 0 16))) as Hin.
  { apply in_map_iff. exists (Z.to_nat d). split; [lia|]. apply in_seq. lia. }
  simpl in Hin. repeat (destruct Hin as [<-|Hin]; [reflexivity|]). done.
Qed.

Lemma byte_z_bound c : 0 <= byte_z c < 256.
Proof. pose proof (nat_ascii_bounded c). lia. Qed.

Lemma nibbles c : 0 <= byte_z c / 16 < 16 /\ 0 <= byte_z c mod 16 < 16.
Proof.
  pose proof (byte_z_bound c). split; [|apply Z.mod_pos_bound; lia].
  split; [apply Z.div_pos; lia|apply Z.div_lt_upper_bound; lia].
Qed.

Lemma hex_decode_encode s : hex_decode (EncodeToString s) = Some s.
Proof.
  induction s as [|c s IH]; [done|]. cbn [EncodeToString hex_decode].
  destruct (nibbles c) as [Hh Hl]. rewrite (hex_val_char _ Hh), (hex_val_char _ Hl).
  simpl. rewrite IH. simpl. rewrite <-Z.div_mod by lia. unfold byte_chr.
  by rewrite Nat2Z.id, ascii_nat_embedding.
Qed.

Lemma encode_length s : String.length (EncodeToString s) = (2 * String.length s)%nat.
Proof. induction s; simpl; lia. Qed.

Lemma hex_decode_length s t : hex_decode s = Some t -> String.length s = (2 * String.length t)%nat.
Proof.
  remember (String.length s) as n eqn:Hn. revert s t Hn.
  induction n as [n IH] using lt_wf_ind; intros s t ->.
  destruct s as [|a [|b s]]; simpl; [by intros [= <-]|done|].
  destruct (hex_val a), (hex_val b); simpl; try done.
  destruct (hex_decode s) as [t'|] eqn:Ht; simpl; [|done]. intros [= <-]. simpl.
  rewrite (IH (String.length s)) with (s := s) (t := t'); simpl; [lia|lia|done|done].
Qed.

Definition is_hex (c : ascii) : bool := is_digit c || cont_in 97 102 c.

Lemma hex_char_is_hex d : 0 <= d < 16 -> is_hex (hex_char d) = true.
Proof.
  intros H. assert (List.In d (map Z.of_nat (seq 0 16))) as Hin.
  { apply in_map_iff. exists (Z.to_nat d). split; [lia|]. apply in_seq. lia. }
  simpl in Hin. repeat (destruct Hin as [<-|Hin]; [reflexivity|]). done.
Qed.

Lemma encode_is_hex s : all_bytes is_hex (EncodeToString s) = true.
Proof.
  induction s as [|c s IH]; [done|]. cbn [EncodeToString all_bytes].
  destruct (nibbles c) as [Hh Hl]. by rewrite (hex_char_is_hex _ Hh), (hex_char_is_hex _ Hl).
Qed.

(** ** Lemmas: splitting what was joined *)

Lemma split_on_no_byte c s : has_byte c s = false -> split_on c s = [s].
Proof. intros H. by apply split_on_cut_None, cut_no_byte. Qed.

Lemma split_on_app c l r : has_byte c l = false -> split_on c (l +:+ String c r) = l :: split_on c r.
Proof. intros H. by apply split_on_cut_Some, cut_app. Qed.

Lemma split_join c (l : list string) :
  l <> [] -> Forall (fun s => has_byte c s = false) l -> split_on c (join_with c l) = l.
Proof.
  induction l as [|s l IH]; [done|]. intros _ [Hs Hl]%Forall_cons.
  destruct l as [|s' l]; [by apply split_on_no_byte|].
  rewrite join_with_cons, split_on_app, IH by done. done.
Qed.

Lemma split_on_parts c s : Forall (fun p => has_byte c p = false) (split_on c s).
Proof.
  induction s as [s Hc|s l r Hc IH] using (cut_ind c).
  - rewrite split_on_cut_None by done. constructor; [by apply cut_None|constructor].
  - rewrite (split_on_cut_Some _ _ _ _ Hc). constructor; [|done]. by apply cut_Some in Hc as [_ ?].
Qed.

Lemma join_with_no_byte b c l :
  b <> c -> Forall (fun s => has_byte b s = false) l -> has_byte b (join_with c l) = false.
Proof.
  intros Hbc. induction l as [|s l IH]; [done|]. intros [Hs Hl]%Forall_cons.
  destruct l as [|s' l]; [done|]. rewrite join_with_cons by done.
  rewrite has_byte_app, Hs. cbn [has_byte]. rewrite bool_decide_eq_false_2 by congruence. by apply IH.
Qed.

Lemma split_part_no_byte b c s p :
  has_byte b s = false -> p ∈ split_on c s -> has_byte b p = false.
Proof.
  revert p; induction s as [s Hc|s l r Hc IH] using (cut_ind c); intros p Hb.
  - rewrite split_on_cut_None by done. by intros ->%list_elem_of_singleton.
  - rewrite (split_on_cut_Some _ _ _ _ Hc). apply cut_Some in Hc as [-> _].
    rewrite has_byte_app in Hb. cbn [has_byte] in Hb.
    apply orb_false_iff in Hb as [Hl [_ Hr]%orb_false_iff].
    intros [->|Hp]%elem_of_cons; [done|by apply IH].
Qed.

(** ** Lemmas: where decoding resynchronises *)

Lemma cont_in_sub lo hi c : cont_in 128 191 c = false -> 128 <= lo -> hi <= 191 -> cont_in lo hi c = false.
Proof.
  unfold cont_in. intros H Hl Hh. apply andb_false_iff in H. apply andb_false_iff.
  destruct H; bool_prop; lia.
Qed.

(** Does a rune, or nothing, start here? *)
Definition starts_rune (s : string) : bool :=
  match s with
  | EmptyString => true
  | String c _ => negb (cont_in 128 191 c)
  end.

(** Case analysis on the tests of the decoder. *)
Ltac decode_cases :=
  repeat match goal with
  | |- context [if ?x then _ else _] =>
      lazymatch x with context [if _ then _ else _] => fail | _ => destruct x eqn:?; simpl end
  end.

Lemma decode_fits s : s <> "" -> (1 <= (decode_rune s).2 <= String.length s)%nat.
Proof.
  intros Hs. unfold decode_rune. destruct s as [|c0 [|c1 [|c2 [|c3 s]]]]; [done|..]; simpl;
    repeat case_match; simpl; lia.
Qed.

(** What follows a string does not change its first rune when a rune starts
    there. *)
Lemma decode_app a b : a <> "" -> starts_rune b = true -> decode_rune (a +:+ b) = decode_rune a.
Proof.
  intros Ha Hb. unfold decode_rune. destruct a as [|c0 a]; [done|]. cbn [String.append].
  assert (forall lo hi c r, b = String c r -> 128 <= lo -> hi <= 191 -> cont_in lo hi c = false) as Hn.
  { intros lo hi c r ->. simpl in Hb. apply negb_true_iff in Hb. intros. by apply cont_in_sub. }
  destruct (byte_z c0 <? 128); [done|].
  destruct ((194 <=? byte_z c0) && (byte_z c0 <=? 223)).
  { destruct a as [|c1 a]; [|done]. cbn [String.append].
    destruct b as [|c b]; [done|]. by rewrite (Hn _ _ c b eq_refl) by lia. }
  destruct ((224 <=? byte_z c0) && (byte_z c0 <=? 239)).
  { destruct a as [|c1 [|c2 a]]; [| |done]; cbn [String.append]; destruct b as [|c b]; try done.
    - destruct b as [|c' b]; [done|]. rewrite (Hn _ _ c (String c' b) eq_refl); [done|by case_match|by case_match].
    - rewrite (Hn _ _ c b eq_refl) by lia. by rewrite andb_false_r. }
  destruct ((240 <=? byte_z c0) && (byte_z c0 <=? 244)); [|done].
  destruct a as [|c1 [|c2 [|c3 a]]]; [| | |done]; cbn [String.append]; destruct b as [|c b]; try done.
  - destruct b as [|c' [|c'' b]]; try done.
    rewrite (Hn _ _ c (String c' (String c'' b)) eq_refl); [done|by case_match|by case_match].
  - destruct b as [|c' b]; try done. rewrite (Hn 128 191 c (String c' b) eq_refl) by lia.
    by rewrite andb_false_r.
  - rewrite (Hn 128 191 c b eq_refl) by lia. by rewrite andb_false_r.
Qed.

(** A prefix that holds the first rune decodes to it. *)
Lemma decode_prefix a b :
  a <> "" -> ((decode_rune (a +:+ b)).2 <= String.length a)%nat -> decode_rune a = decode_rune (a +:+ b).
Proof.
  intros Ha. destruct a as [|c0 a]; [done|]. clear Ha.
  destruct a as [|c1 [|c2 [|c3 a]]]; destruct b as [|d0 [|d1 [|d2 b]]];
    cbn [String.append]; unfold decode_rune; decode_cases; intros H; simpl in *; try lia; reflexivity.
Qed.

Lemma chunks_from_drop k s : chunks_from k s = chunks (drop_str k s).
Proof. revert k; induction s as [|c s IH]; intros [|k]; try done. simpl. apply IH. Qed.

Lemma chunks_cons s :
  s <> "" ->
  chunks s = ((decode_rune s).1, take_str (decode_rune s).2 s) :: chunks (drop_str (decode_rune s).2 s).
Proof.
  intros Hs. pose proof (decode_fits s Hs) as Hw. destruct s as [|c s]; [done|].
  unfold chunks at 1. cbn [chunks_from]. destruct (decode_rune (String c s)) as [r w]. simpl in *.
  rewrite chunks_from_drop. by destruct w as [|w]; [lia|].
Qed.

Lemma drop_str_length n s : String.length (drop_str n s) = (String.length s - n)%nat.
Proof. revert n; induction s; intros [|n]; simpl; auto. Qed.

(** Induction along the runes of a string. *)
Lemma rune_ind (P : string -> Prop) :
  P "" -> (forall s, s <> "" -> P (drop_str (decode_rune s).2 s) -> P s) -> forall s, P s.
Proof.
  intros H0 HS s. remember (String.length s) as n eqn:Hn. revert s Hn.
  induction n as [n IH] using lt_wf_ind; intros s ->.
  destruct (decide (s = "")) as [->|Hs]; [done|].
  apply HS; [done|]. eapply IH; [|done]. pose proof (decode_fits s Hs).
  rewrite drop_str_length. lia.
Qed.

Lemma take_str_le n a b : (n <= String.length a)%nat -> take_str n (a +:+ b) = take_str n a.
Proof.
  revert n; induction a as [|c a IH]; intros [|n] H; simpl in *; [by destruct b|lia|done|].
  f_equal. apply IH. lia.
Qed.

Lemma drop_str_le n a b : (n <= String.length a)%nat -> drop_str n (a +:+ b) = drop_str n a +:+ b.
Proof.
  revert n; induction a as [|c a IH]; intros [|n] H; simpl in *; [done|lia|done|]. apply IH. lia.
Qed.

Lemma chunks_app a b : starts_rune b = true -> chunks (a +:+ b) = chunks a ++ chunks b.
Proof.
  intros Hb. induction a as [|a Ha IH] using rune_ind; [done|].
  pose proof (decode_fits a Ha) as Hw. rewrite (chunks_cons (a +:+ b)), (chunks_cons a) by (by destruct a).
  rewrite decode_app, take_str_le, drop_str_le, IH by (done || lia). done.
Qed.

Lemma unchunk_chunks s : unchunk (chunks s) = s.
Proof.
  induction s as [|s Hs IH] using rune_ind; [done|]. rewrite chunks_cons by done.
  simpl. rewrite IH. apply take_drop_str.
Qed.

Lemma unchunk_app l k : unchunk (l ++ k) = unchunk l +:+ unchunk k.
Proof. induction l as [|c l IH]; [done|]. simpl. by rewrite IH, sapp_assoc. Qed.

(** A run of whole runes, taken on its own, has those runes. *)
Lemma chunks_suffix s l k : chunks s = l ++ k -> chunks (unchunk k) = k.
Proof.
  revert l; induction s as [|s Hs IH] using rune_ind; intros l Hl.
  - symmetry in Hl. apply app_eq_nil in Hl as [_ ->]. done.
  - destruct l as [|c l]; [simpl in Hl; subst k; by rewrite unchunk_chunks|].
    rewrite chunks_cons in Hl by done. injection Hl as _ Hl. by eapply IH.
Qed.

Lemma chunks_prefix s l k : chunks s = l ++ k -> chunks (unchunk l) = l.
Proof.
  revert l; induction s as [|s Hs IH] using rune_ind; intros l Hl.
  - symmetry in Hl. apply app_eq_nil in Hl as [-> _]. done.
  - destruct l as [|c l]; [done|]. rewrite chunks_cons in Hl by done. injection Hl as <- Hl.
    pose proof (decode_fits s Hs) as Hw. set (w := (decode_rune s).2) in *.
    cbn [unchunk List.fold_right]. fold (unchunk l). cbn [snd].
    assert (String.length (take_str w s) = w) as Hlen.
    { pose proof (f_equal String.length (take_drop_str w s)) as H. rewrite sapp_length, drop_str_length in H. lia. }
    assert (s = (take_str w s +:+ unchunk l) +:+ unchunk k) as Hsplit.
    { by rewrite sapp_assoc, <-unchunk_app, <-Hl, unchunk_chunks, take_drop_str. }
    assert (take_str w s +:+ unchunk l <> "") as Hne.
    { intros H%(f_equal String.length). rewrite sapp_length in H. simpl in H. lia. }
    assert (decode_rune (take_str w s +:+ unchunk l) = decode_rune s) as Hd.
    { rewrite Hsplit at 2. apply decode_prefix; [done|]. rewrite <-Hsplit, sapp_length. fold w. lia. }
    rewrite (chunks_cons _ Hne), Hd. fold w.
    rewrite <-Hlen at 1 3. rewrite take_str_app, drop_str_app. f_equal. by apply (IH l).
Qed.

(** ** Lemmas: strings.Fields *)

Definition nonspace (c : Z * string) : bool := negb (IsSpace c.1).

(** No rune of [s] is a space. *)
Definition no_space (s : string) : bool := forallb nonspace (chunks s).

Lemma fields_from_word cur l cs :
  forallb nonspace l = true -> fields_from cur (l ++ cs) = fields_from (cur +:+ unchunk l) cs.
Proof.
  revert cur; induction l as [|[r b] l IH]; intros cur; simpl; [by rewrite sapp_nil_r|].
  unfold nonspace at 1. simpl. intros [Hr Hl]%andb_true_iff. apply negb_true_iff in Hr.
  by rewrite Hr, IH, sapp_assoc.
Qed.

Lemma Fields_cons f s : f <> "" -> no_space f = true -> Fields (f +:+ String " " s) = f :: Fields s.
Proof.
  intros Hf Hn. unfold Fields. rewrite chunks_app by done.
  rewrite fields_from_word, unchunk_chunks by done. cbn [String.append].
  rewrite (chunks_cons (String " " s)) by done. simpl. by rewrite bool_decide_eq_false_2.
Qed.

Lemma Fields_word f : f <> "" -> no_space f = true -> Fields f = [f].
Proof.
  intros Hf Hn. unfold Fields. rewrite <-(app_nil_r (chunks f)).
  rewrite fields_from_word, unchunk_chunks by done. simpl. by rewrite bool_decide_eq_false_2.
Qed.

Definition word (f : string) : Prop := f <> "" /\ no_space f = true.

(** A line written with single blanks has the fields it was written from. *)
Lemma Fields_join fs : fs <> [] -> Forall word fs -> Fields (join_with " " fs) = fs.
Proof.
  induction fs as [|f fs IH]; [done|]. intros _ [[Hf Hn] Hfs]%Forall_cons.
  destruct fs as [|g fs]; [by apply Fields_word|].
  rewrite join_with_cons, Fields_cons, IH by done. done.
Qed.

Lemma fields_from_elem cur cs f :
  forallb nonspace cur = true -> f ∈ fields_from (unchunk cur) cs ->
  f <> "" /\ exists pre l post, cur ++ cs = pre ++ l ++ post /\ f = unchunk l /\ forallb nonspace l = true.
Proof.
  revert cur; induction cs as [|[r b] cs IH]; intros cur Hc; simpl.
  - case_bool_decide; [set_solver|]. intros ->%list_elem_of_singleton. split; [done|]. by exists [], cur, [].
  - destruct (IsSpace r) eqn:Hr.
    + intros [Hf|Hf]%elem_of_app.
      * case_bool_decide; [set_solver|]. apply list_elem_of_singleton in Hf as ->.
        split; [done|]. by exists [], cur, ((r, b) :: cs).
      * destruct (IH [] eq_refl Hf) as (Hne & pre & l & post & Heq & Hfl & Hl). split; [done|].
        exists (cur ++ (r, b) :: pre), l, post. simpl in Heq. by rewrite Heq, <-app_assoc.
    + intros Hf. destruct (IH (cur ++ [(r, b)])) as (Hne & pre & l & post & Heq & Hfl & Hl).
      * rewrite forallb_app, Hc. simpl. unfold nonspace. simpl. by rewrite Hr.
      * by rewrite unchunk_app; simpl; rewrite sapp_nil_r.
      * split; [done|]. exists pre, l, post. by rewrite <-Heq, <-app_assoc.
Qed.

(** Every field is a non-empty run of runes that are not spaces. *)
Lemma Fields_words s : Forall word (Fields s).
Proof.
  apply Forall_forall. intros f Hf.
  destruct (fields_from_elem [] (chunks s) f eq_refl Hf) as (Hne & pre & l & post & Heq & -> & Hl).
  split; [done|]. unfold no_space. simpl in Heq.
  pose proof (chunks_suffix _ _ _ Heq) as Hs. by rewrite (chunks_prefix _ _ _ Hs).
Qed.

Definition weight (fs : list string) : nat := list_sum (map (fun f => S (String.length f)) fs).

Lemma fields_from_weight cur cs :
  Forall (fun c => 1 <= String.length c.2)%nat cs ->
  (weight (fields_from cur cs) <= String.length cur + String.length (unchunk cs) + 1)%nat.
Proof.
  intros Hcs. revert cur; induction Hcs as [|[r b] cs Hb Hcs IH]; intros cur; simpl.
  - case_bool_decide; unfold weight; simpl; lia.
  - rewrite sapp_length. simpl in Hb. destruct (IsSpace r).
    + specialize (IH ""). simpl in IH.
      case_bool_decide; unfold weight in *; simpl; lia.
    + specialize (IH (cur +:+ b)). rewrite sapp_length in IH. lia.
Qed.

Lemma chunks_nonempty s : Forall (fun c => 1 <= String.length c.2)%nat (chunks s).
Proof.
  induction s as [|s Hs IH] using rune_ind; [constructor|]. rewrite chunks_cons by done.
  constructor; [|done]. simpl. pose proof (decode_fits s Hs).
  pose proof (f_equal String.length (take_drop_str (decode_rune s).2 s)) as H'.
  rewrite sapp_length, drop_str_length in H'. lia.
Qed.

Lemma join_with_length c fs : fs <> [] -> S (String.length (join_with c fs)) = weight fs.
Proof.
  induction fs as [|f fs IH]; [done|]. intros _. destruct fs as [|g fs]; [unfold weight; simpl; lia|].
  rewrite join_with_cons, sapp_length by done. cbn [String.length]. rewrite IH by done.
  unfold weight. simpl. lia.
Qed.

(** Rewriting a line with single blanks does not lengthen it. *)
Lemma Fields_join_length s :
  (String.length (join_with " " (Fields s)) <= String.length s)%nat.
Proof.
  destruct (decide (Fields s = [])) as [->|Hne]; [simpl; lia|].
  pose proof (join_with_length " " _ Hne).
  pose proof (fields_from_weight "" (chunks s) (chunks_nonempty s)) as Hw.
  rewrite unchunk_chunks in Hw. unfold Fields in *. simpl in Hw. lia.
Qed.

(** ** Lemmas: strings.TrimSpace *)

Lemma drop_spaces_length l : (String.length (unchunk (drop_spaces l)) <= String.length (unchunk l))%nat.
Proof. induction l as [|[r b] l IH]; [done|]. simpl. destruct (IsSpace r); simpl; rewrite ?sapp_length; lia. Qed.

Lemma unchunk_rev_length l : String.length (unchunk (List.rev l)) = String.length (unchunk l).
Proof. induction l as [|c l IH]; [done|]. simpl. rewrite unchunk_app, !sapp_length, IH. simpl. rewrite sapp_nil_r. lia. Qed.

Lemma TrimSpace_length s : (String.length (TrimSpace s) <= String.length s)%nat.
Proof.
  unfold TrimSpace. rewrite unchunk_rev_length. etrans; [apply drop_spaces_length|].
  rewrite unchunk_rev_length. etrans; [apply drop_spaces_length|]. by rewrite unchunk_chunks.
Qed.

Lemma drop_spaces_word l k : l <> [] -> forallb nonspace l = true -> drop_spaces (l ++ k) = l ++ k.
Proof.
  destruct l as [|[r b] l]; [done|]. intros _. simpl. unfold nonspace at 1. simpl.
  intros [Hr _]%andb_true_iff. apply negb_true_iff in Hr. by rewrite Hr.
Qed.

Lemma chunks_not_nil s : s <> "" -> chunks s <> [].
Proof. intros Hs. by rewrite chunks_cons. Qed.

Lemma forallb_rev {A} (f : A -> bool) l : forallb f (List.rev l) = forallb f l.
Proof. induction l as [|a l IH]; [done|]. simpl. rewrite forallb_app, IH. simpl. rewrite andb_true_r. apply andb_comm. Qed.

Lemma rev_not_nil {A} (l : list A) : l <> [] -> List.rev l <> [].
Proof. intros H Hr. apply H. by rewrite <-(rev_involutive l), Hr. Qed.

(** A line of words separated by blanks is not trimmed. *)
Lemma TrimSpace_edges f g t u :
  word f -> word g -> f +:+ String " " t = u +:+ String " " g ->
  TrimSpace (f +:+ String " " t) = f +:+ String " " t.
Proof.
  intros [Hf Hfn] [Hg Hgn] Heq. unfold TrimSpace.
  replace (drop_spaces (chunks (f +:+ String " " t))) with (chunks (f +:+ String " " t)).
  2: { rewrite chunks_app by done. rewrite drop_spaces_word; [done|by apply chunks_not_nil|done]. }
  replace (drop_spaces (List.rev (chunks (f +:+ String " " t)))) with (List.rev (chunks (f +:+ String " " t))).
  2: { rewrite Heq, chunks_app by done. rewrite (chunks_cons (String " " g)) by done.
       cbn [decode_rune snd drop_str]. rewrite rev_app_distr. cbn [List.rev]. rewrite <-app_assoc.
       rewrite drop_spaces_word; [done|by apply rev_not_nil, chunks_not_nil|by rewrite forallb_rev]. }
  by rewrite rev_involutive, unchunk_chunks.
Qed.

(** The bytes after the first of a rune are continuation bytes. *)
Lemma rune_bytes s c :
  has_byte c (take_str (decode_rune s).2 s) = true -> byte_z c < 128 -> (decode_rune s).1 = byte_z c.
Proof.
  destruct s as [|c0 [|c1 [|c2 [|c3 s]]]]; unfold decode_rune; [done|..];
    decode_cases; simpl; rewrite ?orb_false_r; intros H Hc;
    repeat (apply orb_true_iff in H as [H|H]); try apply bool_decide_eq_true in H; subst;
    unfold cont_in in *; bool_prop; destruct_and?; try done; try lia;
    repeat case_match; bool_prop; try lia.
Qed.

(** A word has no byte that is an ASCII space. *)
Lemma no_space_byte c s : byte_z c < 128 -> IsSpace (byte_z c) = true -> no_space s = true -> has_byte c s = false.
Proof.
  intros Hc Hsp. unfold no_space. induction s as [|s Hs IH] using rune_ind; [done|].
  rewrite chunks_cons by done. simpl. intros [Hr Hn]%andb_true_iff.
  rewrite <-(take_drop_str (decode_rune s).2 s), has_byte_app, IH, orb_false_r by done.
  apply not_true_is_false. intros Hb. apply rune_bytes in Hb; [|done].
  unfold nonspace in Hr. simpl in Hr. rewrite Hb, Hsp in Hr. done.
Qed.

(** Conversely, an ASCII string has the spaces its bytes say. *)
Lemma ascii_no_space p s :
  (forall c, p c = true -> byte_z c < 128 /\ IsSpace (byte_z c) = false) ->
  all_bytes p s = true -> no_space s = true.
Proof.
  intros Hp. unfold no_space. induction s as [|c s IH]; [done|]. cbn [all_bytes].
  intros [Hc Hs]%andb_true_iff. destruct (Hp c Hc) as [Ha Hsp].
  assert (decode_rune (String c s) = (byte_z c, 1%nat)) as Hd.
  { unfold decode_rune. by replace (byte_z c <? 128) with true by (symmetry; apply Z.ltb_lt; lia). }
  rewrite chunks_cons by done. rewrite Hd. simpl. unfold nonspace at 1. simpl. rewrite Hsp. by apply IH.
Qed.

(** ** Lemmas: lines *)

Lemma drop_cr_id s : has_byte "013" s = false -> drop_cr s = s.
Proof.
  intros H. unfold drop_cr. case_match eqn:Hs; [|done].
  apply has_suffix_spec in Hs as [t ->]. rewrite has_byte_app in H. simpl in H. by rewrite orb_true_r in H.
Qed.

Lemma scan_lines_unterminated ls :
  Forall (fun l => l <> "" /\ has_byte "010" l = false /\ has_byte "013" l = false) ls ->
  scan_lines (join_with "010" ls) = ls.
Proof.
  intros Hls. unfold scan_lines. destruct ls as [|l ls]; [done|].
  assert (split_on "010" (join_with "010" (l :: ls)) = l :: ls) as ->.
  { apply split_join; [done|]. eapply Forall_impl; [exact Hls|]. naive_solver. }
  replace (match List.rev (l :: ls) with "" :: r => List.rev r | _ => l :: ls end) with (l :: ls).
  - rewrite <-(map_id (l :: ls)) at 2. apply map_ext_in. intros a Ha.
    apply drop_cr_id. rewrite Forall_forall in Hls. apply Hls. by apply list_elem_of_In.
  - destruct (List.rev (l :: ls)) as [|x r] eqn:Hr; [done|]. destruct x; [|done].
    exfalso. rewrite Forall_forall in Hls. destruct (Hls "") as [H _]; [|done].
    apply list_elem_of_In. apply in_rev. rewrite Hr. by left.
Qed.

Lemma split_on_join_app c s v : split_on c (s +:+ String c v) = split_on c s ++ split_on c v.
Proof.
  induction s as [s Hc|s a r Hc IH] using (cut_ind c).
  - rewrite split_on_app by (by apply cut_None). by rewrite (split_on_cut_None _ _ Hc).
  - rewrite (split_on_cut_Some _ _ _ _ Hc). apply cut_Some in Hc as [-> Ha].
    rewrite sapp_assoc. cbn [String.append]. rewrite split_on_app, IH by done. done.
Qed.

(** A text that ends in a newline has the lines before its newlines. *)
Lemma scan_lines_terminated s : scan_lines (s +:+ String "010" "") = map drop_cr (split_on "010" s).
Proof.
  unfold scan_lines. rewrite split_on_join_app, rev_app_distr. cbn [split_on List.rev app].
  by rewrite rev_involutive.
Qed.
