(* ===== verification/Durations.v ===== *)
(** * Package time: durations and RFC 3339 instants as text

    [time.ParseDuration] with its two helpers, whose fractional part goes
    through float64 (the Standard Library's [SpecFloat] at 53 bits), and
    [time.Parse] with the layout [time.RFC3339].  The main law is that
    [ParseDuration] reads back what [Duration.String] prints, for every
    duration: the fraction is exact because the products stay below 2^53. *)

From Stdlib Require Import Floats.SpecFloat.
From S2P Require Import Prelude GoText TextFields.

(** ** float64 *)

Abbreviation float64 := spec_float (only parsing).

Definition f64_of_int (n : Z) : float64 := binary_normalize 53 1024 n 0 false.
Definition f64_mul : float64 -> float64 -> float64 := SFmul 53 1024.
Definition f64_div : float64 -> float64 -> float64 := SFdiv 53 1024.

(** The conversion [uint64(x)] of a non-negative value in range: truncation. *)
Definition f64_trunc (x : float64) : Z :=
  match x with
  | S754_finite s m e =>
      let v := if 0 <=? e then Zpos m * 2 ^ e else Zpos m / 2 ^ (- e) in
      if s then - v else v
  | _ => 0
  end.

(** ** ParseDuration *)

Definition two63 : Z := 2 ^ 63.

(** [leadingInt]: [None] is its overflow error. *)
Fixpoint leadingInt (x : Z) (s : string) : option (Z * string) :=
  match s with
  | EmptyString => Some (x, s)
  | String c s' =>
      if is_digit c then
        if two63 / 10 <? x then None
        else
          let x' := x * 10 + digit_val c in
          if two63 <? x' then None else leadingInt x' s'
      else Some (x, s)
  end.

(** [leadingFraction]: digits beyond the precision of the accumulator are
    dropped. *)
Fixpoint leadingFraction (x : Z) (scale : float64) (overflow : bool) (s : string) : Z * float64 * string :=
  match s with
  | EmptyString => (x, scale, s)
  | String c s' =>
      if is_digit c then
        if overflow then leadingFraction x scale true s'
        else if (two63 - 1) / 10 <? x then leadingFraction x scale true s'
        else
          let y := x * 10 + digit_val c in
          if two63 <? y then leadingFraction x scale true s'
          else leadingFraction y (f64_mul scale (f64_of_int 10)) false s'
      else (x, scale, s)
  end.

Definition unit_byte (c : ascii) : bool := negb ((byte_z c =? 46) || is_digit c).

(** The run of bytes up to the next digit or period, and the rest. *)
Fixpoint span_unit (s : string) : string * string :=
  match s with
  | EmptyString => ("", "")
  | String c s' => if unit_byte c then let '(u, r) := span_unit s' in (String c u, r) else ("", s)
  end.

Definition micro_sign : string := String "194" (String "181" "s").
Definition greek_mu : string := String "206" (String "188" "s").

Definition unitMap (u : string) : option Z :=
  if bool_decide (u = "ns") then Some 1
  else if bool_decide (u = "us") || bool_decide (u = micro_sign) || bool_decide (u = greek_mu) then Some 1000
  else if bool_decide (u = "ms") then Some Millisecond
  else if bool_decide (u = "s") then Some Second
  else if bool_decide (u = "m") then Some Minute
  else if bool_decide (u = "h") then Some Hour
  else None.

(** The next character must be a digit or a period. *)
Definition num_head (s : string) : bool :=
  match s with
  | EmptyString => false
  | String c _ => (byte_z c =? 46) || is_digit c
  end.

(** The fraction, if one follows: its digits, its scale, the rest, and whether
    it had any digit. *)
Definition pd_fraction (s : string) : Z * float64 * string * bool :=
  match s with
  | String c s' =>
      if byte_z c =? 46 then
        let '(f, scale, r) := leadingFraction 0 (f64_of_int 1) false s' in
        (f, scale, r, negb (String.length r =? String.length s')%nat)
      else (0, f64_of_int 1, s, false)
  | EmptyString => (0, f64_of_int 1, s, false)
  end.

(** One number with its unit: the nanoseconds it counts and the rest. *)
Definition pd_item (s : string) : option (Z * string) :=
  if negb (num_head s) then None
  else
    '(v, s1) ← leadingInt 0 s;
    let pre := negb (String.length s1 =? String.length s)%nat in
    let '(f, scale, s2, post) := pd_fraction s1 in
    if negb pre && negb post then None
    else
      let '(u, s3) := span_unit s2 in
      if bool_decide (u = "") then None
      else
        unit ← unitMap u;
        if two63 / unit <? v then None
        else
          let v := v * unit in
          if 0 <? f then
            let v := v + f64_trunc (f64_mul (f64_of_int f) (f64_div (f64_of_int unit) scale)) in
            if two63 <? v then None else Some (v, s3)
          else Some (v, s3).

(** The loop; an iteration consumes at least one byte, so the length of the
    text bounds their number.  The sum is a uint64 and wraps before it is
    compared. *)
Fixpoint pd_loop (fuel : nat) (d : Z) (s : string) : option Z :=
  match s, fuel with
  | EmptyString, _ => Some d
  | _, O => None
  | _, S fuel' =>
      '(v, s') ← pd_item s;
      let d := (d + v) mod 2 ^ 64 in
      if two63 <? d then None else pd_loop fuel' d s'
  end.

(** [time.ParseDuration]; [None] is any of its errors. *)
Definition ParseDuration (s : string) : option Z :=
  let '(neg, s) := match s with
                   | String c s' => if byte_z c =? 45 then (true, s') else if byte_z c =? 43 then (false, s') else (false, s)
                   | EmptyString => (false, s)
                   end in
  if bool_decide (s = "0") then Some 0
  else if bool_decide (s = "") then None
  else
    d ← pd_loop (String.length s) 0 s;
    if neg then Some (- d)
    else if two63 - 1 <? d then None else Some d.

(** ** time.Parse(time.RFC3339, value) *)

(** [getnum]: one or two digits, two when [fixed]. *)
Definition getnum (fixed : bool) (s : string) : option (Z * string) :=
  match s with
  | String a s1 =>
      if negb (is_digit a) then None
      else match s1 with
           | String b s2 =>
               if is_digit b then Some (digit_val a * 10 + digit_val b, s2)
               else if fixed then None else Some (digit_val a, s1)
           | EmptyString => if fixed then None else Some (digit_val a, s1)
           end
  | EmptyString => None
  end.

Definition skip_byte (c : ascii) (s : string) : option string :=
  match s with
  | String a s' => if bool_decide (a = c) then Some s' else None
  | EmptyString => None
  end.

Definition isLeap (y : Z) : bool := (y mod 4 =? 0) && (negb (y mod 100 =? 0) || (y mod 400 =? 0)).

Definition daysIn (m y : Z) : Z :=
  if m =? 2 then if isLeap y then 29 else 28
  else if existsb (fun x => m =? x) [4; 6; 9; 11] then 30 else 31.

Definition days_before_month (m y : Z) : Z :=
  sumZ (map (fun k => daysIn (Z.of_nat k) y) (seq 1 (Z.to_nat (m - 1)))).

(** Days from 1970-01-01, proleptic Gregorian. *)
Definition days_from_civil (y m d : Z) : Z :=
  let p := y - 1 in
  365 * p + p / 4 - p / 100 + p / 400 + days_before_month m y + (d - 1) - 719162.

(** The digits of a fraction of a second after its separator. *)
Fixpoint frac_nanos (left : nat) (s : string) : Z :=
  match left, s with
  | S k, String c s' => if is_digit c then digit_val c * 10 ^ Z.of_nat k + frac_nanos k s' else 0
  | _, _ => 0
  end.

Fixpoint drop_digits (s : string) : string :=
  match s with
  | String c s' => if is_digit c then drop_digits s' else s
  | EmptyString => EmptyString
  end.

Definition parse_fraction (s : string) : Z * string :=
  match s with
  | String c (String d _ as s') =>
      if ((byte_z c =? 46) || (byte_z c =? 44)) && is_digit d then (frac_nanos 9 s', drop_digits s') else (0, s)
  | _ => (0, s)
  end.

(** The zone: seconds east of UTC. *)
Definition parse_zone (s : string) : option (Z * string) :=
  match s with
  | EmptyString => None
  | String sign s1 =>
      if byte_z sign =? 90 then Some (0, s1)
      else match s1 with
           | String h1 (String h2 (String x (String m1 (String m2 s')))) =>
               if negb (byte_z x =? 58) then None
               else
                 '(hr, _) ← getnum true (String h1 (String h2 ""));
                 '(mm, _) ← getnum true (String m1 (String m2 ""));
                 if (24 <? hr) || (60 <? mm) then None
                 else
                   let off := (hr * 60 + mm) * 60 in
                   if byte_z sign =? 43 then Some (off, s')
                   else if byte_z sign =? 45 then Some (- off, s') else None
           | _ => None
           end
  end.

(** The instant in nanoseconds since the epoch; [None] is a parse error. *)
Definition parse_rfc3339 (s : string) : option Z :=
  '(y1, s) ← getnum true s;
  '(y2, s) ← getnum true s;
  let year := y1 * 100 + y2 in
  s ← skip_byte "-" s;
  '(month, s) ← getnum true s;
  if (month <=? 0) || (12 <? month) then None
  else
    s ← skip_byte "-" s;
    '(day, s) ← getnum true s;
    s ← skip_byte "T" s;
    '(hour, s) ← getnum false s;
    if 24 <=? hour then None
    else
      s ← skip_byte ":" s;
      '(min, s) ← getnum true s;
      if 60 <=? min then None
      else
        s ← skip_byte ":" s;
        '(sec, s) ← getnum true s;
        if 60 <=? sec then None
        else
          let '(ns, s) := parse_fraction s in
          '(off, s) ← parse_zone s;
          if negb (bool_decide (s = "")) then None
          else if (day <? 1) || (daysIn month year <? day) then None
          else Some ((days_from_civil year month day * 86400 + hour * 3600 + min * 60 + sec - off) * Second + ns).

Example parse_rfc3339_epoch : parse_rfc3339 "1970-01-01T00:00:00Z" = Some 0.
Proof. by vm_compute. Qed.

Example parse_rfc3339_sample :
  parse_rfc3339 "2026-11-16T10:20:30.25+02:00" = Some (1794817230 * Second + 250 * Millisecond).
Proof. by vm_compute. Qed.

(** Two halves of the range wrap to zero, as in the library. *)
Example ParseDuration_wrap : ParseDuration "9223372036854775808ns9223372036854775808ns" = Some 0.
Proof. by vm_compute. Qed.

Example ParseDuration_samples :
  map ParseDuration ["1h30m"; "-1.5h"; ".5s"; "0"; "1d"; "9223372036854775808ns"; "-9223372036854775808ns"; "1.000000000000000000001s"]
  = [Some (90 * Minute); Some (- 90 * Minute); Some (500 * Millisecond); Some 0; None; None; Some (- 2 ^ 63); Some Second].
Proof. by vm_compute. Qed.

(** ** Lemmas: float64 products of small integers are exact *)

Lemma digits2_bounds (m : positive) :
  2 ^ (Zpos (digits2_pos m) - 1) <= Zpos m < 2 ^ Zpos (digits2_pos m).
Proof.
  induction m as [m IH|m IH|]; cbn [digits2_pos]; [| |lia];
    rewrite Pos2Z.inj_succ, Z.pow_succ_r by lia;
    replace (Z.succ (Zpos (digits2_pos m)) - 1) with (Z.succ (Zpos (digits2_pos m) - 1)) by lia;
    rewrite Z.pow_succ_r by lia; lia.
Qed.

Lemma digits2_unique (m : positive) k : 0 < k -> 2 ^ (k - 1) <= Zpos m < 2 ^ k -> Zpos (digits2_pos m) = k.
Proof.
  intros Hk Hm. pose proof (digits2_bounds m) as Hd. set (d := Zpos (digits2_pos m)) in *.
  assert (0 < d) by done.
  destruct (Z.lt_trichotomy d k) as [Hlt|[->|Hgt]]; [|done|].
  - assert (2 ^ d <= 2 ^ (k - 1)) by (apply Z.pow_le_mono_r; lia). lia.
  - assert (2 ^ k <= 2 ^ (d - 1)) by (apply Z.pow_le_mono_r; lia). lia.
Qed.

(** A mantissa of 53 bits is already rounded. *)
Lemma round_full m e :
  Zpos (digits2_pos m) = 53 -> -1000 <= e <= 0 ->
  binary_round_aux 53 1024 false (Zpos m) e loc_Exact = S754_finite false m e.
Proof.
  intros Hd He. unfold binary_round_aux, shr_fexp. cbn [Zdigits2]. rewrite Hd.
  replace (fexp 53 1024 (53 + e) - e) with 0 by (unfold fexp, emin; lia).
  cbn [shr shr_record_of_loc shr_m loc_of_shr_record round_nearest_even Zdigits2]. rewrite Hd.
  replace (fexp 53 1024 (53 + e) - e) with 0 by (unfold fexp, emin; lia).
  cbn [shr shr_record_of_loc shr_m]. by replace (e <=? 1024 - 53) with true by (symmetry; apply Z.leb_le; lia).
Qed.

Lemma iter_xO m d : Zpos (Pos.iter xO m d) = Zpos m * 2 ^ Zpos d.
Proof.
  induction d as [|d IH] using Pos.peano_ind; [simpl; lia|].
  rewrite Pos.iter_succ, Pos2Z.inj_succ, Z.pow_succ_r by lia. rewrite Pos2Z.inj_xO, IH. lia.
Qed.

(** An integer below 2^53 as a float: its mantissa shifted to 53 bits. *)
Lemma f64_of_small n :
  0 < n < 2 ^ 53 ->
  exists m k, 0 <= k <= 52 /\ f64_of_int n = S754_finite false m (- k) /\ Zpos m = n * 2 ^ k /\
    Zpos (digits2_pos m) = 53.
Proof.
  intros Hn. destruct n as [|p|p]; try lia. unfold f64_of_int. cbn [binary_normalize].
  unfold binary_round. pose proof (digits2_bounds p) as Hd. set (d := Zpos (digits2_pos p)) in *.
  assert (d <= 53).
  { destruct (Z.le_gt_cases d 53); [done|]. assert (2 ^ 53 <= 2 ^ (d - 1)) by (apply Z.pow_le_mono_r; lia). lia. }
  assert (1 <= d) by lia.
  replace (fexp 53 1024 (d + 0)) with (d - 53) by (unfold fexp, emin; lia).
  unfold shl_align. rewrite Z.sub_0_r. destruct (d - 53) as [|q|q] eqn:Hq; [|lia|].
  - exists p, 0. split_and!; [lia|lia| |lia|lia]. rewrite round_full; [done|lia|lia].
  - assert (Zpos (digits2_pos (Pos.iter xO p q)) = 53) as H53.
    { apply digits2_unique; [lia|]. rewrite iter_xO. replace (Zpos q) with (53 - d) by lia.
      replace (2 ^ 53) with (2 ^ d * 2 ^ (53 - d)) by (rewrite <-Z.pow_add_r by lia; f_equal; lia).
      replace (2 ^ (53 - 1)) with (2 ^ (d - 1) * 2 ^ (53 - d)) by (rewrite <-Z.pow_add_r by lia; f_equal; lia).
      assert (0 < 2 ^ (53 - d)) by (apply Z.pow_pos_nonneg; lia). nia. }
    exists (Pos.iter xO p q), (Zpos q). split_and!; [lia|lia| |apply iter_xO|done].
    change (- Zpos q) with (Zneg q). rewrite round_full; [done|done|lia].
Qed.

Lemma iter_pos_nat {A} (f : A -> A) (p : positive) (x : A) : SpecFloat.iter_pos f p x = Nat.iter (Pos.to_nat p) f x.
Proof.
  revert x; induction p as [p IH|p IH|]; intros x; cbn [SpecFloat.iter_pos]; rewrite ?IH.
  - rewrite <-Nat.iter_add, <-Nat.iter_succ_r. f_equal. lia.
  - rewrite <-Nat.iter_add. f_equal. lia.
  - done.
Qed.

Lemma shr_exact n q : 0 < q -> Nat.iter n shr_1 (Build_shr_record (q * 2 ^ Z.of_nat n) false false)
  = Build_shr_record q false false.
Proof.
  intros Hq. induction n as [|n IH]; [cbn; f_equal; lia|].
  rewrite Nat.iter_succ_r. rewrite Nat2Z.inj_succ, Z.pow_succ_r by lia.
  replace (q * (2 * 2 ^ Z.of_nat n)) with (2 * (q * 2 ^ Z.of_nat n)) by lia.
  assert (0 < q * 2 ^ Z.of_nat n) by (apply Z.mul_pos_pos; [done|apply Z.pow_pos_nonneg; lia]).
  destruct (q * 2 ^ Z.of_nat n) as [|p|p] eqn:He; try lia. cbn [Z.mul Pos.mul shr_1 orb]. apply IH.
Qed.

(** Rounding a product whose low bits are zero is exact. *)
Lemma round_shifted q n e :
  0 < q -> (exists p, q = Zpos p /\ Zpos (digits2_pos p) = 53) -> 0 <= n -> -1000 <= e + n <= 0 -> -1000 <= e ->
  exists p, q = Zpos p /\
  binary_round_aux 53 1024 false (q * 2 ^ n) e loc_Exact = S754_finite false p (e + n).
Proof.
  intros Hq (p & -> & Hp) Hn He He'. exists p. split; [done|]. unfold binary_round_aux, shr_fexp.
  assert (Zdigits2 (Zpos p * 2 ^ n) = 53 + n) as Hdig.
  { pose proof (digits2_bounds p) as Hb. rewrite Hp in Hb.
    assert (0 < 2 ^ n) by (apply Z.pow_pos_nonneg; lia).
    destruct (Zpos p * 2 ^ n) as [|r|r] eqn:Hr; try lia. cbn [Zdigits2]. apply digits2_unique; [lia|].
    rewrite <-Hr. replace (2 ^ (53 + n)) with (2 ^ 53 * 2 ^ n) by (rewrite <-Z.pow_add_r by lia; done).
    replace (2 ^ (53 + n - 1)) with (2 ^ (53 - 1) * 2 ^ n) by (rewrite <-Z.pow_add_r by lia; f_equal; lia). nia. }
  rewrite Hdig. replace (fexp 53 1024 (53 + n + e) - e) with n by (unfold fexp, emin; lia).
  assert (shr (shr_record_of_loc (Zpos p * 2 ^ n) loc_Exact) e n = (Build_shr_record (Zpos p) false false, e + n)) as ->.
  { cbn [shr_record_of_loc]. destruct n as [|k|k]; [|unfold shr|lia].
    - cbn [shr]. by rewrite Z.add_0_r, Z.mul_1_r.
    - rewrite iter_pos_nat. replace (2 ^ Zpos k) with (2 ^ Z.of_nat (Pos.to_nat k)) by (f_equal; lia).
      by rewrite shr_exact. }
  cbn [shr_m loc_of_shr_record round_nearest_even Zdigits2]. rewrite Hp.
  replace (fexp 53 1024 (53 + (e + n)) - (e + n)) with 0 by (unfold fexp, emin; lia).
  cbn [shr shr_record_of_loc shr_m]. by replace (e + n <=? 1024 - 53) with true by (symmetry; apply Z.leb_le; lia).
Qed.

Lemma f64_mul_exact a b :
  0 < a -> 0 < b -> a * b < 2 ^ 53 -> f64_trunc (f64_mul (f64_of_int a) (f64_of_int b)) = a * b.
Proof.
  intros Ha Hb Hab. destruct (f64_of_small a) as (m & k & Hk & -> & Hm & Hmd); [nia|].
  destruct (f64_of_small b) as (m' & k' & Hk' & -> & Hm' & Hmd'); [nia|].
  destruct (f64_of_small (a * b)) as (p & j & Hj & _ & Hp & Hpd); [nia|].
  unfold f64_mul. cbn [SFmul xorb].
  assert (j <= k + k') as Hjk.
  { apply Z.nlt_ge. intros Hlt. pose proof (digits2_bounds m) as B. pose proof (digits2_bounds m') as B'.
    pose proof (digits2_bounds p) as Bp. rewrite Hmd in B. rewrite Hmd' in B'. rewrite Hpd in Bp.
    assert (2 ^ (k + k' + 1) <= 2 ^ j) by (apply Z.pow_le_mono_r; lia).
    rewrite !Z.pow_add_r in * by lia. assert (Zpos m * Zpos m' = a * b * (2 ^ k * 2 ^ k')) by nia.
    assert (2 ^ 52 * 2 ^ 52 <= Zpos m * Zpos m') by nia. nia. }
  assert (Zpos (m * m') = Zpos p * 2 ^ (k + k' - j)) as Hprod.
  { rewrite Pos2Z.inj_mul, Hm, Hm', Hp. rewrite <-!Z.mul_assoc.
    replace (2 ^ j * 2 ^ (k + k' - j)) with (2 ^ k * 2 ^ k') by (rewrite <-!Z.pow_add_r by lia; f_equal; lia). lia. }
  rewrite Hprod. destruct (round_shifted (Zpos p) (k + k' - j) (- k + - k')) as (p' & [= <-] & ->);
    [lia|eauto|lia|lia|lia|].
  replace (- k + - k' + (k + k' - j)) with (- j) by lia. cbn [f64_trunc].
  assert (0 < 2 ^ j) by (apply Z.pow_pos_nonneg; lia).
  destruct (0 <=? - j) eqn:Hz; bool_prop.
  - assert (j = 0) as -> by lia. rewrite Hp. simpl. lia.
  - rewrite Z.opp_involutive, Hp. by apply Z.div_mul; lia.
Qed.

(** ** Lemmas: the numbers of a duration *)

(** Nothing, or a byte that is not a digit. *)
Definition no_digit_head (s : string) : bool :=
  match s with
  | EmptyString => true
  | String c _ => negb (is_digit c)
  end.

Lemma leadingInt_digits x w rest :
  0 <= x -> all_bytes is_digit w = true -> no_digit_head rest = true -> dec_val x w <= two63 ->
  leadingInt x (w +:+ rest) = Some (dec_val x w, rest).
Proof.
  revert x; induction w as [|c w IH]; intros x Hx; cbn [all_bytes String.append dec_val].
  - intros _ Hr _. destruct rest as [|c rest]; [done|]. simpl in *. apply negb_true_iff in Hr. by rewrite Hr.
  - intros [Hc Hw]%andb_true_iff Hr Hv. cbn [leadingInt]. rewrite Hc. pose proof (is_digit_range _ Hc) as Hd.
    pose proof (dec_val_ge (x * 10 + digit_val c) w ltac:(lia) Hw) as Hge.
    rewrite (proj2 (Z.ltb_ge _ _)) by (apply Z.div_le_lower_bound; lia).
    rewrite (proj2 (Z.ltb_ge two63 _)) by lia. by apply IH; [lia| | |].
Qed.

Lemma leadingFraction_digits x scale w rest :
  0 <= x -> all_bytes is_digit w = true -> no_digit_head rest = true -> dec_val x w < 10 ^ 9 ->
  leadingFraction x scale false (w +:+ rest) =
  (dec_val x w, Nat.iter (String.length w) (fun s => f64_mul s (f64_of_int 10)) scale, rest).
Proof.
  revert x scale; induction w as [|c w IH]; intros x scale Hx; cbn [all_bytes String.append dec_val].
  - intros _ Hr _. destruct rest as [|c rest]; [done|]. simpl in *. apply negb_true_iff in Hr. by rewrite Hr.
  - intros [Hc Hw]%andb_true_iff Hr Hv. cbn [leadingFraction String.length]. rewrite Hc. pose proof (is_digit_range _ Hc) as Hd.
    pose proof (dec_val_ge (x * 10 + digit_val c) w ltac:(lia) Hw) as Hge.
    rewrite (proj2 (Z.ltb_ge _ x)) by (change ((two63 - 1) / 10) with 922337203685477580; lia).
    rewrite (proj2 (Z.ltb_ge two63 _)) by (unfold two63; lia). rewrite IH by (done || lia).
    by rewrite Nat.iter_succ_r.
Qed.

(** The powers of ten the fractions divide by. *)
Lemma scale_exact prec k :
  (prec = 3 \/ prec = 6 \/ prec = 9)%nat -> (1 <= k <= prec)%nat ->
  f64_div (f64_of_int (10 ^ Z.of_nat prec)) (Nat.iter k (fun s => f64_mul s (f64_of_int 10)) (f64_of_int 1))
  = f64_of_int (10 ^ Z.of_nat (prec - k)).
Proof.
  intros Hp Hk. assert (List.In k (seq 1 9)) as Hin by (apply in_seq; lia). cbn [seq] in Hin.
  destruct Hp as [-> |[-> | ->]]; repeat (destruct Hin as [<-|Hin]; [try lia; vm_compute; reflexivity|]); done.
Qed.

Lemma dec_val_pad n s : dec_val 0 (pad_zeros n s) = dec_val 0 s.
Proof. induction n as [|n IH]; [done|]. exact IH. Qed.

Lemma pad_zeros_length n s : String.length (pad_zeros n s) = (n + String.length s)%nat.
Proof. induction n; simpl; congruence. Qed.

Lemma pad_zeros_digits n s : all_bytes is_digit s = true -> all_bytes is_digit (pad_zeros n s) = true.
Proof. intros H. induction n; simpl; auto. Qed.

Lemma drop_zeros_spec s :
  exists j, (String.length s = String.length (drop_zeros s) + j)%nat /\
    (forall acc, dec_val acc s = dec_val acc (drop_zeros s) * 10 ^ Z.of_nat j) /\
    (all_bytes is_digit s = true -> all_bytes is_digit (drop_zeros s) = true).
Proof.
  induction s as [|c s (j & Hl & Hv & Hd)]; [by exists 0%nat; simpl; split_and!; [lia|intros; lia|]|].
  cbn [drop_zeros]. destruct (drop_zeros s) as [|c' s'] eqn:He.
  - case_bool_decide as Hc.
    + subst c. exists (S j). cbn [String.length]. split_and!; [simpl in Hl; lia| |done].
      intros acc. cbn [dec_val]. rewrite Hv. change (digit_val "0") with 0. cbn [dec_val].
      rewrite Nat2Z.inj_succ, Z.pow_succ_r by lia. lia.
    + exists j. cbn [String.length] in *. split_and!; [lia| |].
      * intros acc. cbn [dec_val]. by rewrite Hv.
      * cbn [all_bytes]. intros [-> _]%andb_true_iff. done.
  - exists j. cbn [String.length] in *. split_and!; [lia| |].
    + intros acc. cbn [dec_val]. rewrite Hv. done.
    + cbn [all_bytes] in *. intros [-> H]%andb_true_iff. by rewrite Hd.
Qed.

(** The fraction [Duration.String] prints: its digits without trailing zeros. *)
Lemma frac_part_spec prec v :
  (1 <= prec <= 20)%nat -> 0 <= v < 10 ^ Z.of_nat prec ->
  (v = 0 /\ frac_part prec v = "") \/
  exists w, frac_part prec v = String "." w /\ all_bytes is_digit w = true /\ (1 <= String.length w <= prec)%nat /\
    dec_val 0 w * 10 ^ Z.of_nat (prec - String.length w) = v.
Proof.
  intros Hp Hv. unfold frac_part. set (ds := format_uint v).
  assert (all_bytes is_digit ds = true) as Hds by (apply format_digits_digits; lia).
  assert (dec_val 0 ds = v) as Hdv.
  { unfold ds, format_uint. rewrite (format_digits_fuel prec 20) by lia. apply format_digits_val. lia. }
  assert (String.length ds <= prec)%nat as Hlen.
  { unfold ds, format_uint. rewrite (format_digits_fuel prec 20) by lia. apply format_digits_length. }
  destruct (drop_zeros_spec (pad_zeros (prec - String.length ds) ds)) as (j & Hl & Hval & Hdig).
  rewrite pad_zeros_length in Hl. specialize (Hval 0). rewrite dec_val_pad, Hdv in Hval.
  specialize (Hdig (pad_zeros_digits _ _ Hds)).
  destruct (drop_zeros (pad_zeros (prec - String.length ds) ds)) as [|c w].
  - left. split; [|done]. cbn [dec_val] in Hval. lia.
  - right. exists (String c w). split_and!; [done|done|cbn [String.length]; lia|lia|].
    replace (prec - String.length (String c w))%nat with j by (cbn [String.length] in *; lia). done.
Qed.

Lemma span_unit_app u rest :
  all_bytes unit_byte u = true -> (rest = "" \/ num_head rest = true) -> span_unit (u +:+ rest) = (u, rest).
Proof.
  intros Hu Hr. induction u as [|c u IH]; cbn [String.append].
  - destruct rest as [|c rest]; [done|]. destruct Hr as [?|Hr]; [done|]. cbn [num_head] in Hr. cbn [span_unit].
    unfold unit_byte. by rewrite Hr.
  - cbn [all_bytes] in Hu. apply andb_true_iff in Hu as [Hc Hu]. cbn [span_unit]. by rewrite Hc, IH.
Qed.

Lemma format_uint_digits n : 0 <= n -> exists c t, format_uint n = String c t /\ is_digit c = true.
Proof.
  intros Hn. pose proof (format_digits_digits 20 n Hn) as H. pose proof (format_digits_not_empty 19 n) as Hne.
  unfold format_uint. destruct (format_digits 20 n) as [|c t]; [done|]. cbn [all_bytes] in H.
  apply andb_true_iff in H as [Hc _]. eauto.
Qed.

Lemma unit_byte_not_digit c : unit_byte c = true -> is_digit c = false /\ (byte_z c =? 46) = false.
Proof. unfold unit_byte. rewrite negb_true_iff, orb_false_iff. tauto. Qed.

(** Where a printed number, its fraction and its unit are read back. *)
Lemma pd_item_spec n prec v u unit rest :
  0 <= n -> (1 <= prec <= 9)%nat -> 0 <= v < 10 ^ Z.of_nat prec ->
  v = 0 \/ (prec = 3 \/ prec = 6 \/ prec = 9)%nat /\ unit = 10 ^ Z.of_nat prec ->
  unitMap u = Some unit -> all_bytes unit_byte u = true -> u <> "" -> 0 < unit ->
  rest = "" \/ num_head rest = true -> n * unit + v <= two63 ->
  pd_item (format_uint n +:+ frac_part prec v +:+ u +:+ rest) = Some (n * unit + v, rest).
Proof.
  intros Hn Hp Hv Hfr Hu Hub Hne Hunit Hrest Hle. unfold pd_item.
  destruct (format_uint_digits n Hn) as (c0 & t0 & Hf0 & Hc0).
  assert (num_head (format_uint n +:+ frac_part prec v +:+ u +:+ rest) = true) as ->.
  { rewrite Hf0. cbn [String.append num_head]. rewrite Hc0. apply orb_true_r. }
  assert (dec_val 0 (format_uint n) = n) as Hdn by (apply format_digits_val; unfold two63 in Hle; nia).
  assert (all_bytes is_digit (format_uint n) = true) as Hdig by (by apply format_digits_digits).
  destruct u as [|c u]; [done|]. cbn [all_bytes] in Hub. apply andb_true_iff in Hub as [Hc Hub].
  destruct (unit_byte_not_digit c Hc) as [Hcd Hcp].
  assert (forall r, span_unit (String c u +:+ r) = (String c u, r) \/ (r <> "" /\ num_head r = false)) as Hspan.
  { intros r. destruct (decide (r = "")) as [->|Hr]; [left; apply span_unit_app; [cbn [all_bytes]; by rewrite Hc|by left]|].
    destruct (num_head r) eqn:Hh; [|by right]. left. apply span_unit_app; [cbn [all_bytes]; by rewrite Hc|by right]. }
  assert (span_unit (String c u +:+ rest) = (String c u, rest)) as Hsp.
  { destruct (Hspan rest) as [?|[? ?]]; [done|]. by destruct Hrest; congruence. }
  assert (n <= two63) by nia.
  assert (n <= two63 / unit) as Hdiv by (apply Z.div_le_lower_bound; lia).
  assert (forall r, (String.length r =? String.length (format_uint n +:+ r))%nat = false) as Hpre.
  { intros r. apply Nat.eqb_neq. rewrite Hf0, sapp_length. cbn [String.length]. lia. }
  cbn [negb]. destruct (frac_part_spec prec v ltac:(lia) Hv) as [[-> ->]|(w & -> & Hw & Hwl & Hwv)].
  - cbn [String.append]. rewrite leadingInt_digits; [|lia|done|cbn [no_digit_head]; by rewrite Hcd|lia].
    cbn [mbind option_bind]. rewrite Hpre. cbn [negb pd_fraction andb]. rewrite Hcp.
    change (String c (u +:+ rest)) with (String c u +:+ rest).
    rewrite Hsp, bool_decide_eq_false_2, Hu by done. cbn [mbind option_bind].
    rewrite Hdn, (proj2 (Z.ltb_ge _ _) Hdiv). cbn. by rewrite Z.add_0_r.
  - cbn [String.append]. rewrite leadingInt_digits by (done || lia). cbn [mbind option_bind].
    rewrite Hpre. cbn [negb pd_fraction andb]. change (byte_z "." =? 46) with true. cbn match.
    assert (0 < 10 ^ Z.of_nat (prec - String.length w)) by (apply Z.pow_pos_nonneg; lia).
    pose proof (dec_val_ge 0 w ltac:(lia) Hw) as Hw0.
    assert (10 ^ Z.of_nat prec <= 10 ^ 9) by (apply Z.pow_le_mono_r; lia).
    change (String c (u +:+ rest)) with (String c u +:+ rest).
    rewrite leadingFraction_digits; [|lia|done|cbn [no_digit_head String.append]; by rewrite Hcd|nia].
    rewrite Hsp, bool_decide_eq_false_2, Hu by done. cbn [mbind option_bind].
    rewrite Hdn, (proj2 (Z.ltb_ge _ _) Hdiv). destruct (0 <? dec_val 0 w) eqn:Hf; bool_prop.
    + destruct Hfr as [->|[Hprec ->]]; [nia|]. rewrite scale_exact by done.
      rewrite f64_mul_exact by nia. rewrite Hwv. by rewrite (proj2 (Z.ltb_ge _ _) Hle).
    + replace v with 0 by nia. by rewrite Z.add_0_r.
Qed.

Lemma pd_loop_fuel f g d s r : pd_loop f d s = Some r -> (f <= g)%nat -> pd_loop g d s = Some r.
Proof.
  revert g d s; induction f as [|f IH]; intros g d s H Hg.
  - destruct s; [|done]. by destruct g.
  - destruct g as [|g]; [lia|]. destruct s as [|c s]; [done|]. cbn [pd_loop] in *.
    destruct (pd_item (String c s)) as [[v s']|]; [|done]. cbn [mbind option_bind] in *.
    case_match; [done|]. apply IH; [done|lia].
Qed.

Lemma pd_loop_step f d s v s' :
  s <> "" -> pd_item s = Some (v, s') -> 0 <= d + v <= two63 -> pd_loop (S f) d s = pd_loop f (d + v) s'.
Proof.
  intros Hs Hi Hd. destruct s as [|c s]; [done|]. cbn [pd_loop]. rewrite Hi. cbn [mbind option_bind].
  rewrite Z.mod_small by (unfold two63 in *; lia). by rewrite (proj2 (Z.ltb_ge _ _)) by lia.
Qed.

Lemma format_app_ne n s : 0 <= n -> format_uint n +:+ s <> "".
Proof. intros Hn. destruct (format_uint_digits n Hn) as (c & t & -> & _). done. Qed.

Lemma format_app_head n s : 0 <= n -> num_head (format_uint n +:+ s) = true.
Proof. intros Hn. destruct (format_uint_digits n Hn) as (c & t & -> & Hc). cbn. rewrite Hc. apply orb_true_r. Qed.

(** A printed seconds part ends the text. *)
Lemma pd_seconds f d n v :
  0 <= d -> 0 <= n -> 0 <= v < Second -> d + (n * Second + v) <= two63 ->
  pd_loop (S f) d (format_uint n +:+ frac_part 9 v +:+ "s") = Some (d + (n * Second + v)).
Proof.
  intros Hd Hn Hv Hle. rewrite (pd_loop_step f d _ (n * Second + v) ""); [by destruct f|by apply format_app_ne| |unfold Second, Millisecond in *; lia].
  change "s" with ("s" +:+ ""). apply pd_item_spec; try done; [lia|right; split; [lia|done]|by left|lia].
Qed.

(** A whole number of a larger unit comes first. *)
Lemma pd_whole f d n u unit rest :
  0 <= d -> 0 <= n -> unitMap u = Some unit -> all_bytes unit_byte u = true -> u <> "" -> 0 < unit ->
  rest = "" \/ num_head rest = true -> d + n * unit <= two63 ->
  pd_loop (S f) d (format_uint n +:+ u +:+ rest) = pd_loop f (d + n * unit) rest.
Proof.
  intros Hd Hn Hu Hub Hne Hunit Hrest Hle. apply pd_loop_step; [by apply format_app_ne| |nia].
  replace (n * unit) with (n * unit + 0) by lia.
  change (u +:+ rest) with ("" +:+ u +:+ rest). change "" with (frac_part 9 0) at 1.
  apply pd_item_spec; try done; [lia|by left|lia].
Qed.

Lemma slen_format n s : 0 <= n -> (1 + String.length s <= String.length (format_uint n +:+ s))%nat.
Proof. intros Hn. destruct (format_uint_digits n Hn) as (c & t & -> & _). rewrite sapp_length. cbn. lia. Qed.

(** A duration below a second is one number. *)
Lemma pd_single n prec v u unit :
  0 <= n -> (prec = 3 \/ prec = 6 \/ prec = 9)%nat -> unit = 10 ^ Z.of_nat prec -> 0 <= v < unit ->
  unitMap u = Some unit -> all_bytes unit_byte u = true -> u <> "" -> n * unit + v <= two63 ->
  pd_loop (String.length (format_uint n +:+ frac_part prec v +:+ u)) 0 (format_uint n +:+ frac_part prec v +:+ u)
  = Some (n * unit + v).
Proof.
  intros Hn Hp -> Hv Hu Hub Hne Hle. eapply (pd_loop_fuel 1).
  - rewrite (pd_loop_step 0 0 _ (n * 10 ^ Z.of_nat prec + v) ""); [done|by apply format_app_ne| |].
    2: { assert (0 < 10 ^ Z.of_nat prec) by (apply Z.pow_pos_nonneg; lia). nia. }
    rewrite <-(sapp_nil_r u). apply pd_item_spec; try done; [lia|right; split; done|apply Z.pow_pos_nonneg; lia|by left].
  - pose proof (slen_format n (frac_part prec v +:+ u) Hn). lia.
Qed.

Ltac side := first [done | lia | by left | right; apply format_app_head; lia].

(** [ParseDuration]'s loop reads back the text of a non-negative duration. *)
Lemma pd_loop_abs u : 0 <= u <= two63 -> pd_loop (String.length (duration_abs u)) 0 (duration_abs u) = Some u.
Proof.
  intros Hu. unfold duration_abs.
  assert (1000 < Millisecond /\ Millisecond * 1000 = Second) as [HM HS] by done.
  destruct (u =? 0) eqn:H0; bool_prop; [by subst|].
  destruct (u <? 1000) eqn:H1; bool_prop.
  { rewrite <-(sapp_nil_r (format_uint u +:+ "ns")), sapp_assoc. eapply (pd_loop_fuel 1).
    - rewrite (pd_whole 0 0 u "ns" 1 ""); try done; [simpl; f_equal; lia|lia|by left|lia].
    - pose proof (slen_format u ("ns" +:+ "") ltac:(lia)). lia. }
  destruct (u <? Millisecond) eqn:H2; bool_prop.
  { pose proof (Z.div_mod u 1000 ltac:(lia)) as Hdm. pose proof (Z.mod_pos_bound u 1000 ltac:(lia)).
    rewrite (pd_single (u / 1000) 3 (u mod 1000) _ 1000); try done; try lia; f_equal; lia. }
  destruct (u <? Second) eqn:H3; bool_prop.
  { pose proof (Z.div_mod u Millisecond ltac:(lia)) as Hdm. pose proof (Z.mod_pos_bound u Millisecond ltac:(lia)).
    rewrite (pd_single (u / Millisecond) 6 (u mod Millisecond) _ Millisecond); try done; try lia; f_equal; lia. }
  pose proof (Z.div_mod u Second ltac:(lia)) as Hdm. pose proof (Z.mod_pos_bound u Second ltac:(lia)) as Hv.
  assert (1 <= u / Second) as Hs by (apply Z.div_le_lower_bound; lia).
  set (secs := u / Second) in *. set (v := u mod Second) in *.
  pose proof (Z.div_mod secs 60 ltac:(lia)) as Hm. pose proof (Z.mod_pos_bound secs 60 ltac:(lia)) as Hmb.
  set (mins := secs / 60) in *. pose proof (Z.div_mod mins 60 ltac:(lia)) as Hh.
  pose proof (Z.mod_pos_bound mins 60 ltac:(lia)) as Hhb.
  set (hours := mins / 60) in *. assert (0 <= mins) by (apply Z.div_pos; lia). assert (0 <= hours) by (apply Z.div_pos; lia).
  assert (hours * Hour + mins mod 60 * Minute + (secs mod 60 * Second + v) = u) as Htot
    by (unfold Hour, Minute, Second, Millisecond in *; lia).
  assert (0 <= hours * Hour /\ 0 <= mins mod 60 * Minute /\ 0 <= secs mod 60 * Second) as (Hp1 & Hp2 & Hp3)
    by (unfold Hour, Minute, Second, Millisecond in *; lia).
  destruct (0 <? hours) eqn:Hhz, (0 <? mins) eqn:Hmz; bool_prop.
  - rewrite !sapp_assoc. eapply (pd_loop_fuel 3).
    + rewrite (pd_whole 2 0 hours "h" Hour) by side.
      rewrite (pd_whole 1 _ (mins mod 60) "m" Minute) by side.
      rewrite pd_seconds by lia. f_equal. lia.
    + pose proof (slen_format hours ("h" +:+ format_uint (mins mod 60) +:+ "m" +:+ format_uint (secs mod 60) +:+ frac_part 9 v +:+ "s") ltac:(lia)) as Hl.
      rewrite sapp_length in Hl at 1. cbn [String.length] in Hl.
      pose proof (slen_format (mins mod 60) ("m" +:+ format_uint (secs mod 60) +:+ frac_part 9 v +:+ "s") ltac:(lia)). lia.
  - lia.
  - cbn [String.append]. rewrite !sapp_assoc. eapply (pd_loop_fuel 2).
    + assert (hours = 0) by lia.
      rewrite (pd_whole 1 0 (mins mod 60) "m" Minute) by side.
      rewrite pd_seconds by lia. f_equal. lia.
    + pose proof (slen_format (mins mod 60) ("m" +:+ format_uint (secs mod 60) +:+ frac_part 9 v +:+ "s") ltac:(lia)) as Hl.
      rewrite sapp_length in Hl at 1. cbn [String.length] in Hl. lia.
  - assert (mins mod 60 = mins) by (apply Z.mod_small; lia). assert (hours = 0) by lia.
    cbn [String.append]. eapply (pd_loop_fuel 1).
    + rewrite pd_seconds by lia. f_equal. lia.
    + pose proof (slen_format (secs mod 60) (frac_part 9 v +:+ "s") ltac:(lia)). lia.
Qed.

Lemma duration_abs_head u : 0 <= u -> num_head (duration_abs u) = true.
Proof.
  intros Hu. unfold duration_abs. repeat case_match; bool_prop; try done; rewrite ?sapp_assoc;
    cbn [String.append]; apply format_app_head; first [lia | by apply Z.div_pos | by apply Z.mod_pos_bound].
Qed.

(** [time.ParseDuration] reads back what [Duration.String] prints, for
    every int64 duration: the nanoseconds, the fractions of micro-, milli- and
    whole seconds that go through float64, the minutes and hours, and both
    signs up to the extreme values.  The code relies on it where it stores or
    shows a duration as text and parses it again. *)
Lemma duration_roundtrip (d : Z) : - 2 ^ 63 <= d < 2 ^ 63 -> ParseDuration (duration_string d) = Some d.
Proof.
  intros Hd. unfold duration_string.
  assert (forall u, 0 <= u <= two63 -> duration_abs u <> "0" /\ duration_abs u <> "") as Hne.
  { intros u Hu. pose proof (pd_loop_abs u Hu) as Hl. pose proof (duration_abs_head u ltac:(lia)) as Hh.
    split; intros He; rewrite He in *; done. }
  destruct (d <? 0) eqn:Hneg; bool_prop.
  - unfold ParseDuration. cbn [byte_z]. change (byte_z "-" =? 45) with true. cbn match.
    destruct (Hne (- d)) as [H0 H1]; [unfold two63; lia|].
    rewrite !bool_decide_eq_false_2 by done. rewrite pd_loop_abs by (unfold two63; lia). cbn. f_equal. lia.
  - destruct (Hne d) as [H0 H1]; [unfold two63; lia|]. pose proof (duration_abs_head d Hneg) as Hh.
    pose proof (pd_loop_abs d ltac:(unfold two63; lia)) as Hl. unfold ParseDuration.
    destruct (duration_abs d) as [|c s] eqn:He; [done|]. cbn [num_head] in Hh.
    assert ((byte_z c =? 45) = false /\ (byte_z c =? 43) = false) as [-> ->].
    { unfold is_digit in Hh. bool_prop. lia. }
    rewrite !bool_decide_eq_false_2 by done. rewrite Hl. cbn [mbind option_bind].
    by rewrite (proj2 (Z.ltb_ge _ _)) by (unfold two63; lia).
Qed.
