(* ===== verification/NetAddr.v ===== *)
(** * Package net: host and port, IP literals

    [net.SplitHostPort], [net.ParseIP] (through [netip.ParseAddr]) and
    [IP.IsLoopback], as the listener policy uses them.  An address is its
    sixteen bytes, an IPv4 address in its mapped form. *)

From S2P Require Import Prelude GoText TextFields.

(** ** SplitHostPort *)

(** The text before and after the last occurrence of a byte. *)
Fixpoint cut_last (c : ascii) (s : string) : option (string * string) :=
  match s with
  | EmptyString => None
  | String a s' =>
      match cut_last c s' with
      | Some (l, r) => Some (String a l, r)
      | None => if bool_decide (a = c) then Some (EmptyString, s') else None
      end
  end.

(** [None] is any of its errors. *)
Definition SplitHostPort (hostport : string) : option (string * string) :=
  '(before, port) ← cut_last ":" hostport;
  match hostport with
  | String "[" rest =>
      '(host, after) ← cut "]" rest;
      (* the first ] must stand just before the last colon *)
      if negb (bool_decide (after = String ":" port)) then None
      else if has_byte "[" rest || has_byte "]" after then None
      else Some (host, port)
  | _ =>
      if has_byte ":" before then None
      else if has_byte "[" hostport || has_byte "]" hostport then None
      else Some (before, port)
  end.

(** ** IP literals *)

(** [parseIPv4Fields]: the fields read so far, the current one and its digits. *)
Fixpoint ipv4_fields (done : list Z) (val : Z) (digits : nat) (s : string) : option (list Z) :=
  match s with
  | EmptyString => if (length done <? 3)%nat then None else Some (done ++ [val])
  | String c s' =>
      if is_digit c then
        if (digits =? 1)%nat && (val =? 0) then None
        else
          let val := val * 10 + digit_val c in
          if 255 <? val then None else ipv4_fields done val (S digits) s'
      else if byte_z c =? 46 then
        if (digits =? 0)%nat || bool_decide (s' = "") || (length done =? 3)%nat then None
        else ipv4_fields (done ++ [val]) 0 0 s'
      else None
  end.

Definition parseIPv4 (s : string) : option (list Z) := ipv4_fields [] 0 0 s.

(** The hexadecimal digits of a group: how many, their value, the rest.  A
    fifth digit is an error. *)
Fixpoint hex_group (n : nat) (acc : Z) (s : string) : option (nat * Z * string) :=
  match s with
  | EmptyString => Some (n, acc, s)
  | String c s' =>
      match hex_val c with
      | None => Some (n, acc, s)
      | Some d => if (3 <? n)%nat then None else hex_group (S n) (acc * 16 + d) s'
      end
  end.

(** The loop of [parseIPv6]: [out] holds the bytes so far, [ell] where the
    double colon stood.  Each turn adds two bytes, so eight turns are enough. *)
Fixpoint ipv6_loop (fuel : nat) (out : list Z) (ell : option nat) (s : string) : option (list Z * option nat * string) :=
  match fuel with
  | O => Some (out, ell, s)
  | S f =>
      '(n, acc, r) ← hex_group 0 0 s;
      if (n =? 0)%nat then None
      else match r with
           | String c _ =>
               if byte_z c =? 46 then
                 if (match ell with None => negb (length out =? 12)%nat | Some _ => false end)
                    || (12 <? length out)%nat then None
                 else
                   v4 ← parseIPv4 s;
                   Some (out ++ v4, ell, "")
               else
                 let out := out ++ [acc / 256; acc mod 256] in
                 if negb (byte_z c =? 58) then None
                 else match drop_str 1 r with
                      | EmptyString => None
                      | String c' r2 =>
                          if byte_z c' =? 58 then
                            match ell with
                            | Some _ => None
                            | None =>
                                if bool_decide (r2 = "") then Some (out, Some (length out), "")
                                else ipv6_loop f out (Some (length out)) r2
                            end
                          else ipv6_loop f out ell (String c' r2)
                      end
           | EmptyString => Some (out ++ [acc / 256; acc mod 256], ell, "")
           end
  end.

Definition parseIPv6 (s : string) : option (list Z) :=
  let '(ell, s) := if has_prefix "::" s then (Some 0%nat, drop_str 2 s) else (None, s) in
  match ell, s with
  | Some _, EmptyString => Some (repeat 0 16)
  | _, _ =>
      '(out, ell, rest) ← ipv6_loop 8 [] ell s;
      if negb (bool_decide (rest = "")) then None
      else if (length out <? 16)%nat then
        k ← ell;
        Some (take k out ++ repeat 0 (16 - length out) ++ drop k out)
      else match ell with
           | Some _ => None
           | None => Some out
           end
  end.

Definition v4InV6Prefix : list Z := [0; 0; 0; 0; 0; 0; 0; 0; 0; 0; 255; 255].

(** The first of these bytes decides the family. *)
Fixpoint first_of (s : string) : option ascii :=
  match s with
  | EmptyString => None
  | String c s' => if (byte_z c =? 46) || (byte_z c =? 58) || (byte_z c =? 37) then Some c else first_of s'
  end.

(** [net.ParseIP]; an address with a zone is refused. *)
Definition ParseIP (s : string) : option (list Z) :=
  c ← first_of s;
  if byte_z c =? 46 then
    v4 ← parseIPv4 s;
    Some (v4InV6Prefix ++ v4)
  else if byte_z c =? 58 then
    if has_byte "%" s then None else parseIPv6 s
  else None.

(** [IP.IsLoopback]: 127.0.0.0/8, mapped or not, and ::1. *)
Definition IsLoopback (ip : list Z) : bool :=
  if bool_decide (take 12 ip = v4InV6Prefix) then bool_decide (ip !! 12%nat = Some 127)
  else bool_decide (ip = repeat 0 15 ++ [1]).

(** ** Samples *)

Example SplitHostPort_samples :
  map SplitHostPort ["127.0.0.1:80"; ":80"; "[::1]:80"; "::1:80"; "host"; "[::1]"; "[a]b:1"; "a]:1"; "[[::1]:1"]
  = [Some ("127.0.0.1", "80"); Some ("", "80"); Some ("::1", "80"); None; None; None; None; None; None].
Proof. by vm_compute. Qed.

Example ParseIP_samples :
  map (fun s => IsLoopback <$> ParseIP s)
    ["127.0.0.1"; "127.255.1.2"; "10.0.0.1"; "0.0.0.0"; "::1"; "0:0:0:0:0:0:0:1"; "::"; "::ffff:127.0.0.1"; "fe80::1";
     "127.0.0.01"; "127.0.1"; "1.2.3.256"; "::1%lo"; "localhost"; "1:2:3:4:5:6:7:8:9"; "1::2::3"; ":1"; "1:"; "::127.0.0.1"]
  = [Some true; Some true; Some false; Some false; Some true; Some true; Some false; Some true; Some false;
     None; None; None; None; None; None; None; None; None; Some false].
Proof. by vm_compute. Qed.
