(* ===== verification/Subject.v ===== *)
(** * Subjects, patterns and names: internal/subject, internal/model/match.go

    The compiled subject matcher, the grammar of subjects, patterns and
    names (rules S1 to S11), and the naive reference matcher of
    [internal/model]. *)

From Equations Require Import Equations.
From S2P Require Import Prelude GoText.

Definition dot : ascii := "."%char.

Module Subject.

Definition MaxSubjectBytes : Z := 512.
Definition MaxTokens : nat := 32.
Definition MaxStreamNameBytes : Z := 64.
Definition MaxNewStreamNameBytes : Z := MaxStreamNameBytes - slen ".dlq".
Definition MaxConsumerNameBytes : Z := 64.

(** ** Errors of the grammar *)

Definition ErrEmptySubject := E ErrBadSubject "ErrEmptySubject".
Definition ErrEmptyToken := E ErrBadSubject "ErrEmptyToken".
Definition ErrSubjectTooLong := E ErrBadSubject "ErrSubjectTooLong".
Definition ErrTooManyTokens := E ErrBadSubject "ErrTooManyTokens".
Definition ErrInvalidUTF8 := E ErrBadSubject "ErrInvalidUTF8".
Definition ErrControlChar := E ErrBadSubject "ErrControlChar".
Definition ErrWildcardInToken := E ErrBadSubject "ErrWildcardInToken".
Definition ErrGTNotLast := E ErrBadSubject "ErrGTNotLast".
Definition ErrWildcardNotAllowed := E ErrBadSubject "ErrWildcardNotAllowed".
Definition ErrEmptySet := E ErrBadSubject "ErrEmptySet".
Definition ErrNameEmpty := E ErrBadRequest "ErrNameEmpty".
Definition ErrNameTooLong := E ErrBadRequest "ErrNameTooLong".
Definition ErrNameCharset := E ErrBadRequest "ErrNameCharset".
Definition ErrNameDot := E ErrBadRequest "ErrNameDot".

(** ** Compiled patterns *)

Inductive kind : Set := kindLiteral | kindStar | kindGT.

#[global] Instance kind_eq_dec : EqDecision kind.
Proof. solve_decision. Defined.

Record token : Set := Token { lit : string; tkind : kind }.

#[global] Instance token_eq_dec : EqDecision token.
Proof. solve_decision. Defined.

Record Pattern : Set := MkPattern {
  raw : string;
  tokens : list token;
  prefix : string;
  gt : bool;
  stars : bool
}.

Record Set_ : Set := MkSet { pats : list Pattern }.

(** The first forbidden rune of a literal token decides its error. *)
Fixpoint classify_runes (wildcards : bool) (rs : list Z) : option error :=
  match rs with
  | [] => None
  | r :: rs' =>
      if (r =? byte_z "*"%char) || (r =? byte_z ">"%char) then
        Some (if wildcards then ErrWildcardInToken else ErrWildcardNotAllowed)
      else if (r =? byte_z " "%char) || IsControl r then Some ErrControlChar
      else classify_runes wildcards rs'
  end.

Definition classify (seg : string) (wildcards last : bool) : result token :=
  if bool_decide (seg = "") then Err ErrEmptyToken
  else if bool_decide (seg = "*") then
    if negb wildcards then Err ErrWildcardNotAllowed else Ok (Token "" kindStar)
  else if bool_decide (seg = ">") then
    if negb wildcards then Err ErrWildcardNotAllowed
    else if negb last then Err ErrGTNotLast
    else Ok (Token "" kindGT)
  else match classify_runes wildcards (runes seg) with
       | Some e => Err e
       | None => Ok (Token seg kindLiteral)
       end.

(** The scanning loop of [parse]: [room] is [MaxTokens - len(tokens)], so the
    token-count test of the loop is [room = 0]. *)
Fixpoint parse_loop (wildcards : bool) (room : nat) (rest : string) : result (list token) :=
  match room with
  | O => Err ErrTooManyTokens
  | S room' =>
      match cut dot rest with
      | Some (seg, rest') =>
          let? t := classify seg wildcards false in
          let? ts := parse_loop wildcards room' rest' in
          Ok (t :: ts)
      | None =>
          let? t := classify rest wildcards true in
          Ok [t]
      end
  end.

Definition parse (s : string) (wildcards : bool) : result (list token) :=
  if bool_decide (s = "") then Err ErrEmptySubject
  else if MaxSubjectBytes <? slen s then Err ErrSubjectTooLong
  else if negb (ValidString s) then Err ErrInvalidUTF8
  else parse_loop wildcards MaxTokens s.

(** [end] of the source's loop is [end_]; [i] is the index of the token. *)
Fixpoint literalPrefix_loop (raw : string) (i end_ : nat) (ts : list token) : string :=
  match ts with
  | [] => raw
  | t :: ts' =>
      match tkind t with
      | kindLiteral => literalPrefix_loop raw (S i) (end_ + (String.length (lit t) + 1)) ts'
      | _ => if (i =? 0)%nat then "" else take_str end_ raw
      end
  end.

Definition literalPrefix (raw : string) (ts : list token) : string :=
  literalPrefix_loop raw 0 0 ts.

Definition ParseSubject (s : string) : result string :=
  let? _ := parse s false in Ok s.

Definition ParsePattern (s : string) : result Pattern :=
  let? ts := parse s true in
  Ok {| raw := s; tokens := ts;
        prefix := literalPrefix s ts;
        gt := existsb (fun t => bool_decide (tkind t = kindGT)) ts;
        stars := existsb (fun t => bool_decide (tkind t = kindStar)) ts |}.

(** The loop of [ParseSet]; [seen] is the map of raw texts met so far. *)
Fixpoint ParseSet_loop (seen : list string) (rs : list string) : result (list Pattern) :=
  match rs with
  | [] => Ok []
  | r :: rs' =>
      if bool_decide (r ∈ seen) then ParseSet_loop seen rs'
      else let? p := ParsePattern r in
           let? ps := ParseSet_loop (r :: seen) rs' in
           Ok (p :: ps)
  end.

Definition ParseSet (rs : list string) : result Set_ :=
  match rs with
  | [] => Err ErrEmptySet
  | _ => let? ps := ParseSet_loop [] rs in Ok (MkSet ps)
  end.

Definition PatternString (p : Pattern) : string := raw p.
Definition IsLiteral (p : Pattern) : bool :=
  (0 <? length (tokens p))%nat && negb (gt p) && negb (stars p).
Definition MinTokens (p : Pattern) : nat := length (tokens p).
Definition Prefix (p : Pattern) : string := prefix p.

Definition validSegment (seg : string) : bool :=
  negb (bool_decide (seg = "")) && negb (bool_decide (seg = "*")) && negb (bool_decide (seg = ">")).

(** The tail scan of [">"]. *)
Equations? validTail (rest : string) : bool by wf (String.length rest) lt :=
  validTail rest with inspect (cut dot rest) => {
    | exist _ (Some (seg, rest')) H => validSegment seg && validTail rest'
    | exist _ None _ => validSegment rest }.
Proof. by eapply cut_shorter. Qed.

(** The loop of [Pattern.Match] over the pattern's tokens. *)
Fixpoint match_loop (ts : list token) (rest : string) (exhausted : bool) : bool :=
  match ts with
  | [] => exhausted
  | t :: ts' =>
      if bool_decide (tkind t = kindGT) then validTail rest
      else if exhausted then false
      else let '(seg, rest', exhausted') :=
             match cut dot rest with
             | None => (rest, "", true)
             | Some (l, r) => (l, r, false)
             end in
           if negb (validSegment seg) then false
           else if bool_decide (tkind t = kindLiteral) && negb (bool_decide (seg = lit t)) then false
           else match_loop ts' rest' exhausted'
  end.

Definition Match (p : Pattern) (s : string) : bool :=
  match tokens p with
  | [] => false
  | ts => match_loop ts s false
  end.

Definition SetMatch (s : Set_) (subj : string) : bool := existsb (fun p => Match p subj) (pats s).
Definition Strings (s : Set_) : list string := map raw (pats s).

(** ** Names (rule S11) *)

Definition is_between (lo hi c : ascii) : bool :=
  (byte_z lo <=? byte_z c) && (byte_z c <=? byte_z hi).

Definition name_byte (dots : bool) (c : ascii) : bool :=
  is_between "a" "z" c || is_between "A" "Z" c || is_between "0" "9" c
  || bool_decide (c = "_"%char) || bool_decide (c = "-"%char)
  || (bool_decide (c = dot) && dots).

Definition last_byte (s : string) : option ascii := String.get (String.length s - 1) s.

Definition validateName (name : string) (dots : bool) (maxBytes : Z) : result unit :=
  if bool_decide (name = "") then Err ErrNameEmpty
  else if maxBytes <? slen name then Err ErrNameTooLong
  else if negb (all_bytes (name_byte dots) name) then Err ErrNameCharset
  else if dots && (bool_decide (String.get 0 name = Some dot)
                   || bool_decide (last_byte name = Some dot)
                   || contains_str ".." name) then Err ErrNameDot
  else Ok tt.

Definition ValidateStreamName (name : string) : result unit :=
  validateName name true MaxStreamNameBytes.
Definition ValidateNewStreamName (name : string) : result unit :=
  validateName name true MaxNewStreamNameBytes.
Definition ValidateConsumerName (name : string) : result unit :=
  validateName name false MaxConsumerNameBytes.

End Subject.

(** ** The reference matcher of internal/model *)

Module Model.

Definition subjectTokenOk (tok : string) : bool :=
  negb (bool_decide (tok = "")) && negb (bool_decide (tok = "*")) && negb (bool_decide (tok = ">")).

Definition subjectTailOk (rest : list string) : bool := forallb subjectTokenOk rest.

(** The walk of [Pattern.Match]; [st] is [st[si:]]. *)
Fixpoint walk (pt st : list string) : bool :=
  match pt with
  | [] => bool_decide (st = [])
  | tok :: pt' =>
      if bool_decide (tok = ">") then negb (bool_decide (st = [])) && subjectTailOk st
      else match st with
           | [] => false
           | s0 :: st' =>
               if negb (subjectTokenOk s0) then false
               else if bool_decide (tok = "*") then walk pt' st'
               else if negb (bool_decide (tok = s0)) then false
               else walk pt' st'
           end
  end.

Definition ModelMatch (p s : string) : bool := walk (split_on dot p) (split_on dot s).

End Model.

(** ** Properties of the grammar *)

Module SubjectFacts.
Import Subject.

(** The text a compiled token stands for. *)
Definition tok_text (t : token) : string :=
  match tkind t with
  | kindLiteral => lit t
  | kindStar => "*"
  | kindGT => ">"
  end.

(** A rune a literal token may hold (rule S3 and rules S5, S6). *)
Definition rune_ok (r : Z) : Prop :=
  r <> byte_z "*"%char /\ r <> byte_z ">"%char /\ r <> byte_z " "%char /\ IsControl r = false.

(** A token's text, as the grammar allows it. *)
Definition seg_ok (wildcards : bool) (seg : string) : Prop :=
  seg <> "" /\
  ((wildcards = true /\ (seg = "*" \/ seg = ">")) \/ Forall rune_ok (runes seg)).

(** The grammar of rules S1 to S6 and S10, stated on the split text. *)
Definition Grammar (wildcards : bool) (s : string) : Prop :=
  s <> "" /\ slen s <= MaxSubjectBytes /\ ValidString s = true /\
  (length (split_on dot s) <= MaxTokens)%nat /\
  Forall (seg_ok wildcards) (split_on dot s) /\
  (forall i, split_on dot s !! i = Some ">" -> S i = length (split_on dot s)).

(** What a compiled token satisfies. *)
Definition token_wf (t : token) : Prop :=
  match tkind t with
  | kindLiteral => lit t <> "" /\ Forall rune_ok (runes (lit t))
  | _ => lit t = ""
  end.

Lemma classify_runes_None w rs : classify_runes w rs = None <-> Forall rune_ok rs.
Proof.
  induction rs as [|r rs IH]; simpl; [split; auto|].
  rewrite Forall_cons, <-IH. unfold rune_ok.
  destruct (r =? byte_z "*") eqn:H1, (r =? byte_z ">") eqn:H2, (r =? byte_z " ") eqn:H3,
    (IsControl r) eqn:H4; bool_prop; simpl; destruct w; naive_solver.
Qed.

Lemma classify_ok seg w last t :
  classify seg w last = Ok t ->
  tok_text t = seg /\ token_wf t /\ seg_ok w seg /\ (tkind t = kindGT -> last = true) /\
  (w = false -> tkind t = kindLiteral).
Proof.
  unfold classify, token_wf, tok_text, seg_ok.
  repeat case_bool_decide; try done; subst.
  - destruct w; [|done]. intros [= <-]. naive_solver.
  - destruct w, last; try done. intros [= <-]. naive_solver.
  - destruct (classify_runes w (runes seg)) eqn:Hr; [done|]. intros [= <-]; simpl.
    apply classify_runes_None in Hr. naive_solver.
Qed.

Lemma classify_complete seg w last :
  seg_ok w seg -> (seg = ">" -> w = true -> last = true) -> exists t, classify seg w last = Ok t.
Proof.
  unfold classify, seg_ok. intros [Hne Hok] Hlast.
  repeat case_bool_decide; simplify_eq.
  - destruct Hok as [[-> _]|Hok]; [eauto|]. vm_compute in Hok. inversion Hok. unfold rune_ok in *. naive_solver.
  - destruct Hok as [[-> _]|Hok].
    + rewrite Hlast by done. eauto.
    + vm_compute in Hok. inversion Hok. unfold rune_ok in *. naive_solver.
  - destruct Hok as [[_ [?|?]]|Hok]; [done..|].
    apply (classify_runes_None w) in Hok. rewrite Hok. eauto.
Qed.

Lemma parse_loop_ok w room s ts :
  parse_loop w room s = Ok ts ->
  map tok_text ts = split_on dot s /\ Forall token_wf ts /\ (length ts <= room)%nat /\
  Forall (seg_ok w) (split_on dot s) /\
  (forall i t, ts !! i = Some t -> tkind t = kindGT -> S i = length ts) /\
  (w = false -> Forall (fun t => tkind t = kindLiteral) ts).
Proof.
  revert s ts; induction room as [|room IH]; intros s ts; simpl; [done|].
  destruct (cut dot s) as [[seg rest]|] eqn:Hc.
  - rewrite rbind_ok. intros (t & (Ht & Hwf & Hseg & Hgt & Hlit)%classify_ok & Hr).
    apply rbind_ok in Hr as (ts' & (Hm & Hf & Hlen & Hsegs & Hlast & Hlits)%IH & [= <-]).
    rewrite (split_on_cut_Some _ _ _ _ Hc). simpl. split_and!; [congruence|auto|lia|auto| |].
    + intros [|i] t'; simpl; [intros [= ->] ?; naive_solver|]. intros Hi Hk. by rewrite (Hlast i t').
    + intros; constructor; auto.
  - rewrite rbind_ok. intros (t & (Ht & Hwf & Hseg & Hgt & Hlit)%classify_ok & [= <-]).
    rewrite (split_on_cut_None _ _ Hc). simpl. split_and!; [congruence|auto|lia|auto| |].
    + intros [|i] t'; simpl; [done|]. by rewrite lookup_nil.
    + auto.
Qed.

Lemma parse_loop_complete w room s :
  (length (split_on dot s) <= room)%nat -> Forall (seg_ok w) (split_on dot s) ->
  (forall i, split_on dot s !! i = Some ">" -> S i = length (split_on dot s)) ->
  exists ts, parse_loop w room s = Ok ts.
Proof.
  revert s; induction room as [|room IH]; intros s Hlen Hseg Hlast; simpl.
  - destruct (split_on dot s) eqn:Hs; [by apply split_on_not_nil in Hs|simpl in Hlen; lia].
  - destruct (cut dot s) as [[seg rest]|] eqn:Hc.
    + rewrite (split_on_cut_Some _ _ _ _ Hc) in *. simpl in *. inversion Hseg; subst.
      destruct (classify_complete seg w false) as [t Ht]; [done| |].
      { intros -> _. specialize (Hlast 0%nat eq_refl). simplify_eq.
        destruct (split_on dot rest) eqn:Hs; [by apply split_on_not_nil in Hs|done]. }
      rewrite Ht. simpl. destruct (IH rest) as [ts Hts]; [lia|done| |by rewrite Hts; eauto].
      intros i Hi. specialize (Hlast (S i) Hi). lia.
    + rewrite (split_on_cut_None _ _ Hc) in *. inversion Hseg; subst.
      destruct (classify_complete s w true) as [t ->]; [done|done|]. simpl. eauto.
Qed.

Lemma parse_ok s w ts : parse s w = Ok ts -> parse_loop w MaxTokens s = Ok ts.
Proof. unfold parse. by repeat case_match. Qed.

(** ** Properties of the matcher *)

Lemma validTail_unfold s :
  validTail s = match cut dot s with
                | Some (seg, rest) => validSegment seg && validTail rest
                | None => validSegment s
                end.
Proof.
  funelim (validTail s); match goal with H : cut dot _ = _ |- _ => by rewrite H end.
Qed.

Lemma validTail_split s : validTail s = forallb validSegment (split_on dot s).
Proof.
  induction s as [s Hc|s l r Hc IH] using (cut_ind dot); rewrite validTail_unfold, Hc.
  - rewrite (split_on_cut_None _ _ Hc). simpl. by rewrite andb_true_r.
  - rewrite (split_on_cut_Some _ _ _ _ Hc). simpl. by rewrite IH.
Qed.

Lemma literal_not_wild t :
  token_wf t -> tkind t = kindLiteral -> lit t <> "*" /\ lit t <> ">" /\ lit t <> "".
Proof.
  unfold token_wf. intros Hwf Hk. rewrite Hk in Hwf. destruct Hwf as [Hne Hr].
  split_and!; [intros He; rewrite He in Hr; vm_compute in Hr; inversion Hr; unfold rune_ok in *;
    naive_solver ..|done].
Qed.

Lemma match_loop_exhausted ts :
  Forall token_wf ts -> match_loop ts "" true = Model.walk (map tok_text ts) [].
Proof.
  destruct ts as [|t ts]; simpl; [done|]. rewrite Forall_cons. intros [Hwf _].
  unfold tok_text. destruct (tkind t) eqn:Hk; simpl.
  - destruct (literal_not_wild t Hwf Hk) as (_ & Hgt & _).
    by rewrite bool_decide_eq_false_2.
  - done.
  - by rewrite validTail_unfold.
Qed.

Lemma match_loop_walk ts s :
  Forall token_wf ts -> match_loop ts s false = Model.walk (map tok_text ts) (split_on dot s).
Proof.
  revert s; induction ts as [|t ts IH]; intros s; simpl.
  - intros _. destruct (split_on dot s) eqn:Hs; [by apply split_on_not_nil in Hs|done].
  - rewrite Forall_cons. intros [Hwf Hts].
    assert (split_on dot s =
      match cut dot s with Some (l, r) => l :: split_on dot r | None => [s] end) as Hsp.
    { destruct (cut dot s) as [[l r]|] eqn:Hc; eauto using split_on_cut_Some, split_on_cut_None. }
    destruct t as [l k]; destruct k; simpl.
    + destruct (literal_not_wild _ Hwf eq_refl) as (Hs & Hg & _); simpl in Hs, Hg.
      unfold tok_text at 1; simpl. rewrite (bool_decide_eq_false_2 (l = ">")) by done.
      rewrite (bool_decide_eq_false_2 (l = "*")) by done. rewrite Hsp.
      destruct (cut dot s) as [[h r]|]; simpl; change Model.subjectTokenOk with validSegment.
      * rewrite IH by done. destruct (validSegment h); simpl; [|done].
        repeat case_bool_decide; simplify_eq; done.
      * rewrite match_loop_exhausted by done. destruct (validSegment s); simpl; [|done].
        repeat case_bool_decide; simplify_eq; done.
    + rewrite Hsp. unfold tok_text at 1; simpl. destruct (cut dot s) as [[h r]|]; simpl;
        change Model.subjectTokenOk with validSegment.
      * rewrite IH by done. by destruct (validSegment h).
      * rewrite match_loop_exhausted by done. by destruct (validSegment s).
    + rewrite validTail_split. unfold Model.subjectTailOk.
      change Model.subjectTokenOk with validSegment.
      destruct (split_on dot s) eqn:Hs; [by apply split_on_not_nil in Hs|done].
Qed.

Lemma parse_tokens s ts :
  parse s true = Ok ts -> ts <> [] /\ Forall token_wf ts /\ map tok_text ts = split_on dot s.
Proof.
  intros (Hm & Hwf & _)%parse_ok%parse_loop_ok. split_and!; [|done|done].
  intros ->. by eapply split_on_not_nil.
Qed.

Lemma Match_walk p pat s :
  ParsePattern p = Ok pat ->
  raw pat = p /\ Match pat s = Model.walk (map tok_text (tokens pat)) (split_on dot s).
Proof.
  unfold ParsePattern. rewrite rbind_ok. intros (ts & (Hne & Hwf & _)%parse_tokens & [= <-]).
  split; [done|]. rewrite <-match_loop_walk by done. by destruct ts.
Qed.

(** *** Walks of the reference matcher *)

(** One step of a successful walk. *)
Lemma walk_cons t ts st :
  token_wf t -> Model.walk (tok_text t :: map tok_text ts) st = true ->
  match tkind t with
  | kindGT => st <> []
  | k => exists s0 st', st = s0 :: st' /\ Model.walk (map tok_text ts) st' = true /\
           (k = kindLiteral -> s0 = lit t)
  end.
Proof.
  intros Hwf. destruct t as [l []]; unfold tok_text at 1; simpl.
  - destruct (literal_not_wild _ Hwf eq_refl) as (Hs & Hg & _); simpl in Hs, Hg.
    rewrite (bool_decide_eq_false_2 (l = ">")), (bool_decide_eq_false_2 (l = "*")) by done.
    destruct st as [|s0 st]; [done|]. destruct (Model.subjectTokenOk s0); [|done].
    simpl. case_bool_decide; simpl; [|done]. naive_solver.
  - destruct st as [|s0 st]; [done|]. destruct (Model.subjectTokenOk s0); [|done]. naive_solver.
  - by destruct st.
Qed.

Definition gt_last (ts : list token) : Prop :=
  forall i t, ts !! i = Some t -> tkind t = kindGT -> S i = length ts.

Lemma gt_last_tail t ts : gt_last (t :: ts) -> gt_last ts.
Proof. intros H i t' Hi Hk. specialize (H (S i) t' Hi Hk). simpl in H. lia. Qed.

Lemma walk_lengths ts st :
  Forall token_wf ts -> gt_last ts -> Model.walk (map tok_text ts) st = true ->
  (length ts <= length st)%nat /\
  (existsb (fun t => bool_decide (tkind t = kindGT)) ts = false -> length ts = length st).
Proof.
  revert st; induction ts as [|t ts IH]; intros st.
  - intros _ _. simpl. case_bool_decide; [subst; done|done].
  - rewrite Forall_cons. intros [Hwf Hts] Hlast Hw.
    pose proof (walk_cons _ _ _ Hwf Hw) as Hc. simpl.
    destruct (tkind t) eqn:Hk.
    + destruct Hc as (s0 & st' & -> & Hw' & _).
      destruct (IH st') as [? Heq]; eauto using gt_last_tail. simpl. split; [lia|]. intros; by rewrite Heq.
    + destruct Hc as (s0 & st' & -> & Hw' & _).
      destruct (IH st') as [? Heq]; eauto using gt_last_tail. simpl. split; [lia|]. intros; by rewrite Heq.
    + specialize (Hlast 0%nat t eq_refl Hk). simpl in Hlast. rewrite <-Hlast.
      destruct st; simpl; [done|]. split; [lia|done].
Qed.

Lemma walk_literal ts st :
  Forall token_wf ts -> Forall (fun t => tkind t = kindLiteral) ts ->
  Forall (fun seg => validSegment seg = true) st ->
  Model.walk (map tok_text ts) st = true <-> st = map tok_text ts.
Proof.
  revert st; induction ts as [|t ts IH]; intros st; simpl.
  - intros _ _ _. case_bool_decide; naive_solver.
  - rewrite !Forall_cons. intros [Hwf Hts] [Hk Hks] Hst.
    destruct t as [l k]; simpl in Hk; subst k. unfold tok_text at 1 3; simpl.
    destruct (literal_not_wild _ Hwf eq_refl) as (Hs & Hg & _); simpl in Hs, Hg.
    rewrite (bool_decide_eq_false_2 (l = ">")), (bool_decide_eq_false_2 (l = "*")) by done.
    destruct st as [|s0 st]; [done|]. apply Forall_cons in Hst as [Hv Hst].
    change Model.subjectTokenOk with validSegment. rewrite Hv; simpl.
    case_bool_decide; simpl; [|naive_solver]. rewrite IH by done. naive_solver.
Qed.

(** The literal tokens before the first wildcard, each with its dot. *)
Fixpoint lit_prefix (ts : list token) : string :=
  match ts with
  | [] => ""
  | t :: ts' => match tkind t with
                | kindLiteral => lit t +:+ String dot (lit_prefix ts')
                | _ => ""
                end
  end.

Definition all_literal (ts : list token) : bool :=
  forallb (fun t => bool_decide (tkind t = kindLiteral)) ts.

Lemma literalPrefix_loop_spec pre i ts :
  ts <> [] -> (i = 0%nat -> pre = "") ->
  literalPrefix_loop (pre +:+ join_with dot (map tok_text ts)) i (String.length pre) ts =
  if all_literal ts then pre +:+ join_with dot (map tok_text ts) else pre +:+ lit_prefix ts.
Proof.
  revert pre i; induction ts as [|t ts IH]; intros pre i Hne Hi; [done|].
  destruct t as [l []].
  - destruct ts as [|t' ts]; [done|]. set (ts' := t' :: ts) in *.
    change (map tok_text (Token l kindLiteral :: ts')) with (l :: map tok_text ts').
    rewrite join_with_cons by done.
    change (lit_prefix (Token l kindLiteral :: ts')) with (l +:+ String dot (lit_prefix ts')).
    specialize (IH (pre +:+ (l +:+ String dot "")) (S i) ltac:(done) ltac:(done)).
    assert (forall X, pre +:+ (l +:+ String dot X) = (pre +:+ (l +:+ String dot "")) +:+ X) as Happ.
    { intros X. by rewrite !sapp_assoc. }
    rewrite (Happ (lit_prefix ts')), (Happ (join_with _ _)).
    rewrite !sapp_length in IH. apply IH.
  - simpl. rewrite sapp_nil_r. destruct i; simpl; [by rewrite Hi|]. by rewrite take_str_app.
  - simpl. rewrite sapp_nil_r. destruct i; simpl; [by rewrite Hi|]. by rewrite take_str_app.
Qed.

Lemma walk_lit_prefix ts st :
  Forall token_wf ts -> all_literal ts = false -> Model.walk (map tok_text ts) st = true ->
  has_prefix (lit_prefix ts) (join_with dot st) = true.
Proof.
  revert st; induction ts as [|t ts IH]; intros st; [done|].
  rewrite Forall_cons. intros [Hwf Hts] Ha Hw. pose proof (walk_cons _ _ _ Hwf Hw) as Hc.
  destruct t as [l []]; [|done|done]. change (all_literal ts = false) in Ha.
  change (lit_prefix (Token l kindLiteral :: ts)) with (l +:+ String dot (lit_prefix ts)).
  destruct Hc as (s0 & st' & -> & Hw' & Hl). rewrite Hl by done.
  specialize (IH st' Hts Ha Hw'). apply has_prefix_spec in IH as [u Hu].
  destruct st' as [|s1 st'].
  - destruct ts as [|t' ts]; [done|]. apply Forall_cons in Hts as [Hwf' _].
    pose proof (walk_cons _ _ _ Hwf' Hw') as Hc. destruct (tkind t'); naive_solver.
  - apply has_prefix_spec. exists u. by rewrite join_with_cons, Hu, sapp_assoc.
Qed.

Lemma ParsePattern_inv p pat :
  ParsePattern p = Ok pat ->
  raw pat = p /\ tokens pat <> [] /\ Forall token_wf (tokens pat) /\ gt_last (tokens pat) /\
  map tok_text (tokens pat) = split_on dot p /\ prefix pat = literalPrefix p (tokens pat) /\
  gt pat = existsb (fun t => bool_decide (tkind t = kindGT)) (tokens pat) /\
  stars pat = existsb (fun t => bool_decide (tkind t = kindStar)) (tokens pat).
Proof.
  unfold ParsePattern. rewrite rbind_ok. intros (ts & Hp & [= <-]); simpl.
  destruct (parse_tokens _ _ Hp) as (Hne & Hwf & Hm).
  apply parse_ok, parse_loop_ok in Hp as (_ & _ & _ & _ & Hlast & _). done.
Qed.

Lemma no_wild_all_literal ts :
  existsb (fun t => bool_decide (tkind t = kindGT)) ts = false ->
  existsb (fun t => bool_decide (tkind t = kindStar)) ts = false ->
  Forall (fun t => tkind t = kindLiteral) ts.
Proof.
  induction ts as [|[l []] ts IH]; simpl; [done| |done|done]. intros; constructor; auto.
Qed.

Lemma literal_segments ts :
  Forall token_wf ts -> Forall (fun t => tkind t = kindLiteral) ts ->
  Forall (fun seg => validSegment seg = true) (map tok_text ts).
Proof.
  induction ts as [|t ts IH]; simpl; [constructor|].
  rewrite !Forall_cons. intros [Hwf Hts] [Hk Hks]. split; [|auto].
  unfold tok_text. rewrite Hk. destruct (literal_not_wild _ Hwf Hk) as (? & ? & ?).
  unfold validSegment. by rewrite !bool_decide_eq_false_2.
Qed.

Lemma walk_valid_segments ts st :
  Forall token_wf ts -> Forall (fun t => tkind t = kindLiteral) ts ->
  Model.walk (map tok_text ts) st = true -> st = map tok_text ts.
Proof.
  revert st; induction ts as [|t ts IH]; intros st.
  - intros _ _. simpl. by case_bool_decide.
  - rewrite !Forall_cons. intros [Hwf Hts] [Hk Hks] Hw.
    pose proof (walk_cons _ _ _ Hwf Hw) as Hc. rewrite Hk in Hc.
    destruct Hc as (s0 & st' & -> & Hw' & Hl). simpl. rewrite Hl, (IH st') by done.
    unfold tok_text at 2. by rewrite Hk.
Qed.

(** Order-preserving removal of repeated texts. *)
Fixpoint first_occurrences (seen l : list string) : list string :=
  match l with
  | [] => []
  | x :: l' => if bool_decide (x ∈ seen) then first_occurrences seen l'
               else x :: first_occurrences (x :: seen) l'
  end.

Lemma first_occurrences_spec seen l :
  NoDup (first_occurrences seen l) /\
  forall x, x ∈ first_occurrences seen l <-> x ∈ l /\ x ∉ seen.
Proof.
  revert seen; induction l as [|a l IH]; intros seen; simpl.
  - split; [constructor|]. intros x. rewrite elem_of_nil. naive_solver.
  - case_bool_decide as Ha.
    + destruct (IH seen) as [Hn Hx]. split; [done|]. intros x. rewrite Hx, elem_of_cons.
      destruct (decide (x = a)); naive_solver.
    + destruct (IH (a :: seen)) as [Hn Hx]. split.
      * constructor; [|done]. rewrite Hx, elem_of_cons. naive_solver.
      * intros x. rewrite elem_of_cons, Hx, !elem_of_cons. destruct (decide (x = a)); naive_solver.
Qed.

Lemma ParseSet_loop_ok seen rs ps :
  ParseSet_loop seen rs = Ok ps ->
  map raw ps = first_occurrences seen rs /\ Forall (fun p => ParsePattern (raw p) = Ok p) ps.
Proof.
  revert seen ps; induction rs as [|r rs IH]; intros seen ps; simpl; [naive_solver|].
  case_bool_decide; [apply IH|]. rewrite rbind_ok. intros (p & Hp & Hr).
  apply rbind_ok in Hr as (ps' & (Hm & Hf)%IH & [= <-]).
  pose proof (ParsePattern_inv _ _ Hp) as [Hraw _]. simpl. rewrite Hraw, Hm.
  split; [done|]. constructor; [by rewrite Hraw|done].
Qed.

(** A filter list compiles when it is not empty and every text parses. *)
Lemma ParseSet_loop_is_ok seen rs :
  is_ok (ParseSet_loop seen rs) = true <-> forall r, r ∈ rs -> r ∈ seen \/ is_ok (ParsePattern r) = true.
Proof.
  revert seen; induction rs as [|r rs IH]; intros seen; simpl.
  - split; [|done]. intros _ r Hr. by apply elem_of_nil in Hr.
  - setoid_rewrite elem_of_cons. case_bool_decide as Hs; [rewrite IH; naive_solver|].
    destruct (ParsePattern r) as [p|e] eqn:Hp; simpl.
    + destruct (ParseSet_loop (r :: seen) rs) eqn:Hl; simpl; [|].
      * pose proof (proj1 (IH (r :: seen)) ltac:(by rewrite Hl)) as Hall. setoid_rewrite elem_of_cons in Hall.
        split; [|done]. intros _ x [-> |Hx]; [right; by rewrite Hp|]. destruct (Hall x Hx) as [[-> |?]|?]; auto.
        right. by rewrite Hp.
      * split; [done|]. intros Hall. assert (is_ok (ParseSet_loop (r :: seen) rs) = true) as Hok; [|by rewrite Hl in Hok].
        apply IH. intros x Hx. rewrite elem_of_cons. destruct (Hall x (or_intror Hx)); auto.
    + split; [done|]. intros Hall. destruct (Hall r (or_introl eq_refl)) as [|Hr]; [done|by rewrite Hp in Hr].
Qed.

Lemma ParseSet_is_ok rs :
  is_ok (ParseSet rs) = true <-> rs <> [] /\ forall r, r ∈ rs -> is_ok (ParsePattern r) = true.
Proof.
  destruct rs as [|r rs]; [split; [done|]; by intros [? _]|]. unfold ParseSet.
  assert (is_ok (let? ps := ParseSet_loop [] (r :: rs) in Ok (MkSet ps)) = is_ok (ParseSet_loop [] (r :: rs))) as ->
    by (by destruct (ParseSet_loop [] (r :: rs))).
  rewrite ParseSet_loop_is_ok. setoid_rewrite elem_of_nil. naive_solver.
Qed.

Lemma ParseSet_loop_again seen ps :
  Forall (fun p => ParsePattern (raw p) = Ok p) ps -> NoDup (map raw ps) ->
  (forall x, x ∈ map raw ps -> x ∉ seen) ->
  ParseSet_loop seen (map raw ps) = Ok ps.
Proof.
  revert seen; induction ps as [|p ps IH]; intros seen; simpl; [done|].
  rewrite Forall_cons, NoDup_cons. intros [Hp Hps] [Hni Hnd] Hseen.
  rewrite bool_decide_eq_false_2 by (apply Hseen; left). rewrite Hp; simpl.
  rewrite IH; [done|done|done|]. intros x Hx. rewrite elem_of_cons. intros [->|Hs]; [done|].
  eapply Hseen; [by right|done].
Qed.

Lemma existsb_same_elements {A} (f : A -> bool) (l k : list A) :
  (forall x, x ∈ l <-> x ∈ k) -> existsb f l = existsb f k.
Proof.
  intros H. apply eq_true_iff_eq. rewrite !existsb_exists.
  setoid_rewrite <-list_elem_of_In. naive_solver.
Qed.

(** ** Names *)

Lemma validateName_ok name dots maxBytes :
  validateName name dots maxBytes = Ok tt <->
  name <> "" /\ slen name <= maxBytes /\ all_bytes (name_byte dots) name = true /\
  (dots = true -> String.get 0 name <> Some dot /\ last_byte name <> Some dot /\
     contains_str ".." name = false).
Proof.
  unfold validateName. case_bool_decide; [naive_solver|].
  destruct (maxBytes <? slen name) eqn:Hl; bool_prop; [naive_solver lia|].
  destruct (all_bytes _ name); simpl; [|naive_solver].
  destruct dots; simpl; [|naive_solver lia].
  repeat case_bool_decide; simpl; destruct (contains_str ".." name); naive_solver lia.
Qed.

Lemma name_no_slash name dots maxBytes :
  validateName name dots maxBytes = Ok tt -> has_byte "/"%char name = false.
Proof.
  intros (_ & _ & Hb & _)%validateName_ok. eapply all_bytes_no_byte; [|done]. by destruct dots.
Qed.

Lemma last_byte_snoc s c : last_byte (s +:+ String c "") = Some c.
Proof.
  unfold last_byte. rewrite sapp_length. simpl.
  replace (_ + 1 - 1)%nat with (String.length s) by lia. by induction s.
Qed.

Lemma contains_dots_app s t :
  contains_str ".." s = false -> last_byte s <> Some dot -> contains_str ".." t = false ->
  contains_str ".." (s +:+ t) = false.
Proof.
  induction s as [|a s IH]; simpl; [done|].
  rewrite !orb_false_iff. intros [Hp Hs] Hl Ht.
  destruct s as [|b s]; simpl in *.
  - split; [|done]. case_bool_decide as Ha; [|done]. subst. by destruct Hl.
  - split; [done|]. apply IH; [done| |done].
    unfold last_byte in *. simpl in *. by rewrite Nat.sub_0_r in *.
Qed.

(** Appending [".dlq"] to a creatable name gives a valid stream name. *)
Lemma dlq_name_ok (name : string) :
  validateName name true MaxNewStreamNameBytes = Ok tt ->
  validateName (name +:+ ".dlq") true MaxStreamNameBytes = Ok tt.
Proof.
  rewrite !validateName_ok. intros (Hne & Hlen & Hb & Hdots).
  destruct (Hdots eq_refl) as (Hfirst & Hlast & Hcont). split_and!.
  - by destruct name.
  - rewrite sapp_length. unfold MaxNewStreamNameBytes in Hlen. simpl in *. lia.
  - by rewrite all_bytes_app, Hb.
  - intros _. split_and!.
    + by destruct name.
    + replace (name +:+ ".dlq") with ((name +:+ ".dl") +:+ String "q" "") by (by rewrite sapp_assoc).
      by rewrite last_byte_snoc.
    + by apply contains_dots_app.
Qed.

End SubjectFacts.

(** ** The theorems *)

Module SubjectTheorems.
Import Subject SubjectFacts.

(** the parser accepts exactly the grammar: [ParseSubject] (no wildcards)
    and [ParsePattern] (wildcards) succeed on a text if and only if it is
    non-empty, at most 512 bytes, valid UTF-8, has at most 32 tokens, and every
    token is a bare wildcard where these are allowed (with [">"] last) or a
    non-empty run of runes without wildcards, spaces or control characters. *)
Lemma parse_accepts_grammar (s : string) (wildcards : bool) :
  is_ok (parse s wildcards) = true <-> Grammar wildcards s.
Proof.
  rewrite is_ok_true. unfold parse, Grammar.
  case_bool_decide as H0; [naive_solver|].
  destruct (MaxSubjectBytes <? slen s) eqn:H1; bool_prop; [naive_solver lia|].
  destruct (ValidString s); cbn [negb]; [|naive_solver]. split.
  - intros [ts (Hm & Hwf & Hlen & Hseg & Hlast & _)%parse_loop_ok].
    rewrite <-Hm, length_map in *. split_and!; [done|lia|done|lia|done|].
    intros i Hi. rewrite list_lookup_fmap in Hi. apply fmap_Some in Hi as (t & Hi & Ht).
    apply (Hlast i t Hi). pose proof (Forall_lookup_1 _ _ _ _ Hwf Hi) as Hwft.
    destruct (tkind t) eqn:Hk; [|by unfold tok_text in Ht; rewrite Hk in Ht|done].
    destruct (literal_not_wild _ Hwft Hk) as (_ & [] & _).
    unfold tok_text in Ht. by rewrite Hk in Ht.
  - intros (_ & _ & _ & Hlen & Hseg & Hlast). by apply parse_loop_complete.
Qed.

(** C12: the compiled matcher agrees with the reference matcher of
    [internal/model]: for every pattern [ParsePattern] accepts and every
    subject, valid or not, both give the same answer. *)
Theorem Match_reference (p s : string) (pat : Pattern) :
  ParsePattern p = Ok pat -> Match pat s = Model.ModelMatch p s.
Proof.
  intros Hp. destruct (Match_walk p pat s Hp) as [_ ->].
  destruct (ParsePattern_inv p pat Hp) as (_ & _ & _ & _ & Hm & _). by rewrite Hm.
Qed.

Lemma Match_reference_witness :
  exists pat, ParsePattern "orders.*.>" = Ok pat /\
    Match pat "orders.eu.created.v1" = Model.ModelMatch "orders.*.>" "orders.eu.created.v1".
Proof. eexists. split; [vm_compute; reflexivity|]. apply Match_reference. vm_compute. reflexivity. Defined.

(** the pre-filters the cursor scan uses are sound: a subject a compiled
    pattern matches starts with [Prefix], has at least [MinTokens] tokens
    (exactly as many when the pattern has no [">"]), and for a pattern without
    wildcards matching is equality with its text. *)
Lemma Match_prefilters (p s : string) (pat : Pattern) :
  ParsePattern p = Ok pat ->
  (Match pat s = true -> has_prefix (Prefix pat) s = true /\
     (MinTokens pat <= length (split_on dot s))%nat /\
     (gt pat = false -> MinTokens pat = length (split_on dot s))) /\
  (IsLiteral pat = true -> Match pat s = true <-> s = p).
Proof.
  intros Hp. destruct (Match_walk p pat s Hp) as [Hraw ->].
  destruct (ParsePattern_inv p pat Hp) as (_ & Hne & Hwf & Hlast & Hm & Hpre & Hgt & Hst).
  split.
  - intros Hw. split.
    + unfold Prefix. rewrite Hpre. unfold literalPrefix.
      pose proof (literalPrefix_loop_spec "" 0 (tokens pat) Hne ltac:(done)) as Hl.
      rewrite Hm, join_split in Hl. simpl in Hl. rewrite Hl.
      destruct (all_literal (tokens pat)) eqn:Ha.
      * assert (s = p) as ->; [|apply has_prefix_spec; exists ""; by rewrite sapp_nil_r].
        rewrite <-(join_split dot s), <-(join_split dot p), <-Hm. f_equal.
        apply walk_valid_segments; [done| |done].
        apply Forall_forall. intros t Ht%list_elem_of_In.
        unfold all_literal in Ha. rewrite forallb_forall in Ha.
        by apply (bool_decide_eq_true _), Ha.
      * rewrite <-(join_split dot s). by apply walk_lit_prefix.
    + rewrite Hgt. by apply walk_lengths.
  - intros (H1 & H2)%andb_true_iff. apply andb_true_iff in H1 as [_ H1].
    rewrite Hgt in H1. rewrite Hst in H2. bool_prop.
    pose proof (no_wild_all_literal _ H1 H2) as Hlit. split.
    + intros Hw%walk_valid_segments; [|done|done].
      by rewrite <-(join_split dot s), <-(join_split dot p), <-Hm, Hw.
    + intros ->. rewrite <-Hm. apply walk_literal; [done|done| |done]. by apply literal_segments.
Qed.

(** a compiled set keeps the first occurrence of each text in order,
    compiles its own listing back to itself (re-sending a subject list is
    idempotent), and matches a subject if and only if the reference matcher
    accepts it for some text of the list it was given. *)
Lemma ParseSet_spec (rs : list string) (set : Set_) :
  ParseSet rs = Ok set ->
  Strings set = first_occurrences [] rs /\
  ParseSet (Strings set) = Ok set /\
  (forall s, SetMatch set s = existsb (fun p => Model.ModelMatch p s) rs).
Proof.
  unfold ParseSet. destruct rs as [|r rs]; [done|]. rewrite rbind_ok.
  intros (ps & Hps & [= <-]). destruct (ParseSet_loop_ok _ _ _ Hps) as [Hm Hf].
  destruct (first_occurrences_spec [] (r :: rs)) as [Hnd Hel]. rewrite <-Hm in Hnd, Hel.
  unfold Strings, SetMatch; simpl pats. split_and!; [done| |].
  - rewrite ParseSet_loop_again; [|done|done|set_solver].
    destruct ps as [|p ps]; [|done]. exfalso. apply (not_elem_of_nil r), Hel. set_solver.
  - intros s. transitivity (existsb (fun p => Model.ModelMatch p s) (map raw ps)).
    + clear -Hf. induction ps as [|p ps IH]; simpl; [done|]. apply Forall_cons in Hf as [Hp Hf].
      rewrite IH by done. destruct (Match_walk _ _ s Hp) as [_ ->].
      destruct (ParsePattern_inv _ _ Hp) as (_ & _ & _ & _ & Hm & _). by rewrite Hm.
    + apply existsb_same_elements. intros x. rewrite Hel. set_solver.
Qed.

End SubjectTheorems.
