(* ===== verification/ApiErrors.v ===== *)
(** * Errors on the wire

    [internal/api/errors.go]: the closed enum of machine codes, the tables from
    sentinels and typed errors to codes and from codes to HTTP statuses, and the
    resolution of an error; [classifySubmit] of [internal/api/publish.go].

    An error as the handlers see it is the value of Prelude.v with what its
    chain carries besides: a code attached by [errs.WithCode] and the typed
    errors [errors.As] finds. *)

From S2P Require Import Prelude.

Module ApiErrors.

Inductive Code : Set :=
| CodeBadRequest | CodeBadSubject | CodeSubjectMismatch | CodeReservedHeader | CodeReservedName | CodeInvalidToken
| CodeUnauthorized | CodeForbidden | CodeNotFound | CodeMethodNotAllowed | CodeConflict | CodeStreamExists
| CodeImmutableField | CodeWouldLoseData | CodeStaleAck | CodeExtendCapped | CodePaused | CodeTooLarge
| CodeHeaderTooLarge | CodeUnsupportedMediaType | CodeUnsupported | CodeFlowControl | CodeRateLimited | CodeInternal
| CodeCommitUnknown | CodeBusy | CodeTooManyWaiters | CodeReadOnly | CodeShuttingDown | CodeDiskFull | CodeStreamFull
| CodeNotReady | CodeNotImplemented | CodeConsumerExists | CodeWouldChangeFilters | CodeConfirmRequired
| CodeConfirmMismatch | CodeDryRunUnsupported.

#[export] Instance Code_eq_dec : EqDecision Code.
Proof. solve_decision. Defined.

Definition code_string (c : Code) : string :=
  match c with
  | CodeBadRequest => "bad_request" | CodeBadSubject => "bad_subject" | CodeSubjectMismatch => "subject_mismatch"
  | CodeReservedHeader => "reserved_header" | CodeReservedName => "reserved_name" | CodeInvalidToken => "invalid_token"
  | CodeUnauthorized => "unauthorized" | CodeForbidden => "forbidden" | CodeNotFound => "not_found"
  | CodeMethodNotAllowed => "method_not_allowed" | CodeConflict => "conflict" | CodeStreamExists => "stream_exists"
  | CodeImmutableField => "immutable_field" | CodeWouldLoseData => "would_lose_data" | CodeStaleAck => "stale_ack"
  | CodeExtendCapped => "extend_capped" | CodePaused => "paused" | CodeTooLarge => "too_large"
  | CodeHeaderTooLarge => "header_too_large" | CodeUnsupportedMediaType => "unsupported_media_type"
  | CodeUnsupported => "unsupported" | CodeFlowControl => "flow_control" | CodeRateLimited => "rate_limited"
  | CodeInternal => "internal" | CodeCommitUnknown => "commit_unknown" | CodeBusy => "busy"
  | CodeTooManyWaiters => "too_many_waiters" | CodeReadOnly => "read_only" | CodeShuttingDown => "shutting_down"
  | CodeDiskFull => "disk_full" | CodeStreamFull => "stream_full" | CodeNotReady => "not_ready"
  | CodeNotImplemented => "not_implemented" | CodeConsumerExists => "consumer_exists"
  | CodeWouldChangeFilters => "would_change_filters" | CodeConfirmRequired => "confirm_required"
  | CodeConfirmMismatch => "confirm_mismatch" | CodeDryRunUnsupported => "dry_run_unsupported"
  end.

Definition allCodes : list Code :=
  [CodeBadRequest; CodeBadSubject; CodeSubjectMismatch; CodeReservedHeader; CodeReservedName; CodeInvalidToken;
   CodeUnauthorized; CodeForbidden; CodeNotFound; CodeMethodNotAllowed; CodeConflict; CodeStreamExists;
   CodeImmutableField; CodeWouldLoseData; CodeStaleAck; CodeExtendCapped; CodePaused; CodeTooLarge;
   CodeHeaderTooLarge; CodeUnsupportedMediaType; CodeUnsupported; CodeFlowControl; CodeRateLimited; CodeInternal;
   CodeCommitUnknown; CodeBusy; CodeTooManyWaiters; CodeReadOnly; CodeShuttingDown; CodeDiskFull; CodeStreamFull;
   CodeNotReady; CodeNotImplemented; CodeConfirmRequired; CodeConfirmMismatch; CodeDryRunUnsupported;
   CodeConsumerExists; CodeWouldChangeFilters].

(** [isCodeMember] on a string, with the member it names. *)
Definition isCodeMember (s : string) : option Code := List.find (fun c => bool_decide (code_string c = s)) allCodes.

Definition sentinelDefaults : list (sentinel * Code) :=
  [(ErrNotFound, CodeNotFound); (ErrConflict, CodeConflict); (ErrBadRequest, CodeBadRequest); (ErrBadSubject, CodeBadSubject);
   (ErrTooLarge, CodeTooLarge); (ErrStreamFull, CodeStreamFull); (ErrFlowControl, CodeFlowControl); (ErrStaleAck, CodeStaleAck);
   (ErrUnknownToken, CodeInvalidToken); (ErrWrongGen, CodeStaleAck); (ErrPaused, CodePaused); (ErrDiskFull, CodeDiskFull);
   (ErrReadOnly, CodeReadOnly); (ErrShuttingDown, CodeShuttingDown); (ErrUnauthorized, CodeUnauthorized); (ErrForbidden, CodeForbidden)].

Definition neverOverHTTP : list sentinel := [ErrLocked; ErrSchemaNewer; ErrUnavailable].

Definition codeStatus : list (Code * Z) :=
  [(CodeBadRequest, 400); (CodeBadSubject, 400); (CodeSubjectMismatch, 400); (CodeReservedHeader, 400); (CodeReservedName, 400);
   (CodeInvalidToken, 400); (CodeUnauthorized, 401); (CodeForbidden, 403); (CodeNotFound, 404); (CodeMethodNotAllowed, 405);
   (CodeConflict, 409); (CodeStreamExists, 409); (CodeImmutableField, 409); (CodeWouldLoseData, 409); (CodeStaleAck, 409);
   (CodeExtendCapped, 409); (CodePaused, 409); (CodeTooLarge, 413); (CodeHeaderTooLarge, 400); (CodeUnsupportedMediaType, 415);
   (CodeUnsupported, 400); (CodeFlowControl, 429); (CodeRateLimited, 429); (CodeInternal, 500); (CodeCommitUnknown, 503);
   (CodeBusy, 503); (CodeTooManyWaiters, 503); (CodeReadOnly, 503); (CodeShuttingDown, 503); (CodeDiskFull, 507);
   (CodeStreamFull, 507); (CodeNotReady, 503); (CodeNotImplemented, 503); (CodeConsumerExists, 409); (CodeWouldChangeFilters, 409);
   (CodeConfirmRequired, 409); (CodeConfirmMismatch, 409); (CodeDryRunUnsupported, 400)].

Definition status_lookup (c : Code) : option Z := snd <$> List.find (fun x => bool_decide (x.1 = c)) codeStatus.

(** An absent member reads as the zero of the map. *)
Definition retryAfterSeconds (c : Code) : Z := if default 0 (status_lookup c) =? 503 then 1 else 0.

(** The typed errors a chain may hold. *)
Inductive typed : Set :=
| RouterError (c : Code) | BusyError | ConfirmRequired | ConfirmMismatch | ConsumerExists | FilterChange | StreamExists
| ReservedName | ImmutableField | UnsupportedError | WouldLoseData | MismatchError | ReservedHeader | TooLargeError (what : string)
| CommitUnknown | DeadlineExceeded | Canceled.

#[export] Instance typed_eq_dec : EqDecision typed.
Proof. solve_decision. Defined.

Record api_error : Set := MkApiError { ae_error : error; ae_code : option string; ae_typed : list typed }.

Definition of_error (e : error) : api_error := MkApiError e None [].
Definition WithCode (e : api_error) (c : string) : api_error := MkApiError (ae_error e) (Some c) (ae_typed e).

(** The arms of the switch, in order: the first that some error of the chain satisfies. *)
Definition refinements : list (typed -> option Code) :=
  [(fun t => match t with RouterError c => Some c | _ => None end);
   (fun t => match t with BusyError => Some CodeBusy | _ => None end);
   (fun t => match t with ConfirmRequired => Some CodeConfirmRequired | _ => None end);
   (fun t => match t with ConfirmMismatch => Some CodeConfirmMismatch | _ => None end);
   (fun t => match t with ConsumerExists => Some CodeConsumerExists | _ => None end);
   (fun t => match t with FilterChange => Some CodeWouldChangeFilters | _ => None end);
   (fun t => match t with StreamExists => Some CodeStreamExists | _ => None end);
   (fun t => match t with ReservedName => Some CodeReservedName | _ => None end);
   (fun t => match t with ImmutableField => Some CodeImmutableField | _ => None end);
   (fun t => match t with UnsupportedError => Some CodeUnsupported | _ => None end);
   (fun t => match t with WouldLoseData => Some CodeWouldLoseData | _ => None end);
   (fun t => match t with MismatchError => Some CodeSubjectMismatch | _ => None end);
   (fun t => match t with ReservedHeader => Some CodeReservedHeader | _ => None end);
   (fun t => match t with
             | TooLargeError what => Some (if bool_decide (what = "body") then CodeTooLarge else CodeHeaderTooLarge)
             | _ => None
             end);
   (fun t => match t with CommitUnknown => Some CodeCommitUnknown | _ => None end)].

(** [errors.As] finds the outermost match of a chain. *)
Definition refineTyped (e : api_error) : option Code := head (refinements ≫= fun arm => option_list (head (omap arm (ae_typed e)))).

Definition mapCode (e : api_error) : Code :=
  match ae_code e with
  | Some c => default CodeInternal (isCodeMember c)
  | None =>
      match refineTyped e with
      | Some c => c
      | None => default CodeInternal (snd <$> List.find (fun row => is_kind row.1 (ae_error e)) sentinelDefaults)
      end
  end.

(** [writeError]: the status and the Retry-After header (0: none) of an error. *)
Definition writeError (e : api_error) : Code * Z * Z :=
  let code := mapCode e in (code, default 500 (status_lookup code), retryAfterSeconds code).

Definition classifySubmit (op : string) (e : api_error) : api_error :=
  if bool_decide (CommitUnknown ∈ ae_typed e) || is_kind ErrReadOnly (ae_error e) || is_kind ErrShuttingDown (ae_error e) then e
  else if bool_decide (DeadlineExceeded ∈ ae_typed e) || bool_decide (Canceled ∈ ae_typed e)
  then WithCode (of_error (E ErrShuttingDown op)) (code_string CodeBusy)
  else e.

(** ** The tables are closed *)

Lemma allCodes_complete c : c ∈ allCodes.
Proof. apply (bool_decide_unpack _). destruct c; reflexivity. Qed.

Lemma isCodeMember_string c : isCodeMember (code_string c) = Some c.
Proof. destruct c; reflexivity. Qed.

Lemma sentinels_covered k : (exists c, (k, c) ∈ sentinelDefaults) \/ k ∈ neverOverHTTP.
Proof.
  destruct k; (right; by apply (bool_decide_unpack _)) || (left; eexists; repeat (apply elem_of_cons; (left; reflexivity) || right)).
Qed.

Lemma status_total c : exists s, status_lookup c = Some s /\ 400 <= s < 600 /\ (s = 500 <-> c = CodeInternal).
Proof. destruct c; (eexists; split; [vm_compute; reflexivity|]); (split; [lia|]); split; intros; (lia || discriminate || reflexivity). Qed.

(** Every error has a wire shape.  Whatever an error's chain holds, its code
    is a member of the enum with a status from 400 to 599 in the table; the
    status is 500 exactly for the code internal; a Retry-After is sent exactly
    with a 503; and an error that carries only a sentinel gets internal exactly
    when that sentinel is listed as never reaching HTTP. *)
Lemma every_error_maps e :
  let '(code, status, retry) := writeError e in
  code ∈ allCodes /\ status_lookup code = Some status /\ 400 <= status < 600 /\
  (status = 500 <-> code = CodeInternal) /\ (retry = 1 <-> status = 503) /\
  (forall k tag, e = of_error (E k tag) -> code = CodeInternal <-> k ∈ neverOverHTTP).
Proof.
  unfold writeError. destruct (status_total (mapCode e)) as (s & Hs & Hr & Hi).
  split; [apply allCodes_complete|]. rewrite Hs. simpl. split; [done|]. split; [done|]. split; [done|]. split; [split|].
  - unfold retryAfterSeconds. rewrite Hs. simpl. destruct (s =? 503) eqn:H5; bool_prop; intros; lia.
  - unfold retryAfterSeconds. rewrite Hs. simpl. intros ->. done.
  - intros k tag ->. split.
    + intros Hc. apply (bool_decide_unpack _). destruct k; reflexivity || discriminate Hc.
    + intros Hk. repeat (apply elem_of_cons in Hk as [->|Hk]; [reflexivity|]). by apply elem_of_nil in Hk.
Qed.

(** A submission that timed out is busy, whatever it was about. *)
Lemma classify_timeout op tag : writeError (classifySubmit op (MkApiError (Plain tag) None [DeadlineExceeded])) = (CodeBusy, 503, 1).
Proof. reflexivity. Qed.

End ApiErrors.
