(* ===== verification/ApiCodec.v ===== *)
(** * Decoding a JSON request

    [internal/api/codec.go]: the media types accepted, the byte cap, unknown
    fields and trailing data.  A body is what the decoder of encoding/json makes
    of the bytes: the first value or a syntax error, the offset at which it was
    known, and the first byte after it that is not white space.  Decoding a value
    into a struct follows encoding/json: names match up to case folding, null
    leaves a field alone, the last of two equal names wins. *)

From S2P Require Import Prelude GoText ApiErrors.

Module ApiCodec.
Import ApiErrors.

(** A number is an integer literal or one with a fraction or an exponent. *)
Inductive json : Set :=
| JNull | JBool (b : bool) | JNum (n : Z) | JReal | JStr (s : string) | JArr (l : list json) | JObj (l : list (string * json)).

Record body : Set := MkBody {
  b_contentType : string;
  b_value : option json;          (* None: a syntax error, or no value at all *)
  b_end : Z;                      (* bytes read when the value or the error is known *)
  b_trail : option (Z * ascii);   (* offset and byte of what follows the value *)
}.

(** [strings.ToLower] as far as it meets ASCII: the letters, the dotted capital i
    and the Kelvin sign are the runes whose lower case is an ASCII byte. *)
Definition ToLower (s : string) : string :=
  unchunk (map (fun '(r, bytes) => if r =? 304 then (r, "i") else if r =? 8490 then (r, "k") else (r, fold_case bytes)) (chunks s)).

(** [media[:i]] at the first semicolon, trimmed and in lower case. *)
Definition media_type (ct : string) : string :=
  TrimSpace (ToLower (match cut ";" ct with Some (m, _) => m | None => ct end)).

Definition isCurlFormDefault (ct : string) : bool := bool_decide (media_type ct = "application/x-www-form-urlencoded").

Definition isJSONContentType (ct : string) : bool :=
  let media := media_type ct in
  bool_decide (media = "application/json") || has_prefix "application/json+" media || has_prefix "application/vnd.messq." media
  || bool_decide (media = "text/json").

(** [Decoder.More] after the value: what follows is not a closing bracket, and
    the capped reader still yields it. *)
Definition More (max : Z) (b : body) : bool :=
  match b_trail b with
  | Some (off, c) => (off <? max) && negb (Ascii.eqb c "]") && negb (Ascii.eqb c "}")
  | None => false
  end.

Definition decodeJSONInto {T} (decode : json -> option T) (max : Z) (b : body) : api_error + T :=
  if negb (bool_decide (b_contentType b = "")) && negb (isJSONContentType (b_contentType b)) && negb (isCurlFormDefault (b_contentType b))
  then inl (WithCode (of_error (E ErrBadRequest "api.decode")) (code_string CodeUnsupportedMediaType))
  else if max <? b_end b then inl (of_error (E ErrTooLarge "api.decode"))
  else match v ← b_value b; decode v with
       | None => inl (of_error (E ErrBadRequest "api.decode"))
       | Some t => if More max b then inl (of_error (E ErrBadRequest "api.decode")) else inr t
       end.

(** ** Structs *)

(** encoding/json compares names by the least rune of each folding orbit:
    besides the ASCII letters, the Kelvin sign folds with k and the long s with s. *)
Definition foldName (s : string) : string :=
  unchunk (map (fun '(r, bytes) => if r =? 8490 then (r, "k") else if r =? 383 then (r, "s") else (r, fold_case bytes)) (chunks s)).

Definition named (field key : string) : bool := bool_decide (foldName key = field).

Definition of_string (old : string) (v : json) : option string := match v with JStr s => Some s | JNull => Some old | _ => None end.

(** Into an int64, and into a pointer to one. *)
Definition of_int64 (old : Z) (v : json) : option Z :=
  match v with JNum n => if (- 2 ^ 63 <=? n) && (n <? 2 ^ 63) then Some n else None | JNull => Some old | _ => None end.

Definition of_int64_ptr (v : json) : option (option Z) := match v with JNull => Some None | _ => Some <$> of_int64 0 v end.

(** Into a slice, element by element from the zero value. *)
Definition of_slice {T} (elem : json -> option T) (v : json) : option (list T) :=
  match v with JArr l => mapM elem l | JNull => Some [] | _ => None end.

(** An object into a struct: [set] stores a field, refusing a name the struct lacks. *)
Definition of_struct {T} (set : T -> string -> json -> option T) (zero : T) (v : json) : option T :=
  match v with
  | JObj fields => foldl (fun acc '(k, v) => t ← acc; set t k v) (Some zero) fields
  | JNull => Some zero
  | _ => None
  end.

(** ** What the policy lets through *)

(** A refused request never reaches its handler, and each reason for refusing has its status. *)
Lemma decode_outcome {T} (decode : json -> option T) max b :
  match decodeJSONInto decode max b with
  | inl e => writeError e ∈ [(CodeUnsupportedMediaType, 415, 0); (CodeTooLarge, 413, 0); (CodeBadRequest, 400, 0)]
  | inr t => b_end b <= max /\ More max b = false /\ exists v, b_value b = Some v /\ decode v = Some t
  end.
Proof.
  unfold decodeJSONInto. destruct (_ && _ && _); [apply (bool_decide_unpack _); reflexivity|].
  destruct (max <? b_end b) eqn:Hm; [apply (bool_decide_unpack _); reflexivity|].
  destruct (b_value b) as [v|]; simpl; [|apply (bool_decide_unpack _); reflexivity].
  destruct (decode v) as [t|] eqn:Hd; [|apply (bool_decide_unpack _); reflexivity].
  destruct (More max b) eqn:Hmore; [apply (bool_decide_unpack _); reflexivity|]. bool_prop. eauto with lia.
Qed.

(** A name the struct lacks refuses the whole body, wherever it stands. *)
Lemma unknown_field_refused {T} (set : T -> string -> json -> option T) zero k v fields :
  (k, v) ∈ fields -> (forall t, set t k v = None) -> of_struct set zero (JObj fields) = None.
Proof.
  intros Hin Hset. simpl. assert (Hnone : forall l, foldl (fun (acc : option T) '(k, v) => t ← acc; set t k v) None l = None).
  { induction l as [|[] l IH]; [done|apply IH]. }
  apply list_elem_of_split in Hin as (l1 & l2 & ->). rewrite foldl_app. simpl.
  destruct (foldl _ (Some zero) l1) as [t|]; simpl; [rewrite Hset|]; apply Hnone.
Qed.

(** Trailing data is refused only when it does not start with a closing
    bracket: one value followed by a brace is taken as that value. *)
Lemma trailing_brace_accepted {T} (decode : json -> option T) max b v t off :
  b_contentType b = "" -> b_value b = Some v -> decode v = Some t -> b_end b <= max ->
  b_trail b = Some (off, "}"%char) -> decodeJSONInto decode max b = inr t.
Proof.
  intros Hct Hv Hd He Ht. unfold decodeJSONInto. rewrite Hct, (bool_decide_true _ eq_refl). simpl. rewrite (proj2 (Z.ltb_ge _ _) He), Hv.
  simpl. rewrite Hd. unfold More. rewrite Ht. simpl. by rewrite andb_false_r.
Qed.

Example content_types :
  map isJSONContentType ["application/json; charset=utf-8"; " Application/JSON"; "application/vnd.messq.v1"; "text/json"; "text/plain"; "application/jsonx"]
  = [true; true; true; true; false; false].
Proof. reflexivity. Qed.

Example fold_names : map (named "token") ["token"; "TOKEN"; "reason"] = [true; true; false].
Proof. reflexivity. Qed.

End ApiCodec.
