(* ===== verification/ClientErrors.v ===== *)
(** * The client's errors and names

    [pkg/client/errors.go], [names.go] and the failure half of [do.go]: the
    sentinels behind the machine codes, the classification of an error into a
    kind, the reading of an error response, the Retry-After header, the response
    cap, and the client's copy of the name grammar. *)

From S2P Require Import Prelude GoText Subject ApiErrors.

Module ClientErrors.
Import ApiErrors.

(** A sentinel is known by its text; the reserved-header one also wraps ErrBadRequest. *)
Definition cErrBadRequest : string := "bad_request".
Definition cErrReservedHeader : string := "reserved_header: bad_request".
Definition cErrUnreachable : string := "unavailable".
Definition cErrConfig : string := "configuration error".
Definition cErrBadAddress : string := "bad address".
Definition cErrLeaseLost : string := "lease lost".
Definition cErrExtendCapped : string := "extend_capped".

Definition codeSentinels : list (string * string) :=
  [("bad_request", cErrBadRequest); ("bad_subject", "bad_subject"); ("subject_mismatch", "subject_mismatch");
   ("reserved_header", cErrReservedHeader); ("reserved_name", "reserved_name"); ("invalid_token", "invalid_token");
   ("unauthorized", "unauthorized"); ("forbidden", "forbidden"); ("not_found", "not_found");
   ("method_not_allowed", "method_not_allowed"); ("conflict", "conflict"); ("stream_exists", "stream_exists");
   ("immutable_field", "immutable_field"); ("would_lose_data", "would_lose_data"); ("stale_ack", "stale_ack");
   ("extend_capped", cErrExtendCapped); ("paused", "paused"); ("too_large", "too_large"); ("header_too_large", "header_too_large");
   ("unsupported_media_type", "unsupported_media_type"); ("unsupported", "unsupported"); ("flow_control", "flow_control");
   ("rate_limited", "rate_limited"); ("internal", "internal"); ("commit_unknown", "commit_unknown"); ("busy", "busy");
   ("too_many_waiters", "too_many_waiters"); ("read_only", "read_only"); ("shutting_down", "shutting_down");
   ("disk_full", "disk_full"); ("stream_full", "stream_full"); ("unavailable", cErrUnreachable)].

(** What hangs under a client error: nothing, a deadline, or anything else. *)
Inductive cause : Set := NoCause | Deadline | OtherCause.

Record Error : Set := MkCErr { e_Code : string; e_Message : string; e_Status : Z; e_RetryAfter : Z; e_err : cause }.

Definition assoc {A} (k : string) (l : list (string * A)) : option A := snd <$> List.find (fun x => bool_decide (x.1 = k)) l.

(** The [Is] method of Error: an unknown code matches no sentinel. *)
Definition Is (e : Error) (target : string) : bool :=
  match assoc (e_Code e) codeSentinels with
  | Some s => bool_decide (s = target) || (bool_decide (s = cErrReservedHeader) && bool_decide (target = cErrBadRequest))
  | None => false
  end.

Inductive Kind : Set :=
| KindOK | KindUsage | KindNotFound | KindConflict | KindPermission | KindUnavailable | KindTimeout | KindEmpty | KindInternal.

#[export] Instance Kind_eq_dec : EqDecision Kind.
Proof. solve_decision. Defined.

Definition kindByCode : list (string * Kind) :=
  [("bad_request", KindUsage); ("bad_subject", KindUsage); ("subject_mismatch", KindUsage); ("reserved_header", KindUsage);
   ("reserved_name", KindUsage); ("invalid_token", KindUsage); ("header_too_large", KindUsage); ("unsupported_media_type", KindUsage);
   ("unsupported", KindUsage); ("method_not_allowed", KindUsage); ("too_large", KindUsage); ("not_found", KindNotFound);
   ("conflict", KindConflict); ("stream_exists", KindConflict); ("immutable_field", KindConflict); ("would_lose_data", KindConflict);
   ("stale_ack", KindConflict); ("extend_capped", KindConflict); ("paused", KindConflict); ("unauthorized", KindPermission);
   ("forbidden", KindPermission); ("flow_control", KindUnavailable); ("rate_limited", KindUnavailable);
   ("commit_unknown", KindUnavailable); ("busy", KindUnavailable); ("too_many_waiters", KindUnavailable);
   ("read_only", KindUnavailable); ("shutting_down", KindUnavailable); ("disk_full", KindUnavailable);
   ("stream_full", KindUnavailable); ("unavailable", KindUnavailable); ("internal", KindInternal)].

(** An error a call may return: the client's own, a bare context deadline, one
    that matches a local sentinel, or anything else. *)
Inductive cerror : Set := Wire (e : Error) | BareDeadline | Local (sentinel : string) | Unknown.

Definition Classify (err : option cerror) : Kind :=
  match err with
  | None => KindOK
  | Some (Wire e) =>
      match e_err e with
      | Deadline => KindTimeout
      | _ => default KindInternal (assoc (e_Code e) kindByCode)
      end
  | Some BareDeadline => KindTimeout
  | Some (Local s) =>
      if bool_decide (s = cErrUnreachable) then KindUnavailable
      else if bool_decide (s = cErrConfig) || bool_decide (s = cErrBadAddress) then KindUsage
      else if bool_decide (s = cErrLeaseLost) then KindConflict
      else KindInternal
  | Some Unknown => KindInternal
  end.

Definition unreachable (op text : string) (deadline : bool) : Error :=
  MkCErr "unavailable" (if deadline then op +:+ ": timed out" else op +:+ ": " +:+ text) 0 0 (if deadline then Deadline else OtherCause).

(** The seconds are an int64 multiplied into nanoseconds. *)
Definition retryAfter (v : string) : Z :=
  if bool_decide (v = "") then 0
  else match atoi (TrimSpace v) with
       | Some n => if n <? 0 then 0 else wrap64 (n * Second)
       | None => 0
       end.

(** [readCapped]: the bytes, or a refusal once the body passes the cap. *)
Definition readCapped (max : Z) (data : string) : Error + string :=
  if max <? Z.of_nat (String.length data) then inl (MkCErr "too_large" "response body exceeds MaxResponseBytes" 0 0 OtherCause)
  else inr data.

(** A response to a failed request: the code and message of the envelope its
    body decodes to, if it does. *)
Record failure : Set := MkFailure { f_status : Z; f_retry : string; f_envelope : option (string * string) }.

Definition decodeFailure (op : string) (r : failure) : Error :=
  match f_envelope r with
  | Some (code, msg) =>
      if bool_decide (code = "") then MkCErr "internal" (op +:+ ": status with a non-envelope body") (f_status r) (retryAfter (f_retry r)) NoCause
      else MkCErr code (if bool_decide (msg = "") then code else msg) (f_status r) (retryAfter (f_retry r)) NoCause
  | None => MkCErr "internal" (op +:+ ": status with a non-envelope body") (f_status r) (retryAfter (f_retry r)) NoCause
  end.

(** The response [writeError] sends: the header is set only for a positive value. *)
Definition error_response (msg : string) (e : api_error) : failure :=
  let '(code, status, retry) := writeError e in
  MkFailure status (if 0 <? retry then format_int retry else "") (Some (code_string code, msg)).

(** ** Reasons *)

Definition reasonLimit : Z := 4 * 1024.

Definition truncateReason (s : string) : string :=
  if reasonLimit <? Z.of_nat (String.length s) then take_str (Z.to_nat reasonLimit) s else s.

Lemma take_str_length n s : (String.length (take_str n s) <= n)%nat.
Proof. revert n. induction s as [|c s IH]; intros [|n]; simpl; try lia. specialize (IH n). lia. Qed.

Lemma truncateReason_length s : Z.of_nat (String.length (truncateReason s)) <= reasonLimit.
Proof.
  unfold truncateReason. destruct (_ <? _) eqn:Hl; bool_prop; [|done]. pose proof (take_str_length (Z.to_nat reasonLimit) s).
  rewrite <-(Z2Nat.id reasonLimit) at 2 by done. lia.
Qed.

Lemma truncateReason_empty s : truncateReason s = "" -> s = "".
Proof. unfold truncateReason. destruct (reasonLimit <? _) eqn:Hl; [|done]. by destruct s. Qed.

(** ** Names *)

Definition client_name_byte (dots : bool) (c : ascii) : bool :=
  let z := byte_z c in
  ((97 <=? z) && (z <=? 122)) || ((65 <=? z) && (z <=? 90)) || ((48 <=? z) && (z <=? 57)) || (z =? 95) || (z =? 45)
  || ((z =? 46) && dots).

Definition validName (name : string) (dots : bool) (maxBytes : Z) : bool :=
  if bool_decide (name = "") then false
  else if maxBytes <? Z.of_nat (String.length name) then false
  else if negb (all_bytes (client_name_byte dots) name) then false
  else negb (dots && (bool_decide (String.get 0 name = Some "."%char)
                      || bool_decide (String.get (String.length name - 1) name = Some "."%char) || contains_str ".." name)).

Definition validStreamName (name : string) : bool := validName name true 64.
Definition validNewStreamName (name : string) : bool := validName name true (64 - 4).
Definition validConsumerName (name : string) : bool := validName name false 64.

(** The copy agrees with the server's grammar. *)
Lemma client_names_agree name :
  validStreamName name = is_ok (Subject.ValidateStreamName name) /\
  validNewStreamName name = is_ok (Subject.ValidateNewStreamName name) /\
  validConsumerName name = is_ok (Subject.ValidateConsumerName name).
Proof.
  assert (Hb : forall d c, client_name_byte d c = Subject.name_byte d c).
  { intros [] c; destruct c as [[] [] [] [] [] [] [] []]; reflexivity. }
  assert (Ha : forall d s, all_bytes (client_name_byte d) s = all_bytes (Subject.name_byte d) s).
  { intros d s. induction s as [|c s IH]; simpl; [done|]. by rewrite Hb, IH. }
  assert (Hv : forall n d m, validName n d m = is_ok (Subject.validateName n d m)).
  { intros n d m. unfold validName, Subject.validateName, Subject.last_byte, Subject.dot. rewrite Ha. repeat case_match; done. }
  split; [apply Hv|]. split; [apply Hv|apply Hv].
Qed.

(** ** Reading what the server writes *)

(** The codes of the server's enum the client has no sentinel for. *)
Definition unnamed : list Code :=
  [CodeNotReady; CodeNotImplemented; CodeConsumerExists; CodeWouldChangeFilters; CodeConfirmRequired; CodeConfirmMismatch;
   CodeDryRunUnsupported].

Definition kind_of (code : Code) : Kind := default KindInternal (assoc (code_string code) kindByCode).

(** The client files a code as internal exactly when it is, or when it has no name for it. *)
Lemma kind_internal code : kind_of code = KindInternal <-> code ∈ CodeInternal :: unnamed.
Proof.
  rewrite <-(bool_decide_eq_true (code ∈ _)), <-(bool_decide_eq_true (kind_of code = KindInternal)).
  destruct code; reflexivity.
Qed.

(** Both tables of the client have the same codes. *)
Lemma sentinel_iff_kind code : bool_decide (is_Some (assoc (code_string code) codeSentinels)) = bool_decide (code ∉ unnamed).
Proof. destruct code; reflexivity. Qed.

Lemma kind_unavailable code : status_lookup code = Some 503 -> code ∉ unnamed -> kind_of code = KindUnavailable.
Proof.
  rewrite <-(bool_decide_eq_true (code ∉ unnamed)). destruct code; try done.
Qed.

(** The client reads an error as the server wrote it.  For every error the
    server can answer with, the client's error carries the same machine code and
    status, and the Retry-After the server sent, in nanoseconds; a code the
    client names matches exactly its sentinel (with bad_request besides for a
    reserved header); and it is filed as internal exactly when the code is
    internal or is one of the seven codes the client's tables lack, so that a
    503 with a code the tables have is retryable. *)
Theorem client_reads_server_error op msg e :
  let '(code, status, retry) := writeError e in
  let c := decodeFailure op (error_response msg e) in
  (e_Code c, e_Status c, e_RetryAfter c) = (code_string code, status, retry * Second) /\
  (forall target, Is c target = true <-> exists s, assoc (code_string code) codeSentinels = Some s /\
     (s = target \/ (s = cErrReservedHeader /\ target = cErrBadRequest))) /\
  (Classify (Some (Wire c)) = KindInternal <-> code ∈ CodeInternal :: unnamed) /\
  (status = 503 -> code ∉ unnamed -> Classify (Some (Wire c)) = KindUnavailable).
Proof.
  unfold error_response. destruct (writeError e) as [[code status] retry] eqn:Hw.
  unfold writeError in Hw. injection Hw as <- <- <-. set (code := mapCode e) in *. clearbody code.
  assert (Hcode : e_Code (decodeFailure op (MkFailure (default 500 (status_lookup code))
      (if 0 <? retryAfterSeconds code then format_int (retryAfterSeconds code) else "") (Some (code_string code, msg)))) = code_string code)
    by (by destruct code).
  split; [|split; [|split]].
  - destruct code; reflexivity.
  - intros target. unfold Is. rewrite Hcode. destruct (assoc (code_string code) codeSentinels) as [s|]; [|split; [done|by intros (? & ? & ?)]].
    split; [|intros (s' & [= <-] & Hor)].
    + intros Ht. exists s. split; [done|]. revert Ht. repeat case_bool_decide; simpl; intros; try done; auto.
    + repeat case_bool_decide; try done; destruct Hor as [|[]]; congruence.
  - unfold Classify. rewrite <-kind_internal. unfold kind_of. destruct code; done.
  - intros H5 Hn. destruct (status_total code) as (x & Hx & _). rewrite Hx in H5. simpl in H5. subst x.
    pose proof (kind_unavailable code Hx Hn) as Hk. by destruct code.
Qed.

Lemma client_reads_server_error_witness :
  Classify (Some (Wire (decodeFailure "POST /v1/ack" (error_response "busy" (WithCode (of_error (E ErrShuttingDown "api.settle")) "busy"))))) = KindUnavailable.
Proof.
  apply (client_reads_server_error "POST /v1/ack" "busy" (WithCode (of_error (E ErrShuttingDown "api.settle")) "busy")).
  - reflexivity.
  - apply (bool_decide_unpack _). reflexivity.
Defined.

(** A daemon that is not ready answers 503, and the client files it as internal. *)
Lemma not_ready_is_internal op msg : Classify (Some (Wire (decodeFailure op (MkFailure 503 "1" (Some (code_string CodeNotReady, msg)))))) = KindInternal.
Proof. reflexivity. Qed.

End ClientErrors.
