(* ===== verification/Token.v ===== *)
(** * Ack tokens: internal/queue/token.go

    The fenced ack token [stream/consumer/seq/attempt/generation], its
    printer and its strict parser. *)

From S2P Require Import Prelude GoText Subject.

Module Token.

Record Token : Set := MkToken {
  Stream : string;
  Consumer : string;
  Seq : Z;
  Attempt : Z;
  Generation : Z
}.

#[global] Instance Token_eq_dec : EqDecision Token.
Proof. solve_decision. Defined.

Definition slash : ascii := "/"%char.

Definition TokenString (t : Token) : string :=
  Stream t +:+ String slash (Consumer t +:+ String slash (format_int (Seq t)
    +:+ String slash (format_int (Attempt t) +:+ String slash (format_int (Generation t))))).

Definition MaxTokenLen : Z := 171.

Definition parseUintField (field : string) : result Z :=
  match field with
  | "" => Err (E ErrUnknownToken "field is empty")
  | String c _ =>
      if bool_decide (c = "0"%char) then Err (E ErrUnknownToken "leading zero")
      else match parse_uint field with
           | None => Err (E ErrUnknownToken "not a canonical decimal integer")
           | Some v => Ok v
           end
  end.

(** One numeric field with its range test [1..hi]. *)
Definition field_in_range (field : string) (hi : Z) : result Z :=
  let? v := parseUintField field in
  if (v =? 0) || (hi <? v) then Err (E ErrUnknownToken "out of range") else Ok v.

Definition ParseToken (s : string) : result Token :=
  if MaxTokenLen <? slen s then Err (E ErrUnknownToken "too long")
  else if bool_decide (s = "") then Err (E ErrUnknownToken "token is empty")
  else match cut slash s with
  | None => Err (E ErrUnknownToken "names no consumer")
  | Some (stream, rest) =>
  match cut slash rest with
  | None => Err (E ErrUnknownToken "names no seq")
  | Some (consumer, rest) =>
  match cut slash rest with
  | None => Err (E ErrUnknownToken "names no attempt")
  | Some (seqStr, rest) =>
  match cut slash rest with
  | None => Err (E ErrUnknownToken "names no generation")
  | Some (attemptStr, genStr) =>
      if negb (is_ok (Subject.ValidateStreamName stream))
      then Err (E ErrUnknownToken "stream field")
      else if negb (is_ok (Subject.ValidateConsumerName consumer))
      then Err (E ErrUnknownToken "consumer field")
      else
        let? seq := field_in_range seqStr max_int64 in
        let? attempt := field_in_range attemptStr max_int32 in
        let? generation := field_in_range genStr max_int32 in
        Ok {| Stream := stream; Consumer := consumer; Seq := seq;
              Attempt := attempt; Generation := generation |}
  end end end end.

(** ** Minted tokens *)

(** The tokens the store mints: valid names and counts in their columns' range. *)
Definition token_wf (t : Token) : Prop :=
  Subject.ValidateStreamName (Stream t) = Ok tt /\
  Subject.ValidateConsumerName (Consumer t) = Ok tt /\
  1 <= Seq t <= max_int64 /\ 1 <= Attempt t <= max_int32 /\ 1 <= Generation t <= max_int32.

Lemma parseUintField_ok field v :
  parseUintField field = Ok v <->
  parse_uint field = Some v /\ String.get 0 field <> Some "0"%char.
Proof.
  unfold parseUintField. destruct field as [|c field]; [naive_solver|].
  case_bool_decide; [simpl; naive_solver|].
  destruct (parse_uint (String c field)); simpl; naive_solver.
Qed.

Lemma field_in_range_ok field hi v :
  field_in_range field hi = Ok v <-> parseUintField field = Ok v /\ v <> 0 /\ v <= hi.
Proof.
  unfold field_in_range. rewrite rbind_ok. split.
  - intros (a & Ha & Hv). destruct (_ || _) eqn:Hr; [done|]. bool_prop. naive_solver.
  - intros (Hv & H0 & Hhi). exists v. split; [done|].
    destruct (_ || _) eqn:Hr; [|done]. bool_prop. lia.
Qed.

(** A printed count parses back, and a parsed field prints back. *)
Lemma field_print v hi :
  1 <= v <= hi -> hi <= max_uint64 -> field_in_range (format_int v) hi = Ok v.
Proof.
  intros Hv Hhi. apply field_in_range_ok. unfold format_int.
  replace (v <? 0) with false by (symmetry; apply Z.ltb_ge; lia).
  split; [|lia]. apply parseUintField_ok.
  split; [apply parse_format_uint; lia|apply format_uint_head; lia].
Qed.

Lemma field_reprint field hi v :
  field_in_range field hi = Ok v -> 0 <= v -> format_int v = field /\ 1 <= v <= hi.
Proof.
  intros (Hp & H0 & Hhi)%field_in_range_ok Hpos. apply parseUintField_ok in Hp as [Hp Hz].
  unfold format_int. replace (v <? 0) with false by (symmetry; apply Z.ltb_ge; lia).
  split; [by apply format_parse_uint|lia].
Qed.

Lemma parse_uint_nonneg s v : parse_uint s = Some v -> 0 <= v.
Proof. intros (_ & Hd & <- & _)%parse_uint_spec. by apply dec_val_ge. Qed.

Lemma field_nonneg field hi v : field_in_range field hi = Ok v -> 0 <= v.
Proof.
  intros (Hp & _)%field_in_range_ok. apply parseUintField_ok in Hp as [Hp _].
  by eapply parse_uint_nonneg.
Qed.

Lemma format_int_no_slash v : 0 <= v -> has_byte slash (format_int v) = false.
Proof.
  intros Hv. unfold format_int. replace (v <? 0) with false by (symmetry; apply Z.ltb_ge; lia).
  by apply format_uint_no_byte.
Qed.

Lemma format_int_length v n :
  (1 <= n <= 20)%nat -> 0 <= v < 10 ^ Z.of_nat n -> (String.length (format_int v) <= n)%nat.
Proof.
  intros Hn Hv. unfold format_int. replace (v <? 0) with false by (symmetry; apply Z.ltb_ge; lia).
  unfold format_uint. rewrite (format_digits_fuel n 20 v) by lia. apply format_digits_length.
Qed.

Lemma is_ok_tt (r : result unit) : is_ok r = true <-> r = Ok tt.
Proof. destruct r as [[]|]; naive_solver. Qed.

(** The longest minted token is exactly [MaxTokenLen] bytes. *)
Lemma TokenString_length t : token_wf t -> slen (TokenString t) <= MaxTokenLen.
Proof.
  intros (Hs & Hc & Hseq & Ha & Hg).
  apply SubjectFacts.validateName_ok in Hs as (_ & Hs & _).
  apply SubjectFacts.validateName_ok in Hc as (_ & Hc & _).
  unfold TokenString. repeat (rewrite sapp_length; cbn [String.length]).
  pose proof (format_int_length (Seq t) 19). pose proof (format_int_length (Attempt t) 10).
  pose proof (format_int_length (Generation t) 10).
  unfold Subject.MaxStreamNameBytes, Subject.MaxConsumerNameBytes, MaxTokenLen, max_int64, max_int32 in *.
  lia.
Qed.

Lemma TokenString_not_empty t : TokenString t <> "".
Proof. unfold TokenString. by destruct (Stream t). Qed.

(** Minting, then parsing. *)
Lemma print_parses (t : Token) :
  token_wf t -> ParseToken (TokenString t) = Ok t /\ slen (TokenString t) <= MaxTokenLen.
Proof.
  intros Hwf. pose proof (TokenString_length t Hwf) as Hlen. split; [|done].
  destruct Hwf as (Hs & Hc & Hseq & Ha & Hg). unfold ParseToken.
  replace (MaxTokenLen <? _) with false by (symmetry; apply Z.ltb_ge; lia).
  rewrite bool_decide_eq_false_2 by apply TokenString_not_empty. unfold TokenString.
  rewrite cut_app by (eapply SubjectFacts.name_no_slash; done).
  rewrite cut_app by (eapply SubjectFacts.name_no_slash; done).
  rewrite !cut_app by (apply format_int_no_slash; lia).
  rewrite Hs, Hc. simpl. unfold max_int64, max_int32 in *.
  rewrite !field_print by (unfold max_uint64; lia). by destruct t.
Qed.

Definition sample_token : Token :=
  {| Stream := "orders"; Consumer := "billing"; Seq := 8412; Attempt := 2; Generation := 1 |}.

(** Parsing, then minting. *)
Lemma parse_canonical (s : string) (t : Token) :
  ParseToken s = Ok t -> TokenString t = s /\ token_wf t.
Proof.
  unfold ParseToken. case_match; [done|]. case_bool_decide; [done|].
  destruct (cut slash s) as [[stream r1]|] eqn:H1; [|done].
  destruct (cut slash r1) as [[consumer r2]|] eqn:H2; [|done].
  destruct (cut slash r2) as [[seqS r3]|] eqn:H3; [|done].
  destruct (cut slash r3) as [[attS genS]|] eqn:H4; [|done].
  destruct (is_ok (Subject.ValidateStreamName stream)) eqn:Hs; [|done].
  destruct (is_ok (Subject.ValidateConsumerName consumer)) eqn:Hc; [|done]. simpl.
  rewrite rbind_ok. intros (seq & Hseq & Hr). apply rbind_ok in Hr as (att & Hatt & Hr).
  apply rbind_ok in Hr as (gen & Hgen & [= <-]).
  apply is_ok_tt in Hs, Hc.
  apply cut_Some in H1 as [-> _], H2 as [-> _], H3 as [-> _], H4 as [-> _].
  destruct (field_reprint _ _ _ Hseq) as [Es Rs]; [by eapply field_nonneg|].
  destruct (field_reprint _ _ _ Hatt) as [Ea Ra]; [by eapply field_nonneg|].
  destruct (field_reprint _ _ _ Hgen) as [Eg Rg]; [by eapply field_nonneg|].
  unfold TokenString, token_wf; simpl. by rewrite Es, Ea, Eg.
Qed.


End Token.
