(* ===== verification/Waiters.v ===== *)
(** * The waiter registry of the long poll

    [internal/api/waiters.go]: the bounded registry of parked fetches, sharded
    by stream, with its wake sources (the sweeper, a nak, a committed publish)
    and its shutdown.  [Waker] is the interface the store's sweeper is written
    against ([internal/store/waker.go]); the registry and [NopWaker] are its two
    implementations.

    The methods run under the mutex of one shard each, and [total] is an atomic
    counter outside every mutex, so the registry is a step relation: a
    subscription checks the caps in one step and parks in another, with its
    shard locked in between.  A send on a closed channel, and closing a channel
    twice, panic: such an operation is [None]. *)

From stdpp Require Import gmap.
From S2P Require Import Prelude GoText Subject.

(** ** internal/store/waker.go *)

Definition ConsumerKey : Set := string * string.

(** What the sweeper asks of whoever parks consumers: the keys worth probing,
    and a wake.  A wake leaves the set of parked keys alone. *)
Class Waker (R : Type) : Type := {
  waker_Waiting : R -> list ConsumerKey;
  waker_Wake : ConsumerKey -> R -> option R;
}.

#[export] Instance NopWaker : Waker unit := {
  waker_Waiting _ := [];
  waker_Wake _ u := Some u;
}.

Module Waiters.
Import Subject.

(** ** Data *)

Definition numShards : Z := 64.

(** A parked fetch: its channel has room for one token.  [w_once] is the
    [sync.Once] of the subscription's Close. *)
Record waiter : Set := MkWaiter {
  w_key : ConsumerKey;
  w_filters : Set_;
  w_token : bool;
  w_closed : bool;
  w_once : bool;
}.

(** [mu] is the mutex: locked by the subscription that passed the caps. *)
Record shard : Set := MkShard {
  byKey : gmap ConsumerKey (list nat);
  sh_closed : bool;
  mu : option (ConsumerKey * Set_);
}.

(** [heap] holds the waiters by address, shared by the registry and the handlers. *)
Record Registry : Set := MkRegistry {
  shards : gmap Z shard;
  total : Z;
  r_max : Z;
  r_maxPer : Z;
  heap : gmap nat waiter;
  next : nat;
}.

Definition empty_shard : shard := MkShard ∅ false None.
Definition NewRegistry (maxWaiters maxPerConsumer : Z) : Registry := MkRegistry ∅ 0 maxWaiters maxPerConsumer ∅ 0.

Definition shard_at (n : Z) (r : Registry) : shard := default empty_shard (shards r !! n).
Definition set_shard (n : Z) (sh : shard) (r : Registry) : Registry :=
  MkRegistry (<[n := sh]> (shards r)) (total r) (r_max r) (r_maxPer r) (heap r) (next r).
Definition set_heap (h : gmap nat waiter) (r : Registry) : Registry :=
  MkRegistry (shards r) (total r) (r_max r) (r_maxPer r) h (next r).
Definition set_total (t : Z) (r : Registry) : Registry :=
  MkRegistry (shards r) t (r_max r) (r_maxPer r) (heap r) (next r).
Definition ids_of (k : ConsumerKey) (sh : shard) : list nat := default [] (byKey sh !! k).

(** FNV-1a over the bytes of the stream name, on 32 bits. *)
Fixpoint fnv1a (h : Z) (s : string) : Z :=
  match s with
  | EmptyString => h
  | String c s => fnv1a (Z.lxor h (byte_z c) * 16777619 mod 2 ^ 32) s
  end.

Definition shardOf (stream : string) : Z := fnv1a 2166136261 stream mod numShards.

(** ** Operations *)

Inductive tooManyWaiters : Set := RegistryClosed | GlobalCap (limit : Z) | ConsumerCap (k : ConsumerKey) (limit : Z).

(** Subscribe up to its last check, the shard locked. *)
Definition sub_check (k : ConsumerKey) (filters : Set_) (r : Registry) : tooManyWaiters + Registry :=
  let n := shardOf k.1 in
  let sh := shard_at n r in
  if sh_closed sh then inl RegistryClosed
  else if r_max r <=? total r then inl (GlobalCap (r_max r))
  else if r_maxPer r <=? Z.of_nat (length (ids_of k sh)) then inl (ConsumerCap k (r_maxPer r))
  else inr (set_shard n (MkShard (byKey sh) (sh_closed sh) (Some (k, filters))) r).

(** The rest of it: the new waiter, and the mutex released. *)
Definition sub_commit (k : ConsumerKey) (filters : Set_) (r : Registry) : Registry :=
  let n := shardOf k.1 in
  let sh := shard_at n r in
  let i := next r in
  MkRegistry (<[n := MkShard (<[k := ids_of k sh ++ [i]]> (byKey sh)) (sh_closed sh) None]> (shards r))
    (total r + 1) (r_max r) (r_maxPer r) (<[i := MkWaiter k filters false false false]> (heap r)) (S i).

Definition Subscribe (k : ConsumerKey) (filters : Set_) (r : Registry) : Registry * (tooManyWaiters + nat) :=
  match sub_check k filters r with
  | inl e => (r, inl e)
  | inr r' => (sub_commit k filters r', inr (next r))
  end.

Fixpoint remove_first (i : nat) (l : list nat) : list nat :=
  match l with
  | [] => []
  | j :: l => if (j =? i)%nat then l else j :: remove_first i l
  end.

Definition Close (i : nat) (r : Registry) : Registry :=
  match heap r !! i with
  | None => r
  | Some w =>
      if w_once w then r
      else
        let h := <[i := MkWaiter (w_key w) (w_filters w) (w_token w) (w_closed w) true]> (heap r) in
        let n := shardOf (w_key w).1 in
        let sh := shard_at n r in
        if sh_closed sh then set_heap h r
        else
          let l := remove_first i (ids_of (w_key w) sh) in
          let m := match l with
                   | [] => delete (w_key w) (byKey sh)
                   | _ => <[w_key w := l]> (byKey sh)
                   end in
          set_heap h (set_total (total r - 1) (set_shard n (MkShard m (sh_closed sh) (mu sh)) r))
  end.

(** The non-blocking send: a full channel drops the token, a closed one panics. *)
Definition send (i : nat) (h : gmap nat waiter) : option (gmap nat waiter) :=
  w ← h !! i;
  if w_closed w then None
  else Some (<[i := MkWaiter (w_key w) (w_filters w) true (w_closed w) (w_once w)]> h).

Definition close_chan (i : nat) (h : gmap nat waiter) : option (gmap nat waiter) :=
  w ← h !! i;
  if w_closed w then None
  else Some (<[i := MkWaiter (w_key w) (w_filters w) (w_token w) true (w_once w)]> h).

Fixpoint each (f : nat -> gmap nat waiter -> option (gmap nat waiter)) (l : list nat) (h : gmap nat waiter)
  : option (gmap nat waiter) :=
  match l with
  | [] => Some h
  | i :: l => h' ← f i h; each f l h'
  end.

Definition Wake (k : ConsumerKey) (r : Registry) : option Registry :=
  h ← each send (ids_of k (shard_at (shardOf k.1) r)) (heap r);
  Some (set_heap h r).

Definition shard_ids (sh : shard) : list nat := (map_to_list (byKey sh)) ≫= snd.

Definition interested (s subj : string) (h : gmap nat waiter) (i : nat) : bool :=
  match h !! i with
  | Some w => bool_decide ((w_key w).1 = s) && SetMatch (w_filters w) subj
  | None => false
  end.

Definition wakeMatching (s subj : string) (r : Registry) : option Registry :=
  h ← each send (List.filter (interested s subj (heap r)) (shard_ids (shard_at (shardOf s) r))) (heap r);
  Some (set_heap h r).

(** The committed events of one group: name, stream, subject. *)
Fixpoint Publish (evs : list (string * string * string)) (r : Registry) : option Registry :=
  match evs with
  | [] => Some r
  | (name, s, subj) :: evs =>
      if negb (bool_decide (name = "msg.publish")) || bool_decide (s = "") then Publish evs r
      else r' ← wakeMatching s subj r; Publish evs r'
  end.

Definition Waiting (r : Registry) : list ConsumerKey :=
  if total r =? 0 then []
  else seqZ 0 numShards ≫= fun n => (map_to_list (byKey (shard_at n r))).*1.

Definition Parked (r : Registry) : Z := total r.

(** One iteration of ReleaseAll, and the whole of it. *)
Definition releaseShard (n : Z) (r : Registry) : option Registry :=
  let sh := shard_at n r in
  h ← each close_chan (shard_ids sh) (heap r);
  Some (set_heap h (set_shard n (MkShard ∅ false (mu sh)) r)).

Fixpoint release_shards (ns : list Z) (r : Registry) : option Registry :=
  match ns with
  | [] => Some r
  | n :: ns => r' ← releaseShard n r; release_shards ns r'
  end.

Definition ReleaseAll (r : Registry) : option Registry :=
  r' ← release_shards (seqZ 0 numShards) r;
  Some (set_total 0 r').

(** A receive on the channel of a subscription. *)
Inductive received : Set := Token | Closed | Blocked.

Definition Recv (i : nat) (r : Registry) : Registry * received :=
  match heap r !! i with
  | Some w =>
      if w_token w
      then (set_heap (<[i := MkWaiter (w_key w) (w_filters w) false (w_closed w) (w_once w)]> (heap r)) r, Token)
      else if w_closed w then (r, Closed) else (r, Blocked)
  | None => (r, Blocked)
  end.

#[export] Instance registry_waker : Waker Registry := { waker_Waiting := Waiting; waker_Wake := Wake }.

(** ** Concurrent use *)

Definition unlocked (s : string) (r : Registry) : Prop := mu (shard_at (shardOf s) r) = None.

(** Steps that serve requests. *)
Inductive serve : Registry -> Registry -> Prop :=
| serve_check k f r r' : unlocked k.1 r -> sub_check k f r = inr r' -> serve r r'
| serve_commit k f r : mu (shard_at (shardOf k.1) r) = Some (k, f) -> serve r (sub_commit k f r)
| serve_close i r : (forall w, heap r !! i = Some w -> unlocked (w_key w).1 r) -> serve r (Close i r)
| serve_wake k r r' : unlocked k.1 r -> Wake k r = Some r' -> serve r r'
| serve_publish s subj r r' : unlocked s r -> wakeMatching s subj r = Some r' -> serve r r'
| serve_recv i r : serve r (Recv i r).1.

(** Steps of the shutdown: one shard, or the final store to the counter. *)
Inductive step : Registry -> Registry -> Prop :=
| step_serve r r' : serve r r' -> step r r'
| step_release n r r' : mu (shard_at n r) = None -> releaseShard n r = Some r' -> step r r'
| step_reset r : step r (set_total 0 r).

(** ** Well-formed registries *)

Definition parked_open (w : waiter) : Prop := w_closed w = false /\ w_once w = false.
#[export] Instance parked_open_dec w : Decision (parked_open w).
Proof. unfold parked_open. apply _. Defined.

(** Every listed waiter is open, under its own key, in the shard of its stream,
    once; every open waiter is listed; no consumer has more than its cap, and a
    subscription in progress still has room. *)
Record reg_ok (r : Registry) : Prop := {
  ok_in : forall n k ids i, byKey (shard_at n r) !! k = Some ids -> i ∈ ids ->
    exists w, heap r !! i = Some w /\ w_key w = k /\ parked_open w;
  ok_shard : forall n k ids, byKey (shard_at n r) !! k = Some ids ->
    n = shardOf k.1 /\ ids <> [] /\ NoDup ids /\ Z.of_nat (length ids) <= r_maxPer r;
  ok_open : forall i w, heap r !! i = Some w -> parked_open w -> i ∈ ids_of (w_key w) (shard_at (shardOf (w_key w).1) r);
  ok_next : forall i, is_Some (heap r !! i) -> (i < next r)%nat;
  ok_lock : forall n k f, mu (shard_at n r) = Some (k, f) ->
    n = shardOf k.1 /\ Z.of_nat (length (ids_of k (shard_at n r))) < r_maxPer r;
  ok_live : forall n, sh_closed (shard_at n r) = false;
}.

Lemma ids_of_in k sh i : i ∈ ids_of k sh -> exists ids, byKey sh !! k = Some ids /\ i ∈ ids.
Proof. unfold ids_of. destruct (byKey sh !! k) as [ids|]; [eauto|]. by intros ?%elem_of_nil. Qed.

Lemma shard_at_set n n' sh r : shard_at n' (set_shard n sh r) = if decide (n' = n) then sh else shard_at n' r.
Proof. unfold shard_at, set_shard. simpl. case_decide as He; [subst; by rewrite lookup_insert_eq|by rewrite lookup_insert_ne]. Qed.

Lemma reg_ok_new m p : reg_ok (NewRegistry m p).
Proof.
  split; unfold NewRegistry, shard_at; simpl.
  - intros n k ids i. by rewrite lookup_empty.
  - intros n k ids. by rewrite lookup_empty.
  - intros i w. by rewrite lookup_empty.
  - intros i [w Hw]. by rewrite lookup_empty in Hw.
  - intros n k f. by rewrite lookup_empty.
  - intros n. by rewrite lookup_empty.
Qed.

(** Tokens come and go without touching the registry's structure. *)
Definition same_waiter (w w' : waiter) : Prop :=
  w_key w' = w_key w /\ w_filters w' = w_filters w /\ w_closed w' = w_closed w /\ w_once w' = w_once w.

Definition same_heap (h h' : gmap nat waiter) : Prop :=
  forall i, option_Forall2 same_waiter (h !! i) (h' !! i).

Lemma reg_ok_tokens h' r : same_heap (heap r) h' -> reg_ok r -> reg_ok (set_heap h' r).
Proof.
  intros Hs [Hin Hsh Hop Hnx Hlk Hlv]. split; try done; simpl.
  - intros n k ids i Hk Hi. destruct (Hin n k ids i Hk Hi) as (w & Hw & Hkey & Ho).
    specialize (Hs i). rewrite Hw in Hs. inversion Hs as [w1 w' (E1 & _ & E2 & E3) Ha Hb|]. exists w'. unfold parked_open in *.
    split_and!; congruence || by destruct Ho; congruence.
  - intros i w' Hw' Ho. specialize (Hs i). rewrite Hw' in Hs. inversion Hs as [w w1 (E1 & _ & E2 & E3) Ha Hb|].
    rewrite E1. apply Hop; [congruence|]. unfold parked_open in *. destruct Ho. split; congruence.
  - intros i Hi. apply Hnx. specialize (Hs i). destruct Hi as [w' Hw']. rewrite Hw' in Hs. inversion Hs. by eexists.
Qed.

Section Each.
Context (f : nat -> gmap nat waiter -> option (gmap nat waiter)) (g : waiter -> waiter).
Context (Hf : forall i h w, h !! i = Some w -> w_closed w = false -> f i h = Some (<[i := g w]> h)).

Lemma each_spec l h :
  NoDup l -> (forall i, i ∈ l -> exists w, h !! i = Some w /\ w_closed w = false) ->
  exists h', each f l h = Some h' /\ forall i, h' !! i = if decide (i ∈ l) then g <$> h !! i else h !! i.
Proof.
  revert h. induction l as [|i l IH]; intros h Hnd Hop; simpl.
  - exists h. split; [done|]. intros i. by destruct (decide (i ∈ [])) as [?%elem_of_nil|].
  - apply NoDup_cons in Hnd as [Hi Hnd]. destruct (Hop i ltac:(left)) as (w & Hw & Hc). rewrite (Hf i h w Hw Hc). simpl.
    destruct (IH (<[i := g w]> h) Hnd) as (h' & He & Hh').
    { intros j Hj. rewrite lookup_insert_ne by (intros ->; done). apply Hop. by right. }
    exists h'. split; [done|]. intros j. rewrite Hh'. destruct (decide (j = i)) as [->|Hne].
    + destruct (decide (i ∈ l)); [done|]. rewrite lookup_insert_eq, Hw. destruct (decide (i ∈ i :: l)) as [|[]]; [done|left].
    + rewrite lookup_insert_ne by done. destruct (decide (j ∈ l)) as [Hj|Hj], (decide (j ∈ i :: l)) as [Hj'|Hj']; try done.
      * destruct Hj'. by right.
      * by apply elem_of_cons in Hj' as [?|?].
Qed.
End Each.

Definition with_token (w : waiter) : waiter := MkWaiter (w_key w) (w_filters w) true (w_closed w) (w_once w).
Definition with_closed (w : waiter) : waiter := MkWaiter (w_key w) (w_filters w) (w_token w) true (w_once w).

Lemma send_open i h w : h !! i = Some w -> w_closed w = false -> send i h = Some (<[i := with_token w]> h).
Proof. intros Hw Hc. unfold send, with_token. rewrite Hw. simpl. by rewrite Hc. Qed.

Lemma close_open i h w : h !! i = Some w -> w_closed w = false -> close_chan i h = Some (<[i := with_closed w]> h).
Proof. intros Hw Hc. unfold close_chan, with_closed. rewrite Hw. simpl. by rewrite Hc. Qed.

(** The waiters of a shard: listed once, and open. *)
Lemma elem_of_shard_ids sh i : i ∈ shard_ids sh <-> exists k ids, byKey sh !! k = Some ids /\ i ∈ ids.
Proof.
  unfold shard_ids. rewrite list_elem_of_bind. split.
  - intros ([k ids] & Hi & Hk%elem_of_map_to_list). eauto.
  - intros (k & ids & Hk & Hi). exists (k, ids). by rewrite elem_of_map_to_list.
Qed.

Lemma shard_ids_nodup n r : reg_ok r -> NoDup (shard_ids (shard_at n r)).
Proof.
  intros Hok. apply NoDup_bind.
  - intros [k ids] [k' ids'] i Hk%elem_of_map_to_list Hk'%elem_of_map_to_list Hi Hi'. simpl in Hi, Hi'.
    destruct (ok_in r Hok n k ids i Hk Hi) as (w & Hw & <- & _), (ok_in r Hok n k' ids' i Hk' Hi') as (w' & Hw' & <- & _).
    rewrite Hw in Hw'. injection Hw' as <-. rewrite Hk in Hk'. by injection Hk' as <-.
  - intros [k ids] Hk%elem_of_map_to_list. by apply (ok_shard r Hok n k).
  - apply NoDup_map_to_list.
Qed.

Lemma shard_ids_open n r i : reg_ok r -> i ∈ shard_ids (shard_at n r) -> exists w, heap r !! i = Some w /\ w_closed w = false.
Proof.
  intros Hok (k & ids & Hk & Hi)%elem_of_shard_ids. destruct (ok_in r Hok n k ids i Hk Hi) as (w & Hw & _ & Hc & _). eauto.
Qed.

(** ** Every operation keeps the registry well formed *)

Lemma each_send n r l :
  reg_ok r -> NoDup l -> (forall i, i ∈ l -> i ∈ shard_ids (shard_at n r)) ->
  exists h', each send l (heap r) = Some h' /\ same_heap (heap r) h' /\
    forall i, h' !! i = if decide (i ∈ l) then with_token <$> heap r !! i else heap r !! i.
Proof.
  intros Hok Hnd Hl. destruct (each_spec send with_token send_open l (heap r) Hnd) as (h' & He & Hh').
  { intros i Hi. by apply (shard_ids_open n r i Hok), Hl. }
  exists h'. split; [done|]. split; [|done]. intros i. rewrite Hh'. case_decide; destruct (heap r !! i); by repeat constructor.
Qed.

Lemma ids_of_shard n r k i : i ∈ ids_of k (shard_at n r) -> i ∈ shard_ids (shard_at n r).
Proof. intros (ids & ? & ?)%ids_of_in. apply elem_of_shard_ids. eauto. Qed.

Lemma ids_of_nodup n r k : reg_ok r -> NoDup (ids_of k (shard_at n r)).
Proof.
  intros Hok. unfold ids_of. destruct (byKey (shard_at n r) !! k) as [ids|] eqn:Hk; [|constructor].
  by apply (ok_shard r Hok n k).
Qed.

(** A listed waiter is exactly an open one of that key. *)
Lemma listed_open r k i w :
  reg_ok r -> heap r !! i = Some w -> i ∈ ids_of k (shard_at (shardOf k.1) r) <-> w_key w = k /\ parked_open w.
Proof.
  intros Hok Hw. split.
  - intros (ids & Hk & Hi)%ids_of_in. destruct (ok_in r Hok _ k ids i Hk Hi) as (w' & Hw' & ? & ?). rewrite Hw in Hw'.
    by injection Hw' as <-.
  - intros [<- Ho]. by apply (ok_open r Hok).
Qed.

Lemma Wake_spec k r :
  reg_ok r -> exists h', Wake k r = Some (set_heap h' r) /\ same_heap (heap r) h' /\
    forall i, h' !! i = if decide (i ∈ ids_of k (shard_at (shardOf k.1) r)) then with_token <$> heap r !! i else heap r !! i.
Proof.
  intros Hok. destruct (each_send (shardOf k.1) r _ Hok (ids_of_nodup _ r k Hok) (ids_of_shard _ r k)) as (h' & He & Hs & Hh').
  exists h'. unfold Wake. by rewrite He.
Qed.

(** A wake leaves a token with exactly the open waiters of its key. *)
Lemma Wake_lookup k r :
  reg_ok r -> exists r', Wake k r = Some r' /\ reg_ok r' /\ forall i w, heap r !! i = Some w ->
    heap r' !! i = Some (if decide (w_key w = k /\ parked_open w) then with_token w else w).
Proof.
  intros Hok. destruct (Wake_spec k r Hok) as (h' & -> & Hs & Hh'). eexists. split; [done|]. split; [by apply reg_ok_tokens|].
  intros i w Hw. simpl. rewrite Hh', Hw. pose proof (listed_open r k i w Hok Hw) as Hl.
  by destruct (decide (i ∈ _)), (decide (_ /\ _)); try tauto.
Qed.

Lemma match_ids_spec s subj r i w :
  reg_ok r -> heap r !! i = Some w ->
  i ∈ List.filter (interested s subj (heap r)) (shard_ids (shard_at (shardOf s) r)) <->
  (w_key w).1 = s /\ parked_open w /\ SetMatch (w_filters w) subj = true.
Proof.
  intros Hok Hw. rewrite list_elem_of_In, filter_In, <-list_elem_of_In. unfold interested. rewrite Hw, andb_true_iff, bool_decide_eq_true.
  split.
  - intros [(k & ids & Hk & Hi)%elem_of_shard_ids [Hs Hm]]. destruct (ok_in r Hok _ k ids i Hk Hi) as (w' & Hw' & _ & Ho).
    rewrite Hw in Hw'. by injection Hw' as <-.
  - intros (Hs & Ho & Hm). split; [|done]. rewrite <-Hs. eapply ids_of_shard. by apply (ok_open r Hok).
Qed.

Lemma wakeMatching_spec s subj r :
  reg_ok r -> exists h', wakeMatching s subj r = Some (set_heap h' r) /\ same_heap (heap r) h' /\
    forall i, h' !! i = if decide (i ∈ List.filter (interested s subj (heap r)) (shard_ids (shard_at (shardOf s) r)))
                        then with_token <$> heap r !! i else heap r !! i.
Proof.
  intros Hok. destruct (each_send (shardOf s) r (List.filter (interested s subj (heap r)) (shard_ids (shard_at (shardOf s) r))) Hok)
    as (h' & He & Hs & Hh').
  - apply NoDup_ListNoDup, List.NoDup_filter, NoDup_ListNoDup, shard_ids_nodup, Hok.
  - intros i [Hi _]%list_elem_of_In%filter_In. by apply list_elem_of_In.
  - exists h'. unfold wakeMatching. by rewrite He.
Qed.

Lemma recv_same i r w b :
  heap r !! i = Some w -> same_heap (heap r) (<[i := MkWaiter (w_key w) (w_filters w) b (w_closed w) (w_once w)]> (heap r)).
Proof.
  intros Hw j. destruct (decide (j = i)) as [->|Hne].
  - rewrite Hw, lookup_insert_eq. by repeat constructor.
  - rewrite lookup_insert_ne by done. destruct (heap r !! j); by repeat constructor.
Qed.

Lemma reg_ok_recv i r : reg_ok r -> reg_ok (Recv i r).1.
Proof.
  intros Hok. unfold Recv. destruct (heap r !! i) as [w|] eqn:Hw; [|done]. repeat case_match; try done. simpl.
  apply reg_ok_tokens; [by apply recv_same|done].
Qed.

Lemma sub_check_inv k f r r' :
  sub_check k f r = inr r' -> let n := shardOf k.1 in let sh := shard_at n r in
  total r < r_max r /\ Z.of_nat (length (ids_of k sh)) < r_maxPer r /\
  r' = set_shard n (MkShard (byKey sh) (sh_closed sh) (Some (k, f))) r.
Proof.
  unfold sub_check. intros Hc. cbv zeta. destruct (sh_closed (shard_at (shardOf k.1) r)) eqn:Hcl; [done|].
  destruct (r_max r <=? total r) eqn:Hm; [done|]. destruct (r_maxPer r <=? _) eqn:Hp; [done|]. injection Hc as <-.
  by bool_prop.
Qed.

Lemma reg_ok_check k f r r' : reg_ok r -> sub_check k f r = inr r' -> reg_ok r'.
Proof.
  intros Hok (_ & Hroom & ->)%sub_check_inv. set (n := shardOf k.1) in *. set (sh := MkShard _ _ _).
  assert (Hat : forall n', byKey (shard_at n' (set_shard n sh r)) = byKey (shard_at n' r)).
  { intros n'. rewrite shard_at_set. by destruct (decide (n' = n)) as [->|]. }
  destruct Hok as [Hin Hsh Hop Hnx Hlk Hlv]. split; try done.
  - intros n' k' ids i. rewrite Hat. apply Hin.
  - intros n' k' ids. rewrite Hat. apply Hsh.
  - intros i w Hw Ho. unfold ids_of. rewrite Hat. by apply Hop.
  - intros n' k' f'. unfold ids_of. rewrite Hat, shard_at_set. destruct (decide (n' = n)) as [->|]; [|apply Hlk]. simpl.
    by intros [= <- <-].
  - intros n'. rewrite shard_at_set. destruct (decide (n' = n)); [apply Hlv|apply Hlv].
Qed.

Lemma reg_ok_commit k f r : reg_ok r -> mu (shard_at (shardOf k.1) r) = Some (k, f) -> reg_ok (sub_commit k f r).
Proof.
  intros Hok Hmu. pose proof Hok as [Hin Hsh Hop Hnx Hlk Hlv]. destruct (Hlk _ _ _ Hmu) as [_ Hroom]. set (n := shardOf k.1) in *.
  assert (Hold : forall n' k' ids i, byKey (shard_at n' r) !! k' = Some ids -> i ∈ ids -> i <> next r).
  { intros n' k' ids i Hk Hi ->. destruct (Hin _ _ _ _ Hk Hi) as (w & Hw & _). pose proof (Hnx _ (mk_is_Some _ _ Hw)). lia. }
  set (sh' := MkShard (<[k := ids_of k (shard_at n r) ++ [next r]]> (byKey (shard_at n r))) (sh_closed (shard_at n r)) None).
  assert (Hat : forall n', shard_at n' (sub_commit k f r) = if decide (n' = n) then sh' else shard_at n' r)
    by (intros n'; apply (shard_at_set n n' sh' r)).
  assert (Hids : forall k' n', ids_of k' (shard_at n' (sub_commit k f r)) =
            ids_of k' (shard_at n' r) ++ if decide (n' = n /\ k' = k) then [next r] else []).
  { intros k' n'. rewrite Hat. destruct (decide (n' = n)) as [->|]; [|case_decide; [tauto|by rewrite app_nil_r]].
    unfold ids_of, sh'. simpl. destruct (decide (k' = k)) as [->|].
    - rewrite lookup_insert_eq. simpl. case_decide; [done|tauto].
    - rewrite lookup_insert_ne by done. case_decide; [tauto|by rewrite app_nil_r]. }
  assert (Hcase : forall n' k' ids, byKey (shard_at n' (sub_commit k f r)) !! k' = Some ids ->
            (n' = n /\ k' = k /\ ids = ids_of k (shard_at n r) ++ [next r]) \/ byKey (shard_at n' r) !! k' = Some ids).
  { intros n' k' ids. rewrite Hat. destruct (decide (n' = n)) as [->|]; [|by right]. unfold sh'. simpl.
    destruct (decide (k' = k)) as [->|]; [rewrite lookup_insert_eq; intros [= <-]; by left|]. rewrite lookup_insert_ne by done. by right. }
  assert (Hheap : forall j, j <> next r -> heap (sub_commit k f r) !! j = heap r !! j) by (intros j Hj; by apply lookup_insert_ne).
  assert (Hnew : heap (sub_commit k f r) !! next r = Some (MkWaiter k f false false false)) by apply lookup_insert_eq.
  split.
  - intros n' k' ids i [(-> & -> & ->)|Hk]%Hcase Hi.
    + apply elem_of_app in Hi as [(ids & Hk & Hi)%ids_of_in| ->%list_elem_of_singleton].
      * rewrite Hheap by (by eapply Hold). by eapply Hin.
      * eexists. split; [exact Hnew|done].
    + rewrite Hheap by (by eapply Hold). by eapply Hin.
  - intros n' k' ids [(-> & -> & ->)|Hk]%Hcase; [|by apply Hsh]. split; [done|]. split; [by destruct (ids_of _ _)|].
    split; [|rewrite length_app; simpl; cbn [r_maxPer sub_commit]; lia]. apply NoDup_app. split_and!.
    + by apply ids_of_nodup.
    + intros j (ids & Hk & Hj)%ids_of_in ->%list_elem_of_singleton. by eapply Hold.
    + apply NoDup_singleton.
  - intros i w Hw Ho. rewrite Hids. apply elem_of_app. destruct (decide (i = next r)) as [->|Hne].
    + rewrite Hnew in Hw. injection Hw as <-. right. simpl. case_decide as Hd; [left|by destruct Hd].
    + left. rewrite Hheap in Hw by done. by apply Hop.
  - intros i [w Hw]. simpl. destruct (decide (i = next r)) as [->|Hne]; [lia|]. rewrite Hheap in Hw by done.
    pose proof (Hnx i (mk_is_Some _ _ Hw)). lia.
  - intros n' k' f'. rewrite Hids, Hat. destruct (decide (n' = n)) as [->|Hne]; [done|].
    case_decide; [tauto|]. rewrite app_nil_r. apply Hlk.
  - intros n'. rewrite Hat. destruct (decide (n' = n)); [apply Hlv|apply Hlv].
Qed.

Lemma elem_of_remove_first i j l : NoDup l -> j ∈ remove_first i l <-> j ∈ l /\ j <> i.
Proof.
  induction l as [|x l IH]; intros Hnd; simpl; [set_solver|]. apply NoDup_cons in Hnd as [Hx Hnd].
  destruct (Nat.eqb_spec x i) as [->|Hne]; rewrite !elem_of_cons, ?(IH Hnd); split; intros Hj.
  - split; [by right|]. intros ->. done.
  - destruct Hj as [[->|?] ?]; done.
  - destruct Hj as [->|[? ?]]; [split; [by left|done]|split; [by right|done]].
  - destruct Hj as [[->|?] ?]; [by left|right; done].
Qed.

Lemma remove_first_sub i l : remove_first i l `sublist_of` l.
Proof. induction l as [|x l IH]; simpl; [done|]. case_match; [by constructor|by constructor]. Qed.

(** What Close leaves of the list it takes the waiter from. *)
Lemma close_ids k i n r m :
  m = match remove_first i (ids_of k (shard_at n r)) with
      | [] => delete k (byKey (shard_at n r))
      | _ => <[k := remove_first i (ids_of k (shard_at n r))]> (byKey (shard_at n r))
      end ->
  (forall k', default [] (m !! k') = if decide (k' = k) then remove_first i (ids_of k (shard_at n r)) else ids_of k' (shard_at n r)) /\
  (forall k' ids, m !! k' = Some ids -> (k' = k /\ ids = remove_first i (ids_of k (shard_at n r)) /\ ids <> []) \/
     (k' <> k /\ byKey (shard_at n r) !! k' = Some ids)).
Proof.
  intros ->. destruct (remove_first i (ids_of k (shard_at n r))) as [|j l] eqn:Hl; split; intros k'.
  - case_decide; [subst; by rewrite lookup_delete_eq|by rewrite lookup_delete_ne].
  - intros ids. destruct (decide (k' = k)) as [->|]; [by rewrite lookup_delete_eq|]. rewrite lookup_delete_ne by done. by right.
  - case_decide; [subst; by rewrite lookup_insert_eq|by rewrite lookup_insert_ne].
  - intros ids. destruct (decide (k' = k)) as [->|]; [rewrite lookup_insert_eq; intros [= <-]; by left|].
    rewrite lookup_insert_ne by done. by right.
Qed.

Lemma Close_once i r w : heap r !! i = Some w -> w_once w = true -> Close i r = r.
Proof. intros Hw Ho. unfold Close. by rewrite Hw, Ho. Qed.

Lemma reg_ok_close i r : reg_ok r -> reg_ok (Close i r).
Proof.
  intros Hok. pose proof Hok as [Hin Hsh Hop Hnx Hlk Hlv]. unfold Close. destruct (heap r !! i) as [w|] eqn:Hw; [|done].
  destruct (w_once w) eqn:Hon; [done|]. set (n := shardOf (w_key w).1). rewrite (Hlv n). cbv zeta.
  set (m := match remove_first _ _ with [] => _ | _ => _ end). destruct (close_ids (w_key w) i n r m eq_refl) as [Hids Hcase].
  pose proof (ids_of_nodup n r (w_key w) Hok) as Hnd. set (sh' := MkShard m _ _).
  set (r' := set_heap _ _). assert (Hat : forall n', shard_at n' r' = if decide (n' = n) then sh' else shard_at n' r)
    by (intros n'; apply (shard_at_set n n' sh' r)).
  assert (Hheap : forall j, j <> i -> heap r' !! j = heap r !! j) by (intros j Hj; by apply lookup_insert_ne).
  assert (Hkey : forall n' k ids j, byKey (shard_at n' r') !! k = Some ids -> j ∈ ids -> j <> i /\ exists ids', byKey (shard_at n' r) !! k = Some ids' /\ j ∈ ids').
  { intros n' k ids j. rewrite Hat. destruct (decide (n' = n)) as [->|Hne].
    - intros [(-> & -> & _)|[Hne Hk]]%Hcase Hj.
      + apply elem_of_remove_first in Hj as [Hj ?]; [|done]. split; [done|]. by apply ids_of_in in Hj.
      + split; [|eauto]. intros ->. destruct (Hin _ _ _ _ Hk Hj) as (w' & Hw' & <- & _). rewrite Hw in Hw'. by injection Hw' as <-.
    - intros Hk Hj. split; [|eauto]. intros ->. destruct (Hin _ _ _ _ Hk Hj) as (w' & Hw' & Hkk & _). rewrite Hw in Hw'. injection Hw' as <-.
      apply Hne. rewrite (proj1 (Hsh _ _ _ Hk)), <-Hkk. done. }
  split.
  - intros n' k ids j Hk Hj. destruct (Hkey _ _ _ _ Hk Hj) as (Hne & ids' & Hk' & Hj'). rewrite Hheap by done. by eapply Hin.
  - intros n' k ids. rewrite Hat. destruct (decide (n' = n)) as [->|]; [|apply Hsh].
    intros [(-> & -> & ?)|[_ Hk]]%Hcase; [|by apply Hsh]. split; [done|]. split; [done|].
    pose proof (remove_first_sub i (ids_of (w_key w) (shard_at n r))) as Hsub. split; [by eapply sublist_NoDup|].
    apply sublist_length in Hsub. destruct (byKey (shard_at n r) !! w_key w) as [l|] eqn:Hl.
    + destruct (Hsh _ _ _ Hl) as (_ & _ & _ & Hcap). unfold ids_of in *. rewrite Hl in *. simpl in *. lia.
    + unfold ids_of in *. by rewrite Hl in *.
  - intros j w' Hw' Ho. destruct (decide (j = i)) as [->|Hne].
    + unfold r' in Hw'. simpl in Hw'. rewrite lookup_insert_eq in Hw'. injection Hw' as <-. by destruct Ho.
    + rewrite Hheap in Hw' by done. specialize (Hop j w' Hw' Ho). unfold ids_of at 1. rewrite Hat.
      destruct (decide (shardOf (w_key w').1 = n)) as [He|]; [|done]. unfold sh'. cbn [byKey]. rewrite Hids. rewrite He in Hop.
      destruct (decide (w_key w' = w_key w)) as [Hk|]; [|done]. rewrite Hk in Hop. by apply elem_of_remove_first.
  - intros j Hj. destruct (decide (j = i)) as [->|Hne]; [apply Hnx; by eexists|]. rewrite Hheap in Hj by done. by apply Hnx.
  - intros n' k f. rewrite Hat. destruct (decide (n' = n)) as [->|]; [|apply Hlk]. unfold sh' at 1. cbn [mu]. intros [He Hroom]%Hlk. split; [done|].
    unfold ids_of at 1. cbn [byKey sh']. rewrite Hids. cbn [r_maxPer r' set_heap set_total set_shard].
    destruct (decide (k = w_key w)) as [->|]; [|done].
    pose proof (sublist_length _ _ (remove_first_sub i (ids_of (w_key w) (shard_at n r)))). lia.
  - intros n'. rewrite Hat. destruct (decide (n' = n)); [done|apply Hlv].
Qed.

Lemma releaseShard_spec n r :
  reg_ok r -> exists h', releaseShard n r = Some (set_heap h' (set_shard n (MkShard ∅ false (mu (shard_at n r))) r)) /\
    forall i, h' !! i = if decide (i ∈ shard_ids (shard_at n r)) then with_closed <$> heap r !! i else heap r !! i.
Proof.
  intros Hok. destruct (each_spec close_chan with_closed close_open (shard_ids (shard_at n r)) (heap r)) as (h' & He & Hh').
  - by apply shard_ids_nodup.
  - intros i. by apply shard_ids_open.
  - exists h'. unfold releaseShard. by rewrite He.
Qed.

Lemma reg_ok_release n r r' : reg_ok r -> mu (shard_at n r) = None -> releaseShard n r = Some r' -> reg_ok r'.
Proof.
  intros Hok Hmu Hrel. destruct (releaseShard_spec n r Hok) as (h' & He & Hh'). rewrite He in Hrel. injection Hrel as <-.
  pose proof Hok as [Hin Hsh Hop Hnx Hlk Hlv]. set (sh' := MkShard ∅ false (mu (shard_at n r))).
  assert (Hat : forall n', shard_at n' (set_heap h' (set_shard n sh' r)) = if decide (n' = n) then sh' else shard_at n' r)
    by (intros n'; apply (shard_at_set n n' sh' r)).
  assert (Helse : forall n' k ids i w, n' <> n -> byKey (shard_at n' r) !! k = Some ids -> i ∈ ids -> heap r !! i = Some w -> i ∉ shard_ids (shard_at n r)).
  { intros n' k ids i w Hne Hk Hi Hw (k' & ids' & Hk' & Hi')%elem_of_shard_ids.
    destruct (Hin _ _ _ _ Hk Hi) as (w1 & Hw1 & Hkk & _), (Hin _ _ _ _ Hk' Hi') as (w2 & Hw2 & Hkk' & _).
    apply Hne. rewrite (proj1 (Hsh _ _ _ Hk)), (proj1 (Hsh _ _ _ Hk')). congruence. }
  split.
  - intros n' k ids i. rewrite Hat. destruct (decide (n' = n)) as [->|Hne]; [unfold sh'; cbn [byKey]; by rewrite lookup_empty|]. intros Hk Hi.
    destruct (Hin _ _ _ _ Hk Hi) as (w & Hw & ? & ?). exists w. simpl. rewrite Hh'. split; [|done].
    destruct (decide (i ∈ shard_ids (shard_at n r))) as [Hbad|]; [|done]. by destruct (Helse _ _ _ _ _ Hne Hk Hi Hw).
  - intros n' k ids. rewrite Hat. destruct (decide (n' = n)) as [->|Hne]; [unfold sh'; cbn [byKey]; by rewrite lookup_empty|]. apply Hsh.
  - intros i w'. simpl. rewrite Hh'. destruct (decide (i ∈ shard_ids (shard_at n r))) as [Hi|Hno].
    + by intros (w & _ & ->)%fmap_Some [? _].
    + intros Hw' Ho. specialize (Hop i w' Hw' Ho). rewrite Hat. destruct (decide (shardOf (w_key w').1 = n)) as [<-|]; [|done].
      destruct Hno. by eapply ids_of_shard.
  - intros i Hi. simpl in Hi. rewrite Hh' in Hi. apply Hnx. case_decide; [|done]. destruct Hi as [? (w & -> & _)%fmap_Some]. by eexists.
  - intros n' k f. rewrite Hat. destruct (decide (n' = n)) as [->|]; [simpl; by rewrite Hmu|apply Hlk].
  - intros n'. rewrite Hat. destruct (decide (n' = n)); [done|apply Hlv].
Qed.

Lemma serve_ok r r' : serve r r' -> reg_ok r -> reg_ok r'.
Proof.
  intros Hs Hok. destruct Hs as [k f r r' _ Hc|k f r Hmu|i r _|k r r' _ Hw|s subj r r' _ Hw|i r].
  - by eapply reg_ok_check.
  - by apply reg_ok_commit.
  - by apply reg_ok_close.
  - destruct (Wake_spec k r Hok) as (h' & He & Hs & _). rewrite He in Hw. injection Hw as <-. by apply reg_ok_tokens.
  - destruct (wakeMatching_spec s subj r Hok) as (h' & He & Hs & _). rewrite He in Hw. injection Hw as <-. by apply reg_ok_tokens.
  - by apply reg_ok_recv.
Qed.

Lemma step_ok r r' : step r r' -> reg_ok r -> reg_ok r'.
Proof.
  intros Hs Hok. destruct Hs as [r r' Hs|n r r' Hmu Hr|r].
  - by eapply serve_ok.
  - by eapply reg_ok_release.
  - by destruct Hok.
Qed.

Lemma steps_ok r r' : rtc step r r' -> reg_ok r -> reg_ok r'.
Proof. induction 1 as [|r r1 r' Hs _ IH]; [done|]. intros Hok. by eapply IH, step_ok. Qed.

Lemma steps_caps r r' : rtc step r r' -> r_max r' = r_max r /\ r_maxPer r' = r_maxPer r.
Proof.
  induction 1 as [|r r1 r' Hs _ [-> ->]]; [done|]. destruct Hs as [ra rb Hs|n ra rb _ Hr|ra]; [|unfold releaseShard in Hr|done].
  - destruct Hs as [k f ra rb _ Hc|k f ra Hmu|i ra _|k ra rb _ Hw|s subj ra rb _ Hw|i ra]; simpl.
    + by apply sub_check_inv in Hc as (_ & _ & ->).
    + done.
    + unfold Close. by repeat case_match.
    + unfold Wake in Hw. destruct (each _ _ _); [|done]. by injection Hw as <-.
    + unfold wakeMatching in Hw. destruct (each _ _ _); [|done]. by injection Hw as <-.
    + unfold Recv. by repeat case_match.
  - destruct (each _ _ _); [|done]. by injection Hr as <-.
Qed.

(** C17: The registry never panics, never overfills a consumer, and wakes exactly
    whom it should.  Whatever the interleaving of subscriptions, closes, wakes,
    publishes, receives and the shard-by-shard release of a shutdown: no wake
    sends on a closed channel and no release closes one twice; a consumer has at
    most its cap of parked fetches; a wake of a consumer leaves a token with
    every fetch parked on it, a committed publish with every fetch parked on the
    stream whose filters match, and neither touches any other waiter. *)
Theorem registry_safe m p r :
  rtc step (NewRegistry m p) r ->
  (forall n, is_Some (releaseShard n r)) /\
  (forall k, Z.of_nat (length (ids_of k (shard_at (shardOf k.1) r))) <= Z.max 0 p) /\
  (forall k, exists r', Wake k r = Some r' /\ forall i w, heap r !! i = Some w ->
     heap r' !! i = Some (if decide (w_key w = k /\ parked_open w) then with_token w else w)) /\
  (forall s subj, exists r', wakeMatching s subj r = Some r' /\ forall i w, heap r !! i = Some w ->
     heap r' !! i = Some (if decide ((w_key w).1 = s /\ parked_open w /\ SetMatch (w_filters w) subj = true) then with_token w else w)).
Proof.
  intros Hr. pose proof (steps_ok _ _ Hr (reg_ok_new m p)) as Hok. destruct (steps_caps _ _ Hr) as [_ Hper]. simpl in Hper. split_and!.
  - intros n. destruct (releaseShard_spec n r Hok) as (h' & -> & _). by eexists.
  - intros k. unfold ids_of. destruct (byKey (shard_at (shardOf k.1) r) !! k) as [ids|] eqn:Hk; simpl; [|lia].
    destruct (ok_shard r Hok _ _ _ Hk) as (_ & _ & _ & ?). lia.
  - intros k. destruct (Wake_lookup k r Hok) as (r' & ? & _ & ?). eauto.
  - intros s subj. destruct (wakeMatching_spec s subj r Hok) as (h' & -> & _ & Hh'). eexists. split; [done|]. intros i w Hw. simpl.
    rewrite Hh', Hw. pose proof (match_ids_spec s subj r i w Hok Hw) as Hl. by destruct (decide (i ∈ _)), (decide (_ /\ _)); try tauto.
Qed.

(** ** The global cap *)

Definition is_open (x : nat * waiter) : Prop := parked_open x.2.
Definition is_locked (x : Z * shard) : Prop := mu x.2 <> None.
#[local] Instance is_open_dec x : Decision (is_open x).
Proof. unfold is_open. apply _. Defined.
#[local] Instance is_locked_dec x : Decision (is_locked x).
Proof. unfold is_locked. destruct (mu x.2); [by left|right; intros Hn; by apply Hn]. Defined.

(** The parked fetches, and the subscriptions between their check and their park. *)
Definition parked (r : Registry) : Z := Z.of_nat (size (filter is_open (heap r))).
Definition subscribing (r : Registry) : Z := Z.of_nat (size (filter is_locked (shards r))).

Lemma size_filter_insert {K A} `{Countable K} (P : K * A -> Prop) `{!forall x, Decision (P x)} (m : gmap K A) k a :
  Z.of_nat (size (filter P (<[k := a]> m))) =
  Z.of_nat (size (filter P m)) + (if decide (P (k, a)) then 1 else 0)
  - (match m !! k with Some b => if decide (P (k, b)) then 1 else 0 | None => 0 end).
Proof.
  assert (Hdel : forall m : gmap K A, m !! k = None -> filter P m !! k = None) by (intros m' Hk; apply map_lookup_filter_None; by left).
  assert (Hone : forall (m' : gmap K A) b, m' !! k = None -> Z.of_nat (size (filter P (<[k := b]> m'))) =
            Z.of_nat (size (filter P m')) + (if decide (P (k, b)) then 1 else 0)).
  { intros m' b Hk. destruct (decide (P (k, b))) as [Hp|Hp].
    - rewrite map_filter_insert_True, map_size_insert_None by auto. lia.
    - rewrite map_filter_insert_False, delete_id by done. lia. }
  destruct (m !! k) as [b|] eqn:Hk; [|rewrite Hone by done; lia].
  rewrite <-insert_delete_eq, Hone by apply lookup_delete_eq.
  rewrite <-(insert_delete_id m k b Hk) at 2. rewrite Hone by apply lookup_delete_eq. lia.
Qed.

Lemma parked_insert i w r : Z.of_nat (size (filter is_open (<[i := w]> (heap r)))) =
  parked r + (if decide (parked_open w) then 1 else 0)
  - (match heap r !! i with Some b => if decide (parked_open b) then 1 else 0 | None => 0 end).
Proof.
  rewrite (size_filter_insert is_open). unfold parked. destruct (heap r !! i) as [b|]; repeat case_decide;
    unfold is_open in *; simpl in *; lia || tauto.
Qed.

Lemma parked_tokens h' r : same_heap (heap r) h' -> parked (set_heap h' r) = parked r.
Proof.
  intros Hs. unfold parked. f_equal. rewrite <-!size_dom. f_equal. apply set_eq. intros i. rewrite !elem_of_dom. simpl.
  specialize (Hs i). unfold is_Some. setoid_rewrite map_lookup_filter_Some. unfold is_open. simpl.
  destruct Hs as [w w' (_ & _ & Hc & Ho)|]; [|naive_solver]. unfold parked_open.
  split; intros (x & [= <-] & Hx); eexists; (split; [done|]); congruence || (rewrite ?Hc, ?Ho in *; done).
Qed.

Lemma subscribing_set n sh r :
  subscribing (set_shard n sh r) = subscribing r + (match mu sh with Some _ => 1 | None => 0 end)
  - (match mu (shard_at n r) with Some _ => 1 | None => 0 end).
Proof.
  unfold subscribing, set_shard, shard_at. simpl. rewrite (size_filter_insert is_locked).
  destruct (shards r !! n) as [b|]; repeat case_decide; unfold is_locked in *; simpl in *; repeat case_match; lia || naive_solver.
Qed.

Lemma shardOf_range s : 0 <= shardOf s < 64.
Proof. apply Z.mod_pos_bound. unfold numShards. lia. Qed.

(** While nothing is released: the counter is exact, and it can pass its bound
    only by the subscriptions that checked it at the same time. *)
Record cap_ok (r : Registry) : Prop := {
  cap_total : total r = parked r;
  cap_shards : forall n, is_Some (shards r !! n) -> 0 <= n < 64;
  cap_bound : 0 <= r_max r -> total r + subscribing r <= r_max r + 63;
  cap_chan : forall i w, heap r !! i = Some w -> w_closed w = false;
}.

Lemma subscribing_le r : (forall n, is_Some (shards r !! n) -> 0 <= n < 64) -> 0 <= subscribing r <= 64.
Proof.
  intros Hd. unfold subscribing. split; [lia|]. rewrite <-size_dom.
  assert (Hsub : dom (filter is_locked (shards r)) ⊆ list_to_set (C := gset Z) (seqZ 0 64)).
  { intros n [sh [Hn _]%map_lookup_filter_Some]%elem_of_dom. apply elem_of_list_to_set, elem_of_seqZ. apply Hd. by eexists. }
  apply subseteq_size in Hsub. rewrite size_list_to_set, length_seqZ in Hsub by apply NoDup_seqZ. lia.
Qed.

Lemma cap_tokens h' r : same_heap (heap r) h' -> cap_ok r -> cap_ok (set_heap h' r).
Proof.
  intros Hs [Ht Hd Hb Hc]. split; [by rewrite parked_tokens|done|done|]. simpl. intros i w' Hw'. specialize (Hs i). rewrite Hw' in Hs.
  inversion Hs as [w w1 (_ & _ & E & _) Ha|]. rewrite E. symmetry in Ha. by eapply Hc.
Qed.

Lemma serve_cap r r' : serve r r' -> reg_ok r -> cap_ok r -> cap_ok r'.
Proof.
  intros Hs Hok Hcap. pose proof Hcap as [Ht Hd Hb Hc]. pose proof (subscribing_le r Hd) as Hle.
  destruct Hs as [k f r r' Hun Hck|k f r Hmu|i r _|k r r' _ Hw|s subj r r' _ Hw|i r].
  - apply sub_check_inv in Hck as (Hmax & _ & ->). set (r' := set_shard _ _ r).
    assert (Hd' : forall n, is_Some (shards r' !! n) -> 0 <= n < 64).
    { intros n. simpl. destruct (decide (n = shardOf k.1)) as [->|]; [intros _; apply shardOf_range|].
      rewrite lookup_insert_ne by done. apply Hd. }
    split; try done. intros _. pose proof (subscribing_le r' Hd'). change (total r') with (total r). change (r_max r') with (r_max r). lia.
  - split; simpl.
    + unfold parked at 1. simpl. rewrite parked_insert. destruct (heap r !! next r) as [w|] eqn:Hw.
      { pose proof (ok_next r Hok _ (mk_is_Some _ _ Hw)). lia. }
      rewrite decide_True by done. lia.
    + intros n. destruct (decide (n = shardOf k.1)) as [->|]; [intros _; apply shardOf_range|]. rewrite lookup_insert_ne by done. apply Hd.
    + intros Hm. specialize (Hb Hm).
      assert (Hsub : subscribing (sub_commit k f r) = subscribing r - 1); [|lia].
      etrans; [apply (subscribing_set (shardOf k.1) (MkShard (<[k := ids_of k (shard_at (shardOf k.1) r) ++ [next r]]> (byKey (shard_at (shardOf k.1) r)))
        (sh_closed (shard_at (shardOf k.1) r)) None) r)|]. rewrite Hmu. cbn [mu]. lia.
    + intros i w. destruct (decide (i = next r)) as [->|]; [rewrite lookup_insert_eq; by intros [= <-]|]. rewrite lookup_insert_ne by done. apply Hc.
  - unfold Close. destruct (heap r !! i) as [w|] eqn:Hw; [|done]. destruct (w_once w) eqn:Hon; [done|]. rewrite (ok_live r Hok). cbv zeta.
    split; simpl.
    + unfold parked at 1. simpl. rewrite parked_insert, Hw. pose proof (Hc i w Hw).
      repeat case_decide; unfold parked_open in *; simpl in *; lia || naive_solver.
    + intros n. destruct (decide (n = shardOf (w_key w).1)) as [->|]; [intros _; apply shardOf_range|]. rewrite lookup_insert_ne by done. apply Hd.
    + intros Hm. specialize (Hb Hm). match goal with |- context [set_shard ?n ?sh r] =>
        assert (Hsub : subscribing (set_shard n sh r) = subscribing r) by (rewrite subscribing_set; simpl; lia) end.
      unfold subscribing in *. simpl in *. lia.
    + intros j w'. destruct (decide (j = i)) as [->|]; [rewrite lookup_insert_eq; intros [= <-]; simpl; by eapply Hc|].
      rewrite lookup_insert_ne by done. apply Hc.
  - destruct (Wake_spec k r Hok) as (h' & He & Hs & _). rewrite He in Hw. injection Hw as <-. by apply cap_tokens.
  - destruct (wakeMatching_spec s subj r Hok) as (h' & He & Hs & _). rewrite He in Hw. injection Hw as <-. by apply cap_tokens.
  - unfold Recv. destruct (heap r !! i) as [w|] eqn:Hw; [|done]. repeat case_match; try done. simpl. apply cap_tokens; [|done].
    by apply recv_same.
Qed.

(** The process-wide cap on parked fetches holds up to the width of the
    registry.  While nothing has been released, the counter is the exact number
    of parked fetches; it is read before a fetch parks and the mutexes are per
    shard, so at most one subscription per other shard can overtake the check:
    the number of parked fetches never exceeds the cap by more than 63. *)
Lemma registry_cap m p r :
  0 <= m -> rtc serve (NewRegistry m p) r -> total r = parked r /\ parked r <= m + 63.
Proof.
  intros Hm Hr. assert (Hinv : reg_ok r /\ cap_ok r /\ r_max r = m).
  { assert (H0 : reg_ok (NewRegistry m p) /\ cap_ok (NewRegistry m p) /\ r_max (NewRegistry m p) = m).
    { split; [apply reg_ok_new|]. split; [|done]. split; simpl; try done.
      - intros n [? Hn]. by rewrite lookup_empty in Hn.
      - intros _. unfold subscribing. simpl. rewrite map_filter_empty, map_size_empty. lia. }
    remember (NewRegistry m p) as r0 eqn:E. clear E. induction Hr as [|r0 r1 r Hs _ IH]; [done|]. destruct H0 as (Hok & Hcap & Hmax).
    apply IH. split; [by eapply serve_ok|]. split; [by eapply serve_cap|]. rewrite <-Hmax.
    apply (steps_caps r0 r1). by apply rtc_once, step_serve. }
  destruct Hinv as (_ & [Ht Hd Hb _] & Hmax). pose proof (subscribing_le r Hd). rewrite Hmax in Hb. specialize (Hb Hm). split; [done|lia].
Qed.

(** ** Runs of the registry *)

Definition sample_key : ConsumerKey := ("orders", "billing").
Definition sample_filters : Set_ := match ParseSet ["orders.>"] with Ok f => f | Err _ => MkSet [] end.
Definition locked (k : ConsumerKey) (f : Set_) (r : Registry) : Registry :=
  match sub_check k f r with inr r' => r' | inl _ => r end.
Definition one_parked : Registry := sub_commit sample_key sample_filters (locked sample_key sample_filters (NewRegistry 4 2)).

Lemma locked_served k f r : unlocked k.1 r -> (exists r', sub_check k f r = inr r') -> serve r (locked k f r).
Proof. intros Hu [r' Hc]. apply (serve_check k f); [done|]. unfold locked. by rewrite Hc. Qed.

Lemma one_parked_served : rtc serve (NewRegistry 4 2) one_parked.
Proof.
  refine (rtc_l _ _ _ _ (locked_served sample_key sample_filters _ _ _) (rtc_once _ _ (serve_commit sample_key sample_filters _ _))).
  - by vm_compute.
  - vm_compute. by eexists.
  - by vm_compute.
Qed.

Lemma serve_steps r r' : rtc serve r r' -> rtc step r r'.
Proof. induction 1 as [|r r1 r' Hs _ IH]; [done|]. eapply rtc_l; [by apply step_serve|done]. Qed.

Lemma registry_safe_witness :
  let w := MkWaiter sample_key sample_filters false false false in
  exists r', wakeMatching "orders" "orders.created" one_parked = Some r' /\ heap r' !! 0%nat = Some (with_token w).
Proof.
  intros w. destruct (registry_safe 4 2 one_parked (serve_steps _ _ one_parked_served)) as (_ & _ & _ & Hm).
  destruct (Hm "orders" "orders.created") as (r' & Hr & Hh). exists r'. split; [exact Hr|].
  assert (Hw : heap one_parked !! 0%nat = Some w) by (vm_compute; reflexivity).
  rewrite (Hh 0%nat w Hw). case_decide as Hn; [reflexivity|]. destruct Hn. vm_compute. repeat split.
Defined.

(** Two subscriptions on streams of different shards pass a cap of one together. *)
Lemma cap_overshoots :
  let k := ("a", "c") in let k' := ("b", "c") in
  let r := sub_commit k' sample_filters (sub_commit k sample_filters
             (locked k' sample_filters (locked k sample_filters (NewRegistry 1 1)))) in
  shardOf "a" <> shardOf "b" /\ rtc serve (NewRegistry 1 1) r /\ parked r = 2.
Proof.
  intros k k' r. split; [by vm_compute|]. split; [|by vm_compute].
  refine (rtc_l _ _ _ _ (locked_served k sample_filters _ _ _) (rtc_l _ _ _ _ (locked_served k' sample_filters _ _ _)
    (rtc_l _ _ _ _ (serve_commit k sample_filters _ _) (rtc_once _ _ (serve_commit k' sample_filters _ _))))).
  1,3,5,6: by vm_compute.
  all: vm_compute; by eexists.
Qed.

(** A fetch that closes after the release is subtracted a second time: the
    counter is then below zero and one fetch more than the cap can park. *)
Lemma release_undercounts :
  match ReleaseAll one_parked with
  | Some r =>
      total (Close 0 r) = -1 /\
      (let park k x := (Subscribe k sample_filters x).1 in
       parked (foldl (fun x c => park ("orders", c) x) (Close 0 r) ["a"; "b"; "c"; "d"; "e"; "f"]) = 5)
  | None => False
  end.
Proof. by vm_compute. Qed.

End Waiters.
