(* ===== verification/Lifecycle.v ===== *)
(** * The life of the daemon

    [internal/lifecycle]: the one-way state machine with its compare-and-swap,
    the ordered start and the reverse stop of the components, the drain with its
    budget and its escalation, the signal table, the fatal supervisor, the
    two-phase reload and the watchdog interval.

    The drain, the supervisor and the signal loop are goroutines: they are a
    step relation in which each touches the shared state one access at a time. *)

From stdpp Require Import relations.
From S2P Require Import Prelude GoText.

Module Lifecycle.

(** ** manager.go: the state machine *)

Inductive State : Set := Starting | Recovering | Ready | Draining | Stopped | Fatal.

#[export] Instance State_eq_dec : EqDecision State.
Proof. solve_decision. Defined.

Definition legalMoves (from : State) : list State :=
  match from with
  | Starting => [Recovering]
  | Recovering => [Ready]
  | Ready => [Ready; Draining; Fatal]
  | Draining => [Stopped; Fatal]
  | Stopped => []
  | Fatal => []
  end.

Definition Transitions : list (State * State) :=
  [Starting; Recovering; Ready; Draining; Stopped; Fatal] ≫= fun from => (fun to => (from, to)) <$> legalMoves from.

Definition transitionLegal (from to : State) : bool := existsb (fun next => bool_decide (next = to)) (legalMoves from).

(** ** The manager *)

(** What the outside sees of the manager: calls on its components and seams. *)
Inductive effect : Set :=
| CompStart (name : string)
| CompStop (name : string)
| SetDraining
| SetReadOnly
| NotifyStopping
| ReleaseAll
| Shutdown
| ForceClose.

#[export] Instance effect_eq_dec : EqDecision effect.
Proof. solve_decision. Defined.

(** health.go: HealthState *)
Record HealthState : Set := MkHealth { h_draining : bool; h_readOnly : bool }.
Definition NewHealth : HealthState := MkHealth false false.
Definition health_Ready (h : HealthState) : bool := negb (h_draining h) && negb (h_readOnly h).
Definition health_Status (h : HealthState) : string :=
  if h_readOnly h then "read_only" else if h_draining h then "draining" else "serving".

Record Manager : Set := MkManager {
  m_comps : list string;
  m_started : nat;
  m_stopped : bool;
  m_drained : bool;
  m_lastDrain : bool;
  m_esc : bool;
  m_state : State;
  m_health : HealthState;
  m_trace : list effect;
}.

Definition NewManager (comps : list string) : Manager := MkManager comps 0 false false false false Starting NewHealth [].

Definition set_state (s : State) (m : Manager) : Manager :=
  MkManager (m_comps m) (m_started m) (m_stopped m) (m_drained m) (m_lastDrain m) (m_esc m) s (m_health m) (m_trace m).
Definition set_started (n : nat) (m : Manager) : Manager :=
  MkManager (m_comps m) n (m_stopped m) (m_drained m) (m_lastDrain m) (m_esc m) (m_state m) (m_health m) (m_trace m).
Definition set_stopped (m : Manager) : Manager :=
  MkManager (m_comps m) (m_started m) true (m_drained m) (m_lastDrain m) (m_esc m) (m_state m) (m_health m) (m_trace m).
Definition set_drained (forced : bool) (m : Manager) : Manager :=
  MkManager (m_comps m) (m_started m) (m_stopped m) true forced (m_esc m) (m_state m) (m_health m) (m_trace m).
Definition set_esc (m : Manager) : Manager :=
  MkManager (m_comps m) (m_started m) (m_stopped m) (m_drained m) (m_lastDrain m) true (m_state m) (m_health m) (m_trace m).
Definition set_health (h : HealthState) (m : Manager) : Manager :=
  MkManager (m_comps m) (m_started m) (m_stopped m) (m_drained m) (m_lastDrain m) (m_esc m) (m_state m) h (m_trace m).
Definition emit (l : list effect) (m : Manager) : Manager :=
  MkManager (m_comps m) (m_started m) (m_stopped m) (m_drained m) (m_lastDrain m) (m_esc m) (m_state m) (m_health m) (m_trace m ++ l).

(** The compare-and-swap behind every move. *)
Definition advance (from to : State) (m : Manager) : Manager * bool :=
  if transitionLegal from to && bool_decide (m_state m = from) then (set_state to m, true) else (m, false).

(** A failing Stop is logged and the next component stopped: only its call shows. *)
Definition stopStartedLocked (m : Manager) : Manager :=
  set_started 0 (emit (CompStop <$> rev (take (m_started m) (m_comps m))) m).

(** [fails] says which components refuse to start. *)
Fixpoint start_loop (fails : string -> bool) (cs : list string) (i : nat) (m : Manager) : Manager * option string :=
  match cs with
  | [] => (m, None)
  | c :: cs =>
      let m := emit [CompStart c] m in
      if fails c then (stopStartedLocked m, Some c) else start_loop fails cs (S i) (set_started (S i) m)
  end.

Definition Start (fails : string -> bool) (m : Manager) : Manager * result unit :=
  if m_stopped m then (m, Err (Plain "lifecycle: manager already stopped"))
  else
    match start_loop fails (m_comps m) 0 m with
    | (m', None) => (m', Ok tt)
    | (m', Some c) => (m', Err (Plain ("lifecycle: component failed to start: " +:+ c)))
    end.

Definition StopAll (m : Manager) : Manager :=
  if m_stopped m then m else set_stopped (stopStartedLocked m).

(** drain.go *)
Definition teardownAll (m : Manager) : Manager :=
  if m_stopped m then m
  else set_stopped (set_started 0 (emit (CompStop <$> rev (m_comps m)) m)).

(** ** The goroutines, with the health and API seams wired *)

(** Where the one drain that holds the drain mutex stands. *)
Inductive drain_pc : Set :=
| NoDrain
| DrainBegun      (* Ready became Draining *)
| DrainFlipped    (* readiness flipped *)
| DrainNotified   (* STOPPING=1 sent *)
| DrainWaiting    (* ReleaseAll done, Shutdown running *)
| DrainClosed (forced : bool)
| DrainTorn (forced : bool)
| DrainMoved (forced : bool).

(** Where the supervisor stands: the state it read, between its two accesses. *)
Inductive fatal_pc : Set := Watching | Latched | Read (s : State) | Absorbed.

Record proc : Set := MkProc { p_m : Manager; p_drain : drain_pc; p_fatal : fatal_pc; p_terms : nat; p_exited : bool }.

Definition with_m (m : Manager) (p : proc) : proc := MkProc m (p_drain p) (p_fatal p) (p_terms p) (p_exited p).
Definition with_drain (d : drain_pc) (p : proc) : proc := MkProc (p_m p) d (p_fatal p) (p_terms p) (p_exited p).
Definition with_fatal (f : fatal_pc) (p : proc) : proc := MkProc (p_m p) (p_drain p) f (p_terms p) (p_exited p).
Definition with_terms (n : nat) (exited : bool) (p : proc) : proc := MkProc (p_m p) (p_drain p) (p_fatal p) n exited.

(** What the supervisor does with the state it read. *)
Definition absorb (s : State) (m : Manager) : Manager :=
  match s with
  | Ready => (advance Ready Fatal m).1
  | Draining => (advance Draining Fatal m).1
  | Starting | Recovering | Stopped | Fatal => m
  end.

(** [Drain] with [shutdownAPI]: one caller at a time; a later one is an echo and changes nothing. *)
Inductive drain_step : proc -> proc -> Prop :=
| drain_begin m' p : p_drain p = NoDrain -> m_drained (p_m p) = false -> advance Ready Draining (p_m p) = (m', true) ->
    drain_step p (with_drain DrainBegun (with_m m' p))
| drain_flip p : p_drain p = DrainBegun ->
    drain_step p (with_drain DrainFlipped
      (with_m (emit [SetDraining] (set_health (MkHealth true (h_readOnly (m_health (p_m p)))) (p_m p))) p))
| drain_notify p : p_drain p = DrainFlipped -> drain_step p (with_drain DrainNotified (with_m (emit [NotifyStopping] (p_m p)) p))
| drain_release p : p_drain p = DrainNotified ->
    drain_step p (with_drain DrainWaiting (with_m (emit [ReleaseAll; Shutdown] (p_m p)) p))
| drain_done p : p_drain p = DrainWaiting -> drain_step p (with_drain (DrainClosed false) p)
| drain_force p : p_drain p = DrainWaiting ->
    (* Shutdown failed, the budget elapsed, or the wait was escalated *)
    drain_step p (with_drain (DrainClosed true) (with_m (emit [ForceClose] (p_m p)) p))
| drain_teardown f p : p_drain p = DrainClosed f -> drain_step p (with_drain (DrainTorn f) (with_m (teardownAll (p_m p)) p))
| drain_move f p : p_drain p = DrainTorn f -> drain_step p (with_drain (DrainMoved f) (with_m (advance Draining Stopped (p_m p)).1 p))
| drain_return f p : p_drain p = DrainMoved f -> drain_step p (with_drain NoDrain (with_m (set_drained f (p_m p)) p)).

(** [SuperviseFatal]. *)
Inductive fatal_step : proc -> proc -> Prop :=
| fatal_latch p : p_fatal p = Watching ->
    fatal_step p (with_fatal Latched
      (with_m (emit [SetReadOnly] (set_health (MkHealth (h_draining (m_health (p_m p))) true) (p_m p))) p))
| fatal_read p : p_fatal p = Latched -> fatal_step p (with_fatal (Read (m_state (p_m p))) p)
| fatal_absorb s p : p_fatal p = Read s -> fatal_step p (with_fatal Absorbed (with_m (absorb s (p_m p)) p)).

(** [ServeSignals] and [escalate]: TERM and INT share one count. *)
Inductive signal_step : proc -> proc -> Prop :=
| signal_first p : p_exited p = false -> p_terms p = 0%nat -> signal_step p (with_terms 1 false p)
| signal_second p : p_exited p = false -> p_terms p = 1%nat -> signal_step p (with_terms 2 false (with_m (set_esc (p_m p)) p))
| signal_third p : p_exited p = false -> (2 <= p_terms p)%nat -> signal_step p (with_terms (S (p_terms p)) true p).

(** The goroutines interleave. *)
Inductive proc_step : proc -> proc -> Prop :=
| by_drain p p' : drain_step p p' -> proc_step p p'
| stop_all p : proc_step p (with_m (StopAll (p_m p)) p)
| by_fatal p p' : fatal_step p p' -> proc_step p p'
| by_signal p p' : signal_step p p' -> proc_step p p'.

(** ** reload.go *)

Record Change : Set := MkChange { ch_Subject : string; ch_From : string; ch_To : string; ch_Secret : bool }.

Definition redactedPlaceholder : string := "[redacted]".

Definition render_change (c : Change) : string :=
  let from := if ch_Secret c then redactedPlaceholder else ch_From c in
  let to := if ch_Secret c then redactedPlaceholder else ch_To c in
  ch_Subject c +:+ " " +:+ from +:+ "->" +:+ to.

Definition RenderDiff (changes : list Change) : string := String.concat "; " (map render_change changes).

(** A source of settings over the live configuration [T]: Validate proposes
    without touching it, Apply changes it. *)
Record Reloader (T : Type) : Type := MkReloader {
  rl_Name : string;
  rl_Validate : T -> result (list Change);
  rl_Apply : Change -> T -> result T;
}.
Arguments rl_Name {T}.
Arguments rl_Validate {T}.
Arguments rl_Apply {T}.

Section Reload.
Context {T : Type}.

Fixpoint validate_all (rs : list (Reloader T)) (s : T) : result (list (Reloader T * list Change)) :=
  match rs with
  | [] => Ok []
  | r :: rs => let? cs := rl_Validate r s in let? rest := validate_all rs s in Ok ((r, cs) :: rest)
  end.

(** The changes one after the other, stopping at the first that fails. *)
Fixpoint apply_all (l : list (Reloader T * Change)) (s : T) : T * option error :=
  match l with
  | [] => (s, None)
  | (r, c) :: l => match rl_Apply r c s with
                   | Ok s' => apply_all l s'
                   | Err e => (s, Some e)
                   end
  end.

Definition Reload (rs : list (Reloader T)) (s : T) : T * result string :=
  match validate_all rs s with
  | Err e => (s, Err e)
  | Ok validated =>
      let '(s', failed) := apply_all (validated ≫= fun x => (fun c => (x.1, c)) <$> x.2) s in
      match failed with
      | Some e => (s', Err e)
      | None => (s', Ok (RenderDiff (validated ≫= snd)))
      end
  end.
End Reload.

(** ** sdnotify.go *)

(** Half of WATCHDOG_USEC in nanoseconds, an int64 product; 0 turns pinging off. *)
Definition WatchdogInterval (usecEnv pidEnv : option string) (pid : Z) : Z :=
  match usecEnv with
  | None => 0
  | Some usecStr =>
      match atoi usecStr with
      | None => 0
      | Some usec =>
          if usec <=? 0 then 0
          else if match pidEnv with
                  | Some pidStr => match atoi pidStr with Some owner => negb (owner =? pid) | None => true end
                  | None => false
                  end then 0
          else wrap64 (Z.quot usec 2 * 1000)
      end
  end.

(** ** Theorems: the state machine *)

Lemma transitionLegal_spec from to : transitionLegal from to = true <-> to ∈ legalMoves from.
Proof.
  unfold transitionLegal. rewrite existsb_exists. setoid_rewrite bool_decide_eq_true. setoid_rewrite <-list_elem_of_In. naive_solver.
Qed.

Lemma advance_spec from to m :
  let '(m', ok) := advance from to m in
  if ok then m' = set_state to m /\ m_state m = from /\ to ∈ legalMoves from else m' = m.
Proof.
  unfold advance. destruct (transitionLegal from to && bool_decide (m_state m = from)) eqn:H; [|done].
  apply andb_true_iff in H as [Hl Hs%bool_decide_eq_true]. by rewrite transitionLegal_spec in Hl.
Qed.

Definition moves (a b : State) : Prop := b ∈ legalMoves a.

Lemma advance_moves from to m : rtc moves (m_state m) (m_state (advance from to m).1).
Proof.
  pose proof (advance_spec from to m) as H. destruct (advance from to m) as [m' [|]]; [|by subst].
  destruct H as (-> & Hs & Hl). apply rtc_once. unfold moves. by rewrite Hs.
Qed.

Lemma absorb_moves s m : rtc moves (m_state m) (m_state (absorb s m)).
Proof. destruct s; simpl; try done; apply advance_moves. Qed.

Lemma step_moves p p' : proc_step p p' -> rtc moves (m_state (p_m p)) (m_state (p_m p')).
Proof.
  intros Hs. destruct Hs as [p p' Hs|p|p p' Hs|p p' Hs]; [destruct Hs as [m' p _ _ Ha| | | | | |f p _|f p _|]| |destruct Hs as [| |s p _]|by destruct Hs]; simpl; try done.
  - pose proof (advance_moves Ready Draining (p_m p)) as Hm. by rewrite Ha in Hm.
  - unfold teardownAll. by destruct (m_stopped (p_m p)).
  - apply advance_moves.
  - unfold StopAll. by destruct (m_stopped (p_m p)).
  - apply absorb_moves.
Qed.

(** The daemon's state machine is one way.  Whatever the drain, the fatal
    supervisor, the signal loop and other callers do, and in whatever order
    their accesses interleave, the state only follows the transition table;
    Stopped and Fatal are never left, and a draining daemon is never ready
    again. *)
Lemma lifecycle_one_way p p' :
  rtc proc_step p p' ->
  rtc moves (m_state (p_m p)) (m_state (p_m p')) /\
  (m_state (p_m p) = Stopped \/ m_state (p_m p) = Fatal -> m_state (p_m p') = m_state (p_m p)) /\
  (m_state (p_m p) = Draining -> m_state (p_m p') <> Ready).
Proof.
  intros Hr. assert (Hm : rtc moves (m_state (p_m p)) (m_state (p_m p'))).
  { induction Hr as [|p p1 p' Hs _ IH]; [done|]. etrans; [by apply step_moves|done]. }
  split; [done|]. revert Hm. generalize (m_state (p_m p)) (m_state (p_m p')). clear. intros a b Hm.
  induction Hm as [a|a c b Hac _ [IH1 IH2]]; [by split; [|intros ->]|]. unfold moves in Hac.
  split.
  - intros [-> | ->]; by apply elem_of_nil in Hac.
  - intros ->. simpl in Hac. apply elem_of_cons in Hac as [->|[->|Hac%elem_of_nil]%elem_of_cons]; [..|done].
    + rewrite IH1 by tauto. done.
    + rewrite IH1 by tauto. done.
Qed.

(** ** Theorems: starting and stopping *)

Definition is_stop (e : effect) : bool := match e with CompStop _ => true | _ => false end.
Definition is_api (e : effect) : bool :=
  match e with SetDraining | NotifyStopping | ReleaseAll | Shutdown | ForceClose => true | _ => false end.
Definition stops (m : Manager) : list effect := List.filter is_stop (m_trace m).
Definition api_calls (m : Manager) : list effect := List.filter is_api (m_trace m).

(** A start that fails stops what had started, in reverse, and not the
    component that refused; one that succeeds starts every component in order. *)
Lemma start_loop_spec fails pre cs m :
  m_comps m = pre ++ cs -> m_started m = length pre ->
  match start_loop fails cs (length pre) m with
  | (m', None) => m_trace m' = m_trace m ++ (CompStart <$> cs) /\ m_started m' = length (pre ++ cs) /\
      Forall (fun c => fails c = false) cs
  | (m', Some c) => exists cs1 cs2, cs = cs1 ++ c :: cs2 /\ fails c = true /\ Forall (fun c => fails c = false) cs1 /\
      m_trace m' = m_trace m ++ (CompStart <$> cs1 ++ [c]) ++ (CompStop <$> rev (pre ++ cs1)) /\ m_started m' = 0%nat
  end.
Proof.
  revert pre m. induction cs as [|c cs IH]; intros pre m Hc Hs; simpl.
  - rewrite !app_nil_r. done.
  - destruct (fails c) eqn:Hf.
    + exists [], cs. split_and!; try done. simpl. rewrite Hc, Hs, take_app_length, app_nil_r, <-app_assoc. done.
    + specialize (IH (pre ++ [c]) (set_started (length (pre ++ [c])) (emit [CompStart c] m))). simpl in IH.
      replace (S (length pre)) with (length (pre ++ [c])) by (rewrite length_app; simpl; lia).
      rewrite <-app_assoc in IH. specialize (IH Hc eq_refl). destruct (start_loop _ _ _ _) as [m' [c'|]].
      * destruct IH as (cs1 & cs2 & -> & ? & ? & Ht & ?). exists (c :: cs1), cs2. split_and!; try done; [by constructor|].
        rewrite Ht. simpl. by rewrite <-!app_assoc.
      * destruct IH as (Ht & Hst & Hall). split_and!; [|done|by constructor]. rewrite Ht. simpl. by rewrite <-app_assoc.
Qed.

(** A failed start leaves the manager startable: the same component is started
    a second time, although the flag says a failed Start counts as stopped. *)
Lemma failed_start_restarts :
  let m1 := (Start (String.eqb "api") (NewManager ["store"; "api"])).1 in
  m_stopped m1 = false /\
  m_trace (Start (fun _ => false) m1).1 =
    [CompStart "store"; CompStart "api"; CompStop "store"; CompStart "store"; CompStart "api"].
Proof. by vm_compute. Qed.

(** ** Theorems: the drain *)

(** A daemon that started all its components and serves. *)
Definition serving (comps : list string) : proc :=
  MkProc (MkManager comps (length comps) false false false false Ready NewHealth (CompStart <$> comps)) NoDrain Watching 0 false.

Definition api_order (forced : bool) : list effect :=
  [SetDraining; NotifyStopping; ReleaseAll; Shutdown] ++ if forced then [ForceClose] else [].

(** What a drain has called by the time it stands at [d]. *)
Definition called (d : drain_pc) (m : Manager) : list effect :=
  match d with
  | NoDrain => if m_drained m then api_order (m_lastDrain m) else []
  | DrainBegun => []
  | DrainFlipped => [SetDraining]
  | DrainNotified => [SetDraining; NotifyStopping]
  | DrainWaiting => api_order false
  | DrainClosed f | DrainTorn f | DrainMoved f => api_order f
  end.

Definition torn (d : drain_pc) (m : Manager) : bool :=
  match d with DrainTorn _ | DrainMoved _ => true | NoDrain => m_drained m | _ => false end.

Definition finished (d : drain_pc) (m : Manager) : bool :=
  match d with DrainMoved _ => true | NoDrain => m_drained m | _ => false end.

Record drain_ok (comps : list string) (p : proc) : Prop := {
  dr_comps : m_comps (p_m p) = comps;
  dr_stops : stops (p_m p) = if m_stopped (p_m p) then CompStop <$> rev comps else [];
  dr_started : m_stopped (p_m p) = false -> m_started (p_m p) = length comps;
  dr_api : api_calls (p_m p) = called (p_drain p) (p_m p);
  dr_torn : torn (p_drain p) (p_m p) = true -> m_stopped (p_m p) = true;
  dr_finished : m_state (p_m p) = Stopped -> finished (p_drain p) (p_m p) = true;
  dr_idle : p_drain p = NoDrain -> m_drained (p_m p) = true -> m_state (p_m p) <> Ready;
  dr_busy : p_drain p <> NoDrain -> m_drained (p_m p) = false /\ m_state (p_m p) <> Ready;
}.

Lemma stops_emit l m : stops (emit l m) = stops m ++ List.filter is_stop l.
Proof. unfold stops. simpl. apply List.filter_app. Qed.

Lemma api_emit l m : api_calls (emit l m) = api_calls m ++ List.filter is_api l.
Proof. unfold api_calls. simpl. apply List.filter_app. Qed.

Lemma stops_all l : List.filter is_stop (CompStop <$> l) = CompStop <$> l.
Proof. induction l as [|a l IH]; [done|]. rewrite fmap_cons. simpl. by rewrite IH. Qed.

Lemma stops_none l : List.filter is_api (CompStop <$> l) = [].
Proof. by induction l. Qed.

Lemma starts_none l : List.filter is_stop (CompStart <$> l) = [] /\ List.filter is_api (CompStart <$> l) = [].
Proof. by induction l. Qed.

(** Both ways to stop everything do it once, in reverse. *)
Lemma stop_step comps (f : Manager -> Manager) m :
  (f = StopAll \/ f = teardownAll) -> m_comps m = comps -> stops m = (if m_stopped m then CompStop <$> rev comps else []) ->
  (m_stopped m = false -> m_started m = length comps) ->
  m_stopped (f m) = true /\ stops (f m) = CompStop <$> rev comps /\ api_calls (f m) = api_calls m /\
  m_comps (f m) = comps /\ m_state (f m) = m_state m /\ m_drained (f m) = m_drained m /\ m_lastDrain (f m) = m_lastDrain m.
Proof.
  intros Hf Hc Hs Hst. destruct (m_stopped m) eqn:Hm.
  - destruct Hf as [-> | ->]; unfold StopAll, teardownAll; by rewrite Hm.
  - assert (Hlen : take (m_started m) (m_comps m) = comps) by (rewrite Hst, Hc by done; apply firstn_all).
    assert (He : stops (emit (CompStop <$> rev comps) m) = CompStop <$> rev comps /\
                 api_calls (emit (CompStop <$> rev comps) m) = api_calls m).
    { rewrite stops_emit, api_emit, stops_all, stops_none, Hs, app_nil_r. done. }
    destruct He as [He1 He2]. unfold stops, api_calls in *.
    destruct Hf as [-> | ->]; unfold StopAll, teardownAll, stopStartedLocked; rewrite Hm; rewrite ?Hlen, ?Hc; by split_and!.
Qed.

Lemma absorb_fields s m :
  let m' := absorb s m in
  m_comps m' = m_comps m /\ m_trace m' = m_trace m /\ m_stopped m' = m_stopped m /\ m_started m' = m_started m /\
  m_drained m' = m_drained m /\ m_lastDrain m' = m_lastDrain m /\ (m_state m' = m_state m \/ m_state m' = Fatal).
Proof. destruct s; simpl; unfold advance; try (by split_and!; auto); case_match; simpl; split_and!; auto. Qed.

Lemma drain_step_ok comps p p' : drain_step p p' -> drain_ok comps p -> drain_ok comps p'.
Proof.
  intros Hs [Hc Hst Hsd Ha Ht Hf Hi Hb].
  destruct Hs as [m' p Hd Hdr Hadv|p Hd|p Hd|p Hd|p Hd|p Hd|f p Hd|f p Hd|f p Hd].
  - pose proof (advance_spec Ready Draining (p_m p)) as H. rewrite Hadv in H. destruct H as (-> & Hr & _).
    rewrite Hd in *. simpl in *. split; simpl; try done. by rewrite Hdr in Ha.
  - rewrite Hd in *. destruct (Hb ltac:(done)). split; simpl; try done.
    + rewrite stops_emit. simpl. by rewrite app_nil_r.
    + rewrite api_emit. change (api_calls (set_health _ (p_m p))) with (api_calls (p_m p)). by rewrite Ha.
  - rewrite Hd in *. destruct (Hb ltac:(done)). split; simpl; try done.
    + rewrite stops_emit. simpl. by rewrite app_nil_r.
    + by rewrite api_emit, Ha.
  - rewrite Hd in *. destruct (Hb ltac:(done)). split; simpl; try done.
    + rewrite stops_emit. simpl. by rewrite app_nil_r.
    + by rewrite api_emit, Ha.
  - rewrite Hd in *. destruct (Hb ltac:(done)). by split.
  - rewrite Hd in *. destruct (Hb ltac:(done)). split; simpl; try done.
    + rewrite stops_emit. simpl. by rewrite app_nil_r.
    + by rewrite api_emit, Ha.
  - rewrite Hd in *. destruct (Hb ltac:(done)) as [? ?].
    destruct (stop_step comps teardownAll (p_m p) ltac:(by right) Hc Hst Hsd) as (E1 & E2 & E3 & E4 & E5 & E6 & E7).
    split; simpl; rewrite ?E1, ?E2, ?E3, ?E5, ?E6; done.
  - rewrite Hd in *. destruct (Hb ltac:(done)) as [? ?].
    assert (Hx : forall m', m_comps m' = m_comps (p_m p) -> m_trace m' = m_trace (p_m p) -> m_stopped m' = m_stopped (p_m p) ->
              m_started m' = m_started (p_m p) -> m_drained m' = false -> m_state m' <> Ready ->
              drain_ok comps (with_drain (DrainMoved f) (with_m m' p))).
    { intros m' E1 E2 E3 E4 E5 E6. split; simpl; unfold stops, api_calls in *; rewrite ?E1, ?E2, ?E3, ?E4; done. }
    pose proof (advance_spec Draining Stopped (p_m p)) as Hadv. destruct (advance Draining Stopped (p_m p)) as [m' [|]].
    + destruct Hadv as (-> & _ & _). by apply Hx.
    + subst m'. by apply Hx.
  - rewrite Hd in *. destruct (Hb ltac:(done)) as [? ?]. by split.
Qed.

Lemma fatal_step_ok comps p p' : fatal_step p p' -> drain_ok comps p -> drain_ok comps p'.
Proof.
  intros Hs [Hc Hst Hsd Ha Ht Hf Hi Hb]. destruct Hs as [p Hw|p Hw|s p Hw].
  - split; simpl; try done.
    + rewrite stops_emit. simpl. by rewrite app_nil_r.
    + rewrite api_emit. simpl. by rewrite app_nil_r.
  - by split.
  - destruct (absorb_fields s (p_m p)) as (E1 & E2 & E3 & E4 & E5 & E6 & E7). cbv zeta in *.
    split; simpl; unfold stops, api_calls, called, torn, finished in *; rewrite ?E1, ?E2, ?E3, ?E4, ?E5, ?E6; try done.
    + intros Hx. destruct E7 as [E7|E7]; rewrite E7 in Hx; [by apply Hf|done].
    + intros Hx Hy. destruct E7 as [E7|E7]; rewrite E7; [by apply Hi|done].
    + intros Hx. destruct (Hb Hx). split; [done|]. destruct E7 as [E7|E7]; by rewrite E7.
Qed.

Lemma proc_step_ok comps p p' : proc_step p p' -> drain_ok comps p -> drain_ok comps p'.
Proof.
  intros Hs Hok. destruct Hs as [p p' Hs|p|p p' Hs|p p' Hs]; [by eapply drain_step_ok| |by eapply fatal_step_ok|].
  - destruct Hok as [Hc Hst Hsd Ha Ht Hf Hi Hb].
    destruct (stop_step comps StopAll (p_m p) ltac:(by left) Hc Hst Hsd) as (E1 & E2 & E3 & E4 & E5 & E6 & E7).
    split; simpl; rewrite ?E1, ?E2, ?E3, ?E5, ?E6; try done.
    + rewrite Ha. unfold called. by rewrite E6, E7.
    + unfold finished in *. by rewrite E6.
  - destruct Hok. by destruct Hs; split.
Qed.

Lemma serving_ok comps : drain_ok comps (serving comps).
Proof. destruct (starts_none comps) as [H1 H2]. split; simpl; unfold stops, api_calls; simpl; done. Qed.



(** A storage fault seen before the drain does not keep the daemon from
    stopping as clean.  The supervisor reads the state and swaps it in two
    accesses; when a drain begins between them, its swap from Ready fails and is
    not retried: the health is read-only, the drain tears everything down and
    the state becomes Stopped. *)
Theorem fatal_race_stops_clean comps :
  exists p, rtc proc_step (serving comps) p /\ p_fatal p = Absorbed /\ m_state (p_m p) = Stopped /\
    health_Status (m_health (p_m p)) = "read_only" /\
    m_trace (p_m p) = (CompStart <$> comps) ++ [SetReadOnly] ++ api_order false ++ (CompStop <$> rev comps).
Proof.
  eexists. split.
  - eapply rtc_l; [by apply by_fatal, fatal_latch|]. eapply rtc_l; [by apply by_fatal, fatal_read|].
    eapply rtc_l; [apply by_drain; by eapply drain_begin|]. eapply rtc_l; [apply by_fatal; by eapply fatal_absorb|].
    eapply rtc_l; [apply by_drain; by eapply drain_flip|]. eapply rtc_l; [apply by_drain; by eapply drain_notify|]. eapply rtc_l; [apply by_drain; by eapply drain_release|].
    eapply rtc_l; [apply by_drain; by eapply drain_done|]. eapply rtc_l; [apply by_drain; by eapply drain_teardown|]. eapply rtc_l; [apply by_drain; by eapply drain_move|].
    apply rtc_refl.
  - split_and!; try done. simpl. by rewrite <-!app_assoc.
Qed.

(** ** Theorems: the reload *)

Section ReloadTheorems.
Context {T : Type}.
Implicit Types (rs : list (Reloader T)) (s : T).

Lemma apply_all_failed (l : list (Reloader T * Change)) s s' e :
  apply_all l s = (s', Some e) ->
  exists pre r c post, l = pre ++ (r, c) :: post /\ apply_all pre s = (s', None) /\ rl_Apply r c s' = Err e.
Proof.
  revert s. induction l as [|[r c] l IH]; intros s; simpl; [done|]. destruct (rl_Apply r c s) as [s1|e1] eqn:Ha.
  - intros (pre & r' & c' & post & -> & Hp & He)%IH. exists ((r, c) :: pre), r', c', post. simpl. by rewrite Ha.
  - intros [= <- <-]. by exists [], r, c, l.
Qed.

(** A reload is two-phase.  When a source does not validate, the live
    configuration is untouched and the error is returned; when every source
    validates, the proposed changes are applied in registration order, all of
    them, or up to the first that fails to apply. *)
Lemma reload_two_phase rs s s' r :
  Reload rs s = (s', r) ->
  match validate_all rs s with
  | Err e => s' = s /\ r = Err e
  | Ok validated =>
      let all := validated ≫= fun x => (fun c => (x.1, c)) <$> x.2 in
      match r with
      | Ok diff => apply_all all s = (s', None) /\ diff = RenderDiff (validated ≫= snd)
      | Err e => exists pre rl c post, all = pre ++ (rl, c) :: post /\ apply_all pre s = (s', None) /\ rl_Apply rl c s' = Err e
      end
  end.
Proof.
  unfold Reload. destruct (validate_all rs s) as [validated|e]; [|by intros [= <- <-]]. simpl.
  destruct (apply_all _ s) as [s1 [e|]] eqn:Ha; intros [= <- <-]; [by apply apply_all_failed|done].
Qed.
End ReloadTheorems.

(** A level that is a number, and a token file. *)
Definition level_reloader (to : string) : Reloader (string * string) :=
  MkReloader _ "loglevel" (fun s => Ok [MkChange "loglevel" s.1 to false]) (fun c s => Ok (ch_To c, s.2)).
Definition broken_reloader : Reloader (string * string) :=
  MkReloader _ "tokens" (fun s => Ok [MkChange "tokens" s.2 "new" true]) (fun _ _ => Err (Plain "apply")).

(** Two phases are not a transaction: a change that fails to apply leaves the
    ones before it in force. *)
Lemma reload_applies_part :
  Reload [level_reloader "debug"; broken_reloader] ("info", "old") = (("debug", "old"), Err (Plain "apply")).
Proof. reflexivity. Qed.

(** Two lists of changes that differ only in the values of secrets. *)
Definition same_public (c c' : Change) : Prop :=
  ch_Subject c = ch_Subject c' /\ ch_Secret c = ch_Secret c' /\
  (ch_Secret c = false -> ch_From c = ch_From c' /\ ch_To c = ch_To c').

(** The rendered diff does not depend on a secret. *)
Lemma RenderDiff_hides_secrets l l' : Forall2 same_public l l' -> RenderDiff l = RenderDiff l'.
Proof.
  intros Hl. unfold RenderDiff. f_equal. induction Hl as [|c c' l l' (Hs & He & Hv) _ IH]; [done|]. simpl. rewrite IH. f_equal.
  unfold render_change. rewrite Hs, <-He. destruct (ch_Secret c); [done|]. by destruct (Hv eq_refl) as [-> ->].
Qed.

(** ** Theorems: the watchdog *)

(** Within range, two pings fit the service manager's budget; past it the
    product leaves int64 and the cadence is negative. *)
Lemma WatchdogInterval_half raw usec pid :
  atoi raw = Some usec -> 0 < usec <= 2 ^ 54 -> 0 <= 2 * WatchdogInterval (Some raw) None pid <= usec * 1000.
Proof.
  intros Ha Hu. unfold WatchdogInterval. rewrite Ha. replace (usec <=? 0) with false by (symmetry; bool_prop; lia).
  rewrite Z.quot_div_nonneg by lia. pose proof (Z.mul_div_le usec 2 ltac:(lia)). pose proof (Z.div_pos usec 2 ltac:(lia) ltac:(lia)).
  rewrite wrap64_id; lia.
Qed.

Lemma WatchdogInterval_overflows : WatchdogInterval (Some "18446744073709552") None 1 = -9223372036854775616.
Proof. by vm_compute. Qed.

End Lifecycle.
