(* ===== verification/Policy.v ===== *)
(** * Stream and consumer configuration: internal/queue

    [config.go], [name.go], [consumer.go], [backoff.go], [update.go]: the pure
    validation layer, the retry schedule and its horizon. *)

From S2P Require Import Prelude GoText Subject.

Module Policy.

(** ** config.go: streams *)

Definition RetentionLimits : string := "limits".
Definition RetentionWorkQueue : string := "workqueue".
Definition DiscardOld : string := "old".
Definition DiscardNew : string := "new".

Record StreamConfig : Set := MkStreamConfig {
  sc_Name : string;
  sc_Subjects : list string;
  sc_Retention : string;
  sc_MaxMsgs : Z;
  sc_MaxBytes : Z;
  sc_MaxAge : Z;
  sc_MaxMsgSize : Z;
  sc_Discard : string;
  sc_DedupWindow : Z
}.

Record Limits : Set := MkLimits {
  MaxMsgSizeCeiling : Z;
  MaxHeaderBytes : Z;
  MaxHeaders : Z;
  MaxSubjects : Z;
  MaxDedupWindow : Z
}.

Definition DefaultConfig (name : string) : StreamConfig :=
  {| sc_Name := name; sc_Subjects := [">"]; sc_Retention := RetentionLimits;
     sc_MaxMsgs := 0; sc_MaxBytes := 0; sc_MaxAge := 7 * 24 * Hour;
     sc_MaxMsgSize := Z.shiftl 1 20; sc_Discard := DiscardOld;
     sc_DedupWindow := 120 * Second |}.

Definition DefaultLimits : Limits :=
  {| MaxMsgSizeCeiling := Z.shiftl 8 20; MaxHeaderBytes := Z.shiftl 4 10; MaxHeaders := 32;
     MaxSubjects := 32; MaxDedupWindow := 24 * Hour |}.

(** name.go *)
Definition reservedSuffix : string := ".dlq".
Definition ErrReservedName : error := E ErrBadRequest "ErrReservedName".

Definition ValidateStreamName (name : string) : result unit :=
  if has_suffix reservedSuffix name then Err ErrReservedName
  else Subject.ValidateNewStreamName name.

Definition ValidateExistingStreamName (name : string) : result unit :=
  Subject.ValidateStreamName name.

(** A Go guard: refuse with [ErrBadRequest] when the test holds. *)
Definition refuse_if (b : bool) (tag : string) : result unit :=
  if b then Err (E ErrBadRequest tag) else Ok tt.

Definition ValidateStreamConfig (c : StreamConfig) (l : Limits) : result unit :=
  let? _ := ValidateStreamName (sc_Name c) in
  let n := Z.of_nat (length (sc_Subjects c)) in
  let? _ := refuse_if ((n <? 1) || (MaxSubjects l <? n)) "subject patterns" in
  let? _ := Subject.ParseSet (sc_Subjects c) in
  let? _ := refuse_if (negb (bool_decide (sc_Retention c = RetentionLimits)
                             || bool_decide (sc_Retention c = RetentionWorkQueue))) "retention" in
  let? _ := refuse_if (negb (bool_decide (sc_Discard c = DiscardOld)
                             || bool_decide (sc_Discard c = DiscardNew))) "discard" in
  let? _ := refuse_if ((sc_MaxMsgs c <? 0) || (sc_MaxBytes c <? 0)) "max_msgs or max_bytes" in
  let? _ := refuse_if (sc_MaxAge c <? 0) "max_age" in
  let? _ := refuse_if ((sc_MaxMsgSize c <? 1) || (MaxMsgSizeCeiling l <? sc_MaxMsgSize c)) "max_msg_size" in
  refuse_if ((sc_DedupWindow c <? 0) || (MaxDedupWindow l <? sc_DedupWindow c)) "dedup_window".

(** ** consumer.go *)

Definition DeadPolicyDLQ : string := "dlq".
Definition DeadPolicyDrop : string := "drop".

Record ConsumerConfig : Set := MkConsumerConfig {
  cc_Name : string;
  cc_Filters : list string;
  cc_AckWait : Z;
  cc_MaxDeliver : Z;
  cc_MaxAckPending : Z;
  cc_Backoff : list Z;
  cc_DeadPolicy : string;
  cc_Paused : bool
}.

Record ConsumerLimits : Set := MkConsumerLimits {
  MinAckWait : Z;
  MaxAckWait : Z;
  MaxFilters : Z;
  MaxBackoffEntries : Z;
  MaxBackoffDelay : Z;
  MaxAckPendingCap : Z;
  MaxConsumers : Z;
  ScanLimit : Z;
  MaxFetchBatch : Z;
  FetchMaxBytes : Z;
  FlowBlockedInterval : Z
}.

Definition maxDeliverCap : Z := 1000.

Definition defaultConsumerBackoff : list Z :=
  [1 * Second; 5 * Second; 30 * Second; 2 * Minute; 10 * Minute].

Definition DefaultConsumerConfig (name : string) : ConsumerConfig :=
  {| cc_Name := name; cc_Filters := [">"]; cc_AckWait := 30 * Second; cc_MaxDeliver := 5;
     cc_MaxAckPending := 1000; cc_Backoff := defaultConsumerBackoff;
     cc_DeadPolicy := DeadPolicyDLQ; cc_Paused := false |}.

Definition DefaultConsumerLimits : ConsumerLimits :=
  {| MinAckWait := 100 * Millisecond; MaxAckWait := Hour; MaxFilters := 32;
     MaxBackoffEntries := 16; MaxBackoffDelay := 24 * Hour; MaxAckPendingCap := 1000000;
     MaxConsumers := 1024; ScanLimit := 4096; MaxFetchBatch := 1024;
     FetchMaxBytes := Z.shiftl 8 20; FlowBlockedInterval := 10 * Second |}.

(** *** backoff.go *)

(** The injected scheduling seam; [None] is the nil function. *)
Definition Jitter : Type := option (Z -> Z).

Definition BackoffFor (c : ConsumerConfig) (attempt : Z) : Z :=
  match cc_Backoff c with
  | [] => 0
  | b =>
      let n := Z.of_nat (length b) in
      let i := attempt - 1 in
      let i := if i <? 0 then 0 else if n <=? i then n - 1 else i in
      nth (Z.to_nat i) b 0
  end.

Definition MaxNakDelay : Z := 24 * Hour.

Definition ReleaseDelay (c : ConsumerConfig) (attempt : Z) (explicit : option Z) (j : Jitter)
  : result Z :=
  match explicit with
  | Some d =>
      if (d <? 0) || (MaxNakDelay <? d) then Err (E ErrBadRequest "nak delay out of range")
      else Ok d
  | None =>
      let base := BackoffFor c attempt in
      match j with
      | None => Ok base
      | Some f => Ok (f base)
      end
  end.

(** *** Horizons *)

Definition HorizonInfinite : Z := 2 ^ 63 - 1.

(** The summing loop of [RetryHorizon] over [i = from, from+1, ...], [n] turns. *)
Fixpoint horizon_loop (b : list Z) (from n : nat) (sum : Z) : Z :=
  match n with
  | O => sum
  | S n' =>
      let idx := if (length b <=? from)%nat then (length b - 1)%nat else from in
      horizon_loop b (S from) n' (wrap64 (sum + nth idx b 0))
  end.

Definition RetryHorizon (c : ConsumerConfig) : Z :=
  if cc_MaxDeliver c =? 0 then HorizonInfinite
  else if (cc_MaxDeliver c <=? 1) || (Z.of_nat (length (cc_Backoff c)) =? 0) then 0
  else horizon_loop (cc_Backoff c) 0 (Z.to_nat (cc_MaxDeliver c - 1)) 0.

Definition TimeToDead (c : ConsumerConfig) : Z :=
  if cc_MaxDeliver c =? 0 then HorizonInfinite
  else wrap64 (wrap64 (cc_MaxDeliver c * cc_AckWait c) + RetryHorizon c).

Fixpoint backoffMonotonic (b : list Z) : bool :=
  match b with
  | x :: ((y :: _) as b') => if y <? x then false else backoffMonotonic b'
  | _ => true
  end.

Definition WarningMaxDeliverUnlimited : string := "max_deliver_unlimited".
Definition WarningBackoffNonMonotonic : string := "backoff_nonmonotonic".
Definition WarningHorizonShorterThanAckWait : string := "horizon_shorter_than_ack_wait".

Definition warn_if (b : bool) (code : string) : list string := if b then [code] else [].

(** The accepted configuration's warning codes, or the refusal. *)
Definition ValidateConsumerConfig (c : ConsumerConfig) (l : ConsumerLimits) : result (list string) :=
  let? _ := Subject.ValidateConsumerName (cc_Name c) in
  let nf := Z.of_nat (length (cc_Filters c)) in
  let? _ := refuse_if ((nf <? 1) || (MaxFilters l <? nf)) "filters" in
  let? _ := Subject.ParseSet (cc_Filters c) in
  let? _ := refuse_if ((cc_AckWait c <? MinAckWait l) || (MaxAckWait l <? cc_AckWait c)) "ack_wait" in
  let? _ := refuse_if ((cc_MaxDeliver c <? 0) || (maxDeliverCap <? cc_MaxDeliver c)) "max_deliver" in
  let? _ := refuse_if ((cc_MaxAckPending c <? 1) || (MaxAckPendingCap l <? cc_MaxAckPending c))
              "max_ack_pending" in
  let nb := Z.of_nat (length (cc_Backoff c)) in
  let? _ := refuse_if ((nb <? 1) || (MaxBackoffEntries l <? nb)) "backoff entries" in
  let? _ := refuse_if (existsb (fun d => (d <? 0) || (MaxBackoffDelay l <? d)) (cc_Backoff c)) "backoff" in
  let? _ := refuse_if (negb (bool_decide (cc_DeadPolicy c = DeadPolicyDLQ)
                             || bool_decide (cc_DeadPolicy c = DeadPolicyDrop))) "dead_policy" in
  Ok (warn_if (cc_MaxDeliver c =? 0) WarningMaxDeliverUnlimited
      ++ warn_if (negb (backoffMonotonic (cc_Backoff c))) WarningBackoffNonMonotonic
      ++ warn_if ((1 <? cc_MaxDeliver c) && (RetryHorizon c <? cc_AckWait c))
           WarningHorizonShorterThanAckWait)%list.

Definition DefaultDeadPolicyForStream (stream : string) : string :=
  if has_suffix reservedSuffix stream then DeadPolicyDrop else DeadPolicyDLQ.

Definition ValidateDeadPolicyForStream (stream dp : string) : result unit :=
  if has_suffix reservedSuffix stream && bool_decide (dp = DeadPolicyDLQ)
  then Err (E ErrBadRequest "dead-letter stream") else Ok tt.

(** ** update.go *)

Record Usage : Set := MkUsage {
  u_NowMS : Z; u_Msgs : Z; u_Bytes : Z; u_AtRiskMsgs : Z; u_AtRiskBytes : Z
}.

Definition WouldLoseData (field : string) : error := E ErrConflict field.

Definition ValidateUpdate (old next : StreamConfig) (u : Usage) (allowLoss : bool) : result unit :=
  if negb (bool_decide (sc_Name next = sc_Name old)) then Err (E ErrBadRequest "names are immutable")
  else
    let refuse field := if allowLoss then Ok tt else Err (WouldLoseData field) in
    let? _ := if negb (sc_MaxMsgs next =? 0) && (sc_MaxMsgs next <? u_Msgs u)
                 && ((sc_MaxMsgs old =? 0) || (sc_MaxMsgs next <? sc_MaxMsgs old))
              then refuse "max_msgs" else Ok tt in
    let? _ := if negb (sc_MaxBytes next =? 0) && (sc_MaxBytes next <? u_Bytes u)
                 && ((sc_MaxBytes old =? 0) || (sc_MaxBytes next <? sc_MaxBytes old))
              then refuse "max_bytes" else Ok tt in
    let? _ := if negb (sc_MaxAge next =? 0) && (0 <? u_AtRiskMsgs u)
                 && ((sc_MaxAge old =? 0) || (sc_MaxAge next <? sc_MaxAge old))
              then refuse "max_age" else Ok tt in
    if bool_decide (sc_Retention old = RetentionLimits)
       && bool_decide (sc_Retention next = RetentionWorkQueue)
    then refuse "retention" else Ok tt.

(** ** Facts *)

Lemma refuse_if_ok b tag u : refuse_if b tag = Ok u <-> b = false.
Proof. unfold refuse_if. destruct b, u; naive_solver. Qed.

(** What an accepted consumer configuration guarantees. *)
Record consumer_wf (c : ConsumerConfig) (l : ConsumerLimits) : Prop := {
  cwf_name : Subject.ValidateConsumerName (cc_Name c) = Ok tt;
  cwf_filters : is_ok (Subject.ParseSet (cc_Filters c)) = true;
  cwf_ack_wait : MinAckWait l <= cc_AckWait c <= MaxAckWait l;
  cwf_max_deliver : 0 <= cc_MaxDeliver c <= maxDeliverCap;
  cwf_max_ack_pending : 1 <= cc_MaxAckPending c <= MaxAckPendingCap l;
  cwf_backoff_len : 1 <= Z.of_nat (length (cc_Backoff c)) <= MaxBackoffEntries l;
  cwf_backoff : Forall (fun d => 0 <= d <= MaxBackoffDelay l) (cc_Backoff c);
  cwf_dead_policy : cc_DeadPolicy c = DeadPolicyDLQ \/ cc_DeadPolicy c = DeadPolicyDrop
}.

Lemma existsb_false_Forall {A} (f : A -> bool) l :
  existsb f l = false <-> Forall (fun x => f x = false) l.
Proof.
  induction l; simpl; [split; auto|]. rewrite orb_false_iff, Forall_cons. naive_solver.
Qed.

Lemma ValidateConsumerConfig_wf c l ws :
  ValidateConsumerConfig c l = Ok ws -> consumer_wf c l.
Proof.
  unfold ValidateConsumerConfig.
  repeat (rewrite rbind_ok; intros (? & ? & H); revert H). intros _.
  repeat match goal with H : refuse_if _ _ = _ |- _ => apply refuse_if_ok in H end.
  repeat match goal with u : unit |- _ => destruct u end.
  constructor; bool_prop; try lia; try done.
  - apply is_ok_true. eauto.
  - match goal with H : existsb _ _ = false |- _ => apply existsb_false_Forall in H;
      eapply Forall_impl; [exact H|] end. simpl. intros d Hd. bool_prop. lia.
Qed.

(** The clamped schedule entry for the [i]-th wait, counted from 0. *)
Definition sched (b : list Z) (i : nat) : Z :=
  nth (if (length b <=? i)%nat then (length b - 1)%nat else i) b 0.

Lemma BackoffFor_sched c i :
  cc_Backoff c <> [] -> BackoffFor c (Z.of_nat i + 1) = sched (cc_Backoff c) i.
Proof.
  unfold BackoffFor, sched. destruct (cc_Backoff c) as [|d b] eqn:Hb; [done|]. intros _.
  rewrite Z.add_simpl_r. replace (Z.of_nat i <? 0) with false by (symmetry; apply Z.ltb_ge; lia).
  case_match eqn:H1; case_match eqn:H2; bool_prop; rewrite ?Nat.leb_le, ?Nat.leb_gt in *;
    try lia; f_equal; lia.
Qed.

Lemma sched_bound b i m :
  b <> [] -> Forall (fun d => 0 <= d <= m) b -> 0 <= sched b i <= m.
Proof.
  intros Hne Hf. unfold sched. apply (proj1 (List.Forall_forall _ _) Hf), nth_In.
  destruct (Nat.leb_spec (length b) i); [|done]. destruct b; [done|]. simpl; lia.
Qed.

Lemma BackoffFor_bound c m attempt :
  0 <= m -> Forall (fun d => 0 <= d <= m) (cc_Backoff c) -> 0 <= BackoffFor c attempt <= m.
Proof.
  intros Hm Hf. unfold BackoffFor. destruct (cc_Backoff c) as [|d b] eqn:Hb; [lia|].
  apply (proj1 (List.Forall_forall _ _) Hf), nth_In. simpl length.
  repeat case_match; bool_prop; lia.
Qed.

(** The 64-bit summing loop is exact while the bound on the total fits. *)
Lemma horizon_loop_exact b from n sum m :
  b <> [] -> Forall (fun d => 0 <= d <= m) b -> 0 <= sum -> sum + Z.of_nat n * m < 2 ^ 63 ->
  horizon_loop b from n sum = sum + sumZ (map (sched b) (seq from n)).
Proof.
  intros Hne Hf. revert from sum; induction n as [|n IH]; intros from sum Hs Hb; simpl; [lia|].
  fold (sched b from). pose proof (sched_bound b from m Hne Hf).
  rewrite Nat2Z.inj_succ, Z.mul_succ_l in Hb. assert (0 <= Z.of_nat n * m) by nia.
  rewrite wrap64_id by lia. rewrite IH by lia. lia.
Qed.

Lemma sumZ_sched_bound b from n m :
  b <> [] -> Forall (fun d => 0 <= d <= m) b ->
  0 <= sumZ (map (sched b) (seq from n)) <= Z.of_nat n * m.
Proof.
  intros Hne Hf. split.
  - apply sumZ_nonneg, Forall_map, Forall_true. intros i. by apply (sched_bound b i m).
  - rewrite <-(length_seq n from) at 2. rewrite <-(length_map (sched b) (seq from n)).
    apply sumZ_bound, Forall_map, Forall_true. intros i. by apply (sched_bound b i m).
Qed.

(** ** Theorems *)

(** the advertised retry horizon is the schedule the planners really use:
    for every validated configuration (limits of at most 24 h per wait and per
    ack_wait) with a finite [max_deliver], [RetryHorizon] is exactly the sum of
    [BackoffFor] over the attempts 1 to [max_deliver]-1, [TimeToDead] adds one
    [ack_wait] per attempt, and no 64-bit sum wraps. *)
Lemma RetryHorizon_schedule (c : ConsumerConfig) (l : ConsumerLimits) (ws : list string) :
  ValidateConsumerConfig c l = Ok ws ->
  MaxBackoffDelay l <= 24 * Hour -> MaxAckWait l <= 24 * Hour -> 0 <= MinAckWait l ->
  0 < cc_MaxDeliver c ->
  RetryHorizon c =
    sumZ (map (fun i => BackoffFor c (Z.of_nat i + 1)) (seq 0 (Z.to_nat (cc_MaxDeliver c - 1)))) /\
  TimeToDead c = cc_MaxDeliver c * cc_AckWait c + RetryHorizon c /\
  0 <= RetryHorizon c <= TimeToDead c /\ TimeToDead c < HorizonInfinite.
Proof.
  intros Hv Hd Ha Hmin Hpos. destruct (ValidateConsumerConfig_wf _ _ _ Hv) as [_ _ Haw Hmd _ Hbl Hbf _].
  unfold maxDeliverCap in Hmd. set (n := Z.to_nat (cc_MaxDeliver c - 1)) in *.
  assert (cc_Backoff c <> []) as Hne by (intros He; rewrite He in Hbl; simpl in Hbl; lia).
  assert (Forall (fun d => 0 <= d <= 24 * Hour) (cc_Backoff c)) as Hf.
  { eapply Forall_impl; [exact Hbf|]. simpl. lia. }
  pose proof (sumZ_sched_bound (cc_Backoff c) 0 n _ Hne Hf) as Hs.
  rewrite (map_ext _ (sched (cc_Backoff c))) by (intros; by apply BackoffFor_sched).
  assert (RetryHorizon c = sumZ (map (sched (cc_Backoff c)) (seq 0 n))) as Hr.
  { unfold RetryHorizon.
    replace (cc_MaxDeliver c =? 0) with false by (symmetry; apply Z.eqb_neq; lia).
    replace (Z.of_nat _ =? 0) with false by (symmetry; apply Z.eqb_neq; lia).
    rewrite orb_false_r. case_match; bool_prop.
    - unfold n. replace (cc_MaxDeliver c - 1) with 0 by lia. done.
    - rewrite (horizon_loop_exact _ _ _ _ (24 * Hour)); [fold n; lia|done|done|lia|].
      unfold Hour, Minute, Second, Millisecond. lia. }
  rewrite Hr. unfold TimeToDead, HorizonInfinite.
  replace (cc_MaxDeliver c =? 0) with false by (symmetry; apply Z.eqb_neq; lia).
  rewrite Hr. unfold Hour, Minute, Second, Millisecond in *.
  assert (0 <= cc_MaxDeliver c * cc_AckWait c <= 1000 * 86400000000000) by nia.
  assert (Z.of_nat n <= 999) by lia.
  rewrite (wrap64_id (cc_MaxDeliver c * cc_AckWait c)), wrap64_id by lia. split_and!; lia.
Qed.

Lemma ValidateStreamConfig_bounds c l u :
  ValidateStreamConfig c l = Ok u ->
  ValidateStreamName (sc_Name c) = Ok tt /\ is_ok (Subject.ParseSet (sc_Subjects c)) = true /\
  1 <= Z.of_nat (length (sc_Subjects c)) <= MaxSubjects l /\
  0 <= sc_MaxMsgs c /\ 0 <= sc_MaxBytes c /\ 0 <= sc_MaxAge c /\
  1 <= sc_MaxMsgSize c <= MaxMsgSizeCeiling l /\ 0 <= sc_DedupWindow c <= MaxDedupWindow l.
Proof.
  unfold ValidateStreamConfig. rewrite rbind_ok. intros ([] & Hname & H); revert H.
  repeat (rewrite rbind_ok; intros (? & ? & H); revert H). intros Hlast.
  repeat match goal with H : refuse_if _ _ = _ |- _ => apply refuse_if_ok in H end.
  split_and!; bool_prop; try lia; [done|]. apply is_ok_true. eauto.
Qed.

(** a stream configuration that validation accepts can always be
    dead-lettered: its name is not itself reserved and the derived dead-letter
    name is an existing-stream name, which validation refuses as a user name;
    its subject list compiles, and every limit is in its documented window. *)
Lemma ValidateStreamConfig_sound (c : StreamConfig) (l : Limits) :
  ValidateStreamConfig c l = Ok tt ->
  ValidateExistingStreamName (sc_Name c +:+ reservedSuffix) = Ok tt /\
  ValidateStreamName (sc_Name c +:+ reservedSuffix) = Err ErrReservedName /\
  has_suffix reservedSuffix (sc_Name c) = false /\
  is_ok (Subject.ParseSet (sc_Subjects c)) = true /\
  1 <= Z.of_nat (length (sc_Subjects c)) <= MaxSubjects l /\
  0 <= sc_MaxMsgs c /\ 0 <= sc_MaxBytes c /\ 0 <= sc_MaxAge c /\
  1 <= sc_MaxMsgSize c <= MaxMsgSizeCeiling l /\ 0 <= sc_DedupWindow c <= MaxDedupWindow l.
Proof.
  intros (Hname & Hset & Hbounds)%ValidateStreamConfig_bounds. unfold ValidateStreamName in Hname |- *.
  destruct (has_suffix reservedSuffix (sc_Name c)) eqn:Hsuf; [done|].
  assert (has_suffix reservedSuffix (sc_Name c +:+ reservedSuffix) = true) as ->.
  { apply has_suffix_spec. eauto. }
  split; [by apply SubjectFacts.dlq_name_ok|]. naive_solver.
Qed.

End Policy.
