(* ===== verification/Settle.v ===== *)
(** * The settle and sweep planners: internal/queue/settle.go, sweep.go

    [PlanSettle] decides what an ack, nak, term or extend may do to a live
    delivery row; [DecideSweep] decides what an expired lease becomes.  Both
    are pure: the instant and the jitter are arguments. *)

From S2P Require Import Prelude GoText Subject Token Policy.

Module Settle.
Import Policy.

(** ** settle.go: data *)

Definition VerbAck : string := "ack".
Definition VerbNak : string := "nak".
Definition VerbTerm : string := "term".
Definition VerbExtend : string := "extend".

Inductive ItemStatus : Set :=
| ItemStatusOK | ItemStatusStale | ItemStatusStaleAck | ItemStatusWrongGen | ItemStatusUnknown.

#[global] Instance ItemStatus_eq_dec : EqDecision ItemStatus.
Proof. solve_decision. Defined.

(** The [deliveries.state] column. *)
Definition StateReady : Z := 0.
Definition StateInflight : Z := 1.

Inductive SettleAction : Set :=
| ActionNoop | ActionAck | ActionRelease | ActionExtend | ActionDead.

#[global] Instance SettleAction_eq_dec : EqDecision SettleAction.
Proof. solve_decision. Defined.

Definition DeadCauseMaxDeliver : string := "max_deliver".
Definition DeadCauseTerminated : string := "terminated".

Record SettleRequest : Type := MkSettleRequest {
  rq_Verb : string;
  rq_Token : Token.Token;
  rq_Generation : Z;
  rq_CursorSeq : Z;
  rq_Config : ConsumerConfig;
  rq_MaxAckWait : Z;
  rq_RowPresent : bool;
  rq_RowState : Z;
  rq_RowAttempts : Z;
  rq_RowVisibleAt : Z;
  rq_RowDeliveredAt : Z;
  rq_NakDelay : option Z;
  rq_Jitter : Jitter
}.

Record SettlePlan : Set := MkSettlePlan {
  Status : ItemStatus;
  Action : SettleAction;
  Late : bool;
  Dead : bool;
  Cause : string;
  Reason : string;
  CurrentAttempt : Z;
  NewVisibleAt : Z;
  HeldMS : Z
}.

(** A Go composite literal: the named fields over the zero value. *)
Definition plan_rejected (st : ItemStatus) (reason : string) (cur : Z) : SettlePlan :=
  {| Status := st; Action := ActionNoop; Late := false; Dead := false; Cause := "";
     Reason := reason; CurrentAttempt := cur; NewVisibleAt := 0; HeldMS := 0 |}.

Definition plan_ok (a : SettleAction) (visible : Z) : SettlePlan :=
  {| Status := ItemStatusOK; Action := a; Late := false; Dead := false; Cause := "";
     Reason := ""; CurrentAttempt := 0; NewVisibleAt := visible; HeldMS := 0 |}.

Definition plan_dead (cause : string) : SettlePlan :=
  {| Status := ItemStatusOK; Action := ActionDead; Late := false; Dead := true; Cause := cause;
     Reason := ""; CurrentAttempt := 0; NewVisibleAt := 0; HeldMS := 0 |}.

(** ** settle.go: the planner *)

Definition planAck (req : SettleRequest) (now : Z) : SettlePlan :=
  {| Status := ItemStatusOK; Action := ActionAck;
     Late := rq_RowState req =? StateReady;
     Dead := false; Cause := ""; Reason := ""; CurrentAttempt := 0; NewVisibleAt := 0;
     HeldMS := if rq_RowDeliveredAt req =? 0 then 0 else UnixMilli now - rq_RowDeliveredAt req |}.

Definition planNak (req : SettleRequest) (now : Z) : result SettlePlan :=
  let? delay := ReleaseDelay (rq_Config req) (rq_RowAttempts req) (rq_NakDelay req) (rq_Jitter req) in
  let dead := (0 <? cc_MaxDeliver (rq_Config req))
              && (cc_MaxDeliver (rq_Config req) <=? rq_RowAttempts req) in
  if (rq_RowState req =? StateInflight) && dead then Ok (plan_dead DeadCauseMaxDeliver)
  else
    let computed := UnixMilli (now + delay) in
    let computed := if (rq_RowState req =? StateReady) && (rq_RowVisibleAt req <? computed)
                    then rq_RowVisibleAt req else computed in
    Ok (plan_ok ActionRelease computed).

Definition planTerm : SettlePlan := plan_dead DeadCauseTerminated.

Definition planExtend (req : SettleRequest) (now : Z) : result SettlePlan :=
  if negb (rq_RowState req =? StateInflight)
  then Ok (plan_rejected ItemStatusStaleAck "not_inflight" (rq_RowAttempts req))
  else
    let nowMS := UnixMilli now in
    let base := if rq_RowVisibleAt req <? nowMS then nowMS else rq_RowVisibleAt req in
    let newDeadline := base + Milliseconds (cc_AckWait (rq_Config req)) in
    let maxHold := rq_RowDeliveredAt req + Milliseconds (rq_MaxAckWait req) in
    if maxHold <? newDeadline then Err (E ErrBadRequest "extend past max-ack-wait")
    else Ok (plan_ok ActionExtend newDeadline).

Definition PlanSettle (req : SettleRequest) (now : Z) : result SettlePlan :=
  let tok := rq_Token req in
  if negb (Token.Generation tok =? rq_Generation req)
  then Ok (plan_rejected ItemStatusWrongGen "generation" 0)
  else if negb (rq_RowPresent req) then
    if Token.Seq tok <? rq_CursorSeq req
    then Ok (plan_rejected ItemStatusStale "" 0)
    else Ok (plan_rejected ItemStatusUnknown "" 0)
  else if negb (Token.Attempt tok =? rq_RowAttempts req)
  then Ok (plan_rejected ItemStatusStaleAck
             (if rq_RowAttempts req <? Token.Attempt tok then "future_attempt" else "")
             (rq_RowAttempts req))
  else if bool_decide (rq_Verb req = VerbAck) then Ok (planAck req now)
  else if bool_decide (rq_Verb req = VerbNak) then planNak req now
  else if bool_decide (rq_Verb req = VerbTerm) then Ok planTerm
  else if bool_decide (rq_Verb req = VerbExtend) then planExtend req now
  else Err (E ErrBadRequest "verb").

(** ** sweep.go *)

Record ConsumerKey : Set := MkConsumerKey { key_Stream : string; key_Consumer : string }.

#[global] Instance ConsumerKey_eq_dec : EqDecision ConsumerKey.
Proof. solve_decision. Defined.

Record SweepRow : Set := MkSweepRow {
  sr_Key : ConsumerKey;
  sr_Seq : Z;
  sr_Subject : string;
  sr_Attempts : Z;
  sr_Generation : Z;
  sr_VisibleAt : Z;
  sr_DeliveredAt : Z;
  sr_LastReason : string;
  sr_MsgID : string;
  sr_TraceID : string
}.

Record SweepPolicy : Set := MkSweepPolicy {
  sp_AckWait : Z;
  sp_MaxDeliver : Z;
  sp_Backoff : list Z;
  sp_Generation : Z
}.

Inductive SweepAction : Set := SweepSkip | SweepDead | SweepRedeliver.

#[global] Instance SweepAction_eq_dec : EqDecision SweepAction.
Proof. solve_decision. Defined.

Record SweepDecision : Set := MkSweepDecision {
  sd_Action : SweepAction;
  sd_VisibleAt : Z;
  sd_DelayMS : Z;
  sd_ScheduleMS : Z;
  sd_Cause : string;
  sd_Trigger : string;
  sd_HeldMS : Z;
  sd_LatenessMS : Z;
  sd_Skip : string
}.

(** A configuration carrying only the schedule. *)
Definition cForSchedule (p : SweepPolicy) : ConsumerConfig :=
  {| cc_Name := ""; cc_Filters := []; cc_AckWait := 0; cc_MaxDeliver := 0;
     cc_MaxAckPending := 0; cc_Backoff := sp_Backoff p; cc_DeadPolicy := ""; cc_Paused := false |}.

Definition DecideSweep (r : SweepRow) (p : SweepPolicy) (nowMS : Z) (j : Jitter) : SweepDecision :=
  let held := if nowMS - sr_DeliveredAt r <? 0 then 0 else nowMS - sr_DeliveredAt r in
  let lateness := if nowMS - sr_VisibleAt r <? 0 then 0 else nowMS - sr_VisibleAt r in
  if nowMS <? sr_VisibleAt r then
    {| sd_Action := SweepSkip; sd_VisibleAt := 0; sd_DelayMS := 0; sd_ScheduleMS := 0; sd_Cause := "";
       sd_Trigger := ""; sd_HeldMS := held; sd_LatenessMS := lateness; sd_Skip := "not_expired" |}
  else if negb (sr_Generation r =? sp_Generation p) then
    {| sd_Action := SweepSkip; sd_VisibleAt := 0; sd_DelayMS := 0; sd_ScheduleMS := 0; sd_Cause := "";
       sd_Trigger := ""; sd_HeldMS := held; sd_LatenessMS := lateness; sd_Skip := "generation" |}
  else if (0 <? sp_MaxDeliver p) && (sp_MaxDeliver p <=? sr_Attempts r) then
    {| sd_Action := SweepDead; sd_VisibleAt := 0; sd_DelayMS := 0; sd_ScheduleMS := 0;
       sd_Cause := DeadCauseMaxDeliver;
       sd_Trigger := if sp_MaxDeliver p <? sr_Attempts r then "policy_lowered" else "ack_wait";
       sd_HeldMS := held; sd_LatenessMS := lateness; sd_Skip := "" |}
  else
    let base := BackoffFor (cForSchedule p) (sr_Attempts r) in
    let delay := match j with Some f => f base | None => base end in
    {| sd_Action := SweepRedeliver; sd_VisibleAt := nowMS + Milliseconds delay;
       sd_DelayMS := Milliseconds delay; sd_ScheduleMS := Milliseconds base; sd_Cause := "";
       sd_Trigger := "ack_wait"; sd_HeldMS := held; sd_LatenessMS := lateness; sd_Skip := "" |}.

(** ** The transition table (docs/SEMANTICS.md, S3.3 and S6.1) *)

(** The fence of S3.3: the generation matches, the row exists, the attempt matches. *)
Definition fenced (req : SettleRequest) : Prop :=
  Token.Generation (rq_Token req) = rq_Generation req /\ rq_RowPresent req = true /\
  Token.Attempt (rq_Token req) = rq_RowAttempts req.

(** The delivery bound of T4, T5 and T8 (clarification C4). *)
Definition at_bound (max_deliver attempts : Z) : Prop := 0 < max_deliver /\ max_deliver <= attempts.

(** The outcomes T3 to T7 allow for a settle at instant [now]. *)
Inductive settles (req : SettleRequest) (now : Z) : SettlePlan -> Prop :=
| T3b_generation :
    Token.Generation (rq_Token req) <> rq_Generation req ->
    settles req now (plan_rejected ItemStatusWrongGen "generation" 0)
| T3a_resolved :
    Token.Generation (rq_Token req) = rq_Generation req -> rq_RowPresent req = false ->
    Token.Seq (rq_Token req) < rq_CursorSeq req ->
    settles req now (plan_rejected ItemStatusStale "" 0)
| T3a_never_delivered :
    Token.Generation (rq_Token req) = rq_Generation req -> rq_RowPresent req = false ->
    rq_CursorSeq req <= Token.Seq (rq_Token req) ->
    settles req now (plan_rejected ItemStatusUnknown "" 0)
| T3b_old_attempt :
    Token.Generation (rq_Token req) = rq_Generation req -> rq_RowPresent req = true ->
    Token.Attempt (rq_Token req) < rq_RowAttempts req ->
    settles req now (plan_rejected ItemStatusStaleAck "" (rq_RowAttempts req))
| T3b_future_attempt :
    Token.Generation (rq_Token req) = rq_Generation req -> rq_RowPresent req = true ->
    rq_RowAttempts req < Token.Attempt (rq_Token req) ->
    settles req now (plan_rejected ItemStatusStaleAck "future_attempt" (rq_RowAttempts req))
| T3_ack :
    fenced req -> rq_Verb req = VerbAck -> settles req now (planAck req now)
| T4_nak_inflight delay :
    fenced req -> rq_Verb req = VerbNak -> rq_RowState req = StateInflight ->
    ~ at_bound (cc_MaxDeliver (rq_Config req)) (rq_RowAttempts req) ->
    ReleaseDelay (rq_Config req) (rq_RowAttempts req) (rq_NakDelay req) (rq_Jitter req) = Ok delay ->
    settles req now (plan_ok ActionRelease (UnixMilli (now + delay)))
| T4_nak_ready delay :
    fenced req -> rq_Verb req = VerbNak -> rq_RowState req = StateReady ->
    ReleaseDelay (rq_Config req) (rq_RowAttempts req) (rq_NakDelay req) (rq_Jitter req) = Ok delay ->
    settles req now (plan_ok ActionRelease (Z.min (rq_RowVisibleAt req) (UnixMilli (now + delay))))
| T5_nak_exhausted delay :
    fenced req -> rq_Verb req = VerbNak -> rq_RowState req = StateInflight ->
    at_bound (cc_MaxDeliver (rq_Config req)) (rq_RowAttempts req) ->
    ReleaseDelay (rq_Config req) (rq_RowAttempts req) (rq_NakDelay req) (rq_Jitter req) = Ok delay ->
    settles req now (plan_dead DeadCauseMaxDeliver)
| T6_term :
    fenced req -> rq_Verb req = VerbTerm -> settles req now (plan_dead DeadCauseTerminated)
| T7_extend newDeadline :
    fenced req -> rq_Verb req = VerbExtend -> rq_RowState req = StateInflight ->
    newDeadline = Z.max (rq_RowVisibleAt req) (UnixMilli now) + Milliseconds (cc_AckWait (rq_Config req)) ->
    newDeadline - rq_RowDeliveredAt req <= Milliseconds (rq_MaxAckWait req) ->
    settles req now (plan_ok ActionExtend newDeadline)
| T7_not_inflight :
    fenced req -> rq_Verb req = VerbExtend -> rq_RowState req = StateReady ->
    settles req now (plan_rejected ItemStatusStaleAck "not_inflight" (rq_RowAttempts req)).

(** The refusals of T4 and T7, and the closed set of verbs. *)
Inductive settle_refused (req : SettleRequest) (now : Z) : Prop :=
| refuse_delay d :
    fenced req -> rq_Verb req = VerbNak -> rq_NakDelay req = Some d ->
    ~ (0 <= d <= MaxNakDelay) -> settle_refused req now
| refuse_extend :
    fenced req -> rq_Verb req = VerbExtend -> rq_RowState req = StateInflight ->
    Milliseconds (rq_MaxAckWait req) <
      Z.max (rq_RowVisibleAt req) (UnixMilli now) + Milliseconds (cc_AckWait (rq_Config req))
      - rq_RowDeliveredAt req ->
    settle_refused req now
| refuse_verb :
    fenced req -> rq_Verb req ∉ [VerbAck; VerbNak; VerbTerm; VerbExtend] -> settle_refused req now.

(** ** Facts *)

Create HintDb settle.
#[local] Hint Constructors settles settle_refused : settle.
#[local] Hint Unfold fenced at_bound : settle.

Lemma ReleaseDelay_err c a explicit j e :
  ReleaseDelay c a explicit j = Err e ->
  exists d, explicit = Some d /\ ~ (0 <= d <= MaxNakDelay) /\ is_kind ErrBadRequest e = true.
Proof.
  unfold ReleaseDelay. destruct explicit as [d|]; [|by destruct j].
  case_match; [|done]. intros [= <-]. exists d. bool_prop. split_and!; [done|lia|done].
Qed.

Lemma ReleaseDelay_explicit c a d j x :
  ReleaseDelay c a (Some d) j = Ok x -> x = d /\ 0 <= d <= MaxNakDelay.
Proof. unfold ReleaseDelay. case_match; [done|]. intros [= <-]. bool_prop. lia. Qed.

Lemma planNak_settles req now :
  fenced req -> rq_Verb req = VerbNak ->
  rq_RowState req = StateReady \/ rq_RowState req = StateInflight ->
  match planNak req now with
  | Ok plan => settles req now plan
  | Err e => settle_refused req now /\ is_kind ErrBadRequest e = true
  end.
Proof.
  intros Hf Hv Hst. unfold planNak.
  destruct (ReleaseDelay _ _ _ _) as [delay|e] eqn:Hd; simpl; [|apply ReleaseDelay_err in Hd;
    destruct Hd as (d & Hd & Hr & Hk); split; [by eapply refuse_delay|done]].
  destruct Hst as [Hst|Hst]; rewrite Hst; simpl.
  - replace (if _ <? _ then _ else _) with (Z.min (rq_RowVisibleAt req) (UnixMilli (now + delay)))
      by (case_match; bool_prop; lia). by eapply T4_nak_ready.
  - destruct (_ && _) eqn:Hb; bool_prop; eauto with settle.
    eapply T4_nak_inflight; eauto. unfold at_bound. lia.
Qed.

Lemma planExtend_settles req now :
  fenced req -> rq_Verb req = VerbExtend ->
  rq_RowState req = StateReady \/ rq_RowState req = StateInflight ->
  match planExtend req now with
  | Ok plan => settles req now plan
  | Err e => settle_refused req now /\ is_kind ErrBadRequest e = true
  end.
Proof.
  intros Hf Hv Hst. unfold planExtend.
  destruct Hst as [Hst|Hst]; rewrite Hst; simpl; [eauto with settle|].
  replace (if _ <? UnixMilli now then _ else _)
    with (Z.max (rq_RowVisibleAt req) (UnixMilli now)) by (case_match; bool_prop; lia).
  destruct (_ <? _) eqn:Hcap; bool_prop.
  - split; [|done]. eapply refuse_extend; eauto. lia.
  - eapply T7_extend; eauto. lia.
Qed.

Lemma PlanSettle_classified req now :
  rq_RowState req = StateReady \/ rq_RowState req = StateInflight ->
  match PlanSettle req now with
  | Ok plan => settles req now plan
  | Err e => settle_refused req now /\ is_kind ErrBadRequest e = true
  end.
Proof.
  intros Hst. unfold PlanSettle.
  destruct (negb (_ =? rq_Generation req)) eqn:Hg; bool_prop; [by constructor|].
  destruct (rq_RowPresent req) eqn:Hp; simpl; [|destruct (_ <? _) eqn:Hc; bool_prop; by constructor].
  destruct (negb (_ =? rq_RowAttempts req)) eqn:Ha; bool_prop.
  { destruct (_ <? _) eqn:Hc; bool_prop; constructor; auto; lia. }
  assert (fenced req) as Hf by done.
  repeat case_bool_decide.
  - by apply T3_ack.
  - by apply planNak_settles.
  - by apply T6_term.
  - by apply planExtend_settles.
  - split; [|done]. apply refuse_verb; [done|]. set_solver.
Qed.

(** The table is deterministic, and disjoint from the refusals. *)
Lemma settles_deterministic req now p q : settles req now p -> settles req now q -> p = q.
Proof.
  unfold VerbAck, VerbNak, VerbTerm, VerbExtend, StateReady, StateInflight.
  destruct 1; destruct 1; unfold fenced, at_bound, VerbAck, VerbNak, VerbTerm, VerbExtend,
    StateReady, StateInflight in *; destruct_and?; simplify_eq; try done; try lia; congruence.
Qed.

Lemma settles_not_refused req now p : settles req now p -> settle_refused req now -> False.
Proof.
  destruct 1; destruct 1; unfold fenced, VerbAck, VerbNak, VerbTerm, VerbExtend, StateReady,
    StateInflight in *; destruct_and?; simplify_eq; try lia; try set_solver;
    match goal with H : ReleaseDelay _ _ _ _ = Ok _, Hn : rq_NakDelay _ = Some _ |- _ =>
      rewrite Hn in H; apply ReleaseDelay_explicit in H; lia | _ => idtac end; congruence.
Qed.

(** An outcome of the table mutates exactly when it is OK, and then it is
    fenced; only an in-flight row is extended. *)
Lemma settles_status req now p :
  settles req now p ->
  (Status p = ItemStatusOK /\ Action p <> ActionNoop /\ fenced req /\
     (Action p = ActionExtend -> rq_RowState req = StateInflight)) \/
  (Status p <> ItemStatusOK /\ Action p = ActionNoop).
Proof. destruct 1; simpl; first [by left|by right]. Qed.

(** ** Theorems *)


Definition sample_request (verb : string) (state attempts : Z) : SettleRequest :=
  {| rq_Verb := verb; rq_Token := Token.sample_token; rq_Generation := 1; rq_CursorSeq := 9000;
     rq_Config := DefaultConsumerConfig "billing"; rq_MaxAckWait := Hour; rq_RowPresent := true;
     rq_RowState := state; rq_RowAttempts := attempts; rq_RowVisibleAt := 31000;
     rq_RowDeliveredAt := 1000; rq_NakDelay := None; rq_Jitter := None |}.


(** fencing and lease safety of a planned settle (invariants I4 and I7): a
    plan that mutates anything was fenced on generation, row and attempt;
    a rejection plans no action; an extend never shortens the lease and never
    pushes the deadline past [max_ack_wait] from the claim; a nak of a READY row
    never defers it; and no plan releases an in-flight row that has used up
    [max_deliver]. *)
Lemma PlanSettle_safe (req : SettleRequest) (now : Z) (plan : SettlePlan) :
  PlanSettle req now = Ok plan -> 0 <= cc_AckWait (rq_Config req) ->
  (Action plan <> ActionNoop -> fenced req) /\
  (Action plan = ActionNoop <-> Status plan <> ItemStatusOK) /\
  (Action plan = ActionExtend ->
     rq_RowState req = StateInflight /\ rq_RowVisibleAt req <= NewVisibleAt plan /\
     UnixMilli now <= NewVisibleAt plan /\
     NewVisibleAt plan - rq_RowDeliveredAt req <= Milliseconds (rq_MaxAckWait req)) /\
  (Action plan = ActionRelease -> rq_RowState req = StateReady ->
     NewVisibleAt plan <= rq_RowVisibleAt req) /\
  (Action plan = ActionRelease -> rq_RowState req = StateInflight ->
     ~ at_bound (cc_MaxDeliver (rq_Config req)) (rq_RowAttempts req)).
Proof.
  intros Hp Haw. assert (0 <= Milliseconds (cc_AckWait (rq_Config req))) as Hms.
  { apply Z.quot_pos; [done|]. unfold Millisecond. lia. }
  revert Hp. unfold PlanSettle.
  destruct (negb (_ =? rq_Generation req)) eqn:Hg; bool_prop; [by intros [= <-]|].
  destruct (rq_RowPresent req) eqn:Hpr; simpl; [|destruct (_ <? _); by intros [= <-]].
  destruct (negb (_ =? rq_RowAttempts req)) eqn:Ha; bool_prop; [by intros [= <-]|].
  assert (fenced req) as Hf by done.
  repeat case_bool_decide; [by intros [= <-]| |by intros [= <-]| |done].
  - unfold planNak. rewrite rbind_ok. intros (delay & _ & Hr).
    destruct (rq_RowState req =? StateInflight) eqn:Hst; bool_prop; simpl in Hr.
    + destruct (_ && _) eqn:Hb in Hr; [by simplify_eq/=|].
      injection Hr as <-. rewrite Hst; simpl. bool_prop. split_and!; try done. unfold at_bound; lia.
    + injection Hr as <-. split_and!; try done. simpl. intros _ ->. simpl. case_match; bool_prop; lia.
  - unfold planExtend. destruct (negb _) eqn:Hst; bool_prop; [by intros [= <-]|].
    destruct (_ <? _) eqn:Hcap; [done|]. intros [= <-]; simpl. bool_prop.
    split_and!; try done. intros _. split_and!; try done; case_match; bool_prop; lia.
Qed.

(** an expired lease and an explicit nak apply one retry policy: for an
    expired in-flight row of the current generation, [DecideSweep] kills it
    exactly when a nak without delay would, with the same cause, and otherwise
    both schedule the same redelivery instant (schedule entries are whole
    milliseconds, as the consumer row stores them). *)
Lemma sweep_agrees_with_nak (r : SweepRow) (p : SweepPolicy) (req : SettleRequest) (nowMS : Z) :
  sr_VisibleAt r <= nowMS -> sr_Generation r = sp_Generation p ->
  rq_RowState req = StateInflight -> rq_RowAttempts req = sr_Attempts r ->
  cc_MaxDeliver (rq_Config req) = sp_MaxDeliver p -> cc_Backoff (rq_Config req) = sp_Backoff p ->
  Forall (fun d => 0 <= d /\ (Millisecond | d)) (sp_Backoff p) ->
  rq_NakDelay req = None -> rq_Jitter req = None ->
  let d := DecideSweep r p nowMS None in
  planNak req (nowMS * Millisecond) =
    Ok (match sd_Action d with
        | SweepDead => plan_dead (sd_Cause d)
        | _ => plan_ok ActionRelease (sd_VisibleAt d)
        end) /\ sd_Action d <> SweepSkip.
Proof.
  intros Hexp Hgen Hst Hatt Hmax Hbo Hwhole Hnd Hj. unfold DecideSweep, planNak. simpl.
  replace (nowMS <? sr_VisibleAt r) with false by (symmetry; apply Z.ltb_ge; lia).
  rewrite Hgen, Z.eqb_refl, Hnd, Hj, Hst, Hatt, Hmax. simpl.
  destruct (_ && _); simpl; [done|]. split; [|done]. do 2 f_equal.
  unfold BackoffFor. rewrite Hbo. cbn [cForSchedule cc_Backoff].
  set (base := match sp_Backoff p with [] => 0 | _ :: _ => _ end).
  assert (0 <= base /\ (Millisecond | base)) as [Hb0 [q Hq]].
  { unfold base. destruct (sp_Backoff p) as [|d b] eqn:Hb; [split; [lia|apply Z.divide_0_r]|].
    apply (proj1 (List.Forall_forall _ _) Hwhole), nth_In. simpl length.
    repeat case_match; bool_prop; lia. }
  unfold UnixMilli, Milliseconds. rewrite Z.quot_div_nonneg by (unfold Millisecond; lia).
  rewrite Hq, <-Z.mul_add_distr_r, !Z.div_mul by done. done.
Qed.

Definition sample_row : SweepRow :=
  {| sr_Key := MkConsumerKey "orders" "billing"; sr_Seq := 8412; sr_Subject := "orders.eu";
     sr_Attempts := 2; sr_Generation := 1; sr_VisibleAt := 31000; sr_DeliveredAt := 1000;
     sr_LastReason := ""; sr_MsgID := "01H"; sr_TraceID := "t" |}.

End Settle.
