(* ===== verification/ClientLease.v ===== *)
(** * The client's lease keeper

    [pkg/client/leases.go] with the configuration, the backoff and the lease of
    [pkg/client/worker.go]: one heap of leases ordered by the time of their next
    extend, one batched extend per window, and what becomes of each lease.

    Times and durations are nanoseconds.  The products of a duration with a
    float64 (the fraction of the ack wait, the jitter) are functions of the
    model; the heap of container/heap is a list in the order of [Less]. *)

From Stdlib Require Import QArith.
From stdpp Require Import gmap strings.
From S2P Require Import Prelude Policy Settle ClientErrors.
Open Scope Z_scope.

Module ClientLease.
Import ClientErrors.

Definition defaultFetchWait : Z := 30 * Second.
Definition defaultBackoffInitial : Z := 100 * Millisecond.
Definition defaultBackoffMax : Z := 30 * Second.
Definition defaultExtendWindow : Z := 250 * Millisecond.
Definition DefaultPublishBatchCap : Z := 1000.

(** ** Backoff *)

Record BackoffConfig : Set := MkBackoff { bk_Initial : Z; bk_Max : Z }.

Definition backoff_withDefaults (b : BackoffConfig) : BackoffConfig :=
  let initial := if bk_Initial b <=? 0 then defaultBackoffInitial else bk_Initial b in
  MkBackoff initial (if bk_Max b <? initial then defaultBackoffMax else bk_Max b).

Section Backoff.
Context (scale : Z -> Z).

Definition jitter (d : Z) : Z := if d <=? 0 then 0 else scale d.

Fixpoint next_loop (steps : nat) (b : BackoffConfig) (d : Z) : Z :=
  match steps with
  | O => jitter d
  | S steps => let d := wrap64 (d * 2) in if bk_Max b <=? d then jitter (bk_Max b) else next_loop steps b d
  end.

Definition next (b : BackoffConfig) (n : nat) : Z := next_loop (Nat.min n 16) b (bk_Initial b).
End Backoff.

(** ** Configuration *)

Inductive PanicPolicy : Set := NakAndContinue | TermOnPanic | Repanic.

Record WorkerConfig : Set := MkWorkerConfig {
  wc_Concurrency : Z; wc_Batch : Z; wc_Wait : Z; wc_Prefetch : bool; wc_ExtendAt : Q; wc_MaxLease : Z;
  wc_OnPanic : PanicPolicy; wc_AckWindow : Z; wc_AckRetries : Z; wc_Backoff : BackoffConfig; wc_DrainTimeout : Z; wc_FailFast : bool;
}.

Definition withDefaults (c : WorkerConfig) : WorkerConfig :=
  MkWorkerConfig (if wc_Concurrency c <=? 0 then 1 else wc_Concurrency c) (wc_Batch c)
    (if wc_Wait c =? 0 then defaultFetchWait else wc_Wait c) (wc_Prefetch c)
    (if Qle_bool (wc_ExtendAt c) 0 || Qle_bool 1 (wc_ExtendAt c) then 1 # 2 else wc_ExtendAt c) (wc_MaxLease c)
    (wc_OnPanic c) (wc_AckWindow c) (if wc_AckRetries c =? 0 then 3 else wc_AckRetries c) (backoff_withDefaults (wc_Backoff c))
    (if wc_DrainTimeout c =? 0 then defaultFetchWait else wc_DrainTimeout c) (wc_FailFast c).

(** ** Leases *)

(** The message a lease is for, as far as the keeper reads it. *)
Record delivered_msg : Set := MkReceived { dl_AckToken : string; dl_AckWaitMS : Z; dl_DeadlineMS : Z }.

Record lease : Set := MkLease {
  l_token : string; l_ackWait : Z; l_localDeadline : Z; l_nextExtendAt : Z; l_extends : Z; l_totalHeld : Z;
}.

#[export] Instance lease_eq_dec : EqDecision lease.
Proof. solve_decision. Defined.

Definition extendMargin (ackWait : Z) : Z :=
  let m := Z.quot ackWait 10 in
  if m <? 500 * Millisecond then 500 * Millisecond else if 5 * Second <? m then 5 * Second else m.

Inductive EventKind : Set :=
| EventExtended | EventLeaseLost | EventLeaseCapped | EventStaleAck | EventHandlerTimeout | EventClockSkew.

(** What the keeper touches: its heap, the tokens marked lost, the handlers it
    cancelled, the naks it forces, the counters and the events. *)
Record keeper : Type := MkKeeper {
  k_heap : list lease;
  k_lost : gset string;
  k_cancelled : gset string;
  k_forceNaks : list (string * string);
  k_extends : Z; k_leaselost : Z; k_leaked : Z; k_staleacks : Z;
  k_events : list (EventKind * string);
}.

Definition set_heap (h : list lease) (s : keeper) : keeper :=
  MkKeeper h (k_lost s) (k_cancelled s) (k_forceNaks s) (k_extends s) (k_leaselost s) (k_leaked s) (k_staleacks s) (k_events s).

Definition isLost (t : string) (s : keeper) : bool := bool_decide (t ∈ k_lost s).

(** [markLost] and what follows it when the token was not lost before. *)
Definition marked (t : string) (then_ : keeper -> keeper) (s : keeper) : keeper :=
  if isLost t s then s
  else then_ (MkKeeper (k_heap s) ({[t]} ∪ k_lost s) (k_cancelled s) (k_forceNaks s) (k_extends s) (k_leaselost s) (k_leaked s)
                (k_staleacks s) (k_events s)).

Definition cancel (t : string) (s : keeper) : keeper :=
  MkKeeper (k_heap s) (k_lost s) ({[t]} ∪ k_cancelled s) (k_forceNaks s) (k_extends s) (k_leaselost s) (k_leaked s) (k_staleacks s)
    (k_events s).

Definition emit (e : EventKind) (t : string) (s : keeper) : keeper :=
  MkKeeper (k_heap s) (k_lost s) (k_cancelled s) (k_forceNaks s) (k_extends s) (k_leaselost s) (k_leaked s) (k_staleacks s)
    (k_events s ++ [(e, t)]).

Definition loseLease (l : lease) (s : keeper) : keeper :=
  cancel (l_token l) (marked (l_token l) (fun s =>
    emit EventLeaseLost (l_token l)
      (MkKeeper (k_heap s) (k_lost s) (k_cancelled s) (k_forceNaks s) (k_extends s) (k_leaselost s + 1) (k_leaked s) (k_staleacks s)
         (k_events s))) s).

Definition leaked (e : EventKind) (t : string) (naks : list (string * string)) (s : keeper) : keeper :=
  emit e t (MkKeeper (k_heap s) (k_lost s) (k_cancelled s) (k_forceNaks s ++ naks) (k_extends s) (k_leaselost s) (k_leaked s + 1)
              (k_staleacks s) (k_events s)).

Definition capOut (l : lease) (s : keeper) : keeper :=
  cancel (l_token l) (marked (l_token l) (leaked EventLeaseCapped (l_token l) []) s).

(** [sent]: the forced nak went into the channel, not lost to an ended context. *)
Definition giveUp (sent : bool) (l : lease) (reason : string) (s : keeper) : keeper :=
  cancel (l_token l) (marked (l_token l) (leaked EventHandlerTimeout (l_token l) (if sent then [(l_token l, reason)] else [])) s).

(** ** The heap *)

Fixpoint push (l : lease) (h : list lease) : list lease :=
  match h with
  | [] => [l]
  | x :: h => if l_nextExtendAt l <? l_nextExtendAt x then l :: x :: h else x :: push l h
  end.

Definition find_lease (t : string) (h : list lease) : option lease := List.find (fun l => bool_decide (l_token l = t)) h.

Definition remove_lease (t : string) (h : list lease) : list lease := List.filter (fun l => negb (bool_decide (l_token l = t))) h.

(** The leases popped while the least is not after [windowEnd], and the rest. *)
Fixpoint pop_due (windowEnd : Z) (h : list lease) : list lease * list lease :=
  match h with
  | [] => ([], [])
  | x :: h' => if windowEnd <? l_nextExtendAt x then ([], h) else let '(due, rest) := pop_due windowEnd h' in (x :: due, rest)
  end.

(** ** Extending *)

(** The results of an extend: each token with its status. *)
Definition results : Set := list (string * string).

Definition is_capped (e : cerror) : bool :=
  match e with Wire e => Is e cErrExtendCapped | Local s => bool_decide (s = cErrExtendCapped) | _ => false end.

Inductive extend_failure : Set := Capped | Refusal | errUnreachableExtend.

Section Keeper.
Context (fmul : Z -> Q -> Z) (cfg : WorkerConfig).

Definition schedule (ackWait now localDeadline : Z) : Z :=
  let next := now + fmul ackWait (wc_ExtendAt cfg) in
  let cap := localDeadline - extendMargin ackWait in
  if cap <? next then cap else next.

Definition newLease (m : delivered_msg) (now : Z) : lease :=
  let ackWait := wrap64 (dl_AckWaitMS m * Millisecond) in
  MkLease (dl_AckToken m) ackWait (now + ackWait) (schedule ackWait now (now + ackWait)) 0 0.

(** A lease the broker extended, at the [now] the window was opened with. *)
Definition extended (l : lease) (now : Z) : lease :=
  let deadline := l_localDeadline l + l_ackWait l in
  MkLease (l_token l) (l_ackWait l) deadline (schedule (l_ackWait l) now deadline) (l_extends l + 1) (l_totalHeld l + l_ackWait l).

(** The n-th call of Extend answers [answer n] and returns at [clock n]; the
    wait after it is cut short by the context when [waited n] is false. *)
Fixpoint extend_loop (fuel attempt : nat) (answer : nat -> cerror + results) (clock : nat -> Z) (waited : nat -> bool) (giveUpBy : Z)
  : option (extend_failure + results) :=
  match fuel with
  | O => None
  | S fuel =>
      match answer attempt with
      | inr res => Some (inr res)
      | inl e =>
          if is_capped e then Some (inl Capped)
          else match Classify (Some e) with
               | KindUnavailable | KindTimeout =>
                   if negb (clock attempt <? giveUpBy) then Some (inl errUnreachableExtend)
                   else if negb (waited attempt) then Some (inl errUnreachableExtend)
                   else extend_loop fuel (S attempt) answer clock waited giveUpBy
               | _ => Some (inl Refusal)
               end
      end
  end.

Definition giveUpBy (live : list lease) : option Z :=
  match live with
  | [] => None
  | l :: ls => Some (foldl (fun e x => if l_localDeadline x <? e then l_localDeadline x else e) (l_localDeadline l) ls - extendMargin (l_ackWait l))
  end.

(** The status the answer gives a token: the last of equal tokens, unknown if absent. *)
Definition status_of (t : string) (res : results) : option string := snd <$> List.find (fun x => bool_decide (x.1 = t)) (rev res).

Definition count_extend (s : keeper) : keeper :=
  MkKeeper (k_heap s) (k_lost s) (k_cancelled s) (k_forceNaks s) (k_extends s + 1) (k_leaselost s) (k_leaked s) (k_staleacks s) (k_events s).

Definition count_stale (s : keeper) : keeper :=
  MkKeeper (k_heap s) (k_lost s) (k_cancelled s) (k_forceNaks s) (k_extends s) (k_leaselost s) (k_leaked s) (k_staleacks s + 1) (k_events s).

(** One live lease under the answer: requeued, or fenced. *)
Definition answer_lease (now : Z) (res : results) (l : lease) (acc : list lease * keeper) : list lease * keeper :=
  let '(requeue, s) := acc in
  match status_of (l_token l) res with
  | Some st =>
      if bool_decide (st = "ok") then (requeue ++ [extended l now], count_extend s)
      else if bool_decide (st = "stale") || bool_decide (st = "stale_ack")
      then (requeue, loseLease l (emit EventStaleAck (l_token l) (count_stale s)))
      else (requeue, loseLease l s)
  | None => (requeue, loseLease l s)
  end.

Definition over_held (l : lease) : bool := (0 <? wc_MaxLease cfg) && (wc_MaxLease cfg <? l_totalHeld l + l_ackWait l).

(** [extendDue], with the outcome of [extendWithRetry] on the live leases;
    [sent] is asked once per forced nak. *)
Definition extendDue (now : Z) (outcome : list lease -> extend_failure + results) (sent : string -> bool) (s : keeper) : keeper :=
  let '(due, rest) := pop_due (now + defaultExtendWindow) (k_heap s) in
  let s := set_heap rest s in
  let s := foldl (fun s l => if over_held l then giveUp (sent (l_token l)) l "lease expired" s else s) s due in
  let live := List.filter (fun l => negb (over_held l)) due in
  if bool_decide (live = []) then s
  else match outcome live with
       | inl Capped => foldl (fun s l => capOut l s) s live
       | inl _ => foldl (fun s l => loseLease l s) s live
       | inr res =>
           let '(requeue, s) := foldl (fun acc l => answer_lease now res l acc) ([], s) live in
           let s := set_heap (foldl (fun h l => push l h) (k_heap s) requeue) s in
           if bool_decide (requeue = []) then s else emit EventExtended "" s
       end.

(** The drain deadline: everything still held is given up. *)
Definition drain_expired (sent : string -> bool) (s : keeper) : keeper :=
  foldl (fun s l => giveUp (sent (l_token l)) l "worker draining" s) s (k_heap s).


(** ** Fencing *)

Definition tokens_of (ls : list lease) : gset string := list_to_set (map l_token ls).

(** What the three ways to end a lease share. *)
Record fences (f : lease -> keeper -> keeper) : Prop := {
  fence_heap : forall l s, k_heap (f l s) = k_heap s;
  fence_lost : forall l s, k_lost (f l s) = {[l_token l]} ∪ k_lost s;
  fence_cancelled : forall l s, k_cancelled (f l s) = {[l_token l]} ∪ k_cancelled s;
}.

Lemma marked_fences (g : lease -> keeper -> keeper) :
  (forall l s, k_heap (g l s) = k_heap s /\ k_lost (g l s) = k_lost s /\ k_cancelled (g l s) = k_cancelled s) ->
  fences (fun l s => cancel (l_token l) (marked (l_token l) (g l) s)).
Proof.
  intros Hg. split; intros l s; unfold marked, isLost; case_bool_decide as Hl; simpl; rewrite ?(proj1 (Hg l _)),
    ?(proj1 (proj2 (Hg l _))), ?(proj2 (proj2 (Hg l _))); simpl; try done. set_solver.
Qed.

Lemma loseLease_fences : fences loseLease.
Proof. apply (marked_fences (fun l s => emit EventLeaseLost (l_token l) _)). done. Qed.

Lemma capOut_fences : fences capOut.
Proof. by apply (marked_fences (fun l => leaked EventLeaseCapped (l_token l) [])). Qed.

Lemma giveUp_fences sent reason : fences (fun l => giveUp (sent (l_token l)) l reason).
Proof. by apply (marked_fences (fun l => leaked EventHandlerTimeout (l_token l) (if sent (l_token l) then [(l_token l, reason)] else []))). Qed.

(** The state after the leases [ls] were fenced. *)
Definition fenced (ls : list lease) (s s' : keeper) : Prop :=
  k_heap s' = k_heap s /\ k_lost s' = tokens_of ls ∪ k_lost s /\ k_cancelled s' = tokens_of ls ∪ k_cancelled s.

Lemma fenced_same s s' : k_heap s' = k_heap s -> k_lost s' = k_lost s -> k_cancelled s' = k_cancelled s -> fenced [] s s'.
Proof. unfold fenced, tokens_of. simpl. intros -> -> ->. split; [done|]. split; set_solver. Qed.

Lemma fenced_nil s : fenced [] s s.
Proof. by apply fenced_same. Qed.

Lemma fenced_app ls ls' s s' s'' : fenced ls s s' -> fenced ls' s' s'' -> fenced (ls ++ ls') s s''.
Proof. unfold fenced, tokens_of. intros (-> & Hl & Hc) (-> & -> & ->). rewrite map_app, list_to_set_app_L, Hl, Hc. split; [done|]. split; set_solver. Qed.

Lemma fence_one f l s : fences f -> fenced [l] s (f l s).
Proof. intros [Hh Hl Hc]. unfold fenced, tokens_of. simpl. rewrite Hh, Hl, Hc. split; [done|]. split; set_solver. Qed.

Lemma fence_fold f ls s : fences f -> fenced ls s (foldl (fun s l => f l s) s ls).
Proof.
  intros Hf. revert s. induction ls as [|l ls IH]; intros s; simpl; [apply fenced_nil|].
  apply (fenced_app [l] ls s (f l s)); [by apply fence_one|apply IH].
Qed.

Lemma fence_fold_filter f (p : lease -> bool) ls s :
  fences f -> fenced (List.filter p ls) s (foldl (fun s l => if p l then f l s else s) s ls).
Proof.
  intros Hf. revert s. induction ls as [|l ls IH]; intros s; simpl; [apply fenced_nil|].
  destruct (p l); [|apply IH]. apply (fenced_app [l] _ s (f l s)); [by apply fence_one|apply IH].
Qed.

(** ** The heap is the leases by time *)

Definition earlier (a b : lease) : Prop := l_nextExtendAt a <= l_nextExtendAt b.

Lemma push_perm l h : push l h ≡ₚ l :: h.
Proof. induction h as [|x h IH]; simpl; [done|]. destruct (_ <? _); [done|]. rewrite IH. apply Permutation_swap. Qed.

Lemma push_sorted l h : StronglySorted earlier h -> StronglySorted earlier (push l h).
Proof.
  induction 1 as [|x h Hs IH Hx]; simpl; [by repeat constructor|]. destruct (l_nextExtendAt l <? l_nextExtendAt x) eqn:Hlt; bool_prop.
  - constructor; [by constructor|]. constructor; [unfold earlier; lia|]. eapply Forall_impl; [exact Hx|]. unfold earlier. intros. lia.
  - constructor; [done|]. rewrite push_perm. constructor; [unfold earlier; lia|done].
Qed.

Lemma push_all_perm h ls : foldl (fun h l => push l h) h ls ≡ₚ h ++ ls.
Proof. revert h. induction ls as [|l ls IH]; intros h; simpl; [by rewrite app_nil_r|]. rewrite IH, push_perm. by rewrite <-Permutation_middle. Qed.

Lemma push_all_sorted h ls : StronglySorted earlier h -> StronglySorted earlier (foldl (fun h l => push l h) h ls).
Proof. revert h. induction ls as [|l ls IH]; intros h Hh; simpl; [done|]. by apply IH, push_sorted. Qed.

Lemma pop_due_spec windowEnd h due rest :
  StronglySorted earlier h -> pop_due windowEnd h = (due, rest) ->
  h = due ++ rest /\ Forall (fun l => l_nextExtendAt l <= windowEnd) due /\ Forall (fun l => windowEnd < l_nextExtendAt l) rest /\
  StronglySorted earlier rest.
Proof.
  intros Hs. revert due rest. induction Hs as [|x h Hs IH Hx]; intros due rest; simpl; [intros [= <- <-]; by repeat constructor|].
  destruct (windowEnd <? l_nextExtendAt x) eqn:Hlt; bool_prop.
  - intros [= <- <-]. split; [done|]. split; [done|]. split; [|by constructor]. constructor; [done|].
    eapply Forall_impl; [exact Hx|]. unfold earlier. intros. lia.
  - destruct (pop_due windowEnd h) as [due' rest'] eqn:Hp. intros [= <- <-]. destruct (IH _ _ eq_refl) as (-> & Hd & Hr & Hsr).
    split; [done|]. split; [by constructor|]. done.
Qed.

(** ** One window *)

Definition kept_by (res : results) (l : lease) : bool := bool_decide (status_of (l_token l) res = Some "ok").

Lemma answer_lease_spec now res live requeue s :
  let '(requeue', s') := foldl (fun acc l => answer_lease now res l acc) (requeue, s) live in
  requeue' = requeue ++ map (fun l => extended l now) (List.filter (kept_by res) live) /\
  fenced (List.filter (fun l => negb (kept_by res l)) live) s s'.
Proof.
  revert requeue s. induction live as [|l live IH]; intros requeue s; [simpl; rewrite app_nil_r; split; [done|apply fenced_nil]|].
  cbn [foldl List.filter].
  assert (Hstep : exists rq1 s1, answer_lease now res l (requeue, s) = (rq1, s1) /\
    (if kept_by res l then rq1 = requeue ++ [extended l now] /\ fenced [] s s1 else rq1 = requeue /\ fenced [l] s s1)).
  { unfold answer_lease, kept_by. destruct (status_of (l_token l) res) as [st|].
    - case_bool_decide as Hst; [subst; rewrite bool_decide_true by done; eexists _, _; split; [done|]; split; [done|by apply fenced_same]|].
      rewrite (bool_decide_false (Some st = Some "ok")) by congruence.
      destruct (_ || _); eexists _, _; (split; [reflexivity|]); (split; [done|]); [|apply fence_one, loseLease_fences].
      apply (fenced_app [] [l] s (emit EventStaleAck (l_token l) (count_stale s))); [by apply fenced_same|apply fence_one, loseLease_fences].
    - eexists _, _. split; [reflexivity|]. rewrite bool_decide_false by done. split; [done|apply fence_one, loseLease_fences]. }
  destruct Hstep as (rq1 & s1 & -> & Hs1). specialize (IH rq1 s1). destruct (foldl _ (rq1, s1) live) as [requeue' s'].
  destruct IH as [-> Hf]. destruct (kept_by res l); simpl; destruct Hs1 as [-> Hs1].
  - rewrite <-app_assoc. split; [done|]. by apply (fenced_app [] _ s s1).
  - split; [done|]. by apply (fenced_app [l] _ s s1).
Qed.

Lemma filter_split {A} (p : A -> bool) (l : list A) : List.filter p l ++ List.filter (fun x => negb (p x)) l ≡ₚ l.
Proof.
  induction l as [|x l IH]; simpl; [done|]. destruct (p x); simpl; [by rewrite IH|]. by rewrite <-Permutation_middle, IH.
Qed.

(** Of the leases due, those the broker is asked about, and whether it extends one. *)
Definition asked_of (now : Z) (s : keeper) : list lease :=
  List.filter (fun l => negb (over_held l)) (pop_due (now + defaultExtendWindow) (k_heap s)).1.

Definition granted (answer : extend_failure + results) (l : lease) : bool :=
  negb (over_held l) && match answer with inr res => kept_by res l | inl _ => false end.

Lemma granted_filter res due :
  List.filter (kept_by res) (List.filter (fun l => negb (over_held l)) due) = List.filter (granted (inr res)) due.
Proof. unfold granted. induction due as [|l due IH]; simpl; [done|]. destruct (over_held l); simpl; [done|]. destruct (kept_by res l); by rewrite IH. Qed.

Lemma tokens_of_perm ls ls' : ls ≡ₚ ls' -> tokens_of ls = tokens_of ls'.
Proof. unfold tokens_of. intros Hp. apply list_to_set_perm_L. by apply Permutation_map. Qed.

Lemma filter_none {A} (p : A -> bool) l : (forall x, x ∈ l -> p x = false) -> List.filter p l = [].
Proof. induction l as [|x l IH]; intros Hp; simpl; [done|]. rewrite Hp by set_solver. apply IH. set_solver. Qed.

(** A window splits the leases that are due: those the broker grants are
    extended and pushed back on what was not due, the others fenced. *)
Lemma extendDue_splits now outcome sent s due rest :
  pop_due (now + defaultExtendWindow) (k_heap s) = (due, rest) ->
  let kept := granted (outcome (asked_of now s)) in
  let gone := List.filter (fun l => negb (kept l)) due in
  k_heap (extendDue now outcome sent s) = foldl (fun h l => push l h) rest (map (fun l => extended l now) (List.filter kept due)) /\
  k_lost (extendDue now outcome sent s) = tokens_of gone ∪ k_lost s /\
  k_cancelled (extendDue now outcome sent s) = tokens_of gone ∪ k_cancelled s.
Proof.
  intros Hp kept gone. unfold extendDue. subst kept gone. unfold asked_of. rewrite Hp. cbn [fst].
  pose proof (fence_fold_filter _ over_held due (set_heap rest s) (giveUp_fences sent "lease expired")) as H1. cbv beta in H1.
  set (s1 := foldl _ (set_heap rest s) due) in *. clearbody s1. destruct H1 as (Hh1 & Hl1 & Hc1). cbn in Hh1, Hl1, Hc1.
  set (live := List.filter (fun l => negb (over_held l)) due). pose proof (filter_split over_held due) as Hsplit. fold live in Hsplit.
  assert (Hall : forall s' kept, fenced live s1 s' -> (forall l, l ∈ due -> kept l = false) ->
    k_heap s' = foldl (fun h l => push l h) rest (map (fun l => extended l now) (List.filter kept due)) /\
    k_lost s' = tokens_of (List.filter (fun l => negb (kept l)) due) ∪ k_lost s /\
    k_cancelled s' = tokens_of (List.filter (fun l => negb (kept l)) due) ∪ k_cancelled s).
  { intros s' kept (Hh & Hl & Hc) Hk. assert (Hnil : List.filter kept due = []) by (apply filter_none; done).
    rewrite Hnil. assert (Htok : tokens_of (List.filter (fun l => negb (kept l)) due) = tokens_of (List.filter over_held due ++ live)).
    { apply tokens_of_perm. pose proof (filter_split kept due) as Hk2. rewrite Hnil in Hk2. etrans; [exact Hk2|by symmetry]. }
    rewrite Htok, Hh, Hl, Hc, Hh1, Hl1, Hc1. split; [done|]. unfold tokens_of. rewrite map_app, list_to_set_app_L. split; set_solver. }
  case_bool_decide as Hnil.
  { apply Hall; [rewrite Hnil; apply fenced_nil|]. intros l Hin. unfold granted. destruct (over_held l) eqn:Ho; [done|]. exfalso.
    assert (l ∈ live) as Hx; [|rewrite Hnil in Hx; by apply elem_of_nil in Hx].
    unfold live. rewrite list_elem_of_In, filter_In, <-list_elem_of_In, Ho. done. }
  destruct (outcome live) as [[]|res] eqn:Hout;
    try (apply Hall; [apply fence_fold; apply capOut_fences || apply loseLease_fences|intros l _; unfold granted; apply andb_false_r]).
  pose proof (answer_lease_spec now res live [] s1) as Ha. destruct (foldl _ ([], s1) live) as [requeue s2]. destruct Ha as [-> (Hh2 & Hl2 & Hc2)].
  unfold live in Hl2, Hc2 |- *. rewrite granted_filter. fold live in Hl2, Hc2 |- *.
  assert (Htok : tokens_of (List.filter (fun l => negb (granted (inr res) l)) due)
    = tokens_of (List.filter over_held due ++ List.filter (fun l => negb (kept_by res l)) live)).
  { apply tokens_of_perm. apply (Permutation_app_inv_l (List.filter (granted (inr res)) due)).
    rewrite filter_split, <-granted_filter. fold live. rewrite (Permutation_app_comm (List.filter over_held due)), app_assoc, filter_split.
    by rewrite Permutation_app_comm. }
  rewrite Htok. case_bool_decide; cbn; rewrite Hh2, Hh1, Hl2, Hc2, Hl1, Hc1; (split; [done|]); unfold tokens_of; rewrite map_app, list_to_set_app_L; split; set_solver.
Qed.

(** ** The keeper's invariant *)

Record lease_ok (l : lease) : Prop := {
  lo_next : l_nextExtendAt l <= l_localDeadline l - extendMargin (l_ackWait l);
  lo_extends : 0 <= l_extends l;
  lo_held : l_totalHeld l = l_extends l * l_ackWait l;
  lo_max : 0 < wc_MaxLease cfg -> l_totalHeld l <= wc_MaxLease cfg;
}.

Record keeper_ok (s : keeper) : Prop := {
  ko_leases : Forall lease_ok (k_heap s);
  ko_tokens : NoDup (map l_token (k_heap s));
  ko_sorted : StronglySorted earlier (k_heap s);
  ko_lost : Forall (fun l => l_token l ∉ k_lost s) (k_heap s);
}.

Lemma schedule_margin a now d : schedule a now d <= d - extendMargin a.
Proof. unfold schedule. destruct (_ <? _) eqn:Hc; bool_prop; lia. Qed.

Lemma newLease_ok m now : lease_ok (newLease m now).
Proof. split; simpl; [apply schedule_margin|lia|lia|lia]. Qed.

Lemma extended_ok l now : lease_ok l -> over_held l = false -> lease_ok (extended l now).
Proof.
  intros [Hn He Hh Hm] Ho. unfold over_held in Ho. split; simpl; [apply schedule_margin|lia|lia|].
  intros Hp. rewrite (proj2 (Z.ltb_lt _ _) Hp) in Ho. simpl in Ho. bool_prop. lia.
Qed.

Lemma in_map_l {A B} (f : A -> B) x ls : x ∈ ls -> f x ∈ map f ls.
Proof. rewrite !list_elem_of_In. apply in_map. Qed.

Lemma tokens_of_elem t ls : t ∈ tokens_of ls <-> exists l, l ∈ ls /\ l_token l = t.
Proof. unfold tokens_of. rewrite elem_of_list_to_set, list_elem_of_fmap. naive_solver. Qed.

Lemma granted_held answer l : granted answer l = true -> over_held l = false.
Proof. unfold granted. destruct (over_held l); done. Qed.

(** The heap that extends the kept leases, and the tokens of the others lost. *)
Lemma window_ok s s' due rest (kept : lease -> bool) now :
  keeper_ok s -> k_heap s = due ++ rest -> (forall l, kept l = true -> over_held l = false) -> StronglySorted earlier rest ->
  k_heap s' = foldl (fun h l => push l h) rest (map (fun l => extended l now) (List.filter kept due)) ->
  k_lost s' = tokens_of (List.filter (fun l => negb (kept l)) due) ∪ k_lost s ->
  keeper_ok s' /\
  (forall l, l ∈ rest \/ (exists x, x ∈ due /\ kept x = true /\ l = extended x now) -> l ∈ k_heap s') /\
  (forall t, t ∈ k_lost s' -> t ∉ map l_token (k_heap s')) /\
  (forall l, (l ∈ due /\ kept l = true) \/ l ∈ rest -> l_token l ∉ k_lost s').
Proof.
  intros [Hok Hnd _ Hlost] Hsplit Hheld Hsr Hheap Hl. set (gone := List.filter (fun l => negb (kept l)) due) in *. set (ks := List.filter kept due) in *.
  assert (Hks : forall l, l ∈ ks <-> l ∈ due /\ kept l = true) by (intros l; unfold ks; rewrite !list_elem_of_In, filter_In; done).
  assert (Hheap' : k_heap s' ≡ₚ rest ++ map (fun l => extended l now) ks) by (rewrite Hheap; apply push_all_perm).
  assert (Hall : k_heap s ≡ₚ gone ++ ks ++ rest).
  { rewrite Hsplit, <-(filter_split kept due) at 1. fold ks gone. by rewrite (Permutation_app_comm ks gone), <-app_assoc. }
  rewrite Hall in Hok, Hlost. rewrite !Forall_app in Hok, Hlost. destruct Hok as (_ & Hok2 & Hok3), Hlost as (_ & Hl2 & Hl3).
  rewrite Hall, !map_app, !NoDup_app in Hnd. destruct Hnd as (Hnd1 & Hd1 & Hnd2 & Hd2 & Hnd3).
  assert (Htok : map l_token (k_heap s') ≡ₚ map l_token rest ++ map l_token ks) by (by rewrite Hheap', map_app, map_map).
  assert (Hfree : forall l, l ∈ ks \/ l ∈ rest -> l_token l ∉ k_lost s').
  { intros l Hin. rewrite Hl, not_elem_of_union. split.
    - intros (g & Hg & Ht)%tokens_of_elem. apply (Hd1 (l_token l)); [rewrite <-Ht; by apply in_map_l|].
      apply elem_of_app. destruct Hin; [left|right]; by apply in_map_l.
    - rewrite Forall_forall in Hl2. rewrite Forall_forall in Hl3. destruct Hin; auto. }
  split; [split|split; [|split]].
  - rewrite Hheap', Forall_app. split; [done|]. apply Forall_map. rewrite Forall_forall in *. intros l Hin. apply extended_ok; [auto|]. by apply Hheld, Hks.
  - rewrite Htok, NoDup_app. split; [done|]. split; [|done]. intros t Hr Hk. by apply (Hd2 t).
  - rewrite Hheap. by apply push_all_sorted.
  - rewrite Hheap', Forall_app, Forall_map. split; apply Forall_forall; intros l Hin; simpl; apply Hfree; auto.
  - intros l [Hr|(x & Hx & Hkx & ->)]; rewrite Hheap', elem_of_app; [by left|right]. apply (in_map_l (fun l => extended l now)), Hks. done.
  - intros t Ht Hin. rewrite Htok, elem_of_app in Hin.
    destruct Hin as [Hin|Hin]; rewrite list_elem_of_In, in_map_iff in Hin; destruct Hin as (l & <- & Hin); rewrite <-list_elem_of_In in Hin; by apply (Hfree l); auto.
  - intros l Hin. apply Hfree. rewrite Hks. tauto.
Qed.

(** An extend window accounts for every lease.  Started from a heap of
    distinct, unfenced leases in order of their next extend, whatever the broker
    answers (per-token results, a cap, a refusal, or nothing until the retries
    are spent), the window leaves such a heap; a lease that was not due within
    250 ms is untouched; a lease that was due is, when it is not over MaxLease
    and the broker, asked about it, answered ok, extended by exactly its ack wait
    and scheduled again, no later than its margin before its new deadline, with
    its handler left alone unless it had been cancelled before; and otherwise its
    token is fenced, so that its late outcome is discarded, its handler cancelled
    and its lease gone; and no lease is ever held past MaxLease. *)
Theorem extend_window_accounts now outcome sent s :
  keeper_ok s ->
  let s' := extendDue now outcome sent s in
  keeper_ok s' /\
  forall l, l ∈ k_heap s ->
    if now + defaultExtendWindow <? l_nextExtendAt l then l ∈ k_heap s' /\ l_token l ∉ k_lost s'
    else if granted (outcome (asked_of now s)) l
    then extended l now ∈ k_heap s' /\ l_token l ∉ k_lost s' /\ (l_token l ∈ k_cancelled s' -> l_token l ∈ k_cancelled s)
    else l_token l ∈ k_lost s' /\ l_token l ∈ k_cancelled s' /\ l_token l ∉ map l_token (k_heap s').
Proof.
  intros Hok s'. destruct (pop_due (now + defaultExtendWindow) (k_heap s)) as [due rest] eqn:Hp.
  destruct (pop_due_spec _ _ _ _ (ko_sorted _ Hok) Hp) as (Hsplit & Hdue & Hrest & Hsr).
  destruct (extendDue_splits now outcome sent s due rest Hp) as (Hheap & Hl & Hc). fold s' in Hheap, Hl, Hc.
  set (kept := granted (outcome (asked_of now s))) in *. clearbody s'.
  destruct (window_ok s s' due rest kept now Hok Hsplit (granted_held _) Hsr Hheap Hl) as (Hok' & Hin & Hout & Hfree). split; [done|].
  intros l Hl0. rewrite Hsplit, elem_of_app in Hl0. rewrite Forall_forall in Hdue, Hrest.
  destruct (now + defaultExtendWindow <? l_nextExtendAt l) eqn:Hw; bool_prop.
  - destruct Hl0 as [Hd|Hr]; [specialize (Hdue l Hd); simpl in Hdue; lia|]. split; [apply Hin; by left|apply Hfree; by right].
  - destruct Hl0 as [Hd|Hr]; [|specialize (Hrest l Hr); simpl in Hrest; lia]. destruct (kept l) eqn:Hk.
    + split; [apply Hin; right; by exists l|]. split; [apply Hfree; by left|]. rewrite Hc, elem_of_union. intros [Hx|]; [|done].
      exfalso. apply (Hfree l); [by left|]. rewrite Hl. set_solver.
    + assert (Hg : l_token l ∈ tokens_of (List.filter (fun l => negb (kept l)) due)).
      { apply tokens_of_elem. exists l. split; [|done]. by rewrite list_elem_of_In, filter_In, <-list_elem_of_In, Hk. }
      split; [rewrite Hl; set_solver|]. split; [rewrite Hc; set_solver|]. apply Hout. rewrite Hl. set_solver.
Qed.

(** ** The broker's deadline *)

(** A lease beside the visible_at of the broker's row, in milliseconds: claimed
    at [claimed] and received [latency] later, then extended any number of
    times, each time by a plan of the broker at some time of its own. *)
Inductive leased (latency : Z) : lease -> Z -> Prop :=
| leased_new m claimed received :
    received <= claimed + latency -> 0 <= dl_AckWaitMS m < 2 ^ 63 / Millisecond ->
    leased latency (newLease m received) (UnixMilli claimed + dl_AckWaitMS m)
| leased_extended l visible now req brokerNow plan :
    leased latency l visible -> Settle.rq_RowVisibleAt req = visible -> Policy.cc_AckWait (Settle.rq_Config req) = l_ackWait l ->
    Settle.planExtend req brokerNow = Ok plan -> Settle.Action plan = Settle.ActionExtend ->
    leased latency (extended l now) (Settle.NewVisibleAt plan).

Lemma leased_deadline latency l visible :
  leased latency l visible ->
  l_localDeadline l <= visible * Millisecond + latency + Millisecond /\ exists ms, l_ackWait l = ms * Millisecond /\ 0 <= ms.
Proof.
  induction 1 as [m claimed received Hr Hm|l visible now req brokerNow plan _ [IH (ms & Hms & Hpos)] Hv Ha Hp Hact].
  - simpl. assert (Hw : wrap64 (dl_AckWaitMS m * Millisecond) = dl_AckWaitMS m * Millisecond).
    { apply wrap64_id. unfold Millisecond in *. change (2 ^ 63 / 1000000) with 9223372036854 in Hm. lia. }
    rewrite Hw. split; [|eexists; split; [done|lia]].
    unfold UnixMilli. pose proof (Z.mod_pos_bound claimed Millisecond ltac:(done)). pose proof (Z.div_mod claimed Millisecond ltac:(done)).
    nia.
  - simpl. split; [|eauto]. revert Hp. unfold Settle.planExtend. destruct (negb _); [by intros [= <-]|]. destruct (_ <? _) eqn:Hmax; [done|].
    intros [= <-]. simpl. rewrite Hv, Ha, Hms. unfold Milliseconds. rewrite Z.quot_mul by done.
    destruct (visible <? UnixMilli brokerNow) eqn:Hlt; bool_prop; unfold Millisecond in *; lia.
Qed.

Lemma extendMargin_least a : 500 * Millisecond <= extendMargin a <= 5 * Second.
Proof. unfold extendMargin, Second, Millisecond. repeat (destruct (_ <? _) eqn:?; bool_prop); lia. Qed.

Lemma leased_next latency l visible : leased latency l visible -> l_nextExtendAt l <= l_localDeadline l - extendMargin (l_ackWait l).
Proof. by intros [? ? ?|? ? ? ? ? ? _ _ _ _ _]; apply schedule_margin. Qed.

(** The next extend is due before the broker lets the lease go.  For a
    delivery received within half a second (less the broker's rounding to a
    millisecond) of its claim, however often it has been extended since and
    whenever the broker made each extension, the keeper's next extend falls
    before the visible_at of the broker's row, by what the delay leaves of half
    a second. *)
Theorem extend_before_redelivery latency l visible :
  leased latency l visible ->
  l_nextExtendAt l <= visible * Millisecond - (500 * Millisecond - latency - Millisecond).
Proof.
  intros Hl. pose proof (leased_next _ _ _ Hl). destruct (leased_deadline _ _ _ Hl) as [Hd _].
  pose proof (extendMargin_least (l_ackWait l)). lia.
Qed.

(** ** Retrying an extend *)

(** The retries of an extend end.  If every wait between two attempts takes
    at least [pause], the loop returns within as many attempts as [pause] fits
    between the first answer and the time to give up, and two more, whatever the
    calls answer. *)
Theorem extend_retries_end answer clock waited giveUpBy pause :
  0 < pause -> (forall n, clock n + pause <= clock (S n)) ->
  exists r, extend_loop (Z.to_nat ((giveUpBy - clock O) / pause) + 2) 0 answer clock waited giveUpBy = Some r.
Proof.
  intros Hpause Hclock. enough (Hgen : forall fuel n, giveUpBy - clock n < Z.of_nat fuel * pause ->
    exists r, extend_loop (S fuel) n answer clock waited giveUpBy = Some r).
  { replace (Z.to_nat ((giveUpBy - clock O) / pause) + 2)%nat with (S (S (Z.to_nat ((giveUpBy - clock O) / pause)))) by lia.
    apply Hgen. pose proof (Z.mod_pos_bound (giveUpBy - clock O) pause Hpause). pose proof (Z.div_mod (giveUpBy - clock O) pause ltac:(lia)). nia. }
  induction fuel as [|fuel IH]; intros n Hn; cbn [extend_loop].
  - destruct (answer n) as [e|res]; [|eauto]. destruct (is_capped e); [eauto|]. rewrite (proj2 (Z.ltb_ge _ _)) by lia.
    destruct (Classify _); eauto.
  - destruct (answer n) as [e|res]; [|eauto]. destruct (is_capped e); [eauto|]. specialize (Hclock n). specialize (IH (S n) ltac:(lia)).
    destruct (Classify _); eauto; destruct (negb _); eauto; destruct (negb (waited n)); eauto.
Qed.

(** ** How long a lease is kept *)

(** A lease extended [k] times, each time exactly when it was due. *)
Fixpoint renewed (k : nat) (l : lease) : lease :=
  match k with O => l | S k => let l := renewed k l in extended l (l_nextExtendAt l) end.

Lemma renewed_spec m received k :
  let a := wrap64 (dl_AckWaitMS m * Millisecond) in
  let step := fmul a (wc_ExtendAt cfg) in
  0 <= step <= a - extendMargin a ->
  let l := renewed k (newLease m received) in
  l_ackWait l = a /\ l_totalHeld l = Z.of_nat k * a /\ l_localDeadline l = received + (Z.of_nat k + 1) * a /\
  l_nextExtendAt l = received + (Z.of_nat k + 1) * step.
Proof.
  intros a step Hstep. assert (Hsched : forall now d, now + step <= d - extendMargin a -> schedule a now d = now + step).
  { intros now d Hd. unfold schedule. fold step. destruct (_ <? _) eqn:Hc; bool_prop; lia. }
  induction k as [|k (Ha & Hh & Hd & Hn)].
  - simpl. fold a. rewrite Hsched by lia. repeat split; lia.
  - cbn [renewed extended l_ackWait l_totalHeld l_localDeadline l_nextExtendAt]. rewrite Ha, Hh, Hd, Hn.
    replace (Z.of_nat (S k)) with (Z.of_nat k + 1) by lia. split; [done|]. split; [ring|]. split; [ring|]. rewrite Hsched; [ring|].
    pose proof (proj1 (extendMargin_least a)). unfold Millisecond in *. assert ((Z.of_nat k + 1) * step <= (Z.of_nat k + 1) * a) by (apply Z.mul_le_mono_nonneg_l; lia). lia.
Qed.

(** A worker lets go of a handler after half of MaxLease.  With the default
    fraction, a lease is extended by a whole ack wait each half ack wait, and the
    keeper counts the ack waits it was granted, not the time that passed: at
    the first window where it finds the lease over MaxLease, at most half of
    MaxLease and half an ack wait have passed since the message arrived, while
    the broker has granted more than MaxLease. *)
Theorem lease_given_up_at_half m received :
  let a := wrap64 (dl_AckWaitMS m * Millisecond) in
  0 < a -> fmul a (wc_ExtendAt cfg) = a / 2 -> a / 2 <= a - extendMargin a -> 0 < wc_MaxLease cfg ->
  exists k, let l := renewed k (newLease m received) in
    over_held l = true /\ (forall j, (j < k)%nat -> over_held (renewed j (newLease m received)) = false) /\
    2 * (l_nextExtendAt l - received) <= wc_MaxLease cfg + a /\ wc_MaxLease cfg < l_localDeadline l - received.
Proof.
  intros a Ha Hf Hm Hmax. exists (Z.to_nat (wc_MaxLease cfg / a)).
  assert (Hstep : 0 <= fmul a (wc_ExtendAt cfg) <= a - extendMargin a) by (rewrite Hf; split; [by apply Z.div_pos; lia|done]).
  pose proof (fun k => renewed_spec m received k Hstep) as Hr. cbv zeta in Hr. fold a in Hr.
  assert (Hover : forall k, over_held (renewed k (newLease m received)) = (wc_MaxLease cfg <? (Z.of_nat k + 1) * a)).
  { intros k. destruct (Hr k) as (H1 & H2 & _). unfold over_held. rewrite H1, H2, (proj2 (Z.ltb_lt _ _) Hmax). simpl. f_equal. lia. }
  pose proof (Z.div_mod (wc_MaxLease cfg) a ltac:(lia)) as Hdm. pose proof (Z.mod_pos_bound (wc_MaxLease cfg) a Ha).
  assert (Hk : Z.of_nat (Z.to_nat (wc_MaxLease cfg / a)) = wc_MaxLease cfg / a) by (rewrite Z2Nat.id; [done|apply Z.div_pos; lia]).
  set (q := wc_MaxLease cfg / a) in *. cbv zeta. rewrite Hover, Hk. destruct (Hr (Z.to_nat q)) as (_ & _ & Hd & Hn).
  rewrite Hd, Hn, Hk, Hf. split; [bool_prop; nia|]. split.
  - intros j Hj. rewrite Hover. bool_prop. assert (Z.of_nat j + 1 <= q) by lia. nia.
  - pose proof (Z.div_mod a 2 ltac:(lia)). pose proof (Z.mod_pos_bound a 2 ltac:(lia)). split; [nia|nia].
Qed.

End Keeper.

(** ** Backoff *)

(** The schedule doubles from Initial and stops at Max, for a configuration with Initial at most Max. *)
Lemma next_doubles scale b n :
  0 < bk_Initial b <= bk_Max b -> bk_Max b < 2 ^ 62 -> next scale b n = jitter scale (Z.min (bk_Max b) (bk_Initial b * 2 ^ Z.of_nat (Nat.min n 16))).
Proof.
  intros Hi Hmax. unfold next. generalize (Nat.min n 16). intros k. generalize (bk_Initial b) Hi. clear n Hi. intros d Hi.
  revert d Hi. induction k as [|k IH]; intros d Hi; cbn [next_loop].
  - rewrite Z.mul_1_r. by rewrite Z.min_r by lia.
  - rewrite wrap64_id by lia. rewrite Nat2Z.inj_succ, Z.pow_succ_r by lia. pose proof (Z.pow_pos_nonneg 2 (Z.of_nat k) ltac:(lia) ltac:(lia)).
    destruct (bk_Max b <=? d * 2) eqn:Hd; bool_prop; [rewrite Z.min_l by nia; done|]. rewrite IH by lia. do 2 f_equal. ring.
Qed.

(** An Initial above thirty seconds without a Max: the defaults keep Initial and
    set Max below it, so the second wait is shorter than the first. *)
Example backoff_shrinks :
  let b := backoff_withDefaults (MkBackoff (60 * Second) 0) in next id b 0 = 60 * Second /\ next id b 1 = 30 * Second.
Proof. done. Qed.

(** The fraction of the ack wait, without rounding. *)
Definition exact_mul (d : Z) (q : Q) : Z := Z.quot (d * Qnum q) (Zpos (Qden q)).

Definition sample_config : WorkerConfig :=
  withDefaults (MkWorkerConfig 0 0 0 false 0 (120 * Second) NakAndContinue 0 0 (MkBackoff 0 0) 0 false).

Definition sample_delivery : delivered_msg := MkReceived "orders/billing/1/1/1" 30000 0.

Definition sample_lease : lease := newLease exact_mul sample_config sample_delivery 0.

Definition sample_keeper : keeper := MkKeeper [sample_lease] ∅ ∅ [] 0 0 0 0 [].

Lemma sample_keeper_ok : keeper_ok sample_config sample_keeper.
Proof.
  split; simpl; [repeat constructor; apply newLease_ok|apply NoDup_singleton|by repeat constructor|].
  constructor; [apply not_elem_of_empty|constructor].
Qed.

Lemma extend_window_accounts_witness :
  let s' := extendDue exact_mul sample_config (15 * Second) (fun _ => inr [("orders/billing/1/1/1", "ok")]) (fun _ => true) sample_keeper in
  keeper_ok sample_config s' /\ map l_nextExtendAt (k_heap s') = [30 * Second].
Proof.
  split; [|reflexivity].
  exact (proj1 (extend_window_accounts exact_mul sample_config (15 * Second) (fun _ => inr [("orders/billing/1/1/1", "ok")]) (fun _ => true)
    sample_keeper sample_keeper_ok)).
Defined.

(** Claimed at 1 ms, received 20 ms later. *)
Lemma extend_before_redelivery_witness :
  l_nextExtendAt (newLease exact_mul sample_config sample_delivery (21 * Millisecond)) <= 30001 * Millisecond - 479 * Millisecond.
Proof.
  apply (extend_before_redelivery exact_mul sample_config (20 * Millisecond) _ 30001).
  apply (leased_new exact_mul sample_config (20 * Millisecond) sample_delivery Millisecond (21 * Millisecond)); vm_compute; [discriminate|].
  split; [discriminate|reflexivity].
Defined.

Lemma extend_retries_end_witness :
  exists r, extend_loop 12 0 (fun _ => inl BareDeadline) (fun n => Z.of_nat n * Second) (fun _ => true) (10 * Second) = Some r.
Proof.
  apply (extend_retries_end (fun _ => inl BareDeadline) (fun n => Z.of_nat n * Second) (fun _ => true) (10 * Second) Second).
  - reflexivity.
  - intros n. unfold Second, Millisecond. lia.
Defined.

(** With an ack wait of 30 seconds and MaxLease at two minutes the handler is let go after 75 seconds. *)
Lemma lease_given_up_at_half_witness :
  exists k, over_held sample_config (renewed exact_mul sample_config k sample_lease) = true /\
    2 * l_nextExtendAt (renewed exact_mul sample_config k sample_lease) <= 150 * Second.
Proof.
  destruct (lease_given_up_at_half exact_mul sample_config sample_delivery 0 eq_refl eq_refl ltac:(done) eq_refl) as (k & Ho & _ & Ht & _).
  exists k. split; [exact Ho|]. rewrite Z.sub_0_r in Ht. exact Ht.
Defined.

(** The backoff between retries is not cut to what is left of the lease: an
    unreachable broker and an ack wait of 100 seconds, whose extend is due at 50
    and whose retries should end by 95, ends them at 101.1 seconds, past the
    deadline. *)
Definition retry_clock (n : nat) : Z := sumZ (map (fun k => next id (MkBackoff defaultBackoffInitial defaultBackoffMax) k) (seq 0 n)).

Example extend_gives_up_late :
  let giveUpBy := 45 * Second in
  extend_loop 12 0 (fun _ => inl (Wire (unreachable "POST /v1/extend" "refused" false))) retry_clock (fun _ => true) giveUpBy
    = Some (inl errUnreachableExtend) /\
  extend_loop 9 0 (fun _ => inl (Wire (unreachable "POST /v1/extend" "refused" false))) retry_clock (fun _ => true) giveUpBy = None /\
  50 * Second < retry_clock 9.
Proof. done. Qed.

End ClientLease.
