(* ===== verification/ClientWorker.v ===== *)
(** * The client's worker

    [pkg/client/worker.go]: what a handler's result asks of the broker, the
    fetch sizes and holds, and the run of a worker: one fetcher, the handlers,
    one settler and the keeper, over their channels, until the worker drains or
    its context ends. *)

From stdpp Require Import gmap strings relations.
From S2P Require Import Prelude GoText ClientErrors ClientLease.

Module ClientWorker.
Import ClientErrors ClientLease.

(** ** What a handler returned *)

(** An error of Go: a leaf known by its identity, a wrapper of one error or of
    nil, a wrapper of several, or a RetryAfterError. *)
Inductive gerr : Set :=
| Leaf (id text : string)
| Unwraps (inner : option gerr)
| Joins (inner : list gerr)
| RetryAfterError (delay : Z) (cause : option gerr).

Definition ErrPermanent : string := "messq: permanent handler failure".

Definition Permanent (err : gerr) : gerr := Joins [Leaf ErrPermanent ErrPermanent; err].
Definition RetryAfter (d : Z) (err : option gerr) : gerr := RetryAfterError d err.

(** [errors.Is] against a sentinel, depth first. *)
Fixpoint is_err (target : string) (e : gerr) : bool :=
  match e with
  | Leaf id _ => bool_decide (id = target)
  | Unwraps (Some e) | RetryAfterError _ (Some e) => is_err target e
  | Unwraps None | RetryAfterError _ None => false
  | Joins es => existsb (is_err target) es
  end.

Section First.
Context {A B : Type} (f : A -> option B).
Fixpoint first_of (l : list A) : option B := match l with [] => None | x :: l => match f x with Some b => Some b | None => first_of l end end.
End First.

(** [errors.As] into a RetryAfterError: the delay of the first one, depth first. *)
Fixpoint as_retry (e : gerr) : option Z :=
  match e with
  | Leaf _ _ => None
  | RetryAfterError d _ => Some d
  | Unwraps (Some e) => as_retry e
  | Unwraps None => None
  | Joins es => first_of as_retry es
  end.

Section Last.
Context {A B : Type} (f : A -> option B).
Fixpoint last_of (l : list A) : option B := match l with [] => None | [x] => f x | _ :: l => last_of l end.
End Last.

(** [causeText]: the innermost message; [None] is a nil error asked for its
    text, or an empty list indexed at -1, both of which panic. *)
Fixpoint causeText (e : gerr) : option string :=
  match e with
  | Leaf _ text => Some text
  | Unwraps (Some e) | RetryAfterError _ (Some e) => causeText e
  | Unwraps None | RetryAfterError _ None => None
  | Joins es => last_of causeText es
  end.

Inductive settleAction : Set := ActAck | ActNak (delay : Z) (reason : string) | ActTerm (reason : string) | ActNothing.

Inductive handled : Set := Returned (err : option gerr) | Panicked (text : string).

(** [runHandler]; [None] is a panic of the handler's goroutine, which ends the process. *)
Definition runHandler (onPanic : PanicPolicy) (h : handled) : option settleAction :=
  let decide_err err :=
    match err with
    | None => Some ActAck
    | Some e =>
        if is_err ErrPermanent e then (fun r => ActTerm (truncateReason r)) <$> causeText e
        else if is_err cErrLeaseLost e then Some ActNothing
        else match as_retry e with
             | Some d => (fun r => ActNak d (truncateReason r)) <$> causeText e
             | None => (fun r => ActNak 0 (truncateReason r)) <$> causeText e
             end
    end in
  match h with
  | Returned err => decide_err err
  | Panicked r =>
      match onPanic with
      | TermOnPanic => decide_err (Some (Permanent (Leaf "" ("panic: " +:+ r))))
      | Repanic => None
      | NakAndContinue => decide_err (Some (Leaf "" ("panic: " +:+ r)))
      end
  end.

(** Every wrapper on the path [causeText] takes wraps something. *)
Fixpoint has_cause (e : gerr) : bool :=
  match e with
  | Leaf _ _ => true
  | Unwraps o | RetryAfterError _ o => match o with Some e => has_cause e | None => false end
  | Joins es => (fix last_ok l := match l with [] => false | [x] => has_cause x | _ :: l => last_ok l end) es
  end.

(** ** Fetch sizes, holds and skew *)

Section Fetching.
Context (scale : Z -> Z) (cfg : WorkerConfig).

Definition batchSize (freeSlots : Z) : Z :=
  let want := if wc_Batch cfg <=? 0 then DefaultPublishBatchCap else wc_Batch cfg in
  if wc_Prefetch cfg then want else Z.min want (Z.max freeSlots 0).

(** The pause after an empty fetch, by its hold reason. *)
Definition holdSleep (hold : string) (retryAfter : Z) : Z :=
  if bool_decide (hold = "") || bool_decide (hold = "empty") then 0
  else if bool_decide (hold = "paused") then Z.min (Z.max retryAfter Second) (5 * Second)
  else if bool_decide (hold = "flow_control") then jitter scale (Z.max retryAfter (100 * Millisecond))
  else if bool_decide (hold = "backoff") || bool_decide (hold = "catching_up") then retryAfter
  else if bool_decide (hold = "shutting_down") then next scale (wc_Backoff cfg) 1
  else Z.max retryAfter (bk_Initial (wc_Backoff cfg)).

(** Whether a delivery shows the broker's clock apart from this one by more than half its ack wait. *)
Definition trackClockSkew (m : delivered_msg) (now : Z) : bool :=
  if (dl_DeadlineMS m =? 0) || (dl_AckWaitMS m =? 0) then false
  else let delta := dl_DeadlineMS m - UnixMilli (now + wrap64 (dl_AckWaitMS m * Millisecond)) in
       let halfWait := Z.quot (dl_AckWaitMS m) 2 in (halfWait <? delta) || (halfWait <? - delta).

Definition ackWindowOrMax : Z := if wc_AckWindow cfg <=? 0 then Hour else wc_AckWindow cfg.
End Fetching.

(** A fetch never asks for more than the free slots without Prefetch. *)
Lemma batchSize_bound cfg free : wc_Prefetch cfg = false -> 0 <= batchSize cfg free <= Z.max free 0.
Proof. intros Hp. unfold batchSize, DefaultPublishBatchCap. rewrite Hp. destruct (_ <=? _) eqn:?; bool_prop; lia. Qed.

(** The broker's own stamp is never taken for skew while the two clocks agree
    to within half the ack wait less a millisecond. *)
Lemma no_skew_alarm m now brokerNow :
  0 < dl_AckWaitMS m < 2 ^ 63 / Millisecond -> dl_DeadlineMS m = UnixMilli brokerNow + dl_AckWaitMS m ->
  Z.abs (brokerNow - now) <= (dl_AckWaitMS m / 2 - 1) * Millisecond -> trackClockSkew m now = false.
Proof.
  intros Ha Hd Habs. unfold trackClockSkew. destruct (_ || _); [done|].
  rewrite wrap64_id by (unfold Millisecond in *; change (2 ^ 63 / 1000000) with 9223372036854 in Ha; lia).
  rewrite Hd, Z.quot_div_nonneg by lia. unfold UnixMilli. rewrite Z.div_add by done.
  apply orb_false_iff. unfold Millisecond in *. split; apply Z.ltb_ge; Z.to_euclidean_division_equations; lia.
Qed.

Lemma has_cause_spec : forall e, has_cause e = match causeText e with Some _ => true | None => false end.
Proof.
  fix IH 1. intros [id t|[e|]|es|d [e|]]; simpl; [done|apply IH|done| |apply IH|done].
  induction es as [|x [|y l] IHl]; [done|apply IH|exact IHl].
Qed.

(** A worker settles a handler's result as documented, or dies.  A handler
    that returns nil is acked; an error with ErrPermanent anywhere inside is
    termed, and otherwise one with ErrLeaseLost settles nothing, and otherwise
    one is nakked, with the delay of its first RetryAfterError if it has one;
    a recovered panic is nakked or termed by policy.  The reason sent is at
    most 4 KiB.  All this provided the error has an innermost cause: an error
    whose innermost wrapper holds nil, RetryAfter(d, nil) among them, panics the
    worker's goroutine instead, unless it is a lost lease's. *)
Theorem runHandler_maps onPanic h :
  match h with
  | Returned None => runHandler onPanic h = Some ActAck
  | Returned (Some e) =>
      if is_err cErrLeaseLost e && negb (is_err ErrPermanent e) then runHandler onPanic h = Some ActNothing
      else if has_cause e then exists reason, Z.of_nat (String.length reason) <= reasonLimit /\
        runHandler onPanic h = Some (if is_err ErrPermanent e then ActTerm reason else ActNak (default 0 (as_retry e)) reason)
      else runHandler onPanic h = None
  | Panicked r =>
      match onPanic with
      | Repanic => runHandler onPanic h = None
      | _ => exists reason, Z.of_nat (String.length reason) <= reasonLimit /\
          runHandler onPanic h = Some (match onPanic with TermOnPanic => ActTerm reason | _ => ActNak 0 reason end)
      end
  end.
Proof.
  destruct h as [[e|]|r]; simpl; [|done|].
  - rewrite has_cause_spec. destruct (is_err ErrPermanent e); [|destruct (is_err cErrLeaseLost e); [done|]]; simpl.
    + destruct (is_err cErrLeaseLost e); simpl; destruct (causeText e) as [c|]; simpl; try done;
        exists (truncateReason c); (split; [apply truncateReason_length|done]).
    + destruct (causeText e) as [c|]; [|by destruct (as_retry e)]. exists (truncateReason c). split; [apply truncateReason_length|].
      by destruct (as_retry e).
  - destruct onPanic; [| |done]; (exists (truncateReason ("panic: " +:+ r)); split; [apply truncateReason_length|done]).
Qed.

Example retry_after_nil_dies d : runHandler NakAndContinue (Returned (Some (RetryAfter d None))) = None.
Proof. done. Qed.

(** ** The run of a worker *)

(** Where the fetcher stands: at the top of its loop, in a call for a batch,
    about to hand over the messages of one, with a lease announced and its
    message to hand to a handler, or returned. *)
Inductive fetcher : Set := FLoop | FCall (batch : nat) | FGot (msgs : list string) | FHand (t : string) (rest : list string) | FDone.

Inductive keeper_at : Set := KRuns (draining : bool) | KDone.
Inductive settler_at : Set := SRuns | SCloses | SDone.

(** What the settler made of an outcome. *)
Inductive verdict : Set := Discarded | NothingDone | Acked | Naked | Termed.

(** The channels, in order; [ws_done] and [ws_settled] record what the handlers
    returned and what the settler did with it, [ws_dropped] the outcomes whose
    send lost to the ended context, or that the settler left in the channel, and
    [ws_sent] the requests that left with a live context. *)
Record wstate : Type := MkWState {
  ws_fetcher : fetcher;
  ws_slots : Z;
  ws_working : list string;
  ws_outcomes : list (string * settleAction);
  ws_pendingAcks : list string;
  ws_addLease : list string;
  ws_held : list string;
  ws_doneToken : list string;
  ws_forceNaks : list string;
  ws_lost : gset string;
  ws_keeper : keeper_at;
  ws_settler : settler_at;
  ws_stopFetch : bool;
  ws_ctxDone : bool;
  ws_closed : bool;
  ws_seen : list string;
  ws_done : list (string * settleAction);
  ws_settled : list (string * verdict);
  ws_dropped : list string;
  ws_sent : list (string * string);
}.

Definition wstart : wstate := MkWState FLoop 0 [] [] [] [] [] [] [] ∅ (KRuns false) SRuns false false false [] [] [] [] [].

(** A request leaves only while the context lives. *)
Definition sends (verb : string) (ts : list string) (s : wstate) : list (string * string) :=
  if ws_ctxDone s then ws_sent s else ws_sent s ++ map (fun t => (verb, t)) ts.

(** [settleAcks] on the pending acks: each frees its slot and retires its token, sent or not. *)
Definition flush (s : wstate) : wstate :=
  match s with
  | MkWState f sl w o pa al h dt fn lo k st sf cd cl seen dn sd dr _ =>
      MkWState f (Z.max 0 (sl - Z.of_nat (length pa))) w o [] al h (dt ++ pa) fn lo k st sf cd cl seen dn
        (sd ++ map (fun t => (t, Acked)) pa) dr (sends "ack" pa s)
  end.

(** [finishItem]. *)
Definition finishItem (t : string) (v : verdict) (verb : string) (s : wstate) : wstate :=
  match s with
  | MkWState f sl w o pa al h dt fn lo k st sf cd cl seen dn sd dr _ =>
      MkWState f (sl - 1) w o pa al h (dt ++ [t]) fn lo k st sf cd cl seen dn (sd ++ [(t, v)]) dr
        (if bool_decide (verb = "") then ws_sent s else sends verb [t] s)
  end.

Definition queue_ack (t : string) (s : wstate) : wstate :=
  match s with
  | MkWState f sl w o pa al h dt fn lo k st sf cd cl seen dn sd dr se =>
      MkWState f sl w o (pa ++ [t]) al h dt fn lo k st sf cd cl seen dn sd dr se
  end.

Definition maxSettleTokensPerRequest : nat := 256.

(** [handle], for an outcome taken off the channel. *)
Definition handle (batching : bool) (t : string) (a : settleAction) (s : wstate) : wstate :=
  if bool_decide (t ∈ ws_lost s) then finishItem t Discarded "" s
  else match a with
       | ActNothing => finishItem t NothingDone "" s
       | ActAck =>
           let s := queue_ack t s in
           if negb batching || (maxSettleTokensPerRequest <=? length (ws_pendingAcks s))%nat then flush s else s
       | ActNak _ _ => finishItem t Naked "nak" s
       | ActTerm _ => finishItem t Termed "term" s
       end.

Definition remove_token (t : string) (h : list string) : list string := List.filter (fun x => negb (bool_decide (x = t))) h.

Section Run.
Context (cfg : WorkerConfig) (N : nat) (batching cancellable : bool).

(** The steps, without Prefetch.  A step is what one goroutine does between two
    points where another could act; a send to a full channel is a step not taken
    ([doneToken] and [forceNaks] are as long as they need to be). *)

(** [fetcherLoop]; [w_cut]: the context ended, or a failure under FailFast. *)
Inductive fetcher_step : wstate -> wstate -> Prop :=
| w_fetch sl w o pa al h dt fn lo k st sf cd cl seen dn sd dr se :
    sf = false -> cd = false -> 0 < batchSize cfg (Z.of_nat N - sl) ->
    fetcher_step (MkWState FLoop sl w o pa al h dt fn lo k st sf cd cl seen dn sd dr se)
      (MkWState (FCall (Z.to_nat (batchSize cfg (Z.of_nat N - sl)))) sl w o pa al h dt fn lo k st sf cd cl seen dn sd dr se)
| w_empty b sl w o pa al h dt fn lo k st sf cd cl seen dn sd dr se :
    fetcher_step (MkWState (FCall b) sl w o pa al h dt fn lo k st sf cd cl seen dn sd dr se)
      (MkWState FLoop sl w o pa al h dt fn lo k st sf cd cl seen dn sd dr se)
| w_got b msgs sl w o pa al h dt fn lo k st sf cd cl seen dn sd dr se :
    msgs <> [] -> (length msgs <= b)%nat -> NoDup (msgs ++ seen) ->
    fetcher_step (MkWState (FCall b) sl w o pa al h dt fn lo k st sf cd cl seen dn sd dr se)
      (MkWState (FGot msgs) (sl + Z.of_nat (length msgs)) w o pa al h dt fn lo k st sf cd cl (msgs ++ seen) dn sd dr se)
| w_announce t rest sl w o pa al h dt fn lo k st sf cd cl seen dn sd dr se :
    (length al < 4 * N)%nat ->
    fetcher_step (MkWState (FGot (t :: rest)) sl w o pa al h dt fn lo k st sf cd cl seen dn sd dr se)
      (MkWState (FHand t rest) sl w o pa (al ++ [t]) h dt fn lo k st sf cd cl seen dn sd dr se)
| w_hand t rest sl w o pa al h dt fn lo k st sf cd cl seen dn sd dr se :
    (length w < N)%nat ->
    fetcher_step (MkWState (FHand t rest) sl w o pa al h dt fn lo k st sf cd cl seen dn sd dr se)
      (MkWState (FGot rest) sl (t :: w) o pa al h dt fn lo k st sf cd cl seen dn sd dr se)
| w_handed sl w o pa al h dt fn lo k st sf cd cl seen dn sd dr se :
    fetcher_step (MkWState (FGot []) sl w o pa al h dt fn lo k st sf cd cl seen dn sd dr se)
      (MkWState FLoop sl w o pa al h dt fn lo k st sf cd cl seen dn sd dr se)
| w_abort t rest sl w o pa al h dt fn lo k st sf cl seen dn sd dr se :
    fetcher_step (MkWState (FHand t rest) sl w o pa al h dt fn lo k st sf true cl seen dn sd dr se)
      (MkWState FDone sl w o pa al h dt fn lo k st sf true cl seen dn sd (t :: rest ++ dr) se)
| w_stopped sl w o pa al h dt fn lo k st sf cd cl seen dn sd dr se :
    sf || cd = true ->
    fetcher_step (MkWState FLoop sl w o pa al h dt fn lo k st sf cd cl seen dn sd dr se)
      (MkWState FDone sl w o pa al h dt fn lo k st sf cd cl seen dn sd dr se)
| w_cut b sl w o pa al h dt fn lo k st sf cd cl seen dn sd dr se :
    cd = true \/ wc_FailFast cfg = true ->
    fetcher_step (MkWState (FCall b) sl w o pa al h dt fn lo k st sf cd cl seen dn sd dr se)
      (MkWState FDone sl w o pa al h dt fn lo k st sf cd cl seen dn sd dr se).

(** [handlerLoop], around the handler. *)
Inductive handler_step : wstate -> wstate -> Prop :=
| w_finish t a w' f sl w o pa al h dt fn lo k st sf cd cl seen dn sd dr se :
    w ≡ₚ t :: w' -> (length o < 4 * N)%nat ->
    handler_step (MkWState f sl w o pa al h dt fn lo k st sf cd cl seen dn sd dr se)
      (MkWState f sl w' (o ++ [(t, a)]) pa al h dt fn lo k st sf cd cl seen ((t, a) :: dn) sd dr se)
| w_finish_drop t a w' f sl w o pa al h dt fn lo k st sf cl seen dn sd dr se :
    w ≡ₚ t :: w' ->
    handler_step (MkWState f sl w o pa al h dt fn lo k st sf true cl seen dn sd dr se)
      (MkWState f sl w' o pa al h dt fn lo k st sf true cl seen ((t, a) :: dn) sd (t :: dr) se).

(** [settlerLoop]. *)
Inductive settler_step : wstate -> wstate -> Prop :=
| w_settle t a f sl w o pa al h dt fn lo k st sf cd cl seen dn sd dr se :
    st <> SDone ->
    settler_step (MkWState f sl w ((t, a) :: o) pa al h dt fn lo k st sf cd cl seen dn sd dr se)
      (handle batching t a (MkWState f sl w o pa al h dt fn lo k st sf cd cl seen dn sd dr se))
| w_forced t f sl w o pa al h dt fn lo k sf cd cl seen dn sd dr se :
    settler_step (MkWState f sl w o pa al h dt (t :: fn) lo k SRuns sf cd cl seen dn sd dr se)
      (MkWState f sl w o pa al h dt fn lo k SRuns sf cd cl seen dn sd dr (if cd then se else se ++ [("nak", t)]))
| w_flush f sl w o pa al h dt fn lo k sf cd cl seen dn sd dr se :
    settler_step (MkWState f sl w o pa al h dt fn lo k SRuns sf cd cl seen dn sd dr se)
      (flush (MkWState f sl w o pa al h dt fn lo k SRuns sf cd cl seen dn sd dr se))
| w_settler_ctx f sl w o pa al h dt fn lo k sf cl seen dn sd dr se :
    settler_step (MkWState f sl w o pa al h dt fn lo k SRuns sf true cl seen dn sd dr se)
      (flush (MkWState f sl w [] pa al h dt fn lo k SDone sf true cl seen dn sd (map fst o ++ dr) se))
| w_settler_closes f sl w o pa al h dt fn lo k sf cd seen dn sd dr se :
    settler_step (MkWState f sl w o pa al h dt fn lo k SRuns sf cd true seen dn sd dr se)
      (MkWState f sl w o pa al h dt fn lo k SCloses sf cd true seen dn sd dr se)
| w_settler_done f sl w pa al h dt fn lo k sf cd cl seen dn sd dr se :
    settler_step (MkWState f sl w [] pa al h dt fn lo k SCloses sf cd cl seen dn sd dr se)
      (flush (MkWState f sl w [] pa al h dt fn lo k SDone sf cd cl seen dn sd dr se)).

(** [keeperLoop]; the effect of an extend window is that leases are lost or given up. *)
Inductive keeper_step : wstate -> wstate -> Prop :=
| w_keeper_add t draining f sl w o pa al h dt fn lo st sf cd cl seen dn sd dr se :
    draining = false \/ h <> [] ->
    keeper_step (MkWState f sl w o pa (t :: al) h dt fn lo (KRuns draining) st sf cd cl seen dn sd dr se)
      (MkWState f sl w o pa al (t :: h) dt fn lo (KRuns draining) st sf cd cl seen dn sd dr se)
| w_keeper_done t draining f sl w o pa al h dt fn lo st sf cd cl seen dn sd dr se :
    h <> [] ->
    keeper_step (MkWState f sl w o pa al h (t :: dt) fn lo (KRuns draining) st sf cd cl seen dn sd dr se)
      (MkWState f sl w o pa al (remove_token t h) dt fn lo (KRuns draining) st sf cd cl seen dn sd dr se)
| w_keeper_stop f sl w o pa al h dt fn lo st cd cl seen dn sd dr se :
    keeper_step (MkWState f sl w o pa al h dt fn lo (KRuns false) st true cd cl seen dn sd dr se)
      (MkWState f sl w o pa al h dt fn lo (KRuns true) st true cd cl seen dn sd dr se)
| w_keeper_loses t h' draining f sl w o pa al h dt fn lo st sf cd cl seen dn sd dr se :
    h ≡ₚ t :: h' ->
    keeper_step (MkWState f sl w o pa al h dt fn lo (KRuns draining) st sf cd cl seen dn sd dr se)
      (MkWState f sl w o pa al h' dt fn ({[t]} ∪ lo) (KRuns draining) st sf cd cl seen dn sd dr se)
| w_keeper_gives_up t h' draining f sl w o pa al h dt fn lo st sf cd cl seen dn sd dr se :
    h ≡ₚ t :: h' ->
    keeper_step (MkWState f sl w o pa al h dt fn lo (KRuns draining) st sf cd cl seen dn sd dr se)
      (MkWState f sl w o pa al h' dt (if bool_decide (t ∈ lo) then fn else fn ++ [t]) ({[t]} ∪ lo) (KRuns draining) st sf cd cl seen dn sd dr se)
| w_keeper_drained f sl w o pa al dt fn lo st sf cd cl seen dn sd dr se :
    keeper_step (MkWState f sl w o pa al [] dt fn lo (KRuns true) st sf cd cl seen dn sd dr se)
      (MkWState f sl w o pa al [] dt fn lo KDone st sf cd cl seen dn sd dr se)
| w_keeper_expired f sl w o pa al h dt fn lo st sf cd cl seen dn sd dr se :
    h <> [] ->
    keeper_step (MkWState f sl w o pa al h dt fn lo (KRuns true) st sf cd cl seen dn sd dr se)
      (MkWState f sl w o pa al h dt (fn ++ List.filter (fun t => negb (bool_decide (t ∈ lo))) h) (list_to_set h ∪ lo) KDone st sf cd cl seen dn sd dr se)
| w_keeper_ctx draining f sl w o pa al h dt fn lo st sf cl seen dn sd dr se :
    keeper_step (MkWState f sl w o pa al h dt fn lo (KRuns draining) st sf true cl seen dn sd dr se)
      (MkWState f sl w o pa al h dt fn lo KDone st sf true cl seen dn sd dr se).

(** [Run] after its fetcher returned: it ends the context and closes the outcomes. *)
Inductive run_step : wstate -> wstate -> Prop :=
| w_run_ends sl w o pa al h dt fn lo k st sf cd seen dn sd dr se :
    w = [] \/ k = KDone \/ cd = true ->
    run_step (MkWState FDone sl w o pa al h dt fn lo k st sf cd false seen dn sd dr se)
      (MkWState FDone sl w o pa al h dt fn lo k st sf true true seen dn sd dr se).

(** The goroutines and the caller: [w_drain] is Drain, [w_cancel] the end of the
    caller's context, where it can end. *)
Inductive wstep : wstate -> wstate -> Prop :=
| by_fetcher s s' : fetcher_step s s' -> wstep s s'
| by_handler s s' : handler_step s s' -> wstep s s'
| by_settler s s' : settler_step s s' -> wstep s s'
| by_keeper s s' : keeper_step s s' -> wstep s s'
| by_run s s' : run_step s s' -> wstep s s'
| w_drain f sl w o pa al h dt fn lo k st sf cd cl seen dn sd dr se :
    wstep (MkWState f sl w o pa al h dt fn lo k st sf cd cl seen dn sd dr se)
      (MkWState f sl w o pa al h dt fn lo k st true cd cl seen dn sd dr se)
| w_cancel f sl w o pa al h dt fn lo k st sf cd cl seen dn sd dr se :
    cancellable = true ->
    wstep (MkWState f sl w o pa al h dt fn lo k st sf cd cl seen dn sd dr se)
      (MkWState f sl w o pa al h dt fn lo k st sf true cl seen dn sd dr se).

(** ** Every message is somewhere, once *)

Definition waiting (f : fetcher) : list string := match f with FGot ts => ts | FHand t ts => t :: ts | _ => [] end.

Record winv (s : wstate) : Prop := {
  wi_nodup : NoDup (ws_seen s);
  wi_all : ws_seen s ≡ₚ waiting (ws_fetcher s) ++ ws_working s ++ map fst (ws_outcomes s) ++ ws_pendingAcks s
                        ++ map fst (ws_settled s) ++ ws_dropped s;
  wi_slots : ws_slots s = Z.of_nat (length (waiting (ws_fetcher s)) + length (ws_working s) + length (ws_outcomes s)
                                    + length (ws_pendingAcks s) + length (ws_dropped s));
  wi_room : match ws_fetcher s with FCall b => Z.of_nat b | _ => 0 end + ws_slots s <= Z.of_nat N;
}.

Ltac by_count :=
  let x := fresh "x" in
  repeat match goal with H : _ ≡ₚ _ |- _ => rewrite (Permutation_count_occ string_dec) in H end;
  rewrite (Permutation_count_occ string_dec); intros x;
  repeat match goal with H : forall _ : string, count_occ _ _ _ = _ |- _ => specialize (H x) end;
  rewrite ?map_app, ?count_occ_app in *; cbn [count_occ map fst] in *; rewrite ?map_app, ?count_occ_app in *; cbn [count_occ map fst] in *;
  repeat match goal with |- context [string_dec ?a ?b] => destruct (string_dec a b) | H : context [string_dec ?a ?b] |- _ => destruct (string_dec a b) end;
  try done; lia.

Lemma map_acked pa : map fst (map (fun t : string => (t, Acked)) pa) = pa.
Proof. induction pa as [|t pa IH]; simpl; [done|]. by rewrite IH. Qed.

Lemma flush_winv s : winv s -> winv (flush s).
Proof.
  destruct s as [f sl w o pa al h dt fn lo k st sf cd cl seen dn sd dr se]. intros [Hn Ha Hs Hr]. simpl in *.
  split; simpl; [done| | |].
  - rewrite map_app, map_acked. by_count.
  - rewrite Hs. lia.
  - destruct f; lia.
Qed.

Lemma handle_winv t a f sl w o pa al h dt fn lo k st sf cd cl seen dn sd dr se :
  winv (MkWState f sl w ((t, a) :: o) pa al h dt fn lo k st sf cd cl seen dn sd dr se) ->
  winv (handle batching t a (MkWState f sl w o pa al h dt fn lo k st sf cd cl seen dn sd dr se)).
Proof.
  intros [Hn Ha Hs Hr]. simpl in *.
  assert (Hfin : forall v verb, winv (finishItem t v verb (MkWState f sl w o pa al h dt fn lo k st sf cd cl seen dn sd dr se))).
  { intros v verb. split; simpl; [done|by_count|lia|destruct f; lia]. }
  unfold handle. case_bool_decide; [apply Hfin|]. destruct a; try apply Hfin.
  assert (Hq : winv (queue_ack t (MkWState f sl w o pa al h dt fn lo k st sf cd cl seen dn sd dr se))).
  { split; simpl; [done|by_count|rewrite length_app; simpl; lia|done]. }
  cbv zeta. destruct (_ || _); [by apply flush_winv|done].
Qed.

Hypothesis no_prefetch : wc_Prefetch cfg = false.

Ltac steps H := destruct H as [s s' H|s s' H|s s' H|s s' H|s s' H| |]; try destruct H.

Lemma wstep_winv s s' : wstep s s' -> winv s -> winv s'.
Proof.
  intros Hst Hi. steps Hst; try (by apply handle_winv in Hi); try (apply flush_winv);
    try match goal with H : _ ≡ₚ _ :: _ |- _ => pose proof (Permutation_length H) as Hlen; simpl in Hlen end;
    destruct Hi as [Hn Ha Hs Hr]; split; simpl in *;
    try (by done || by_count || lia || (rewrite ?length_app, ?length_map; simpl in *; lia)).
  pose proof (batchSize_bound cfg (Z.of_nat N - sl) no_prefetch). lia.
Qed.

(** ** What leaves is what the handlers asked *)

(** A verdict of the settler rests on what the handler returned, a discard on a lost lease. *)
Definition backed (done : list (string * settleAction)) (lost : gset string) (x : string * verdict) : Prop :=
  match x.2 with
  | Discarded => x.1 ∈ lost
  | NothingDone => (x.1, ActNothing) ∈ done
  | Acked => (x.1, ActAck) ∈ done
  | Naked => exists d r, (x.1, ActNak d r) ∈ done
  | Termed => exists r, (x.1, ActTerm r) ∈ done
  end.

Definition rests_on (settled : list (string * verdict)) (lost : gset string) (x : string * string) : Prop :=
  (x.1 = "ack" /\ (x.2, Acked) ∈ settled) \/ (x.1 = "nak" /\ ((x.2, Naked) ∈ settled \/ x.2 ∈ lost)) \/
  (x.1 = "term" /\ (x.2, Termed) ∈ settled).

Definition acks (sent : list (string * string)) : list string := map snd (List.filter (fun x => bool_decide (x.1 = "ack")) sent).

Record wlog (s : wstate) : Prop := {
  wl_outcomes : Forall (fun x => x ∈ ws_done s) (ws_outcomes s);
  wl_pending : Forall (fun t => (t, ActAck) ∈ ws_done s) (ws_pendingAcks s);
  wl_settled : Forall (backed (ws_done s) (ws_lost s)) (ws_settled s);
  wl_forced : Forall (fun t => t ∈ ws_lost s) (ws_forceNaks s);
  wl_sent : Forall (rests_on (ws_settled s) (ws_lost s)) (ws_sent s);
  wl_acks : NoDup (acks (ws_sent s));
}.

Lemma backed_mono done done' lost lost' x : done ⊆ done' -> lost ⊆ lost' -> backed done lost x -> backed done' lost' x.
Proof. intros Hd Hl. unfold backed. destruct x.2; set_solver. Qed.

Lemma rests_on_mono sd sd' lost lost' x : sd ⊆ sd' -> lost ⊆ lost' -> rests_on sd lost x -> rests_on sd' lost' x.
Proof. intros Hd Hl. unfold rests_on. set_solver. Qed.

Lemma acks_app a b : acks (a ++ b) = acks a ++ acks b.
Proof. unfold acks. by rewrite List.filter_app, map_app. Qed.

Lemma acks_settled s t : wlog s -> t ∈ acks (ws_sent s) -> t ∈ map fst (ws_settled s).
Proof.
  intros Hl. unfold acks. rewrite list_elem_of_In, in_map_iff. intros ([v t'] & <- & Hin). rewrite filter_In, <-list_elem_of_In in Hin.
  destruct Hin as [Hin Hv]. simpl in Hv. apply bool_decide_eq_true in Hv as ->. destruct Hl as [_ _ _ _ Hs _]. eapply Forall_forall in Hs; [|exact Hin].
  destruct Hs as [[_ Hs]|[[? _]|[? _]]]; [|done..]. by apply (in_map_l fst) in Hs.
Qed.

Lemma acks_of_batch pa : acks (map (fun t => ("ack", t)) pa) = pa.
Proof. unfold acks. induction pa as [|t pa IH]; simpl; [done|]. by rewrite IH. Qed.

Lemma flush_wlog s : winv s -> wlog s -> wlog (flush s).
Proof.
  intros Hi Hl. pose proof (fun t => acks_settled s t Hl) as Hacks.
  destruct s as [f sl w o pa al h dt fn lo k st sf cd cl seen dn sd dr se]. destruct Hi as [Hn Ha _ _], Hl as [Ho Hp Hs Hf Hse Hnd]. simpl in *.
  rewrite Ha in Hn. apply NoDup_app in Hn as (_ & _ & Hn). apply NoDup_app in Hn as (_ & _ & Hn). apply NoDup_app in Hn as (_ & _ & Hn).
  apply NoDup_app in Hn as (Hpa & Hdis & _).
  assert (Hold : Forall (rests_on (sd ++ map (fun t => (t, Acked)) pa) lo) se)
    by (eapply Forall_impl; [exact Hse|]; intros x; apply rests_on_mono; set_solver).
  split; simpl; try done.
  - apply Forall_app. split; [done|]. apply Forall_map. eapply Forall_impl; [exact Hp|]. done.
  - unfold sends. simpl. destruct cd; [done|]. apply Forall_app. split; [done|]. apply Forall_map, Forall_forall. intros t Ht. left. split; [done|].
    simpl. apply elem_of_app. right. by apply (in_map_l (fun t => (t, Acked))).
  - unfold sends. simpl. destruct cd; [done|]. rewrite acks_app, acks_of_batch, NoDup_app. split; [done|]. split; [|done].
    intros t Ht Hin. apply (Hdis t Hin), elem_of_app. left. by apply Hacks.
Qed.

Lemma finishItem_wlog t v verb s :
  wlog s -> backed (ws_done s) (ws_lost s) (t, v) -> verb = "" \/ (verb = "nak" /\ v = Naked) \/ (verb = "term" /\ v = Termed) ->
  wlog (finishItem t v verb s).
Proof.
  destruct s as [f sl w o pa al h dt fn lo k st sf cd cl seen dn sd dr se]. intros [Ho Hp Hs Hf Hse Hnd] Hb Hv. simpl in *.
  assert (Hold : Forall (rests_on (sd ++ [(t, v)]) lo) se) by (eapply Forall_impl; [exact Hse|]; intros x; apply rests_on_mono; set_solver).
  split; simpl; try done; [by apply Forall_app; split; [|constructor]| |];
    (case_bool_decide as Hempty; [done|]); unfold sends; simpl; (destruct cd; [done|]).
  - apply Forall_app. split; [done|]. constructor; [|done]. unfold rests_on. simpl. destruct Hv as [|[[-> ->]|[-> ->]]]; [done| |]; set_solver.
  - rewrite acks_app. destruct Hv as [|[[-> ->]|[-> ->]]]; [done| |]; simpl; by rewrite app_nil_r.
Qed.

Lemma handle_wlog t a f sl w o pa al h dt fn lo k st sf cd cl seen dn sd dr se :
  winv (MkWState f sl w ((t, a) :: o) pa al h dt fn lo k st sf cd cl seen dn sd dr se) ->
  wlog (MkWState f sl w ((t, a) :: o) pa al h dt fn lo k st sf cd cl seen dn sd dr se) ->
  wlog (handle batching t a (MkWState f sl w o pa al h dt fn lo k st sf cd cl seen dn sd dr se)).
Proof.
  intros Hi [Ho Hp Hs Hf Hse Hnd]. simpl in *. apply Forall_cons in Ho as [Hta Ho].
  assert (Hl : wlog (MkWState f sl w o pa al h dt fn lo k st sf cd cl seen dn sd dr se)) by done.
  unfold handle. case_bool_decide as Hlost; [apply finishItem_wlog; auto|].
  destruct a; try (apply finishItem_wlog; [done|simpl; unfold backed; simpl; eauto|auto]).
  assert (Hq : wlog (queue_ack t (MkWState f sl w o pa al h dt fn lo k st sf cd cl seen dn sd dr se))).
  { split; simpl; try done. apply Forall_app. split; [done|by constructor]. }
  cbv zeta. destruct (_ || _); [|done]. apply flush_wlog; [|done].
  destruct Hi as [Hn Ha Hsl Hr]. simpl in *. split; simpl; [done|by_count|rewrite length_app; simpl; lia|done].
Qed.

(** Steps only add to what was returned, lost and settled. *)
Lemma wlog_grows dn dn' lo lo' o pa fn sd se :
  dn ⊆ dn' -> lo ⊆ lo' ->
  Forall (fun x => x ∈ dn) o -> Forall (fun t => (t, ActAck) ∈ dn) pa -> Forall (backed dn lo) sd -> Forall (fun t => t ∈ lo) fn ->
  Forall (rests_on sd lo) se ->
  Forall (fun x => x ∈ dn') o /\ Forall (fun t => (t, ActAck) ∈ dn') pa /\ Forall (backed dn' lo') sd /\ Forall (fun t => t ∈ lo') fn /\
  Forall (rests_on sd lo') se.
Proof.
  intros Hd Hl Ho Hp Hs Hf Hse. split; [eapply Forall_impl; [exact Ho|]; set_solver|]. split; [eapply Forall_impl; [exact Hp|]; set_solver|].
  split; [eapply Forall_impl; [exact Hs|]; intros x; by apply backed_mono|]. split; [eapply Forall_impl; [exact Hf|]; set_solver|].
  eapply Forall_impl; [exact Hse|]. intros x. by apply rests_on_mono.
Qed.

Lemma wstep_wlog s s' : wstep s s' -> winv s -> wlog s -> wlog s'.
Proof.
  intros Hst Hi Hl. steps Hst; try (by apply handle_wlog); try (by apply flush_wlog); destruct Hl as [Ho Hp Hs Hf Hse Hnd];
    simpl in Ho, Hp, Hs, Hf, Hse, Hnd; try (by split);
    try (apply flush_wlog; [destruct Hi as [Hn Ha Hsl Hr]; simpl in *; split; simpl; [done|by_count|rewrite ?length_app, ?length_map; lia|done]|by split]).
  - destruct (wlog_grows dn ((t, a) :: dn) lo lo o pa fn sd se) as (? & ? & ? & ? & ?); [set_solver|done..|].
    split; simpl; try done. apply Forall_app. split; [done|]. constructor; [apply elem_of_cons; by left|done].
  - destruct (wlog_grows dn ((t, a) :: dn) lo lo o pa fn sd se) as (? & ? & ? & ? & ?); [set_solver|done..|]. by split.
  - apply Forall_cons in Hf as [Ht Hf]. split; simpl; try done; destruct cd; try done.
    + apply Forall_app. split; [done|]. constructor; [|done]. right; left. simpl. auto.
    + rewrite acks_app. simpl. by rewrite app_nil_r.
  - destruct (wlog_grows dn dn lo ({[t]} ∪ lo) o pa fn sd se) as (? & ? & ? & ? & ?); [done|set_solver|done..|]. by split.
  - destruct (wlog_grows dn dn lo ({[t]} ∪ lo) o pa fn sd se) as (? & ? & ? & ? & ?); [done|set_solver|done..|]. split; simpl; try done.
    case_bool_decide; [done|]. apply Forall_app. split; [done|]. constructor; [set_solver|done].
  - destruct (wlog_grows dn dn lo (list_to_set h ∪ lo) o pa fn sd se) as (? & ? & ? & ? & ?); [done|set_solver|done..|]. split; simpl; try done.
    apply Forall_app. split; [done|]. apply Forall_forall. intros t. rewrite list_elem_of_In, filter_In, <-list_elem_of_In. set_solver.
Qed.

Lemma run_invariant s : rtc wstep wstart s -> winv s /\ wlog s.
Proof.
  intros Hr. assert (H0 : winv wstart /\ wlog wstart).
  { split; split; simpl; try done; try constructor. lia. }
  revert H0. induction Hr as [|s1 s2 s3 Hst _ IH]; [done|]. intros [Hi Hl]. apply IH. split; [by eapply wstep_winv|by eapply wstep_wlog].
Qed.


End Run.

(** [Run] has returned. *)
Definition returned (s : wstate) : Prop := ws_closed s = true /\ ws_settler s = SDone /\ ws_keeper s = KDone.

#[local] Ltac side := vm_compute; first [done | lia].
#[local] Ltac one step :=
  eapply rtc_l;
  [first [eapply step; side | apply by_fetcher; eapply step; side | apply by_settler; eapply step; side | apply by_keeper; eapply step; side]|];
  cbn [app map fst].


(** A drain may abandon work that was done, and work that was begun.  With
    one handler, a caller that only drains and never ends the context, and a
    broker that answers, a run of the worker returns with a handler that had
    returned nil and whose message was neither acked nor nakked, its lease
    never lost: the settler saw the context that Run ends before it looked at
    the outcome.  And a run of an idle worker that was drained while its fetch
    was answered returns with a message fetched, its handler cut off, and
    nothing sent for it at all: the keeper, with nothing held, was already
    gone. *)
Theorem drain_abandons_work batching :
  (exists s, rtc (wstep sample_config 1 batching false) wstart s /\ returned s /\
     ws_done s = [("t", ActAck)] /\ ws_lost s = ∅ /\ ws_sent s = []) /\
  (exists s, rtc (wstep sample_config 1 batching false) wstart s /\ returned s /\
     ws_seen s = ["t"] /\ ws_lost s = ∅ /\ ws_settled s = [] /\ ws_sent s = []).
Proof.
  split; eexists; (split; [|split_and!]).
  - one w_fetch. eapply rtc_l; [apply by_fetcher, (w_got _ _ 1 ["t"]); [done|done|apply (bool_decide_unpack _); by vm_compute]|].
    one w_announce. one w_hand. one w_handed. eapply rtc_l; [apply by_keeper, w_keeper_add; by left|]. one w_drain. one w_stopped.
    eapply rtc_l; [apply by_handler, (w_finish _ "t" ActAck []); side|]. eapply rtc_l; [apply by_run, w_run_ends; by left|].
    one w_settler_ctx. one w_keeper_ctx. apply rtc_refl.
  - done.
  - reflexivity.
  - reflexivity.
  - reflexivity.
  - one w_fetch. one w_drain. one w_keeper_stop. one w_keeper_drained.
    eapply rtc_l; [apply by_fetcher, (w_got _ _ 1 ["t"]); [done|done|apply (bool_decide_unpack _); by vm_compute]|].
    one w_announce. one w_hand. one w_handed. one w_stopped. eapply rtc_l; [apply by_run, w_run_ends; by right; left|].
    eapply rtc_l; [apply by_handler, (w_finish_drop _ "t" ActAck []); side|]. one w_settler_ctx. apply rtc_refl.
  - done.
  - reflexivity.
  - reflexivity.
  - reflexivity.
  - reflexivity.
Qed.

End ClientWorker.
