(* ===== verification/Sql.v ===== *)
(** * Tables and statements

    The fragment of SQL the store's statements use.  A table is the list of its
    rows in rowid order; a statement is a function on it:

    - [where_ p t]            the rows a [WHERE p] clause keeps;
    - [query_row p t]         the row [QueryRow] scans, when the key is unique;
    - [update_where p f t]    [UPDATE t SET f WHERE p];
    - [delete_where p t]      [DELETE FROM t WHERE p];
    - [count p t], [sum_of], [max_of], [min_of]   the aggregates;
    - [order_by le t]         [ORDER BY]; [limit n t] is [LIMIT n];
    - [insert_unique]         [INSERT] under a key that must be new.

    The lemmas say how the aggregates and the key of a table move under the
    statements; every component of the store is verified with them. *)

From S2P Require Import Prelude.

Lemma elem_of_snoc {A} (x y : A) (l : list A) : x ∈ l ++ [y] <-> x ∈ l \/ x = y.
Proof. set_solver. Qed.

Lemma in_mapped {A B} (g : A -> B) (l : list A) (x : A) : x ∈ l -> g x ∈ map g l.
Proof. intros Hx. apply list_elem_of_In, in_map. by rewrite <-list_elem_of_In. Qed.

Lemma mapped_in {A B} (g : A -> B) (l : list A) (y : B) : y ∈ map g l -> exists x, y = g x /\ x ∈ l.
Proof. intros (x & <- & Hx%list_elem_of_In)%list_elem_of_In%in_map_iff. eauto. Qed.

Section Table.
Context {R : Type}.
Implicit Types (p q : R -> bool) (f : R -> R) (t : list R).

Definition where_ (p : R -> bool) (t : list R) : list R := List.filter p t.

Definition query_row (p : R -> bool) (t : list R) : option R := List.find p t.

Definition update_where (p : R -> bool) (f : R -> R) (t : list R) : list R :=
  map (fun r => if p r then f r else r) t.

Definition delete_where (p : R -> bool) (t : list R) : list R :=
  List.filter (fun r => negb (p r)) t.

(** [count(1)] under a predicate; also the [changes()] of a statement that
    touches the rows of [p]. *)
Definition count (p : R -> bool) (t : list R) : Z := Z.of_nat (length (where_ p t)).

Definition sum_of (g : R -> Z) (p : R -> bool) (t : list R) : Z := sumZ (map g (where_ p t)).

(** [max] and [min] of a column are NULL on no row. *)
Definition max_of (g : R -> Z) (t : list R) : option Z :=
  match t with
  | [] => None
  | r :: t => Some (foldl (fun a r => Z.max a (g r)) (g r) t)
  end.

Definition min_of (g : R -> Z) (t : list R) : option Z :=
  match t with
  | [] => None
  | r :: t => Some (foldl (fun a r => Z.min a (g r)) (g r) t)
  end.

Definition order_by (le : R -> R -> bool) (t : list R) : list R :=
  merge_sort (fun a b => Is_true (le a b)) t.

(** SQLite reads a negative [LIMIT] as none. *)
Definition limit {A} (n : Z) (t : list A) : list A :=
  if n <? 0 then t else take (Z.to_nat n) t.

(** [DELETE ... WHERE rowid IN (SELECT rowid ... WHERE p LIMIT n)]. *)
Fixpoint delete_first (p : R -> bool) (n : nat) (t : list R) : list R :=
  match t with
  | [] => []
  | r :: t' =>
      if p r then match n with O => t | S n => delete_first p n t' end
      else r :: delete_first p n t'
  end.

(** ** Membership *)

Lemma elem_of_where p t r : r ∈ where_ p t <-> p r = true /\ r ∈ t.
Proof. unfold where_. rewrite !list_elem_of_In, filter_In. tauto. Qed.

Lemma elem_of_update p f t r :
  r ∈ update_where p f t <-> exists r0, r0 ∈ t /\ r = (if p r0 then f r0 else r0).
Proof.
  unfold update_where. rewrite list_elem_of_In, in_map_iff.
  setoid_rewrite list_elem_of_In. naive_solver.
Qed.

Lemma update_none p f t : (forall r, r ∈ t -> p r = false) -> update_where p f t = t.
Proof.
  induction t as [|r t IH]; [done|]. intros Hp. unfold update_where in *. simpl.
  rewrite (Hp r), IH by set_solver. done.
Qed.

Lemma elem_of_delete p t r : r ∈ delete_where p t <-> p r = false /\ r ∈ t.
Proof. unfold delete_where. rewrite !list_elem_of_In, filter_In, negb_true_iff. tauto. Qed.

Lemma query_row_Some p t r : query_row p t = Some r -> p r = true /\ r ∈ t.
Proof. intros H%find_some. rewrite list_elem_of_In. tauto. Qed.

Lemma query_row_None p t r : query_row p t = None -> r ∈ t -> p r = false.
Proof. intros H Hin%list_elem_of_In. by apply (find_none _ _ H). Qed.

Lemma order_by_Permutation le t : Permutation (order_by le t) t.
Proof. apply merge_sort_Permutation. Qed.

Lemma elem_of_order_by le t r : r ∈ order_by le t <-> r ∈ t.
Proof. by rewrite order_by_Permutation. Qed.

Lemma limit_prefix {A} n (l : list A) : exists rest, l = limit n l ++ rest.
Proof.
  unfold limit. case_match; [by exists []; rewrite app_nil_r|].
  exists (drop (Z.to_nat n) l). by rewrite take_drop.
Qed.

Lemma elem_of_limit {A} n (l : list A) a : a ∈ limit n l -> a ∈ l.
Proof. destruct (limit_prefix n l) as [rest Hl]. rewrite Hl at 2. set_solver. Qed.

Lemma limit_length {A} n (l : list A) : 0 <= n -> Z.of_nat (length (limit n l)) <= n.
Proof. intros Hn. unfold limit. case_match; bool_prop; [lia|]. rewrite length_take. lia. Qed.

(** What a bounded delete leaves: it spares the rows outside [p] and the first
    [n] rows inside it are gone. *)
Lemma delete_first_all p n t : (length (where_ p t) <= n)%nat -> delete_first p n t = delete_where p t.
Proof.
  revert n. induction t as [|r t IH]; intros n; [done|]. unfold where_, delete_where. simpl.
  destruct (p r); simpl; [|intros; f_equal; by apply IH]. destruct n as [|n]; simpl; [lia|].
  intros. apply IH. unfold where_. lia.
Qed.

Lemma delete_first_twice p n m t : delete_first p m (delete_first p n t) = delete_first p (n + m) t.
Proof.
  revert n. induction t as [|r t IH]; intros n; [done|]. simpl. destruct (p r) eqn:Hp.
  - destruct n as [|n]; [simpl; by rewrite Hp|apply IH].
  - simpl. rewrite Hp. f_equal. apply IH.
Qed.

Lemma delete_first_left p n t : length (where_ p (delete_first p n t)) = (length (where_ p t) - n)%nat.
Proof.
  revert n. induction t as [|r t IH]; intros n; [done|]. unfold where_ in *. simpl. destruct (p r) eqn:Hp.
  - destruct n as [|n]; simpl; [by rewrite Hp|]. by rewrite IH.
  - simpl. rewrite Hp. apply IH.
Qed.

(** A limit that is not reached cuts nothing. *)
Lemma limit_full {A} n (l : list A) : Z.of_nat (length (limit n l)) <> n -> limit n l = l.
Proof.
  unfold limit. case_match; [done|]. bool_prop. rewrite length_take. intros Hn.
  apply take_ge. lia.
Qed.

(** Ordered by an integer column. *)
Lemma order_by_sorted (g : R -> Z) t :
  StronglySorted (fun a b => g a <= g b) (order_by (fun a b => g a <=? g b) t).
Proof.
  assert (Hs : StronglySorted (fun a b => Is_true (g a <=? g b)) (order_by (fun a b => g a <=? g b) t)).
  { apply StronglySorted_merge_sort.
    - intros a b c. rewrite !Is_true_true, !Z.leb_le. lia.
    - intros a b. rewrite !Is_true_true, !Z.leb_le. lia. }
  induction Hs as [|a l Hl IH Ha]; constructor; [done|].
  eapply Forall_impl; [exact Ha|]. intros b. simpl. by rewrite Is_true_true, Z.leb_le.
Qed.

(** Without ties the order is strict. *)
Lemma sorted_strict (g : R -> Z) t pre post a b :
  StronglySorted (fun a b => g a <= g b) t -> NoDup (map g t) ->
  t = pre ++ post -> a ∈ pre -> b ∈ post -> g a < g b.
Proof.
  intros Hs Hnd -> Ha Hb. pose proof (StronglySorted_app_1_elem_of _ _ _ _ _ Hs Ha Hb) as Hle.
  simpl in Hle. rewrite map_app in Hnd. apply NoDup_app in Hnd as (_ & Hdis & _).
  assert (g a <> g b); [|lia]. intros Heq. apply (Hdis (g a)).
  - by apply in_mapped.
  - rewrite Heq. by apply in_mapped.
Qed.

Lemma sorted_lt (g : R -> Z) t :
  StronglySorted (fun a b => g a <= g b) t -> NoDup (map g t) -> StronglySorted Z.lt (map g t).
Proof.
  induction 1 as [|a t Hs IH Ha]; simpl; [constructor|]. intros [Hna Hnd]%NoDup_cons.
  constructor; [auto|]. rewrite Forall_forall in Ha. apply Forall_forall. intros x (b & <- & Hb)%list_elem_of_In%in_map_iff.
  assert (Hb' : b ∈ t) by (by apply list_elem_of_In). specialize (Ha b Hb'). simpl in Ha.
  assert (g a <> g b); [|lia]. intros Heq. apply Hna. rewrite Heq. by apply list_elem_of_In, in_map.
Qed.

Lemma StronglySorted_reverse {A} (Rel : relation A) l :
  StronglySorted Rel l -> StronglySorted (flip Rel) (reverse l).
Proof.
  induction 1 as [|a l Hs IH Ha]; [constructor|]. rewrite reverse_cons. apply StronglySorted_app.
  split_and!; [|exact IH|repeat constructor].
  intros x y Hx%elem_of_reverse ->%list_elem_of_singleton. rewrite Forall_forall in Ha. rewrite reverse_involutive in Hx. exact (Ha x Hx).
Qed.

Lemma StronglySorted_map {A B} (f : A -> B) (Rel : relation B) l :
  StronglySorted (fun a b => Rel (f a) (f b)) l -> StronglySorted Rel (map f l).
Proof.
  induction 1 as [|a l Hs IH Ha]; simpl; constructor; [done|]. apply Forall_forall.
  rewrite Forall_forall in Ha. intros x (b & -> & Hb)%mapped_in. exact (Ha b Hb).
Qed.

(** [ORDER BY ... DESC] reads the column backwards. *)
Lemma order_by_desc (g : R -> Z) t :
  map g (order_by (fun a b => g b <=? g a) t) = reverse (map g (order_by (fun a b => g a <=? g b) t)).
Proof.
  assert (Hs : StronglySorted (fun a b => Is_true (g b <=? g a)) (order_by (fun a b => g b <=? g a) t)).
  { apply StronglySorted_merge_sort.
    - intros a b c. rewrite !Is_true_true, !Z.leb_le. lia.
    - intros a b. rewrite !Is_true_true, !Z.leb_le. lia. }
  assert (AntiSymm eq (flip Z.le)) by (intros x y; simpl; lia).
  apply (StronglySorted_unique (flip Z.le)).
  - apply StronglySorted_map. induction Hs as [|a l Hl IH Ha]; constructor; [done|].
    eapply Forall_impl; [exact Ha|]. intros b. simpl. by rewrite Is_true_true, Z.leb_le.
  - apply StronglySorted_reverse, StronglySorted_map, order_by_sorted.
  - rewrite reverse_Permutation. by rewrite !(Permutation_map g (order_by_Permutation _ t)).
Qed.

Lemma sorted_NoDup l : StronglySorted Z.lt l -> NoDup l.
Proof.
  induction 1 as [|a l Hs IH Ha]; constructor; [|done]. intros Hin. rewrite Forall_forall in Ha. specialize (Ha a Hin). lia.
Qed.

(** Rows in the strict order of a column are in the only order of it. *)
Lemma sorted_by_unique (g : R -> Z) t t' :
  StronglySorted Z.lt (map g t) -> StronglySorted Z.lt (map g t') -> Permutation t t' -> t = t'.
Proof.
  assert (Hw : forall l, StronglySorted Z.lt (map g l) -> StronglySorted (fun a b => a = b \/ g a < g b) l).
  { induction l as [|a l IH]; simpl; [constructor|]. intros [Hs Ha]%StronglySorted_inv. constructor; [auto|].
    apply Forall_forall. intros b Hb. right. rewrite Forall_forall in Ha. apply Ha. by apply in_mapped. }
  assert (AntiSymm eq (fun a b => a = b \/ g a < g b)) by (intros a b; simpl; intros [-> |?] [? |?]; done || lia).
  intros Hs Hs'. apply (StronglySorted_unique (fun a b => a = b \/ g a < g b)); auto.
Qed.

Lemma order_by_id (g : R -> Z) t : StronglySorted Z.lt (map g t) -> order_by (fun a b => g a <=? g b) t = t.
Proof.
  intros Hs. apply (sorted_by_unique g); [|done|apply order_by_Permutation].
  apply sorted_lt; [apply order_by_sorted|]. rewrite (Permutation_map g (order_by_Permutation _ t)).
  by apply sorted_NoDup.
Qed.

Lemma order_by_reverse (g : R -> Z) t : StronglySorted Z.lt (map g t) -> order_by (fun a b => g b <=? g a) t = reverse t.
Proof.
  intros Hs. rewrite <-(reverse_involutive (order_by _ t)). f_equal. apply (sorted_by_unique g); [|done|].
  - change (StronglySorted Z.lt (g <$> reverse (order_by (fun a b => g b <=? g a) t))). rewrite fmap_reverse.
    change (g <$> ?l) with (map g l). rewrite order_by_desc, reverse_involutive. by rewrite order_by_id.
  - by rewrite reverse_Permutation, order_by_Permutation.
Qed.

Lemma sorted_where (g : R -> Z) p t : StronglySorted Z.lt (map g t) -> StronglySorted Z.lt (map g (where_ p t)).
Proof.
  unfold where_. induction t as [|a t IH]; simpl; [constructor|]. intros [Hs Ha]%StronglySorted_inv.
  destruct (p a); simpl; [|auto]. constructor; [auto|]. rewrite Forall_forall in Ha. apply Forall_forall.
  intros x (b & -> & [_ Hb]%elem_of_where)%mapped_in. apply Ha. by apply in_mapped.
Qed.

(** ** Aggregates *)

Lemma count_nil p : count p [] = 0.
Proof. done. Qed.

Lemma count_cons p r t : count p (r :: t) = (if p r then 1 else 0) + count p t.
Proof. unfold count, where_. simpl. destruct (p r); simpl length; lia. Qed.

Lemma count_app p t u : count p (t ++ u) = count p t + count p u.
Proof. unfold count, where_. rewrite List.filter_app, length_app. lia. Qed.

Lemma count_nonneg p t : 0 <= count p t.
Proof. unfold count. lia. Qed.

Lemma count_0 p t : count p t = 0 <-> forall r, r ∈ t -> p r = false.
Proof.
  induction t as [|r t IH].
  - rewrite count_nil. split; [|done]. intros _ r Hr. set_solver.
  - rewrite count_cons. pose proof (count_nonneg p t).
    split.
    + intros H0 r' [->|Hr]%elem_of_cons; destruct (p r) eqn:?; try lia; try done.
      all: apply IH; [lia|done].
    + intros Hall. rewrite (Hall r) by set_solver. apply IH. intros. apply Hall. set_solver.
Qed.

Lemma count_pos p t r : r ∈ t -> p r = true -> 1 <= count p t.
Proof.
  intros Hin Hp. destruct (decide (count p t = 0)) as [H0|]; [|pose proof (count_nonneg p t); lia].
  rewrite count_0 in H0. rewrite (H0 r Hin) in Hp. done.
Qed.

Lemma count_ext p q t : (forall r, r ∈ t -> p r = q r) -> count p t = count q t.
Proof.
  induction t as [|r t IH]; [done|]. intros H. rewrite !count_cons, IH, (H r) by set_solver. done.
Qed.

Lemma count_le p q t : (forall r, r ∈ t -> p r = true -> q r = true) -> count p t <= count q t.
Proof.
  induction t as [|r t IH]; [done|]. intros H. rewrite !count_cons.
  specialize (IH ltac:(intros; apply H; set_solver)).
  pose proof (H r ltac:(set_solver)). destruct (p r), (q r); naive_solver lia.
Qed.

Lemma count_delete q p t :
  count q (delete_where p t) = count q t - count (fun r => p r && q r) t.
Proof.
  induction t as [|r t IH]; [done|]. unfold delete_where in *. simpl.
  rewrite !count_cons. destruct (p r); simpl; rewrite ?count_cons; lia.
Qed.

Lemma length_delete p t : Z.of_nat (length (delete_where p t)) = Z.of_nat (length t) - count p t.
Proof.
  induction t as [|r t IH]; [done|]. rewrite count_cons. unfold delete_where in *. simpl.
  destruct (p r); simpl; lia.
Qed.

Lemma count_delete_le q p t : count q (delete_where p t) <= count q t.
Proof. rewrite count_delete. pose proof (count_nonneg (fun r => p r && q r) t). lia. Qed.

Lemma count_split p t : count p t + count (fun r => negb (p r)) t = Z.of_nat (length t).
Proof.
  induction t as [|r t IH]; [done|]. rewrite !count_cons. simpl length. destruct (p r); simpl; lia.
Qed.

Lemma count_all t : count (fun _ => true) t = Z.of_nat (length t).
Proof. induction t as [|r t IH]; [done|]. rewrite count_cons. simpl length. lia. Qed.

Lemma count_or_disjoint p q t :
  (forall r, r ∈ t -> p r = true -> q r = false) -> count (fun r => p r || q r) t = count p t + count q t.
Proof.
  induction t as [|r t IH]; [done|]. intros Hd. rewrite !count_cons, IH by (intros; apply Hd; set_solver).
  pose proof (Hd r ltac:(set_solver)). destruct (p r), (q r); simpl; naive_solver lia.
Qed.

Lemma count_update q p f t :
  (forall r, r ∈ t -> p r = true -> q (f r) = q r) ->
  count q (update_where p f t) = count q t.
Proof.
  induction t as [|r t IH]; [done|]. intros H. unfold update_where in *. simpl.
  rewrite !count_cons, IH by (intros; apply H; set_solver).
  destruct (p r) eqn:Hp; [rewrite H by set_solver|]; done.
Qed.

Lemma sum_of_app g p t u : sum_of g p (t ++ u) = sum_of g p t + sum_of g p u.
Proof. unfold sum_of, where_. by rewrite List.filter_app, map_app, sumZ_app. Qed.

Lemma sum_of_cons g p r t : sum_of g p (r :: t) = (if p r then g r else 0) + sum_of g p t.
Proof. unfold sum_of, where_. simpl. destruct (p r); simpl; lia. Qed.

Lemma sum_of_0 g p t : (forall r, r ∈ t -> p r = false) -> sum_of g p t = 0.
Proof.
  induction t as [|r t IH]; [done|]. intros Hp. rewrite sum_of_cons, (Hp r), IH by set_solver. done.
Qed.

Lemma sum_of_delete g q p t :
  sum_of g q (delete_where p t) = sum_of g q t - sum_of g (fun r => p r && q r) t.
Proof.
  induction t as [|r t IH]; [done|]. unfold delete_where in *. simpl.
  rewrite !sum_of_cons. destruct (p r); simpl; rewrite ?sum_of_cons; lia.
Qed.

Lemma sum_of_update g q p f t :
  (forall r, r ∈ t -> p r = true -> q (f r) = q r /\ g (f r) = g r) ->
  sum_of g q (update_where p f t) = sum_of g q t.
Proof.
  induction t as [|r t IH]; [done|]. intros H. unfold update_where in *. simpl.
  rewrite !sum_of_cons, IH by (intros; apply H; set_solver).
  destruct (p r) eqn:Hp; [|done]. by destruct (H r ltac:(set_solver) Hp) as [-> ->].
Qed.

Lemma sum_of_ext g p q t : (forall r, r ∈ t -> p r = q r) -> sum_of g p t = sum_of g q t.
Proof.
  induction t as [|r t IH]; [done|]. intros H. rewrite !sum_of_cons, IH, (H r) by set_solver. done.
Qed.

Lemma count_Permutation p t u : Permutation t u -> count p t = count p u.
Proof. induction 1; rewrite ?count_cons; lia. Qed.

Lemma count_where q p t : count q (where_ p t) = count (fun r => p r && q r) t.
Proof.
  induction t as [|r t IH]; [done|]. unfold where_ in *. rewrite count_cons. simpl. destruct (p r); rewrite ?count_cons; simpl; lia.
Qed.

Lemma where_app p t u : where_ p (t ++ u) = where_ p t ++ where_ p u.
Proof. apply List.filter_app. Qed.

Lemma where_nil p t : (forall r, r ∈ t -> p r = false) -> where_ p t = [].
Proof.
  induction t as [|r t IH]; [done|]. intros Hp. unfold where_ in *. simpl. rewrite (Hp r) by left. apply IH. intros x Hx. apply Hp. by right.
Qed.

Lemma where_all p t : (forall r, r ∈ t -> p r = true) -> where_ p t = t.
Proof.
  induction t as [|r t IH]; [done|]. intros Hp. unfold where_ in *. simpl. rewrite (Hp r) by left. f_equal. apply IH. intros x Hx. apply Hp. by right.
Qed.

Lemma where_where q p t : where_ (fun r => p r && q r) t = where_ q (where_ p t).
Proof.
  induction t as [|r t IH]; [done|]. unfold where_ in *. simpl. destruct (p r); simpl; [|done]. destruct (q r); by rewrite IH.
Qed.

Lemma sum_of_or_disjoint g p q t :
  (forall r, r ∈ t -> p r = true -> q r = false) -> sum_of g (fun r => p r || q r) t = sum_of g p t + sum_of g q t.
Proof.
  induction t as [|r t IH]; [done|]. intros Hd. rewrite !sum_of_cons, IH by (intros x Hx; apply Hd; by right).
  pose proof (Hd r ltac:(left)) as Hr. destruct (p r), (q r); simpl; try lia; by specialize (Hr eq_refl).
Qed.

(** A list without repetition of exactly the rows [p] selects. *)
Lemma select_Permutation p t u :
  NoDup t -> NoDup u -> (forall r, r ∈ u <-> r ∈ t /\ p r = true) -> Permutation u (where_ p t).
Proof.
  intros Ht Hu Hin. apply NoDup_Permutation; [done| |]; [by apply NoDup_ListNoDup, List.NoDup_filter, NoDup_ListNoDup|]. intros r. rewrite elem_of_where, Hin. tauto.
Qed.

(** What is left after the newest [k] rows of a column without ties: the rows with
    [k] or more above them. *)
Lemma elem_of_drop_ranked (g : R -> Z) k t r :
  StronglySorted (fun a b => g b < g a) t ->
  r ∈ drop k t <-> r ∈ t /\ Z.of_nat k <= count (fun x => g r <? g x) t.
Proof.
  intros Hs. revert k. induction Hs as [|a t Hs IH Ha]; intros k.
  { rewrite drop_nil. split; [by intros ?%not_elem_of_nil|by intros [?%not_elem_of_nil _]]. }
  rewrite Forall_forall in Ha. destruct k as [|k]; simpl drop.
  { pose proof (count_nonneg (fun x => g r <? g x) (a :: t)). split; [done|by intros [? _]]. }
  rewrite IH, elem_of_cons, count_cons. split.
  - intros [Hr Hk]. rewrite (proj2 (Z.ltb_lt _ _) (Ha r Hr)). split; [by right|lia].
  - intros [[-> |Hr] Hk].
    + rewrite Z.ltb_irrefl, (proj2 (count_0 _ t)) in Hk; [lia|]. intros x Hx. specialize (Ha x Hx). simpl in Ha. lia.
    + rewrite (proj2 (Z.ltb_lt _ _) (Ha r Hr)) in Hk. split; [done|lia].
Qed.

Lemma order_by_desc_sorted (g : R -> Z) t :
  NoDup (map g t) -> StronglySorted (fun a b => g b < g a) (order_by (fun a b => g b <=? g a) t).
Proof.
  intros Hnd. assert (Hs : StronglySorted (flip Z.lt) (map g (order_by (fun a b => g b <=? g a) t))).
  { rewrite order_by_desc. apply StronglySorted_reverse, sorted_lt; [apply order_by_sorted|].
    by rewrite (Permutation_map g (order_by_Permutation _ t)). }
  induction (order_by _ t) as [|a l IH]; [constructor|]. simpl in Hs. apply StronglySorted_inv in Hs as [Hs Ha].
  constructor; [auto|]. apply Forall_forall. intros x Hx. rewrite Forall_forall in Ha. exact (Ha (g x) (in_mapped g l x Hx)).
Qed.

Lemma foldl_max_ge g t a : a <= foldl (fun a r => Z.max a (g r)) a t.
Proof. revert a. induction t as [|r t IH]; intros a; simpl; [lia|]. specialize (IH (Z.max a (g r))). lia. Qed.

Lemma foldl_max_bound g t a r : r ∈ t -> g r <= foldl (fun a r => Z.max a (g r)) a t.
Proof.
  revert a. induction t as [|r' t IH]; intros a Hin; [set_solver|]. simpl.
  apply elem_of_cons in Hin as [->|Hin]; [|by apply IH].
  pose proof (foldl_max_ge g t (Z.max a (g r'))). lia.
Qed.

Lemma max_of_bound g t m r : max_of g t = Some m -> r ∈ t -> g r <= m.
Proof.
  destruct t as [|r' t]; [done|]. intros [= <-] [->|Hin]%elem_of_cons.
  - apply foldl_max_ge.
  - by apply foldl_max_bound.
Qed.

Lemma max_of_elem g t m : max_of g t = Some m -> exists r, r ∈ t /\ g r = m.
Proof.
  destruct t as [|r0 t]; [done|]. simpl. intros [= <-]. revert r0. induction t as [|r t IH]; intros r0; simpl.
  - exists r0. split; [by left|done].
  - destruct (Z.max_spec (g r0) (g r)) as [[_ ->]|[_ ->]]; [destruct (IH r) as (x & Hx & <-)|destruct (IH r0) as (x & Hx & <-)];
      exists x; split; try done; apply elem_of_cons in Hx as [-> |Hx]; rewrite !elem_of_cons; auto.
Qed.

Lemma foldl_min_le g t a : foldl (fun a r => Z.min a (g r)) a t <= a.
Proof. revert a. induction t as [|r t IH]; intros a; simpl; [lia|]. etrans; [apply IH|lia]. Qed.

Lemma foldl_min_bound g t a r : r ∈ t -> foldl (fun a r => Z.min a (g r)) a t <= g r.
Proof.
  revert a. induction t as [|x t IH]; intros a Hr; [by apply elem_of_nil in Hr|]. simpl.
  apply elem_of_cons in Hr as [-> |Hr]; [etrans; [apply foldl_min_le|lia]|by apply IH].
Qed.

Lemma foldl_min_elem g t a :
  foldl (fun a r => Z.min a (g r)) a t = a \/ exists r, r ∈ t /\ foldl (fun a r => Z.min a (g r)) a t = g r.
Proof.
  revert a. induction t as [|x t IH]; intros a; simpl; [by left|].
  destruct (IH (Z.min a (g x))) as [-> |(r & Hr & ->)].
  - destruct (Z.min_spec a (g x)) as [[_ ->]|[_ ->]]; [by left|]. right. exists x. split; [left|done].
  - right. exists r. split; [by right|done].
Qed.

Lemma min_of_Some g t m :
  min_of g t = Some m -> (forall r, r ∈ t -> m <= g r) /\ exists r, r ∈ t /\ m = g r.
Proof.
  destruct t as [|x t]; [done|]. intros [= <-]. split.
  - intros r [-> |Hr]%elem_of_cons; [apply foldl_min_le|by apply foldl_min_bound].
  - destruct (foldl_min_elem g t (g x)) as [-> |(r & Hr & ->)]; [exists x|exists r]; split; try done; [left|by right].
Qed.

Lemma min_of_None g t : min_of g t = None <-> t = [].
Proof. by destruct t. Qed.

Lemma max_of_None g t : max_of g t = None <-> t = [].
Proof. by destruct t. Qed.

(** ** Keys *)

Section Key.
Context {K : Type} (key : R -> K).

Lemma key_update p f t :
  (forall r, key (f r) = key r) -> map key (update_where p f t) = map key t.
Proof.
  intros Hk. unfold update_where. rewrite map_map. apply map_ext. intros r. by destruct (p r).
Qed.

Lemma key_delete p t : NoDup (map key t) -> NoDup (map key (delete_where p t)).
Proof.
  intros H. eapply sublist_NoDup; [exact H|]. clear H. unfold delete_where.
  induction t as [|r t IH]; simpl; [constructor|].
  destruct (p r); simpl; by constructor.
Qed.

Lemma key_where p t : NoDup (map key t) -> NoDup (map key (where_ p t)).
Proof.
  intros Hnd. assert (Heq : where_ p t = delete_where (fun r => negb (p r)) t).
  { unfold where_, delete_where. apply List.filter_ext. intros r. by rewrite negb_involutive. }
  rewrite Heq. by apply key_delete.
Qed.

Lemma key_order_by le t : NoDup (map key t) -> NoDup (map key (order_by le t)).
Proof. by rewrite (Permutation_map key (order_by_Permutation le t)). Qed.

Lemma key_unique t r r' : NoDup (map key t) -> r ∈ t -> r' ∈ t -> key r = key r' -> r = r'.
Proof.
  induction t as [|x t IH]; [set_solver|]. simpl. intros [Hx Hnd]%NoDup_cons.
  assert (Hmem : forall y, y ∈ t -> key y ∈ map key t).
  { intros y Hy. apply list_elem_of_In. apply in_map. by apply list_elem_of_In. }
  intros [->|Hr]%elem_of_cons [->|Hr']%elem_of_cons Hk; [done| | |by apply IH].
  - destruct Hx. rewrite Hk. by apply Hmem.
  - destruct Hx. rewrite <-Hk. by apply Hmem.
Qed.

Context `{EqDecision K}.

Definition has_key (k : K) (r : R) : bool := bool_decide (key r = k).

Lemma has_key_true k r : has_key k r = true <-> key r = k.
Proof. apply bool_decide_eq_true. Qed.

(** [INSERT]: a conflict on the key is reported as [None]. *)
Definition insert_unique (r : R) (t : list R) : option (list R) :=
  if existsb (has_key (key r)) t then None else Some (t ++ [r]).

Lemma existsb_key k t : existsb (has_key k) t = false <-> k ∉ map key t.
Proof.
  rewrite list_elem_of_In, in_map_iff. split.
  - intros H (r & Hk & Hin). eapply not_true_iff_false in H. apply H. rewrite existsb_exists.
    exists r. by rewrite has_key_true.
  - intros H. apply not_true_iff_false. rewrite existsb_exists. intros (r & Hin & Hk%has_key_true).
    apply H. by exists r.
Qed.

Lemma insert_unique_Some r t t' :
  insert_unique r t = Some t' <-> key r ∉ map key t /\ t' = t ++ [r].
Proof. unfold insert_unique. rewrite <-existsb_key. case_match; naive_solver. Qed.

Lemma key_snoc r t : key r ∉ map key t -> NoDup (map key t) -> NoDup (map key (t ++ [r])).
Proof.
  intros Hr Hnd. rewrite map_app. apply NoDup_app. split; [done|]. split; [|apply NoDup_singleton].
  simpl. set_solver.
Qed.

(** A predicate that fixes the key selects at most one row, and one that also
    holds of a row of the table selects exactly that row. *)
Lemma where_one p k t r :
  NoDup (map key t) -> (forall x, p x = true -> key x = k) -> r ∈ t -> p r = true ->
  where_ p t = [r].
Proof.
  intros Hnd Hp Hin Hpr. induction t as [|x t IH]; [set_solver|]. unfold where_ in *. simpl.
  simpl in Hnd. apply NoDup_cons in Hnd as [Hx Hnd].
  assert (Hnone : key r = key x -> List.filter p t = []).
  { intros Hk. destruct (List.filter p t) as [|y l] eqn:Hf; [done|]. destruct Hx.
    assert (y ∈ where_ p t) as [Hy Hyt]%elem_of_where by (unfold where_; rewrite Hf; set_solver).
    rewrite <-Hk, (Hp r Hpr), <-(Hp y Hy). apply list_elem_of_In, in_map.
    by apply list_elem_of_In. }
  apply elem_of_cons in Hin as [->|Hin].
  - rewrite Hpr. f_equal. by apply Hnone.
  - destruct (p x) eqn:Hpx; [|by apply IH]. exfalso. apply Hx.
    rewrite (Hp x Hpx), <-(Hp r Hpr). by apply in_mapped.
Qed.

Lemma count_one p k t r :
  NoDup (map key t) -> (forall x, p x = true -> key x = k) -> r ∈ t -> p r = true -> count p t = 1.
Proof. intros. unfold count. by rewrite (where_one p k t r). Qed.

Lemma query_row_unique k t r :
  NoDup (map key t) -> r ∈ t -> key r = k -> query_row (has_key k) t = Some r.
Proof.
  intros Hnd Hin Hk. destruct (query_row (has_key k) t) as [r'|] eqn:Hq.
  - apply query_row_Some in Hq as [Hk'%has_key_true Hin']. f_equal.
    eapply key_unique; eauto. congruence.
  - eapply query_row_None in Hq; [|exact Hin]. apply bool_decide_eq_false in Hq. done.
Qed.

Lemma query_row_deleted k t : query_row (has_key k) (delete_where (has_key k) t) = None.
Proof.
  destruct (query_row _ _) as [r|] eqn:Hq; [|done].
  apply query_row_Some in Hq as [Hk [Hk' _]%elem_of_delete]. congruence.
Qed.

(** A statement that spares the rows under a key does not change its lookup. *)
Lemma query_row_delete_other k p t :
  (forall r, r ∈ t -> key r = k -> p r = false) ->
  query_row (has_key k) (delete_where p t) = query_row (has_key k) t.
Proof.
  intros Hp. unfold query_row, delete_where. induction t as [|r t IH]; [done|]. simpl.
  rewrite <-IH by (intros; apply Hp; set_solver). destruct (has_key k r) eqn:Hr.
  - apply has_key_true in Hr. rewrite (Hp r) by (done || set_solver). simpl.
    assert (has_key k r = true) as -> by by apply has_key_true. done.
  - destruct (p r); simpl; [done|]. by rewrite Hr.
Qed.

Lemma query_row_snoc k r t :
  query_row (has_key k) (t ++ [r]) =
  match query_row (has_key k) t with
  | Some x => Some x
  | None => if has_key k r then Some r else None
  end.
Proof.
  unfold query_row. induction t as [|x t IH]; simpl; [by destruct (has_key k r)|].
  by destruct (has_key k x).
Qed.

(** Looking a key up after an update that keeps keys. *)
Lemma query_row_update k p f t :
  (forall r, key (f r) = key r) ->
  query_row (has_key k) (update_where p f t) =
  (fun r => if p r then f r else r) <$> query_row (has_key k) t.
Proof.
  intros Hk. unfold query_row, update_where. induction t as [|r t IH]; [done|]. simpl.
  assert (has_key k (if p r then f r else r) = has_key k r) as ->.
  { unfold has_key. by destruct (p r); rewrite ?Hk. }
  by destruct (has_key k r).
Qed.
End Key.
End Table.

#[global] Arguments insert_unique {R K} key {_} r t.
#[global] Arguments has_key {R K} key {_} k r.

(** ** Statements as partial maps on rows *)

Lemma delete_omap {R} (p : R -> bool) (t : list R) : delete_where p t = omap (fun r => if p r then None else Some r) t.
Proof. induction t as [|r t IH]; [done|]. unfold delete_where in *. simpl. destruct (p r); simpl; by rewrite IH. Qed.

Lemma update_omap {R} (p : R -> bool) f (t : list R) :
  update_where p f t = omap (fun r => Some (if p r then f r else r)) t.
Proof. induction t as [|r t IH]; [done|]. unfold update_where in *. simpl. by rewrite IH. Qed.

Lemma omap_omap {R} (f g h : R -> option R) (t : list R) :
  (forall r, r ∈ t -> (r' ← f r; g r') = h r) -> omap g (omap f t) = omap h t.
Proof.
  induction t as [|r t IH]; [done|]. intros Hfg. simpl. rewrite <-(Hfg r) by set_solver.
  specialize (IH ltac:(set_solver)). destruct (f r) as [r'|]; simpl; [|exact IH].
  destruct (g r'); [|exact IH]. f_equal. exact IH.
Qed.

Lemma omap_same {R} (f g : R -> option R) (t : list R) : (forall r, r ∈ t -> f r = g r) -> omap f t = omap g t.
Proof.
  induction t as [|r t IH]; [done|]. intros Hfg. simpl. rewrite (Hfg r) by set_solver.
  specialize (IH ltac:(set_solver)). destruct (g r); [f_equal|]; exact IH.
Qed.

Lemma update_pointwise {R} (P : R -> R -> Prop) (p : R -> bool) f (t : list R) :
  (forall r, r ∈ t -> P r (if p r then f r else r)) -> Forall2 P t (update_where p f t).
Proof.
  induction t as [|r t IH]; intros HP; [constructor|]. unfold update_where in *. simpl.
  constructor; [apply HP; set_solver|apply IH; set_solver].
Qed.

#[export] Instance where_Permutation {R} (p : R -> bool) : Proper (Permutation ==> Permutation) (where_ p).
Proof.
  intros t t'. unfold where_. induction 1 as [|x t t' _ IH|x y t|t1 t2 t3 _ IH1 _ IH2]; simpl; [done| | |by etrans].
  - destruct (p x); by rewrite ?IH.
  - destruct (p x), (p y); try done. by constructor.
Qed.

Lemma delete_where_twice {R} (p q : R -> bool) t :
  delete_where q (delete_where p t) = delete_where (fun r => p r || q r) t.
Proof.
  induction t as [|r t IH]; [done|]. unfold delete_where in *. simpl.
  destruct (p r); simpl; [done|]. destruct (q r); simpl; by rewrite IH.
Qed.

Lemma where_deleted {R} (p : R -> bool) (t : list R) : where_ p (delete_where p t) = [].
Proof.
  induction t as [|r t IH]; [done|]. unfold where_, delete_where in *. simpl.
  destruct (p r) eqn:Hp; simpl; [done|]. by rewrite Hp.
Qed.

Lemma where_ext {R} (p q : R -> bool) (t : list R) :
  (forall r, r ∈ t -> p r = q r) -> where_ p t = where_ q t.
Proof.
  induction t as [|r t IH]; [done|]. intros Hpq. unfold where_ in *. simpl.
  rewrite (Hpq r), IH by set_solver. done.
Qed.

Lemma delete_where_ext {R} (p q : R -> bool) (t : list R) :
  (forall r, r ∈ t -> p r = q r) -> delete_where p t = delete_where q t.
Proof.
  induction t as [|r t IH]; [done|]. intros Hpq. unfold delete_where in *. simpl.
  rewrite (Hpq r), IH by set_solver. done.
Qed.

Lemma omap_id {R} (f : R -> option R) (t : list R) : (forall r, r ∈ t -> f r = Some r) -> omap f t = t.
Proof.
  induction t as [|r t IH]; [done|]. intros Hf. simpl. rewrite (Hf r) by set_solver. f_equal.
  apply IH. set_solver.
Qed.

(** A statement that touches one row of a table already rewritten by [f]. *)
Lemma omap_row {R K} (key : R -> K) (f f' h : R -> option R) (p : R -> bool) r0 (t : list R) :
  NoDup (map key t) -> r0 ∈ t -> (forall x, p x = true -> key x = key r0) -> p r0 = true ->
  f r0 = Some r0 -> f' r0 = h r0 -> (forall r, r ∈ t -> key r <> key r0 -> f' r = f r) ->
  (forall r r', f r = Some r' -> key r' = key r) ->
  omap (fun x => if p x then h x else Some x) (omap f t) = omap f' t.
Proof.
  intros Hnd Hr0 Hp Hpr0 Hf Hf' Hother Hkey. apply omap_omap. intros r Hr.
  destruct (p r) eqn:Hpr.
  - assert (r = r0) as -> by (eapply (key_unique key); eauto). by rewrite Hf, Hf'; simpl; rewrite Hpr0.
  - assert (key r <> key r0) as Hne.
    { intros Hk. assert (r = r0) as -> by (eapply (key_unique key); eauto). congruence. }
    rewrite Hother by done. destruct (f r) as [r'|] eqn:Hfr; simpl; [|done].
    destruct (p r') eqn:Hpr'; [|done]. apply Hkey in Hfr. apply Hp in Hpr'. congruence.
Qed.
