(* ===== verification/Auth.v ===== *)
(** * Bearer tokens: roles, patterns, principals, the token file and the registry

    Translation of [internal/auth]: [role.go], [pattern.go], [principal.go],
    [file.go] and [registry.go].  [crypto/sha256] is a parameter, a function on
    byte strings of which nothing is assumed here. *)

From stdpp Require Import gmap.
From S2P Require Import Prelude GoText TextFields Sql.

(** ** Roles: role.go *)

Inductive Role : Set := RolePublish | RoleConsume | RoleAdmin.

#[global] Instance Role_eq_dec : EqDecision Role.
Proof. solve_decision. Defined.

Definition role_index (r : Role) : Z :=
  match r with RolePublish => 0 | RoleConsume => 1 | RoleAdmin => 2 end.

Definition all_role_values : list Role := [RolePublish; RoleConsume; RoleAdmin].

(** A [RoleSet] is a uint8 bitmask. *)
Abbreviation RoleSet := Z (only parsing).

Definition allRoles : RoleSet := 7.

Definition roleBit (r : Role) : RoleSet := Z.shiftl 1 (role_index r).

Definition Has (rs : RoleSet) (r : Role) : bool := negb (Z.land rs (roleBit r) =? 0).

Definition Role_String (r : Role) : string :=
  match r with RolePublish => "publish" | RoleConsume => "consume" | RoleAdmin => "admin" end.

Definition RoleSet_String (rs : RoleSet) : string :=
  if rs =? 0 then "" else join_with "," (map Role_String (List.filter (Has rs) all_role_values)).

Definition ParseRole (s : string) : result Role :=
  if bool_decide (s = "publish") then Ok RolePublish
  else if bool_decide (s = "consume") then Ok RoleConsume
  else if bool_decide (s = "admin") then Ok RoleAdmin
  else Err (E ErrBadRequest "unknown role").

Fixpoint parse_roles (out : RoleSet) (parts : list string) : result RoleSet :=
  match parts with
  | [] => Ok out
  | part :: parts' =>
      let? r := ParseRole part in
      if Has out r then Err (E ErrBadRequest "duplicate role")
      else parse_roles (Z.lor out (roleBit r)) parts'
  end.

Definition ParseRoleSet (s : string) : result RoleSet :=
  if bool_decide (s = "") then Err (E ErrBadRequest "the role list is empty")
  else parse_roles 0 (split_on "," s).

(** ** Stream patterns: pattern.go *)

Record Pattern := mkPattern { pat_raw : string; pat_star : bool; pat_prefix : bool; pat_lit : string }.

Definition ParsePattern (s : string) : result Pattern :=
  if bool_decide (s = "") then Err (E ErrBadRequest "stream pattern is empty")
  else if contains_str ">" s then Err (E ErrBadRequest "stream patterns are not subject patterns")
  else match cut "*" s with
       | None => Ok (mkPattern s false false s)
       | Some (l, r) =>
           if bool_decide (s = "*") then Ok (mkPattern s true false "")
           else if bool_decide (String.length l = String.length s - 1)%nat
           then Ok (mkPattern s false true (take_str (String.length s - 1) s))
           else Err (E ErrBadRequest "* is only allowed as a whole pattern or a trailing character")
       end.

Definition Pattern_Match (p : Pattern) (stream : string) : bool :=
  if pat_star p then true
  else if pat_prefix p then has_prefix (pat_lit p) stream
  else bool_decide (stream = pat_lit p).

(** ** Principals: principal.go *)

Inductive Kind : Set := KindAnonymous | KindToken | KindLocal.

Record Peer := mkPeer { UID : Z; GID : Z; PID : Z }.

Record Grant := mkGrant { g_Roles : RoleSet; g_Pattern : Pattern }.

Record Principal := mkPrincipal {
  p_ID : string;
  p_Kind : Kind;
  p_grants : list Grant;
  p_Peer : option Peer }.

Definition NewPrincipal (id : string) (kind : Kind) (grants : list Grant) : Principal :=
  mkPrincipal id kind grants None.

Definition NewLocalPrincipal (id : string) (peer : option Peer) : Principal :=
  mkPrincipal id KindLocal [mkGrant allRoles (mkPattern "*" true false "")] peer.

Definition Allows (p : Principal) (r : Role) (stream : string) : bool :=
  existsb (fun g => Has (g_Roles g) r && Pattern_Match (g_Pattern g) stream) (p_grants p).

Definition AllowsAny (p : Principal) (rs : RoleSet) (stream : string) : bool :=
  existsb (fun g => negb (Z.land (g_Roles g) rs =? 0) && Pattern_Match (g_Pattern g) stream) (p_grants p).

Definition AllowsGlobal (p : Principal) (r : Role) : bool :=
  existsb (fun g => Has (g_Roles g) r && pat_star (g_Pattern g)) (p_grants p).

Definition FilterStreams (p : Principal) (rs : RoleSet) (names : list string) : list string :=
  List.filter (AllowsAny p rs) names.

Definition Actor (p : Principal) : string :=
  match p_Kind p with
  | KindToken => "tok:" +:+ p_ID p
  | KindLocal => match p_Peer p with
                 | Some peer => "uid:" +:+ format_int (UID peer)
                 | None => "uid:unknown"
                 end
  | KindAnonymous => "anonymous"
  end.

(** ** The token file: file.go *)

Definition maxTokenLineBytes : Z := 8 * 1024.

(** [Hash] holds the 32 bytes of the digest. *)
Record Token := mkToken { t_ID : string; t_Hash : string; t_Roles : RoleSet; t_Patterns : list Pattern }.

Definition Token_Principal (t : Token) : Principal :=
  NewPrincipal (t_ID t) KindToken (map (mkGrant (t_Roles t)) (t_Patterns t)).

Definition Token_String (t : Token) : string :=
  join_with " " [t_ID t; EncodeToString (t_Hash t); RoleSet_String (t_Roles t);
                 join_with "," (map pat_raw (t_Patterns t))].

Definition Render (tokens : list Token) : string := join_with "010" (map Token_String tokens).

Definition id_lead (c : ascii) : bool := cont_in 97 122 c || cont_in 48 57 c.
Definition id_byte (c : ascii) : bool :=
  id_lead c || (byte_z c =? 46) || (byte_z c =? 95) || (byte_z c =? 45).

Definition validTokenID (s : string) : bool :=
  negb ((slen s <? 2) || (64 <? slen s))
  && match s with
     | EmptyString => false
     | String c s' => id_lead c && all_bytes id_byte s'
     end.

Fixpoint parse_patterns (parts : list string) : result (list Pattern) :=
  match parts with
  | [] => Ok []
  | s :: parts' =>
      let? p := ParsePattern s in
      let? ps := parse_patterns parts' in
      Ok (p :: ps)
  end.

Definition parseToken (f0 f1 f2 f3 : string) : result Token :=
  if negb (validTokenID f0) then Err (E ErrBadRequest "token id")
  else if negb (slen f1 =? 64) then Err (E ErrBadRequest "expected 64 hex characters")
  else match hex_decode f1 with
       | None => Err (E ErrBadRequest "hash is not hexadecimal")
       | Some hash =>
           let? roles := ParseRoleSet f2 in
           let? patterns := parse_patterns (split_on "," f3) in
           Ok (mkToken f0 hash roles patterns)
       end.

(** U+FEFF in UTF-8. *)
Definition bom : string := String "239" (String "187" (String "191" "")).

Definition trim_prefix (p s : string) : string :=
  if has_prefix p s then drop_str (String.length p) s else s.

(** The loop of [Parse] over the scanned lines; [first] marks line 1, [seen]
    holds the tokens so far, whose ids and hashes are the two [seen] maps.  A
    line the scanner itself refuses (64 KiB) is longer than the bound checked
    here and is refused with the same error. *)
Fixpoint parse_lines (first : bool) (seen : list Token) (ls : list string) : result (list Token) :=
  match ls with
  | [] => Ok seen
  | raw :: ls' =>
      let line := if first then trim_prefix bom raw else raw in
      if maxTokenLineBytes <? slen line then Err (E ErrBadRequest "line is too long")
      else
        let line := TrimSpace line in
        if bool_decide (line = "") || has_prefix "#" line then parse_lines false seen ls'
        else match Fields line with
             | [f0; f1; f2; f3] =>
                 let? tok := parseToken f0 f1 f2 f3 in
                 if bool_decide (t_ID tok ∈ map t_ID seen) then Err (E ErrBadRequest "duplicate token id")
                 else if bool_decide (t_Hash tok ∈ map t_Hash seen) then Err (E ErrBadRequest "duplicate hash")
                 else parse_lines false (seen ++ [tok]) ls'
             | _ => Err (E ErrBadRequest "expected four fields")
             end
  end.

Definition Parse (text : string) : result (list Token) := parse_lines true [] (scan_lines text).

(** ** The registry: registry.go *)

Definition credentialPrefix : string := "msq1_".
Definition minSecretBytes : Z := 16.
Definition maxSecretBytes : Z := 512.

Record entry := mkEntry { e_hash : string; e_principal : Principal }.

Record tokenSet := mkTokenSet { byID : gmap string entry; decoy : entry }.

Definition secret_byte (c : ascii) : bool :=
  cont_in 65 90 c || cont_in 97 122 c || cont_in 48 57 c
  || (byte_z c =? 46) || (byte_z c =? 95) || (byte_z c =? 126) || (byte_z c =? 45).

Definition validSecret (s : string) : bool :=
  negb ((slen s <? minSecretBytes) || (maxSecretBytes <? slen s)) && all_bytes secret_byte s.

Definition splitCredential (cred : string) : option string :=
  if negb (has_prefix credentialPrefix cred) then None
  else match cut "_" (drop_str (String.length credentialPrefix) cred) with
       | None => None
       | Some (id, secret) =>
           if negb (validTokenID id) || negb (validSecret secret) then None else Some id
       end.

Section Registry.
(** [sha256.Sum256]. *)
Variable sha256 : string -> string.

Definition decoyDigest : string := sha256 "messq auth decoy digest".

Definition buildTokenSet (tokens : list Token) : tokenSet :=
  mkTokenSet
    (fold_left (fun m t => <[t_ID t := mkEntry (t_Hash t) (Token_Principal t)]> m) tokens ∅)
    (mkEntry decoyDigest (mkPrincipal "" KindAnonymous [] None)).

(** The pointer [Registry.set] holds is the state; [NewRegistry] and
    [SwapTokens] store a set built beforehand. *)
Definition NewRegistry (tokens : list Token) : tokenSet := buildTokenSet tokens.
Definition SwapTokens (_ : tokenSet) (tokens : list Token) : tokenSet := buildTokenSet tokens.

Definition LiveIDs (set : tokenSet) : list string :=
  order_by String.leb (map fst (map_to_list (byID set))).

Definition Verify (set : tokenSet) (credential : string) : result Principal :=
  match splitCredential credential with
  | None => Err (E ErrUnauthorized "malformed credential")
  | Some id =>
      let sum := sha256 credential in
      let '(ent, found) := match byID set !! id with
                           | Some e => (e, true)
                           | None => (decoy set, false)
                           end in
      if negb (bool_decide (sum = e_hash ent)) || negb found
      then Err (E ErrUnauthorized "unknown token or bad secret")
      else Ok (e_principal ent)
  end.
End Registry.

(** ** Roles and patterns *)

Lemma parse_roles_short parts rs :
  parse_roles 0 parts = Ok rs ->
  0 <= rs < 8 /\ (parts <> [] -> 0 < rs /\ parse_roles 0 (split_on "," (RoleSet_String rs)) = Ok rs /\
     String.length (RoleSet_String rs) = String.length (join_with "," parts)).
Proof.
  destruct parts as [|p0 [|p1 [|p2 [|p3 parts]]]]; simpl; unfold ParseRole;
    repeat (case_bool_decide; subst; simpl; try done); intros [= <-]; vm_compute; intuition congruence.
Qed.

(** [RoleSet.String] is a canonical form [ParseRoleSet] reads back. *)
Lemma RoleSet_roundtrip s rs :
  ParseRoleSet s = Ok rs ->
  0 < rs < 8 /\ ParseRoleSet (RoleSet_String rs) = Ok rs /\
  String.length (RoleSet_String rs) = String.length s.
Proof.
  unfold ParseRoleSet at 1. case_bool_decide as Hs; [done|]. intros H.
  apply parse_roles_short in H as [Hr H]. destruct H as (Hp & Hpr & Hl); [apply split_on_not_nil|].
  rewrite join_split in Hl. split_and!; [lia|lia| |done].
  unfold ParseRoleSet. rewrite bool_decide_eq_false_2; [done|].
  intros He. rewrite He in Hl. by destruct s.
Qed.

Lemma RoleSet_text rs : 0 < rs < 8 ->
  ParseRoleSet (RoleSet_String rs) = Ok rs /\ word (RoleSet_String rs).
Proof.
  intros H. assert (List.In rs (map Z.of_nat (seq 1 7))) as Hin.
  { apply in_map_iff. exists (Z.to_nat rs). split; [lia|]. apply in_seq. lia. }
  simpl in Hin. repeat (destruct Hin as [<-|Hin]; [by vm_compute|]). done.
Qed.

(** [r] is a member of the set the bitmask denotes. *)
Lemma Has_lor rs r q : Has (Z.lor rs (roleBit q)) r = Has rs r || bool_decide (r = q).
Proof.
  unfold Has, roleBit.
  assert (forall a k, 0 <= k -> negb (Z.land a (Z.shiftl 1 k) =? 0) = Z.testbit a k) as Hb.
  { intros a k Hk. rewrite Z.shiftl_1_l. destruct (Z.testbit a k) eqn:Ht.
    - apply negb_true_iff, Z.eqb_neq. intros H0.
      apply (f_equal (fun z => Z.testbit z k)) in H0.
      rewrite Z.land_spec, Ht, Z.pow2_bits_true, Z.bits_0 in H0 by done. done.
    - apply negb_false_iff, Z.eqb_eq, Z.bits_inj'. intros n Hn.
      rewrite Z.land_spec, Z.bits_0, Z.pow2_bits_eqb by done.
      destruct (Z.eqb_spec k n) as [->|]; [by rewrite Ht|apply andb_false_r]. }
  rewrite !Hb by (by destruct r). rewrite Z.lor_spec. f_equal. rewrite Z.shiftl_1_l, Z.pow2_bits_eqb by (by destruct q).
  by destruct r, q.
Qed.

(** A parsed role list grants exactly the roles it names. *)
Lemma parse_roles_has out parts rs r :
  parse_roles out parts = Ok rs -> Has rs r = true <-> Has out r = true \/ Role_String r ∈ parts.
Proof.
  revert out; induction parts as [|p parts IH]; intros out; simpl; [intros [= <-]; set_solver|].
  intros (q & Hq & H)%rbind_ok. case_match; [done|]. rewrite (IH _ H), Has_lor, orb_true_iff.
  assert (p = Role_String q) as ->.
  { unfold ParseRole in Hq. repeat (case_bool_decide; [by simplify_eq/=|]). done. }
  rewrite bool_decide_eq_true, elem_of_cons.
  assert (Role_String r = Role_String q <-> r = q) as -> by (by destruct r, q). tauto.
Qed.

(** What a pattern text covers. *)
Definition covers (pat stream : string) : Prop :=
  pat = stream /\ has_byte "*" pat = false \/ exists l, pat = l +:+ "*" /\ has_prefix l stream = true.

Lemma contains_char c s : contains_str (String c "") s = has_byte c s.
Proof.
  induction s as [|a s IH]; [done|]. cbn [contains_str has_byte has_prefix]. rewrite IH, andb_true_r.
  f_equal. by apply bool_decide_ext.
Qed.

(** A compiled pattern matches the streams its text covers. *)
Lemma ParsePattern_match s p stream :
  ParsePattern s = Ok p -> pat_raw p = s /\ (Pattern_Match p stream = true <-> covers s stream).
Proof.
  unfold ParsePattern, covers. case_bool_decide as Hs; [done|]. rewrite contains_char.
  case_match; [done|]. destruct (cut "*" s) as [[l r]|] eqn:Hc.
  - apply cut_Some in Hc as [Hsp Hl]. case_bool_decide as Hstar.
    { intros [= <-]. split; [done|]. subst s. rewrite Hstar. split; [|done]. intros _. right. by exists "". }
    case_bool_decide as Hlen; [|done]. intros [= <-]. split; [done|]. unfold Pattern_Match. simpl.
    assert (r = "") as ->.
    { rewrite Hsp, sapp_length in Hlen. simpl in Hlen. destruct r; [done|simpl in Hlen; lia]. }
    rewrite Hsp, sapp_length. replace (String.length l + _ - 1)%nat with (String.length l) by (simpl; lia).
    rewrite take_str_app, has_byte_app. split; [naive_solver|].
    intros [[_ H']|(l' & He & Hp)]; [by rewrite Hl in H'|].
    assert (l' = l) as ->; [|done].
    apply (f_equal (cut "*")) in He. rewrite cut_app in He by done.
    destruct (cut "*" l') as [[a b]|] eqn:Hcut.
    { apply cut_Some in Hcut as [-> Ha]. rewrite sapp_assoc in He. cbn [String.append] in He.
      rewrite cut_app in He by done. simplify_eq. by destruct b. }
    rewrite cut_app in He by (by apply cut_None). by simplify_eq.
  - intros [= <-]. split; [done|]. unfold Pattern_Match. simpl. rewrite bool_decide_eq_true.
    apply cut_None in Hc. split; [naive_solver|]. intros [[? _]|(l & -> & _)]; [done|].
    rewrite has_byte_app in Hc. simpl in Hc. by rewrite orb_true_r in Hc.
Qed.

(** ** The token file *)

Definition pattern_ok (p : Pattern) : Prop :=
  ParsePattern (pat_raw p) = Ok p /\ has_byte "," (pat_raw p) = false.

(** What a token a file can hold looks like. *)
Record token_ok (t : Token) : Prop := {
  ok_id : validTokenID (t_ID t) = true;
  ok_hash : String.length (t_Hash t) = 32%nat;
  ok_roles : 0 < t_Roles t < 8;
  ok_patterns : t_Patterns t <> [];
  ok_each : Forall pattern_ok (t_Patterns t);
  ok_blank : no_space (join_with "," (map pat_raw (t_Patterns t))) = true;
  ok_line : slen (Token_String t) <= maxTokenLineBytes }.

(** Tokens a file can hold together. *)
Record tokens_ok (ts : list Token) : Prop := {
  ok_tokens : Forall token_ok ts;
  ok_ids : NoDup (map t_ID ts);
  ok_hashes : NoDup (map t_Hash ts) }.

Lemma parse_patterns_ok parts ps :
  Forall (fun s => has_byte "," s = false) parts -> parse_patterns parts = Ok ps ->
  Forall pattern_ok ps /\ map pat_raw ps = parts.
Proof.
  intros Hp. revert ps; induction Hp as [|s parts Hs Hp IH]; intros ps; simpl; [by intros [= <-]|].
  intros (p & H & (qs & Hqs & [= <-])%rbind_ok)%rbind_ok.
  destruct (IH _ Hqs) as [Hok Hm]. destruct (ParsePattern_match _ _ "" H) as [Hraw _].
  split; [|by simpl; rewrite Hraw, Hm]. constructor; [|done]. split; by rewrite Hraw.
Qed.

Lemma parse_patterns_raw ps : Forall pattern_ok ps -> parse_patterns (map pat_raw ps) = Ok ps.
Proof. induction 1 as [|p ps [Hp _] _ IH]; [done|]. simpl. by rewrite Hp, IH. Qed.

Lemma id_byte_plain c : id_byte c = true -> byte_z c < 128 /\ IsSpace (byte_z c) = false.
Proof.
  unfold id_byte, id_lead, cont_in, IsSpace. simpl. rewrite !orb_false_iff. bool_prop.
  intros H. split; [lia|]. repeat split; bool_prop; lia.
Qed.

Lemma is_hex_plain c : is_hex c = true -> byte_z c < 128 /\ IsSpace (byte_z c) = false.
Proof.
  unfold is_hex, is_digit, cont_in, IsSpace. simpl. rewrite !orb_false_iff. bool_prop.
  intros H. split; [lia|]. repeat split; bool_prop; lia.
Qed.

Lemma validTokenID_bytes s : validTokenID s = true -> s <> "" /\ all_bytes id_byte s = true.
Proof.
  unfold validTokenID. destruct s as [|c s]; [by rewrite andb_false_r|].
  intros [_ [Hc Hs]%andb_true_iff]%andb_true_iff. split; [done|]. cbn [all_bytes]. rewrite Hs.
  unfold id_byte at 1. by rewrite Hc.
Qed.

Lemma validTokenID_word s : validTokenID s = true -> word s.
Proof.
  intros [Hne Hb]%validTokenID_bytes. split; [done|]. eapply ascii_no_space; [|done]. apply id_byte_plain.
Qed.

Lemma hash_word h : String.length h = 32%nat -> word (EncodeToString h).
Proof.
  intros Hh. split; [by destruct h|]. eapply ascii_no_space; [apply is_hex_plain|apply encode_is_hex].
Qed.

Lemma pattern_text_not_empty p : pattern_ok p -> pat_raw p <> "".
Proof. intros [H _] He. rewrite He in H. done. Qed.

Lemma token_words t :
  token_ok t ->
  Forall word [t_ID t; EncodeToString (t_Hash t); RoleSet_String (t_Roles t);
               join_with "," (map pat_raw (t_Patterns t))].
Proof.
  intros Ht. repeat constructor; try (by apply validTokenID_word, Ht || by apply hash_word, Ht || by apply RoleSet_text, Ht).
  - destruct Ht as [_ _ _ Hp He _ _]. destruct (t_Patterns t) as [|p ps]; [done|].
    apply Forall_cons in He as [Hp' _]. apply pattern_text_not_empty in Hp'.
    destruct ps; simpl; [done|]. by destruct (pat_raw p).
  - apply Ht.
Qed.

(** [Token.String] parses back to the token. *)
Lemma parseToken_canonical t :
  token_ok t ->
  parseToken (t_ID t) (EncodeToString (t_Hash t)) (RoleSet_String (t_Roles t))
    (join_with "," (map pat_raw (t_Patterns t))) = Ok t.
Proof.
  intros Ht. unfold parseToken. rewrite (ok_id _ Ht), encode_length, (ok_hash _ Ht). cbn [negb].
  change (Z.of_nat (2 * 32) =? 64) with true. cbn [negb]. rewrite hex_decode_encode.
  destruct (RoleSet_text _ (ok_roles _ Ht)) as [-> _]. cbn [rbind].
  rewrite split_join.
  - rewrite (parse_patterns_raw _ (ok_each _ Ht)). by destruct t.
  - pose proof (ok_patterns _ Ht). by destruct (t_Patterns t).
  - apply Forall_map. eapply Forall_impl; [apply (ok_each _ Ht)|]. by intros p [_ H].
Qed.

(** What a line of four fields parses to can stand in a file. *)
Lemma parseToken_ok f0 f1 f2 f3 t :
  Forall word [f0; f1; f2; f3] -> slen (join_with " " [f0; f1; f2; f3]) <= maxTokenLineBytes ->
  parseToken f0 f1 f2 f3 = Ok t -> token_ok t.
Proof.
  intros Hw Hlen. unfold parseToken. destruct (validTokenID f0) eqn:Hid; [|done].
  destruct (slen f1 =? 64) eqn:Hh; [|done]. cbn [negb]. bool_prop.
  destruct (hex_decode f1) as [hash|] eqn:Hx; [|done].
  intros (rs & Hrs & (ps & Hps & [= <-])%rbind_ok)%rbind_ok.
  apply hex_decode_length in Hx. apply RoleSet_roundtrip in Hrs as (Hr & _ & Hrl).
  apply parse_patterns_ok in Hps as [Hok Hm]; [|apply split_on_parts].
  assert (join_with "," (map pat_raw ps) = f3) as Hj by (rewrite Hm; apply join_split).
  split; simpl; [done|lia|done| |done| |].
  - intros ->. by apply (split_on_not_nil "," f3).
  - rewrite Hj. rewrite !Forall_cons in Hw. by destruct Hw as (_ & _ & _ & [_ ?] & _).
  - unfold Token_String. simpl t_ID. simpl t_Hash. simpl t_Roles. simpl t_Patterns. rewrite Hj.
    cbn [join_with] in *. rewrite !sapp_length in *. cbn [String.length] in *. rewrite !sapp_length in *.
    cbn [String.length] in *. rewrite !sapp_length in *. cbn [String.length] in *.
    rewrite encode_length. lia.
Qed.

Lemma tokens_ok_snoc ts t :
  tokens_ok ts -> token_ok t -> t_ID t ∉ map t_ID ts -> t_Hash t ∉ map t_Hash ts -> tokens_ok (ts ++ [t]).
Proof.
  intros [H1 H2 H3] Ht Hi Hh. split; rewrite ?map_app; simpl.
  - apply Forall_app. split; [done|]. by constructor.
  - apply NoDup_app. split_and!; [done| |apply NoDup_singleton]. set_solver.
  - apply NoDup_app. split_and!; [done| |apply NoDup_singleton]. set_solver.
Qed.

(** Whatever [Parse] accepts can stand in a file. *)
Lemma parse_lines_ok first seen ls ts :
  tokens_ok seen -> parse_lines first seen ls = Ok ts -> tokens_ok ts.
Proof.
  revert first seen; induction ls as [|raw ls IH]; intros first seen Hs; cbn [parse_lines]; [by intros [= <-]|].
  set (line := if first then trim_prefix bom raw else raw).
  destruct (maxTokenLineBytes <? slen line) eqn:Hlen; [done|].
  destruct (bool_decide (TrimSpace line = "") || has_prefix "#" (TrimSpace line)); [by apply IH|].
  pose proof (Fields_words (TrimSpace line)) as Hw. pose proof (Fields_join_length (TrimSpace line)) as Hj.
  pose proof (TrimSpace_length line) as Ht. apply Z.ltb_ge in Hlen.
  destruct (Fields (TrimSpace line)) as [|f0 [|f1 [|f2 [|f3 [|f4 fs]]]]]; try done.
  intros (tok & Htok & H)%rbind_ok. case_bool_decide as Hid; [done|]. case_bool_decide as Hhash; [done|].
  apply IH in H; [done|]. apply tokens_ok_snoc; [done| |done|done].
  eapply parseToken_ok; [exact Hw| |exact Htok]. lia.
Qed.

Lemma Token_String_trim t : token_ok t -> TrimSpace (Token_String t) = Token_String t.
Proof.
  intros Ht. pose proof (token_words t Ht) as Hw. rewrite !Forall_cons in Hw.
  destruct Hw as (H0 & _ & _ & H3 & _). unfold Token_String. cbn [join_with].
  apply (TrimSpace_edges _ (join_with "," (map pat_raw (t_Patterns t))) _
           (t_ID t +:+ String " " (EncodeToString (t_Hash t) +:+ String " " (RoleSet_String (t_Roles t))))); [done|done|].
  rewrite sapp_assoc. cbn [String.append]. by rewrite sapp_assoc.
Qed.

Lemma id_lead_ascii c : id_lead c = true -> byte_z c < 128 /\ c <> "#"%char.
Proof. intros H. split; [unfold id_lead, cont_in in H; bool_prop; lia|]. by intros ->. Qed.

Lemma Token_String_head t :
  token_ok t -> exists c s, Token_String t = String c s /\ id_lead c = true.
Proof.
  intros Ht. pose proof (ok_id _ Ht) as Hid. unfold Token_String. destruct (t_ID t) as [|c s].
  - unfold validTokenID in Hid. by rewrite andb_false_r in Hid.
  - unfold validTokenID in Hid. apply andb_true_iff in Hid as [_ [Hc _]%andb_true_iff]. simpl. eauto.
Qed.

(** Reading a canonical line appends its token. *)
Lemma parse_lines_canonical first seen t ls :
  token_ok t -> t_ID t ∉ map t_ID seen -> t_Hash t ∉ map t_Hash seen ->
  parse_lines first seen (Token_String t :: ls) = parse_lines false (seen ++ [t]) ls.
Proof.
  intros Ht Hid Hh. cbn [parse_lines].
  destruct (Token_String_head t Ht) as (c & s & Heq & [Hc Hsharp]%id_lead_ascii).
  assert ((if first then trim_prefix bom (Token_String t) else Token_String t) = Token_String t) as ->.
  { destruct first; [|done]. unfold trim_prefix, bom. rewrite Heq. simpl.
    rewrite bool_decide_eq_false_2; [done|]. intros <-. done. }
  pose proof (ok_line _ Ht) as Hlen. rewrite (proj2 (Z.ltb_ge _ _) Hlen), (Token_String_trim t Ht).
  assert (bool_decide (Token_String t = "") || has_prefix "#" (Token_String t) = false) as ->.
  { rewrite Heq. cbn [has_prefix]. by rewrite !bool_decide_eq_false_2 by congruence. }
  unfold Token_String at 1. rewrite Fields_join by (done || by apply token_words).
  rewrite parseToken_canonical by done. cbn [rbind]. by rewrite !bool_decide_eq_false_2.
Qed.

Lemma parse_lines_tokens first seen ts :
  tokens_ok (seen ++ ts) -> parse_lines first seen (map Token_String ts) = Ok (seen ++ ts).
Proof.
  revert first seen; induction ts as [|t ts IH]; intros first seen Hok; [by rewrite app_nil_r|].
  cbn [map]. rewrite parse_lines_canonical.
  - rewrite IH; by rewrite <-app_assoc.
  - destruct Hok as [H _ _]. apply Forall_app in H as [_ H]. by apply Forall_cons in H as [].
  - destruct Hok as [_ H _]. rewrite map_app in H. apply NoDup_app in H as (_ & H & _). set_solver.
  - destruct Hok as [_ _ H]. rewrite map_app in H. apply NoDup_app in H as (_ & H & _). set_solver.
Qed.

(** A canonical line has no control byte that ends a line. *)
Lemma Token_String_line b t :
  token_ok t -> byte_z b < 128 -> IsSpace (byte_z b) = true -> b <> " "%char ->
  has_byte b (Token_String t) = false.
Proof.
  intros Ht Hb Hs Hne. apply join_with_no_byte; [done|].
  eapply Forall_impl; [by apply token_words|]. intros s [_ Hn]. by apply no_space_byte.
Qed.

Lemma Parse_Render_ok ts : tokens_ok ts -> Parse (Render ts) = Ok ts.
Proof.
  intros Hok. unfold Parse, Render. rewrite scan_lines_unterminated.
  - by apply (parse_lines_tokens true []).
  - apply Forall_map. destruct Hok as [H _ _]. eapply Forall_impl; [exact H|]. intros t Ht. split_and!.
    + destruct (Token_String_head t Ht) as (c & s & -> & _). done.
    + by apply Token_String_line.
    + by apply Token_String_line.
Qed.

(** A token file round trips.  [Parse] accepts exactly the token lists a
    file can hold (valid ids, 32-byte hashes, a non-empty role set, patterns
    that compile, lines of at most 8 KiB, no id and no hash twice): what it
    returns of any text, [Render] writes in a canonical form that parses back
    to the same tokens; and every such list is the parse of its rendering. *)
Theorem token_file_roundtrip (ts : list Token) :
  ((exists text, Parse text = Ok ts) <-> tokens_ok ts) /\
  ((exists text, Parse text = Ok ts) -> Parse (Render ts) = Ok ts).
Proof.
  assert ((exists text, Parse text = Ok ts) <-> tokens_ok ts) as H.
  { split; [|intros H; exists (Render ts); by apply Parse_Render_ok].
    intros [text Hp]. eapply parse_lines_ok; [|exact Hp]. split; constructor. }
  split; [done|]. intros Hp. by apply Parse_Render_ok, H.
Qed.

(** ** The registry *)

Lemma fold_tokens_lookup ts (m : gmap string entry) id e :
  NoDup (map t_ID ts) ->
  fold_left (fun m t => <[t_ID t := mkEntry (t_Hash t) (Token_Principal t)]> m) ts m !! id = Some e <->
  (exists t, t ∈ ts /\ t_ID t = id /\ e = mkEntry (t_Hash t) (Token_Principal t)) \/
  (id ∉ map t_ID ts /\ m !! id = Some e).
Proof.
  revert m; induction ts as [|t ts IH]; intros m; simpl; [set_solver|].
  intros [Ht Hts]%NoDup_cons. rewrite (IH _ Hts). setoid_rewrite elem_of_cons. split.
  - intros [(u & ? & ? & ?)|[Hid Hm]]; [naive_solver|].
    destruct (decide (t_ID t = id)) as [<-|Hne].
    + rewrite lookup_insert_eq in Hm. naive_solver.
    + rewrite lookup_insert_ne in Hm by done. right. naive_solver.
  - intros [(u & [->|Hu] & Hid & ->)|[Hid Hm]].
    + right. rewrite <-Hid, lookup_insert_eq. done.
    + left. naive_solver.
    + right. split; [naive_solver|]. rewrite lookup_insert_ne; naive_solver.
Qed.

Lemma splitCredential_spec cred id :
  splitCredential cred = Some id <->
  exists secret, cred = credentialPrefix +:+ id +:+ String "_" secret /\ has_byte "_" id = false /\
    validTokenID id = true /\ validSecret secret = true.
Proof.
  unfold splitCredential. split.
  - destruct (has_prefix credentialPrefix cred) eqn:Hp; [|done]. cbn [negb].
    apply has_prefix_spec in Hp as [rest ->]. rewrite drop_str_app.
    destruct (cut "_" rest) as [[i secret]|] eqn:Hc; [|done]. apply cut_Some in Hc as [-> Hi].
    destruct (validTokenID i) eqn:Hv, (validSecret secret) eqn:Hs; try done.
    intros [= <-]. by exists secret.
  - intros (secret & -> & Hi & Hv & Hs).
    rewrite (proj2 (has_prefix_spec _ _)) by eauto. cbn [negb].
    by rewrite drop_str_app, cut_app, Hv, Hs.
Qed.

Section RegistryProofs.
Variable sha256 : string -> string.

(** A credential is accepted exactly when the set holds its id with its
    digest. *)
Lemma Verify_spec ts cred p :
  NoDup (map t_ID ts) ->
  Verify sha256 (NewRegistry sha256 ts) cred = Ok p <->
  exists t, t ∈ ts /\ splitCredential cred = Some (t_ID t) /\ sha256 cred = t_Hash t /\ p = Token_Principal t.
Proof.
  intros Hnd. unfold Verify, NewRegistry, buildTokenSet. cbn [byID decoy].
  destruct (splitCredential cred) as [id|]; [|naive_solver].
  pose proof (fun e => fold_tokens_lookup ts ∅ id e Hnd) as Hl. setoid_rewrite lookup_empty in Hl.
  destruct (fold_left _ ts ∅ !! id) as [e|] eqn:He; cbn [fst snd].
  - destruct (proj1 (Hl e) eq_refl) as [(t & Hin & <- & ->)|[_ ?]]; [|done]. cbn [e_hash e_principal negb].
    assert (forall u, u ∈ ts -> t_ID t = t_ID u ->
              mkEntry (t_Hash t) (Token_Principal t) = mkEntry (t_Hash u) (Token_Principal u)) as Huniq.
    { intros u Hu Hid. cut (Some (mkEntry (t_Hash t) (Token_Principal t)) = Some (mkEntry (t_Hash u) (Token_Principal u)));
        [by intros ?%(inj Some)|]. apply Hl. left. eauto. }
    rewrite orb_false_r. case_bool_decide as Hh; cbn [negb].
    + split; [intros [= <-]; exists t; by rewrite Hh|]. intros (u & Hu & [= Hid] & _ & ->).
      pose proof (f_equal e_principal (Huniq u Hu Hid)) as Hp. cbn in Hp. by rewrite Hp.
    + split; [done|]. intros (u & Hu & [= Hid] & Hs & _). destruct Hh. rewrite Hs.
      by pose proof (f_equal e_hash (Huniq u Hu Hid)).
  - rewrite orb_true_r. split; [done|]. intros (t & Hin & [= ->] & _).
    specialize (Hl (mkEntry (t_Hash t) (Token_Principal t))). destruct Hl as [_ Hl]. discriminate Hl. naive_solver.
Qed.

Lemma Token_Allows t r stream :
  Forall pattern_ok (t_Patterns t) ->
  Allows (Token_Principal t) r stream = true <->
  Has (t_Roles t) r = true /\ exists pat, pat ∈ t_Patterns t /\ covers (pat_raw pat) stream.
Proof.
  intros Hp. unfold Allows, Token_Principal, NewPrincipal. cbn [p_grants].
  rewrite existsb_exists. setoid_rewrite in_map_iff. rewrite Forall_forall in Hp. split.
  - intros (g & (p & <- & Hin%list_elem_of_In) & [Hr Hm]%andb_true_iff). split; [done|].
    exists p. split; [done|]. destruct (Hp p Hin) as [Hpp _].
    by apply (ParsePattern_match _ _ stream Hpp).
  - intros [Hr (p & Hin & Hc)]. exists (mkGrant (t_Roles t) p). split.
    + exists p. by rewrite <-list_elem_of_In.
    + cbn [g_Roles g_Pattern]. rewrite Hr. destruct (Hp p Hin) as [Hpp _].
      by apply (ParsePattern_match _ _ stream Hpp).
Qed.

(** A replaced set decides alone: nothing of the previous one is consulted. *)
Lemma SwapTokens_forgets old ts cred :
  Verify sha256 (SwapTokens sha256 old ts) cred = Verify sha256 (NewRegistry sha256 ts) cred.
Proof. done. Qed.
End RegistryProofs.

Lemma Parse_tokens_ok text ts : Parse text = Ok ts -> tokens_ok ts.
Proof. intros H. eapply parse_lines_ok; [|exact H]. split; constructor. Qed.

(** C20: a bearer credential holds a role on a stream exactly when the token
    file says so.  With a registry over the tokens a file parses to, the
    presented string is accepted and its principal is allowed role [r] on
    [stream] if and only if the string is [msq1_<id>_<secret>] for the id of
    one of the file's tokens (cut at the first underscore, the secret of legal
    shape), its digest is the one stored there, the token's role set has [r]
    and one of its patterns covers [stream] (equal, or the text before a
    trailing star a prefix). *)
Theorem bearer_authorization_exact sha256 (text cred stream : string) (r : Role) (ts : list Token)
    (Hfile : Parse text = Ok ts) :
  (exists p, Verify sha256 (NewRegistry sha256 ts) cred = Ok p /\ Allows p r stream = true) <->
  (exists t secret pat, t ∈ ts /\
     cred = credentialPrefix +:+ t_ID t +:+ String "_" secret /\ has_byte "_" (t_ID t) = false /\
     validSecret secret = true /\ sha256 cred = t_Hash t /\
     Has (t_Roles t) r = true /\ pat ∈ t_Patterns t /\ covers (pat_raw pat) stream).
Proof.
  apply Parse_tokens_ok in Hfile as [Hok Hnd _]. rewrite Forall_forall in Hok.
  setoid_rewrite (Verify_spec sha256 ts cred _ Hnd). setoid_rewrite splitCredential_spec. split.
  - intros (p & (t & Ht & (secret & Hc & Hu & _ & Hs) & Hh & ->) & Ha).
    apply Token_Allows in Ha as [Hr (pat & Hin & Hcov)]; [|apply (ok_each _ (Hok t Ht))].
    exists t, secret, pat. done.
  - intros (t & secret & pat & Ht & Hc & Hu & Hs & Hh & Hr & Hin & Hcov).
    exists (Token_Principal t). split.
    + exists t. split_and!; [done| |done|done]. exists secret. split_and!; [done|done|apply (Hok t Ht)|done].
    + apply Token_Allows; [apply (ok_each _ (Hok t Ht))|]. eauto.
Qed.

(** A file with one token, and a digest that gives it the credential below. *)
Definition sample_file : string :=
  "ci " +:+ string_of_list_ascii (repeat "3"%char 64) +:+ " publish orders*".

Lemma bearer_authorization_exact_witness :
  (exists p, Verify (fun _ => string_of_list_ascii (repeat "3"%char 32))
       (NewRegistry (fun _ => string_of_list_ascii (repeat "3"%char 32))
          [mkToken "ci" (string_of_list_ascii (repeat "3"%char 32)) 1 [mkPattern "orders*" false true "orders"]])
       "msq1_ci_0123456789abcdef" = Ok p /\ Allows p RolePublish "orders.dlq" = true).
Proof.
  apply (bearer_authorization_exact _ sample_file "msq1_ci_0123456789abcdef" "orders.dlq" RolePublish).
  - vm_compute. reflexivity.
  - eexists _, "0123456789abcdef", _. split; [left|].
    split; [reflexivity|]. split; [reflexivity|]. split; [vm_compute; reflexivity|].
    split; [vm_compute; reflexivity|]. split; [vm_compute; reflexivity|]. split; [left|].
    right. exists "orders". split; reflexivity.
Defined.
