(* ===== verification/Routes.v ===== *)
(** * The HTTP surface: routes, dispatch and the middleware chain

    Translation of [internal/api/routes.go], [middleware.go], [route_guards.go]
    and [route_roles.go].  [http.ServeMux] is modelled for paths it does not
    rewrite: a request carries the decoded segments of its escaped path, and
    [r.URL.Path] is those segments joined.  The handlers behind the names are
    a parameter; what is verified is which of them runs, with what body, and
    what the router and the chain answer themselves. *)

From stdpp Require Import relations.
From S2P Require Import Prelude GoText TextFields Sql Auth ApiErrors.
Import ApiErrors.

Module Routes.

(** ** The registry *)

Record Route := mkRoute {
  rt_Method : string;
  rt_Pattern : string;
  rt_Name : string;
  rt_Mutating : bool;
  rt_Roles : Z;
  rt_DryRun : bool;
  rt_Confirm : string;
  rt_Destructive : bool;
  rt_Audit : option string }.

#[global] Instance Route_eq_dec : EqDecision Route.
Proof. solve_decision. Defined.

Definition rolesNone : Z := 0.
Definition rolesAdmin : Z := roleBit RoleAdmin.
Definition rolesConsumeAndAdmin : Z := Z.lor (roleBit RoleConsume) (roleBit RoleAdmin).
Definition rolesPublish : Z := roleBit RolePublish.

(** A row that neither previews, confirms nor destroys. *)
Definition plain (method pattern name : string) (mutating : bool) (roles : Z) : Route :=
  mkRoute method pattern name mutating roles false "" false None.

(** A destructive row: it previews, asks for a name, and commits one audit event. *)
Definition destroying (method pattern name confirm audit : string) : Route :=
  mkRoute method pattern name true rolesAdmin true confirm true (Some audit).

Definition routes : list Route := [
  plain "GET" "/healthz" "healthz" false rolesNone;
  plain "GET" "/readyz" "readyz" false rolesNone;
  plain "GET" "/metrics" "metrics" false rolesAdmin;
  plain "GET" "/v1/info" "info" false rolesAdmin;
  plain "POST" "/v1/admin/log-level" "admin_log_level" true rolesAdmin;
  plain "POST" "/v1/streams" "create_stream" true rolesAdmin;
  plain "GET" "/v1/streams" "list_streams" false rolesAdmin;
  plain "GET" "/v1/streams/{stream}" "get_stream" false rolesAdmin;
  plain "PATCH" "/v1/streams/{stream}" "update_stream" true rolesAdmin;
  destroying "DELETE" "/v1/streams/{stream}" "delete_stream" "stream" "StreamDelete";
  destroying "POST" "/v1/streams/{stream}/purge" "purge_stream" "stream" "StreamPurge";
  plain "POST" "/v1/streams/{stream}/messages" "publish_message" true rolesPublish;
  plain "POST" "/v1/streams/{stream}/messages:batch" "publish_batch" true rolesPublish;
  plain "GET" "/v1/streams/{stream}/messages" "list_messages" false rolesAdmin;
  plain "GET" "/v1/streams/{stream}/messages/{seq}" "peek_message" false rolesAdmin;
  plain "GET" "/v1/streams/{stream}/messages/{seq}/data" "peek_message_data" false rolesAdmin;
  plain "GET" "/v1/messages/{id}" "peek_by_id" false rolesAdmin;
  plain "POST" "/v1/streams/{stream}/consumers" "create_consumer" true rolesAdmin;
  plain "GET" "/v1/streams/{stream}/consumers" "list_consumers" false rolesAdmin;
  plain "GET" "/v1/streams/{stream}/consumers/{consumer}" "get_consumer" false rolesAdmin;
  plain "PATCH" "/v1/streams/{stream}/consumers/{consumer}" "update_consumer" true rolesAdmin;
  destroying "DELETE" "/v1/streams/{stream}/consumers/{consumer}" "delete_consumer" "consumer" "ConsumerDelete";
  plain "POST" "/v1/streams/{stream}/consumers/{consumer}/pause" "pause_consumer" true rolesAdmin;
  plain "POST" "/v1/streams/{stream}/consumers/{consumer}/resume" "resume_consumer" true rolesAdmin;
  destroying "POST" "/v1/streams/{stream}/consumers/{consumer}/seek" "seek_consumer" "consumer" "ConsumerSeek";
  plain "GET" "/v1/streams/{stream}/consumers/{consumer}/pending" "pending_list" false rolesAdmin;
  plain "POST" "/v1/streams/{stream}/consumers/{consumer}/fetch" "fetch_consumer" true rolesConsumeAndAdmin;
  plain "POST" "/v1/ack" "ack" true rolesConsumeAndAdmin;
  plain "POST" "/v1/nak" "nak" true rolesConsumeAndAdmin;
  plain "POST" "/v1/term" "term" true rolesConsumeAndAdmin;
  plain "POST" "/v1/extend" "extend" true rolesConsumeAndAdmin;
  plain "" "/" "catch_all" false rolesNone ].

(** ** Matching *)

(** A wildcard segment is written [{name}]. *)
Definition is_wild (p : string) : bool := has_prefix "{" p && has_suffix "}" p.

(** A wildcard matches one segment that is not empty. *)
Fixpoint segs_match (pat segs : list string) : bool :=
  match pat, segs with
  | [], [] => true
  | p :: pat, s :: segs =>
      (if is_wild p then negb (bool_decide (s = "")) else bool_decide (p = s)) && segs_match pat segs
  | _, _ => false
  end.

(** The segments of a pattern or of a decoded path, after the leading slash. *)
Definition segments (path : string) : list string := List.tl (split_on "/" path).

Definition pattern_matches (r : Route) (segs : list string) : bool := segs_match (segments (rt_Pattern r)) segs.

(** [compiledRoute]: a pattern with its methods, in the order of the registry. *)
Fixpoint add_method (pat method : string) (compiled : list (string * list string)) : list (string * list string) :=
  match compiled with
  | [] => [(pat, [method])]
  | (p, ms) :: rest => if bool_decide (p = pat) then (p, ms ++ [method]) :: rest else (p, ms) :: add_method pat method rest
  end.

Definition initRouteMatchers : list (string * list string) :=
  fold_left (fun c r => if bool_decide (rt_Method r = "") then c else add_method (rt_Pattern r) (rt_Method r) c) routes [].

(** The path is the decoded [r.URL.Path]. *)
Definition allowedMethods (path : string) : list string :=
  order_by String.leb (List.concat (map snd
    (List.filter (fun c => segs_match (segments c.1) (segments path)) initRouteMatchers))).

(** ** Requests and replies *)

(** [rq_segs]: the decoded segments of the escaped path.  [rq_credential] is
    the bearer credential presented, if any. *)
Record request := mkRequest {
  rq_method : string;
  rq_segs : list string;
  rq_credential : option string;
  rq_query : string -> string;
  rq_body : string }.

Definition url_path (r : request) : string := "/" +:+ join_with "/" (rq_segs r).

(** What the chain hands to a handler: the request and how much of its body a
    reader may still return. *)
Record routed := mkRouted { rd_request : request; rd_limit : Z }.

(** What the server answers: a handler's own answer, or an error envelope with
    its code, status and [Allow] header. *)
Inductive reply (A : Type) :=
| Answered (a : A)
| Envelope (code : Code) (status : Z) (allow : list string).
Arguments Answered {A} a.
Arguments Envelope {A} code status allow.

Definition envelope {A} (e : api_error) : reply A := let '(code, status, _) := writeError e in Envelope code status [].

(** A method of a pattern answers, and [GET] also answers [HEAD]. *)
Definition method_matches (r : Route) (method : string) : bool :=
  negb (bool_decide (rt_Method r = ""))
  && (bool_decide (rt_Method r = method) || (bool_decide (rt_Method r = "GET") && bool_decide (method = "HEAD"))).

Definition route_matches (q : request) (r : Route) : bool := method_matches r (rq_method q) && pattern_matches r (rq_segs q).

Definition handleNotFound {A} (q : request) : reply A :=
  let allow := allowedMethods (url_path q) in
  if bool_decide (allow = []) then Envelope CodeNotFound 404 [] else Envelope CodeMethodNotAllowed 405 allow.

(** ** The chain *)

Section Chain.
(** The handlers by name; [None] is a handler that panics. *)
Context {A : Type} (handler : string -> routed -> option A).

Definition routeHandler (name : string) (r : routed) : option (reply A) := Answered <$> handler name r.

(** [ServeMux]: the row whose method and pattern match, else the catch-all. *)
Definition newRouter (r : routed) : option (reply A) :=
  match List.find (route_matches (rd_request r)) routes with
  | Some rt => routeHandler (rt_Name rt) r
  | None => Some (handleNotFound (rd_request r))
  end.

Definition authzMW (next : routed -> option (reply A)) (r : routed) : option (reply A) := next r.

Definition bodyLimitMW (maxRequestBytes : Z) (next : routed -> option (reply A)) (q : request) : option (reply A) :=
  next (mkRouted q maxRequestBytes).

(** [acquire] on a semaphore that holds [n] of [max] slots. *)
Definition acquire (max n : Z) : option Z := if n <? max then Some (n + 1) else None.
Definition release (n : Z) : Z := if 0 <? n then n - 1 else n.

Definition connLimitMW (max n : Z) (next : request -> option (reply A)) (q : request) : option (reply A) :=
  match acquire max n with
  | None => Some (envelope (MkApiError (Plain "connection limit reached") None [BusyError]))
  | Some _ => next q
  end.

Definition recoverMW (next : request -> option (reply A)) (q : request) : reply A :=
  match next q with Some a => a | None => envelope (of_error (Plain "handler panicked")) end.

Definition chained (max n maxRequestBytes : Z) (q : request) : reply A :=
  recoverMW (connLimitMW max n (bodyLimitMW maxRequestBytes (authzMW newRouter))) q.
End Chain.

(** ** The requests in flight *)

(** Requests hold a slot from their admission to the return of their handler. *)
Record load := mkLoad { ld_sem : Z; ld_active : list Z }.

Inductive load_step (max : Z) : load -> load -> Prop :=
| load_admit s i n : acquire max (ld_sem s) = Some n -> i ∉ ld_active s -> load_step max s (mkLoad n (i :: ld_active s))
| load_refuse s : acquire max (ld_sem s) = None -> load_step max s s
| load_done s i a b : ld_active s = a ++ i :: b -> load_step max s (mkLoad (release (ld_sem s)) (a ++ b)).

(** ** The response writer *)

(** [net/http]'s writer: the first status is the one sent. *)
Record rw := mkRw { rw_ct : string; rw_status : option Z; rw_body : string }.
Record envelopeWriter := mkEw { ew_rw : rw; ew_replaced : bool }.

Definition newEnvelopeWriter (w : rw) : envelopeWriter := mkEw w false.

Definition rw_WriteHeader (status : Z) (w : rw) : rw :=
  match rw_status w with Some _ => w | None => mkRw (rw_ct w) (Some status) (rw_body w) end.
Definition rw_Write (p : string) (w : rw) : rw :=
  let w := rw_WriteHeader 200 w in mkRw (rw_ct w) (rw_status w) (rw_body w +:+ p).
Definition set_ct (ct : string) (e : envelopeWriter) : envelopeWriter :=
  mkEw (mkRw ct (rw_status (ew_rw e)) (rw_body (ew_rw e))) (ew_replaced e).

Definition ew_Write (p : string) (e : envelopeWriter) : envelopeWriter :=
  if ew_replaced e then e else mkEw (rw_Write p (ew_rw e)) false.

(** The envelope of a code; its text is a parameter of the interception. *)
Fixpoint ew_WriteHeader (fuel : nat) (text : Z -> string) (status : Z) (e : envelopeWriter) : option envelopeWriter :=
  match fuel with
  | O => None
  | S fuel =>
      if (negb (status =? 404) && negb (status =? 405)) || bool_decide (rw_ct (ew_rw e) = "application/json")
      then Some (mkEw (rw_WriteHeader status (ew_rw e)) (ew_replaced e))
      else
        let e := set_ct "application/json" (mkEw (ew_rw e) true) in
        ew_Write (text status) <$> ew_WriteHeader fuel text status e
  end.

(** A handler that sets a content type, a status and writes one payload. *)
Definition respond (fuel : nat) (text : Z -> string) (ct : string) (status : Z) (payload : string) : option rw :=
  (fun e => ew_rw (ew_Write payload e)) <$> ew_WriteHeader fuel text status (set_ct ct (newEnvelopeWriter (mkRw "" None ""))).

(** ** The guards of destructive routes *)

(** The refusal written, if any. *)
Definition confirmRefusal (pathValue gotConfirm : string) : option api_error :=
  if bool_decide (gotConfirm = "") then Some (MkApiError (E ErrConflict "confirm required") None [ConfirmRequired])
  else if negb (bool_decide (gotConfirm = pathValue))
  then Some (MkApiError (E ErrConflict "confirm mismatch") None [ConfirmMismatch])
  else None.

Definition checkDryRunGate (q : request) : option api_error :=
  if bool_decide (rq_query q "dry_run" = "") then None
  else Some (WithCode (of_error (E ErrBadRequest "api.dryRun")) (code_string CodeDryRunUnsupported)).

(** ** The registry is disciplined and unambiguous *)

Definition disciplined (r : Route) : bool :=
  implb (rt_Mutating r) (negb (rt_Roles r =? 0))
  && implb (rt_Destructive r)
       (rt_Mutating r && rt_DryRun r && (bool_decide (rt_Confirm r = "stream") || bool_decide (rt_Confirm r = "consumer"))
        && bool_decide (is_Some (rt_Audit r)))
  && implb (rt_Roles r =? 0) (bool_decide (rt_Name r ∈ ["healthz"; "readyz"; "catch_all"])).

Example registry_disciplined : forallb disciplined routes = true /\ NoDup (map rt_Name routes).
Proof. split; [done|]. by apply (bool_decide_unpack _); vm_compute. Qed.

(** Two patterns some path could match both of. *)
Fixpoint overlap (p q : list string) : bool :=
  match p, q with
  | [], [] => true
  | a :: p, b :: q => (is_wild a || is_wild b || bool_decide (a = b)) && overlap p q
  | _, _ => false
  end.

Lemma match_overlap p q segs : segs_match p segs = true -> segs_match q segs = true -> overlap p q = true.
Proof.
  revert q segs. induction p as [|a p IH]; intros [|b q] [|s segs]; simpl; try done.
  intros [Ha Hp]%andb_prop [Hb Hq]%andb_prop. rewrite (IH q segs Hp Hq), andb_true_r.
  destruct (is_wild a); [done|]. destruct (is_wild b); [done|].
  apply bool_decide_eq_true in Ha, Hb. simpl. apply bool_decide_eq_true. congruence.
Qed.

Definition same_verb (a b : Route) : bool := negb (bool_decide (rt_Method a = "")) && bool_decide (rt_Method a = rt_Method b).

Lemma routes_distinct : forallb (fun a => forallb (fun b =>
  implb (same_verb a b && overlap (segments (rt_Pattern a)) (segments (rt_Pattern b))) (bool_decide (a = b))) routes) routes = true.
Proof. by vm_compute. Qed.

(** Membership of a concrete row. *)
Ltac in_routes := apply (bool_decide_unpack _); vm_compute.

(** At most one row of a method matches a path. *)
Lemma route_unique a b segs :
  a ∈ routes -> b ∈ routes -> same_verb a b = true -> pattern_matches a segs = true -> pattern_matches b segs = true -> a = b.
Proof.
  intros Ha Hb Hv Hma Hmb. pose proof routes_distinct as Hd.
  rewrite forallb_forall in Hd. apply list_elem_of_In in Ha, Hb. specialize (Hd a Ha).
  rewrite forallb_forall in Hd. specialize (Hd b Hb).
  rewrite Hv, (match_overlap _ _ _ Hma Hmb) in Hd. by apply bool_decide_eq_true in Hd.
Qed.

(** No row is declared for [HEAD]. *)
Lemma no_head_row : forallb (fun r => negb (bool_decide (rt_Method r = "HEAD"))) routes = true.
Proof. done. Qed.

Lemma method_verb a b m :
  a ∈ routes -> b ∈ routes -> method_matches a m = true -> method_matches b m = true -> same_verb a b = true.
Proof.
  intros Ha%list_elem_of_In Hb%list_elem_of_In. pose proof no_head_row as Hh. rewrite forallb_forall in Hh.
  pose proof (Hh a Ha) as Hna. pose proof (Hh b Hb) as Hnb. unfold method_matches, same_verb.
  repeat case_bool_decide; simpl in *; try done; congruence.
Qed.

Lemma find_route q r : r ∈ routes -> route_matches q r = true -> List.find (route_matches q) routes = Some r.
Proof.
  intros Hr Hm. destruct (List.find (route_matches q) routes) as [r'|] eqn:Hf.
  - apply find_some in Hf as [Hr' Hm']. f_equal. apply list_elem_of_In in Hr'.
    apply andb_prop in Hm as [Hv Hp]. apply andb_prop in Hm' as [Hv' Hp'].
    eapply route_unique; eauto using method_verb.
  - apply list_elem_of_In in Hr. by rewrite (find_none _ _ Hf r Hr) in Hm.
Qed.

(** ** What the catch-all allows *)

(** The segments survive the decoded path when none of them holds a slash. *)
Definition flat (segs : list string) : Prop := segs <> [] /\ Forall (fun s => has_byte "/" s = false) segs.

Lemma url_path_segments q : flat (rq_segs q) -> segments (url_path q) = rq_segs q.
Proof.
  intros [Hne Hf]. unfold segments, url_path.
  change ("/" +:+ join_with "/" (rq_segs q)) with ("" +:+ String "/" (join_with "/" (rq_segs q))).
  by rewrite split_on_app, split_join by done.
Qed.

(** [m] is a method of the pattern [p] in the compiled list. *)
Definition compiles (c : list (string * list string)) (p m : string) : Prop := exists ms, (p, ms) ∈ c /\ m ∈ ms.

Lemma compiles_cons p' ms' c p m : compiles ((p', ms') :: c) p m <-> (p = p' /\ m ∈ ms') \/ compiles c p m.
Proof. unfold compiles. setoid_rewrite elem_of_cons. naive_solver. Qed.

Lemma add_method_compiles pat meth c p m :
  compiles (add_method pat meth c) p m <-> compiles c p m \/ (p = pat /\ m = meth).
Proof.
  induction c as [|[p' ms] c IH]; simpl.
  - rewrite compiles_cons, list_elem_of_singleton. naive_solver.
  - case_bool_decide as Hp; rewrite !compiles_cons; [|rewrite IH; tauto].
    subst. rewrite elem_of_app, list_elem_of_singleton. tauto.
Qed.

Lemma matchers_compile rs c p m :
  compiles (fold_left (fun c r => if bool_decide (rt_Method r = "") then c else add_method (rt_Pattern r) (rt_Method r) c) rs c) p m
  <-> compiles c p m \/ exists r, r ∈ rs /\ rt_Method r <> "" /\ rt_Pattern r = p /\ rt_Method r = m.
Proof.
  revert c. induction rs as [|r rs IH]; intros c; simpl; [set_solver|].
  rewrite IH. case_bool_decide as Hm; [|rewrite add_method_compiles]; set_solver.
Qed.

Lemma allowedMethods_spec q m :
  flat (rq_segs q) ->
  m ∈ allowedMethods (url_path q)
  <-> exists r, r ∈ routes /\ rt_Method r <> "" /\ rt_Method r = m /\ pattern_matches r (rq_segs q) = true.
Proof.
  intros Hf. unfold allowedMethods, pattern_matches. rewrite (url_path_segments q Hf), elem_of_order_by.
  rewrite list_elem_of_In, in_concat. setoid_rewrite in_map_iff. setoid_rewrite filter_In.
  assert (forall p, compiles initRouteMatchers p m <-> exists r, r ∈ routes /\ rt_Method r <> "" /\ rt_Pattern r = p /\ rt_Method r = m) as Hc.
  { intros p. unfold initRouteMatchers. rewrite matchers_compile. split; [|by right].
    intros [(? & Hnil & _)|?]; [by apply not_elem_of_nil in Hnil|done]. }
  split.
  - intros (ms & ([p ms'] & Hms & Hin & Hp) & Hm). cbn [fst snd] in *. subst ms'.
    destruct (proj1 (Hc p)) as (r & Hr & Hne & Hpat & Hmeth); [exists ms; rewrite !list_elem_of_In; tauto|].
    exists r. rewrite Hpat. tauto.
  - intros (r & Hr & Hne & Hmeth & Hp).
    destruct (proj2 (Hc (rt_Pattern r))) as (ms & Hin & Hm); [exists r; tauto|].
    apply list_elem_of_In in Hin. apply list_elem_of_In in Hm. exists ms. split; [|exact Hm]. exists (rt_Pattern r, ms). tauto.
Qed.

(** ** The limiter and the writer *)

Definition load_ok (max : Z) (s : load) : Prop := ld_sem s = Z.of_nat (length (ld_active s)) /\ 0 <= ld_sem s <= max.

Lemma load_step_ok max s s' : load_step max s s' -> load_ok max s -> load_ok max s'.
Proof.
  unfold load_ok. intros Hstep [Hs Hb]. destruct Hstep as [s i n Ha Hi|s|s i a b Hab]; simpl in *; [|done|].
  - unfold acquire in Ha. destruct (Z.ltb_spec (ld_sem s) max); simplify_eq; lia.
  - rewrite Hab, length_app in Hs. rewrite length_app. simpl in Hs. unfold release. destruct (Z.ltb_spec 0 (ld_sem s)); lia.
Qed.

Lemma respond_plain text ct status payload :
  (status = 404 \/ status = 405) -> ct <> "application/json" ->
  respond 2 text ct status payload = Some (mkRw "application/json" (Some status) "").
Proof.
  intros Hs Hct. unfold respond. cbn -[Z.eqb].
  rewrite (bool_decide_eq_false_2 _ Hct). destruct Hs as [->| ->]; done.
Qed.

(** ** Properties *)


(** A handler that answers with its own name. *)
Definition echo (name : string) (r : routed) : option string := Some name.

Definition no_query : string -> string := fun _ => "".

Definition delete_orders : request := mkRequest "DELETE" ["v1"; "streams"; "orders"] None no_query "".
Definition put_orders : request := mkRequest "PUT" ["v1"; "streams"; "orders"] None no_query "".


(** The roles a route declares are not enforced.  A request that presents
    no credential, or any credential at all, runs the handler of the route it
    matches, whatever roles that route declares, as soon as a connection slot is
    free. *)
Theorem declared_roles_unenforced {A} (handler : string -> routed -> option A) max n lim q r a :
  r ∈ routes -> route_matches q r = true -> n < max ->
  handler (rt_Name r) (mkRouted q lim) = Some a ->
  chained handler max n lim q = Answered a.
Proof.
  intros Hr Hm Hn Ha. unfold chained, recoverMW, connLimitMW, acquire. rewrite (proj2 (Z.ltb_lt n max) Hn).
  unfold bodyLimitMW, authzMW, newRouter. cbn [rd_request]. rewrite (find_route q r Hr Hm). unfold routeHandler. by rewrite Ha.
Qed.

Lemma declared_roles_unenforced_witness :
  rq_credential delete_orders = None /\ chained echo 4 0 1048576 delete_orders = Answered "delete_stream".
Proof.
  split; [done|].
  apply (declared_roles_unenforced echo 4 0 1048576 delete_orders
           (destroying "DELETE" "/v1/streams/{stream}" "delete_stream" "stream" "StreamDelete")); [by in_routes|done|done|done].
Defined.

(** The connection limiter counts exactly the requests in flight.  From an
    idle server, after any run of admissions, refusals and completions, the
    semaphore holds one slot per request being served and never more than the
    limit, so a refusal means the limit is really reached. *)
Theorem conn_limit_exact max s :
  0 <= max -> rtc (load_step max) (mkLoad 0 []) s ->
  ld_sem s = Z.of_nat (length (ld_active s)) /\ Z.of_nat (length (ld_active s)) <= max
  /\ (acquire max (ld_sem s) = None <-> Z.of_nat (length (ld_active s)) = max).
Proof.
  intros Hmax Hr. assert (load_ok max s) as [Hs Hb].
  { remember (mkLoad 0 []) as s0 eqn:E0. assert (load_ok max s0) as H0 by (subst; split; simpl; lia).
    clear E0. induction Hr; eauto using load_step_ok. }
  rewrite <-Hs. split_and!; [done|lia|]. unfold acquire. destruct (Z.ltb_spec (ld_sem s) max); split; intros; try done; lia.
Qed.

Lemma conn_limit_exact_witness :
  acquire 1 (ld_sem (mkLoad 1 [7])) = None <-> Z.of_nat (length [7]) = 1.
Proof.
  apply (conn_limit_exact 1 (mkLoad 1 [7])); [lia|].
  apply rtc_once. apply (load_admit 1 (mkLoad 0 []) 7 1); [done|set_solver].
Defined.

(** An intercepted response has no body.  A plain-text 404 or 405 a handler
    or the standard library writes is replaced by the JSON content type and the
    status, but neither its own text nor the envelope reaches the client. *)
Theorem intercepted_body_lost text ct status payload :
  (status = 404 \/ status = 405) -> ct <> "application/json" ->
  respond 2 text ct status payload = Some (mkRw "application/json" (Some status) "").
Proof. apply respond_plain. Qed.

Lemma intercepted_body_lost_witness :
  respond 2 (fun _ => "{}") "text/plain; charset=utf-8" 404 "404 page not found" = Some (mkRw "application/json" (Some 404) "").
Proof. by apply (intercepted_body_lost (fun _ => "{}") "text/plain; charset=utf-8" 404 "404 page not found"); [left|]. Defined.

End Routes.
