(* ===== verification/AuthCli.v ===== *)
(** * The messq auth commands

    Translation of [internal/cli/auth.go]: [auth add] mints a credential and
    appends its line to the token file, [auth check] verifies one, [auth hash]
    and [auth ls] print.  [crypto/sha256] is a parameter of which only the
    length of a digest is assumed, and the bytes [crypto/rand] fills in are an
    argument.  The theorems say that minting loses no entropy, that an added
    token works, and on which inputs [auth add] leaves a file no daemon can
    read or a credential no daemon accepts. *)

From stdpp Require Import gmap.
From S2P Require Import Prelude GoText TextFields Sql Auth.

Section Commands.
(** [sha256.Sum256]. *)
Variable sha256 : string -> string.

Definition crockfordAlphabet : string := "0123456789ABCDEFGHJKMNPQRSTVWXYZ".
Definition minSecretChars : nat := 52.

(** [crockfordAlphabet[d]]. *)
Definition crock_char (d : Z) : ascii := default "0"%char (String.get (Z.to_nat d) crockfordAlphabet).

(** [big.Int.SetBytes]. *)
Fixpoint be_val (acc : Z) (raw : string) : Z :=
  match raw with
  | EmptyString => acc
  | String c raw' => be_val (256 * acc + byte_z c) raw'
  end.

(** The digits in the order the loop appends them, least significant first.
    A 256-bit number has at most 52 of them, the fuel. *)
Fixpoint crock_digits (fuel : nat) (n : Z) : list ascii :=
  match fuel with
  | O => []
  | S f => if 0 <? n then crock_char (n mod 32) :: crock_digits f (n / 32) else []
  end.

Definition pad_digits (ds : list ascii) : list ascii :=
  ds ++ repeat (crock_char 0) (minSecretChars - length ds).

(** [raw] is what [rand.Read] filled in, [None] its error. *)
Definition mintSecret (raw : option string) : result string :=
  match raw with
  | None => Err (Plain "rand")
  | Some raw => Ok (string_of_list_ascii (List.rev (pad_digits (crock_digits minSecretChars (be_val 0 raw)))))
  end.

(** The same grammar as [validTokenID], written a second time. *)
Definition validCLIAuthID (s : string) : bool :=
  negb ((slen s <? 2) || (64 <? slen s))
  && match s with
     | EmptyString => false
     | String c s' => id_lead c && all_bytes id_byte s'
     end.

Definition buildTokenForAdd (raw : option string) (id rolesStr streamsStr : string) : result (Token * string) :=
  if negb (validCLIAuthID id) then Err (Plain "--id")
  else
    let? secret := mintSecret raw in
    let credential := credentialPrefix +:+ id +:+ String "_" secret in
    let hash := sha256 credential in
    let? rs := ParseRoleSet rolesStr in
    let? ps := parse_patterns (split_on "," streamsStr) in
    Ok (mkToken id hash rs ps, credential).

(** [messq auth add] on the bytes of the token file ([None]: it does not
    exist): the new bytes and the credential printed.  Every error leaves the
    file as it is. *)
Definition auth_add (raw : option string) (content : option string) (id rolesStr streamsStr : string)
    : result (string * string) :=
  if bool_decide (id = "") || bool_decide (rolesStr = "") || bool_decide (streamsStr = "")
  then Err (Plain "usage: auth add needs")
  else
    let? (tok, credential) := buildTokenForAdd raw id rolesStr streamsStr in
    let? existing := match content with Some text => Parse text | None => Ok [] end in
    if existsb (fun t => bool_decide (t_ID t = t_ID tok) || bool_decide (t_Hash t = t_Hash tok)) existing
    then Err (E ErrConflict "duplicate token id or hash")
    else Ok (default "" content +:+ Token_String tok +:+ String "010" "", credential).

(** One trailing newline, and one carriage return before it, are dropped. *)
Definition trimCredentialInput (s : string) : string :=
  drop_cr (if has_suffix (String "010" "") s then take_str (String.length s - 1) s else s).

Definition rolesOfEntry (tokens : list Token) (credential : string) : string :=
  match List.find (fun t => bool_decide (t_Hash t = sha256 credential)) tokens with
  | Some t => RoleSet_String (t_Roles t)
  | None => ""
  end.

(** [messq auth check]: the id and roles it prints, or the exit it takes. *)
Definition auth_check (content : option string) (stdin : string) : result (string * string) :=
  let credential := trimCredentialInput stdin in
  if bool_decide (credential = "") then Err (Plain "usage: no credential on stdin")
  else match content with
       | None => Err (E ErrNotFound "auth file")
       | Some text =>
           match Parse text with
           | Err _ => Err (E ErrNotFound "auth file")
           | Ok tokens =>
               match Verify sha256 (NewRegistry sha256 tokens) credential with
               | Ok p => Ok (p_ID p, rolesOfEntry tokens credential)
               | Err _ => Err (E ErrUnauthorized "credential does not match any entry")
               end
           end
       end.

(** [messq auth hash]. *)
Definition auth_hash (stdin : string) : result string :=
  let trimmed := trimCredentialInput stdin in
  if bool_decide (trimmed = "") then Err (Plain "usage: no credential on stdin")
  else Ok (EncodeToString (sha256 trimmed)).

(** The rows [messq auth ls] prints. *)
Definition auth_ls (content : option string) : result (list (string * list string * list string)) :=
  match content with
  | None => Err (E ErrNotFound "auth file")
  | Some text =>
      match Parse text with
      | Err _ => Err (E ErrNotFound "auth file")
      | Ok tokens =>
          Ok (order_by (fun a b => String.leb a.1.1 b.1.1)
                (map (fun t => (t_ID t,
                                if bool_decide (RoleSet_String (t_Roles t) = "") then []
                                else split_on "," (RoleSet_String (t_Roles t)),
                                map pat_raw (t_Patterns t))) tokens))
      end
  end.
End Commands.

(** ** Minting *)

Fixpoint find_char (i : Z) (c : ascii) (s : string) : Z :=
  match s with
  | EmptyString => i
  | String a s' => if bool_decide (a = c) then i else find_char (i + 1) c s'
  end.

(** The number a Crockford text denotes, least significant digit first. *)
Definition crock_val (ds : list ascii) : Z :=
  foldr (fun c acc => find_char 0 c crockfordAlphabet + 32 * acc) 0 ds.

Lemma crock_char_ok d :
  0 <= d < 32 -> find_char 0 (crock_char d) crockfordAlphabet = d /\ secret_byte (crock_char d) = true.
Proof.
  intros H. assert (List.In d (map Z.of_nat (seq 0 32))) as Hin.
  { apply in_map_iff. exists (Z.to_nat d). split; [lia|]. apply in_seq. lia. }
  cbn [seq map] in Hin. repeat (destruct Hin as [<-|Hin]; [by vm_compute|]). done.
Qed.

Lemma crock_digits_val f n : 0 <= n < 32 ^ Z.of_nat f -> crock_val (crock_digits f n) = n.
Proof.
  revert n; induction f as [|f IH]; intros n Hn; cbn [crock_digits]; [simpl in *; lia|].
  rewrite Nat2Z.inj_succ, Z.pow_succ_r in Hn by lia.
  destruct (0 <? n) eqn:Hz; bool_prop; [|simpl; lia]. cbn [crock_val foldr]. fold (crock_val (crock_digits f (n / 32))).
  pose proof (Z.mod_pos_bound n 32 ltac:(lia)) as Hm. pose proof (Z.div_mod n 32 ltac:(lia)).
  rewrite (proj1 (crock_char_ok _ Hm)), IH; [lia|].
  split; [apply Z.div_pos; lia|apply Z.div_lt_upper_bound; lia].
Qed.

Lemma crock_digits_length f n : (length (crock_digits f n) <= f)%nat.
Proof. revert n; induction f as [|f IH]; intros n; simpl; [lia|]. case_match; simpl; [|lia]. specialize (IH (n / 32)). lia. Qed.

Lemma crock_digits_bytes f n : Forall (fun c => secret_byte c = true) (crock_digits f n).
Proof.
  revert n; induction f as [|f IH]; intros n; cbn [crock_digits]; [constructor|].
  case_match; constructor; [|done]. apply crock_char_ok, Z.mod_pos_bound. lia.
Qed.

Lemma crock_val_pad ds k : crock_val (ds ++ repeat (crock_char 0) k) = crock_val ds.
Proof.
  induction ds as [|d ds IH]; cbn [app].
  - induction k as [|k IH]; [done|]. cbn [repeat]. cbn [crock_val foldr]. fold (crock_val (repeat (crock_char 0) k)).
    rewrite IH. done.
  - cbn [crock_val foldr]. fold (crock_val (ds ++ repeat (crock_char 0) k)). by rewrite IH.
Qed.

Lemma be_val_bound acc raw : 0 <= acc -> 0 <= be_val acc raw < (acc + 1) * 256 ^ slen raw.
Proof.
  revert acc; induction raw as [|c raw IH]; intros acc Ha; cbn [be_val String.length]; [lia|].
  pose proof (byte_z_bound c). specialize (IH (256 * acc + byte_z c) ltac:(lia)).
  rewrite Nat2Z.inj_succ, Z.pow_succ_r by lia. nia.
Qed.

Lemma be_val_inj a b acc acc' :
  0 <= acc -> 0 <= acc' -> String.length a = String.length b ->
  be_val acc a = be_val acc' b -> acc = acc' /\ a = b.
Proof.
  revert b acc acc'; induction a as [|c a IH]; intros [|d b] acc acc' H0 H1; simpl; try done.
  intros [= Hlen] Hv. pose proof (byte_z_bound c). pose proof (byte_z_bound d).
  destruct (IH b (256 * acc + byte_z c) (256 * acc' + byte_z d)) as [He ->]; [lia|lia|done|done|].
  assert (acc = acc' /\ byte_z c = byte_z d) as [-> Hcd%Nat2Z.inj] by lia. split; [done|].
  by rewrite <-(ascii_nat_embedding c), Hcd, ascii_nat_embedding.
Qed.

Lemma list_ascii_length l : String.length (string_of_list_ascii l) = length l.
Proof. induction l; simpl; congruence. Qed.

Lemma list_ascii_bytes p l : Forall (fun c => p c = true) l -> all_bytes p (string_of_list_ascii l) = true.
Proof. induction 1 as [|c l Hc _ IH]; [done|]. simpl. by rewrite Hc, IH. Qed.

Lemma Ok_inj {A} (a b : A) : Ok a = Ok b -> a = b.
Proof. by intros [= ->]. Qed.

(** A minted secret has 52 characters of the credential alphabet. *)
Lemma mintSecret_shape raw s :
  mintSecret raw = Ok s -> String.length s = minSecretChars /\ validSecret s = true.
Proof.
  destruct raw as [raw|]; [|done]. intros <-%Ok_inj. set (ds := crock_digits _ _).
  assert (length (pad_digits ds) = minSecretChars) as Hlen.
  { unfold pad_digits. rewrite length_app, repeat_length. pose proof (crock_digits_length minSecretChars (be_val 0 raw)) as H.
    fold ds in H. lia. }
  rewrite list_ascii_length, length_rev. split; [done|]. unfold validSecret.
  rewrite list_ascii_length, length_rev, Hlen. rewrite list_ascii_bytes; [done|].
  apply Forall_rev. apply Forall_app. split; [apply crock_digits_bytes|].
  apply Forall_forall. intros c Hc%list_elem_of_In%repeat_spec. by subst.
Qed.

(** Minting loses no entropy: two different 32-byte readings of the random
    source give different 52-character secrets, each of a shape the server
    accepts. *)
Lemma mint_injective (a b : string) :
  String.length a = 32%nat -> String.length b = 32%nat ->
  mintSecret (Some a) = mintSecret (Some b) ->
  a = b /\ exists s, mintSecret (Some a) = Ok s /\ String.length s = 52%nat /\ validSecret s = true.
Proof.
  intros Ha Hb Heq. split.
  2: { exists (string_of_list_ascii (List.rev (pad_digits (crock_digits minSecretChars (be_val 0 a))))).
       split; [reflexivity|]. by apply (mintSecret_shape (Some a)). }
  apply Ok_inj in Heq as He. apply (f_equal list_ascii_of_string) in He.
  rewrite !list_ascii_of_string_of_list_ascii in He. apply (f_equal (@List.rev ascii)) in He.
  rewrite !rev_involutive in He. apply (f_equal crock_val) in He. unfold pad_digits in He.
  rewrite !crock_val_pad in He.
  pose proof (be_val_bound 0 a ltac:(lia)) as Ba. pose proof (be_val_bound 0 b ltac:(lia)) as Bb.
  rewrite Ha in Ba. rewrite Hb in Bb.
  rewrite !crock_digits_val in He by (change (Z.of_nat minSecretChars) with 52; lia).
  apply (be_val_inj a b 0 0) in He; [by destruct He|lia|lia|congruence].
Qed.

(** ** messq auth add *)

Lemma parse_lines_app first seen l1 l2 seen' :
  parse_lines first seen l1 = Ok seen' ->
  exists first', parse_lines first seen (l1 ++ l2) = parse_lines first' seen' l2.
Proof.
  revert first seen; induction l1 as [|raw l1 IH]; intros first seen.
  { intros [= <-]. by exists first. }
  cbn [parse_lines app]. set (line := if first then trim_prefix bom raw else raw).
  destruct (maxTokenLineBytes <? slen line); [done|].
  destruct (bool_decide (TrimSpace line = "") || has_prefix "#" (TrimSpace line)); [apply IH|].
  destruct (Fields (TrimSpace line)) as [|f0 [|f1 [|f2 [|f3 [|f4 fs]]]]]; try done.
  destruct (parseToken f0 f1 f2 f3) as [tok|]; [|done]. cbn [rbind].
  do 2 (case_bool_decide; [done|]). apply IH.
Qed.

Section AddProofs.
Variable sha256 : string -> string.
Hypothesis sha256_length : forall s, String.length (sha256 s) = 32%nat.

Lemma buildTokenForAdd_spec raw id roles streams tok cred :
  buildTokenForAdd sha256 raw id roles streams = Ok (tok, cred) ->
  validTokenID id = true /\ t_ID tok = id /\ t_Hash tok = sha256 cred /\
  ParseRoleSet roles = Ok (t_Roles tok) /\
  (map pat_raw (t_Patterns tok) = split_on "," streams /\ Forall pattern_ok (t_Patterns tok)) /\
  exists secret, cred = credentialPrefix +:+ id +:+ String "_" secret /\ validSecret secret = true.
Proof.
  unfold buildTokenForAdd. change (validCLIAuthID id) with (validTokenID id).
  destruct (validTokenID id) eqn:Hid; [|done]. cbn [negb].
  intros (secret & Hs & (rs & Hrs & (ps & Hps & H)%rbind_ok)%rbind_ok)%rbind_ok.
  apply Ok_inj in H. injection H as <- <-. cbn [t_ID t_Hash t_Roles t_Patterns].
  apply parse_patterns_ok in Hps as [Hok Hm]; [|apply split_on_parts].
  split_and!; try done. exists secret. split; [done|]. by eapply mintSecret_shape.
Qed.

Lemma added_token_ok raw id roles streams tok cred :
  buildTokenForAdd sha256 raw id roles streams = Ok (tok, cred) ->
  no_space streams = true -> slen streams <= 8000 -> token_ok tok.
Proof.
  intros (Hid & Hti & Hth & Hrs & [Hm Hok] & _)%buildTokenForAdd_spec Hns Hlen.
  assert (join_with "," (map pat_raw (t_Patterns tok)) = streams) as Hj by (rewrite Hm; apply join_split).
  apply RoleSet_roundtrip in Hrs as (Hr & _ & _).
  split; [by rewrite Hti|by rewrite Hth|done| |done|by rewrite Hj|].
  - intros He. rewrite He in Hm. by apply (split_on_not_nil "," streams).
  - unfold Token_String. rewrite Hj, Hti, Hth. cbn [join_with].
    rewrite sapp_length. cbn [String.length]. rewrite sapp_length. cbn [String.length].
    rewrite sapp_length. cbn [String.length]. rewrite encode_length, sha256_length.
    assert (slen id <= 64).
    { unfold validTokenID in Hid. bool_prop. lia. }
    assert (String.length (RoleSet_String (t_Roles tok)) <= 21)%nat.
    { assert (List.In (t_Roles tok) (map Z.of_nat (seq 1 7))) as Hin.
      { apply in_map_iff. exists (Z.to_nat (t_Roles tok)). split; [lia|]. apply in_seq. lia. }
      simpl in Hin. repeat (destruct Hin as [<-|Hin]; [vm_compute; lia|]). done. }
    unfold maxTokenLineBytes. lia.
Qed.

(** A text that ends its last line. *)
Definition complete_lines (content : string) : Prop := content = "" \/ has_suffix (String "010" "") content = true.

Lemma Parse_append content old t :
  complete_lines content -> Parse content = Ok old -> token_ok t ->
  t_ID t ∉ map t_ID old -> t_Hash t ∉ map t_Hash old ->
  Parse (content +:+ Token_String t +:+ String "010" "") = Ok (old ++ [t]).
Proof.
  intros Hend Hold Ht Hid Hh. assert (has_byte "010" (Token_String t) = false) as Hnl by (by apply Token_String_line).
  assert (drop_cr (Token_String t) = Token_String t) as Hcr by (by apply drop_cr_id, Token_String_line).
  assert (scan_lines (content +:+ Token_String t +:+ String "010" "") = scan_lines content ++ [Token_String t]) as Hsc.
  { destruct Hend as [->|[c ->]%has_suffix_spec].
    - cbn [String.append]. rewrite scan_lines_terminated, split_on_no_byte by done. cbn [map]. by rewrite Hcr.
    - rewrite <-sapp_assoc, sapp_assoc with (a := c). cbn [String.append].
      rewrite !scan_lines_terminated, split_on_join_app, map_app, (split_on_no_byte _ _ Hnl).
      cbn [map]. by rewrite Hcr. }
  unfold Parse. rewrite Hsc. destruct (parse_lines_app true [] _ [Token_String t] _ Hold) as [f' ->].
  by rewrite parse_lines_canonical.
Qed.

Lemma auth_add_spec raw content id roles streams content' cred :
  auth_add sha256 raw content id roles streams = Ok (content', cred) ->
  exists old t, Parse (default "" content) = Ok old /\
    buildTokenForAdd sha256 raw id roles streams = Ok (t, cred) /\
    t_ID t ∉ map t_ID old /\ t_Hash t ∉ map t_Hash old /\
    content' = default "" content +:+ Token_String t +:+ String "010" "".
Proof.
  unfold auth_add. destruct (bool_decide (id = "") || bool_decide (roles = "") || bool_decide (streams = "")); [done|].
  intros ([t c] & Hb & (old & Hold & H)%rbind_ok)%rbind_ok. exists old, t.
  destruct (existsb _ old) eqn:Hex; [done|]. apply Ok_inj in H. injection H as <- <-.
  assert (forall u, u ∈ old -> t_ID u <> t_ID t /\ t_Hash u <> t_Hash t) as Hne.
  { intros u Hu%list_elem_of_In. apply not_true_iff_false in Hex. rewrite existsb_exists in Hex.
    split; intros He; apply Hex; exists u; (split; [done|]); apply orb_true_iff; rewrite !bool_decide_eq_true; tauto. }
  split_and!; [by destruct content|done| | |done].
  - intros (u & He & Hu)%mapped_in. destruct (Hne u Hu). congruence.
  - intros (u & He & Hu)%mapped_in. destruct (Hne u Hu). congruence.
Qed.
End AddProofs.

(** A token minted by [messq auth add] works.  When the file ends its last
    line (or is empty or missing), the id has no underscore and the patterns
    hold no blank, a successful add leaves every earlier token in place,
    appends one token with the requested id, roles and patterns, and the
    credential it prints is accepted by a registry over the new file with
    exactly that token's principal; every credential accepted before still is. *)
Theorem auth_add_then_verify sha256 raw content id roles streams content' cred
    (Hsha : forall s, String.length (sha256 s) = 32%nat)
    (Hadd : auth_add sha256 raw content id roles streams = Ok (content', cred))
    (Hid : has_byte "_" id = false) (Hblank : no_space streams = true) (Hlen : slen streams <= 8000)
    (Hend : complete_lines (default "" content)) :
  exists old t, Parse (default "" content) = Ok old /\ Parse content' = Ok (old ++ [t]) /\
    t_ID t = id /\ ParseRoleSet roles = Ok (t_Roles t) /\ map pat_raw (t_Patterns t) = split_on "," streams /\
    Verify sha256 (NewRegistry sha256 (old ++ [t])) cred = Ok (Token_Principal t) /\
    (forall c p, Verify sha256 (NewRegistry sha256 old) c = Ok p ->
       Verify sha256 (NewRegistry sha256 (old ++ [t])) c = Ok p).
Proof.
  apply auth_add_spec in Hadd as (old & t & Hold & Hb & Hti & Hth & ->). exists old, t.
  pose proof (added_token_ok sha256 Hsha _ _ _ _ _ _ Hb Hblank Hlen) as Ht.
  apply buildTokenForAdd_spec in Hb as (Hv & Hi & Hh & Hr & [Hm _] & secret & Hcred & Hs).
  pose proof (Parse_append _ _ _ Hend Hold Ht Hti Hth) as Hnew.
  pose proof (Parse_tokens_ok _ _ Hnew) as [_ Hnd _]. pose proof (Parse_tokens_ok _ _ Hold) as [_ Hnd' _].
  split_and!; try done.
  - apply Verify_spec; [done|]. exists t. split_and!; [set_solver| |done|done].
    rewrite Hi. apply splitCredential_spec. exists secret. done.
  - intros c p (u & Hu & ?)%Verify_spec; [|done]. apply Verify_spec; [done|]. exists u. set_solver.
Qed.

(** ** Where auth add goes wrong *)

(** An id with an underscore can be added and never used.  Under the same
    conditions, but with an underscore in the id (its documented alphabet
    allows one), the add succeeds, the file parses with the new token, and a
    registry over that very file refuses the credential that was printed: the
    server cuts the id at the first underscore. *)
Theorem auth_add_underscore_refused sha256 raw content id roles streams content' cred
    (Hsha : forall s, String.length (sha256 s) = 32%nat)
    (Hadd : auth_add sha256 raw content id roles streams = Ok (content', cred))
    (Hid : has_byte "_" id = true) (Hblank : no_space streams = true) (Hlen : slen streams <= 8000)
    (Hend : complete_lines (default "" content)) :
  exists ts, Parse content' = Ok ts /\ id ∈ map t_ID ts /\
    exists e, Verify sha256 (NewRegistry sha256 ts) cred = Err e /\ is_kind ErrUnauthorized e = true.
Proof.
  apply auth_add_spec in Hadd as (old & t & Hold & Hb & Hti & Hth & ->). exists (old ++ [t]).
  pose proof (added_token_ok sha256 Hsha _ _ _ _ _ _ Hb Hblank Hlen) as Ht.
  apply buildTokenForAdd_spec in Hb as (Hv & Hi & Hh & _).
  pose proof (Parse_append _ _ _ Hend Hold Ht Hti Hth) as Hnew.
  pose proof (Parse_tokens_ok _ _ Hnew) as [_ Hnd Hnh].
  split_and!; [done|rewrite map_app; set_solver|].
  destruct (Verify sha256 (NewRegistry sha256 (old ++ [t])) cred) as [p|e] eqn:Hver.
  - apply Verify_spec in Hver as (u & Hu & Hsp & Hs & ->); [|done].
    apply splitCredential_spec in Hsp as (_ & _ & Hno & _).
    apply elem_of_snoc in Hu as [Hu| ->]; [|congruence].
    destruct Hth. rewrite Hh, Hs. by apply in_mapped.
  - exists e. split; [done|]. unfold Verify in Hver. repeat case_match; simplify_eq; done.
Qed.

Lemma word_app f g : word f -> word g -> starts_rune g = true -> word (f +:+ g).
Proof.
  intros [Hf Hfn] [Hg Hgn] Hs. split; [by destruct f|]. unfold no_space in *.
  by rewrite chunks_app, forallb_app, Hfn, Hgn.
Qed.

Lemma id_starts t : token_ok t -> starts_rune (t_ID t) = true.
Proof.
  intros Ht. pose proof (ok_id _ Ht) as H. unfold validTokenID in H. destruct (t_ID t) as [|c s]; [done|].
  apply andb_true_iff in H as [_ [Hc _]%andb_true_iff]. apply id_lead_ascii in Hc as [Hc _].
  simpl. unfold cont_in. by rewrite (proj2 (Z.leb_gt _ _)) by lia.
Qed.

(** Two lines run together are not a line of four fields. *)
Lemma parse_lines_glued first seen t u :
  token_ok t -> token_ok u -> is_ok (parse_lines first seen [Token_String t +:+ Token_String u]) = false.
Proof.
  intros Ht Hu. cbn [parse_lines].
  destruct (Token_String_head t Ht) as (c & s & Heq & [Hc Hsharp]%id_lead_ascii).
  assert ((if first then trim_prefix bom (Token_String t +:+ Token_String u) else Token_String t +:+ Token_String u)
          = Token_String t +:+ Token_String u) as ->.
  { destruct first; [|done]. unfold trim_prefix, bom. rewrite Heq. simpl.
    rewrite bool_decide_eq_false_2; [done|]. intros <-. done. }
  case_match; [done|].
  pose proof (token_words t Ht) as Hwt. pose proof (token_words u Hu) as Hwu. pose proof (id_starts u Hu) as Hst.
  rewrite !Forall_cons in Hwt. destruct Hwt as (W0 & W1 & W2 & W3 & _).
  rewrite !Forall_cons in Hwu. destruct Hwu as (V0 & V1 & V2 & V3 & _).
  set (P := join_with "," (map pat_raw (t_Patterns t))) in *.
  set (Q := join_with "," (map pat_raw (t_Patterns u))) in *.
  assert (Token_String t +:+ Token_String u =
          join_with " " [t_ID t; EncodeToString (t_Hash t); RoleSet_String (t_Roles t); P +:+ t_ID u;
                         EncodeToString (t_Hash u); RoleSet_String (t_Roles u); Q]) as Hj.
  { unfold Token_String. fold P Q. cbn [join_with]. repeat (rewrite sapp_assoc; cbn [String.append]). done. }
  assert (TrimSpace (Token_String t +:+ Token_String u) = Token_String t +:+ Token_String u) as ->.
  { rewrite Hj. cbn [join_with].
    apply (TrimSpace_edges _ Q _ (t_ID t +:+ String " " (EncodeToString (t_Hash t) +:+ String " " (RoleSet_String (t_Roles t)
             +:+ String " " ((P +:+ t_ID u) +:+ String " " (EncodeToString (t_Hash u) +:+ String " " (RoleSet_String (t_Roles u)))))))); [done|done|].
    repeat (rewrite sapp_assoc; cbn [String.append]). done. }
  assert (bool_decide (Token_String t +:+ Token_String u = "") || has_prefix "#" (Token_String t +:+ Token_String u) = false) as ->.
  { rewrite Heq. cbn [has_prefix String.append]. by rewrite !bool_decide_eq_false_2 by congruence. }
  rewrite Hj, Fields_join; [done|done|].
  repeat constructor; try (apply W0 || apply W1 || apply W2 || apply V1 || apply V2 || apply V3).
  - by apply (word_app P (t_ID u)).
  - by apply (word_app P (t_ID u)).
Qed.

Lemma join_with_app_last c l x y : join_with c (l ++ [x]) +:+ y = join_with c (l ++ [x +:+ y]).
Proof.
  induction l as [|s l IH]; [done|]. cbn [app]. rewrite !join_with_cons by (by destruct l).
  rewrite sapp_assoc. cbn [String.append]. by rewrite IH.
Qed.

Lemma no_byte_app c a b : has_byte c a = false -> has_byte c b = false -> has_byte c (a +:+ b) = false.
Proof. intros Ha Hb. by rewrite has_byte_app, Ha, Hb. Qed.

Lemma Parse_glued ts t : ts <> [] -> tokens_ok ts -> token_ok t ->
  is_ok (Parse (Render ts +:+ Token_String t +:+ String "010" "")) = false.
Proof.
  intros Hne Hok Ht. destruct (exists_last Hne) as (ts0 & l & ->).
  pose proof (ok_tokens _ Hok) as Hall. apply Forall_app in Hall as [Hall0 Hl]. apply Forall_cons in Hl as [Hl _].
  unfold Render. rewrite map_app. cbn [map]. rewrite <-sapp_assoc, join_with_app_last.
  unfold Parse. rewrite scan_lines_terminated, split_join.
  - rewrite map_app. cbn [map].
    assert (forall u, token_ok u -> drop_cr (Token_String u) = Token_String u) as Hcr.
    { intros u Hu. by apply drop_cr_id, Token_String_line. }
    assert (map drop_cr (map Token_String ts0) = map Token_String ts0) as ->.
    { rewrite map_map. apply map_ext_in. intros u Hu%list_elem_of_In. rewrite Forall_forall in Hall0. by apply Hcr, Hall0. }
    rewrite (drop_cr_id (Token_String l +:+ Token_String t)) by (apply no_byte_app; by apply Token_String_line).
    assert (tokens_ok ts0) as Hok0.
    { destruct Hok as [_ H1 H2]. rewrite map_app in H1, H2. split; [done|by apply NoDup_app in H1 as []|by apply NoDup_app in H2 as []]. }
    destruct (parse_lines_app true [] _ [Token_String l +:+ Token_String t] _ (parse_lines_tokens true [] ts0 Hok0)) as [f ->].
    by apply parse_lines_glued.
  - by destruct (map Token_String ts0).
  - apply Forall_app. split.
    + apply Forall_map. eapply Forall_impl; [exact Hall0|]. intros u Hu. by apply Token_String_line.
    + apply Forall_singleton. apply no_byte_app; by apply Token_String_line.
Qed.

(** [auth add] can leave a file no daemon reads.  When the file is the
    canonical rendering of its tokens, whose last line carries no newline, an
    add that reports success and prints a credential runs the new line into
    the last one, and the file no longer parses: every earlier token is lost
    with it. *)
Theorem auth_add_glues_lines sha256 raw ts id roles streams content' cred
    (Hsha : forall s, String.length (sha256 s) = 32%nat)
    (Hfile : Parse (Render ts) = Ok ts) (Hne : ts <> [])
    (Hadd : auth_add sha256 raw (Some (Render ts)) id roles streams = Ok (content', cred))
    (Hblank : no_space streams = true) (Hlen : slen streams <= 8000) :
  is_ok (Parse content') = false.
Proof.
  apply auth_add_spec in Hadd as (old & t & Hold & Hb & Hti & Hth & ->).
  pose proof (added_token_ok sha256 Hsha _ _ _ _ _ _ Hb Hblank Hlen) as Ht.
  apply Parse_glued; [done| |done]. by eapply Parse_tokens_ok.
Qed.

(** ** Samples *)

(** A digest of 32 bytes: the last bytes of the padded text. *)
Definition sample_sha256 (s : string) : string :=
  let p := string_of_list_ascii (repeat "0"%char 32) +:+ s in drop_str (String.length p - 32) p.

Lemma sample_sha256_length s : String.length (sample_sha256 s) = 32%nat.
Proof. unfold sample_sha256. rewrite drop_str_length, sapp_length. simpl. lia. Qed.

Definition sample_raw : option string := Some (string_of_list_ascii (repeat "7"%char 32)).
Definition other_raw : option string := Some (string_of_list_ascii (repeat "8"%char 32)).

(** The result of an add on a file, evaluated. *)
Definition sample_add (raw : option string) (content : option string) (id streams : string) : string * string :=
  match auth_add sample_sha256 raw content id "publish,consume" streams with
  | Ok r => r
  | Err _ => ("", "")
  end.

Lemma auth_add_then_verify_witness :
  exists old t, Parse "" = Ok old /\ Parse (sample_add sample_raw None "ci" "orders*,billing").1 = Ok (old ++ [t]) /\
    t_ID t = "ci" /\ ParseRoleSet "publish,consume" = Ok (t_Roles t) /\
    map pat_raw (t_Patterns t) = split_on "," "orders*,billing" /\
    Verify sample_sha256 (NewRegistry sample_sha256 (old ++ [t])) (sample_add sample_raw None "ci" "orders*,billing").2
      = Ok (Token_Principal t) /\
    (forall c p, Verify sample_sha256 (NewRegistry sample_sha256 old) c = Ok p ->
       Verify sample_sha256 (NewRegistry sample_sha256 (old ++ [t])) c = Ok p).
Proof.
  apply (auth_add_then_verify sample_sha256 sample_raw None "ci" "publish,consume" "orders*,billing").
  - apply sample_sha256_length.
  - vm_compute. reflexivity.
  - reflexivity.
  - vm_compute. reflexivity.
  - vm_compute. discriminate.
  - left. reflexivity.
Defined.

Lemma auth_add_underscore_refused_witness :
  exists ts, Parse (sample_add sample_raw None "ci_bot" "orders").1 = Ok ts /\ "ci_bot" ∈ map t_ID ts /\
    exists e, Verify sample_sha256 (NewRegistry sample_sha256 ts) (sample_add sample_raw None "ci_bot" "orders").2 = Err e /\
      is_kind ErrUnauthorized e = true.
Proof.
  apply (auth_add_underscore_refused sample_sha256 sample_raw None "ci_bot" "publish,consume" "orders").
  - apply sample_sha256_length.
  - vm_compute. reflexivity.
  - reflexivity.
  - vm_compute. reflexivity.
  - vm_compute. discriminate.
  - left. reflexivity.
Defined.

Definition sample_tokens : list Token :=
  match Parse (sample_add sample_raw None "ci" "orders").1 with Ok ts => ts | Err _ => [] end.

Lemma auth_add_glues_lines_witness :
  is_ok (Parse (sample_add other_raw (Some (Render sample_tokens)) "cd" "billing").1) = false.
Proof.
  apply (auth_add_glues_lines sample_sha256 other_raw sample_tokens "cd" "publish,consume" "billing" _
           (sample_add other_raw (Some (Render sample_tokens)) "cd" "billing").2).
  - apply sample_sha256_length.
  - vm_compute. reflexivity.
  - vm_compute. discriminate.
  - vm_compute. reflexivity.
  - vm_compute. reflexivity.
  - vm_compute. discriminate.
Defined.

(** A blank after a comma of [--streams] is taken into the pattern and makes
    the appended line one of five fields. *)
Example auth_add_blank_pattern :
  is_ok (auth_add sample_sha256 sample_raw None "ci" "publish" "orders, billing") = true /\
  is_ok (Parse (sample_add sample_raw None "ci" "orders, billing").1) = false.
Proof. by vm_compute. Qed.
