(* ===== verification/Db.v ===== *)
(** * The database and its transactions

    The rows of the tables of [internal/store/migrations], the database that
    holds them, the event-row helper of [internal/store/events.go], and the
    computations a writer command runs inside its savepoint.

    A JSON text column is represented by the value it encodes.  A command is a
    [tx]: it threads the [world] (the open transaction's view of the database
    and the writer goroutine's in-memory maps) and stops at the first error.
    [savepoint] runs a command the way the writer does: an error rolls the
    database back, never the maps. *)

From stdpp Require Export gmap.
From S2P Require Export Prelude Sql.

(** ** Rows *)

Record stream_row : Set := StreamRow {
  st_name : string;
  st_subjects : list string;
  st_retention : string;
  st_max_msgs : Z;
  st_max_bytes : Z;
  st_max_age_ms : Z;
  st_max_msg_size : Z;
  st_discard : string;
  st_dedup_window_ms : Z;
  st_created_at : Z;
}.

Record seq_row : Set := SeqRow { sq_stream : string; sq_next : Z }.

Record message : Set := Message {
  m_stream : string;
  m_seq : Z;
  m_id : string;
  m_subject : string;
  m_hdr : option (list (string * string));
  m_body : string;
  m_size : Z;
  m_published_at : Z;
  m_trace_id : string;
  m_dedup_key : option string;
}.

Record consumer : Set := Consumer {
  c_stream : string;
  c_name : string;
  c_filters : list string;
  c_ack_wait_ms : Z;
  c_max_deliver : Z;
  c_max_ack_pending : Z;
  c_backoff_ms : list Z;
  c_dead_policy : string;
  c_cursor_seq : Z;
  c_generation : Z;
  c_paused : bool;
  c_created_at : Z;
}.

Record delivery : Set := Delivery {
  d_stream : string;
  d_consumer : string;
  d_seq : Z;
  d_subject : string;
  d_state : Z;
  d_attempts : Z;
  d_visible_at : Z;
  d_generation : Z;
  d_delivered_at : option Z;
  d_last_reason : option string;
}.

Record stats_row : Set := StatsRow {
  ss_stream : string;
  ss_msgs : Z;
  ss_bytes : Z;
  ss_expired_seq : Z;
  ss_expired_at : Z;
}.

(** A value of the small JSON object an event row carries. *)
Inductive dval : Set := DInt (z : Z) | DStr (s : string) | DBool (b : bool) | DStrs (l : list string).

Record event : Set := Event {
  ev_ts : Z;
  ev_name : string;
  ev_stream : option string;
  ev_consumer : option string;
  ev_subject : option string;
  ev_msg_id : option string;
  ev_seq : option Z;
  ev_attempt : option Z;
  ev_trace_id : option string;
  ev_actor : option string;
  ev_detail : list (string * dval);
}.

#[export] Instance dval_eq_dec : EqDecision dval.
Proof. solve_decision. Defined.

#[export] Instance event_eq_dec : EqDecision event.
Proof. solve_decision. Defined.

(** An event as the code's literals build it: the fields it does not name are NULL. *)
Definition blank_event (ts : Z) (name : string) : event :=
  Event ts name None None None None None None None None [].

Record db : Set := Db {
  streams : list stream_row;
  stream_seq : list seq_row;
  messages : list message;
  consumers : list consumer;
  deliveries : list delivery;
  events : list (Z * event);
  stream_stats : list stats_row;
  meta : list (string * string);
}.

Definition empty_db : db := Db [] [] [] [] [] [] [] [].

Definition on_streams (f : list stream_row -> list stream_row) (d : db) : db :=
  Db (f (streams d)) (stream_seq d) (messages d) (consumers d) (deliveries d) (events d)
    (stream_stats d) (meta d).
Definition on_stream_seq (f : list seq_row -> list seq_row) (d : db) : db :=
  Db (streams d) (f (stream_seq d)) (messages d) (consumers d) (deliveries d) (events d)
    (stream_stats d) (meta d).
Definition on_messages (f : list message -> list message) (d : db) : db :=
  Db (streams d) (stream_seq d) (f (messages d)) (consumers d) (deliveries d) (events d)
    (stream_stats d) (meta d).
Definition on_consumers (f : list consumer -> list consumer) (d : db) : db :=
  Db (streams d) (stream_seq d) (messages d) (f (consumers d)) (deliveries d) (events d)
    (stream_stats d) (meta d).
Definition on_deliveries (f : list delivery -> list delivery) (d : db) : db :=
  Db (streams d) (stream_seq d) (messages d) (consumers d) (f (deliveries d)) (events d)
    (stream_stats d) (meta d).
Definition on_events (f : list (Z * event) -> list (Z * event)) (d : db) : db :=
  Db (streams d) (stream_seq d) (messages d) (consumers d) (deliveries d) (f (events d))
    (stream_stats d) (meta d).
Definition on_stream_stats (f : list stats_row -> list stats_row) (d : db) : db :=
  Db (streams d) (stream_seq d) (messages d) (consumers d) (deliveries d) (events d)
    (f (stream_stats d)) (meta d).
Definition on_meta (f : list (string * string) -> list (string * string)) (d : db) : db :=
  Db (streams d) (stream_seq d) (messages d) (consumers d) (deliveries d) (events d)
    (stream_stats d) (f (meta d)).

Lemma on_deliveries_id f d : f (deliveries d) = deliveries d -> on_deliveries f d = d.
Proof. intros Hf. destruct d. unfold on_deliveries. simpl in *. by rewrite Hf. Qed.

(** ** Primary keys *)

Definition mkey (m : message) : string * Z := (m_stream m, m_seq m).
Definition ckey (c : consumer) : string * string := (c_stream c, c_name c).
Definition dkey (d : delivery) : string * string * Z := (d_stream d, d_consumer d, d_seq d).

Definition find_stream (s : string) (d : db) : option stream_row :=
  query_row (has_key st_name s) (streams d).
Definition find_seq (s : string) (d : db) : option Z :=
  sq_next <$> query_row (has_key sq_stream s) (stream_seq d).
Definition find_message (s : string) (q : Z) (d : db) : option message :=
  query_row (has_key mkey (s, q)) (messages d).
Definition find_consumer (s c : string) (d : db) : option consumer :=
  query_row (has_key ckey (s, c)) (consumers d).
Definition find_delivery (s c : string) (q : Z) (d : db) : option delivery :=
  query_row (has_key dkey (s, c, q)) (deliveries d).

(** The rows of one stream, and of one consumer. *)
Definition on_stream (s : string) (m : message) : bool := bool_decide (m_stream m = s).
Definition held_by (s c : string) (d : delivery) : bool :=
  bool_decide ((d_stream d, d_consumer d) = (s, c)).

(** ** The writer goroutine's memory *)

(** [flow] is the flow.blocked limiter map, [limiter] the rejection limiter map
    ([lastMS], [suppressed]), [minted] and [drawn] count the identifiers taken
    from the generator and from the random source. *)
Record mem : Set := Mem {
  flow : gmap string Z;
  limiter : gmap string (Z * Z);
  minted : nat;
  drawn : nat;
}.

Definition empty_mem : mem := Mem ∅ ∅ 0 0.

Record world : Set := World { w_db : db; w_mem : mem }.

(** The identifier sources a command draws from: the ULID generator
    ([id.Gen], over a library that is not part of this source tree) and the
    random trace ids ([id.NewTraceID]).  [newID n] is the n-th identifier. *)
Class Ids : Type := { newID : nat -> string; newTrace : nat -> string }.

(** What the store relies on: the generator never repeats an identifier. *)
Class FreshIds `{Ids} : Prop := newID_inj : forall i j, newID i = newID j -> i = j.

(** ** Transactions *)

Definition tx (A : Type) : Type := world -> world * result A.

#[global] Instance tx_ret : MRet tx := fun A a w => (w, Ok a).
#[global] Instance tx_bind : MBind tx := fun A B f m w =>
  match m w with
  | (w', Ok a) => f a w'
  | (w', Err e) => (w', Err e)
  end.

Definition fail {A} (e : error) : tx A := fun w => (w, Err e).
Definition lift {A} (r : result A) : tx A := fun w => (w, r).
Definition query {A} (q : db -> A) : tx A := fun w => (w, Ok (q (w_db w))).
Definition exec (f : db -> db) : tx unit := fun w => (World (f (w_db w)) (w_mem w), Ok tt).

(** A row that must exist: [sql.ErrNoRows] becomes [e]. *)
Definition query_or {A} (e : error) (q : db -> option A) : tx A := fun w =>
  match q (w_db w) with
  | Some a => (w, Ok a)
  | None => (w, Err e)
  end.

(** [for _, x := range l] over a loop-carried value. *)
Fixpoint for_each {A S} (l : list A) (s : S) (body : A -> S -> tx S) : tx S :=
  match l with
  | [] => mret s
  | a :: l => s' ← body a s; for_each l s' body
  end.

(** The writer's savepoint: an error undoes the command's statements. *)
Definition savepoint {A} (m : tx A) : tx A := fun w =>
  match m w with
  | (w', Ok a) => (w', Ok a)
  | (w', Err e) => (World (w_db w) (w_mem w'), Err e)
  end.

Definition mint `{Ids} : tx string := fun w =>
  (World (w_db w) (Mem (flow (w_mem w)) (limiter (w_mem w)) (S (minted (w_mem w))) (drawn (w_mem w))),
   Ok (newID (minted (w_mem w)))).

Definition draw_trace `{Ids} : tx string := fun w =>
  (World (w_db w) (Mem (flow (w_mem w)) (limiter (w_mem w)) (minted (w_mem w)) (S (drawn (w_mem w)))),
   Ok (newTrace (drawn (w_mem w)))).

(** ** Business rejections: commands.go *)

Definition domainSentinels : list sentinel :=
  [ErrNotFound; ErrConflict; ErrBadRequest; ErrBadSubject; ErrTooLarge; ErrStreamFull].

Definition isDomainError (e : error) : bool := existsb (fun k => is_kind k e) domainSentinels.

Definition maybeCmdErr (e : error) : error := if isDomainError e then CmdErr e else e.

Definition IsCmdError (e : error) : bool :=
  match e with
  | CmdErr _ => true
  | _ => false
  end.

(** Mark the domain errors of a command; the others stay fatal to the batch. *)
Definition marking {A} (m : tx A) : tx A := fun w =>
  match m w with
  | (w', Ok a) => (w', Ok a)
  | (w', Err e) => (w', Err (maybeCmdErr e))
  end.

(** ** Event rows: events.go *)

Definition nullStr (s : string) : option string := if bool_decide (s = "") then None else Some s.
Definition nullI64 (v : Z) : option Z := if v =? 0 then None else Some v.

(** [INTEGER PRIMARY KEY]: one more than the largest rowid in the table. *)
Definition next_event_id (t : list (Z * event)) : Z :=
  match max_of fst t with
  | Some i => i + 1
  | None => 1
  end.

Definition insertEvent (e : event) : tx unit :=
  exec (on_events (fun t => t ++ [(next_event_id t, e)])).

(** The row and the carrier handed to the fan-out agree field by field. *)
Definition commitEvent (e : event) : tx event :=
  _ ← insertEvent e; mret e.

(** ** Reasoning about transactions

    [wp m Q F w]: run from [w], [m] either returns a value with [Q] or stops
    with an error for which [F] holds. *)

Definition wp {A} (m : tx A) (Q : A -> world -> Prop) (F : error -> world -> Prop) (w : world) : Prop :=
  match m w with
  | (w', Ok a) => Q a w'
  | (w', Err e) => F e w'
  end.

Definition any_error : error -> world -> Prop := fun _ _ => True.

Section Wp.
Context {A B : Type}.
Implicit Types (F : error -> world -> Prop) (w : world).

Lemma wp_ret (a : A) Q F w : Q a w -> wp (mret a) Q F w.
Proof. done. Qed.

Lemma wp_bind (m : tx A) (f : A -> tx B) Q F w :
  wp m (fun a => wp (f a) Q F) F w -> wp (m ≫= f) Q F w.
Proof. unfold wp, mbind, tx_bind. by destruct (m w) as [w' [a|e]]. Qed.

Lemma wp_fail e Q F w : F e w -> wp (fail (A := A) e) Q F w.
Proof. done. Qed.

Lemma wp_lift (r : result A) Q F w :
  (forall a, r = Ok a -> Q a w) -> (forall e, r = Err e -> F e w) -> wp (lift r) Q F w.
Proof. unfold wp, lift. destruct r; auto. Qed.

Lemma wp_query (q : db -> A) Q F w : Q (q (w_db w)) w -> wp (query q) Q F w.
Proof. done. Qed.

Lemma wp_query_or e (q : db -> option A) Q F w :
  (forall a, q (w_db w) = Some a -> Q a w) -> (q (w_db w) = None -> F e w) ->
  wp (query_or e q) Q F w.
Proof. unfold wp, query_or. destruct (q (w_db w)); auto. Qed.

Lemma wp_exec (f : db -> db) (Q : unit -> world -> Prop) F w :
  Q tt (World (f (w_db w)) (w_mem w)) -> wp (exec f) Q F w.
Proof. done. Qed.

Lemma wp_mono (m : tx A) (Q Q' : A -> world -> Prop) F F' w :
  wp m Q F w -> (forall a w', Q a w' -> Q' a w') -> (forall e w', F e w' -> F' e w') ->
  wp m Q' F' w.
Proof. unfold wp. destruct (m w) as [w' [a|e]]; auto. Qed.

End Wp.

(** A loop: the body keeps the loop invariant [I], indexed by what is left. *)
Lemma wp_for_each {A S} (l : list A) (s : S) body (I : list A -> S -> world -> Prop) Q F w :
  I l s w ->
  (forall a rest s w, I (a :: rest) s w -> wp (body a s) (I rest) F w) ->
  (forall s w, I [] s w -> Q s w) ->
  wp (for_each l s body) Q F w.
Proof.
  intros HI Hbody HQ. revert s w HI. induction l as [|a l IH]; intros s w HI; simpl.
  - exact (HQ _ _ HI).
  - apply wp_bind. eapply wp_mono; [by apply Hbody| |done]. intros s' w'. apply IH.
Qed.

Lemma wp_mint `{Ids} (Q : string -> world -> Prop) F w :
  Q (newID (minted (w_mem w)))
    (World (w_db w) (Mem (flow (w_mem w)) (limiter (w_mem w)) (S (minted (w_mem w))) (drawn (w_mem w)))) ->
  wp mint Q F w.
Proof. done. Qed.

Lemma wp_draw_trace `{Ids} (Q : string -> world -> Prop) F w :
  Q (newTrace (drawn (w_mem w)))
    (World (w_db w) (Mem (flow (w_mem w)) (limiter (w_mem w)) (minted (w_mem w)) (S (drawn (w_mem w))))) ->
  wp draw_trace Q F w.
Proof. done. Qed.

Lemma wp_marking {A} (m : tx A) Q F w :
  wp m Q (fun e => F (maybeCmdErr e)) w -> wp (marking m) Q F w.
Proof. unfold wp, marking. by destruct (m w) as [w' [a|e]]. Qed.

Lemma wp_commitEvent e (Q : event -> world -> Prop) F w :
  Q e (World (on_events (fun t => t ++ [(next_event_id t, e)]) (w_db w)) (w_mem w)) ->
  wp (commitEvent e) Q F w.
Proof. intros H. by apply wp_bind, wp_exec, wp_ret. Qed.

(** What a command leaves behind when it succeeds. *)
Lemma wp_run {A} (m : tx A) Q F w w' a : wp m Q F w -> m w = (w', Ok a) -> Q a w'.
Proof. unfold wp. intros H Hm. by rewrite Hm in H. Qed.

Lemma wp_run_err {A} (m : tx A) Q F w w' e : wp m Q F w -> m w = (w', Err e) -> F e w'.
Proof. unfold wp. intros H Hm. by rewrite Hm in H. Qed.

(** One step of a transaction. *)
Ltac wp_step :=
  match goal with
  | |- wp (_ ≫= _) _ _ _ => apply wp_bind
  | |- wp (mret _) _ _ _ => apply wp_ret
  | |- wp (fail _) _ _ _ => apply wp_fail
  | |- wp (query _) _ _ _ => apply wp_query
  | |- wp (query_or _ _) _ _ _ => apply wp_query_or
  | |- wp (lift _) _ _ _ => apply wp_lift
  | |- wp (exec _) _ _ _ => apply wp_exec
  | |- wp (commitEvent _) _ _ _ => apply wp_commitEvent
  | |- wp mint _ _ _ => apply wp_mint
  | |- wp draw_trace _ _ _ => apply wp_draw_trace
  | |- wp (marking _) _ _ _ => apply wp_marking
  end.
Ltac wp_steps := repeat wp_step.
