(* ===== verification/IdGen.v ===== *)
(** * Identifiers

    [internal/id]: the message id generator of [ulid.go] and the trace ids of
    [trace.go], with [queue.ResolveTraceID].  The ULID library is a parameter:
    what one call of [ulid.New] returns for a millisecond, how an id is written
    and what [ulid.ParseStrict] accepts.  An id is its 128-bit number, a trace or
    span id the string of its bytes.  The last section discharges the interface
    the store asks of its generator. *)

From stdpp Require Import pretty.
From S2P Require Import Prelude GoText TextFields Sql Db.

Module IdGen.

(** ** trace.go *)

Definition hexValue (c : ascii) : Z :=
  let b := byte_z c in
  if (48 <=? b) && (b <=? 57) then b - 48 else if (97 <=? b) && (b <=? 102) then b - 97 + 10 else 255.

(** The loop over the [n] destination bytes. *)
Fixpoint decode_bytes (n : nat) (s : string) : option string :=
  match n, s with
  | O, _ => Some EmptyString
  | S n, String a (String b s) =>
      let hi := hexValue a in
      let lo := hexValue b in
      if (15 <? hi) || (15 <? lo) then None
      else String (byte_chr (Z.lor (Z.shiftl hi 4) lo)) <$> decode_bytes n s
  | S _, _ => None
  end.

Definition decodeLowerHex (s : string) (n : nat) : option string :=
  if (String.length s =? 2 * n)%nat then decode_bytes n s else None.

Definition IsZero (t : string) : bool := all_bytes (fun c => byte_z c =? 0) t.

Definition ErrBadTraceID : error := E ErrBadRequest "a trace id is 32 lowercase hex characters and never all zero".

Definition ParseTraceID (s : string) : result string :=
  match decodeLowerHex s 16 with
  | Some t => if IsZero t then Err ErrBadTraceID else Ok t
  | None => Err ErrBadTraceID
  end.

Definition traceIDDraws : nat := 4.

(** [t[15] |= 1]. *)
Fixpoint set_low_bit (t : string) : string :=
  match t with
  | EmptyString => EmptyString
  | String c EmptyString => String (byte_chr (Z.lor (byte_z c) 1)) EmptyString
  | String c t => String c (set_low_bit t)
  end.

(** The draws of the source: 16 bytes each, or [inl] the bytes a failed read
    left in the buffer. *)
Fixpoint draw_loop (fuel : nat) (draws : list (string + string)) (t : string) : string :=
  match fuel, draws with
  | S fuel, inr t :: draws => if IsZero t then draw_loop fuel draws t else t
  | S _, inl t :: _ => set_low_bit t
  | _, _ => set_low_bit t
  end.

Definition zero_id (n : nat) : string := String.string_of_list_ascii (repeat zero n).

Definition NewTraceID (draws : list (string + string)) : string := draw_loop traceIDDraws draws (zero_id 16).

Definition traceparentLen : nat := 55.

Definition dash (n : nat) (v : string) : bool := bool_decide (String.get n v = Some "-"%char).

Definition slice (from to : nat) (v : string) : string := take_str (to - from) (drop_str from v).

(** The fields at their fixed offsets. *)
Definition fields (v : string) : option (string * string * bool) :=
  tid ← decodeLowerHex (slice 3 35 v) 16;
  if IsZero tid then None
  else
    parent ← decodeLowerHex (slice 36 52 v) 8;
    if IsZero parent then None
    else
      match decodeLowerHex (slice 53 55 v) 1 with
      | Some (String flags EmptyString) => Some (tid, parent, negb (Z.land (byte_z flags) 1 =? 0))
      | _ => None
      end.

(** The trace id, the parent id and the sampled flag; [None] is an unusable header. *)
Definition ParseTraceparent (v : string) : option (string * string * bool) :=
  let len := String.length v in
  if (len <? traceparentLen)%nat || negb (dash 2 v) || negb (dash 35 v) || negb (dash 52 v) then None
  else
    match decodeLowerHex (slice 0 2 v) 1 with
    | Some (String ver EmptyString) =>
        if byte_z ver =? 255 then None
        else if byte_z ver =? 0 then if (len =? traceparentLen)%nat then fields v else None
        else if (traceparentLen <? len)%nat && (negb (dash 55 v) || (len =? 56)%nat) then None
        else fields v
    | _ => None
    end.

(** queue/update.go *)
Definition ResolveTraceID (explicit traceparent : string) (draws : list (string + string)) : string :=
  if negb (bool_decide (explicit = "")) then explicit
  else match ParseTraceparent traceparent with
       | Some (tid, _, _) => EncodeToString tid
       | None => EncodeToString (NewTraceID draws)
       end.

Inductive Kind : Set := KindUnknown | KindMsgID | KindTraceID.

Definition Kind_String (k : Kind) : string :=
  match k with KindMsgID => "message id" | KindTraceID => "trace id" | KindUnknown => "unknown" end.

(** ** ulid.go *)

Definition maxMintAttempts : nat := 8.

(** [g_seen] is the highest wall-clock millisecond observed, [g_ms] the last one
    handed out; [g_calls] counts the calls of the library. *)
Record Gen : Set := MkGen { g_ms : Z; g_seen : Z; g_last : Z; g_calls : nat }.

Definition NewGen : Gen := MkGen 0 0 0 0.

Section Ulid.
(** The [k]-th call of [ulid.New] for a millisecond, [None] when it fails. *)
Context (ulid_New : nat -> Z -> option Z).
Context (ParseStrict : string -> option Z).

Fixpoint mint_loop (fuel : nat) (g : Gen) : Gen * Z :=
  match fuel with
  | O => let u := (g_last g + 1) mod 2 ^ 128 in (MkGen (g_ms g) (g_seen g) u (g_calls g), u)
  | S fuel =>
      let retry := MkGen (g_ms g + 1) (g_seen g) (g_last g) (S (g_calls g)) in
      match ulid_New (g_calls g) (g_ms g) with
      | Some u => if g_last g <? u then (MkGen (g_ms g) (g_seen g) u (S (g_calls g)), u) else mint_loop fuel retry
      | None => mint_loop fuel retry
      end
  end.

(** The next id, and whether the clock was seen to step backwards. *)
Definition New (nowMS : Z) (g : Gen) : Gen * Z * bool :=
  let g' := MkGen (Z.max nowMS (g_ms g)) (if nowMS =? g_seen g then g_seen g else nowMS) (g_last g) (g_calls g) in
  let '(g'', u) := mint_loop maxMintAttempts g' in
  (g'', u, nowMS <? g_seen g).

Definition ErrBadMsgID : error := E ErrBadRequest "a message id is 26 Crockford base32 characters".

Definition ParseMsgID (s : string) : result Z :=
  match ParseStrict s with Some u => Ok u | None => Err ErrBadMsgID end.

Definition Classify (s : string) : Kind :=
  if (slen s =? 26) && bool_decide (is_Some (ParseStrict s)) then KindMsgID
  else match ParseTraceID s with Ok _ => KindTraceID | Err _ => KindUnknown end.
End Ulid.

(** ** Facts: hexadecimal *)

Lemma hexValue_char d : 0 <= d < 16 -> hexValue (hex_char d) = d.
Proof.
  intros H. assert (List.In d (map Z.of_nat (seq 0 16))) as Hin.
  { apply in_map_iff. exists (Z.to_nat d). split; [lia|]. apply in_seq. lia. }
  simpl in Hin. repeat (destruct Hin as [<-|Hin]; [reflexivity|]). done.
Qed.

(** A lower-case digit is the digit of its value. *)
Lemma hexValue_inv c : hexValue c <= 15 -> 0 <= hexValue c /\ hex_char (hexValue c) = c.
Proof.
  destruct c as [b0 b1 b2 b3 b4 b5 b6 b7].
  destruct b0, b1, b2, b3, b4, b5, b6, b7; vm_compute; intros H; (split; [by intro|]) || idtac; try reflexivity; by destruct H.
Qed.

Lemma below_16 d : 0 <= d < 16 -> List.In d (map Z.of_nat (seq 0 16)).
Proof. intros H. apply in_map_iff. exists (Z.to_nat d). split; [lia|]. apply in_seq. lia. Qed.

Lemma nibble_join h l : 0 <= h < 16 -> 0 <= l < 16 -> Z.lor (Z.shiftl h 4) l = 16 * h + l.
Proof.
  intros Hh%below_16 Hl%below_16.
  assert (forallb (fun h => forallb (fun l => Z.lor (Z.shiftl h 4) l =? 16 * h + l) (map Z.of_nat (seq 0 16))) (map Z.of_nat (seq 0 16)) = true)
    as Hall by reflexivity.
  rewrite forallb_forall in Hall. specialize (Hall h Hh). rewrite forallb_forall in Hall. by apply Z.eqb_eq, Hall.
Qed.

Lemma byte_chr_z c : byte_chr (byte_z c) = c.
Proof. unfold byte_chr. by rewrite Nat2Z.id, ascii_nat_embedding. Qed.

Lemma byte_z_chr z : 0 <= z < 256 -> byte_z (byte_chr z) = z.
Proof. intros H. unfold byte_chr. rewrite nat_ascii_embedding by lia. lia. Qed.

Lemma decode_bytes_encode t s : decode_bytes (String.length t) (EncodeToString t +:+ s) = Some t.
Proof.
  induction t as [|c t IH]; [done|]. cbn [EncodeToString String.length decode_bytes String.append].
  destruct (nibbles c) as [Hh Hl]. rewrite !hexValue_char by done.
  rewrite (proj2 (Z.ltb_ge 15 _)), (proj2 (Z.ltb_ge 15 _)) by lia. simpl.
  rewrite IH. simpl. rewrite nibble_join by done. by rewrite <-Z.div_mod, byte_chr_z by lia.
Qed.

Lemma decodeLowerHex_encode t n : String.length t = n -> decodeLowerHex (EncodeToString t) n = Some t.
Proof.
  intros <-. unfold decodeLowerHex. rewrite encode_length, Nat.eqb_refl.
  by rewrite <-(sapp_nil_r (EncodeToString t)), decode_bytes_encode.
Qed.

(** Only the lower-case rendering decodes. *)
Lemma decode_bytes_inv n s t : String.length s = (2 * n)%nat -> decode_bytes n s = Some t -> EncodeToString t = s /\ String.length t = n.
Proof.
  revert s t. induction n as [|n IH]; intros s t Hl.
  - destruct s; [|done]. simpl. by intros [= <-].
  - destruct s as [|a [|b s]]; simpl in Hl; try lia. cbn [decode_bytes].
    destruct (Z.ltb_spec 15 (hexValue a)) as [|Ha]; [done|]. destruct (Z.ltb_spec 15 (hexValue b)) as [|Hb]; [done|]. simpl.
    destruct (decode_bytes n s) as [t'|] eqn:Hd; [|done]. intros [= <-].
    destruct (hexValue_inv a Ha) as [Ha0 Hca]. destruct (hexValue_inv b Hb) as [Hb0 Hcb].
    rewrite nibble_join by lia. destruct (IH s t') as [<- Hn]; [lia|done|]. simpl. rewrite byte_z_chr by lia.
    replace ((16 * hexValue a + hexValue b) / 16) with (hexValue a) by (rewrite Z.mul_comm, Z.div_add_l by lia; rewrite Z.div_small by lia; lia).
    replace ((16 * hexValue a + hexValue b) mod 16) with (hexValue b)
      by (rewrite Z.add_comm, Z.mul_comm, Z.mod_add by lia; by rewrite Z.mod_small by lia).
    rewrite Hca, Hcb, Hn. done.
Qed.

Lemma decodeLowerHex_inv n s t : decodeLowerHex s n = Some t -> EncodeToString t = s /\ String.length t = n.
Proof. unfold decodeLowerHex. destruct (Nat.eqb_spec (String.length s) (2 * n)); [|done]. by apply decode_bytes_inv. Qed.


(** ** Facts: trace ids *)

Lemma set_low_bit_ok t : t <> "" -> String.length (set_low_bit t) = String.length t /\ IsZero (set_low_bit t) = false.
Proof.
  induction t as [|c t IH]; [done|]. intros _. destruct t as [|c' t].
  - split; [done|]. unfold IsZero. cbn [set_low_bit all_bytes]. rewrite andb_true_r. apply Z.eqb_neq.
    pose proof (byte_z_bound c) as Hb.
    assert (0 <= Z.lor (byte_z c) 1 < 256) as Hr.
    { split; [apply Z.lor_nonneg; lia|]. destruct (Z.eq_dec (Z.lor (byte_z c) 1) 0) as [->|Hne]; [lia|].
      change 256 with (2 ^ 8). apply Z.log2_lt_pow2; [pose proof (proj2 (Z.lor_nonneg (byte_z c) 1)); lia|].
      rewrite Z.log2_lor by lia. apply Z.max_lub_lt; [|done].
      destruct (Z.eq_dec (byte_z c) 0) as [->|]; [done|]. apply Z.log2_lt_pow2; lia. }
    rewrite byte_z_chr by done. intros Hz. apply Z.lor_eq_0_iff in Hz as [_ ?]. done.
  - destruct IH as [Hl Hz]; [done|]. change (set_low_bit (String c (String c' t))) with (String c (set_low_bit (String c' t))).
    set (u := set_low_bit (String c' t)) in *. simpl. split; [by rewrite Hl|].
    unfold IsZero in *. simpl. by rewrite Hz, andb_false_r.
Qed.

Definition sixteen (d : string + string) : Prop := match d with inl t | inr t => String.length t = 16%nat end.

Lemma draw_loop_ok fuel draws t :
  String.length t = 16%nat -> Forall sixteen draws ->
  String.length (draw_loop fuel draws t) = 16%nat /\ IsZero (draw_loop fuel draws t) = false.
Proof.
  assert (forall t, String.length t = 16%nat -> String.length (set_low_bit t) = 16%nat /\ IsZero (set_low_bit t) = false) as Hlow.
  { intros t0 H0. rewrite <-H0. apply set_low_bit_ok. by destruct t0. }
  revert draws t. induction fuel as [|fuel IH]; intros draws t Ht Hd; [by apply Hlow|].
  destruct draws as [|[t'|t'] draws]; [by apply Hlow| |]; apply Forall_cons in Hd as [H16 Hd]; simpl in H16; simpl; [by apply Hlow|].
  destruct (IsZero t') eqn:Hz; [by apply IH|done].
Qed.

Lemma parse_encode t : String.length t = 16%nat -> IsZero t = false -> ParseTraceID (EncodeToString t) = Ok t.
Proof. intros Hl Hz. unfold ParseTraceID. by rewrite (decodeLowerHex_encode t 16 Hl), Hz. Qed.

Lemma fields_ok v tid parent sampled :
  fields v = Some (tid, parent, sampled) -> String.length tid = 16%nat /\ IsZero tid = false /\ EncodeToString tid = slice 3 35 v.
Proof.
  unfold fields. destruct (decodeLowerHex (slice 3 35 v) 16) as [t|] eqn:Ht; [|done]. simpl.
  destruct (IsZero t) eqn:Hz; [done|]. destruct (decodeLowerHex (slice 36 52 v) 8) as [p|]; [|done]. simpl.
  destruct (IsZero p); [done|]. repeat case_match; try done. intros [= <- _ _].
  apply decodeLowerHex_inv in Ht as [He Hl]. done.
Qed.

Lemma traceparent_fields v r : ParseTraceparent v = Some r -> fields v = Some r.
Proof. unfold ParseTraceparent. by repeat case_match. Qed.

(** What a publish without an explicit trace id carries is always a trace id. *)
Lemma resolved_trace_parses tp draws :
  Forall sixteen draws -> exists t, ParseTraceID (ResolveTraceID "" tp draws) = Ok t /\ ResolveTraceID "" tp draws = EncodeToString t.
Proof.
  intros Hd. unfold ResolveTraceID. rewrite bool_decide_true by done. simpl.
  destruct (ParseTraceparent tp) as [[[tid p] sm]|] eqn:Hp.
  - apply traceparent_fields, fields_ok in Hp as (Hl & Hz & _). exists tid. by rewrite parse_encode.
  - destruct (draw_loop_ok traceIDDraws draws (zero_id 16) eq_refl Hd) as [Hl Hz]. exists (NewTraceID draws). by rewrite parse_encode.
Qed.

(** The header a version 00 caller sends. *)
Definition traceparent_of (tid parent flags : string) : string :=
  "00-" +:+ EncodeToString tid +:+ "-" +:+ EncodeToString parent +:+ "-" +:+ EncodeToString flags.

Lemma drop_str_add n m v : drop_str (n + m) v = drop_str m (drop_str n v).
Proof. revert v. induction n as [|n IH]; intros v; [done|]. destruct v as [|c v]; simpl; [by destruct m|apply IH]. Qed.

Lemma drop_str_len n a b : String.length a = n -> drop_str n (a +:+ b) = b.
Proof. intros <-. apply drop_str_app. Qed.

Lemma take_str_len n a b : String.length a = n -> take_str n (a +:+ b) = a.
Proof. intros <-. apply take_str_app. Qed.

Lemma get_str_len n a c b : String.length a = n -> String.get n (a +:+ String c b) = Some c.
Proof. revert n. induction a as [|x a IH]; intros n <-; [done|]. simpl. by apply IH. Qed.

Lemma traceparent_parses tid parent flag :
  String.length tid = 16%nat -> String.length parent = 8%nat -> IsZero tid = false -> IsZero parent = false ->
  ParseTraceparent (traceparent_of tid parent (String flag "")) = Some (tid, parent, negb (Z.land (byte_z flag) 1 =? 0)).
Proof.
  intros Ht Hp Hzt Hzp. unfold traceparent_of.
  set (a := EncodeToString tid). set (b := EncodeToString parent). set (f := EncodeToString (String flag "")).
  assert (String.length a = 32%nat) as Ha by (unfold a; rewrite encode_length; lia).
  assert (String.length b = 16%nat) as Hb by (unfold b; rewrite encode_length; lia).
  assert (String.length f = 2%nat) as Hf by done.
  set (v := "00-" +:+ a +:+ "-" +:+ b +:+ "-" +:+ f).
  assert (drop_str 3 v = a +:+ String "-" (b +:+ String "-" f)) as H3 by done.
  assert (drop_str 36 v = b +:+ String "-" f) as H36.
  { change 36%nat with (3 + (32 + 1))%nat. by rewrite drop_str_add, H3, drop_str_add, (drop_str_len 32 a) by done. }
  assert (drop_str 53 v = f) as H53.
  { change 53%nat with (36 + (16 + 1))%nat. by rewrite drop_str_add, H36, drop_str_add, (drop_str_len 16 b) by done. }
  assert (String.length v = 55%nat) as Hv by (unfold v; rewrite !sapp_length; simpl; lia).
  assert (dash 2 v = true /\ dash 35 v = true /\ dash 52 v = true) as (Hd2 & Hd35 & Hd52).
  { unfold dash. split_and!; apply bool_decide_true; [done| |].
    - exact (get_str_len 35 ("00-" +:+ a) "-" (b +:+ String "-" f) ltac:(rewrite sapp_length; simpl; lia)).
    - pose proof (get_str_len 52 ("00-" +:+ a +:+ "-" +:+ b) "-" f ltac:(rewrite !sapp_length; simpl; lia)) as Hg.
      rewrite !sapp_assoc in Hg. exact Hg. }
  assert (fields v = Some (tid, parent, negb (Z.land (byte_z flag) 1 =? 0))) as Hfields.
  { unfold fields, slice. rewrite H3, H36, H53. change (35 - 3)%nat with 32%nat. change (52 - 36)%nat with 16%nat. change (55 - 53)%nat with 2%nat.
    assert (take_str 2 f = f) as -> by done. rewrite (take_str_len 32 a), (take_str_len 16 b) by done. unfold a, b, f.
    rewrite (decodeLowerHex_encode tid 16 Ht), (decodeLowerHex_encode parent 8 Hp), (decodeLowerHex_encode (String flag "") 1) by done.
    simpl. by rewrite Hzt, Hzp. }
  unfold ParseTraceparent. by rewrite Hv, Hd2, Hd35, Hd52.
Qed.

(** ** Facts: the generator *)

Section GenFacts.
Context (ulid_New : nat -> Z -> option Z).

Lemma mint_increases fuel g :
  0 <= g_last g < 2 ^ 128 - 1 ->
  let '(g', u) := mint_loop ulid_New fuel g in g_last g < u /\ g_last g' = u.
Proof.
  revert g. induction fuel as [|fuel IH]; intros g Hg; simpl.
  - rewrite Z.mod_small by lia. lia.
  - specialize (IH (MkGen (g_ms g + 1) (g_seen g) (g_last g) (S (g_calls g))) Hg).
    destruct (ulid_New _ _) as [u|]; [|exact IH]. destruct (Z.ltb_spec (g_last g) u); [|exact IH]. simpl. lia.
Qed.

(** The generator after [n] calls, at the clock readings [clk]. *)
Fixpoint gen_after (clk : nat -> Z) (n : nat) : Gen :=
  match n with O => NewGen | S n => (New ulid_New (clk n) (gen_after clk n)).1.1 end.

Definition nth_id (clk : nat -> Z) (n : nat) : Z := (New ulid_New (clk n) (gen_after clk n)).1.2.

Lemma nth_id_last clk n : 0 <= g_last (gen_after clk n) < 2 ^ 128 - 1 ->
  g_last (gen_after clk n) < nth_id clk n /\ g_last (gen_after clk (S n)) = nth_id clk n.
Proof.
  intros Hg. unfold nth_id. cbn [gen_after]. unfold New.
  pose proof (mint_increases maxMintAttempts (MkGen (Z.max (clk n) (g_ms (gen_after clk n)))
    (if clk n =? g_seen (gen_after clk n) then g_seen (gen_after clk n) else clk n) (g_last (gen_after clk n)) (g_calls (gen_after clk n))) Hg) as Hm.
  by destruct (mint_loop _ _ _) as [g' u].
Qed.

(** The first [N] calls do not reach the last id. *)
Definition ids_left (clk : nat -> Z) (N : nat) : Prop := forall n, (n <= N)%nat -> g_last (gen_after clk n) < 2 ^ 128 - 1.

Lemma last_nonneg clk N n : ids_left clk N -> (n <= S N)%nat -> 0 <= g_last (gen_after clk n).
Proof.
  intros Hleft. induction n as [|n IH]; intros Hn; [simpl; lia|].
  destruct (nth_id_last clk n) as [Hlt ->]; [split; [apply IH; lia|apply Hleft; lia]|]. specialize (IH ltac:(lia)). lia.
Qed.

Lemma ids_increase clk N i j : ids_left clk N -> (i < j <= N)%nat -> nth_id clk i < nth_id clk j.
Proof.
  intros Hleft [Hij Hj]. assert (forall n, (S n <= N)%nat -> nth_id clk n < nth_id clk (S n)) as Hstep.
  { intros n Hn. destruct (nth_id_last clk n) as [_ Hl]; [split; [apply (last_nonneg _ N); auto with lia|apply Hleft; lia]|].
    destruct (nth_id_last clk (S n)) as [Hlt _]; [split; [apply (last_nonneg _ N); auto with lia|apply Hleft; lia]|]. lia. }
  induction Hij as [|j _ IH]; [by apply Hstep|]. specialize (Hstep j Hj). lia.
Qed.
End GenFacts.

(** ** Two attempts are enough *)

(** [ulid.New]'s documented time component: the top 48 bits are the millisecond. *)
Definition timed (ulid_New : nat -> Z -> option Z) : Prop := forall k ms u, ulid_New k ms = Some u -> u / 2 ^ 80 = ms.

Lemma mint_in_two ulid_New fuel g u :
  timed ulid_New -> g_last g / 2 ^ 80 <= g_ms g -> ulid_New (S (g_calls g)) (g_ms g + 1) = Some u ->
  let '(g', id) := mint_loop ulid_New (S (S fuel)) g in
  (g_ms g' = g_ms g \/ g_ms g' = g_ms g + 1) /\ id / 2 ^ 80 = g_ms g' /\ g_last g' = id.
Proof.
  intros Ht Hinv Hu. cbn [mint_loop]. cbn [g_calls g_ms g_last]. rewrite Hu.
  assert (g_last g < u) as Hlt.
  { destruct (Z.lt_ge_cases (g_last g) u) as [|Hge]; [done|]. apply (Z.div_le_mono _ _ (2 ^ 80)) in Hge; [|lia].
    rewrite (Ht _ _ _ Hu) in Hge. lia. }
  assert (mint_loop ulid_New (S fuel) (MkGen (g_ms g + 1) (g_seen g) (g_last g) (S (g_calls g)))
          = (MkGen (g_ms g + 1) (g_seen g) u (S (S (g_calls g))), u)) as Hsecond.
  { cbn [mint_loop g_calls g_ms g_last]. by rewrite Hu, (proj2 (Z.ltb_lt _ _) Hlt). }
  destruct (ulid_New (g_calls g) (g_ms g)) as [u0|] eqn:Hu0; [destruct (Z.ltb_spec (g_last g) u0)|]; cbn [g_calls g_ms g_last g_seen];
    rewrite ?(proj2 (Z.ltb_lt _ _) Hlt); cbn [g_ms g_last]; (split_and!; [by auto|eapply Ht; eassumption|done]).
Qed.

(** ** Properties *)

(** Trace context round-trips.  The strings [ParseTraceID] accepts are
    exactly the lower-case renderings of the 16-byte ids that are not all zero,
    and it returns the id that was rendered; the header a version 00 caller
    sends parses back to its fields; and a fresh id is always one of them, also
    when the source fails or draws zeros. *)
Theorem trace_context_roundtrip :
  (forall s t, ParseTraceID s = Ok t <-> String.length t = 16%nat /\ IsZero t = false /\ s = EncodeToString t)
  /\ (forall tid parent flag, String.length tid = 16%nat -> String.length parent = 8%nat -> IsZero tid = false -> IsZero parent = false ->
        ParseTraceparent (traceparent_of tid parent (String flag "")) = Some (tid, parent, negb (Z.land (byte_z flag) 1 =? 0)))
  /\ (forall draws, Forall sixteen draws -> ParseTraceID (EncodeToString (NewTraceID draws)) = Ok (NewTraceID draws)).
Proof.
  split; [|split; [exact traceparent_parses|]].
  - intros s t. split; [|intros (Hl & Hz & ->); by apply parse_encode].
    unfold ParseTraceID. destruct (decodeLowerHex s 16) as [t'|] eqn:Hd; [|done]. destruct (IsZero t') eqn:Hz; [done|].
    intros [= <-]. by apply decodeLowerHex_inv in Hd as [<- Hl].
  - intros draws Hd. destruct (draw_loop_ok traceIDDraws draws (zero_id 16) eq_refl Hd). by apply parse_encode.
Qed.

Section Discharge.
(** How an id is written, and the draws behind each trace id. *)
Context (ulid_New : nat -> Z -> option Z) (render : Z -> string) (draws : nat -> list (string + string)) (clk : nat -> Z).

#[local] Instance gen_Ids : Ids :=
  {| newID n := render (nth_id ulid_New clk n); newTrace n := EncodeToString (NewTraceID (draws n)) |}.

(** The generator keeps the promise the store relies on.  Whatever the
    clock reads, backward steps included, and whatever the library returns,
    failures and repeated ids included, the ids of the first calls are all
    different, as long as the last 128-bit number has not been reached. *)
Theorem generator_never_repeats N :
  ids_left ulid_New clk N -> (forall a b, 0 <= a -> 0 <= b -> render a = render b -> a = b) ->
  forall i j, (i <= N)%nat -> (j <= N)%nat -> newID i = newID j -> i = j.
Proof.
  intros Hleft Hinj i j Hi Hj Hid. cbn [newID gen_Ids] in Hid.
  assert (forall n, (n <= N)%nat -> 0 <= nth_id ulid_New clk n) as Hpos.
  { intros n Hn. pose proof (last_nonneg ulid_New clk N n Hleft ltac:(lia)) as Hge.
    destruct (nth_id_last ulid_New clk n) as [Hlt _]; [split; [done|by apply Hleft]|]. lia. }
  apply Hinj in Hid; [|by apply Hpos|by apply Hpos].
  destruct (Nat.lt_total i j) as [Hlt|[Heq|Hlt]]; [|done|];
    [pose proof (ids_increase ulid_New clk N i j Hleft ltac:(lia))|pose proof (ids_increase ulid_New clk N j i Hleft ltac:(lia))]; lia.
Qed.
End Discharge.

(** A library that fails now and then and repeats itself, under a clock that
    steps back. *)
Definition flaky : nat -> Z -> option Z := fun k ms => if Nat.even k then None else Some (ms * 2 ^ 80).
Definition stepping : nat -> Z := fun n => nth n [7; 7; 3; 8] 0.

Lemma generator_never_repeats_witness :
  @newID (gen_Ids flaky (pretty (A := Z)) (fun _ => []) stepping) 1 = @newID (gen_Ids flaky (pretty (A := Z)) (fun _ => []) stepping) 2 -> 1%nat = 2%nat.
Proof.
  apply (generator_never_repeats flaky (pretty (A := Z)) (fun _ => []) stepping 3); [|intros a b _ _; apply (inj pretty)|lia|lia].
  intros n Hn. do 4 (destruct n as [|n]; [vm_compute; reflexivity|]). lia.
Defined.

End IdGen.
