(* ===== verification/Inv.v ===== *)
(** * The store's invariant

    What every command of the store relies on and re-establishes, over the
    tables it concerns: [MsgInv] for the messages, their sequence counters and
    the maintained statistics, [ConInv] for the consumers, [DelInv] for the
    pending set.  The clauses are the invariants the repository's
    [docs/SEMANTICS.md] and [internal/store/invariants.go] name. *)

From S2P Require Export Db GoText Subject.

(** The next sequence number of a stream. *)
Definition seq_of (s : string) (sq : list seq_row) : option Z :=
  sq_next <$> query_row (has_key sq_stream s) sq.

Section Invariant.
Context `{Ids}.

(** Every message belongs to a stream with a counter, below which its sequence
    number lies; sequence numbers are unique; identifiers come from the
    generator; the publication time never decreases along a stream; the
    statistics equal a scan and exist for every counter. *)
Record MsgInv (sq : list seq_row) (ms : list message) (st : list stats_row) (k : nat) : Prop := {
  inv_seq_key : NoDup (map sq_stream sq);
  inv_msg_key : NoDup (map mkey ms);
  inv_msg_seq : forall m, m ∈ ms -> exists n, seq_of (m_stream m) sq = Some n /\ 1 <= m_seq m < n;
  inv_next_pos : forall s n, seq_of s sq = Some n -> 1 <= n;
  inv_msg_id : forall m, m ∈ ms -> exists i, (i < k)%nat /\ m_id m = newID i;
  inv_msg_size : forall m, m ∈ ms -> m_size m = slen (m_body m);
  inv_msg_order : forall m m', m ∈ ms -> m' ∈ ms -> m_stream m = m_stream m' ->
    m_seq m < m_seq m' -> m_published_at m <= m_published_at m';
  inv_msg_dedup : forall m m' key, m ∈ ms -> m' ∈ ms -> m_stream m = m_stream m' ->
    m_dedup_key m = Some key -> m_dedup_key m' = Some key -> m = m';
  inv_stats : forall r, r ∈ st ->
    ss_msgs r = count (on_stream (ss_stream r)) ms /\
    ss_bytes r = sum_of m_size (on_stream (ss_stream r)) ms;
  inv_seq_stats : map sq_stream sq ⊆ map ss_stream st;
}.

(** Every stream has a counter, and a dedup window that is not negative. *)
Record StrInv (ss : list stream_row) (sq : list seq_row) : Prop := {
  inv_str_key : NoDup (map st_name ss);
  inv_str : forall r, r ∈ ss -> 0 <= st_dedup_window_ms r /\ is_Some (seq_of (st_name r) sq);
}.

(** A consumer's filters parse, and its cursor stays between 1 and its stream's
    counter. *)
Record ConInv (sq : list seq_row) (cs : list consumer) : Prop := {
  inv_con_key : NoDup (map ckey cs);
  inv_con : forall c, c ∈ cs -> 1 <= c_generation c /\ 1 <= c_max_ack_pending c /\
    is_ok (Subject.ParseSet (c_filters c)) = true /\
    exists n, seq_of (c_stream c) sq = Some n /\ 1 <= c_cursor_seq c <= n;
}.

(** The state of one pending row: READY, or INFLIGHT with a counted attempt. *)
Definition row_ok (r : delivery) : Prop :=
  (d_state r = 0 /\ 0 <= d_attempts r) \/
  (d_state r = 1 /\ 1 <= d_attempts r /\ d_delivered_at r <> None).

(** Every pending row belongs to a live consumer, carries that consumer's
    generation, lies behind its cursor, and refers to a stored message; no
    consumer holds more rows than its bound. *)
Record DelInv (ms : list message) (cs : list consumer) (ds : list delivery) : Prop := {
  inv_del_key : NoDup (map dkey ds);
  inv_del_row : forall r, r ∈ ds -> row_ok r;
  inv_del_con : forall r, r ∈ ds -> exists c, c ∈ cs /\ ckey c = (d_stream r, d_consumer r) /\
    d_generation r = c_generation c /\ d_seq r < c_cursor_seq c;
  inv_del_msg : forall r, r ∈ ds -> (d_stream r, d_seq r) ∈ map mkey ms;
  inv_del_bound : forall c, c ∈ cs -> count (held_by (c_stream c) (c_name c)) ds <= c_max_ack_pending c;
}.

Record Inv (d : db) (k : nat) : Prop := {
  inv_streams : StrInv (streams d) (stream_seq d);
  inv_messages : MsgInv (stream_seq d) (messages d) (stream_stats d) k;
  inv_consumers : ConInv (stream_seq d) (consumers d);
  inv_deliveries : DelInv (messages d) (consumers d) (deliveries d);
}.

Definition world_ok (w : world) : Prop := Inv (w_db w) (minted (w_mem w)).

(** The tables a delivery or settle command leaves alone. *)
Record frame (w w' : world) : Prop := {
  frm_streams : streams (w_db w') = streams (w_db w);
  frm_seq : stream_seq (w_db w') = stream_seq (w_db w);
  frm_messages : messages (w_db w') = messages (w_db w);
  frm_stats : stream_stats (w_db w') = stream_stats (w_db w);
  frm_minted : minted (w_mem w') = minted (w_mem w);
}.

#[export] Instance frame_preorder : PreOrder frame.
Proof. split; [by split|]. intros w1 w2 w3 [] []. split; congruence. Qed.

Lemma Inv_empty : Inv empty_db 0.
Proof. split; split; simpl; try constructor; set_solver. Qed.

(** Event rows and the metadata table are outside the invariant. *)
Lemma Inv_events f d k : Inv d k -> Inv (on_events f d) k.
Proof. intros [? ? ? ?]. by split. Qed.

Lemma Inv_meta f d k : Inv d k -> Inv (on_meta f d) k.
Proof. intros [? ? ? ?]. by split. Qed.

Lemma Inv_streams f d k : Inv d k -> StrInv (f (streams d)) (stream_seq d) -> Inv (on_streams f d) k.
Proof. intros [? ? ? ?] ?. by split. Qed.

(** Replacing the consumers, and the pending set, under the other tables. *)
Lemma Inv_consumers f d k :
  Inv d k -> ConInv (stream_seq d) (f (consumers d)) -> DelInv (messages d) (f (consumers d)) (deliveries d) ->
  Inv (on_consumers f d) k.
Proof. intros [? ? ? ?] ? ?. by split. Qed.

Lemma Inv_deliveries f d k :
  Inv d k -> DelInv (messages d) (consumers d) (f (deliveries d)) -> Inv (on_deliveries f d) k.
Proof. intros [? ? ? ?] ?. by split. Qed.

Lemma MsgInv_mono sq ms st k k' : (k <= k')%nat -> MsgInv sq ms st k -> MsgInv sq ms st k'.
Proof.
  intros Hk [? ? ? ? Iid ? ? ? ? ?]. split; try done. intros m Hm. destruct (Iid m Hm) as (i & ? & ?).
  exists i. split; [lia|done].
Qed.

Lemma Inv_mono d k k' : (k <= k')%nat -> Inv d k -> Inv d k'.
Proof. intros Hk [? ? ? ?]. split; try done. by eapply MsgInv_mono. Qed.

Lemma frame_ok w w' :
  world_ok w -> frame w w' -> ConInv (stream_seq (w_db w)) (consumers (w_db w')) ->
  DelInv (messages (w_db w)) (consumers (w_db w')) (deliveries (w_db w')) -> world_ok w'.
Proof.
  intros [IS IM _ _] [Es Eq Em Est Emt] HC HD. unfold world_ok.
  split; rewrite ?Es, ?Eq, ?Em, ?Est, ?Emt; done.
Qed.

(** ** Deliveries *)

Lemma held_by_true s c r : held_by s c r = true <-> d_stream r = s /\ d_consumer r = c.
Proof. unfold held_by. rewrite bool_decide_eq_true. naive_solver. Qed.

(** The rows of one consumer have distinct sequence numbers. *)
Lemma held_seqs_nodup s c t :
  NoDup (map dkey t) -> (forall r, r ∈ t -> held_by s c r = true) -> NoDup (map d_seq t).
Proof.
  intros Hnd Hheld. apply (NoDup_fmap_1 (fun q => (s, c, q))).
  assert (Heq : (fun q => (s, c, q)) <$> map d_seq t = map dkey t); [|by rewrite Heq].
  etrans; [apply (map_map d_seq (fun q => (s, c, q)))|]. apply map_ext_in.
  intros r Hr%list_elem_of_In%Hheld%held_by_true. unfold dkey. by destruct Hr as [-> ->].
Qed.

Lemma DelInv_consumer ms cs ds r c :
  NoDup (map ckey cs) -> DelInv ms cs ds -> r ∈ ds -> c ∈ cs ->
  ckey c = (d_stream r, d_consumer r) -> d_generation r = c_generation c /\ d_seq r < c_cursor_seq c.
Proof.
  intros Hkey HD Hr Hc Hk. destruct (inv_del_con _ _ _ HD r Hr) as (c' & Hc' & Hk' & Hg & Hs).
  assert (c = c') as -> by (eapply (key_unique ckey); eauto; congruence). done.
Qed.

(** Deleting rows keeps the pending set in order. *)
Lemma DelInv_delete ms cs ds p : DelInv ms cs ds -> DelInv ms cs (delete_where p ds).
Proof.
  intros []. split.
  - by apply key_delete.
  - intros r [_ Hr]%elem_of_delete. auto.
  - intros r [_ Hr]%elem_of_delete. auto.
  - intros r [_ Hr]%elem_of_delete. auto.
  - intros c Hc. etrans; [apply count_delete_le|auto].
Qed.

(** Rewriting consumers: each rewritten row meets the clause again. *)
Lemma ConInv_update sq cs p f :
  (forall c, ckey (f c) = ckey c) ->
  (forall c, c ∈ cs -> p c = true -> 1 <= c_generation (f c) /\ 1 <= c_max_ack_pending (f c) /\
     is_ok (Subject.ParseSet (c_filters (f c))) = true /\
     exists n, seq_of (c_stream c) sq = Some n /\ 1 <= c_cursor_seq (f c) <= n) ->
  ConInv sq cs -> ConInv sq (update_where p f cs).
Proof.
  intros Hkey Hf [Ik Ic]. split; [by rewrite (key_update ckey)|].
  intros c (c0 & Hc0 & ->)%elem_of_update. destruct (p c0) eqn:Hp; [|auto].
  specialize (Hf c0 Hc0 Hp). assert (c_stream (f c0) = c_stream c0) as -> by (by injection (Hkey c0)). done.
Qed.

Lemma ConInv_delete sq cs p : ConInv sq cs -> ConInv sq (delete_where p cs).
Proof. intros [Ik Ic]. split; [by apply key_delete|]. intros c [_ Hc]%elem_of_delete. auto. Qed.

(** A consumer whose key is new holds nothing. *)
Lemma new_consumer_holds_nothing ms cs ds s n :
  DelInv ms cs ds -> (s, n) ∉ map ckey cs -> count (held_by s n) ds = 0.
Proof.
  intros HD Hnew. apply count_0. intros r Hr. apply not_true_is_false. intros [Hs Hn]%held_by_true.
  destruct (inv_del_con _ _ _ HD r Hr) as (c & Hc & Hk & _). apply Hnew. rewrite <-Hs, <-Hn, <-Hk. by apply in_mapped.
Qed.

Lemma DelInv_add_consumer ms cs ds c :
  DelInv ms cs ds -> ckey c ∉ map ckey cs -> 0 <= c_max_ack_pending c -> DelInv ms (cs ++ [c]) ds.
Proof.
  intros HD Hnew Hmax. pose proof (new_consumer_holds_nothing _ _ _ _ _ HD Hnew) as Hzero. destruct HD as [? ? Icon ? Ib].
  split; try done.
  - intros r Hr. destruct (Icon r Hr) as (c' & Hc' & ?). exists c'. rewrite elem_of_app. auto.
  - intros c' [Hc'| ->]%elem_of_snoc; [auto|]. lia.
Qed.

(** Dropping the rows of one consumer frees its row: the cursor and generation may move. *)
Lemma DelInv_reset ms cs ds s n f :
  (forall c, ckey (f c) = ckey c) -> (forall c, c_max_ack_pending (f c) = c_max_ack_pending c) ->
  DelInv ms cs ds -> DelInv ms (update_where (has_key ckey (s, n)) f cs) (delete_where (held_by s n) ds).
Proof.
  intros Hkey Hmax HD. apply (DelInv_delete _ _ _ (held_by s n)) in HD as HD'. destruct HD' as [? ? Icon ? Ib]. split; try done.
  - intros r Hr. destruct (Icon r Hr) as (c & Hc & Hk & ?). exists c. split; [|done].
    apply elem_of_update. exists c. split; [done|]. apply elem_of_delete in Hr as [Hno _].
    assert (has_key ckey (s, n) c = false) as ->; [|done]. apply bool_decide_eq_false. intros Hck.
    apply not_true_iff_false in Hno. apply Hno, held_by_true. rewrite Hk in Hck. by injection Hck.
  - intros c (c0 & Hc0 & ->)%elem_of_update. specialize (Ib c0 Hc0). destruct (has_key ckey (s, n) c0); [|done].
    specialize (Hkey c0). injection Hkey as Hs Hn. by rewrite Hs, Hn, Hmax.
Qed.

(** Settings of a consumer the pending set does not depend on. *)
Lemma DelInv_settings ms cs ds p f :
  (forall c, ckey (f c) = ckey c /\ c_generation (f c) = c_generation c /\ c_cursor_seq (f c) = c_cursor_seq c /\
     c_max_ack_pending (f c) = c_max_ack_pending c) ->
  DelInv ms cs ds -> DelInv ms (update_where p f cs) ds.
Proof.
  intros Hf [? ? Icon ? Ib]. split; try done.
  - intros r Hr. destruct (Icon r Hr) as (c & Hc & Hk & Hg & Hs). exists (if p c then f c else c).
    split; [apply elem_of_update; by exists c|]. destruct (p c); [|done]. destruct (Hf c) as (-> & -> & -> & _). done.
  - intros c (c0 & Hc0 & ->)%elem_of_update. specialize (Ib c0 Hc0). destruct (p c0); [|done].
    destruct (Hf c0) as (Hk & _ & _ & ->). injection Hk as -> ->. done.
Qed.

(** So does rewriting the state of rows while keeping their identity. *)
Lemma DelInv_update ms cs ds p f :
  (forall r, dkey (f r) = dkey r) -> (forall r, d_generation (f r) = d_generation r) ->
  (forall r, p r = true -> row_ok r -> row_ok (f r)) ->
  DelInv ms cs ds -> DelInv ms cs (update_where p f ds).
Proof.
  intros Hkey Hgen Hrow [].
  assert (Hall : forall r, r ∈ update_where p f ds -> exists r0, r0 ∈ ds /\ dkey r = dkey r0 /\
            d_generation r = d_generation r0 /\ (row_ok r0 -> row_ok r)).
  { intros r (r0 & Hr0 & ->)%elem_of_update. exists r0. destruct (p r0) eqn:Hp; naive_solver. }
  split.
  - by rewrite (key_update dkey).
  - intros r (r0 & Hr0 & _ & _ & Hok)%Hall. auto.
  - intros r (r0 & Hr0 & Hk & Hg & _)%Hall. injection Hk as -> -> ->. rewrite Hg. auto.
  - intros r (r0 & Hr0 & Hk & _)%Hall. injection Hk as -> _ ->. auto.
  - intros c Hc. rewrite count_update; [auto|]. intros r Hr Hp. specialize (Hkey r).
    injection Hkey as Hs Hn _. unfold held_by. by rewrite Hs, Hn.
Qed.

(** Deleting messages of one stream and taking them off its statistics. *)
Lemma MsgInv_delete stream p f sq ms st k :
  (forall m, m ∈ ms -> p m = true -> m_stream m = stream) ->
  (forall r, ss_stream (f r) = ss_stream r /\ ss_msgs (f r) = ss_msgs r - count p ms /\
     ss_bytes (f r) = ss_bytes r - sum_of m_size p ms) ->
  MsgInv sq ms st k -> MsgInv sq (delete_where p ms) (update_where (has_key ss_stream stream) f st) k.
Proof.
  intros Hp Hf [Isk Imk Ims Inp Iid Isz Iord Idd Ist Iss].
  assert (Hin : forall m, m ∈ delete_where p ms -> m ∈ ms) by (intros m Hm; apply elem_of_delete in Hm; tauto).
  split; try done.
  - by apply key_delete.
  - intros m Hm. auto.
  - intros m Hm. auto.
  - intros m Hm. auto.
  - intros m m' Hm Hm'. auto.
  - intros m m' key Hm Hm'. exact (Idd m m' key (Hin m Hm) (Hin m' Hm')).
  - intros r (r0 & Hr0 & ->)%elem_of_update. destruct (Ist r0 Hr0) as [Hn Hb].
    assert (Hsplit : forall q : message -> bool, (forall m, m ∈ ms -> p m && on_stream (ss_stream r0) m = q m) ->
              count (on_stream (ss_stream r0)) (delete_where p ms) = ss_msgs r0 - count q ms /\
              sum_of m_size (on_stream (ss_stream r0)) (delete_where p ms) = ss_bytes r0 - sum_of m_size q ms).
    { intros q Hq. rewrite count_delete, sum_of_delete, (count_ext (fun m => p m && on_stream (ss_stream r0) m) q) by done.
      rewrite (sum_of_ext _ (fun m => p m && on_stream (ss_stream r0) m) q) by done. lia. }
    destruct (has_key ss_stream stream r0) eqn:Hk; simpl.
    + destruct (Hf r0) as (-> & -> & ->). apply has_key_true in Hk. destruct (Hsplit p) as [-> ->]; [|done]. intros m Hm. destruct (p m) eqn:Hpm; [|done].
      unfold on_stream. rewrite bool_decide_true; [done|]. rewrite (Hp m Hm Hpm). done.
    + apply bool_decide_eq_false in Hk. destruct (Hsplit (fun _ => false)) as [-> ->].
      * intros m Hm. destruct (p m) eqn:Hpm; [|done]. unfold on_stream. rewrite bool_decide_false; [done|].
        rewrite (Hp m Hm Hpm). congruence.
      * rewrite (proj2 (count_0 _ _)) by done. rewrite sum_of_0 by done. lia.
  - rewrite (key_update ss_stream) by (intros r; apply Hf). auto.
Qed.

(** Messages may be added under the pending set. *)
Lemma DelInv_messages ms ms' cs ds :
  map mkey ms ⊆ map mkey ms' -> DelInv ms cs ds -> DelInv ms' cs ds.
Proof. intros Hsub []. split; auto. Qed.

(** ** Counters that grow *)

Lemma seq_of_snoc s sq name k :
  seq_of s (sq ++ [SeqRow name k]) =
  match seq_of s sq with
  | Some n => Some n
  | None => if bool_decide (name = s) then Some k else None
  end.
Proof.
  unfold seq_of, query_row. induction sq as [|r sq IH]; simpl.
  - unfold has_key. simpl. by case_bool_decide.
  - by destruct (has_key sq_stream s r).
Qed.

Lemma seq_of_None s sq : existsb (has_key sq_stream s) sq = false -> seq_of s sq = None.
Proof.
  intros Hno. unfold seq_of, query_row. induction sq as [|r sq IH]; [done|]. simpl in *.
  apply orb_false_iff in Hno as [-> Hno]. auto.
Qed.

Lemma seq_of_Some s sq : existsb (has_key sq_stream s) sq = true -> is_Some (seq_of s sq).
Proof.
  unfold seq_of, query_row. induction sq as [|r sq IH]; [done|]. simpl.
  destruct (has_key sq_stream s r); simpl; [by eexists|auto].
Qed.

Lemma seq_of_elem s sq n : seq_of s sq = Some n -> s ∈ map sq_stream sq.
Proof.
  intros (r & Hq & _)%fmap_Some. apply query_row_Some in Hq as [<-%has_key_true Hin]. by apply in_mapped.
Qed.

(** Seeding the counter and the statistics of a stream that has neither. *)
Lemma MsgInv_seed sq ms st k name next :
  MsgInv sq ms st k -> seq_of name sq = None -> 1 <= next ->
  MsgInv (sq ++ [SeqRow name next]) ms
    (if existsb (has_key ss_stream name) st then st else st ++ [StatsRow name 0 0 0 0]) k.
Proof.
  intros [Isk Imk Ims Inp Iid Isz Iord Idd Ist Iss] Hnone Hnext.
  assert (Hempty : forall m, m ∈ ms -> m_stream m <> name).
  { intros m Hm <-. destruct (Ims m Hm) as (n & Hn & _). congruence. }
  split; try done.
  - apply (key_snoc sq_stream); [|done]. simpl. intros (r & -> & Hr)%mapped_in.
    destruct (seq_of_Some (sq_stream r) sq) as [n Hn]; [|congruence].
    apply existsb_exists. exists r. rewrite <-list_elem_of_In. split; [done|]. by apply has_key_true.
  - intros m Hm. destruct (Ims m Hm) as (n & Hn & Hb). exists n. by rewrite seq_of_snoc, Hn.
  - intros s n. rewrite seq_of_snoc. destruct (seq_of s sq) eqn:Hs; [intros [= <-]; by eapply Inp|].
    case_bool_decide; [intros [= <-]; lia|done].
  - intros r Hr. case_match; [by apply Ist|]. apply elem_of_snoc in Hr as [Hr| ->]; [by apply Ist|].
    simpl. split; symmetry.
    + apply count_0. intros m Hm. by apply bool_decide_eq_false, Hempty.
    + apply sum_of_0. intros m Hm. by apply bool_decide_eq_false, Hempty.
  - rewrite map_app. intros s [Hs|Hs]%elem_of_app.
    + apply Iss in Hs. case_match; [done|]. rewrite map_app. set_solver.
    + simpl in Hs. apply list_elem_of_singleton in Hs as ->. case_match eqn:Hex.
      * apply existsb_exists in Hex as (r & Hr%list_elem_of_In & <-%has_key_true). by apply in_mapped.
      * rewrite map_app. set_solver.
Qed.

Lemma ConInv_grow sq sq' cs :
  (forall s n, seq_of s sq = Some n -> exists n', seq_of s sq' = Some n' /\ n <= n') ->
  ConInv sq cs -> ConInv sq' cs.
Proof.
  intros Hgrow [Ick Icon]. split; [done|]. intros c Hc. destruct (Icon c Hc) as (? & ? & ? & n & Hn & Hcur).
  destruct (Hgrow _ _ Hn) as (n' & ? & ?). eauto 10 with lia.
Qed.

Lemma StrInv_add ss sq r :
  StrInv ss sq -> st_name r ∉ map st_name ss -> 0 <= st_dedup_window_ms r ->
  is_Some (seq_of (st_name r) sq) -> StrInv (ss ++ [r]) sq.
Proof.
  intros [Isk Iss] Hnew Hw Hs. split; [by apply (key_snoc st_name)|].
  intros r' [Hr'| ->]%elem_of_snoc; auto.
Qed.

Lemma StrInv_grow ss sq sq' :
  (forall s n, seq_of s sq = Some n -> exists n', seq_of s sq' = Some n' /\ n <= n') ->
  StrInv ss sq -> StrInv ss sq'.
Proof.
  intros Hgrow [Isk Iss]. split; [done|]. intros r Hr. destruct (Iss r Hr) as [? [n Hn]].
  split; [done|]. destruct (Hgrow _ _ Hn) as (n' & ? & _). by eexists.
Qed.

End Invariant.
