(* ===== verification/Samples.v ===== *)
(** * Sample worlds

    Concrete identifier sources and databases on which the theorems of the
    store components are exercised. *)

From S2P Require Export Inv.

Module Samples.

(** An identifier source that never repeats: the n-th identifier has n ticks. *)
Fixpoint ticks (n : nat) : string :=
  match n with
  | O => EmptyString
  | S n => String "x"%char (ticks n)
  end.

Lemma ticks_length n : String.length (ticks n) = n.
Proof. induction n; simpl; congruence. Qed.

#[global] Instance sample_ids : Ids := {| newID n := "id-" +:+ ticks n; newTrace n := "trace-" +:+ ticks n |}.

#[global] Instance sample_fresh : FreshIds.
Proof. intros i j Hij. simpl in Hij. injection Hij as Hij. rewrite <-(ticks_length i), <-(ticks_length j). by rewrite Hij. Qed.

(** A computed run that succeeds. *)
Lemma ran {A} (r : world * result A) : is_ok r.2 = true -> exists w a, r = (w, Ok a).
Proof. destruct r as [w [a|e]]; [eauto|done]. Qed.

Definition orders : stream_row :=
  StreamRow "orders" [">"] "limits" 0 0 604800000 1048576 "old" 120000 0.

Definition billing : consumer :=
  Consumer "orders" "billing" [">"] 30000 5 1000 [1000; 5000] "dlq" 1 1 false 0.

Definition mailing : consumer :=
  Consumer "orders" "mailing" [">"] 30000 5 1000 [1000; 5000] "dlq" 1 1 false 0.

(** One stream with two consumers and no message yet. *)
Definition base_db : db :=
  Db [orders] [SeqRow "orders" 1] [] [billing; mailing] [] [] [StatsRow "orders" 0 0 0 0] [].

Definition base : world := World base_db empty_mem.

Lemma base_ok : world_ok base.
Proof.
  split; simpl.
  - split; [apply NoDup_singleton|]. intros r Hr. apply list_elem_of_singleton in Hr as ->.
    split; [done|]. by eexists.
  - split; simpl; try apply NoDup_singleton; try apply NoDup_nil_2; try (intros; set_solver).
    + intros s n. unfold seq_of, query_row. simpl. case_match; [|done]. by intros [= <-].
  - split; [apply (bool_decide_unpack (NoDup _)); by vm_compute|]. intros c Hc.
    assert (c = billing \/ c = mailing) as [-> | ->] by set_solver.
    all: split; [done|]; split; [done|]; split; [by vm_compute|]; by exists 1.
  - split; simpl; try (intros; set_solver); try constructor.
    intros c Hc. assert (c = billing \/ c = mailing) as [-> | ->] by set_solver; done.
Qed.

End Samples.
