(* ===== verification/Publish.v ===== *)
(** * Publishing

    Module [PublishReq] models [internal/queue/publish.go]: the checks a publish
    passes before it touches the database.  Module [Publish] models
    [internal/store/publish.go] and the publish, batch and dedup-expiry commands
    of [internal/store/commands.go].

    A Go map of headers is the list of its entries in some iteration order; the
    JSON text of the [hdr] column is represented by the entries it encodes, in
    the key order [encoding/json] writes. *)

From S2P Require Export Inv Samples Subject Policy.

(** ** internal/queue/publish.go *)

Module PublishReq.
Import Subject Policy.

Record PublishReq : Set := MkPublishReq {
  pr_Subject : string;
  pr_Headers : list (string * string);
  pr_Body : string;
  pr_MsgID : string;
  pr_TraceID : string;
}.

Definition maxMsgIDBytes : Z := 256.

(** *** net/textproto *)

(** A token character of RFC 7230. *)
Definition validHeaderFieldByte (c : ascii) : bool :=
  let b := byte_z c in
  ((48 <=? b) && (b <=? 57)) || ((65 <=? b) && (b <=? 90)) || ((97 <=? b) && (b <=? 122))
  || existsb (fun x => b =? x) [33; 35; 36; 37; 38; 39; 42; 43; 45; 46; 94; 95; 96; 124; 126].

(** Upper-case the first letter and any letter after a hyphen, lower-case the others. *)
Fixpoint canonical_bytes (upper : bool) (s : string) : string :=
  match s with
  | EmptyString => EmptyString
  | String c s' =>
      let b := byte_z c in
      let b' := if upper && (97 <=? b) && (b <=? 122) then b - 32
                else if negb upper && (65 <=? b) && (b <=? 90) then b + 32 else b in
      String (ascii_of_nat (Z.to_nat b')) (canonical_bytes (b' =? 45) s')
  end.

Definition CanonicalMIMEHeaderKey (s : string) : string :=
  if all_bytes validHeaderFieldByte s then canonical_bytes true s else s.

(** *** encoding/json *)

(** The bytes a JSON string literal takes, escapes for HTML included. *)
Definition rune_cost (r : Z) (w : nat) : Z :=
  if (r =? RuneError) && (w =? 1)%nat then 6
  else if existsb (fun x => r =? x) [34; 92; 8; 9; 10; 12; 13] then 2
  else if (r <? 32) || existsb (fun x => r =? x) [38; 60; 62; 8232; 8233] then 6
  else Z.of_nat w.

Fixpoint json_body_len (skip : nat) (s : string) : Z :=
  match s with
  | EmptyString => 0
  | String _ s' =>
      match skip with
      | S k => json_body_len k s'
      | O => let '(r, w) := decode_rune s in rune_cost r w + json_body_len (Nat.pred w) s'
      end
  end.

Definition json_string_len (s : string) : Z := 2 + json_body_len 0 s.

(** The length of [json.Marshal] of a [map[string]string]. *)
Definition json_object_len (h : list (string * string)) : Z :=
  2 + Z.of_nat (Nat.pred (length h))
  + sumZ (map (fun kv => json_string_len kv.1 + 1 + json_string_len kv.2) h).

Definition by_key (a b : string * string) : bool := String.leb a.1 b.1.

(** *** The checks *)

Definition has_header (ck : string) (h : list (string * string)) : bool :=
  existsb (fun kv => bool_decide (kv.1 = ck)) h.

Fixpoint encode_loop (canonical h : list (string * string)) : result (list (string * string)) :=
  match h with
  | [] => Ok canonical
  | (k, v) :: h' =>
      if negb (ValidString v) then Err (E ErrBadRequest "header holds invalid UTF-8")
      else if 1024 <? slen v then Err (E ErrTooLarge "header")
      else
        let ck := CanonicalMIMEHeaderKey k in
        if has_header ck canonical then Err (E ErrBadRequest "headers differ only in case")
        else if has_prefix "Messq-" ck then Err (E ErrBadRequest "ReservedHeaderError")
        else encode_loop (canonical ++ [(ck, v)]) h'
  end.

(** [None] is the empty text, which storage persists as SQL NULL. *)
Definition EncodeHeaders (h : list (string * string)) (l : Limits)
  : result (option (list (string * string))) :=
  match h with
  | [] => Ok None
  | _ =>
      if MaxHeaders l <? Z.of_nat (length h) then Err (E ErrBadRequest "headers")
      else
        let? canonical := encode_loop [] h in
        let sorted := order_by by_key canonical in
        if MaxHeaderBytes l <? json_object_len sorted then Err (E ErrTooLarge "headers")
        else Ok (Some sorted)
  end.

Definition printable (c : ascii) : bool := negb ((byte_z c <=? 32) || (byte_z c =? 127)).

Definition ValidateMsgID (msgID : string) : result unit :=
  if bool_decide (msgID = "") then Ok tt
  else if maxMsgIDBytes <? slen msgID then Err (E ErrBadRequest "msg_id length")
  else if all_bytes printable msgID then Ok tt
  else Err (E ErrBadRequest "msg_id character").

Definition ValidateTraceIDToken (traceID : string) : result unit :=
  if bool_decide (traceID = "") then Ok tt
  else if slen traceID <? 8 then Err (E ErrBadRequest "trace_id short")
  else if 128 <? slen traceID then Err (E ErrBadRequest "trace_id long")
  else if negb (all_bytes printable traceID) then Err (E ErrBadRequest "trace_id character")
  else if bool_decide (traceID = "00000000000000000000000000000000")
       then Err (E ErrBadRequest "trace_id zero")
  else Ok tt.

Definition ValidatePublish (sc : StreamConfig) (r : PublishReq) (l : Limits) : result unit :=
  let? subj := ParseSubject (pr_Subject r) in
  let? set := ParseSet (sc_Subjects sc) in
  if negb (SetMatch set subj) then Err (E ErrBadSubject "MismatchError")
  else if sc_MaxMsgSize sc <? slen (pr_Body r) then Err (E ErrTooLarge "body")
  else
    let? _ := EncodeHeaders (pr_Headers r) l in
    let? _ := ValidateMsgID (pr_MsgID r) in
    ValidateTraceIDToken (pr_TraceID r).

End PublishReq.

(** ** internal/store/publish.go *)

Module Publish.
Import Subject Policy.
Export PublishReq.

Record Ack : Set := MkAck {
  ack_Stream : string;
  ack_Seq : Z;
  ack_ID : string;
  ack_TraceID : string;
  ack_Duplicate : bool;
  ack_PublishedAt : Z;
}.

Record publishOpts : Set := MkPublishOpts {
  IDOverride : string;
  OptEvent : string;
  BypassLimits : bool;
  SuppressEvent : bool;
}.

Definition no_opts : publishOpts := MkPublishOpts "" "" false false.

Record loadedConfig : Set := MkLoadedConfig { lc_cfg : StreamConfig; lc_window : Z }.

Definition not_exist : error := E ErrNotFound "stream does not exist".

(** The columns a publish does not read keep their zero value. *)
Definition config_of (name : string) (row : stream_row) : loadedConfig :=
  MkLoadedConfig (MkStreamConfig name (st_subjects row) "" 0 0 0 (st_max_msg_size row) "" 0)
    (st_dedup_window_ms row).

Definition loadStreamConfig (name : string) : tx loadedConfig :=
  row ← query_or not_exist (find_stream name);
  mret (config_of name row).

Definition findDedupHit (stream key : string) : tx (option message) :=
  query (fun d => query_row (fun m => on_stream stream m && bool_decide (m_dedup_key m = Some key))
                    (messages d)).

Definition bump_seq (r : seq_row) : seq_row := SeqRow (sq_stream r) (sq_next r + 1).

Definition allocSeq (stream : string) : tx Z :=
  _ ← exec (on_stream_seq (update_where (has_key sq_stream stream) bump_seq));
  next ← query_or not_exist (find_seq stream);
  mret (next - 1).

(** The stream's last publication time; NULL on an empty stream. *)
Definition last_published (stream : string) (d : db) : option Z :=
  max_of m_published_at (where_ (on_stream stream) (messages d)).

(** [INSERT INTO messages]: a duplicate key or identifier is a constraint
    violation; a dedup conflict does nothing.  Returns the rows affected. *)
Definition insert_message (m : message) : tx Z :=
  d ← query id;
  if existsb (has_key mkey (mkey m)) (messages d) || existsb (has_key m_id (m_id m)) (messages d)
  then fail (Plain "UNIQUE constraint failed")
  else if match m_dedup_key m with
          | Some key => existsb (fun m' => on_stream (m_stream m) m' && bool_decide (m_dedup_key m' = Some key))
                          (messages d)
          | None => false
          end
  then mret 0
  else _ ← exec (on_messages (fun t => t ++ [m])); mret 1.

Definition add_stats (msgs bytes : Z) (r : stats_row) : stats_row :=
  StatsRow (ss_stream r) (ss_msgs r + msgs) (ss_bytes r + bytes) (ss_expired_seq r) (ss_expired_at r).

Definition bump_stats (stream : string) (msgs bytes : Z) : tx unit :=
  exec (on_stream_stats (update_where (has_key ss_stream stream) (add_stats msgs bytes))).

Definition skewPtr (skew : Z) (last : option Z) : list (string * dval) :=
  match last with
  | Some _ => if skew <? 0 then [("skew_ms", DInt skew)] else []
  | None => []
  end.

Definition dup_event (now : Z) (stream subj : string) (orig : message) : event :=
  Event now "msg.dup" (nullStr stream) None (nullStr subj) (nullStr (m_id orig))
    (nullI64 (m_seq orig)) None (nullStr (m_trace_id orig)) None
    [("original_seq", DInt (m_seq orig));
     ("subject_differs", DBool (negb (bool_decide (m_subject orig = subj))))].

Definition dup_ack (stream : string) (orig : message) : Ack :=
  MkAck stream (m_seq orig) (m_id orig) (m_trace_id orig) true (m_published_at orig).

Section Publishing.
Context `{Ids} (limits : Limits).

(** [queue.ResolveTraceID] as the publish path calls it: no traceparent. *)
Definition ResolveTraceID (explicit : string) : tx string :=
  if bool_decide (explicit = "") then draw_trace else mret explicit.

(** The insert half of publishTxWithConfig, after the dedup pre-check. *)
Definition publish_new (now : Z) (lc : loadedConfig) (r : PublishReq) (o : publishOpts)
  : tx (Ack * option event) :=
  let stream := sc_Name (lc_cfg lc) in
  let dedupKey := if lc_window lc =? 0 then None else nullStr (pr_MsgID r) in
  let eventName := if bool_decide (OptEvent o = "") then "msg.publish" else OptEvent o in
  seq ← allocSeq stream;
  fresh ← mint;
  let msgID := if bool_decide (IDOverride o = "") then fresh else IDOverride o in
  traceID ← ResolveTraceID (pr_TraceID r);
  hdr ← lift (EncodeHeaders (pr_Headers r) limits);
  last ← query (last_published stream);
  let skew := now - default 0 last in
  let publishedAt := match last with
                     | Some l => if now <? l then l else now
                     | None => now
                     end in
  affected ← insert_message
    (Message stream seq msgID (pr_Subject r) hdr (pr_Body r) (slen (pr_Body r)) publishedAt traceID dedupKey);
  if affected =? 0 then fail (Plain "dedup pre-check missed an existing key")
  else
    _ ← bump_stats stream 1 (slen (pr_Body r));
    let ack := MkAck stream seq msgID traceID false publishedAt in
    if SuppressEvent o then mret (ack, None)
    else
      ev ← commitEvent (Event now eventName (nullStr stream) None (nullStr (pr_Subject r))
             (nullStr msgID) (nullI64 seq) None (nullStr traceID) None
             ([("size", DInt (slen (pr_Body r))); ("headers", DInt (Z.of_nat (length (pr_Headers r))));
               ("dedup", DBool (negb (bool_decide (pr_MsgID r = ""))))] ++ skewPtr skew last));
      mret (ack, Some ev).

Definition publishTxWithConfig (now : Z) (lc : loadedConfig) (r : PublishReq) (o : publishOpts)
  : tx (Ack * option event) :=
  let stream := sc_Name (lc_cfg lc) in
  _ ← (if BypassLimits o then mret tt else lift (ValidatePublish (lc_cfg lc) r limits));
  hit ← (if negb (BypassLimits o) && negb (bool_decide (pr_MsgID r = "")) && (0 <? lc_window lc)
         then findDedupHit stream (pr_MsgID r) else mret None);
  match hit with
  | Some orig =>
      ev ← commitEvent (dup_event now stream (pr_Subject r) orig);
      mret (dup_ack stream orig, Some ev)
  | None => publish_new now lc r o
  end.

Definition publishTx (now : Z) (stream : string) (r : PublishReq) (o : publishOpts)
  : tx (Ack * option event) :=
  lc ← loadStreamConfig stream;
  publishTxWithConfig now lc r o.

(** [publishWriteCmd.Apply]. *)
Definition publishWriteCmd (stream : string) (r : PublishReq) (now : Z) : tx (Ack * list event) :=
  marking (
    '(ack, ev) ← publishTx (UnixMilli now) stream r no_opts;
    mret (ack, option_list ev)).

(** [batchPublishCmd.Apply]: one configuration lookup, then every entry in order. *)
Definition batchPublishCmd (stream : string) (reqs : list PublishReq) (now : Z)
  : tx (list Ack * list event) :=
  marking (
    lc ← loadStreamConfig stream;
    for_each reqs ([], []) (fun req '(acks, evs) =>
      '(a, ev) ← publishTxWithConfig (UnixMilli now) lc req no_opts;
      mret (acks ++ [a], evs ++ option_list ev))).

(** [sweepDedupCmd.Apply]: NULL at most [sweepBound] expired keys, oldest first. *)
Definition sweepBound : Z := 10000.

Definition older (a b : message) : bool := m_published_at a <=? m_published_at b.

Definition clear_key (m : message) : message :=
  Message (m_stream m) (m_seq m) (m_id m) (m_subject m) (m_hdr m) (m_body m) (m_size m)
    (m_published_at m) (m_trace_id m) None.

Definition sweepDedupCmd (name : string) (now : Z) : tx Z :=
  row ← query_or (CmdErr not_exist) (find_stream name);
  d ← query id;
  let expired := limit sweepBound (order_by older
    (where_ (fun m => on_stream name m && (m_published_at m <? UnixMilli now - st_dedup_window_ms row)
                      && negb (bool_decide (m_dedup_key m = None))) (messages d))) in
  let picked := fun m => existsb (fun m' => bool_decide (mkey m = mkey m')) expired in
  _ ← exec (on_messages (update_where picked clear_key));
  mret (count picked (messages d)).

End Publishing.

(** ** Facts *)

Section Facts.
Context `{Ids} `{!FreshIds} (limits : Limits).

Lemma seq_of_bump s s' sq :
  seq_of s' (update_where (has_key sq_stream s) bump_seq sq) =
  (if bool_decide (s' = s) then Z.succ else id) <$> seq_of s' sq.
Proof.
  unfold seq_of. rewrite (query_row_update sq_stream) by done.
  destruct (query_row (has_key sq_stream s') sq) as [r|] eqn:Hq; [|by case_bool_decide].
  apply query_row_Some in Hq as [<-%has_key_true _]. simpl. unfold has_key.
  by case_bool_decide; simpl.
Qed.

(** Appending a message under the stream's next sequence number. *)
Lemma MsgInv_append sq ms st k m :
  MsgInv sq ms st k ->
  seq_of (m_stream m) sq = Some (m_seq m) -> m_id m = newID k -> m_size m = slen (m_body m) ->
  (forall m', m' ∈ ms -> m_stream m' = m_stream m -> m_published_at m' <= m_published_at m) ->
  (forall key m', m_dedup_key m = Some key -> m' ∈ ms -> m_stream m' = m_stream m ->
     m_dedup_key m' <> Some key) ->
  MsgInv (update_where (has_key sq_stream (m_stream m)) bump_seq sq) (ms ++ [m])
    (update_where (has_key ss_stream (m_stream m)) (add_stats 1 (m_size m)) st) (S k).
Proof.
  intros [Isk Imk Ims Inp Iid Isz Iord Idd Ist Iss] Hn Hid Hsize Hpub Hdd.
  assert (Hlt : forall m', m' ∈ ms -> m_stream m' = m_stream m -> m_seq m' < m_seq m).
  { intros m' Hm' Hs. destruct (Ims m' Hm') as (n & Hn' & Hb). rewrite Hs, Hn in Hn'.
    injection Hn' as <-. lia. }
  split.
  - by rewrite (key_update sq_stream).
  - apply (key_snoc mkey); [|done]. intros (m' & Hk & Hm')%list_elem_of_In%in_map_iff.
    apply list_elem_of_In in Hm'. injection Hk as Hs Hq. specialize (Hlt m' Hm' Hs). lia.
  - intros m' [Hm'| ->]%elem_of_snoc.
    + destruct (Ims m' Hm') as (n & Hn' & Hb). rewrite seq_of_bump, Hn'. eexists. split; [done|].
      case_bool_decide; simpl; lia.
    + rewrite seq_of_bump, Hn, bool_decide_true by done. eexists. split; [done|]. simpl.
      specialize (Inp _ _ Hn). lia.
  - intros s n. rewrite seq_of_bump. intros (n' & Hn' & ->)%fmap_Some.
    specialize (Inp _ _ Hn'). case_bool_decide; simpl; lia.
  - intros m' [Hm'| ->]%elem_of_snoc.
    + destruct (Iid m' Hm') as (j & ? & ?). exists j. split; [lia|done].
    + exists k. split; [lia|done].
  - intros m' [Hm'| ->]%elem_of_snoc; auto.
  - intros m1 m2 [H1| ->]%elem_of_snoc
      [H2| ->]%elem_of_snoc Hs Hq; auto; try lia.
    specialize (Hlt m2 H2 (eq_sym Hs)). lia.
  - intros m1 m2 key [H1| ->]%elem_of_snoc
      [H2| ->]%elem_of_snoc Hs Hk1 Hk2; eauto.
    + destruct (Hdd key m1 Hk2 H1 Hs Hk1).
    + destruct (Hdd key m2 Hk1 H2 (eq_sym Hs) Hk2).
  - intros r (r0 & Hr0 & ->)%elem_of_update. specialize (Ist r0 Hr0) as [Hc Hb].
    rewrite count_app, sum_of_app, count_cons, sum_of_cons, count_nil.
    change (sum_of m_size (on_stream _) []) with 0. unfold has_key, on_stream in *.
    case_bool_decide as He; simpl; rewrite ?bool_decide_true by congruence;
      rewrite ?bool_decide_false by congruence; lia.
  - rewrite (key_update sq_stream), (key_update ss_stream); done.
Qed.

(** Dropping dedup keys keeps the messages in order. *)
Lemma MsgInv_clear sq ms st k p : MsgInv sq ms st k -> MsgInv sq (update_where p clear_key ms) st k.
Proof.
  intros [Isk Imk Ims Inp Iid Isz Iord Idd Ist Iss].
  assert (Hall : forall m, m ∈ update_where p clear_key ms -> exists m0, m0 ∈ ms /\ mkey m = mkey m0 /\
            m_id m = m_id m0 /\ m_size m = m_size m0 /\ m_body m = m_body m0 /\
            m_published_at m = m_published_at m0 /\ (m_dedup_key m <> None -> m = m0)).
  { intros m (m0 & Hm0 & ->)%elem_of_update. exists m0. destruct (p m0); simpl; naive_solver. }
  split; try done.
  - by rewrite (key_update mkey).
  - intros m (m0 & Hm0 & [= -> ->] & _)%Hall. auto.
  - intros m (m0 & Hm0 & _ & -> & _)%Hall. auto.
  - intros m (m0 & Hm0 & _ & _ & -> & -> & _)%Hall. auto.
  - intros m m' (m0 & Hm0 & [= -> ->] & _ & _ & _ & -> & _)%Hall (m1 & Hm1 & [= -> ->] & _ & _ & _ & -> & _)%Hall.
    by apply Iord.
  - intros m m' key (m0 & Hm0 & _ & _ & _ & _ & _ & E0)%Hall (m1 & Hm1 & _ & _ & _ & _ & _ & E1)%Hall Hs Hk Hk'.
    assert (m = m0) as -> by (apply E0; congruence). assert (m' = m1) as -> by (apply E1; congruence).
    by apply (Idd m0 m1 key).
  - intros r Hr. destruct (Ist r Hr) as [-> ->]. split; symmetry; [by apply count_update|by apply sum_of_update].
Qed.

Lemma ConInv_bump s sq cs : ConInv sq cs -> ConInv (update_where (has_key sq_stream s) bump_seq sq) cs.
Proof.
  intros [Ick Icon]. split; [done|]. intros c Hc. destruct (Icon c Hc) as (Hg & Hp & Hf & n & Hn & Hcur).
  split; [done|]. split; [done|]. split; [done|]. rewrite seq_of_bump, Hn. simpl.
  eexists. split; [done|]. case_bool_decide; simpl; lia.
Qed.

Lemma StrInv_bump s ss sq : StrInv ss sq -> StrInv ss (update_where (has_key sq_stream s) bump_seq sq).
Proof.
  intros [Isk Iss]. split; [done|]. intros r Hr. destruct (Iss r Hr) as [? [n Hn]].
  split; [done|]. rewrite seq_of_bump, Hn. by eexists.
Qed.

(** Under the invariant the next sequence number and identifier are unused. *)
Lemma fresh_key sq ms st k s n :
  MsgInv sq ms st k -> seq_of s sq = Some n -> existsb (has_key mkey (s, n)) ms = false.
Proof.
  intros HM Hn. apply existsb_key. intros (m' & Hk & Hm')%list_elem_of_In%in_map_iff.
  apply list_elem_of_In in Hm'. injection Hk as Hs Hq.
  destruct (inv_msg_seq _ _ _ _ HM m' Hm') as (n' & Hn' & Hb). rewrite Hs, Hn in Hn'.
  injection Hn' as <-. lia.
Qed.

Lemma fresh_id sq ms st k :
  MsgInv sq ms st k -> existsb (has_key m_id (newID k)) ms = false.
Proof.
  intros HM. apply existsb_key. intros (m' & Hk & Hm')%list_elem_of_In%in_map_iff.
  apply list_elem_of_In in Hm'. destruct (inv_msg_id _ _ _ _ HM m' Hm') as (i & Hi & Hid).
  rewrite Hid in Hk. apply newID_inj in Hk. lia.
Qed.

Lemma last_published_bound s d m :
  m ∈ messages d -> m_stream m = s ->
  exists l, last_published s d = Some l /\ m_published_at m <= l.
Proof.
  intros Hm Hs. unfold last_published.
  assert (Hw : m ∈ where_ (on_stream s) (messages d)).
  { apply elem_of_where. split; [by apply bool_decide_eq_true|done]. }
  destruct (max_of m_published_at _) as [l|] eqn:Hmax.
  - exists l. split; [done|]. by eapply max_of_bound.
  - apply max_of_None in Hmax. rewrite Hmax in Hw. set_solver.
Qed.

(** What a stored publish leaves behind: one more message, its counter and
    statistics moved, nothing else. *)
Record appended (w w' : world) (m : message) : Prop := {
  app_messages : messages (w_db w') = messages (w_db w) ++ [m];
  app_seq : stream_seq (w_db w') =
    update_where (has_key sq_stream (m_stream m)) bump_seq (stream_seq (w_db w));
  app_stats : stream_stats (w_db w') =
    update_where (has_key ss_stream (m_stream m)) (add_stats 1 (m_size m)) (stream_stats (w_db w));
  app_streams : streams (w_db w') = streams (w_db w);
  app_consumers : consumers (w_db w') = consumers (w_db w);
  app_deliveries : deliveries (w_db w') = deliveries (w_db w);
  app_minted : minted (w_mem w') = S (minted (w_mem w));
}.

(** One more journal row, and what it records. *)
Definition logs (name stream : string) (seq : Z) (w w' : world) : Prop :=
  exists e, events (w_db w') = events (w_db w) ++ [(next_event_id (events (w_db w)), e)] /\
    ev_name e = name /\ default "" (ev_stream e) = stream /\ default 0 (ev_seq e) = seq.

Lemma nullStr_default s : default "" (nullStr s) = s.
Proof. unfold nullStr. case_bool_decide; by subst. Qed.

Lemma nullI64_default z : default 0 (nullI64 z) = z.
Proof. unfold nullI64. case_match; bool_prop; by subst. Qed.

(** The message a request becomes under [seq_of], stamped no earlier than [now]. *)
Record stored_as (now : Z) (lc : loadedConfig) (r : PublishReq) (w : world) (m : message) : Prop := {
  sto_stream : m_stream m = sc_Name (lc_cfg lc);
  sto_seq : seq_of (m_stream m) (stream_seq (w_db w)) = Some (m_seq m);
  sto_id : m_id m = newID (minted (w_mem w));
  sto_subject : m_subject m = pr_Subject r;
  sto_body : m_body m = pr_Body r;
  sto_size : m_size m = slen (pr_Body r);
  sto_trace : pr_TraceID r <> "" -> m_trace_id m = pr_TraceID r;
  sto_key : m_dedup_key m = (if lc_window lc =? 0 then None else nullStr (pr_MsgID r));
  sto_now : now <= m_published_at m;
  sto_order : forall m', m' ∈ messages (w_db w) -> m_stream m' = m_stream m ->
    m_published_at m' <= m_published_at m;
}.

Definition no_hit (lc : loadedConfig) (r : PublishReq) (d : db) : Prop :=
  lc_window lc <> 0 -> pr_MsgID r <> "" -> forall m, m ∈ messages d ->
  m_stream m = sc_Name (lc_cfg lc) -> m_dedup_key m <> Some (pr_MsgID r).

Lemma wp_allocSeq s (Q : Z -> world -> Prop) (F : error -> world -> Prop) w :
  (forall n, seq_of s (stream_seq (w_db w)) = Some n ->
     Q n (World (on_stream_seq (update_where (has_key sq_stream s) bump_seq) (w_db w)) (w_mem w))) ->
  (forall w', seq_of s (stream_seq (w_db w)) = None -> F not_exist w') ->
  wp (allocSeq s) Q F w.
Proof.
  intros HQ HF. unfold allocSeq. wp_steps; unfold find_seq; simpl; fold (seq_of s (stream_seq (w_db w))).
  all: change (sq_next <$> query_row (has_key sq_stream s) ?t) with (seq_of s t);
    rewrite seq_of_bump, bool_decide_true by done; destruct (seq_of s _) as [n|] eqn:Hn; simpl.
  - intros a [= <-]. wp_steps. replace (Z.succ n - 1) with n by lia. by apply HQ.
  - done.
  - done.
  - intros _. by apply HF.
Qed.

Lemma wp_insert_message m (Q : Z -> world -> Prop) F w :
  existsb (has_key mkey (mkey m)) (messages (w_db w)) = false ->
  existsb (has_key m_id (m_id m)) (messages (w_db w)) = false ->
  (forall key m', m_dedup_key m = Some key -> m' ∈ messages (w_db w) -> m_stream m' = m_stream m ->
     m_dedup_key m' <> Some key) ->
  Q 1 (World (on_messages (fun t => t ++ [m]) (w_db w)) (w_mem w)) ->
  wp (insert_message m) Q F w.
Proof.
  intros Hk Hid Hdd HQ. unfold insert_message. wp_steps. simpl. rewrite Hk, Hid. clear Hk Hid. simpl.
  destruct (m_dedup_key m) as [key|] eqn:Hkey; [|exact HQ].
  destruct (existsb _ _) eqn:He; [|exact HQ]. exfalso.
  apply existsb_exists in He as (m' & Hin%list_elem_of_In & [Hs Hk']%andb_true_iff).
  unfold on_stream in Hs. bool_prop. by apply (Hdd key m').
Qed.

Lemma wp_ResolveTraceID t (Q : string -> world -> Prop) F w :
  (forall t' mm, (t <> "" -> t' = t) -> minted mm = minted (w_mem w) -> Q t' (World (w_db w) mm)) ->
  wp (ResolveTraceID t) Q F w.
Proof.
  intros HQ. unfold ResolveTraceID. case_bool_decide; wp_steps.
  - by apply HQ.
  - destruct w. by apply HQ.
Qed.

Lemma publish_new_wp now lc r w :
  Inv (w_db w) (minted (w_mem w)) -> no_hit lc r (w_db w) ->
  wp (publish_new limits now lc r no_opts)
     (fun '(ack, _) w' => exists m, stored_as now lc r w m /\ appended w w' m /\
        logs "msg.publish" (m_stream m) (m_seq m) w w' /\
        ack = MkAck (m_stream m) (m_seq m) (m_id m) (m_trace_id m) false (m_published_at m))
     (fun e _ => (seq_of (sc_Name (lc_cfg lc)) (stream_seq (w_db w)) = None /\ e = not_exist) \/
                 EncodeHeaders (pr_Headers r) limits = Err e) w.
Proof.
  intros HI Hhit. unfold publish_new. wp_steps. apply wp_allocSeq; [|intros w' Hn; by left].
  intros n Hn. wp_steps. rewrite bool_decide_true by done. apply wp_ResolveTraceID.
  intros t mm Ht Hmm. simpl in Hmm. wp_steps; [|intros e He; by right]. intros hdr Hhdr. wp_steps.
  simpl. pose proof (inv_messages _ _ HI) as HM.
  set (last := last_published _ _).
  set (pub := match last with Some l => if now <? l then l else now | None => now end).
  assert (Hpub : now <= pub /\ forall m', m' ∈ messages (w_db w) ->
            m_stream m' = sc_Name (lc_cfg lc) -> m_published_at m' <= pub).
  { split; [unfold pub; repeat case_match; bool_prop; lia|].
    intros m' Hm' Hs. destruct (last_published_bound _ _ _ Hm' Hs) as (l & Hl & Hle).
    unfold pub, last. change (last_published _ _) with (last_published (sc_Name (lc_cfg lc)) (w_db w)).
    rewrite Hl. case_match; bool_prop; lia. }
  apply wp_insert_message; simpl.
  - by eapply fresh_key.
  - by eapply fresh_id.
  - intros key m' Hkey Hm' Hs. case_match; [done|]. unfold nullStr in Hkey.
    case_bool_decide; simplify_eq. bool_prop. by apply Hhit.
  - cbn [Z.eqb]. wp_steps.
    match goal with |- context [on_messages (fun t => t ++ [?m])] => exists m end.
    split; [split; simpl; try done; try apply Hpub|].
    split; [split; simpl; congruence|]. split; [|done]. eexists. split; [done|]. simpl.
    by rewrite nullStr_default, nullI64_default.
Qed.

(** The invariant after a stored publish. *)
Lemma appended_ok now lc r w w' m :
  world_ok w -> no_hit lc r (w_db w) -> stored_as now lc r w m -> appended w w' m -> world_ok w'.
Proof.
  intros [IS IM IC ID] Hhit [Hs Hn Hid Hsub Hb Hsz Ht Hk Hnow Hord] [Em Eq Es Est Ec Ed Emt].
  unfold world_ok. split; rewrite ?Em, ?Eq, ?Es, ?Est, ?Ec, ?Ed, ?Emt.
  - by apply StrInv_bump.
  - apply MsgInv_append; try done; [congruence|].
    intros key m' Hkey Hm' Hs'. rewrite Hk in Hkey. case_match; [done|]. unfold nullStr in Hkey.
    case_bool_decide; simplify_eq. bool_prop. apply Hhit; auto. congruence.
  - by apply ConInv_bump.
  - eapply DelInv_messages; [|done]. rewrite map_app. set_solver.
Qed.

(** The two ways a publish succeeds. *)
Definition duplicate_of (lc : loadedConfig) (r : PublishReq) (w w' : world) (ack : Ack) : Prop :=
  exists orig f, orig ∈ messages (w_db w) /\ m_stream orig = sc_Name (lc_cfg lc) /\
    m_dedup_key orig = Some (pr_MsgID r) /\ ack = dup_ack (sc_Name (lc_cfg lc)) orig /\
    w' = World (on_events f (w_db w)) (w_mem w) /\ logs "msg.dup" (m_stream orig) (m_seq orig) w w'.

Definition stores (now : Z) (lc : loadedConfig) (r : PublishReq) (w w' : world) (ack : Ack) : Prop :=
  exists m, no_hit lc r (w_db w) /\ stored_as now lc r w m /\ appended w w' m /\
    logs "msg.publish" (m_stream m) (m_seq m) w w' /\
    ack = MkAck (m_stream m) (m_seq m) (m_id m) (m_trace_id m) false (m_published_at m).

Definition publish_error (lc : loadedConfig) (r : PublishReq) (w : world) (e : error) : Prop :=
  ValidatePublish (lc_cfg lc) r limits = Err e \/
  (seq_of (sc_Name (lc_cfg lc)) (stream_seq (w_db w)) = None /\ e = not_exist).

Lemma ValidatePublish_headers sc r l :
  ValidatePublish sc r l = Ok tt -> is_ok (EncodeHeaders (pr_Headers r) l) = true.
Proof.
  unfold ValidatePublish. rewrite rbind_ok. intros (subj & _ & (set & _ & Hrest)%rbind_ok).
  repeat case_match; try done. apply rbind_ok in Hrest as (h & Hh & _). by rewrite Hh.
Qed.

Lemma publishTxWithConfig_wp now lc r w :
  world_ok w -> 0 <= lc_window lc ->
  wp (publishTxWithConfig limits now lc r no_opts)
     (fun '(ack, _) w' => ValidatePublish (lc_cfg lc) r limits = Ok tt /\
        (duplicate_of lc r w w' ack \/ stores now lc r w w' ack))
     (fun e _ => publish_error lc r w e) w.
Proof.
  intros Hok Hwin. unfold publishTxWithConfig. apply wp_bind.
  cbn [BypassLimits no_opts negb]. wp_steps; [|intros e He; by left].
  intros [] HV. wp_steps.
  assert (Hnew : no_hit lc r (w_db w) ->
    wp (publish_new limits now lc r no_opts)
     (fun '(ack, _) w' => ValidatePublish (lc_cfg lc) r limits = Ok tt /\
        (duplicate_of lc r w w' ack \/ stores now lc r w w' ack))
     (fun e _ => publish_error lc r w e) w).
  { intros Hhit. eapply wp_mono; [by apply publish_new_wp| |].
    - intros [ack ev] w' (m & ? & ? & ? & ?). split; [done|]. right. by exists m.
    - intros e w' [[? ?]|He]; [by right|]. apply ValidatePublish_headers in HV. by rewrite He in HV. }
  destruct (_ && (0 <? lc_window lc)) eqn:Hpre.
  - unfold findDedupHit. wp_steps. destruct (query_row _ _) as [orig|] eqn:Hq.
    + apply query_row_Some in Hq as [[Hs Hk]%andb_true_iff Hin]. unfold on_stream in Hs. bool_prop.
      wp_steps. split; [done|]. left. eexists orig, _. split_and!; [done..|]. eexists. split; [done|]. simpl.
      by rewrite nullStr_default, nullI64_default, Hs.
    + apply Hnew. intros _ _ m Hm Hs Hk. apply (query_row_None _ _ m) in Hq; [|done].
      unfold on_stream in Hq. bool_prop. destruct Hq; done.
  - wp_steps. apply Hnew. intros Hw0 Hid. bool_prop. destruct Hpre as [[?|?]|?]; [done|done|lia].
Qed.

(** *** Every refusal of a publish is a business rejection *)

Lemma classify_runes_err w rs e : classify_runes w rs = Some e -> is_kind ErrBadSubject e = true.
Proof. induction rs; simpl; [done|]. repeat case_match; try done; by intros [= <-]. Qed.

Lemma classify_err seg w last e : classify seg w last = Err e -> is_kind ErrBadSubject e = true.
Proof.
  unfold classify. repeat (case_match; simplify_eq/=; try done; try (intros [= <-]; done)).
  intros [= <-]. by eapply classify_runes_err.
Qed.

Lemma parse_err s w e : parse s w = Err e -> is_kind ErrBadSubject e = true.
Proof.
  unfold parse. generalize MaxTokens. intros room.
  repeat (case_match; [by intros [= <-]|]). clear. revert s e.
  induction room as [|room IH]; intros s e; simpl; [by intros [= <-]|].
  repeat case_match; unfold rbind; destruct (classify _ _ _) eqn:Hc;
    try (intros [= <-]; by eapply classify_err); try done.
  destruct (parse_loop w room _) eqn:Hp; [done|]. intros [= <-]. by eapply IH.
Qed.

Lemma ParseSet_loop_err seen rs e : ParseSet_loop seen rs = Err e -> is_kind ErrBadSubject e = true.
Proof.
  revert seen e. induction rs as [|r rs IH]; intros seen e; simpl; [done|]. case_match; [apply IH|].
  unfold ParsePattern, rbind. destruct (parse r true) eqn:Hp; [|intros [= <-]; by eapply parse_err].
  destruct (ParseSet_loop (r :: seen) rs) eqn:Hl; [done|]. intros [= <-]. by eapply IH.
Qed.

Lemma encode_loop_err acc h e : encode_loop acc h = Err e ->
  is_kind ErrBadRequest e = true \/ is_kind ErrTooLarge e = true.
Proof.
  revert acc. induction h as [|[k v] h IH]; intros acc; simpl; [done|].
  repeat case_match; try (intros [= <-]; first [by left | by right]); apply IH.
Qed.

Lemma domain_kind k e : k ∈ domainSentinels -> is_kind k e = true -> isDomainError e = true.
Proof. intros Hk He. apply existsb_exists. exists k. by rewrite <-list_elem_of_In. Qed.

Lemma ParseSet_err rs e : ParseSet rs = Err e -> is_kind ErrBadSubject e = true.
Proof.
  unfold ParseSet, rbind. destruct rs; [by intros [= <-]|].
  destruct (ParseSet_loop _ _) eqn:Hl; [done|]. intros [= <-]. by eapply ParseSet_loop_err.
Qed.

Lemma EncodeHeaders_err h l e : EncodeHeaders h l = Err e -> isDomainError e = true.
Proof.
  unfold EncodeHeaders, rbind. destruct h as [|kv h]; [done|]. case_match; [by intros [= <-]|].
  destruct (encode_loop _ _) eqn:Hl.
  - case_match; [by intros [= <-]|done].
  - intros [= <-]. apply encode_loop_err in Hl as [?|?]; by eapply domain_kind; [|done]; set_solver.
Qed.

Lemma shape_err msgID traceID e :
  (let? _ := ValidateMsgID msgID in ValidateTraceIDToken traceID) = Err e -> isDomainError e = true.
Proof.
  unfold ValidateMsgID, ValidateTraceIDToken, rbind.
  repeat (case_match; simplify_eq; try done); by intros [= <-].
Qed.

Lemma ValidatePublish_err sc r l e : ValidatePublish sc r l = Err e -> isDomainError e = true.
Proof.
  unfold ValidatePublish, ParseSubject, rbind at 1 2 3 4.
  destruct (parse (pr_Subject r) false) eqn:Hp;
    [|intros [= <-]; eapply domain_kind; [|by eapply parse_err]; set_solver].
  destruct (ParseSet _) eqn:Hs;
    [|intros [= <-]; eapply domain_kind; [|by eapply ParseSet_err]; set_solver].
  case_match; [by intros [= <-]|]. case_match; [by intros [= <-]|].
  destruct (EncodeHeaders _ _) eqn:Hh; [|intros [= <-]; by eapply EncodeHeaders_err].
  apply shape_err.
Qed.

Lemma find_stream_ok w name row :
  world_ok w -> find_stream name (w_db w) = Some row ->
  0 <= st_dedup_window_ms row /\ is_Some (seq_of name (stream_seq (w_db w))).
Proof.
  intros Hok [Hn%has_key_true Hin]%query_row_Some. rewrite <-Hn.
  by apply (inv_str _ _ (inv_streams _ _ Hok)).
Qed.

Definition publish_done (now : Z) (lc : loadedConfig) (r : PublishReq) (w w' : world) (ack : Ack) : Prop :=
  ValidatePublish (lc_cfg lc) r limits = Ok tt /\
  (duplicate_of lc r w w' ack \/ stores now lc r w w' ack).

Lemma publish_done_ok now lc r w w' ack :
  world_ok w -> publish_done now lc r w w' ack -> world_ok w'.
Proof.
  intros Hok [_ [(orig & f & _ & _ & _ & _ & -> & _)|(m & ? & ? & ? & _)]].
  - by apply Inv_events.
  - by eapply appended_ok.
Qed.

Lemma publishWriteCmd_wp stream r now w :
  world_ok w ->
  wp (publishWriteCmd limits stream r now)
     (fun '(ack, _) w' => exists row, find_stream stream (w_db w) = Some row /\
        publish_done (UnixMilli now) (config_of stream row) r w w' ack)
     (fun e _ => IsCmdError e = true /\ (find_stream stream (w_db w) = None \/
        exists row e', find_stream stream (w_db w) = Some row /\
          ValidatePublish (lc_cfg (config_of stream row)) r limits = Err e')) w.
Proof.
  intros Hok. unfold publishWriteCmd, publishTx, loadStreamConfig. wp_steps.
  - intros row Hrow. destruct (find_stream_ok _ _ _ Hok Hrow) as [Hwin [n Hn]]. wp_steps.
    eapply wp_mono; [by apply publishTxWithConfig_wp| |].
    + intros [ack ev] w' Hpost. wp_steps. eauto.
    + intros e w' [He|[Hnone _]]; [|by simpl in Hnone; rewrite Hn in Hnone].
      unfold maybeCmdErr. rewrite (ValidatePublish_err _ _ _ _ He). split; [done|]. right. eauto.
  - intros Hnone. split; [done|by left].
Qed.

Lemma publish_keeps stream r now w w' res :
  world_ok w -> publishWriteCmd limits stream r now w = (w', Ok res) -> world_ok w'.
Proof.
  intros Hok Hrun. pose proof (wp_run _ _ _ _ _ _ (publishWriteCmd_wp stream r now w Hok) Hrun) as Hpost.
  destruct res as [ack evs]. destruct Hpost as (row & _ & Hd). by eapply publish_done_ok.
Qed.

(** C5: What a publish does to the database, on every branch.  A publish that
    succeeds passed the subject, size, header and key checks of its stream's
    stored configuration; it either answers with the receipt of the message
    that already carries its idempotency key and changes nothing but the
    journal, which gains a msg.dup, or appends exactly one message under the
    stream's next sequence number, stamped neither before [now] nor before any
    earlier message of the stream, and moves the counter, the statistics and
    the journal (one msg.publish) with it; the store's invariant holds after
    it.  A publish fails only when the stream does not exist or a check
    refuses it, and always as a business rejection, never in a way that would
    abort its batch-mates. *)
Theorem publish_effect (stream : string) (r : PublishReq) (now : Z) (w : world) :
  world_ok w ->
  match publishWriteCmd limits stream r now w with
  | (w', Ok (ack, _)) =>
      world_ok w' /\ exists row, find_stream stream (w_db w) = Some row /\
        ValidatePublish (lc_cfg (config_of stream row)) r limits = Ok tt /\
        (duplicate_of (config_of stream row) r w w' ack \/
         stores (UnixMilli now) (config_of stream row) r w w' ack)
  | (_, Err e) =>
      IsCmdError e = true /\
      (find_stream stream (w_db w) = None \/
       exists row e', find_stream stream (w_db w) = Some row /\
         ValidatePublish (lc_cfg (config_of stream row)) r limits = Err e')
  end.
Proof.
  intros Hok. pose proof (publishWriteCmd_wp stream r now w Hok) as Hwp. unfold wp in Hwp.
  destruct (publishWriteCmd limits stream r now w) as [w' [[ack evs]|e]]; [|done].
  destruct Hwp as (row & Hrow & Hpost). split; [by eapply publish_done_ok|].
  destruct Hpost. eauto.
Qed.

(** The receipt a stored key answers with. *)
Definition keyed (stream key : string) (ack : Ack) (ms : list message) : Prop :=
  exists m, m ∈ ms /\ m_stream m = stream /\ m_dedup_key m = Some key /\
    (ack_Seq ack, ack_ID ack, ack_TraceID ack, ack_PublishedAt ack) =
    (m_seq m, m_id m, m_trace_id m, m_published_at m).

Lemma publish_done_keyed now stream row r w w' ack :
  publish_done now (config_of stream row) r w w' ack ->
  0 < st_dedup_window_ms row -> pr_MsgID r <> "" ->
  keyed stream (pr_MsgID r) ack (messages (w_db w')) /\ streams (w_db w') = streams (w_db w).
Proof.
  intros [_ [(orig & f & Hin & Hs & Hk & -> & -> & _)|(m & _ & Hst & Happ & _ & ->)]] Hwin Hid.
  - split; [|done]. by exists orig.
  - split; [|by apply Happ]. exists m. rewrite (app_messages _ _ _ Happ). split; [set_solver|].
    split; [apply Hst|]. split; [|done]. rewrite (sto_key _ _ _ _ _ Hst). simpl.
    rewrite (proj2 (Z.eqb_neq _ 0)) by lia. unfold nullStr. by rewrite bool_decide_false.
Qed.

(** A second publish under the key of a stored one. *)
Lemma publish_repeat (stream : string) (r r' : PublishReq) (now now' : Z) (w w1 w2 : world)
    (row : stream_row) (ack ack' : Ack) (evs evs' : list event) :
  world_ok w -> find_stream stream (w_db w) = Some row -> 0 < st_dedup_window_ms row ->
  pr_MsgID r <> "" -> pr_MsgID r' = pr_MsgID r ->
  publishWriteCmd limits stream r now w = (w1, Ok (ack, evs)) ->
  publishWriteCmd limits stream r' now' w1 = (w2, Ok (ack', evs')) ->
  ack_Duplicate ack' = true /\
  (ack_Seq ack', ack_ID ack', ack_TraceID ack', ack_PublishedAt ack') =
  (ack_Seq ack, ack_ID ack, ack_TraceID ack, ack_PublishedAt ack) /\
  messages (w_db w2) = messages (w_db w1) /\ stream_seq (w_db w2) = stream_seq (w_db w1).
Proof.
  intros Hok Hrow Hwin Hid Hid' H1 H2.
  destruct (wp_run _ _ _ _ _ _ (publishWriteCmd_wp stream r now w Hok) H1) as (row1 & Hrow1 & Hd1).
  assert (row1 = row) as -> by congruence.
  pose proof (publish_done_ok _ _ _ _ _ _ Hok Hd1) as Hok1.
  destruct (publish_done_keyed _ _ _ _ _ _ _ Hd1 Hwin Hid) as [(m & Hm & Hs & Hk & Hack) Hstr].
  destruct (wp_run _ _ _ _ _ _ (publishWriteCmd_wp stream r' now' w1 Hok1) H2)
    as (row2 & Hrow2 & _ & Hd2).
  assert (row2 = row) as -> by (unfold find_stream in *; rewrite Hstr in Hrow2; congruence).
  rewrite <-Hid' in Hk.
  destruct Hd2 as [(orig & f & Hin & Hs' & Hk' & -> & -> & _)|(m' & Hhit & Hst & _)].
  - assert (orig = m) as ->.
    { eapply (inv_msg_dedup _ _ _ _ (inv_messages _ _ Hok1)); eauto. by simpl in Hs'; congruence. }
    rewrite Hack. done.
  - exfalso. eapply Hhit; [simpl; lia|congruence|exact Hm|done|done].
Qed.

(** C11: Publishing is idempotent under its key.  On a stream with a dedup
    window, once a publish carrying an idempotency key has succeeded, a second
    publish with the same key that succeeds is answered as a duplicate with the
    first one's sequence number, id, trace id and publication time, allocates
    no sequence number and stores no message. *)
Theorem publish_idempotent (stream : string) (r r' : PublishReq) (now now' : Z) (w w1 w2 : world)
    (row : stream_row) (ack ack' : Ack) (evs evs' : list event) :
  world_ok w -> find_stream stream (w_db w) = Some row -> 0 < st_dedup_window_ms row ->
  pr_MsgID r <> "" -> pr_MsgID r' = pr_MsgID r ->
  publishWriteCmd limits stream r now w = (w1, Ok (ack, evs)) ->
  publishWriteCmd limits stream r' now' w1 = (w2, Ok (ack', evs')) ->
  ack_Duplicate ack' = true /\
  (ack_Seq ack', ack_ID ack', ack_TraceID ack', ack_PublishedAt ack') =
  (ack_Seq ack, ack_ID ack, ack_TraceID ack, ack_PublishedAt ack) /\
  messages (w_db w2) = messages (w_db w1) /\ stream_seq (w_db w2) = stream_seq (w_db w1).
Proof. apply publish_repeat. Qed.

Lemma publish_error_domain lc r w e : publish_error lc r w e -> isDomainError e = true.
Proof. intros [He|[_ ->]]; [by eapply ValidatePublish_err|done]. Qed.

Definition is_new (a : Ack) : bool := negb (ack_Duplicate a).

(** The state of a batch after some of its entries: the new messages sit under
    consecutive sequence numbers, reported in order by the new receipts. *)
Record batch_state (stream : string) (n : Z) (w w' : world) (acks : list Ack) (added : list message)
  : Prop := {
  bat_ok : world_ok w';
  bat_streams : streams (w_db w') = streams (w_db w);
  bat_consumers : consumers (w_db w') = consumers (w_db w);
  bat_deliveries : deliveries (w_db w') = deliveries (w_db w);
  bat_messages : messages (w_db w') = messages (w_db w) ++ added;
  bat_stream : Forall (fun m => m_stream m = stream) added;
  bat_next : seq_of stream (stream_seq (w_db w')) = Some (n + Z.of_nat (length added));
  bat_seqs : map m_seq added = seqZ n (Z.of_nat (length added));
  bat_acks : map ack_Seq (where_ is_new acks) = map m_seq added;
}.

Lemma batch_step now stream row r n w w1 w2 acks added ack :
  batch_state stream n w w1 acks added ->
  publish_done now (config_of stream row) r w1 w2 ack ->
  exists added', batch_state stream n w w2 (acks ++ [ack]) added'.
Proof.
  intros [Hok Es Ec Ed Em Hf Hn Hq Ha] Hd. pose proof (publish_done_ok _ _ _ _ _ _ Hok Hd) as Hok2.
  assert (Hsnoc : forall a, map ack_Seq (where_ is_new (acks ++ [a])) =
            map m_seq added ++ (if is_new a then [ack_Seq a] else [])).
  { intros a. unfold where_ in *. rewrite List.filter_app, map_app, Ha. simpl. by destruct (is_new a). }
  destruct Hd as [_ [(orig & f & _ & _ & _ & -> & -> & _)|(m & _ & Hst & Happ & _ & ->)]].
  - exists added. split; try done. rewrite Hsnoc. simpl. by rewrite app_nil_r.
  - destruct Happ as [Am Aq As Ast Ac Ad _]. pose proof (sto_stream _ _ _ _ _ Hst) as Hs.
    simpl in Hs. pose proof (sto_seq _ _ _ _ _ Hst) as Hmn. rewrite Hs, Hn in Hmn.
    injection Hmn as Hmn. exists (added ++ [m]).
    split; rewrite ?length_app, ?Nat2Z.inj_add; try congruence.
    + by rewrite Am, Em, app_assoc.
    + apply Forall_app. auto.
    + rewrite Aq, Hs, seq_of_bump, Hn, bool_decide_true by done. simpl. f_equal. lia.
    + rewrite map_app, Hq, seqZ_app by lia. simpl. by rewrite Hmn.
    + rewrite Hsnoc, map_app. done.
Qed.

Lemma batchPublishCmd_wp stream reqs now w :
  world_ok w ->
  wp (batchPublishCmd limits stream reqs now)
     (fun '(acks, _) w' => exists n added, seq_of stream (stream_seq (w_db w)) = Some n /\
        length acks = length reqs /\ batch_state stream n w w' acks added)
     (fun e _ => IsCmdError e = true) w.
Proof.
  intros Hok. unfold batchPublishCmd, loadStreamConfig. wp_steps; [|done].
  intros row Hrow. destruct (find_stream_ok _ _ _ Hok Hrow) as [Hwin [n Hn]]. wp_steps.
  eapply (wp_for_each _ _ _ (fun rest '(acks, _) w1 => (length acks + length rest = length reqs)%nat /\
            exists added, batch_state stream n w w1 acks added)).
  - split; [done|]. exists []. split; simpl; try done; [by rewrite app_nil_r|].
    rewrite Hn. f_equal. lia.
  - intros r rest [acks evs] w1 [Hlen (added & Hst)]. wp_steps.
    eapply wp_mono; [apply publishTxWithConfig_wp; [by eapply bat_ok|done]| |].
    + intros [ack ev] w2 Hd. wp_steps. split; [rewrite length_app; simpl in *; lia|].
      by eapply batch_step.
    + intros e w2 He%publish_error_domain. unfold maybeCmdErr. by rewrite He.
  - intros [acks evs] w1 [Hlen (added & Hst)]. exists n, added. simpl in Hlen.
    split; [done|]. split; [lia|done].
Qed.

(** A batch publish is contiguous.  A batch that succeeds answers one
    receipt per entry in input order; the messages it stored occupy consecutive
    sequence numbers starting at the stream's counter, in the order of the
    receipts not answered as duplicates; the counter moves by exactly that many
    and the invariant holds.  A batch that fails is a business rejection, so
    its savepoint takes every entry back. *)
Lemma batch_contiguous (stream : string) (reqs : list PublishReq) (now : Z) (w : world) :
  world_ok w ->
  match savepoint (batchPublishCmd limits stream reqs now) w with
  | (w', Ok (acks, _)) =>
      world_ok w' /\ length acks = length reqs /\
      exists n added, seq_of stream (stream_seq (w_db w)) = Some n /\
        messages (w_db w') = messages (w_db w) ++ added /\
        Forall (fun m => m_stream m = stream) added /\
        map m_seq added = seqZ n (Z.of_nat (length added)) /\
        map ack_Seq (where_ is_new acks) = map m_seq added /\
        seq_of stream (stream_seq (w_db w')) = Some (n + Z.of_nat (length added))
  | (w', Err e) => IsCmdError e = true /\ w_db w' = w_db w
  end.
Proof.
  intros Hok. pose proof (batchPublishCmd_wp stream reqs now w Hok) as Hwp. unfold wp, savepoint in *.
  destruct (batchPublishCmd limits stream reqs now w) as [w' [[acks evs]|e]]; [|done].
  destruct Hwp as (n & added & Hn & Hlen & [? ? ? ? ? ? ? ? ?]). split; [done|]. split; [done|].
  by exists n, added.
Qed.

End Facts.

(** *** The theorems at work *)

Import Samples.

Definition order_created : PublishReq :=
  MkPublishReq "orders.created" [("source", "web")] "{}" "key-1" "".

Definition after_publish : world := fst (publishWriteCmd DefaultLimits "orders" order_created 7000000 base).

Lemma after_publish_ok : world_ok after_publish.
Proof.
  unfold after_publish. destruct (publishWriteCmd _ _ _ _ base) as [w' [res|e]] eqn:Hrun.
  - eapply (publish_keeps DefaultLimits); [apply base_ok|exact Hrun].
  - vm_compute in Hrun. discriminate.
Qed.

Lemma publish_effect_witness :
  world_ok after_publish /\ map m_seq (messages (w_db after_publish)) = [1] /\
  map m_published_at (messages (w_db after_publish)) = [7].
Proof.
  split; [|by vm_compute]. unfold after_publish.
  pose proof (publish_effect DefaultLimits "orders" order_created 7000000 base base_ok) as Hp.
  destruct (publishWriteCmd _ _ _ _ _) as [w' [[ack evs]|e]] eqn:Hrun; [by apply Hp|].
  vm_compute in Hrun. discriminate.
Defined.

Lemma publish_idempotent_witness :
  exists w2 ack evs,
    publishWriteCmd DefaultLimits "orders" order_created 9000000 after_publish = (w2, Ok (ack, evs)) /\
    ack_Duplicate ack = true /\ ack_Seq ack = 1.
Proof.
  destruct (publishWriteCmd DefaultLimits "orders" order_created 7000000 base) as [w1 [[ack1 evs1]|e]] eqn:H1;
    [|vm_compute in H1; discriminate].
  destruct (publishWriteCmd DefaultLimits "orders" order_created 9000000 after_publish)
    as [w2 [[ack2 evs2]|e]] eqn:H2; [|vm_compute in H2; discriminate].
  exists w2, ack2, evs2. split; [done|].
  pose proof (publish_idempotent DefaultLimits "orders" order_created order_created 7000000 9000000
    base w1 w2 orders ack1 ack2 evs1 evs2 base_ok eq_refl eq_refl ltac:(done) eq_refl H1) as Hdup.
  unfold after_publish in H2. rewrite H1 in H2. destruct (Hdup H2) as (Hd & Hack & _).
  split; [done|]. injection Hack as Hq _ _ _. rewrite Hq. vm_compute in H1. by injection H1 as _ <- _.
Defined.

End Publish.
