(* ===== verification/Fetch.v ===== *)
(** * Fetching

    [internal/store/fetch.go]: the delivery command.  One fetch tops the pending
    set up from the consumer's cursor (T1), claims READY rows in sequence order
    (T2) and commits the delivery events with them; the payloads are read after
    the commit and carry the ack token of their claim. *)

From S2P Require Export Publish Token.

Module Fetch.
Import Subject Policy.

(** [HoldNone] is the empty string of the source. *)
Inductive HoldReason : Set :=
| HoldNone | HoldPaused | HoldFlowControl | HoldBackoff | HoldCatchingUp | HoldEmpty.

#[global] Instance HoldReason_eq_dec : EqDecision HoldReason.
Proof. solve_decision. Defined.

Record FetchReq : Set := MkFetchReq {
  fq_Stream : string;
  fq_Consumer : string;
  fq_Batch : Z;
  fq_MaxBytes : Z;
}.

Record claimedDelivery : Set := MkClaimed {
  cd_seq : Z;
  cd_attempt : Z;
  cd_deadlineMS : Z;
  cd_ackWaitMS : Z;
}.

Record fetchResult : Set := MkFetchResult {
  fr_stream : string;
  fr_consumer : string;
  fr_claimed : list claimedDelivery;
  fr_hold : HoldReason;
  fr_cursorSeq : Z;
  fr_pending : Z;
  fr_inflight : Z;
  fr_backlog : Z;
  fr_maxAckPending : Z;
  fr_nextVisibleMS : Z;
  fr_generation : Z;
  fr_maxDeliver : Z;
  fr_ackWaitMS : Z;
  fr_conflicts : Z;
}.

Definition nul : string := String "000"%char EmptyString.

Definition flowKey (stream consumer : string) : string := stream +:+ nul +:+ consumer.

Record consumerState : Set := MkConsumerState {
  cs_filters : list string;
  cs_ackWaitMS : Z;
  cs_maxDeliver : Z;
  cs_maxAckPending : Z;
  cs_paused : bool;
  cs_cursorSeq : Z;
  cs_generation : Z;
}.

Definition state_of (c : consumer) : consumerState :=
  MkConsumerState (c_filters c) (c_ack_wait_ms c) (c_max_deliver c) (c_max_ack_pending c)
    (c_paused c) (c_cursor_seq c) (c_generation c).

Definition loadConsumerTx (stream name : string) : tx consumerState :=
  c ← query_or (E ErrNotFound "consumer does not exist") (find_consumer stream name);
  mret (state_of c).

(** Pending counts every row, inflight sums the state column. *)
Definition countDeliveries (stream consumer : string) : tx (Z * Z) :=
  query (fun d => (count (held_by stream consumer) (deliveries d),
                   sum_of d_state (held_by stream consumer) (deliveries d))).

(** ** T1: top-up *)

Definition by_seq (a b : message) : bool := m_seq a <=? m_seq b.

(** The messages a top-up scans. *)
Definition scan_rows (stream : string) (cursor scanLimit : Z) (d : db) : list message :=
  limit scanLimit (order_by by_seq
    (where_ (fun m => on_stream stream m && (cursor <=? m_seq m)) (messages d))).

Definition admitted_row (stream consumer : string) (generation : Z) (m : message) : delivery :=
  Delivery stream consumer (m_seq m) (m_subject m) 0 0 0 generation None None.

(** [INSERT ... ON CONFLICT DO NOTHING]: the rows affected. *)
Definition insert_delivery (r : delivery) : tx Z :=
  d ← query id;
  match insert_unique dkey r (deliveries d) with
  | None => mret 0
  | Some t => _ ← exec (on_deliveries (fun _ => t)); mret 1
  end.

Record scan_state : Set := MkScan {
  ss_scanned : Z;
  ss_lastExamined : Z;
  ss_pending : Z;
  ss_conflicts : Z;
  ss_declined : option Z;
}.

(** The scan loop; a declined match ends it. *)
Fixpoint topUp_loop (stream consumer : string) (set : Set_) (generation bound : Z)
    (rows : list message) (s : scan_state) : tx scan_state :=
  match rows with
  | [] => mret s
  | m :: rest =>
      let seen := MkScan (ss_scanned s + 1) (m_seq m) (ss_pending s) (ss_conflicts s) None in
      if negb (SetMatch set (m_subject m))
      then topUp_loop stream consumer set generation bound rest seen
      else if bound <=? ss_pending s
      then mret (MkScan (ss_scanned s + 1) (m_seq m) (ss_pending s) (ss_conflicts s) (Some (m_seq m)))
      else
        affected ← insert_delivery (admitted_row stream consumer generation m);
        topUp_loop stream consumer set generation bound rest
          (if affected =? 0
           then MkScan (ss_scanned s + 1) (m_seq m) (ss_pending s) (ss_conflicts s + 1) None
           else MkScan (ss_scanned s + 1) (m_seq m) (ss_pending s + 1) (ss_conflicts s) None)
  end.

Definition set_cursor (cursor : Z) (c : consumer) : consumer :=
  Consumer (c_stream c) (c_name c) (c_filters c) (c_ack_wait_ms c) (c_max_deliver c)
    (c_max_ack_pending c) (c_backoff_ms c) (c_dead_policy c) cursor (c_generation c)
    (c_paused c) (c_created_at c).

(** Where the cursor goes: to a declined match, past a full scan, or to the head. *)
Definition next_cursor (s : scan_state) (cursor streamNext scanLimit : Z) : Z :=
  let nextCursor :=
    match ss_declined s with
    | Some seq => seq
    | None => if ss_scanned s =? scanLimit then ss_lastExamined s + 1 else streamNext
    end in
  if nextCursor <? cursor then cursor else nextCursor.

(** The new cursor and the conflict count. *)
Definition topUp (stream consumer : string) (st : consumerState) (pending streamNext scanLimit : Z)
  : tx (Z * Z) :=
  set ← lift (ParseSet (cs_filters st));
  rows ← query (scan_rows stream (cs_cursorSeq st) scanLimit);
  s ← topUp_loop stream consumer set (cs_generation st) (cs_maxAckPending st) rows
        (MkScan 0 0 pending 0 None);
  let nextCursor := next_cursor s (cs_cursorSeq st) streamNext scanLimit in
  _ ← exec (on_consumers (update_where (has_key ckey (stream, consumer)) (set_cursor nextCursor)));
  mret (nextCursor, ss_conflicts s).

(** ** T2: claim *)

Definition by_dseq (a b : delivery) : bool := d_seq a <=? d_seq b.

Definition claimable (stream consumer : string) (nowMS : Z) (d : db) (r : delivery) : bool :=
  held_by stream consumer r && (d_state r =? 0) && (d_visible_at r <=? nowMS)
  && bool_decide (is_Some (find_message stream (d_seq r) d)).

(** The claimable rows joined with their message, in sequence order: (seq, size). *)
Definition readClaimCandidates (stream consumer : string) (nowMS batch : Z) (d : db) : list (Z * Z) :=
  map (fun r => (d_seq r, default 0 (m_size <$> find_message stream (d_seq r) d)))
    (limit batch (order_by by_dseq (where_ (claimable stream consumer nowMS d) (deliveries d)))).

(** The byte budget: stop before exceeding, but take at least one row. *)
Fixpoint choose (maxBytes budget : Z) (first : bool) (cs : list (Z * Z)) : list Z :=
  match cs with
  | [] => []
  | (seq, size) :: rest =>
      if negb first && (maxBytes <? budget + size) then []
      else seq :: choose maxBytes (budget + size) false rest
  end.

Definition claim_row (deadline nowMS : Z) (r : delivery) : delivery :=
  Delivery (d_stream r) (d_consumer r) (d_seq r) (d_subject r) 1 (d_attempts r + 1) deadline
    (d_generation r) (Some nowMS) (d_last_reason r).

Definition chosen_row (stream consumer : string) (chosen : list Z) (r : delivery) : bool :=
  held_by stream consumer r && bool_decide (d_seq r ∈ chosen).

(** [UPDATE ... RETURNING seq, attempts], as the map it fills. *)
Definition applyClaim (stream consumer : string) (nowMS ackWaitMS : Z) (chosen : list Z)
  : tx (gmap Z Z) :=
  _ ← exec (on_deliveries (update_where (chosen_row stream consumer chosen)
                             (claim_row (nowMS + ackWaitMS) nowMS)));
  query (fun d => list_to_map (map (fun r => (d_seq r, d_attempts r))
                                 (where_ (chosen_row stream consumer chosen) (deliveries d)))).

Definition claimReady (stream consumer : string) (nowMS ackWaitMS batch maxBytes : Z)
  : tx (list claimedDelivery) :=
  candidates ← query (readClaimCandidates stream consumer nowMS batch);
  match candidates with
  | [] => mret []
  | _ =>
      let chosen := choose maxBytes 0 true candidates in
      attemptBySeq ← applyClaim stream consumer nowMS ackWaitMS chosen;
      mret (map (fun s => MkClaimed s (default 0 (attemptBySeq !! s)) (nowMS + ackWaitMS) ackWaitMS) chosen)
  end.

(** ** The command *)

Definition fetchHold (paused full : bool) (pending cursorSeq next bound : Z) : HoldReason :=
  if full then HoldNone
  else if paused then HoldPaused
  else if (0 <? bound) && (bound <=? pending) then HoldFlowControl
  else if pending =? 0 then (if cursorSeq <? next then HoldCatchingUp else HoldEmpty)
  else HoldNone.

(** The map is recorded even when the command later fails. *)
Definition flowBlockedDue (key : string) (nowMS intervalMS : Z) : tx bool := fun w =>
  let m := w_mem w in
  if match flow m !! key with Some last => nowMS - last <? intervalMS | None => false end
  then (w, Ok false)
  else (World (w_db w) (Mem (<[key := nowMS]> (flow m)) (limiter m) (minted m) (drawn m)), Ok true).

(** SQLite compares an INTEGER column with a TEXT literal by storage class. *)
Inductive sqlv : Set := SInt (z : Z) | STxt (s : string).

#[global] Instance sqlv_eq_dec : EqDecision sqlv.
Proof. solve_decision. Defined.

Definition nextVisibleAt (stream name : string) (nowMS : Z) (d : db) : Z :=
  default 0 (min_of d_visible_at
    (where_ (fun r => held_by stream name r && bool_decide (SInt (d_state r) = STxt "ready")
                      && (nowMS <? d_visible_at r)) (deliveries d))).

(** The messages a consumer still has to see; exact for literal filters, an
    upper bound otherwise. *)
Definition consumerBacklog (stream : string) (cursorSeq next : Z) (filters : list string) (d : db)
  : Z * bool :=
  let remaining := Z.max 0 (next - cursorSeq) in
  if bool_decide (filters = [">"]) then (remaining, true)
  else match ParseSet filters with
       | Err _ => (remaining, false)
       | Ok set =>
           if forallb (fun f => match ParsePattern f with Ok p => IsLiteral p | Err _ => false end)
                (Strings set)
           then (sumZ (map (fun lit => count (fun m => on_stream stream m
                              && bool_decide (m_subject m = lit) && (cursorSeq <=? m_seq m)) (messages d))
                        (Strings set)), true)
           else (remaining, false)
       end.

Definition deliver_event (nowMS : Z) (stream consumer : string) (c : claimedDelivery) : event :=
  Event nowMS "msg.deliver" (nullStr stream) (nullStr consumer) None None (nullI64 (cd_seq c))
    (nullI64 (cd_attempt c)) None None
    [("attempt", DInt (cd_attempt c)); ("deadline_ms", DInt (cd_deadlineMS c))].

Definition blocked_event (nowMS : Z) (stream consumer : string) (pending bound : Z) : event :=
  Event nowMS "flow.blocked" (nullStr stream) (nullStr consumer) None None None None None None
    [("pending", DInt pending); ("max_ack_pending", DInt bound)].

Definition fetchCmd (stream consumer : string) (batch maxBytes : Z) (limits : ConsumerLimits) (now : Z)
  : tx (fetchResult * list event) :=
  let nowMS := UnixMilli now in
  st ← marking (loadConsumerTx stream consumer);
  if cs_paused st then
    mret (MkFetchResult stream consumer [] HoldPaused (cs_cursorSeq st) 0 0 0 0 0
            (cs_generation st) (cs_maxDeliver st) (cs_ackWaitMS st) 0, [])
  else
    streamNext ← query_or (CmdErr Publish.not_exist) (find_seq stream);
    '(pending, _) ← countDeliveries stream consumer;
    '(cursorSeq, conflicts, blocked) ←
      (if cs_maxAckPending st <=? pending then
         due ← flowBlockedDue (flowKey stream consumer) nowMS (Milliseconds (FlowBlockedInterval limits));
         evs ← (if due : bool
                then ev ← commitEvent (blocked_event nowMS stream consumer pending (cs_maxAckPending st));
                     mret [ev]
                else mret []);
         mret (cs_cursorSeq st, 0, evs)
       else
         '(c, k) ← topUp stream consumer st pending streamNext (ScanLimit limits);
         mret (c, k, []));
    claimed ← claimReady stream consumer nowMS (cs_ackWaitMS st) batch maxBytes;
    delivered ← for_each claimed [] (fun c evs =>
      ev ← commitEvent (deliver_event nowMS stream consumer c); mret (evs ++ [ev]));
    '(pending, inflight) ← countDeliveries stream consumer;
    backlog ← query (consumerBacklog stream cursorSeq streamNext (cs_filters st));
    let hold := fetchHold (cs_paused st) (Z.of_nat (length claimed) =? batch) pending cursorSeq
                  streamNext (cs_maxAckPending st) in
    nextMS ← (if bool_decide (hold = HoldBackoff) || bool_decide (hold = HoldCatchingUp)
                 || bool_decide (hold = HoldEmpty)
              then query (nextVisibleAt stream consumer nowMS) else mret 0);
    mret (MkFetchResult stream consumer claimed hold cursorSeq pending inflight backlog.1
            (if bool_decide (hold = HoldFlowControl) then cs_maxAckPending st else 0) nextMS
            (cs_generation st) (cs_maxDeliver st) (cs_ackWaitMS st) conflicts, blocked ++ delivered).

(** ** Store.Fetch: the guards before the command and the payloads after it *)

Record Delivered : Set := MkDelivered {
  dl_Stream : string;
  dl_Consumer : string;
  dl_Seq : Z;
  dl_ID : string;
  dl_Subject : string;
  dl_Headers : list (string * string);
  dl_Body : string;
  dl_Size : Z;
  dl_Attempt : Z;
  dl_MaxDeliver : Z;
  dl_AckToken : string;
  dl_DeadlineMS : Z;
  dl_AckWaitMS : Z;
  dl_PublishedAt : Z;
  dl_TraceID : string;
}.

(** The effective batch and byte bound, or the refusal. *)
Definition fetch_bounds (req : FetchReq) (l : ConsumerLimits) : result (Z * Z) :=
  let? _ := ValidateExistingStreamName (fq_Stream req) in
  let? _ := Subject.ValidateConsumerName (fq_Consumer req) in
  if fq_Batch req <=? 0 then Err (E ErrBadRequest "batch")
  else Ok (if MaxFetchBatch l <? fq_Batch req then MaxFetchBatch l else fq_Batch req,
           if fq_MaxBytes req <=? 0 then FetchMaxBytes l else fq_MaxBytes req).

Definition token_of (fr : fetchResult) (c : claimedDelivery) : Token.Token :=
  Token.MkToken (fr_stream fr) (fr_consumer fr) (cd_seq c) (cd_attempt c) (fr_generation fr).

(** A claimed row whose message is gone is left out. *)
Definition readClaimedPayloads (fr : fetchResult) (d : db) : list Delivered :=
  omap (fun c =>
    m ← find_message (fr_stream fr) (cd_seq c) d;
    Some (MkDelivered (fr_stream fr) (fr_consumer fr) (m_seq m) (m_id m) (m_subject m)
            (default [] (m_hdr m)) (m_body m) (m_size m) (cd_attempt c) (fr_maxDeliver fr)
            (Token.TokenString (token_of fr c)) (cd_deadlineMS c) (cd_ackWaitMS c)
            (m_published_at m) (m_trace_id m))) (fr_claimed fr).


(** ** Facts: the top-up *)

Definition matching (set : Set_) (m : message) : bool := SetMatch set (m_subject m).

(** How the scan loop ended: on a declined match, or past every row. *)
Definition scan_stop (set : Set_) (rows : list message) (s s' : scan_state) (rest : list message) : Prop :=
  match ss_declined s' with
  | Some q => exists m rest', rest = m :: rest' /\ q = m_seq m /\ matching set m = true
  | None => rest = [] /\ ss_scanned s' = ss_scanned s + Z.of_nat (length rows) /\
            (ss_lastExamined s' = ss_lastExamined s /\ rows = [] \/
             exists pre m, rows = pre ++ [m] /\ ss_lastExamined s' = m_seq m)
  end.

Lemma scan_stop_cons set m rows s s1 s' rest :
  ss_scanned s1 = ss_scanned s + 1 -> ss_lastExamined s1 = m_seq m ->
  scan_stop set rows s1 s' rest -> scan_stop set (m :: rows) s s' rest.
Proof.
  unfold scan_stop. intros H1 H2 Hst. destruct (ss_declined s'); [done|].
  destruct Hst as (-> & Hsc & Hl). split; [done|]. simpl length. split; [lia|]. right.
  destruct Hl as [[Hl ->]|(pre & m0 & -> & Hl)]; [exists [], m|exists (m :: pre), m0]; split; try done.
  congruence.
Qed.

(** What the scan loop leaves: it admits the matches of a prefix of the rows it
    scanned, and stops early only on a match it declines. *)
Record scanned_as (stream consumer : string) (set : Set_) (generation bound : Z) (rows : list message)
    (s s' : scan_state) (w w' : world) (done rest : list message) : Prop := {
  scn_split : rows = done ++ rest;
  scn_world : w' = World (on_deliveries (fun t => t ++
      map (admitted_row stream consumer generation) (where_ (matching set) done)) (w_db w)) (w_mem w);
  scn_pending : ss_pending s' = ss_pending s + count (matching set) done;
  scn_bound : ss_pending s <= bound -> ss_pending s' <= bound;
  scn_conflicts : ss_conflicts s' = ss_conflicts s;
  scn_stop : scan_stop set rows s s' rest;
}.

Lemma wp_insert_delivery r (Q : Z -> world -> Prop) F w :
  dkey r ∉ map dkey (deliveries (w_db w)) ->
  Q 1 (World (on_deliveries (fun t => t ++ [r]) (w_db w)) (w_mem w)) ->
  wp (insert_delivery r) Q F w.
Proof.
  intros Hfresh HQ. unfold insert_delivery. wp_steps. simpl.
  destruct (insert_unique dkey r (deliveries (w_db w))) as [t|] eqn:Hi.
  - apply insert_unique_Some in Hi as [_ ->]. exact HQ.
  - unfold insert_unique in Hi. pose proof (proj2 (existsb_key dkey (dkey r) _) Hfresh) as Hno.
    by rewrite Hno in Hi.
Qed.

Lemma topUp_loop_wp stream consumer set generation bound rows s w :
  ss_declined s = None ->
  (forall m, m ∈ rows -> (stream, consumer, m_seq m) ∉ map dkey (deliveries (w_db w))) ->
  NoDup (map m_seq rows) ->
  wp (topUp_loop stream consumer set generation bound rows s)
     (fun s' w' => exists done rest,
        scanned_as stream consumer set generation bound rows s s' w w' done rest)
     (fun _ _ => False) w.
Proof.
  revert s w. induction rows as [|m rows IH]; intros s w Hs Hfresh Hnd; simpl.
  { wp_steps. exists [], []. split; try done.
    - rewrite on_deliveries_id; [by destruct w|]. by rewrite app_nil_r.
    - rewrite count_nil. lia.
    - unfold scan_stop. rewrite Hs. split; [done|]. split; [simpl; lia|]. by left. }
  apply NoDup_cons in Hnd as [Hm Hnd].
  case_match eqn:Hmatch.
  { eapply wp_mono; [apply IH; [done|set_solver|done]| |done].
    intros s' w' (done & rest & [Hr Hw Hp Hb Hc Hst]). exists (m :: done), rest.
    apply negb_true_iff in Hmatch. fold (matching set m) in Hmatch. split; try done.
    - simpl. congruence.
    - rewrite Hw. unfold where_. simpl. by rewrite Hmatch.
    - rewrite count_cons, Hmatch. done.
    - eapply scan_stop_cons; [| |exact Hst]; done. }
  apply negb_false_iff in Hmatch. case_match eqn:Hbound; bool_prop.
  { wp_steps. exists [], (m :: rows). split; try done.
    - rewrite on_deliveries_id; [by destruct w|]. by rewrite app_nil_r.
    - rewrite count_nil. simpl. lia.
    - by exists m, rows. }
  wp_steps. apply wp_insert_delivery; [apply Hfresh; set_solver|]. cbn [Z.eqb].
  eapply wp_mono; [apply IH; [done| |done]| |done].
  { intros m' Hm'. simpl. rewrite map_app. intros [Hin|Hin]%elem_of_app; [eapply Hfresh; [|exact Hin]; set_solver|].
    simpl in Hin. apply list_elem_of_singleton in Hin. injection Hin as Hq. apply Hm. rewrite <-Hq.
    by apply in_mapped. }
  intros s' w' (done & rest & [Hr Hw Hp Hb Hc Hst]). exists (m :: done), rest. simpl in Hp, Hb.
  fold (matching set m) in Hmatch. split; try done.
  - simpl. congruence.
  - rewrite Hw. unfold on_deliveries, where_. simpl. rewrite Hmatch. by rewrite <-app_assoc.
  - rewrite count_cons, Hmatch. lia.
  - intros _. apply Hb. lia.
  - eapply scan_stop_cons; [| |exact Hst]; done.
Qed.

(** The messages from the cursor on, in order; a scan reads a prefix of them. *)
Definition from_cursor (stream : string) (cursor : Z) (d : db) : list message :=
  order_by by_seq (where_ (fun m => on_stream stream m && (cursor <=? m_seq m)) (messages d)).

Lemma elem_of_from_cursor stream cursor d m :
  m ∈ from_cursor stream cursor d <-> m ∈ messages d /\ m_stream m = stream /\ cursor <= m_seq m.
Proof.
  unfold from_cursor, on_stream. rewrite elem_of_order_by, elem_of_where. rewrite andb_true_iff.
  rewrite bool_decide_eq_true, Z.leb_le. tauto.
Qed.

Lemma from_cursor_nodup stream cursor d :
  NoDup (map mkey (messages d)) -> NoDup (map m_seq (from_cursor stream cursor d)).
Proof.
  intros Hnd. apply (NoDup_fmap_1 (fun q => (stream, q))).
  assert (Heq : (fun q => (stream, q)) <$> map m_seq (from_cursor stream cursor d) =
                map mkey (from_cursor stream cursor d)).
  { etrans; [apply (map_map m_seq (pair stream))|]. apply map_ext_in.
    intros m (_ & <- & _)%list_elem_of_In%elem_of_from_cursor. done. }
  rewrite Heq. by apply key_order_by, key_where.
Qed.

(** What a top-up does: it admits exactly the matching messages between the old
    cursor and the new one. *)
Record topped_up (stream consumer : string) (set : Set_) (st : consumerState) (pending streamNext : Z)
    (w w' : world) (cursor : Z) (admitted : list message) : Prop := {
  top_frame : frame w w';
  top_consumers : consumers (w_db w') =
    update_where (has_key ckey (stream, consumer)) (set_cursor cursor) (consumers (w_db w));
  top_deliveries : deliveries (w_db w') =
    deliveries (w_db w) ++ map (admitted_row stream consumer (cs_generation st)) admitted;
  top_cursor : cs_cursorSeq st <= cursor <= streamNext;
  top_sound : forall m, m ∈ admitted -> m ∈ messages (w_db w) /\ m_stream m = stream /\
    cs_cursorSeq st <= m_seq m < cursor /\ matching set m = true;
  top_complete : forall m, m ∈ messages (w_db w) -> m_stream m = stream ->
    cs_cursorSeq st <= m_seq m < cursor -> matching set m = true -> m ∈ admitted;
  top_nodup : NoDup (map m_seq admitted);
  top_bound : pending + Z.of_nat (length admitted) <= cs_maxAckPending st;
}.

(** The cursor a scan ends on splits the messages at the rows it examined. *)
Lemma next_cursor_split set full rows tail done rest s' cursor streamNext scanLimit :
  full = rows ++ tail -> rows = done ++ rest ->
  StronglySorted (fun a b => m_seq a <= m_seq b) full -> NoDup (map m_seq full) ->
  (forall m, m ∈ full -> cursor <= m_seq m < streamNext) -> 1 <= cursor <= streamNext ->
  (Z.of_nat (length rows) <> scanLimit -> tail = []) ->
  scan_stop set rows (MkScan 0 0 0 0 None) s' rest ->
  let c := next_cursor s' cursor streamNext scanLimit in
  cursor <= c <= streamNext /\ (forall m, m ∈ done -> m_seq m < c) /\
  (forall m, m ∈ full -> m_seq m < c -> m ∈ done).
Proof.
  intros Hfull Hrows Hs Hnd Hrange Hcur Htail Hstop c. unfold c, next_cursor. unfold scan_stop in Hstop.
  destruct (ss_declined s') as [q|].
  - destruct Hstop as (m0 & rest' & -> & -> & _). subst rows.
    assert (Hm0 : m0 ∈ full) by (subst full; set_solver). pose proof (Hrange m0 Hm0).
    assert (Hsplit : full = done ++ (m0 :: rest' ++ tail)) by (by rewrite Hfull, <-app_assoc).
    rewrite (proj2 (Z.ltb_ge _ _)) by lia. split; [lia|]. split.
    + intros m Hm. eapply (sorted_strict m_seq); [exact Hs|exact Hnd|exact Hsplit|done|set_solver].
    + intros m Hm Hlt. rewrite Hsplit in Hm. apply elem_of_app in Hm as [Hm|Hm]; [done|].
      rewrite Hsplit in Hs. apply StronglySorted_app_1_r, StronglySorted_cons in Hs as [Hall _].
      rewrite Forall_forall in Hall. apply elem_of_cons in Hm as [->|Hm]; [lia|].
      specialize (Hall m Hm). simpl in Hall. lia.
  - destruct Hstop as (-> & Hscan & Hlast). rewrite app_nil_r in Hrows. subst done. simpl in Hscan.
    destruct (ss_scanned s' =? scanLimit) eqn:Hfl; bool_prop.
    + destruct Hlast as [[Hl ->]|(pre & ml & Hpre & Hl)]; rewrite Hl.
      { simpl ss_lastExamined. destruct (0 + 1 <? cursor) eqn:?; bool_prop.
        all: split; [lia|]; split; [set_solver|]; intros m Hm Hlt; specialize (Hrange m Hm); lia. }
      assert (Hml : ml ∈ full) by (subst; set_solver). pose proof (Hrange ml Hml).
      rewrite (proj2 (Z.ltb_ge _ _)) by lia. split; [lia|]. split.
      * intros m Hm. rewrite Hpre in Hm. apply elem_of_snoc in Hm as [Hm| ->]; [|lia].
        assert (m_seq m < m_seq ml); [|lia].
        eapply (sorted_strict m_seq full pre ([ml] ++ tail)); eauto; [by rewrite Hfull, Hpre, <-app_assoc|set_solver].
      * intros m Hm Hlt. rewrite Hfull in Hm. apply elem_of_app in Hm as [Hm|Hm]; [done|].
        assert (m_seq ml < m_seq m); [|lia].
        eapply (sorted_strict m_seq full rows tail); eauto. rewrite Hpre. set_solver.
    + rewrite Htail, app_nil_r in Hfull by lia. subst full.
      rewrite (proj2 (Z.ltb_ge _ _)) by lia. split; [lia|]. split; [|done].
      intros m Hm. apply Hrange in Hm. lia.
Qed.

Section Facts.
Context `{Ids}.

Lemma find_consumer_ok w s n c :
  world_ok w -> find_consumer s n (w_db w) = Some c ->
  c ∈ consumers (w_db w) /\ c_stream c = s /\ c_name c = n.
Proof. intros Hok [Hk%has_key_true Hin]%query_row_Some. by injection Hk. Qed.

(** No pending row of the consumer lies at or past its cursor. *)
Lemma beyond_cursor_fresh w c q :
  world_ok w -> c ∈ consumers (w_db w) -> c_cursor_seq c <= q ->
  (c_stream c, c_name c, q) ∉ map dkey (deliveries (w_db w)).
Proof.
  intros Hok Hc Hq (r & Hk & Hr%list_elem_of_In)%list_elem_of_In%in_map_iff. injection Hk as Hs Hn Hrq.
  edestruct (DelInv_consumer _ _ _ r c (inv_con_key _ _ (inv_consumers _ _ Hok)) (inv_deliveries _ _ Hok));
    eauto; [unfold ckey; congruence|]. lia.
Qed.

Lemma topUp_wp w c streamNext pending scanLimit :
  world_ok w -> c ∈ consumers (w_db w) -> seq_of (c_stream c) (stream_seq (w_db w)) = Some streamNext ->
  pending <= c_max_ack_pending c ->
  wp (topUp (c_stream c) (c_name c) (state_of c) pending streamNext scanLimit)
     (fun '(cursor, conflicts) w' => conflicts = 0 /\ exists set admitted,
        ParseSet (c_filters c) = Ok set /\
        topped_up (c_stream c) (c_name c) set (state_of c) pending streamNext w w' cursor admitted)
     (fun _ _ => False) w.
Proof.
  intros Hok Hc Hnext Hpend. unfold topUp.
  destruct (inv_con _ _ (inv_consumers _ _ Hok) c Hc) as (_ & _ & [set Hset]%is_ok_true & n & Hn & Hcur).
  assert (n = streamNext) as -> by congruence.
  wp_steps; simpl; rewrite Hset; [|done]. intros ? [= <-]. wp_steps.
  set (full := from_cursor (c_stream c) (c_cursor_seq c) (w_db w)).
  change (scan_rows _ _ _ _) with (limit scanLimit full).
  assert (Hfull : forall m, m ∈ full -> c_cursor_seq c <= m_seq m < streamNext).
  { intros m (Hm & Hs & Hle)%elem_of_from_cursor. split; [done|].
    destruct (inv_msg_seq _ _ _ _ (inv_messages _ _ Hok) m Hm) as (k & Hk & ?).
    rewrite Hs, Hnext in Hk. injection Hk as <-. lia. }
  assert (Hnd : NoDup (map m_seq full)) by apply from_cursor_nodup, (inv_msg_key _ _ _ _ (inv_messages _ _ Hok)).
  destruct (limit_prefix scanLimit full) as [tail Htail].
  eapply wp_mono; [apply topUp_loop_wp; [done| |]| |done].
  - intros m Hm%elem_of_limit%Hfull. apply beyond_cursor_fresh; [done..|lia].
  - rewrite Htail, map_app in Hnd. by apply NoDup_app in Hnd as [? _].
  - intros s' w' (done & rest & [Hr -> Hp Hb Hcf Hst]). wp_steps. split; [done|].
    exists set, (where_ (matching set) done). split; [done|]. simpl in *.
    edestruct (next_cursor_split set full (limit scanLimit full) tail done rest s' (c_cursor_seq c)
      streamNext scanLimit) as (Hcu & Hlow & Hhigh); eauto.
    { apply order_by_sorted. }
    { intros Hne%limit_full. rewrite Hne in Htail.
      apply (f_equal length) in Htail. rewrite length_app in Htail. by apply nil_length_inv; lia. }
    assert (Hdone : forall m, m ∈ done -> m ∈ full).
    { intros m Hm. apply (elem_of_limit scanLimit). rewrite Hr. set_solver. }
    split; simpl; try done.
    + intros m [Hm1 Hm2]%elem_of_where. pose proof (Hfull m (Hdone m Hm2)).
      pose proof (Hdone m Hm2) as (? & ? & ?)%elem_of_from_cursor. specialize (Hlow m Hm2). naive_solver.
    + intros m Hm Hs Hq Hmat. apply elem_of_where. split; [done|]. apply Hhigh; [|lia].
      apply elem_of_from_cursor. naive_solver lia.
    + rewrite Htail, Hr, !map_app in Hnd. apply NoDup_app in Hnd as [[Hnd _]%NoDup_app _].
      by apply (key_where m_seq).
    + unfold count in Hp. rewrite <-Hp. by apply Hb.
Qed.
(** *** The invariant through a top-up *)

Lemma set_cursor_ckey k c : ckey (set_cursor k c) = ckey c.
Proof. done. Qed.

Lemma ConInv_cursor sq cs c cursor n :
  ConInv sq cs -> c ∈ cs -> seq_of (c_stream c) sq = Some n -> 1 <= cursor <= n ->
  ConInv sq (update_where (has_key ckey (ckey c)) (set_cursor cursor) cs).
Proof.
  intros [Ick Icon] Hc Hn Hcur. split; [by rewrite (key_update ckey)|].
  intros c' (c0 & Hc0 & ->)%elem_of_update. destruct (Icon c0 Hc0) as (? & ? & ? & n0 & ? & ?).
  destruct (has_key ckey (ckey c) c0) eqn:Hk; [|by eauto 10].
  apply has_key_true in Hk. injection Hk as Hs _. simpl. rewrite Hs in *. eauto 10.
Qed.

Lemma count_admitted s n g admitted :
  count (held_by s n) (map (admitted_row s n g) admitted) = Z.of_nat (length admitted).
Proof.
  induction admitted as [|m l IH]; [done|]. simpl map. rewrite count_cons, IH.
  unfold held_by at 1. rewrite bool_decide_true by done. simpl length. lia.
Qed.

Lemma count_admitted_other s n s' n' g admitted :
  (s', n') <> (s, n) -> count (held_by s' n') (map (admitted_row s n g) admitted) = 0.
Proof.
  intros Hne. apply count_0. intros r (m & <- & _)%list_elem_of_In%in_map_iff.
  unfold held_by. apply bool_decide_eq_false. simpl. congruence.
Qed.

Lemma DelInv_admit ms cs ds c cursor admitted :
  NoDup (map ckey cs) -> DelInv ms cs ds -> c ∈ cs -> c_cursor_seq c <= cursor ->
  (forall m, m ∈ admitted -> m ∈ ms /\ m_stream m = c_stream c /\ c_cursor_seq c <= m_seq m < cursor) ->
  NoDup (map m_seq admitted) ->
  count (held_by (c_stream c) (c_name c)) ds + Z.of_nat (length admitted) <= c_max_ack_pending c ->
  DelInv ms (update_where (has_key ckey (ckey c)) (set_cursor cursor) cs)
    (ds ++ map (admitted_row (c_stream c) (c_name c) (c_generation c)) admitted).
Proof.
  intros Hck HD Hc Hcur Hadm Hnd Hbound. pose proof HD as [Idk Irow Icon Imsg Ibound].
  assert (Hin : forall r, r ∈ map (admitted_row (c_stream c) (c_name c) (c_generation c)) admitted ->
            exists m, m ∈ admitted /\ r = admitted_row (c_stream c) (c_name c) (c_generation c) m).
  { intros r (m & <- & Hm%list_elem_of_In)%list_elem_of_In%in_map_iff. eauto. }
  split.
  - rewrite map_app. apply NoDup_app. split; [done|]. split.
    + intros k (r & <- & Hr%list_elem_of_In)%list_elem_of_In%in_map_iff
        (r' & Hk & (m & Hm & ->)%list_elem_of_In%Hin)%list_elem_of_In%in_map_iff.
      injection Hk as Hs Hn Hq. destruct (Hadm m Hm) as (_ & _ & Hlo & _).
      edestruct (DelInv_consumer _ _ _ r c Hck HD Hr Hc); [unfold ckey; congruence|]. lia.
    + rewrite map_map. rewrite <-(map_map m_seq (fun q => (c_stream c, c_name c, q))).
      by apply (NoDup_fmap_2 _ (map m_seq admitted)).
  - intros r [Hr|(m & _ & ->)%Hin]%elem_of_app; [auto|]. left. simpl. lia.
  - intros r [Hr|(m & Hm & ->)%Hin]%elem_of_app.
    + destruct (Icon r Hr) as (c0 & Hc0 & Hk & Hg & Hq).
      eexists. split; [apply elem_of_update; by exists c0|].
      destruct (has_key ckey (ckey c) c0) eqn:Hkey; [|done].
      apply has_key_true in Hkey. assert (c0 = c) as -> by (eapply (key_unique ckey); eauto).
      simpl. split; [done|]. split; [done|]. lia.
    + exists (set_cursor cursor c). split.
      { apply elem_of_update. exists c. split; [done|]. by rewrite (proj2 (has_key_true ckey (ckey c) c) eq_refl). }
      simpl. destruct (Hadm m Hm) as (_ & _ & _ & ?). done.
  - intros r [Hr|(m & Hm & ->)%Hin]%elem_of_app; [auto|]. simpl.
    destruct (Hadm m Hm) as (Hm' & <- & _). apply list_elem_of_In, in_map_iff. exists m.
    split; [done|]. by apply list_elem_of_In.
  - intros c' (c0 & Hc0 & Hc')%elem_of_update. rewrite count_app.
    assert (Hsame : c_stream c' = c_stream c0 /\ c_name c' = c_name c0 /\
              c_max_ack_pending c' = c_max_ack_pending c0) by (subst c'; by case_match).
    destruct Hsame as (-> & -> & ->). destruct (decide (ckey c0 = ckey c)) as [Hk|Hk].
    + assert (c0 = c) as -> by (eapply (key_unique ckey); eauto). rewrite count_admitted. lia.
    + rewrite count_admitted_other by done. specialize (Ibound c0 Hc0). lia.
Qed.

Lemma topped_up_ok w w' c set pending streamNext cursor admitted :
  world_ok w -> c ∈ consumers (w_db w) -> seq_of (c_stream c) (stream_seq (w_db w)) = Some streamNext ->
  pending = count (held_by (c_stream c) (c_name c)) (deliveries (w_db w)) ->
  topped_up (c_stream c) (c_name c) set (state_of c) pending streamNext w w' cursor admitted ->
  world_ok w'.
Proof.
  intros Hok Hc Hn -> [Hfr Ec Ed Hcur Hsound _ Hnd Hb]. pose proof Hok as [IS IM IC ID]. simpl in *.
  destruct (inv_con _ _ IC c Hc) as (_ & _ & _ & n & Hn' & Hc1).
  change (c_stream c, c_name c) with (ckey c) in Ec.
  eapply frame_ok; [done|done|rewrite Ec|rewrite Ec, Ed].
  - eapply ConInv_cursor; [done|done|exact Hn|lia].
  - apply DelInv_admit; try done; [apply IC|lia|]. intros m (? & ? & ? & ?)%Hsound. done.
Qed.

(** *** The claim *)

(** The chosen rows are a prefix of the candidates: at least one, and more than
    one only within the byte budget. *)
Lemma choose_prefix maxBytes cs budget first :
  Forall (fun c => 0 <= c.2) cs ->
  exists k, choose maxBytes budget first cs = map fst (take k cs) /\
    (first = false -> budget <= maxBytes -> budget + sumZ (map snd (take k cs)) <= maxBytes) /\
    (first = false -> maxBytes < budget -> k = O) /\
    (first = true -> cs <> [] -> k <> O).
Proof.
  intros Hpos. revert budget first. induction Hpos as [|[seq size] cs Hs Hpos IH]; intros budget first; simpl.
  { exists O. simpl. repeat split; auto; lia. }
  destruct (negb first && (maxBytes <? budget + size)) eqn:Hstop.
  { exists O. bool_prop. destruct Hstop as [-> ?]. simpl. repeat split; auto; lia. }
  destruct (IH (budget + size) false) as (k & -> & Hk1 & Hk2 & _). exists (S k). simpl.
  split; [done|]. simpl in Hs.
  destruct first; [by repeat split|]. simpl in Hstop. bool_prop.
  split; [intros _ Hb; specialize (Hk1 eq_refl Hstop); lia|]. split; [lia|done].
Qed.

Lemma choose_spec maxBytes cs :
  Forall (fun c => 0 <= c.2) cs -> cs <> [] ->
  exists k, choose maxBytes 0 true cs = map fst (take k cs) /\ k <> O /\
    (k = 1%nat \/ sumZ (map snd (take k cs)) <= maxBytes).
Proof.
  intros Hpos Hne. destruct cs as [|[seq size] cs]; [done|]. simpl.
  inversion Hpos as [|? ? Hs Hpos']; subst. simpl in Hs.
  destruct (choose_prefix maxBytes cs (0 + size) false Hpos') as (k & -> & Hk1 & Hk2 & _).
  exists (S k). split; [done|]. split; [done|]. simpl.
  destruct (decide (maxBytes < size)); [left; rewrite Hk2; [done..|lia]|right].
  specialize (Hk1 eq_refl). lia.
Qed.

(** The rows a claim may take, in sequence order. *)
Definition ready_rows (stream consumer : string) (nowMS : Z) (d : db) : list delivery :=
  order_by by_dseq (where_ (claimable stream consumer nowMS d) (deliveries d)).

Record claimed_as (stream consumer : string) (nowMS ackWaitMS batch maxBytes : Z) (w w' : world)
    (claimed : list claimedDelivery) (rows : list delivery) : Prop := {
  clm_frame : frame w w';
  clm_consumers : consumers (w_db w') = consumers (w_db w);
  clm_deliveries : deliveries (w_db w') = update_where (chosen_row stream consumer (map cd_seq claimed))
    (claim_row (nowMS + ackWaitMS) nowMS) (deliveries (w_db w));
  clm_prefix : exists rest, ready_rows stream consumer nowMS (w_db w) = rows ++ rest;
  clm_claimed : claimed = map (fun r => MkClaimed (d_seq r) (d_attempts r + 1) (nowMS + ackWaitMS) ackWaitMS) rows;
  clm_batch : 0 <= batch -> Z.of_nat (length claimed) <= batch;
  clm_bytes : (length claimed <= 1)%nat \/
    sumZ (map (fun r => default 0 (m_size <$> find_message stream (d_seq r) (w_db w))) rows) <= maxBytes;
  clm_progress : batch <> 0 -> ready_rows stream consumer nowMS (w_db w) <> [] -> claimed <> [];
}.

Lemma elem_of_ready s n nowMS d r :
  r ∈ ready_rows s n nowMS d -> r ∈ deliveries d /\ claimable s n nowMS d r = true.
Proof. unfold ready_rows. rewrite elem_of_order_by, elem_of_where. tauto. Qed.

Lemma claimable_true s n nowMS d r :
  claimable s n nowMS d r = true <->
  d_stream r = s /\ d_consumer r = n /\ d_state r = 0 /\ d_visible_at r <= nowMS /\
  is_Some (find_message s (d_seq r) d).
Proof.
  unfold claimable. rewrite !andb_true_iff, held_by_true, Z.eqb_eq, Z.leb_le, bool_decide_eq_true. tauto.
Qed.

(** The attempts the claim reports are the rows' after the increment. *)
Lemma attempts_lookup s n chosen deadline nowMS ds r :
  NoDup (map dkey ds) -> r ∈ ds -> d_stream r = s -> d_consumer r = n -> d_seq r ∈ chosen ->
  (list_to_map (map (fun r => (d_seq r, d_attempts r))
     (where_ (chosen_row s n chosen)
        (update_where (chosen_row s n chosen) (claim_row deadline nowMS) ds))) : gmap Z Z) !! d_seq r
  = Some (d_attempts r + 1).
Proof.
  intros Hnd Hr Hs Hn Hin. set (upd := update_where _ _ ds).
  assert (Hupd : NoDup (map dkey (where_ (chosen_row s n chosen) upd))).
  { apply key_where. unfold upd. by rewrite (key_update dkey). }
  apply elem_of_list_to_map_1.
  - change (fmap fst ?l) with (map fst l). rewrite map_map. simpl.
    apply (held_seqs_nodup s n); [done|]. by intros r' [[Hh _]%andb_true_iff _]%elem_of_where.
  - apply list_elem_of_In, in_map_iff. exists (claim_row deadline nowMS r). split; [done|].
    apply list_elem_of_In, elem_of_where.
    assert (Hch : chosen_row s n chosen r = true).
    { unfold chosen_row. rewrite andb_true_iff, held_by_true, bool_decide_eq_true. done. }
    split; [exact Hch|]. apply elem_of_update. exists r. split; [done|]. by rewrite Hch.
Qed.

Lemma claimReady_wp w s n nowMS ackWaitMS batch maxBytes :
  world_ok w ->
  wp (claimReady s n nowMS ackWaitMS batch maxBytes)
     (fun claimed w' => exists rows, claimed_as s n nowMS ackWaitMS batch maxBytes w w' claimed rows)
     (fun _ _ => False) w.
Proof.
  intros Hok. unfold claimReady. wp_steps. unfold readClaimCandidates.
  fold (ready_rows s n nowMS (w_db w)).
  set (size := fun r => default 0 (m_size <$> find_message s (d_seq r) (w_db w))).
  set (cand := limit batch (ready_rows s n nowMS (w_db w))).
  destruct (limit_prefix batch (ready_rows s n nowMS (w_db w))) as [tail Htail]. fold cand in Htail.
  change (map _ cand) with (map (fun r => (d_seq r, size r)) cand).
  assert (Hpos : Forall (fun c : Z * Z => 0 <= c.2) (map (fun r => (d_seq r, size r)) cand)).
  { apply Forall_map, Forall_true. intros r. unfold size. simpl.
    destruct (find_message s (d_seq r) (w_db w)) as [m|] eqn:Hm; [|done]. simpl.
    apply query_row_Some in Hm as [_ Hin]. rewrite (inv_msg_size _ _ _ _ (inv_messages _ _ Hok) m Hin). lia. }
  destruct (map _ cand) as [|c0 cs] eqn:Hcand.
  { wp_steps. exists []. apply map_eq_nil in Hcand. rewrite Hcand in Htail. split; simpl; try done; try lia.
    - symmetry. apply update_none. intros r _.
      unfold chosen_row. rewrite (bool_decide_eq_false_2 (_ ∈ [])) by set_solver. by rewrite andb_false_r.
    - by eexists.
    - intros Hb Hne. unfold cand, limit in Hcand. case_match; bool_prop; [done|].
      destruct (ready_rows s n nowMS (w_db w)); [done|]. by destruct (Z.to_nat batch) eqn:?; [lia|]. }
  rewrite <-Hcand in *. destruct (choose_spec maxBytes (map (fun r => (d_seq r, size r)) cand) Hpos)
    as (k & Hchoose & Hk & Hsum); [by rewrite Hcand|].
  rewrite firstn_map, map_map in Hchoose. simpl in Hchoose. rewrite Hchoose.
  unfold applyClaim. wp_steps. exists (take k cand).
  assert (Hrow : forall r, r ∈ take k cand -> r ∈ deliveries (w_db w) /\ d_stream r = s /\ d_consumer r = n).
  { intros r Hr. assert (Hr' : r ∈ ready_rows s n nowMS (w_db w)).
    { rewrite Htail, <-(take_drop k cand). set_solver. }
    apply elem_of_ready in Hr' as [? (? & ? & _)%claimable_true]. done. }
  split; simpl; try done.
  - rewrite !map_map. done.
  - exists (drop k cand ++ tail). by rewrite app_assoc, take_drop.
  - rewrite map_map. apply map_ext_in. intros r Hr%list_elem_of_In. f_equal.
    destruct (Hrow r Hr) as (Hin & Hs & Hn).
    rewrite (attempts_lookup s n); [done|apply (inv_del_key _ _ _ (inv_deliveries _ _ Hok))|done..|].
    by apply in_mapped.
  - intros Hb. rewrite !length_map. pose proof (limit_length batch (ready_rows s n nowMS (w_db w)) Hb).
    rewrite length_take. fold cand in H0. lia.
  - rewrite !length_map, length_take. rewrite firstn_map, map_map in Hsum. simpl in Hsum.
    destruct Hsum as [->|Hsum]; [left; lia|by right].
  - intros _ _ Hnil%map_eq_nil%map_eq_nil. destruct cand; [done|]. by destruct k.
Qed.

(** *** The whole command *)

(** A fetch of a consumer that is not paused: a top-up, then a claim. *)
Record fetched (c : consumer) (nowMS batch maxBytes : Z) (w w' : world) (res : fetchResult)
    (set : Set_) (next : Z) (w1 : world) (admitted : list message) (rows : list delivery) : Prop := {
  fet_set : ParseSet (c_filters c) = Ok set;
  fet_next : seq_of (c_stream c) (stream_seq (w_db w)) = Some next;
  fet_top : topped_up (c_stream c) (c_name c) set (state_of c)
              (count (held_by (c_stream c) (c_name c)) (deliveries (w_db w))) next w w1
              (fr_cursorSeq res) admitted;
  fet_ok : world_ok w1;
  fet_claim : claimed_as (c_stream c) (c_name c) nowMS (c_ack_wait_ms c) batch maxBytes w1 w'
                (fr_claimed res) rows;
  fet_token : fr_stream res = c_stream c /\ fr_consumer res = c_name c /\ fr_generation res = c_generation c;
  fet_pending : fr_pending res = count (held_by (c_stream c) (c_name c)) (deliveries (w_db w'));
  fet_conflicts : fr_conflicts res = 0;
}.

(** At the flow-control bound nothing is admitted and the cursor stays. *)
Lemma topped_up_blocked w w1 c set next :
  world_ok w -> c ∈ consumers (w_db w) -> seq_of (c_stream c) (stream_seq (w_db w)) = Some next ->
  frame w w1 -> consumers (w_db w1) = consumers (w_db w) -> deliveries (w_db w1) = deliveries (w_db w) ->
  topped_up (c_stream c) (c_name c) set (state_of c)
    (count (held_by (c_stream c) (c_name c)) (deliveries (w_db w))) next w w1 (c_cursor_seq c) [].
Proof.
  intros Hok Hc Hn Hfr Ec Ed. destruct (inv_con _ _ (inv_consumers _ _ Hok) c Hc) as (_ & _ & _ & n & Hn' & Hcur).
  assert (n = next) as -> by congruence. split; simpl; try done; try set_solver.
  - rewrite Ec. symmetry. rewrite <-(map_id (consumers (w_db w))) at 2. apply map_ext_in.
    intros c0 Hc0%list_elem_of_In. destruct (has_key _ _ c0) eqn:Hk; [|done].
    apply has_key_true in Hk. assert (c0 = c) as -> by (eapply (key_unique ckey); eauto; apply (inv_consumers _ _ Hok)).
    by destruct c.
  - by rewrite Ed, app_nil_r.
  - intros. lia.
  - constructor.
  - pose proof (inv_del_bound _ _ _ (inv_deliveries _ _ Hok) c Hc). lia.
Qed.

Lemma claimed_as_ok s n nowMS ackWaitMS batch maxBytes w w' claimed rows :
  world_ok w -> claimed_as s n nowMS ackWaitMS batch maxBytes w w' claimed rows -> world_ok w'.
Proof.
  intros Hok [Hfr Ec Ed _ _ _ _ _]. eapply frame_ok; [done|done|rewrite Ec; apply Hok|].
  rewrite Ec, Ed. apply DelInv_update; try done; [|apply Hok].
  intros r _ Hr. right. simpl. destruct Hr as [[_ ?]|(_ & ? & _)]; repeat split; try lia; done.
Qed.

(** Event rows appended after the claim change nothing it states. *)
Lemma claimed_as_events s n nowMS ackWaitMS batch maxBytes w w1 w2 claimed rows :
  claimed_as s n nowMS ackWaitMS batch maxBytes w w1 claimed rows ->
  frame w1 w2 -> consumers (w_db w2) = consumers (w_db w1) -> deliveries (w_db w2) = deliveries (w_db w1) ->
  claimed_as s n nowMS ackWaitMS batch maxBytes w w2 claimed rows.
Proof. intros [] Hfr Ec Ed. split; try done; [by etrans|congruence..]. Qed.

Lemma deliver_events_wp nowMS s n claimed w :
  wp (for_each claimed [] (fun c evs => ev ← commitEvent (deliver_event nowMS s n c); mret (evs ++ [ev])))
     (fun evs w' => exists f, evs = map (deliver_event nowMS s n) claimed /\
        w' = World (on_events f (w_db w)) (w_mem w)) (fun _ _ => False) w.
Proof.
  eapply (wp_for_each _ _ _ (fun rest evs w' => exists pre f, claimed = pre ++ rest /\
    evs = map (deliver_event nowMS s n) pre /\ w' = World (on_events f (w_db w)) (w_mem w))).
  - exists [], (fun t => t). destruct w as [[] ?]. done.
  - intros c rest evs w' (pre & f & Hc & -> & ->). wp_steps. exists (pre ++ [c]).
    eexists (fun t => f t ++ _). rewrite <-app_assoc, map_app. done.
  - intros evs w' (pre & f & Hc & -> & ->). exists f. rewrite app_nil_r in Hc. by subst.
Qed.

Lemma wp_flowBlockedDue key nowMS interval (Q : bool -> world -> Prop) F w :
  (forall b mm, minted mm = minted (w_mem w) -> Q b (World (w_db w) mm)) ->
  wp (flowBlockedDue key nowMS interval) Q F w.
Proof.
  intros HQ. destruct w as [d m]. unfold wp, flowBlockedDue. simpl.
  destruct (flow m !! key) as [last|]; [destruct (nowMS - last <? interval)|]; by apply HQ.
Qed.

Lemma fetchCmd_wp w s n batch maxBytes limits now :
  world_ok w ->
  wp (fetchCmd s n batch maxBytes limits now)
     (fun '(res, _) w' => exists c, find_consumer s n (w_db w) = Some c /\
        if c_paused c then fr_claimed res = [] /\ fr_hold res = HoldPaused /\ w' = w
        else exists set next w1 admitted rows,
               fetched c (UnixMilli now) batch maxBytes w w' res set next w1 admitted rows)
     (fun e _ => IsCmdError e = true /\ find_consumer s n (w_db w) = None) w.
Proof.
  intros Hok. unfold fetchCmd, loadConsumerTx. wp_steps; [|by intros Hnone].
  intros c Hfind. wp_steps. simpl. destruct (find_consumer_ok _ _ _ _ Hok Hfind) as (Hc & <- & <-).
  destruct (c_paused c) eqn:Hp; [wp_steps; exists c; by rewrite Hp|].
  destruct (inv_con _ _ (inv_consumers _ _ Hok) c Hc) as (_ & _ & [set Hset]%is_ok_true & next & Hnext & Hcur).
  change (find_seq (c_stream c)) with (fun d => seq_of (c_stream c) (stream_seq d)).
  wp_steps; rewrite Hnext; [|done]. intros ? [= <-]. unfold countDeliveries at 1. wp_steps.
  set (pending := count (held_by (c_stream c) (c_name c)) (deliveries (w_db w))).
  cbv beta iota. apply wp_bind.
  eapply (wp_mono _ (fun '(cursor, conflicts, _) w1 => conflicts = 0 /\ exists admitted, topped_up (c_stream c) (c_name c) set (state_of c)
      pending next w w1 cursor admitted) _ (fun _ _ => False)); [| |done].
  { change (cs_maxAckPending (state_of c)) with (c_max_ack_pending c). fold pending.
    destruct (c_max_ack_pending c <=? pending) eqn:Hfull; bool_prop.
    - wp_steps. apply wp_flowBlockedDue. intros due mm Hmm.
      destruct due; wp_steps; (split; [done|]); exists []; by apply topped_up_blocked.
    - wp_steps. eapply wp_mono; [apply topUp_wp; eauto; lia| |done].
      intros [cur k] w1 (-> & set' & admitted & Hset' & Htop). wp_steps. split; [done|].
      assert (set' = set) as -> by congruence. eauto. }
  intros [[cursor conflicts] blocked] w1 (-> & admitted & Htop). wp_steps.
  assert (Hok1 : world_ok w1) by (by eapply topped_up_ok).
  eapply wp_mono; [by apply claimReady_wp| |done]. intros claimed w2 (rows & Hclaim). wp_steps.
  eapply wp_mono; [apply deliver_events_wp| |done]. intros evs w3 (f & _ & ->).
  unfold countDeliveries. wp_steps.
  eapply (wp_mono _ (fun _ w4 => w4 = World (on_events f (w_db w2)) (w_mem w2)) _ (fun _ _ => False)); [| |done].
  { case_match; wp_steps; done. }
  intros nextMS w4 ->. wp_steps. exists c. rewrite Hp. split; [done|].
  exists set, next, w1, admitted, rows. split; try done. simpl.
  by eapply claimed_as_events.
Qed.

Lemma fetched_ok c nowMS batch maxBytes w w' res set next w1 admitted rows :
  fetched c nowMS batch maxBytes w w' res set next w1 admitted rows -> world_ok w'.
Proof. intros []. by eapply claimed_as_ok. Qed.

(** The keys of the pending set after a fetch: the old ones and the admitted. *)
Lemma fetched_keys c nowMS batch maxBytes w w' res set next w1 admitted rows :
  fetched c nowMS batch maxBytes w w' res set next w1 admitted rows ->
  map dkey (deliveries (w_db w')) = map dkey (deliveries (w_db w)) ++
    map (fun m => (c_stream c, c_name c, m_seq m)) admitted.
Proof.
  intros Hf. rewrite (clm_deliveries _ _ _ _ _ _ _ _ _ _ (fet_claim _ _ _ _ _ _ _ _ _ _ _ _ Hf)).
  rewrite (key_update dkey) by done.
  rewrite (top_deliveries _ _ _ _ _ _ _ _ _ _ (fet_top _ _ _ _ _ _ _ _ _ _ _ _ Hf)).
  by rewrite map_app, map_map.
Qed.

Lemma fetched_consumer c nowMS batch maxBytes w w' res set next w1 admitted rows :
  world_ok w -> c ∈ consumers (w_db w) ->
  fetched c nowMS batch maxBytes w w' res set next w1 admitted rows ->
  find_consumer (c_stream c) (c_name c) (w_db w') = Some (set_cursor (fr_cursorSeq res) c).
Proof.
  intros Hok Hc Hf. unfold find_consumer.
  rewrite (clm_consumers _ _ _ _ _ _ _ _ _ _ (fet_claim _ _ _ _ _ _ _ _ _ _ _ _ Hf)).
  rewrite (top_consumers _ _ _ _ _ _ _ _ _ _ (fet_top _ _ _ _ _ _ _ _ _ _ _ _ Hf)).
  rewrite (query_row_update ckey) by done.
  rewrite (query_row_unique ckey _ _ c) by (done || apply (inv_consumers _ _ Hok)). simpl.
  by rewrite (proj2 (has_key_true ckey (ckey c) c) eq_refl).
Qed.


(** *** What is claimed, and what is left *)

Lemma ready_sorted s n nowMS w :
  world_ok w ->
  StronglySorted (fun a b => d_seq a <= d_seq b) (ready_rows s n nowMS (w_db w)) /\
  NoDup (map d_seq (ready_rows s n nowMS (w_db w))).
Proof.
  intros Hok. split; [apply order_by_sorted|]. apply (held_seqs_nodup s n).
  2:{ intros r [_ (<- & <- & _)%claimable_true]%elem_of_ready. by apply held_by_true. }
  apply key_order_by, key_where, (inv_del_key _ _ _ (inv_deliveries _ _ Hok)).
Qed.

Lemma claimed_seqs s n nowMS ackWaitMS batch maxBytes w w' claimed rows :
  claimed_as s n nowMS ackWaitMS batch maxBytes w w' claimed rows -> map cd_seq claimed = map d_seq rows.
Proof. intros [_ _ _ _ -> _ _ _]. by rewrite map_map. Qed.

(** A row that is still READY after a claim was READY before it. *)
Lemma still_ready s n nowMS ackWaitMS batch maxBytes w w' claimed rows r :
  world_ok w -> claimed_as s n nowMS ackWaitMS batch maxBytes w w' claimed rows ->
  r ∈ deliveries (w_db w') -> d_stream r = s -> d_consumer r = n -> d_state r = 0 -> d_visible_at r <= nowMS ->
  r ∈ ready_rows s n nowMS (w_db w) /\ d_seq r ∉ map d_seq rows.
Proof.
  intros Hok Hcl Hr Hs Hn Hst Hv. pose proof (claimed_seqs _ _ _ _ _ _ _ _ _ _ Hcl) as Hseqs.
  destruct Hcl as [Hfr Ec Ed _ _ _ _ _]. rewrite Ed, Hseqs in Hr.
  apply elem_of_update in Hr as (r0 & Hr0 & ->).
  destruct (chosen_row s n (map d_seq rows) r0) eqn:Hch; [done|]. split.
  - unfold ready_rows. apply elem_of_order_by, elem_of_where. split; [|done]. apply claimable_true.
    repeat split; try done. destruct (find_message s (d_seq r0) (w_db w)) eqn:Hf; [by eexists|].
    pose proof (inv_del_msg _ _ _ (inv_deliveries _ _ Hok) r0 Hr0) as (m & Hk & Hm%list_elem_of_In)%list_elem_of_In%in_map_iff.
    rewrite Hs in Hk. apply (query_row_None _ _ m) in Hf; [|done]. by rewrite (proj2 (has_key_true _ _ _) Hk) in Hf.
  - unfold chosen_row in Hch. apply andb_false_iff in Hch as [Hch|Hch].
    + by rewrite (proj2 (held_by_true _ _ _) (conj Hs Hn)) in Hch.
    + by apply bool_decide_eq_false in Hch.
Qed.

(** A claimed row as the claim left it. *)
Definition inflight_as (s n : string) (g nowMS : Z) (cd : claimedDelivery) (r : delivery) : Prop :=
  dkey r = (s, n, cd_seq cd) /\ d_state r = 1 /\ d_attempts r = cd_attempt cd /\ d_generation r = g /\
  d_visible_at r = cd_deadlineMS cd /\ d_delivered_at r = Some nowMS.

Lemma claimed_rows s n nowMS ackWaitMS batch maxBytes w w' claimed rows cd :
  world_ok w -> claimed_as s n nowMS ackWaitMS batch maxBytes w w' claimed rows -> cd ∈ claimed ->
  exists r r0 c, r ∈ deliveries (w_db w') /\ r0 ∈ deliveries (w_db w) /\ d_state r0 = 0 /\
    dkey r0 = (s, n, cd_seq cd) /\ c ∈ consumers (w_db w) /\ ckey c = (s, n) /\
    inflight_as s n (c_generation c) nowMS cd r.
Proof.
  intros Hok Hcl Hcd. pose proof (claimed_seqs _ _ _ _ _ _ _ _ _ _ Hcl) as Hseqs.
  destruct Hcl as [Hfr Ec Ed [rest Hpre] Hcl _ _ _]. rewrite Hseqs in Ed. subst claimed.
  apply list_elem_of_In, in_map_iff in Hcd as (r0 & <- & Hr0%list_elem_of_In).
  assert (Hready : r0 ∈ ready_rows s n nowMS (w_db w)) by (rewrite Hpre; set_solver).
  apply elem_of_ready in Hready as [Hin (Hs & Hn & Hst & _)%claimable_true].
  destruct (inv_del_con _ _ _ (inv_deliveries _ _ Hok) r0 Hin) as (c & Hc & Hk & Hg & _).
  rewrite Hs, Hn in Hk. exists (claim_row (nowMS + ackWaitMS) nowMS r0), r0, c.
  split; [|by repeat split; subst].
  rewrite Ed. apply elem_of_update. exists r0. split; [done|].
  assert (chosen_row s n (map d_seq rows) r0 = true) as ->; [|done].
  apply andb_true_iff. rewrite held_by_true, bool_decide_eq_true. split; [done|].
  by apply in_mapped.
Qed.

Lemma fetch_keeps s n batch maxBytes limits now w w' res :
  world_ok w -> fetchCmd s n batch maxBytes limits now w = (w', Ok res) -> world_ok w'.
Proof.
  intros Hok Hrun. destruct res as [res evs].
  destruct (wp_run _ _ _ _ _ _ (fetchCmd_wp w s n batch maxBytes limits now Hok) Hrun) as (c & _ & Hres).
  destruct (c_paused c); [by destruct Hres as (_ & _ & ->)|].
  destruct Hres as (set & next & w1 & admitted & rows & Hf). by eapply fetched_ok.
Qed.

(** Every claimed row is a lease: INFLIGHT under the token the answer carries. *)
Lemma fetched_lease c nowMS batch maxBytes w w' res set next w1 admitted rows cd :
  world_ok w -> c ∈ consumers (w_db w) ->
  fetched c nowMS batch maxBytes w w' res set next w1 admitted rows -> cd ∈ fr_claimed res ->
  exists r, r ∈ deliveries (w_db w') /\ inflight_as (c_stream c) (c_name c) (fr_generation res) nowMS cd r.
Proof.
  intros Hok Hc Hf Hcd. pose proof (fet_ok _ _ _ _ _ _ _ _ _ _ _ _ Hf) as Hok1.
  pose proof (fet_claim _ _ _ _ _ _ _ _ _ _ _ _ Hf) as Hcl.
  destruct (claimed_rows _ _ _ _ _ _ _ _ _ _ _ Hok1 Hcl Hcd) as (r & _ & c1 & Hr & _ & _ & _ & Hc1 & Hk1 & Hin).
  exists r. split; [done|]. destruct (fet_token _ _ _ _ _ _ _ _ _ _ _ _ Hf) as (_ & _ & ->).
  assert (c_generation c1 = c_generation c) as <-; [|done].
  pose proof (fet_top _ _ _ _ _ _ _ _ _ _ _ _ Hf) as Htop. rewrite (top_consumers _ _ _ _ _ _ _ _ _ _ Htop) in Hc1.
  apply elem_of_update in Hc1 as (c0 & Hc0 & ->).
  assert (c0 = c) as ->; [|by case_match]. eapply (key_unique ckey); eauto; [apply (inv_consumers _ _ Hok)|].
  etrans; [|exact Hk1]. by case_match.
Qed.

(** A fetch hands out each claimed row exactly as a lease.  The sequence
    numbers it claims are strictly increasing and at most [batch]; each claimed
    row is INFLIGHT afterwards with the attempt count, the generation and the
    deadline the answer reports (so its ack token fences against exactly that
    row); no READY row that is due stays behind a claimed one; and when nothing
    was claimed and the consumer is not paused, no row is due. *)
Lemma fetch_claims (s n : string) (batch maxBytes : Z) (limits : ConsumerLimits) (now : Z)
    (w w' : world) (res : fetchResult) (evs : list event) :
  world_ok w -> 0 < batch -> fetchCmd s n batch maxBytes limits now w = (w', Ok (res, evs)) ->
  StronglySorted Z.lt (map cd_seq (fr_claimed res)) /\
  Z.of_nat (length (fr_claimed res)) <= batch /\
  (forall cd, cd ∈ fr_claimed res -> exists r, r ∈ deliveries (w_db w') /\
     inflight_as s n (fr_generation res) (UnixMilli now) cd r) /\
  (forall r, r ∈ deliveries (w_db w') -> d_stream r = s -> d_consumer r = n ->
     d_state r = 0 -> d_visible_at r <= UnixMilli now ->
     (forall cd, cd ∈ fr_claimed res -> cd_seq cd < d_seq r) /\
     (fr_claimed res = [] -> fr_hold res = HoldPaused)).
Proof.
  intros Hok Hbatch Hrun.
  destruct (wp_run _ _ _ _ _ _ (fetchCmd_wp w s n batch maxBytes limits now Hok) Hrun) as (c & Hfind & Hres).
  destruct (find_consumer_ok _ _ _ _ Hok Hfind) as (Hc & <- & <-). destruct (c_paused c).
  { destruct Hres as (-> & Hh & ->). split; [constructor|]. split; [simpl; lia|]. set_solver. }
  destruct Hres as (set & next & w1 & admitted & rows & Hf). pose proof (fet_ok _ _ _ _ _ _ _ _ _ _ _ _ Hf) as Hok1.
  pose proof (fet_claim _ _ _ _ _ _ _ _ _ _ _ _ Hf) as Hcl. pose proof Hcl as [_ Ec _ [rest Hpre] Hceq Hlen _ Hprog].
  destruct (ready_sorted (c_stream c) (c_name c) (UnixMilli now) w1 Hok1) as [Hsort Hnd].
  pose proof (claimed_seqs _ _ _ _ _ _ _ _ _ _ Hcl) as Hseqs.
  split; [|split; [apply Hlen; lia|split]].
  - rewrite Hseqs. rewrite Hpre in Hsort, Hnd. rewrite map_app in Hnd.
    apply sorted_lt; [by eapply StronglySorted_app_1_l|by apply NoDup_app in Hnd as [? _]].
  - intros cd Hcd. exact (fetched_lease _ _ _ _ _ _ _ _ _ _ _ _ _ Hok Hc Hf Hcd).
  - intros r Hr Hs Hn Hst Hv.
    destruct (still_ready _ _ _ _ _ _ _ _ _ _ r Hok1 Hcl Hr Hs Hn Hst Hv) as [Hready Hnot].
    split.
    + intros cd Hcd%(in_mapped cd_seq). rewrite Hseqs in Hcd. apply mapped_in in Hcd as (r0 & -> & Hr0).
      eapply (sorted_strict d_seq); [exact Hsort|exact Hnd|exact Hpre|done|].
      rewrite Hpre in Hready. apply elem_of_app in Hready as [Hin|]; [|done].
      destruct Hnot. by apply in_mapped.
    + intros Hnil. exfalso. apply Hprog; [lia| |done]. intros He. rewrite He in Hready. set_solver.
Qed.

End Facts.

(** *** The theorems at work *)

Import Samples.

(** The consumer "billing" fetches the one published order. *)
Definition after_fetch : world := fst (fetchCmd "orders" "billing" 10 4096 DefaultConsumerLimits 8000000 Publish.after_publish).

Lemma after_fetch_ok : world_ok after_fetch.
Proof.
  unfold after_fetch. destruct (fetchCmd _ _ _ _ _ _ _) as [w' [res|e]] eqn:Hrun; [|vm_compute in Hrun; discriminate].
  eapply fetch_keeps; [apply Publish.after_publish_ok|exact Hrun].
Qed.


End Fetch.
