(* ===== verification/LongPoll.v ===== *)
(** * The long-poll fetch handler

    [internal/api/fetch.go]: the clamps of a request, the wait between two
    attempts, the one response shape, and the loop of the handler.  The loop is
    modelled twice: as a function of what each attempt meets (the store's
    answer, the clock, the event that ends the park), and as a step relation
    beside the waiter registry, the writer's committed publishes and the pump
    that delivers their events, in which no wake-up is lost. *)

From S2P Require Import Fetch Waiters.

Module LongPoll.
Import Policy Subject Fetch Waiters.

(** ** Requests and responses *)

Record fetchRequest : Set := MkFetchRequest { rq_Batch : Z; rq_MaxBytes : Z; rq_WaitMS : Z }.

(** What [Store.Fetch] returns, as far as the handler reads it. *)
Record FetchResult : Set := MkResult {
  res_Messages : list Delivered;
  res_Hold : HoldReason;
  res_Pending : Z;
  res_Backlog : Z;
  res_NextVisibleAtMS : Z;
}.

Record fetchResponse : Set := MkResponse {
  rs_Messages : list Delivered;
  rs_HoldReason : string;
  rs_RetryAfterMS : Z;
  rs_Pending : Z;
  rs_Backlog : Z;
  rs_Batch : Z;
  rs_MaxBytes : Z;
  rs_WaitMS : Z;
  rs_headers : list (string * string);
}.

Definition holdShuttingDown : string := "shutting_down".

(** The effective request ([clampedFetch] has the fields of [fetchRequest]). *)
Definition clampFetch (req : fetchRequest) (limits : ConsumerLimits) (maxWait : Z) : fetchRequest :=
  let batch := if rq_Batch req <=? 0 then 1 else rq_Batch req in
  let batch := if MaxFetchBatch limits <? batch then MaxFetchBatch limits else batch in
  let bytes := if rq_MaxBytes req <=? 0 then FetchMaxBytes limits else rq_MaxBytes req in
  let bytes := if FetchMaxBytes limits <? bytes then FetchMaxBytes limits else bytes in
  let wait := if Milliseconds maxWait <? rq_WaitMS req then Milliseconds maxWait else rq_WaitMS req in
  MkFetchRequest batch bytes wait.

(** The checks before the consumer is looked up.  [body] is what decoding the
    request body gave. *)
Definition admitFetch (stream consumer rawQuery : string) (body : result fetchRequest)
    (limits : ConsumerLimits) (maxWait : Z) : result fetchRequest :=
  let? _ := ValidateExistingStreamName stream in
  let? _ := ValidateConsumerName consumer in
  if negb (bool_decide (rawQuery = "")) then Err (E ErrBadRequest "fetch takes parameters in the JSON body only")
  else
    let? req := body in
    if rq_WaitMS req <? 0 then Err (E ErrBadRequest "wait_ms") else Ok (clampFetch req limits maxWait).

(** The filter snapshot: [get] is the first read of the consumer, [create] and
    [again] what creating it and reading it again answer under [--dev]. *)
Definition snapshotFilters (dev : bool) (get : result (list string)) (create : result unit)
    (again : result (list string)) : result Set_ :=
  let? filters := match get with
                  | Ok fs => Ok fs
                  | Err e => if negb dev || negb (is_kind ErrNotFound e) then Err e else (let? _ := create in again)
                  end in
  match ParseSet filters with
  | Ok set => Ok set
  | Err _ => Err (E ErrBadRequest "consumer filters do not parse")
  end.

(** Instants in nanoseconds; [jittered] is the damper after its random factor. *)
Definition parkDuration (damper jittered now deadline : Z) (res : FetchResult) (attempt : nat) : Z :=
  let d := deadline - now in
  if d <=? 0 then 0
  else
    let next := res_NextVisibleAtMS res * Millisecond in
    let d := if (0 <? res_NextVisibleAtMS res) && (now <? next) && (next <? deadline) then next - now else d in
    if (0 <? attempt)%nat && (0 <? damper)
    then let damp := Z.min jittered d in if damp <? d then damp else d
    else d.

Definition holdWire (h : HoldReason) : string :=
  match h with
  | HoldNone => ""
  | HoldPaused => "paused"
  | HoldFlowControl => "flow_control"
  | HoldBackoff => "backoff"
  | HoldCatchingUp => "catching_up"
  | HoldEmpty => "empty"
  end.

Definition retryAfterMS (now : Z) (res : FetchResult) : Z :=
  match res_Hold res with
  | HoldBackoff | HoldCatchingUp =>
      if UnixMilli now <? res_NextVisibleAtMS res then res_NextVisibleAtMS res - UnixMilli now else 0
  | HoldNone | HoldPaused | HoldFlowControl | HoldEmpty => 0
  end.

(** [now] is the clock when the response is written. *)
Definition writeFetch (now : Z) (res : FetchResult) (eff : fetchRequest) (holdOverride : string) : fetchResponse :=
  let hold := if bool_decide (holdOverride = "") then holdWire (res_Hold res) else holdOverride in
  MkResponse (res_Messages res) hold (retryAfterMS now res) (res_Pending res) (res_Backlog res)
    (rq_Batch eff) (rq_MaxBytes eff) (rq_WaitMS eff)
    [("Messq-Pending", format_int (res_Pending res)); ("Messq-Backlog", format_int (res_Backlog res));
     ("Messq-Hold-Reason", hold)].

(** ** The loop *)

(** What ends a park. *)
Inductive wake : Set := WakeToken | WakeClosed | WakeTimer | WakeClientGone | WakeClosing.

(** One attempt as the handler meets it: the answer of the store (an error is
    the one [classifySubmit] made of it), the clock
    after it, the event that ends the park, and the clock when an answer is
    written. *)
Record turn : Set := MkTurn {
  tn_fetch : error + FetchResult;
  tn_now : Z;
  tn_wake : wake;
  tn_written : Z;
}.

Inductive outcome : Set :=
| Answered (r : fetchResponse)
| Failed (e : error)
| ClientGone
| Waiting_.

Definition settled (deadline : Z) (res : FetchResult) (now : Z) : bool :=
  match res_Messages res with
  | [] => bool_decide (res_Hold res = HoldPaused) || bool_decide (res_Hold res = HoldFlowControl) || (deadline <=? now)
  | _ => true
  end.

Fixpoint serve_fetch (deadline : Z) (eff : fetchRequest) (script : list turn) : outcome :=
  match script with
  | [] => Waiting_
  | t :: script =>
      match tn_fetch t with
      | inl e => Failed e
      | inr res =>
          if settled deadline res (tn_now t) then Answered (writeFetch (tn_written t) res eff "")
          else match tn_wake t with
               | WakeToken | WakeTimer => serve_fetch deadline eff script
               | WakeClosed | WakeClosing => Answered (writeFetch (tn_written t) res eff holdShuttingDown)
               | WakeClientGone => ClientGone
               end
      end
  end.

(** ** Facts *)

(** The effective request is within every cap, whatever was asked. *)
Lemma clampFetch_bounds req limits maxWait :
  1 <= MaxFetchBatch limits -> 0 <= FetchMaxBytes limits -> 0 <= rq_WaitMS req -> 0 <= maxWait ->
  let eff := clampFetch req limits maxWait in
  1 <= rq_Batch eff <= MaxFetchBatch limits /\ 0 <= rq_MaxBytes eff <= FetchMaxBytes limits /\
  0 <= rq_WaitMS eff <= rq_WaitMS req /\ rq_WaitMS eff * Millisecond <= maxWait.
Proof.
  intros Hb Hm Hw Hx. unfold clampFetch, Milliseconds. simpl.
  pose proof (Z.quot_pos maxWait Millisecond Hx ltac:(unfold Millisecond; lia)) as Hq.
  pose proof (Z.mul_quot_le maxWait Millisecond Hx ltac:(unfold Millisecond; lia)) as Hle. rewrite Z.mul_comm in Hle.
  set (q := Z.quot maxWait Millisecond) in *. clearbody q. unfold Millisecond in *.
  repeat case_match; bool_prop; split_and!; nia.
Qed.

(** A park ends by the deadline and, when the store knows the next claimable
    instant, by then; the first park is never cut short by the damper. *)
Lemma parkDuration_bounds damper jittered now deadline res attempt :
  now < deadline -> 0 < jittered ->
  let d := parkDuration damper jittered now deadline res attempt in
  0 < d <= deadline - now /\
  (0 < res_NextVisibleAtMS res -> now < res_NextVisibleAtMS res * Millisecond ->
   now + d <= res_NextVisibleAtMS res * Millisecond \/ deadline <= res_NextVisibleAtMS res * Millisecond) /\
  (attempt = 0%nat -> now + d = deadline \/ now + d = res_NextVisibleAtMS res * Millisecond).
Proof.
  intros Hnow Hj. unfold parkDuration. set (nx := res_NextVisibleAtMS res * Millisecond).
  rewrite (proj2 (Z.leb_gt (deadline - now) 0)) by lia. cbv zeta.
  destruct ((0 <? res_NextVisibleAtMS res) && (now <? nx) && (nx <? deadline)) eqn:Hnext.
  - bool_prop. destruct Hnext as [[? ?] ?]. destruct attempt; simpl; repeat case_match; bool_prop; split_and!; try lia; right; lia.
  - assert (Hno : 0 < res_NextVisibleAtMS res -> now < nx -> deadline <= nx) by (intros; bool_prop; lia).
    destruct attempt; simpl; repeat case_match; bool_prop; split_and!; try lia; intros; left; lia.
Qed.

(** An attempt after which the handler waited and tried again. *)
Definition waited (deadline : Z) (t : turn) : Prop :=
  exists res, tn_fetch t = inr res /\ res_Messages res = [] /\ tn_now t < deadline /\
    (tn_wake t = WakeToken \/ tn_wake t = WakeTimer).

Lemma settled_false deadline res now :
  settled deadline res now = false ->
  res_Messages res = [] /\ res_Hold res <> HoldPaused /\ res_Hold res <> HoldFlowControl /\ now < deadline.
Proof. unfold settled. destruct (res_Messages res); [|done]. intros H. bool_prop. naive_solver. Qed.

(** Nothing claimed is dropped by the loop: every attempt before the last one
    claimed nothing, and what the last one claimed is in the answer, or there is
    no answer because it failed or the client left with nothing claimed. *)
Lemma serve_fetch_last deadline eff script :
  (serve_fetch deadline eff script = Waiting_ /\ Forall (waited deadline) script) \/
  exists pre t post, script = pre ++ t :: post /\ Forall (waited deadline) pre /\
    match serve_fetch deadline eff script with
    | Answered r => exists res, tn_fetch t = inr res /\ rs_Messages r = res_Messages res /\
        (rs_Messages r = [] -> res_Hold res = HoldPaused \/ res_Hold res = HoldFlowControl \/ deadline <= tn_now t \/
           rs_HoldReason r = holdShuttingDown)
    | Failed e => tn_fetch t = inl e
    | ClientGone => exists res, tn_fetch t = inr res /\ res_Messages res = []
    | Waiting_ => False
    end.
Proof.
  induction script as [|t script IH]; simpl; [by left|]. destruct (tn_fetch t) as [e|res] eqn:Hf.
  { right. by exists [], t, script. }
  destruct (settled deadline res (tn_now t)) eqn:Hset.
  { right. exists [], t, script. split_and!; [done..|]. exists res. split_and!; [done..|]. unfold writeFetch, settled in *. simpl.
    intros Hm. rewrite Hm in Hset. bool_prop. naive_solver. }
  apply settled_false in Hset as (Hm & _ & _ & Hnow).
  destruct (tn_wake t) eqn:Hw; try (right; exists [], t, script; split_and!; [done..|]; exists res; split_and!; naive_solver).
  all: assert (Hwt : waited deadline t) by (exists res; naive_solver).
  all: destruct IH as [[Hs Ha]|(pre & t' & post & -> & Hpre & Hc)]; [left; split; [done|by constructor]|].
  all: right; exists (t :: pre), t', post; split_and!; [done|by constructor|done].
Qed.

(** The wait budget ends the loop: an attempt at or after the deadline is the last. *)
Lemma serve_fetch_deadline deadline eff script :
  Exists (fun t => deadline <= tn_now t) script -> serve_fetch deadline eff script <> Waiting_.
Proof.
  intros Hex Hw. destruct (serve_fetch_last deadline eff script) as [[_ Ha]|(pre & t & post & _ & _ & Hc)].
  - apply Exists_exists in Hex as (t & Ht & Hd). rewrite Forall_forall in Ha. destruct (Ha t Ht) as (_ & _ & _ & Hn & _). lia.
  - by rewrite Hw in Hc.
Qed.

(** ** Parking beside the writer

    The handlers, the registry, the committed events and the pump.  Fetches and
    publishes are commands of the one writer, so a fetch sees every event
    committed before it: a handler remembers how many that was. *)

Inductive phase : Set := Fetching | Fetched (seen : nat) | Parked_ (seen : nat).

Definition logged : Set := string * string * string.

(** [sy_log] are the committed events (name, stream, subject); the other lists
    are positions in it: the batches the pump has queued, the rest of the batch
    it is handing out, what it has handed out, and what overflowed. *)
Record system : Set := MkSystem {
  sy_reg : Registry;
  sy_handlers : gmap nat phase;
  sy_log : list logged;
  sy_queue : list (list nat);
  sy_current : list nat;
  sy_delivered : list nat;
  sy_dropped : list nat;
}.

Definition with_reg (r : Registry) (s : system) : system :=
  MkSystem r (sy_handlers s) (sy_log s) (sy_queue s) (sy_current s) (sy_delivered s) (sy_dropped s).
Definition with_handlers (h : gmap nat phase) (s : system) : system :=
  MkSystem (sy_reg s) h (sy_log s) (sy_queue s) (sy_current s) (sy_delivered s) (sy_dropped s).

Definition start (maxWaiters maxPer : Z) : system := MkSystem (NewRegistry maxWaiters maxPer) ∅ [] [] [] [] [].

(** The buffer of the writer's event channel, in batches. *)
Definition eventBufferBatches : nat := 64.

(** The events of a group commit go to the pump as one batch, or overflow. *)
Definition commitEvents (evs : list logged) (s : system) : system :=
  let new := seq (length (sy_log s)) (length evs) in
  let full := (eventBufferBatches <=? length (sy_queue s))%nat in
  MkSystem (sy_reg s) (sy_handlers s) (sy_log s ++ evs)
    (match evs with [] => sy_queue s | _ => if full then sy_queue s else sy_queue s ++ [new] end) (sy_current s)
    (sy_delivered s) (if full then sy_dropped s ++ new else sy_dropped s).

(** What [Registry.Publish] does with one event. *)
Definition skips (ev : logged) : bool := negb (bool_decide (ev.1.1 = "msg.publish")) || bool_decide (ev.1.2 = "").
Definition publishOne (ev : logged) (r : Registry) : option Registry :=
  if skips ev then Some r else wakeMatching ev.1.2 ev.2 r.

Inductive sys_step : system -> system -> Prop :=
| sys_check k f r s : unlocked k.1 (sy_reg s) -> sub_check k f (sy_reg s) = inr r -> sys_step s (with_reg r s)
| sys_subscribe k f s : mu (shard_at (shardOf k.1) (sy_reg s)) = Some (k, f) ->
    sys_step s (with_handlers (<[next (sy_reg s) := Fetching]> (sy_handlers s)) (with_reg (sub_commit k f (sy_reg s)) s))
| sys_fetch i s : sy_handlers s !! i = Some Fetching ->
    sys_step s (with_handlers (<[i := Fetched (length (sy_log s))]> (sy_handlers s)) s)
| sys_park i n s : sy_handlers s !! i = Some (Fetched n) -> sys_step s (with_handlers (<[i := Parked_ n]> (sy_handlers s)) s)
| sys_token i n s : sy_handlers s !! i = Some (Parked_ n) -> (Recv i (sy_reg s)).2 = Token ->
    sys_step s (with_handlers (<[i := Fetching]> (sy_handlers s)) (with_reg (Recv i (sy_reg s)).1 s))
| sys_timer i n s : sy_handlers s !! i = Some (Parked_ n) -> sys_step s (with_handlers (<[i := Fetching]> (sy_handlers s)) s)
| sys_leave i ph s : sy_handlers s !! i = Some ph ->
    (forall w, heap (sy_reg s) !! i = Some w -> unlocked (w_key w).1 (sy_reg s)) ->
    sys_step s (with_handlers (delete i (sy_handlers s)) (with_reg (Close i (sy_reg s)) s))
| sys_wake k r s : unlocked k.1 (sy_reg s) -> Wake k (sy_reg s) = Some r -> sys_step s (with_reg r s)
| sys_commit evs s : sys_step s (commitEvents evs s)
| sys_take b q s : sy_current s = [] -> sy_queue s = b :: q ->
    sys_step s (MkSystem (sy_reg s) (sy_handlers s) (sy_log s) q b (sy_delivered s) (sy_dropped s))
| sys_deliver j js ev r s : sy_current s = j :: js -> sy_log s !! j = Some ev -> (skips ev = false -> unlocked ev.1.2 (sy_reg s)) ->
    publishOne ev (sy_reg s) = Some r ->
    sys_step s (MkSystem r (sy_handlers s) (sy_log s) (sy_queue s) js (sy_delivered s ++ [j]) (sy_dropped s))
| sys_release n r s : mu (shard_at n (sy_reg s)) = None -> releaseShard n (sy_reg s) = Some r -> sys_step s (with_reg r s)
| sys_reset s : sys_step s (with_reg (set_total 0 (sy_reg s)) s).

(** *** What the registry's steps leave of a waiter *)

Definition kept_waiter (w w' : waiter) : Prop :=
  w_key w' = w_key w /\ w_filters w' = w_filters w /\ (w_token w = true -> w_token w' = true) /\
  (parked_open w' -> parked_open w).

Definition kept (r r' : Registry) : Prop :=
  forall i w, heap r !! i = Some w -> exists w', heap r' !! i = Some w' /\ kept_waiter w w'.

Lemma kept_refl w : kept_waiter w w.
Proof. split_and!; auto. Qed.

Lemma kept_same r r' : heap r' = heap r -> kept r r'.
Proof. intros E i w Hw. exists w. rewrite E. split; [done|apply kept_refl]. Qed.

Lemma kept_some_token (P : nat -> Prop) `{!forall i, Decision (P i)} r h' :
  (forall i, h' !! i = if decide (P i) then with_token <$> heap r !! i else heap r !! i) -> kept r (set_heap h' r).
Proof.
  intros Hh i w Hw. simpl. rewrite Hh, Hw. destruct (decide (P i)); eexists; (split; [done|]); [|apply kept_refl]. by split_and!.
Qed.

Lemma kept_wake k r r' : reg_ok r -> Wake k r = Some r' -> kept r r'.
Proof.
  intros Hok Hw. destruct (Wake_spec k r Hok) as (h' & E & _ & Hh). rewrite E in Hw. injection Hw as <-.
  by apply (kept_some_token (fun i => i ∈ ids_of k (shard_at (shardOf k.1) r))).
Qed.

Lemma kept_matching s subj r r' : reg_ok r -> wakeMatching s subj r = Some r' -> kept r r'.
Proof.
  intros Hok Hw. destruct (wakeMatching_spec s subj r Hok) as (h' & E & _ & Hh). rewrite E in Hw. injection Hw as <-.
  by apply (kept_some_token (fun i => i ∈ List.filter (interested s subj (heap r)) (shard_ids (shard_at (shardOf s) r)))).
Qed.

Lemma kept_release n r r' : reg_ok r -> releaseShard n r = Some r' -> kept r r'.
Proof.
  intros Hok Hr. destruct (releaseShard_spec n r Hok) as (h' & E & Hh). rewrite E in Hr. injection Hr as <-.
  intros i w Hw. simpl. rewrite Hh, Hw. case_decide; eexists; (split; [done|]); [|apply kept_refl]. split_and!; auto. by intros [? _].
Qed.

Lemma kept_close i r : kept r (Close i r).
Proof.
  unfold Close. destruct (heap r !! i) as [w|] eqn:Hw; [|by apply kept_same]. destruct (w_once w) eqn:Ho; [by apply kept_same|].
  assert (Hk : forall r', heap r' = <[i := MkWaiter (w_key w) (w_filters w) (w_token w) (w_closed w) true]> (heap r) -> kept r r').
  { intros r' E j w' Hw'. rewrite E. destruct (decide (j = i)) as [->|].
    - rewrite lookup_insert_eq. rewrite Hw in Hw'. injection Hw' as <-. eexists. split; [done|]. split_and!; auto. by intros [_ ?].
    - rewrite lookup_insert_ne by done. exists w'. split; [done|apply kept_refl]. }
  case_match; by apply Hk.
Qed.

Lemma kept_commit k f r : reg_ok r -> kept r (sub_commit k f r).
Proof.
  intros Hok i w Hw. exists w. simpl. rewrite lookup_insert_ne; [split; [done|apply kept_refl]|].
  pose proof (ok_next r Hok i ltac:(by eexists)). lia.
Qed.

Lemma kept_check k f r r' : sub_check k f r = inr r' -> kept r r'.
Proof. intros (_ & _ & ->)%sub_check_inv. by apply kept_same. Qed.

Lemma kept_publish ev r r' : reg_ok r -> publishOne ev r = Some r' -> kept r r'.
Proof.
  unfold publishOne. intros Hok. destruct (skips ev); [intros [= <-]; by apply kept_same|]. by apply kept_matching.
Qed.

Lemma reg_ok_publish ev r r' : reg_ok r -> publishOne ev r = Some r' -> reg_ok r'.
Proof.
  unfold publishOne. intros Hok. destruct (skips ev); [by intros [= <-]|]. intros Hw.
  destruct (wakeMatching_spec ev.1.2 ev.2 r Hok) as (h' & He & Hs & _). rewrite He in Hw. injection Hw as <-. by apply reg_ok_tokens.
Qed.

(** *** The invariant *)

(** An event the waiter asked to be woken for. *)
Definition calls (ev : logged) (w : waiter) : Prop :=
  skips ev = false /\ ev.1.2 = (w_key w).1 /\ SetMatch (w_filters w) ev.2 = true.

Definition seen_of (ph : phase) : option nat :=
  match ph with Fetching => None | Fetched n | Parked_ n => Some n end.

(** Without a token, everything handed out so far was committed before the last fetch. *)
Definition caught_up (r : Registry) (hs : gmap nat phase) (log : list logged) (delivered : list nat) : Prop :=
  forall i ph n w j ev, hs !! i = Some ph -> seen_of ph = Some n -> heap r !! i = Some w -> parked_open w ->
    w_token w = false -> j ∈ delivered -> log !! j = Some ev -> calls ev w -> (j < n)%nat.

Record sys_ok (s : system) : Prop := {
  so_reg : reg_ok (sy_reg s);
  so_handlers : forall i, is_Some (sy_handlers s !! i) -> is_Some (heap (sy_reg s) !! i);
  so_events : forall j, j ∈ sy_delivered s ++ sy_current s ++ concat (sy_queue s) ++ sy_dropped s <-> (j < length (sy_log s))%nat;
  so_caught : caught_up (sy_reg s) (sy_handlers s) (sy_log s) (sy_delivered s);
}.

Lemma kept_handlers r r' (hs : gmap nat phase) :
  kept r r' -> (forall i, is_Some (hs !! i) -> is_Some (heap r !! i)) -> forall i, is_Some (hs !! i) -> is_Some (heap r' !! i).
Proof. intros Hk Hh i Hi. destruct (Hh i Hi) as [w Hw]. destruct (Hk i w Hw) as (w' & ? & _). by eexists. Qed.

(** A step of the registry that takes no token leaves the handlers caught up. *)
Lemma kept_caught r r' hs log d :
  kept r r' -> (forall i, is_Some (hs !! i) -> is_Some (heap r !! i)) -> caught_up r hs log d -> caught_up r' hs log d.
Proof.
  intros Hk Hh Hc i ph n w' j ev Hi Hn Hw' Ho Ht Hj Hev (Hsk & Hs & Hm). destruct (Hh i ltac:(by eexists)) as [w Hw].
  destruct (Hk i w Hw) as (w1 & Hw1 & Ek & Ef & Et & Eo). rewrite Hw' in Hw1. injection Hw1 as <-.
  apply (Hc i ph n w j ev); auto.
  - destruct (w_token w); [|done]. by rewrite Et in Ht.
  - unfold calls. by rewrite <-Ek, <-Ef.
Qed.

Lemma reg_step_ok r' s :
  kept (sy_reg s) r' -> reg_ok r' -> sys_ok s -> sys_ok (with_reg r' s).
Proof.
  intros Hk Hr' [Hr Hh He Hc]. split; simpl; [done| |done|].
  - by eapply kept_handlers.
  - by eapply kept_caught.
Qed.

(** A handler that goes back to fetching, or that has just fetched. *)
Lemma handler_step_ok i ph s :
  is_Some (sy_handlers s !! i) -> (forall n, seen_of ph = Some n -> n = length (sy_log s) \/
    exists ph', sy_handlers s !! i = Some ph' /\ seen_of ph' = Some n) ->
  sys_ok s -> sys_ok (with_handlers (<[i := ph]> (sy_handlers s)) s).
Proof.
  intros Hi Hph [Hr Hh He Hc]. split; simpl; [done| |done|].
  - intros j Hj. apply Hh. destruct (decide (j = i)) as [->|]; [done|]. by rewrite lookup_insert_ne in Hj.
  - intros j ph1 n w e ev Hj Hn Hw Ho Ht Hd Hev Hcl. destruct (decide (j = i)) as [->|Hne].
    + rewrite lookup_insert_eq in Hj. injection Hj as <-. destruct (Hph n Hn) as [->|(ph' & Hp & Hn')].
      * apply (He e). rewrite elem_of_app. by left.
      * by eapply (Hc i ph').
    + rewrite lookup_insert_ne in Hj by done. by eapply (Hc j ph1).
Qed.

Lemma subscribe_step_ok k f s :
  mu (shard_at (shardOf k.1) (sy_reg s)) = Some (k, f) -> sys_ok s ->
  sys_ok (with_handlers (<[next (sy_reg s) := Fetching]> (sy_handlers s)) (with_reg (sub_commit k f (sy_reg s)) s)).
Proof.
  intros Hmu Hok. pose proof (so_reg s Hok) as Hr. pose proof (kept_commit k f _ Hr) as Hk. destruct Hok as [_ Hh He Hc].
  split; simpl; [by apply reg_ok_commit| |done|].
  - intros i Hi. destruct (decide (i = next (sy_reg s))) as [->|Hne]; [rewrite lookup_insert_eq; by eexists|].
    rewrite lookup_insert_ne in Hi by done. rewrite lookup_insert_ne by done. by apply Hh.
  - intros i ph n w j ev Hi Hn. destruct (decide (i = next (sy_reg s))) as [->|Hne].
    + rewrite lookup_insert_eq in Hi. by injection Hi as <-.
    + rewrite lookup_insert_ne in Hi by done. by apply (kept_caught _ _ _ _ _ Hk Hh Hc i ph).
Qed.

(** Only the handler that receives a token loses it, and it fetches next. *)
Lemma token_step_ok i s :
  sys_ok s -> is_Some (sy_handlers s !! i) ->
  sys_ok (with_handlers (<[i := Fetching]> (sy_handlers s)) (with_reg (Recv i (sy_reg s)).1 s)).
Proof.
  intros [Hr Hh He Hc] Hi.
  assert (Hsome : forall j, is_Some (heap (sy_reg s) !! j) -> is_Some (heap (Recv i (sy_reg s)).1 !! j)).
  { intros j Hj. unfold Recv. destruct (heap (sy_reg s) !! i) as [w|] eqn:Hw; [|done]. repeat case_match; try done. simpl.
    destruct (decide (j = i)) as [->|]; [rewrite lookup_insert_eq; by eexists|by rewrite lookup_insert_ne]. }
  assert (Helse : forall j, j <> i -> heap (Recv i (sy_reg s)).1 !! j = heap (sy_reg s) !! j).
  { intros j Hne. unfold Recv. repeat case_match; try done. simpl. by rewrite lookup_insert_ne. }
  split; simpl; [by apply reg_ok_recv| |done|].
  - intros j Hj. apply Hsome, Hh. destruct (decide (j = i)) as [->|]; [done|]. by rewrite lookup_insert_ne in Hj.
  - intros j ph n w e ev Hj Hn Hw. destruct (decide (j = i)) as [->|Hne].
    + rewrite lookup_insert_eq in Hj. by injection Hj as <-.
    + rewrite lookup_insert_ne in Hj by done. rewrite Helse in Hw by done. by apply (Hc j ph).
Qed.

Lemma leave_step_ok i s : sys_ok s -> sys_ok (with_handlers (delete i (sy_handlers s)) (with_reg (Close i (sy_reg s)) s)).
Proof.
  intros Hok. destruct (reg_step_ok (Close i (sy_reg s)) s (kept_close i _) (reg_ok_close i _ (so_reg s Hok)) Hok) as [Hr Hh He Hc].
  simpl in *. split; simpl; [done| |done|].
  - intros j [ph [_ Hj]%lookup_delete_Some]. apply Hh. by eexists.
  - intros j ph n w e ev [_ Hj]%lookup_delete_Some. by apply (Hc j ph).
Qed.

Lemma commit_step_ok evs s : sys_ok s -> sys_ok (commitEvents evs s).
Proof.
  intros [Hr Hh He Hc]. split; simpl; [done|done| |].
  - intros j. rewrite length_app. set (new := seq _ _).
    assert (Hlt : (j < length (sy_log s) + length evs)%nat <-> (j < length (sy_log s))%nat \/ j ∈ new)
      by (unfold new; rewrite elem_of_seq; lia).
    rewrite Hlt, <-(He j). clear Hlt. assert (Hnil : evs = [] -> new = []) by (intros ->; done). clearbody new.
    destruct evs as [|ev evs]; [rewrite Hnil by done|]; case_match; rewrite ?concat_app, !elem_of_app; simpl;
      rewrite ?app_nil_r, ?elem_of_nil; tauto.
  - intros i ph n w j ev Hi Hn Hw Ho Ht Hj Hev. apply (Hc i ph n w j ev); try done. rewrite lookup_app_l in Hev; [done|].
    apply He. rewrite elem_of_app. by left.
Qed.

Lemma take_step_ok b q s :
  sy_current s = [] -> sy_queue s = b :: q -> sys_ok s ->
  sys_ok (MkSystem (sy_reg s) (sy_handlers s) (sy_log s) q b (sy_delivered s) (sy_dropped s)).
Proof.
  intros Hcur Hq [Hr Hh He Hc]. split; simpl; [done..| |done]. intros j. rewrite <-He, Hcur, Hq. simpl. rewrite !elem_of_app. tauto.
Qed.

(** Handing out an event leaves a token with every waiter it calls. *)
Lemma publish_calls ev r r' i w :
  reg_ok r -> publishOne ev r = Some r' -> heap r !! i = Some w -> parked_open w -> calls ev w ->
  exists w', heap r' !! i = Some w' /\ w_token w' = true.
Proof.
  unfold publishOne. intros Hok Hp Hw Ho (Hsk & Hs & Hm). rewrite Hsk in Hp.
  destruct (wakeMatching_spec ev.1.2 ev.2 r Hok) as (h' & E & _ & Hh). rewrite E in Hp. injection Hp as <-. simpl.
  exists (with_token w). split; [|done]. rewrite Hh, Hw. case_decide as Hin; [done|]. destruct Hin.
  by apply (match_ids_spec _ _ _ _ w).
Qed.

Lemma deliver_step_ok j js ev r s :
  sy_current s = j :: js -> sy_log s !! j = Some ev -> publishOne ev (sy_reg s) = Some r -> sys_ok s ->
  sys_ok (MkSystem r (sy_handlers s) (sy_log s) (sy_queue s) js (sy_delivered s ++ [j]) (sy_dropped s)).
Proof.
  intros Hcur Hev Hp [Hr Hh He Hc]. pose proof (kept_publish ev _ _ Hr Hp) as Hk. split; simpl.
  - by eapply reg_ok_publish.
  - by eapply kept_handlers.
  - intros e. rewrite <-He, Hcur. rewrite !elem_of_app, !elem_of_cons, !elem_of_nil. tauto.
  - intros i ph n w' e ev' Hi Hn Hw' Ho Ht [Hd|Hd%list_elem_of_singleton]%elem_of_app Hev' Hcl.
    + by apply (kept_caught _ _ _ _ _ Hk Hh Hc i ph n w' e ev').
    + subst e. rewrite Hev in Hev'. injection Hev' as <-. destruct (Hh i ltac:(by eexists)) as [w Hw].
      destruct (Hk i w Hw) as (w1 & Hw1 & Ek & Ef & _ & Eo). rewrite Hw' in Hw1. injection Hw1 as <-.
      destruct (publish_calls ev _ _ i w Hr Hp Hw (Eo Ho)) as (w2 & Hw2 & Ht2); [unfold calls in *; by rewrite <-Ek, <-Ef|].
      rewrite Hw' in Hw2. injection Hw2 as <-. by rewrite Ht in Ht2.
Qed.

Lemma sys_step_ok s s' : sys_step s s' -> sys_ok s -> sys_ok s'.
Proof.
  intros Hs Hok. pose proof (so_reg s Hok) as Hr. destruct Hs.
  - apply reg_step_ok; [by eapply kept_check|by eapply reg_ok_check|done].
  - by apply subscribe_step_ok.
  - apply handler_step_ok; [by eexists| |done]. intros n [= <-]. by left.
  - apply handler_step_ok; [by eexists| |done]. intros n' [= <-]. right. by eexists.
  - apply token_step_ok; [done|by eexists].
  - by apply handler_step_ok; [by eexists| |].
  - by apply leave_step_ok.
  - apply reg_step_ok; [by eapply kept_wake|by eapply serve_ok; [by eapply serve_wake|]|done].
  - by apply commit_step_ok.
  - by apply take_step_ok.
  - by eapply deliver_step_ok.
  - apply reg_step_ok; [by eapply kept_release|by eapply reg_ok_release|done].
  - apply reg_step_ok; [by apply kept_same|by apply (step_ok (sy_reg s)); [apply step_reset|]|done].
Qed.

Lemma sys_ok_start m p : sys_ok (start m p).
Proof.
  split; simpl; [apply reg_ok_new| | |].
  - intros i [? Hi]. by rewrite lookup_empty in Hi.
  - intros j. rewrite elem_of_nil. lia.
  - intros i ph n w j ev Hi. by rewrite lookup_empty in Hi.
Qed.

(** C16: No wake-up is lost.  Under every interleaving of handlers, publishes,
    wakes, the event pump and a shutdown: when a fetch is parked on an open
    subscription with no token waiting, every committed publish its filters
    match was committed before its last attempt at the store, or its event is
    still on its way through the pump and will leave a token, or its batch
    overflowed the pump's buffer. *)
Theorem long_poll_no_lost_wake m p s i n w j ev :
  rtc sys_step (start m p) s -> sy_handlers s !! i = Some (Parked_ n) -> heap (sy_reg s) !! i = Some w ->
  parked_open w -> w_token w = false -> sy_log s !! j = Some ev -> calls ev w ->
  (j < n)%nat \/ j ∈ sy_current s ++ concat (sy_queue s) \/ j ∈ sy_dropped s.
Proof.
  intros Hr Hi Hw Ho Ht Hev Hcl. assert (Hok : sys_ok s).
  { pose proof (sys_ok_start m p) as H0. clear -Hr H0. induction Hr as [|s0 s1 s Hs _ IH]; [done|]. by eapply IH, sys_step_ok. }
  pose proof (proj2 (so_events s Hok j) ltac:(by eapply lookup_lt_Some)) as Hj. rewrite !elem_of_app in Hj. rewrite elem_of_app.
  destruct Hj as [Hd|[?|[?|?]]]; [|tauto..]. left. by eapply (so_caught s Hok i (Parked_ n)).
Qed.

Definition sample_event : logged := ("msg.publish", "orders", "orders.created").
Definition sample_locked : system := with_reg (locked sample_key sample_filters (NewRegistry 4 2)) (start 4 2).
Definition sample_fetching : system :=
  with_handlers (<[next (sy_reg sample_locked) := Fetching]> ∅)
    (with_reg (sub_commit sample_key sample_filters (sy_reg sample_locked)) sample_locked).
Definition sample_fetched : system := with_handlers (<[0%nat := Fetched 0]> (sy_handlers sample_fetching)) sample_fetching.
Definition sample_parked : system :=
  commitEvents [sample_event] (with_handlers (<[0%nat := Parked_ 0]> (sy_handlers sample_fetched)) sample_fetched).

Lemma sample_parked_reached : rtc sys_step (start 4 2) sample_parked.
Proof.
  apply (rtc_l _ _ sample_locked); [apply (sys_check sample_key sample_filters); by vm_compute|].
  apply (rtc_l _ _ sample_fetching); [apply (sys_subscribe sample_key sample_filters sample_locked); by vm_compute|].
  apply (rtc_l _ _ sample_fetched); [apply (sys_fetch 0 sample_fetching); by vm_compute|].
  refine (rtc_l _ _ _ _ (sys_park 0 0 sample_fetched _) (rtc_once _ _ (sys_commit [sample_event] _))). by vm_compute.
Qed.

Lemma long_poll_no_lost_wake_witness :
  (0 < 0)%nat \/ 0%nat ∈ sy_current sample_parked ++ concat (sy_queue sample_parked) \/ 0%nat ∈ sy_dropped sample_parked.
Proof.
  apply (long_poll_no_lost_wake 4 2 sample_parked 0 0 (MkWaiter sample_key sample_filters false false false) 0 sample_event).
  - apply sample_parked_reached.
  - by vm_compute.
  - by vm_compute.
  - by vm_compute.
  - by vm_compute.
  - by vm_compute.
  - by vm_compute.
Defined.

End LongPoll.
