(* ===== verification/Dead.v ===== *)
(** * Dead letters

    Module [Dlq] models [internal/queue/dead.go] and [internal/queue/dlq.go]: the
    naming contract of dead-letter streams, the pure copy decision, the copy
    budget, and the provenance headers of a copy.  Module [DeadSink] models
    [internal/store/dead.go], the sink that runs the dead transition inside the
    caller's transaction. *)

From S2P Require Export Publish Settle.

Module Dlq.
Import Policy Settle PublishReq.

(** ** internal/queue/dead.go *)

Definition DeadTriggerAckWait : string := "ack_wait".
Definition DeadTriggerNak : string := "nak".
Definition DeadTriggerTerm : string := "term".
Definition DeadTriggerPolicyLowered : string := "policy_lowered".

Record DLQConfig : Set := MkDLQConfig {
  dq_MaxAge : Z;
  dq_MaxMsgs : Z;
  dq_MaxBytes : Z;
  dq_MaxMsgSize : Z;
  dq_ReasonHeaderBytes : Z;
  dq_MaxCopiesPerCommit : Z;
  dq_MaxBytesPerCommit : Z;
}.

Definition DefaultDLQConfig (limits : Limits) : DLQConfig :=
  MkDLQConfig (720 * Hour) 0 0 (MaxMsgSizeCeiling limits) 1024 128 (32 * 1024 * 1024).

(** A [*DeadBudget]; nil is unlimited. *)
Record DeadBudget : Set := MkDeadBudget { Copies : Z; Bytes : Z }.

Definition NewDeadBudget (cfg : DLQConfig) : option DeadBudget :=
  Some (MkDeadBudget (dq_MaxCopiesPerCommit cfg) (dq_MaxBytesPerCommit cfg)).

Definition CanCopy (b : option DeadBudget) (size : Z) : bool :=
  match b with
  | None => true
  | Some b =>
      if Copies b <=? 0 then false
      else if (0 <? Bytes b) && (Bytes b <? size) then false
      else true
  end.

Definition Take (b : option DeadBudget) (size : Z) : option DeadBudget :=
  match b with
  | None => None
  | Some b => Some (MkDeadBudget (Copies b - 1) (Bytes b - size))
  end.

(** Deliberately not one of the sentinels. *)
Definition ErrDeadBudget : error := Plain "dead-letter budget exhausted for this transaction".

Record DeadCtx : Set := MkDeadCtx {
  dc_Stream : string;
  dc_Consumer : string;
  dc_Subject : string;
  dc_Seq : Z;
  dc_MsgID : string;
  dc_TraceID : string;
  dc_Attempts : Z;
  dc_Generation : Z;
  dc_MaxDeliver : Z;
  dc_Cause : string;
  dc_Trigger : string;
  dc_Policy : string;
  dc_LastReason : string;
}.

Definition with_policy (p : string) (d : DeadCtx) : DeadCtx :=
  MkDeadCtx (dc_Stream d) (dc_Consumer d) (dc_Subject d) (dc_Seq d) (dc_MsgID d) (dc_TraceID d)
    (dc_Attempts d) (dc_Generation d) (dc_MaxDeliver d) (dc_Cause d) (dc_Trigger d) p (dc_LastReason d).

Record DeadPlan : Set := MkDeadPlan {
  dp_Copy : bool;
  dp_DLQStream : string;
  dp_Subject : string;
  dp_TraceID : string;
}.

(** ** internal/queue/dlq.go *)

Definition DLQSuffix : string := ".dlq".

Definition DLQName (stream : string) : string := stream +:+ DLQSuffix.

Definition IsDLQ (name : string) : bool := has_suffix DLQSuffix name.

Definition OriginOf (name : string) : option string :=
  if IsDLQ name then Some (take_str (String.length name - String.length DLQSuffix) name) else None.

Definition PlanDead (d : DeadCtx) : DeadPlan :=
  if bool_decide (dc_Policy d = DeadPolicyDLQ)
  then MkDeadPlan true (DLQName (dc_Stream d)) (dc_Subject d) (dc_TraceID d)
  else MkDeadPlan false "" (dc_Subject d) (dc_TraceID d).

(** *** Reasons *)

Definition hex_digit (d : Z) : ascii := byte_chr (if d <? 10 then 48 + d else 87 + d).

Definition backslash : ascii := byte_chr 92.

Definition controlEscape (r : Z) : string :=
  String backslash
    (if r =? 7 then "a" else if r =? 8 then "b" else if r =? 27 then "e"
     else String "u"%char (String (hex_digit (r / 4096 mod 16)) (String (hex_digit (r / 256 mod 16))
            (String (hex_digit (r / 16 mod 16)) (String (hex_digit (r mod 16)) EmptyString))))).

Fixpoint take_chunks (room : Z) (cs : list (Z * string)) : string :=
  match cs with
  | [] => EmptyString
  | (_, t) :: cs' => if room <? slen t then EmptyString else t +:+ take_chunks (room - slen t) cs'
  end.

(** Also the function of the same name in [internal/store/settle_impl.go]. *)
Definition truncateUTF8 (s : string) (max : Z) : string :=
  if (max <=? 0) || (slen s <=? max) then s else take_chunks max (chunks s).

Fixpoint sanitize_runes (inWS : bool) (rs : list Z) : string :=
  match rs with
  | [] => EmptyString
  | r :: rs' =>
      if IsSpace r
      then (if inWS then EmptyString else String " "%char EmptyString) +:+ sanitize_runes true rs'
      else (if IsControl r then controlEscape r else encode_rune r) +:+ sanitize_runes false rs'
  end.

Definition SanitizeReason (s : string) (maxBytes : Z) : string * bool :=
  let out := sanitize_runes false (runes s) in
  if (0 <? maxBytes) && (maxBytes <? slen out) then (truncateUTF8 out maxBytes, true)
  else (out, false).

(** *** Timestamps: RFC 3339 with milliseconds, UTC *)

(** The civil date of a day count since 1970-01-01. *)
Definition civil (days : Z) : Z * Z * Z :=
  let z := days + 719468 in
  let era := z / 146097 in
  let doe := z mod 146097 in
  let yoe := (doe - doe / 1460 + doe / 36524 - doe / 146096) / 365 in
  let doy := doe - (365 * yoe + yoe / 4 - yoe / 100) in
  let mp := (5 * doy + 2) / 153 in
  let d := doy - (153 * mp + 2) / 5 + 1 in
  let m := if mp <? 10 then mp + 3 else mp - 9 in
  (yoe + era * 400 + (if m <=? 2 then 1 else 0), m, d).

Fixpoint zeros (n : nat) : string :=
  match n with
  | O => EmptyString
  | S n => String "0"%char (zeros n)
  end.

Definition pad (width : nat) (z : Z) : string :=
  let s := format_int z in zeros (width - String.length s) +:+ s.

Definition formatRFC3339MS (ms : Z) : string :=
  let day := 86400000 in
  let '(y, mo, d) := civil (ms / day) in
  let t := ms mod day in
  pad 4 y +:+ "-" +:+ pad 2 mo +:+ "-" +:+ pad 2 d +:+ "T" +:+ pad 2 (t / 3600000) +:+ ":"
  +:+ pad 2 (t / 60000 mod 60) +:+ ":" +:+ pad 2 (t / 1000 mod 60) +:+ "." +:+ pad 3 (t mod 1000) +:+ "Z".

(** *** Header maps *)

Definition header_map : Set := list (string * string).

Definition hdr_set (k v : string) (h : header_map) : header_map :=
  List.filter (fun kv => negb (bool_decide (kv.1 = k))) h ++ [(k, v)].

Definition hdr_delete (k : string) (h : header_map) : header_map :=
  List.filter (fun kv => negb (bool_decide (kv.1 = k))) h.

Definition canon (k : string) : string := CanonicalMIMEHeaderKey k.

Definition ProvenanceHeaders (d : DeadCtx) (publishedAt nowMS maxReason : Z) : header_map * bool :=
  let '(reason, cut) := SanitizeReason (dc_LastReason d) maxReason in
  let has_reason := negb (bool_decide (dc_LastReason d = "")) in
  let truncated := has_reason && cut in
  ([(canon "Messq-Origin-Id", dc_MsgID d);
    (canon "Messq-Origin-Stream", dc_Stream d);
    (canon "Messq-Origin-Seq", format_int (dc_Seq d));
    (canon "Messq-Origin-Consumer", dc_Consumer d);
    (canon "Messq-Origin-Generation", format_int (dc_Generation d));
    (canon "Messq-Origin-Published-At", formatRFC3339MS publishedAt);
    (canon "Messq-Attempts", format_int (dc_Attempts d));
    (canon "Messq-Max-Deliver", format_int (dc_MaxDeliver d));
    (canon "Messq-Cause", dc_Cause d)]
   ++ (if bool_decide (dc_Trigger d = "") then [] else [(canon "Messq-Trigger", dc_Trigger d)])
   ++ (if has_reason then [(canon "Messq-Last-Reason", reason)] else [])
   ++ (if truncated then [(canon "Messq-Last-Reason-Truncated", "true")] else [])
   ++ [(canon "Messq-Dead-At", formatRFC3339MS nowMS)], truncated).

Definition StripProvenance (h : header_map) : header_map :=
  List.filter (fun kv => negb (has_prefix "Messq-" kv.1)) h.

End Dlq.

(** ** internal/store/dead.go *)

Module DeadSink.
Import Policy Settle PublishReq Dlq.
Import Publish.

Inductive DeadOutcome : Set := DeadOutcomeWritten | DeadOutcomeDropped | DeadOutcomeOriginMissing.

Definition outcome_text (o : DeadOutcome) : string :=
  match o with
  | DeadOutcomeWritten => "written"
  | DeadOutcomeDropped => "dropped"
  | DeadOutcomeOriginMissing => "origin_missing"
  end.

(** A missing consumer is treated as drop. *)
Definition loadDeadPolicy (stream consumer : string) : tx string :=
  query (fun d => match find_consumer stream consumer d with
                  | Some c => c_dead_policy c
                  | None => DeadPolicyDrop
                  end).

Definition clampPublishedAt (stream : string) (nowMS : Z) : tx Z :=
  query (fun d => match last_published stream d with
                  | Some last => if nowMS <? last then last else nowMS
                  | None => nowMS
                  end).

(** [INSERT ... ON CONFLICT DO NOTHING]: whether the row is new. *)
Definition insert_stream (r : stream_row) : tx bool :=
  d ← query id;
  if existsb (has_key st_name (st_name r)) (streams d) then mret false
  else _ ← exec (on_streams (fun t => t ++ [r])); mret true.

Definition seed_seq (stream : string) (next : Z) (d : db) : db :=
  if existsb (has_key sq_stream stream) (stream_seq d) then d
  else on_stream_seq (fun t => t ++ [SeqRow stream next]) d.

Definition seed_stats (stream : string) (d : db) : db :=
  if existsb (has_key ss_stream stream) (stream_stats d) then d
  else on_stream_stats (fun t => t ++ [StatsRow stream 0 0 0 0]) d.

Section Sink.
Context `{Ids} (limits : Limits) (dlq : DLQConfig).

Definition template (name : string) (nowMS : Z) : stream_row :=
  StreamRow name [">"] RetentionLimits (dq_MaxMsgs dlq) (dq_MaxBytes dlq) (Milliseconds (dq_MaxAge dlq))
    (dq_MaxMsgSize dlq) DiscardOld 0 nowMS.

Definition ensureDLQStream (name origin : string) (nowMS : Z) : tx unit :=
  created ← insert_stream (template name nowMS);
  _ ← exec (seed_seq name 1);
  _ ← exec (seed_stats name);
  if created : bool then
    insertEvent (Event nowMS "stream.create" (nullStr name) None None None None None None (nullStr "system")
                   [("reason", DStr "dead_letter"); ("origin", DStr origin)])
  else mret tt.

Definition maxDLQHeaderBytes : Z := MaxHeaderBytes limits * 2.

(** The degradation ladder: the reason goes first, then the publication time. *)
Definition fits (h : header_map) : bool := json_object_len (order_by by_key h) <=? maxDLQHeaderBytes.

Definition has_hdr (k : string) (h : header_map) : bool := existsb (fun kv => bool_decide (kv.1 = k)) h.

Fixpoint degrade (ladder : list string) (h : header_map) (trimmed : bool)
  : result (header_map * bool) :=
  if fits h then Ok (order_by by_key h, trimmed)
  else match ladder with
       | [] => Err (Plain "dead-letter mandatory header set exceeds the 2x budget")
       | k :: ladder' => degrade ladder' (hdr_delete k h) (trimmed || has_hdr k h)
       end.

Definition mergeCopyHeaders (originHdr : option header_map) (prov : header_map)
  : result (header_map * bool) :=
  let merged := List.fold_left (fun h kv => hdr_set kv.1 kv.2 h) prov (default [] originHdr) in
  degrade ["Messq-Last-Reason"; "Messq-Origin-Published-At"] merged false.

Definition flag (k : string) (b : bool) : list (string * dval) := if b then [(k, DBool true)] else [].

Definition dead_detail (d : DeadCtx) (outcome : DeadOutcome) (dlqStream : string) (dlqSeq bytes : Z)
    (trimmed reasonTrunc : bool) : list (string * dval) :=
  [("cause", DStr (dc_Cause d)); ("policy", DStr (dc_Policy d)); ("attempts", DInt (dc_Attempts d));
   ("generation", DInt (dc_Generation d)); ("dlq", DStr (outcome_text outcome))]
  ++ (if bool_decide (dc_Trigger d = "") then [] else [("trigger", DStr (dc_Trigger d))])
  ++ (if 0 <? dc_MaxDeliver d then [("max_deliver", DInt (dc_MaxDeliver d))] else [])
  ++ (if bool_decide (dc_LastReason d = "") then [] else [("last_reason", DStr (dc_LastReason d))])
  ++ match outcome with
     | DeadOutcomeWritten =>
         [("dlq_stream", DStr dlqStream); ("dlq_seq", DInt dlqSeq); ("bytes", DInt bytes)]
         ++ flag "headers_trimmed" trimmed ++ flag "reason_truncated" reasonTrunc
     | _ => []
     end.

Definition deadEvent (d : DeadCtx) (nowMS : Z) (outcome : DeadOutcome) (dlqStream : string)
    (dlqSeq bytes : Z) (trimmed reasonTrunc : bool) : tx event :=
  commitEvent (Event nowMS "msg.dead" (nullStr (dc_Stream d)) (nullStr (dc_Consumer d))
    (nullStr (dc_Subject d)) (nullStr (dc_MsgID d)) (nullI64 (dc_Seq d)) (nullI64 (dc_Attempts d))
    (nullStr (dc_TraceID d)) None (dead_detail d outcome dlqStream dlqSeq bytes trimmed reasonTrunc)).

Definition copy_of (origin : message) (dlqStream : string) (seq : Z) (newID : string)
    (hdr : header_map) (publishedAt : Z) : message :=
  Message dlqStream seq newID (m_subject origin) (Some hdr) (m_body origin) (m_size origin)
    publishedAt (m_trace_id origin) None.

(** The copy half of Dead: the origin exists and the budget admits it. *)
Definition dead_copy (budget : option DeadBudget) (d : DeadCtx) (dlqStream : string) (nowMS : Z)
    (origin : message) : tx (event * option DeadBudget) :=
  _ ← ensureDLQStream dlqStream (dc_Stream d) nowMS;
  seq ← allocSeq dlqStream;
  let '(prov, reasonTrunc) :=
    ProvenanceHeaders d (m_published_at origin) nowMS (dq_ReasonHeaderBytes dlq) in
  '(hdr, trimmed) ← lift (mergeCopyHeaders (m_hdr origin) prov);
  publishedAtCopy ← clampPublishedAt dlqStream nowMS;
  newMsgID ← mint;
  again ← query (find_message (dc_Stream d) (dc_Seq d));
  match again with
  | None =>
      ev ← deadEvent d nowMS DeadOutcomeOriginMissing "" 0 0 false false;
      mret (ev, budget)
  | Some m =>
      _ ← insert_message (copy_of m dlqStream seq newMsgID hdr publishedAtCopy);
      _ ← bump_stats dlqStream 1 (m_size origin);
      ev ← deadEvent d nowMS DeadOutcomeWritten dlqStream seq (m_size origin) trimmed reasonTrunc;
      mret (ev, Take budget (m_size origin))
  end.

Definition Dead (budget : option DeadBudget) (d : DeadCtx) (now : Z) : tx (event * option DeadBudget) :=
  let nowMS := UnixMilli now in
  policy ← loadDeadPolicy (dc_Stream d) (dc_Consumer d);
  let d := with_policy policy d in
  let plan := PlanDead d in
  if negb (dp_Copy plan) then
    ev ← deadEvent d nowMS DeadOutcomeDropped "" 0 0 false false; mret (ev, budget)
  else
    row ← query (find_message (dc_Stream d) (dc_Seq d));
    match row with
    | None => ev ← deadEvent d nowMS DeadOutcomeOriginMissing "" 0 0 false false; mret (ev, budget)
    | Some origin =>
        if negb (CanCopy budget (m_size origin)) then fail ErrDeadBudget
        else dead_copy budget d (dp_DLQStream plan) nowMS origin
    end.

End Sink.

(** ** Facts *)

Section Facts.
Context `{Ids} `{!FreshIds} (limits : Limits) (dlq : DLQConfig).

(** What the sink may touch: it adds streams and messages, never removes any,
    and leaves consumers and the pending set alone. *)
Record sink_frame (w w' : world) : Prop := {
  snk_ok : world_ok w';
  snk_consumers : consumers (w_db w') = consumers (w_db w);
  snk_deliveries : deliveries (w_db w') = deliveries (w_db w);
  snk_messages : messages (w_db w) `prefix_of` messages (w_db w');
  snk_seq : forall s n, seq_of s (stream_seq (w_db w)) = Some n ->
    exists n', seq_of s (stream_seq (w_db w')) = Some n' /\ n <= n';
}.

Lemma sink_frame_refl w : world_ok w -> sink_frame w w.
Proof. intros Hok. split; try done. intros s n Hn. exists n. split; [done|lia]. Qed.

Lemma sink_frame_trans w1 w2 w3 : sink_frame w1 w2 -> sink_frame w2 w3 -> sink_frame w1 w3.
Proof.
  intros [_ Ec1 Ed1 Em1 Es1] [Hok Ec2 Ed2 Em2 Es2]. split; [done|congruence..|by etrans|].
  intros s n Hn. destruct (Es1 s n Hn) as (n1 & Hn1 & ?). destruct (Es2 s n1 Hn1) as (n2 & ? & ?).
  exists n2. split; [done|lia].
Qed.

Lemma sink_frame_events f w w' :
  sink_frame w w' -> sink_frame w (World (on_events f (w_db w')) (w_mem w')).
Proof. intros []. split; try done. by apply Inv_events. Qed.

(** Seeding keeps the invariant, whatever part of the stream exists already. *)
Lemma seeded_ok name w :
  world_ok w ->
  let d := seed_stats name (seed_seq name 1 (w_db w)) in
  sink_frame w (World d (w_mem w)) /\ is_Some (seq_of name (stream_seq d)) /\
  streams d = streams (w_db w).
Proof.
  intros Hok. pose proof Hok as [IS IM IC ID]. unfold seed_seq, seed_stats.
  destruct (existsb (has_key sq_stream name) (stream_seq (w_db w))) eqn:Hsq.
  - apply seq_of_Some in Hsq as [n Hn].
    assert (Hst : existsb (has_key ss_stream name) (stream_stats (w_db w)) = true).
    { pose proof (inv_seq_stats _ _ _ _ IM name (seq_of_elem _ _ _ Hn)) as (r & -> & Hr)%mapped_in.
      apply existsb_exists. exists r. rewrite <-list_elem_of_In. split; [done|]. by apply has_key_true. }
    rewrite Hst. destruct w. split; [by apply sink_frame_refl|]. by eauto.
  - apply seq_of_None in Hsq.
    assert (Hgrow : forall s n, seq_of s (stream_seq (w_db w)) = Some n -> exists n',
              seq_of s (stream_seq (w_db w) ++ [SeqRow name 1]) = Some n' /\ n <= n').
    { intros s n Hn. exists n. by rewrite seq_of_snoc, Hn. }
    assert (HM : MsgInv (stream_seq (w_db w) ++ [SeqRow name 1]) (messages (w_db w))
      (if existsb (has_key ss_stream name) (stream_stats (w_db w)) then stream_stats (w_db w)
       else stream_stats (w_db w) ++ [StatsRow name 0 0 0 0]) (minted (w_mem w))) by (by apply MsgInv_seed).
    assert (Hs : is_Some (seq_of name (stream_seq (w_db w) ++ [SeqRow name 1]))).
    { rewrite seq_of_snoc, Hsq, bool_decide_true by done. by eexists. }
    simpl. destruct (existsb (has_key ss_stream name) (stream_stats (w_db w))); simpl.
    all: split; [|done]; split; simpl; try done.
    all: split; simpl; [by eapply StrInv_grow|done|by eapply ConInv_grow|done].
Qed.

Lemma ensureDLQStream_wp name origin nowMS w :
  world_ok w ->
  wp (ensureDLQStream dlq name origin nowMS)
     (fun _ w' => sink_frame w w' /\ is_Some (seq_of name (stream_seq (w_db w'))) /\
        messages (w_db w') = messages (w_db w) /\ minted (w_mem w') = minted (w_mem w))
     (fun _ _ => False) w.
Proof.
  intros Hok. destruct (seeded_ok name w Hok) as (Hfr & Hs & Hstr). unfold ensureDLQStream, insert_stream.
  assert (Hmsg : messages (seed_stats name (seed_seq name 1 (w_db w))) = messages (w_db w)).
  { unfold seed_stats, seed_seq. by repeat case_match. }
  wp_steps. simpl. destruct (existsb (has_key st_name name) (streams (w_db w))) eqn:Hex.
  - wp_steps. split; [exact Hfr|]. done.
  - wp_steps. set (row := template dlq name nowMS).
    set (d := on_streams (fun t => t ++ [row]) (w_db w)).
    assert (Hd : seed_stats name (seed_seq name 1 d) =
                 on_streams (fun t => t ++ [row]) (seed_stats name (seed_seq name 1 (w_db w)))).
    { unfold seed_stats, seed_seq, d. simpl. by repeat (case_match; simpl in *; try congruence). }
    unfold insertEvent. wp_steps. simpl. rewrite Hd. simpl. split; [|done].
    apply (sink_frame_events _ w (World (on_streams (fun t => t ++ [row]) _) (w_mem w))).
    destruct Hfr as [[IS IM IC ID] Ec Ed Em Es]. split; try done. split; simpl; try done.
    apply StrInv_add; [done| |done|done]. rewrite Hstr. by apply existsb_key in Hex.
Qed.

(** A dead-letter copy of [origin]: same subject, body and trace, on the
    origin's dead-letter stream, under a new identifier and no dedup key. *)
Definition copies (origin copy : message) : Prop :=
  m_stream copy = DLQName (m_stream origin) /\ m_subject copy = m_subject origin /\
  m_body copy = m_body origin /\ m_size copy = m_size origin /\
  m_trace_id copy = m_trace_id origin /\ m_dedup_key copy = None /\ m_id copy <> m_id origin.

(** Storing a copy on a stream that has a counter keeps the invariant. *)
Lemma sink_append w w' m :
  world_ok w -> appended w w' m ->
  seq_of (m_stream m) (stream_seq (w_db w)) = Some (m_seq m) -> m_id m = newID (minted (w_mem w)) ->
  m_size m = slen (m_body m) -> m_dedup_key m = None ->
  (forall m', m' ∈ messages (w_db w) -> m_stream m' = m_stream m -> m_published_at m' <= m_published_at m) ->
  sink_frame w w'.
Proof.
  intros [IS IM IC ID] [Em Eq Es Est Ec Ed Emt] Hn Hid Hsz Hk Hpub.
  assert (Hgrow : forall s n, seq_of s (stream_seq (w_db w)) = Some n ->
            exists n', seq_of s (stream_seq (w_db w')) = Some n' /\ n <= n').
  { intros s n Hs. rewrite Eq, seq_of_bump, Hs. eexists. split; [done|]. case_bool_decide; simpl; lia. }
  split; try done; [|by exists [m]].
  unfold world_ok. split; rewrite ?Em, ?Eq, ?Es, ?Est, ?Ec, ?Ed, ?Emt.
  - by apply StrInv_bump.
  - apply MsgInv_append; try done. intros key m' Hkey. congruence.
  - by apply ConInv_bump.
  - eapply DelInv_messages; [|done]. rewrite map_app. set_solver.
Qed.

Definition header_error : error := Plain "dead-letter mandatory header set exceeds the 2x budget".

Lemma mergeCopyHeaders_err o p e : mergeCopyHeaders limits o p = Err e -> e = header_error.
Proof. unfold mergeCopyHeaders. simpl. repeat case_match; intros He; by simplify_eq. Qed.

Lemma dead_copy_wp budget d nowMS origin w :
  world_ok w -> find_message (dc_Stream d) (dc_Seq d) (w_db w) = Some origin ->
  wp (dead_copy limits dlq budget d (DLQName (dc_Stream d)) nowMS origin)
     (fun '(_, budget') w' => sink_frame w w' /\ budget' = Take budget (m_size origin) /\
        exists copy, messages (w_db w') = messages (w_db w) ++ [copy] /\ copies origin copy)
     (fun e _ => e = header_error) w.
Proof.
  intros Hok Hfind. unfold dead_copy. wp_steps.
  eapply wp_mono; [by apply ensureDLQStream_wp| |done]. intros _ w1 (Hfr1 & [n Hn] & Hm1 & Hmt1). wp_steps.
  apply wp_allocSeq; [|congruence]. intros n' Hn'. assert (n' = n) as -> by congruence.
  destruct (ProvenanceHeaders _ _ _ _) as [prov cut]. wp_steps; [|by intros e He%mergeCopyHeaders_err].
  intros [hdr trimmed] _. unfold clampPublishedAt. wp_steps. simpl.
  set (pub := match last_published _ _ with Some l => if nowMS <? l then l else nowMS | None => nowMS end).
  pose proof (query_row_Some _ _ _ Hfind) as [Hk%has_key_true Hin]. injection Hk as Hs Hq.
  assert (Hfind1 : find_message (dc_Stream d) (dc_Seq d)
     (on_stream_seq (update_where (has_key sq_stream (DLQName (dc_Stream d))) bump_seq) (w_db w1)) = Some origin).
  { unfold find_message. simpl. by rewrite Hm1. }
  rewrite Hfind1. pose proof (snk_ok _ _ Hfr1) as Hok1.
  pose proof (inv_messages _ _ Hok1) as HM1. unfold copy_of. wp_steps. apply wp_insert_message.
  - by eapply fresh_key.
  - by eapply fresh_id.
  - done.
  - unfold bump_stats, deadEvent. wp_steps. split; [|split; [done|]].
    + eapply sink_frame_trans; [exact Hfr1|]. eapply sink_append; [done|by split|..]; try done.
      * simpl. by rewrite (inv_msg_size _ _ _ _ (inv_messages _ _ Hok) origin Hin).
      * intros m' Hm' Hs'. simpl in *. destruct (last_published_bound _ _ _ Hm' Hs') as (l & Hl & Hle).
        unfold pub. change (last_published _ _) with (last_published (DLQName (dc_Stream d)) (w_db w1)).
        rewrite Hl. case_match; bool_prop; lia.
    + eexists. split; [simpl; by rewrite Hm1|]. unfold copies. simpl. rewrite Hs. repeat split; try done.
      intros Heq. destruct (inv_msg_id _ _ _ _ (inv_messages _ _ Hok) origin Hin) as (i & Hi & Hid).
      rewrite Hid in Heq. apply newID_inj in Heq. lia.
Qed.

(** What a dead transition does to the messages and to the budget. *)
Definition dead_done (d : DeadCtx) (budget budget' : option DeadBudget) (w w' : world) : Prop :=
  (budget' = budget /\ messages (w_db w') = messages (w_db w)) \/
  exists c origin copy, find_consumer (dc_Stream d) (dc_Consumer d) (w_db w) = Some c /\
    c_dead_policy c = DeadPolicyDLQ /\ find_message (dc_Stream d) (dc_Seq d) (w_db w) = Some origin /\
    CanCopy budget (m_size origin) = true /\ budget' = Take budget (m_size origin) /\
    messages (w_db w') = messages (w_db w) ++ [copy] /\ copies origin copy.

Lemma Dead_wp budget d now w :
  world_ok w ->
  wp (Dead limits dlq budget d now)
     (fun '(ev, budget') w' => sink_frame w w' /\ dead_done d budget budget' w w')
     (fun e w' => e = header_error \/ (e = ErrDeadBudget /\ w' = w)) w.
Proof.
  intros Hok. unfold Dead, loadDeadPolicy. wp_steps.
  assert (Hev : forall o, wp (ev ← deadEvent (with_policy match find_consumer (dc_Stream d) (dc_Consumer d) (w_db w) with
      Some c => c_dead_policy c | None => DeadPolicyDrop end d) (UnixMilli now) o "" 0 0 false false; mret (ev, budget))
     (fun '(ev, budget') w' => sink_frame w w' /\ dead_done d budget budget' w w')
     (fun e w' => e = header_error \/ (e = ErrDeadBudget /\ w' = w)) w).
  { intros o. unfold deadEvent. wp_steps. split; [by apply sink_frame_events, sink_frame_refl|]. by left. }
  unfold PlanDead. case_bool_decide as Hpol; simpl; [|apply Hev]. wp_steps. simpl.
  destruct (find_message (dc_Stream d) (dc_Seq d) (w_db w)) as [origin|] eqn:Hfind; [|apply Hev].
  destruct (CanCopy budget (m_size origin)) eqn:Hcan; simpl; [|wp_steps; by right].
  eapply wp_mono; [by apply (dead_copy_wp budget (with_policy _ d))| |].
  - intros [ev budget'] w' (Hfr & -> & copy & Hm & Hcp). split; [done|]. right.
    simpl in Hpol. destruct (find_consumer _ _ _) as [c|]; [|done]. by exists c, origin, copy.
  - intros e w' ->. by left.
Qed.

End Facts.
End DeadSink.
