(* ===== verification/StoreSettle.v ===== *)
(** * The settle command

    [internal/store/settle.go] and [internal/store/settle_impl.go]: one batch of
    acks, naks, terms and extends inside one transaction.  The batch is grouped
    by consumer, the fence facts and live rows of each group are loaded once,
    and every item is decided by the pure planner ([Settle.PlanSettle]) and
    applied under a WHERE clause that repeats the fence. *)

From S2P Require Export Fetch Dead.

Module StoreSettle.
Import Policy Settle Dlq.

Record SettleItem : Set := MkSettleItem {
  si_Token : Token.Token;
  si_Verb : string;
  si_Delay : option Z;
  si_Reason : string;
}.

(** Instants are Unix milliseconds; a zero field is the Go zero value. *)
Record ItemResult : Set := MkItemResult {
  ir_Token : Token.Token;
  ir_Status : ItemStatus;
  ir_Attempt : Z;
  ir_Of : Z;
  ir_CurrentAttempt : Z;
  ir_Deadline : Z;
  ir_RetryAt : Z;
  ir_Dead : bool;
  ir_Late : bool;
  ir_HeldMS : Z;
  ir_Err : option error;
}.

Record SettleResult : Set := MkSettleResult {
  Results : list ItemResult;
  OKs : Z;
  Failed : Z;
}.

Definition rejectEventName (status : ItemStatus) : string :=
  match status with
  | ItemStatusStale => "msg.ack_dup"
  | ItemStatusStaleAck | ItemStatusWrongGen => "msg.ack_stale"
  | _ => ""
  end.

(** ** Loading the working set *)

Record settleConsumer : Set := MkSettleConsumer {
  sc_found : bool;
  sc_generation : Z;
  sc_cursorSeq : Z;
  sc_cfg : ConsumerConfig;
}.

(** The stored schedule is appended to the one [DefaultConsumerConfig] starts with. *)
Definition settle_config (c : consumer) : ConsumerConfig :=
  let def := DefaultConsumerConfig (c_name c) in
  {| cc_Name := cc_Name def; cc_Filters := cc_Filters def;
     cc_AckWait := c_ack_wait_ms c * Millisecond; cc_MaxDeliver := c_max_deliver c;
     cc_MaxAckPending := cc_MaxAckPending def;
     cc_Backoff := cc_Backoff def ++ map (fun ms => ms * Millisecond) (c_backoff_ms c);
     cc_DeadPolicy := cc_DeadPolicy def; cc_Paused := cc_Paused def |}.

Definition zero_config : ConsumerConfig :=
  {| cc_Name := ""; cc_Filters := []; cc_AckWait := 0; cc_MaxDeliver := 0; cc_MaxAckPending := 0;
     cc_Backoff := []; cc_DeadPolicy := ""; cc_Paused := false |}.

Definition loadSettleConsumer (stream name : string) (d : db) : settleConsumer :=
  match find_consumer stream name d with
  | Some c => MkSettleConsumer true (c_generation c) (c_cursor_seq c) (settle_config c)
  | None => MkSettleConsumer false 0 0 zero_config
  end.

Record settleRow : Set := MkSettleRow {
  row_state : Z;
  row_attempts : Z;
  row_visibleAt : Z;
  row_generation : Z;
  row_deliveredAt : Z;
  row_subject : string;
  row_msgID : string;
  row_traceID : string;
}.

(** A delivery row LEFT JOINed with its message. *)
Definition settle_row (d : db) (r : delivery) : settleRow :=
  let m := find_message (d_stream r) (d_seq r) d in
  MkSettleRow (d_state r) (d_attempts r) (d_visible_at r) (d_generation r) (default 0 (d_delivered_at r))
    (d_subject r) (default "" (m_id <$> m)) (default "" (m_trace_id <$> m)).

(** The live rows of a group; the chunking of the IN list is not visible. *)
Definition loadSettleRows (stream consumer : string) (seqs : list Z) (d : db) : gmap Z settleRow :=
  list_to_map (map (fun r => (d_seq r, settle_row d r))
    (where_ (fun r => held_by stream consumer r && bool_decide (d_seq r ∈ seqs)) (deliveries d))).

(** ** Rejections *)

(** [rejectionLimiter.due] on its (lastMS, suppressed). *)
Definition due (lim : Z * Z) (nowMS intervalMS : Z) : bool * Z * (Z * Z) :=
  let '(lastMS, suppressed) := lim in
  if (lastMS =? 0) || (intervalMS <=? nowMS - lastMS)
  then (true, suppressed, (nowMS, 0))
  else (false, 0, (lastMS, suppressed + 1)).

Definition put_limiter (key : string) (lim : Z * Z) : tx unit := fun w =>
  let m := w_mem w in
  (World (w_db w) (Mem (flow m) (<[key := lim]> (limiter m)) (minted m) (drawn m)), Ok tt).

Definition get_limiter (key : string) : tx (Z * Z) := fun w =>
  (w, Ok (default (0, 0) (limiter (w_mem w) !! key))).

Definition rejectionEvent (now interval : Z) (it : SettleItem) (name reason : string) (res : ItemResult)
  : tx (list event) :=
  if bool_decide (name = "") then mret []
  else
    let tok := si_Token it in
    let key := Token.Stream tok +:+ Fetch.nul +:+ Token.Consumer tok +:+ Fetch.nul +:+ name in
    lim ← get_limiter key;
    let '(emit, suppressed, lim') := due lim (UnixMilli now) (Milliseconds interval) in
    _ ← put_limiter key lim';
    if (emit : bool) then
      ev ← commitEvent (Event (UnixMilli now) name (nullStr (Token.Stream tok)) (nullStr (Token.Consumer tok))
             None None (nullI64 (Token.Seq tok)) (nullI64 (Token.Attempt tok)) None None
             ([("current_attempt", DInt (ir_CurrentAttempt res))]
              ++ (if bool_decide (reason = "") then [] else [("reason", DStr reason)])
              ++ (if 0 <? suppressed then [("suppressed", DInt suppressed)] else [])
              ++ [("token_attempt", DInt (ir_Attempt res))]));
      mret [ev]
    else mret [].

(** ** Applying a plan *)

(** The WHERE fence every mutating statement repeats. *)
Definition fence (tok : Token.Token) (r : delivery) : bool :=
  bool_decide (dkey r = (Token.Stream tok, Token.Consumer tok, Token.Seq tok))
  && (d_attempts r =? Token.Attempt tok) && (d_generation r =? Token.Generation tok).

(** A statement on the rows of [p] whose rows-affected must be exactly one. *)
Definition exec_one (what : string) (p : delivery -> bool) (f : list delivery -> list delivery) : tx unit :=
  n ← query (fun d => count p (deliveries d));
  _ ← exec (on_deliveries f);
  if n =? 1 then mret tt else fail (Plain (what +:+ " (fence held)")).

Definition release_row (visible : Z) (reason : string) (r : delivery) : delivery :=
  Delivery (d_stream r) (d_consumer r) (d_seq r) (d_subject r) 0 (d_attempts r) visible
    (d_generation r) (d_delivered_at r) (Some reason).

Definition extend_row (visible : Z) (r : delivery) : delivery :=
  Delivery (d_stream r) (d_consumer r) (d_seq r) (d_subject r) (d_state r) (d_attempts r) visible
    (d_generation r) (d_delivered_at r) (d_last_reason r).

Definition settle_event (nowMS : Z) (name : string) (tok : Token.Token) (row : settleRow)
    (detail : list (string * dval)) : event :=
  Event nowMS name (nullStr (Token.Stream tok)) (nullStr (Token.Consumer tok)) (nullStr (row_subject row))
    (nullStr (row_msgID row)) (nullI64 (Token.Seq tok)) (nullI64 (Token.Attempt tok))
    (nullStr (row_traceID row)) None detail.

Definition deadVerbName (cause : string) : string :=
  if bool_decide (cause = DeadCauseTerminated) then "msg.term" else "msg.nak".

Definition settleTriggerFor (cause : string) : string :=
  if bool_decide (cause = DeadCauseTerminated) then DeadTriggerTerm else DeadTriggerNak.

(** The settings of the command.  The jitter closure draws afresh on every call;
    a batch settles a token once, so one function per token is every draw. *)
Record SettleEnv : Type := MkSettleEnv {
  se_limits : Limits;
  se_dlq : DLQConfig;
  se_jitter : Token.Token -> Jitter;
  se_interval : Z;
  se_reasonCap : Z;
  se_maxAckWait : Z;
}.

Section Command.
Context `{Ids} (env : SettleEnv).

Definition settle_dead_ctx (tok : Token.Token) (plan : SettlePlan) (row : settleRow) (con : settleConsumer)
    (reason : string) : DeadCtx :=
  MkDeadCtx (Token.Stream tok) (Token.Consumer tok) (row_subject row) (Token.Seq tok) (row_msgID row)
    (row_traceID row) (Token.Attempt tok) (Token.Generation tok) (cc_MaxDeliver (sc_cfg con))
    (Cause plan) (settleTriggerFor (Cause plan)) "" reason.

(** The events, the result's outcome fields and the remaining budget. *)
Definition applyAction (now : Z) (plan : SettlePlan) (it : SettleItem) (row : settleRow)
    (con : settleConsumer) (reason : string) (res : ItemResult) (budget : option DeadBudget)
  : tx (ItemResult * list event * option DeadBudget) :=
  let nowMS := UnixMilli now in
  let tok := si_Token it in
  match Action plan with
  | ActionNoop => mret (res, [], budget)
  | ActionAck =>
      _ ← exec_one "ack delete" (fence tok) (delete_where (fence tok));
      let held := if HeldMS plan <? 0 then 0 else HeldMS plan in
      ev ← commitEvent (settle_event nowMS "msg.ack" tok row
             ([("held_ms", DInt held)] ++ (if Late plan then [("late", DBool true)] else [])));
      mret (MkItemResult (ir_Token res) (ir_Status res) (ir_Attempt res) (ir_Of res) (ir_CurrentAttempt res)
              0 0 false (Late plan) held None, [ev], budget)
  | ActionRelease =>
      _ ← exec_one "release" (fence tok) (update_where (fence tok) (release_row (NewVisibleAt plan) reason));
      let res := MkItemResult (ir_Token res) (ir_Status res) (ir_Attempt res) (ir_Of res)
                   (ir_CurrentAttempt res) 0 (NewVisibleAt plan) false false 0 None in
      let wasReady := row_state row =? 0 in
      if negb wasReady || negb (row_visibleAt row =? NewVisibleAt plan) then
        let delayMS := if NewVisibleAt plan - nowMS <? 0 then 0 else NewVisibleAt plan - nowMS in
        ev ← commitEvent (settle_event nowMS "msg.nak" tok row
               [("delay_ms", DInt delayMS); ("reason", DStr reason);
                ("explicit", DBool (bool_decide (is_Some (si_Delay it))))]);
        mret (res, [ev], budget)
      else mret (res, [], budget)
  | ActionExtend =>
      _ ← exec_one "extend" (fun r => fence tok r && (d_state r =? 1))
            (update_where (fun r => fence tok r && (d_state r =? 1)) (extend_row (NewVisibleAt plan)));
      ev ← commitEvent (settle_event nowMS "msg.extend" tok row
             [("deadline_ms", DInt (NewVisibleAt plan)); ("capped", DBool false)]);
      mret (MkItemResult (ir_Token res) (ir_Status res) (ir_Attempt res) (ir_Of res) (ir_CurrentAttempt res)
              (NewVisibleAt plan) 0 false false 0 None, [ev], budget)
  | ActionDead =>
      evVerb ← commitEvent (settle_event nowMS (deadVerbName (Cause plan)) tok row [("reason", DStr reason)]);
      '(evDead, budget') ← DeadSink.Dead (se_limits env) (se_dlq env) budget
                             (settle_dead_ctx tok plan row con reason) now;
      _ ← exec_one "dead delete" (fence tok) (delete_where (fence tok));
      mret (MkItemResult (ir_Token res) (ir_Status res) (ir_Attempt res) (ir_Of res) (ir_CurrentAttempt res)
              0 0 true false 0 None, [evVerb; evDead], budget')
  end.

(** ** One item *)

Definition settle_request (it : SettleItem) (con : settleConsumer) (row : option settleRow) : SettleRequest :=
  {| rq_Verb := si_Verb it; rq_Token := si_Token it; rq_Generation := sc_generation con;
     rq_CursorSeq := sc_cursorSeq con; rq_Config := sc_cfg con; rq_MaxAckWait := se_maxAckWait env;
     rq_RowPresent := bool_decide (is_Some row);
     rq_RowState := match row with Some r => row_state r | None => StateReady end;
     rq_RowAttempts := match row with Some r => row_attempts r | None => 0 end;
     rq_RowVisibleAt := match row with Some r => row_visibleAt r | None => 0 end;
     rq_RowDeliveredAt := match row with Some r => row_deliveredAt r | None => 0 end;
     rq_NakDelay := si_Delay it; rq_Jitter := se_jitter env (si_Token it) |}.

Definition blank_result (it : SettleItem) (of_ : Z) (st : ItemStatus) (cur : Z) (e : option error) : ItemResult :=
  MkItemResult (si_Token it) st (Token.Attempt (si_Token it)) of_ cur 0 0 false false 0 e.

Definition zero_row : settleRow := MkSettleRow 0 0 0 0 0 "" "" "".

Definition applyOne (now : Z) (it : SettleItem) (con : settleConsumer) (rows : gmap Z settleRow)
    (budget : option DeadBudget) : tx (ItemResult * list event * option DeadBudget) :=
  let reason := truncateUTF8 (TrimSpace (si_Reason it)) (se_reasonCap env) in
  let of_ := cc_MaxDeliver (sc_cfg con) in
  if negb (sc_found con) then mret (blank_result it of_ ItemStatusUnknown 0 None, [], budget)
  else
    let row := rows !! Token.Seq (si_Token it) in
    match PlanSettle (settle_request it con row) now with
    | Err e =>
        if is_kind ErrBadRequest e
        then mret (blank_result it of_ ItemStatusUnknown 0 (Some e), [], budget)
        else fail e
    | Ok plan =>
        match Status plan with
        | ItemStatusOK =>
            applyAction now plan it (default zero_row row) con reason
              (blank_result it of_ ItemStatusOK 0 None) budget
        | ItemStatusStale =>
            let res := blank_result it of_ ItemStatusStale 0 None in
            evs ← rejectionEvent now (se_interval env) it (rejectEventName ItemStatusStale) "" res;
            mret (res, evs, budget)
        | ItemStatusStaleAck | ItemStatusWrongGen =>
            let res := blank_result it of_ (Status plan) (CurrentAttempt plan) None in
            evs ← rejectionEvent now (se_interval env) it (rejectEventName (Status plan)) (Reason plan) res;
            mret (res, evs, budget)
        | ItemStatusUnknown => mret (blank_result it of_ ItemStatusUnknown 0 None, [], budget)
        end
    end.

(** ** The batch *)

Record groupSum : Set := MkGroup { g_stream : string; g_consumer : string; g_seqs : list Z }.

(** What the grouping pass records for an item: an exact repeat of an earlier
    token, or the index it will look its group up with. *)
Inductive slot : Set := SlotDup | SlotGroup (gi : nat).

Definition group_key (it : SettleItem) : string :=
  Token.Stream (si_Token it) +:+ Fetch.nul +:+ Token.Consumer (si_Token it).

Definition add_seq (q : Z) (g : groupSum) : groupSum :=
  MkGroup (g_stream g) (g_consumer g) (g_seqs g ++ [q]).

(** The grouping pass.  [byGroup] holds pointers: the position of the group. *)
Fixpoint group_items (items : list SettleItem) (byToken : gset string) (groups : list groupSum)
    (byGroup : gmap string nat) : list slot * list groupSum :=
  match items with
  | [] => ([], groups)
  | it :: rest =>
      let tk := Token.TokenString (si_Token it) in
      if bool_decide (tk ∈ byToken) then
        let '(slots, gs) := group_items rest byToken groups byGroup in (SlotDup :: slots, gs)
      else
        let k := group_key it in
        let '(g, groups, byGroup) :=
          match byGroup !! k with
          | Some g => (g, groups, byGroup)
          | None => (length groups,
                     groups ++ [MkGroup (Token.Stream (si_Token it)) (Token.Consumer (si_Token it)) []],
                     <[k := length groups]> byGroup)
          end in
        let groups := alter (add_seq (Token.Seq (si_Token it))) g groups in
        let '(slots, gs) := group_items rest ({[tk]} ∪ byToken) groups byGroup in
        (SlotGroup (length groups - 1) :: slots, gs)
  end.

(** The working set of a group, loaded before any item is applied. *)
Definition load_group (d : db) (g : groupSum) : settleConsumer * gmap Z settleRow :=
  (loadSettleConsumer (g_stream g) (g_consumer g) d,
   loadSettleRows (g_stream g) (g_consumer g) (g_seqs g) d).

Record batch_acc : Set := MkAcc {
  ba_results : list ItemResult;
  ba_events : list event;
  ba_ok : Z;
  ba_failed : Z;
  ba_budget : option DeadBudget;
}.

Definition settle_step (now : Z) (loaded : list (settleConsumer * gmap Z settleRow))
    (x : SettleItem * slot) (acc : batch_acc) : tx batch_acc :=
  let '(it, sl) := x in
  match sl with
  | SlotDup =>
      mret (MkAcc (ba_results acc ++ [MkItemResult (si_Token it) ItemStatusStale 0 0 0 0 0 false false 0 None])
              (ba_events acc) (ba_ok acc + 1) (ba_failed acc) (ba_budget acc))
  | SlotGroup gi =>
      match loaded !! gi with
      | None => fail (Plain "index out of range")
      | Some (con, rows) =>
          '(res, evs, budget) ← applyOne now it con rows (ba_budget acc);
          let ok := match ir_Status res with ItemStatusOK | ItemStatusStale => true | _ => false end in
          mret (MkAcc (ba_results acc ++ [res]) (ba_events acc ++ evs)
                  (ba_ok acc + if ok : bool then 1 else 0) (ba_failed acc + if ok then 0 else 1) budget)
      end
  end.

Definition SettleCmd (items : list SettleItem) (now : Z) : tx (SettleResult * list event) :=
  let '(slots, groups) := group_items items ∅ [] ∅ in
  loaded ← query (fun d => map (load_group d) groups);
  acc ← for_each (zip items slots) (MkAcc [] [] 0 0 (NewDeadBudget (se_dlq env))) (settle_step now loaded);
  mret (MkSettleResult (ba_results acc) (ba_ok acc) (ba_failed acc), ba_events acc).

End Command.

(** ** The specification of a batch

    Every live row is resolved on its own: by the first item of the batch whose
    token names exactly this row, attempt and generation, as the planner decides
    from the state before the batch.  A row no token names stays as it is. *)

Section Spec.
Context (env : SettleEnv) (d : db) (now : Z).

Definition reason_of (it : SettleItem) : string :=
  truncateUTF8 (TrimSpace (si_Reason it)) (se_reasonCap env).

(** The planner's answer for an item, from the database alone. *)
Definition decision (it : SettleItem) : result SettlePlan :=
  let tok := si_Token it in
  let con := loadSettleConsumer (Token.Stream tok) (Token.Consumer tok) d in
  if sc_found con
  then PlanSettle (settle_request env it con
         (settle_row d <$> find_delivery (Token.Stream tok) (Token.Consumer tok) (Token.Seq tok) d)) now
  else Ok (plan_rejected ItemStatusUnknown "" 0).

Definition verdict (it : SettleItem) : ItemStatus :=
  match decision it with
  | Ok plan => Status plan
  | Err _ => ItemStatusUnknown
  end.

Definition effect (it : SettleItem) (plan : SettlePlan) (r : delivery) : option delivery :=
  match Action plan with
  | ActionNoop => Some r
  | ActionAck | ActionDead => None
  | ActionRelease => Some (release_row (NewVisibleAt plan) (reason_of it) r)
  | ActionExtend => Some (extend_row (NewVisibleAt plan) r)
  end.

Definition resolve_by (it : SettleItem) (r : delivery) : option delivery :=
  match decision it with
  | Ok plan => effect it plan r
  | Err _ => Some r
  end.

Definition resolve (items : list SettleItem) (r : delivery) : option delivery :=
  match List.find (fun it => fence (si_Token it) r) items with
  | None => Some r
  | Some it => resolve_by it r
  end.

(** The batch without its exact repeats, and the status each item is owed. *)
Fixpoint kept (seen : gset string) (items : list SettleItem) : list SettleItem :=
  match items with
  | [] => []
  | it :: rest =>
      let tk := Token.TokenString (si_Token it) in
      if bool_decide (tk ∈ seen) then kept seen rest else it :: kept ({[tk]} ∪ seen) rest
  end.

Fixpoint answers (seen : gset string) (items : list SettleItem) : list (Token.Token * ItemStatus) :=
  match items with
  | [] => []
  | it :: rest =>
      let tk := Token.TokenString (si_Token it) in
      if bool_decide (tk ∈ seen) then (si_Token it, ItemStatusStale) :: answers seen rest
      else (si_Token it, verdict it) :: answers ({[tk]} ∪ seen) rest
  end.

End Spec.

(** ** Facts *)

Section Facts.
Context `{Ids} `{!FreshIds} (env : SettleEnv).

Lemma fence_true tok r :
  fence tok r = true <->
  dkey r = (Token.Stream tok, Token.Consumer tok, Token.Seq tok) /\
  d_attempts r = Token.Attempt tok /\ d_generation r = Token.Generation tok.
Proof. unfold fence. bool_prop. tauto. Qed.

(** A row is named by one token only. *)
Lemma fence_token t t' r : fence t r = true -> fence t' r = true -> t = t'.
Proof.
  rewrite !fence_true. unfold dkey. destruct t, t'. simpl. intros ([= <- <- <-] & <- & <-) ([= -> -> ->] & -> & ->).
  done.
Qed.

(** What a statement of [applyAction] does to the pending set. *)
Definition apply_effect (it : SettleItem) (plan : SettlePlan) (t : list delivery) : list delivery :=
  omap (fun r => if fence (si_Token it) r then effect env it plan r else Some r) t.

Lemma resolve_fence d now items r r' tok :
  resolve env d now items r = Some r' -> fence tok r' = fence tok r.
Proof.
  unfold resolve, resolve_by, effect. destruct (List.find _ items) as [it|]; [|by intros [= <-]].
  destruct (decision env d now it) as [plan|]; [|by intros [= <-]]. destruct (Action plan); by intros [= <-].
Qed.

Lemma resolve_snoc d now pre it r :
  resolve env d now (pre ++ [it]) r =
  match List.find (fun it => fence (si_Token it) r) pre with
  | Some _ => resolve env d now pre r
  | None => if fence (si_Token it) r then resolve_by env d now it r else Some r
  end.
Proof.
  unfold resolve. induction pre as [|a pre IH]; simpl; [by destruct (fence (si_Token it) r)|].
  by destruct (fence (si_Token a) r).
Qed.

(** One more item of the batch: the row it names has not been touched yet. *)
Lemma apply_effect_resolve d now pre it plan t :
  decision env d now it = Ok plan ->
  (forall a, a ∈ pre -> si_Token a <> si_Token it) ->
  apply_effect it plan (omap (resolve env d now pre) t) = omap (resolve env d now (pre ++ [it])) t.
Proof.
  intros Hdec Hnew. unfold apply_effect. apply omap_omap. intros r _. rewrite resolve_snoc.
  destruct (List.find _ pre) as [a|] eqn:Hf.
  - apply find_some in Hf as [Ha Hfa]. apply list_elem_of_In in Ha.
    destruct (resolve env d now pre r) as [r'|] eqn:Hr; simpl; [|done].
    rewrite (resolve_fence _ _ _ _ _ _ Hr). destruct (fence (si_Token it) r) eqn:Hfi; [|done].
    destruct (Hnew a Ha). by eapply fence_token.
  - unfold resolve at 1. rewrite Hf. simpl. unfold resolve_by. rewrite Hdec. done.
Qed.

Lemma resolve_nil d now (t : list delivery) : omap (resolve env d now []) t = t.
Proof. by apply omap_id. Qed.

Lemma resolve_idle d now pre it (t : list delivery) :
  (forall plan, decision env d now it = Ok plan -> Action plan = ActionNoop) ->
  (forall a, a ∈ pre -> si_Token a <> si_Token it) ->
  omap (resolve env d now (pre ++ [it])) t = omap (resolve env d now pre) t.
Proof.
  intros Hidle Hnew. apply omap_same. intros r _. rewrite resolve_snoc.
  destruct (List.find _ pre) eqn:Hf; [done|]. unfold resolve. rewrite Hf. destruct (fence _ r); [|done].
  unfold resolve_by, effect. destruct (decision env d now it); [|done]. by rewrite Hidle.
Qed.

(** *** The planner on a live row *)

Lemma find_delivery_row d r : NoDup (map dkey (deliveries d)) -> r ∈ deliveries d ->
  find_delivery (d_stream r) (d_consumer r) (d_seq r) d = Some r.
Proof. intros Hnd Hr. by apply (query_row_unique dkey). Qed.

Lemma find_delivery_Some d s c q r :
  find_delivery s c q d = Some r -> r ∈ deliveries d /\ dkey r = (s, c, q).
Proof. intros [Hk%has_key_true Hr]%query_row_Some. done. Qed.

Lemma decision_state d now it k :
  Inv d k ->
  match decision env d now it with
  | Ok plan =>
      (Status plan = ItemStatusOK /\ Action plan <> ActionNoop /\
       sc_found (loadSettleConsumer (Token.Stream (si_Token it)) (Token.Consumer (si_Token it)) d) = true /\
       exists r, r ∈ deliveries d /\ fence (si_Token it) r = true /\
         (Action plan = ActionExtend -> d_state r = 1)) \/
      (Status plan <> ItemStatusOK /\ Action plan = ActionNoop)
  | Err e => is_kind ErrBadRequest e = true
  end.
Proof.
  intros [_ _ IC ID]. unfold decision, loadSettleConsumer.
  destruct (find_consumer _ _ d) as [c|] eqn:Hc; simpl; [|by right].
  destruct (find_delivery _ _ _ d) as [r|] eqn:Hr; simpl.
  - apply find_delivery_Some in Hr as [Hr Hk]. pose proof (inv_del_row _ _ _ ID r Hr) as Hrow.
    pose proof (PlanSettle_classified (settle_request env it (MkSettleConsumer true (c_generation c) (c_cursor_seq c)
      (settle_config c)) (Some (settle_row d r))) now) as Hcl. simpl in Hcl.
    specialize (Hcl ltac:(unfold StateReady, StateInflight; destruct Hrow; naive_solver)).
    destruct (PlanSettle _ _) as [plan|e]; [|naive_solver].
    apply settles_status in Hcl as [(? & ? & [Hg [_ Ha]] & Hx)|?]; [left|by right]. simpl in *.
    apply query_row_Some in Hc as [Hkc%has_key_true Hin].
    destruct (DelInv_consumer _ _ _ r c (inv_con_key _ _ IC) ID Hr Hin) as [Hgen _];
      [rewrite Hkc; by injection Hk as -> -> _|].
    split_and!; try done. exists r. split_and!; [done| |done]. apply fence_true. split_and!; [done|congruence..].
  - pose proof (PlanSettle_classified (settle_request env it (MkSettleConsumer true (c_generation c) (c_cursor_seq c)
      (settle_config c)) None) now) as Hcl. simpl in Hcl. specialize (Hcl (or_introl eq_refl)).
    destruct (PlanSettle _ _) as [plan|e]; [|naive_solver].
    apply settles_status in Hcl as [(_ & _ & [_ [Hp _]] & _)|?]; [done|by right].
Qed.

(** *** The statements *)

Lemma wp_exec_one what p f (Q : unit -> world -> Prop) F w :
  count p (deliveries (w_db w)) = 1 ->
  Q tt (World (on_deliveries f (w_db w)) (w_mem w)) -> wp (exec_one what p f) Q F w.
Proof. intros Hc HQ. unfold exec_one. wp_steps. rewrite Hc. simpl. by wp_steps. Qed.

(** The batch stops only where a message dies: on a header set that does not
    fit, or on an exhausted copy budget. *)
Definition dies (d : db) (now : Z) (it : SettleItem) : Prop :=
  exists plan, decision env d now it = Ok plan /\ Action plan = ActionDead.

Definition abort (P : Prop) (e : error) (_ : world) : Prop :=
  P /\ (e = DeadSink.header_error \/ e = ErrDeadBudget).

(** How the world moves while a batch runs: the pending set apart, only
    dead-letter copies are added. *)
Record settle_frame (w w' : world) : Prop := {
  stf_ok : world_ok w';
  stf_consumers : consumers (w_db w') = consumers (w_db w);
  stf_messages : messages (w_db w) `prefix_of` messages (w_db w');
}.

Lemma settle_frame_refl w : world_ok w -> settle_frame w w.
Proof. by split. Qed.

Lemma settle_frame_trans w1 w2 w3 : settle_frame w1 w2 -> settle_frame w2 w3 -> settle_frame w1 w3.
Proof. intros [_ ? ?] [? ? ?]. split; [done|congruence|by etrans]. Qed.

Lemma rejectionEvent_wp now it name reason res w :
  world_ok w ->
  wp (rejectionEvent now (se_interval env) it name reason res)
     (fun _ w' => settle_frame w w' /\ deliveries (w_db w') = deliveries (w_db w)) (fun _ _ => False) w.
Proof.
  intros Hok. unfold rejectionEvent. case_bool_decide; [by wp_steps|]. apply wp_bind.
  unfold get_limiter, wp. cbv beta iota. destruct (due _ _ _) as [[emit sup] lim'].
  apply (wp_bind (put_limiter _ _)). unfold put_limiter, wp at 1. cbv beta iota zeta.
  destruct emit; wp_steps; (split; [|done]); split; try done. by apply Inv_events.
Qed.

Lemma settle_frame_events f w w' :
  settle_frame w w' -> settle_frame w (World (on_events f (w_db w')) (w_mem w')).
Proof. intros []. split; try done. by apply Inv_events. Qed.

Lemma settle_frame_deliveries f w :
  world_ok w -> DelInv (messages (w_db w)) (consumers (w_db w)) (f (deliveries (w_db w))) ->
  settle_frame w (World (on_deliveries f (w_db w)) (w_mem w)).
Proof. intros [? ? ? ?] ?. by split. Qed.

Lemma settle_frame_sink w w' : DeadSink.sink_frame w w' -> settle_frame w w'.
Proof. by intros []. Qed.

Lemma fence_count d k tok r p :
  Inv d k -> r ∈ deliveries d -> p r = true -> (forall x, p x = true -> fence tok x = true) ->
  count p (deliveries d) = 1.
Proof.
  intros [_ _ _ ID] Hr Hp Hsub. eapply (count_one dkey); [by apply (inv_del_key _ _ _ ID)| |done|done].
  intros x Hx%Hsub%fence_true. by destruct Hx.
Qed.

Lemma effect_delete it plan t :
  Action plan = ActionAck \/ Action plan = ActionDead ->
  delete_where (fence (si_Token it)) t = apply_effect it plan t.
Proof. intros Ha. rewrite delete_omap. apply omap_same. intros r _. unfold effect. by destruct Ha as [-> | ->]. Qed.

Lemma effect_update it plan t p f :
  (forall r, r ∈ t -> fence (si_Token it) r = p r) ->
  (forall r, effect env it plan r = Some (f r)) -> update_where p f t = apply_effect it plan t.
Proof.
  intros Hp Hf. rewrite update_omap. apply omap_same. intros r Hr. rewrite (Hp r Hr), Hf. by destruct (p r).
Qed.

Lemma release_row_ok v reason r : row_ok r -> row_ok (release_row v reason r).
Proof. intros [[_ ?]|(_ & ? & _)]; left; simpl; split; [done|lia|done|lia]. Qed.

(** A planned mutation whose row is there is applied to exactly that row. *)
Lemma applyAction_wp now it plan row con res budget w r :
  world_ok w -> r ∈ deliveries (w_db w) -> fence (si_Token it) r = true ->
  Action plan <> ActionNoop -> (Action plan = ActionExtend -> d_state r = 1) ->
  wp (applyAction env now plan it row con (reason_of env it) res budget)
     (fun '(res', _, _) w' => settle_frame w w' /\
        deliveries (w_db w') = apply_effect it plan (deliveries (w_db w)) /\
        ir_Token res' = ir_Token res /\ ir_Status res' = ir_Status res) (abort (Action plan = ActionDead)) w.
Proof.
  intros Hok Hr Hf Hno Hext. pose proof Hok as [_ _ _ ID]. unfold applyAction.
  pose proof (fence_count _ _ (si_Token it) r (fence (si_Token it)) Hok Hr Hf ltac:(done)) as Hone.
  destruct (Action plan) eqn:Ha; [done|..].
  - apply wp_bind. apply wp_exec_one; [done|]. wp_steps. split_and!; [|simpl; apply effect_delete; by left|done..].
    apply settle_frame_events, settle_frame_deliveries; [done|]. by apply DelInv_delete.
  - apply wp_bind. apply wp_exec_one; [done|].
    set (f := release_row _ _). set (w1 := World _ _).
    assert (Hfr : settle_frame w w1).
    { apply settle_frame_deliveries; [done|]. apply DelInv_update; try done.
      intros x _. apply release_row_ok. }
    assert (Hef : deliveries (w_db w1) = apply_effect it plan (deliveries (w_db w))).
    { apply effect_update; [done|]. intros x. unfold effect. by rewrite Ha. }
    case_match; wp_steps; split_and!; try done. by apply settle_frame_events.
  - assert (Hst : d_state r = 1) by auto.
    apply wp_bind. apply wp_exec_one.
    { eapply (fence_count _ _ (si_Token it) r); [done|done|by rewrite Hf, Hst|]. by intros x [? _]%andb_true_iff. }
    wp_steps. split_and!; [..|done|done].
    + apply settle_frame_events, settle_frame_deliveries; [done|]. apply DelInv_update; done.
    + simpl. apply effect_update; [|intros x; unfold effect; by rewrite Ha].
      intros x Hx. destruct (fence (si_Token it) x) eqn:Hfx; [|done].
      apply fence_true in Hf as [Hk _], Hfx as [Hkx _].
      rewrite (key_unique dkey _ x r (inv_del_key _ _ _ ID) Hx Hr), Hst by congruence. done.
  - wp_steps. eapply wp_mono.
    { apply (DeadSink.Dead_wp (se_limits env) (se_dlq env)). by apply Inv_events. }
    + intros [ev budget'] w1 [Hsf _]. cbv beta iota. pose proof Hsf as [Hok1 _ Hd1 _ _]. simpl in Hd1.
      apply wp_bind, wp_exec_one; [by rewrite Hd1|]. wp_steps. split_and!; [|simpl; rewrite Hd1; apply effect_delete; by right|done..].
      eapply settle_frame_trans; [by apply settle_frame_events, settle_frame_refl|].
      eapply settle_frame_trans; [by apply settle_frame_sink|].
      apply settle_frame_deliveries; [done|]. apply DelInv_delete. by destruct Hok1.
    + intros e w1 He. split; [done|]. destruct He as [->|[-> _]]; auto.
Qed.

(** *** One item after the items [pre] *)

Definition progress (w0 : world) (now : Z) (pre : list SettleItem) (w : world) : Prop :=
  settle_frame w0 w /\
  deliveries (w_db w) = omap (resolve env (w_db w0) now pre) (deliveries (w_db w0)).

Lemma progress_idle w0 now pre it w w' :
  progress w0 now pre w -> settle_frame w w' -> deliveries (w_db w') = deliveries (w_db w) ->
  (forall plan, decision env (w_db w0) now it = Ok plan -> Action plan = ActionNoop) ->
  (forall a, a ∈ pre -> si_Token a <> si_Token it) -> progress w0 now (pre ++ [it]) w'.
Proof.
  intros [Hfr Hd] Hfr' Hd' Hidle Hnew. split; [by eapply settle_frame_trans|].
  rewrite Hd', Hd. by rewrite resolve_idle.
Qed.

Lemma unresolved_row d now pre it r :
  r ∈ deliveries d -> fence (si_Token it) r = true -> (forall a, a ∈ pre -> si_Token a <> si_Token it) ->
  r ∈ omap (resolve env d now pre) (deliveries d).
Proof.
  intros Hr Hf Hnew. apply list_elem_of_omap. exists r. split; [done|]. unfold resolve.
  destruct (List.find _ pre) as [a|] eqn:Ha; [|done]. apply find_some in Ha as [Ha%list_elem_of_In Hfa].
  destruct (Hnew a Ha). by eapply fence_token.
Qed.

Lemma applyOne_wp w0 now it pre rows budget w :
  let tok := si_Token it in
  world_ok w0 -> progress w0 now pre w -> (forall a, a ∈ pre -> si_Token a <> tok) ->
  rows !! Token.Seq tok = settle_row (w_db w0) <$> find_delivery (Token.Stream tok) (Token.Consumer tok)
                            (Token.Seq tok) (w_db w0) ->
  wp (applyOne env now it (loadSettleConsumer (Token.Stream tok) (Token.Consumer tok) (w_db w0)) rows budget)
     (fun '(res, _, _) w' => progress w0 now (pre ++ [it]) w' /\
        (ir_Token res, ir_Status res) = (tok, verdict env (w_db w0) now it))
     (abort (dies (w_db w0) now it)) w.
Proof.
  intros tok Hok0 Hpr Hnew Hrows. pose proof (stf_ok _ _ (proj1 Hpr)) as Hok.
  pose proof (decision_state (w_db w0) now it _ Hok0) as Hdec.
  pose proof (progress_idle w0 now pre it w) as Hidle. unfold applyOne, verdict. revert Hdec Hidle.
  unfold decision. fold tok. set (con := loadSettleConsumer _ _ _).
  destruct (sc_found con) eqn:Hfound; simpl; [|].
  2:{ intros _ Hidle. wp_steps. split; [|done]. apply Hidle; try done.
      by intros ? [= <-]. }
  rewrite Hrows. destruct (PlanSettle _ _) as [plan|e] eqn:Hplan.
  2:{ intros -> Hidle. wp_steps. split; [|done]. apply Hidle; done. }
  assert (Hd : decision env (w_db w0) now it = Ok plan).
  { unfold decision. fold tok con. by rewrite Hfound. }
  intros [(Hst & Hact & _ & r & Hr & Hf & Hx)|[Hst Hact]] Hidle.
  - rewrite Hst. eapply wp_mono; [eapply (applyAction_wp _ _ _ _ _ _ _ _ r); try done| |].
    + rewrite (proj2 Hpr). by apply (unresolved_row _ _ _ it).
    + intros [[res evs] b] w' (Hfr & Hdel & -> & ->). split; [|done].
      split; [by eapply settle_frame_trans; [apply Hpr|]|]. rewrite Hdel, (proj2 Hpr).
      by apply apply_effect_resolve.
    + intros e w' [Hdead He]. split; [by exists plan|done].
  - assert (Hidle' : forall w', settle_frame w w' -> deliveries (w_db w') = deliveries (w_db w) ->
              progress w0 now (pre ++ [it]) w').
    { intros w' ? ?. apply Hidle; try done. by intros ? [= <-]. }
    destruct (Status plan) eqn:Hs; try done; wp_steps.
    1-3: eapply wp_mono; [by apply rejectionEvent_wp| |done]; intros evs w' [??]; wp_steps; auto.
    split; [|done]. by apply Hidle', eq_refl; apply settle_frame_refl.
Qed.

(** *** A batch for one consumer *)

Lemma loadSettleRows_lookup d s n seqs q :
  NoDup (map dkey (deliveries d)) -> q ∈ seqs ->
  loadSettleRows s n seqs d !! q = settle_row d <$> find_delivery s n q d.
Proof.
  intros Hnd Hq. unfold loadSettleRows. set (t := where_ _ _).
  assert (Ht : forall r, r ∈ t <-> r ∈ deliveries d /\ held_by s n r = true /\ d_seq r ∈ seqs).
  { intros r. unfold t. rewrite elem_of_where, andb_true_iff, bool_decide_eq_true. tauto. }
  destruct (find_delivery s n q d) as [r|] eqn:Hf; simpl.
  - apply find_delivery_Some in Hf as [Hr Hk]. injection Hk as Hs Hn <-.
    apply elem_of_list_to_map_1.
    + change (fmap fst ?l) with (map fst l). rewrite map_map. apply (held_seqs_nodup s n); [by apply key_where|].
      by intros r' (_ & ? & _)%Ht.
    + apply (in_mapped (fun r => (d_seq r, settle_row d r))), Ht. split_and!; [done| |done].
      by apply held_by_true.
  - apply not_elem_of_list_to_map_1. change (fmap fst ?l) with (map fst l). rewrite map_map.
    intros (r & -> & (Hr & [Hs Hn]%held_by_true & _)%Ht)%mapped_in. simpl in *.
    eapply query_row_None in Hf; [|exact Hr]. apply bool_decide_eq_false in Hf. destruct Hf.
    unfold dkey. congruence.
Qed.

Fixpoint slots_of (seen : gset string) (items : list SettleItem) : list slot :=
  match items with
  | [] => []
  | it :: rest =>
      let tk := Token.TokenString (si_Token it) in
      if bool_decide (tk ∈ seen) then SlotDup :: slots_of seen rest
      else SlotGroup 0 :: slots_of ({[tk]} ∪ seen) rest
  end.

Definition targets (s n : string) (it : SettleItem) : Prop :=
  Token.Stream (si_Token it) = s /\ Token.Consumer (si_Token it) = n.

Definition kept_seqs (seen : gset string) (items : list SettleItem) : list Z :=
  map (fun it => Token.Seq (si_Token it)) (kept seen items).

Lemma group_items_more s n items seen seqs byGroup :
  Forall (targets s n) items -> byGroup !! (s +:+ Fetch.nul +:+ n) = Some 0%nat ->
  group_items items seen [MkGroup s n seqs] byGroup =
  (slots_of seen items, [MkGroup s n (seqs ++ kept_seqs seen items)]).
Proof.
  intros Ht Hg. revert seen seqs. induction Ht as [|it items [Hs Hn] _ IH]; intros seen seqs; simpl.
  - by rewrite app_nil_r.
  - unfold kept_seqs. simpl. case_bool_decide as Hd.
    + by rewrite IH.
    + unfold group_key. rewrite Hs, Hn, Hg. simpl. unfold add_seq. simpl. rewrite IH. unfold kept_seqs. by rewrite <-app_assoc.
Qed.

Lemma group_items_one s n it items :
  Forall (targets s n) (it :: items) ->
  group_items (it :: items) ∅ [] ∅ =
  (slots_of ∅ (it :: items), [MkGroup s n (kept_seqs ∅ (it :: items))]).
Proof.
  intros [[Hs Hn] Ht]%Forall_cons. simpl. rewrite bool_decide_false by set_solver.
  unfold group_key. rewrite Hs, Hn. simpl. rewrite lookup_empty. simpl. unfold add_seq. simpl.
  rewrite (group_items_more s n); [|done|by rewrite lookup_insert_eq]. unfold kept_seqs. simpl.
  rewrite bool_decide_false by set_solver. done.
Qed.

Definition succeeded (a : Token.Token * ItemStatus) : bool :=
  match a.2 with
  | ItemStatusOK | ItemStatusStale => true
  | _ => false
  end.

Definition outcome (r : ItemResult) : Token.Token * ItemStatus := (ir_Token r, ir_Status r).

(** The tokens of [pre] are among [seen]. *)
Definition covered (pre : list SettleItem) (seen : gset string) : Prop :=
  forall a, a ∈ pre -> Token.TokenString (si_Token a) ∈ seen.

Lemma settle_loop_wp w0 now s n rows items seen pre acc w :
  world_ok w0 -> Forall (targets s n) items -> progress w0 now pre w -> covered pre seen ->
  (forall it, it ∈ kept seen items -> rows !! Token.Seq (si_Token it) =
     settle_row (w_db w0) <$> find_delivery s n (Token.Seq (si_Token it)) (w_db w0)) ->
  let ans := answers env (w_db w0) now seen items in
  wp (for_each (zip items (slots_of seen items)) acc
        (settle_step env now [(loadSettleConsumer s n (w_db w0), rows)]))
     (fun acc' w' => progress w0 now (pre ++ kept seen items) w' /\
        map outcome (ba_results acc') = map outcome (ba_results acc) ++ ans /\
        ba_ok acc' = ba_ok acc + count succeeded ans /\
        ba_failed acc' = ba_failed acc + count (fun a => negb (succeeded a)) ans)
     (abort (exists it, it ∈ items /\ dies (w_db w0) now it)) w.
Proof.
  intros Hok0 Ht. revert seen pre acc w. induction Ht as [|it items Htgt _ IH]; intros seen pre acc w Hpr Hcov Hrows.
  - simpl. wp_steps. rewrite !app_nil_r, !count_nil. split_and!; [done|done|lia|lia].
  - simpl in Hrows |- *. case_bool_decide as Hd; cbn [zip zip_with for_each settle_step].
    + wp_steps. eapply wp_mono; [by apply IH| |intros e w' [(a & ? & ?) He]; split; [exists a; set_solver|done]].
      simpl. intros acc' w' (? & Hres & Hok' & Hfail).
      rewrite Hres, map_app, <-app_assoc, !count_cons. simpl. split_and!; [done|done|lia|lia].
    + apply wp_bind. simpl. apply wp_bind.
      assert (Hnew : forall a, a ∈ pre -> si_Token a <> si_Token it).
      { intros a Ha Heq. apply Hd. rewrite <-Heq. by apply Hcov. }
      pose proof (applyOne_wp w0 now it pre rows (ba_budget acc) w Hok0 Hpr Hnew) as Hone.
      destruct Htgt as [Hs Hn]. rewrite Hs, Hn in Hone. specialize (Hone (Hrows it ltac:(set_solver))).
      eapply wp_mono; [exact Hone| |intros e w' [? He]; split; [exists it; set_solver|done]].
      intros [[res evs] b] w1 [Hpr1 Hans]. cbv beta iota. wp_steps.
      eapply wp_mono; [apply (IH ({[Token.TokenString (si_Token it)]} ∪ seen) (pre ++ [it]))| |].
      * done.
      * intros a [Ha| ->]%elem_of_snoc; [apply Hcov in Ha|]; set_solver.
      * set_solver.
      * simpl. intros acc' w' (Hp & Hres & Hok' & Hfail). rewrite Hres, map_app, <-app_assoc, !count_cons.
        rewrite <-app_assoc in Hp. simpl in *. unfold outcome at 2. rewrite Hans. split_and!; try done.
        all: injection Hans as _ <-; unfold succeeded at 1; simpl; destruct (ir_Status res); simpl in *; lia.
      * intros e w' [(a & ? & ?) He]. split; [exists a; set_solver|done].
Qed.

(** *** Any batch

    Whatever the grouping does, the fence in the statements holds: a row no
    token of the batch names exactly is not touched, and a row that is touched
    keeps its identity, its attempt and its generation. *)

Definition touched (toks : list Token.Token) (t t' : list delivery) : Prop :=
  exists f, t' = omap f t /\
    (forall r, (forall tok, tok ∈ toks -> fence tok r = false) -> f r = Some r) /\
    (forall r r', f r = Some r' -> dkey r' = dkey r /\ d_attempts r' = d_attempts r /\
       d_generation r' = d_generation r).

Lemma touched_refl toks t : touched toks t t.
Proof.
  exists Some. split; [by rewrite omap_id|by naive_solver].
Qed.

Lemma fence_same tok r r' :
  dkey r' = dkey r -> d_attempts r' = d_attempts r -> d_generation r' = d_generation r ->
  fence tok r' = fence tok r.
Proof. unfold fence. by intros -> -> ->. Qed.

Lemma touched_trans toks t1 t2 t3 : touched toks t1 t2 -> touched toks t2 t3 -> touched toks t1 t3.
Proof.
  intros (f & -> & Hf & Hf') (g & -> & Hg & Hg'). exists (fun r => r' ← f r; g r').
  split; [by apply omap_omap|]. split.
  - intros r Hr. rewrite (Hf r Hr). by apply Hg.
  - intros r r' Hr. destruct (f r) as [r1|] eqn:Hr1; simpl in Hr; [|done].
    apply Hf' in Hr1 as (? & ? & ?). apply Hg' in Hr as (? & ? & ?). split_and!; congruence.
Qed.

Lemma touched_mono toks toks' t t' : toks ⊆ toks' -> touched toks t t' -> touched toks' t t'.
Proof. intros Hsub (f & ? & Hf & ?). exists f. split_and!; [done| |done]. intros r Hr. apply Hf. auto. Qed.

Lemma touched_delete tok p t :
  (forall r, p r = true -> fence tok r = true) -> touched [tok] t (delete_where p t).
Proof.
  intros Hp. exists (fun r => if p r then None else Some r). split; [apply delete_omap|]. split.
  - intros r Hr. destruct (p r) eqn:Hpr; [|done]. specialize (Hp r Hpr). rewrite Hr in Hp by set_solver. done.
  - intros r r'. destruct (p r); by intros [= <-].
Qed.

Lemma touched_update tok p f t :
  (forall r, p r = true -> fence tok r = true) ->
  (forall r, dkey (f r) = dkey r /\ d_attempts (f r) = d_attempts r /\ d_generation (f r) = d_generation r) ->
  touched [tok] t (update_where p f t).
Proof.
  intros Hp Hf. exists (fun r => Some (if p r then f r else r)). split; [apply update_omap|]. split.
  - intros r Hr. destruct (p r) eqn:Hpr; [|done]. specialize (Hp r Hpr). rewrite Hr in Hp by set_solver. done.
  - intros r r' [= <-]. destruct (p r); [apply Hf|done].
Qed.

Definition settle_any (toks : list Token.Token) (w w' : world) : Prop :=
  settle_frame w w' /\ touched toks (deliveries (w_db w)) (deliveries (w_db w')).

Lemma settle_any_refl toks w : world_ok w -> settle_any toks w w.
Proof. intros. split; [by apply settle_frame_refl|apply touched_refl]. Qed.

Lemma settle_any_trans toks w1 w2 w3 :
  settle_any toks w1 w2 -> settle_any toks w2 w3 -> settle_any toks w1 w3.
Proof. intros [? ?] [? ?]. split; [by eapply settle_frame_trans|by eapply touched_trans]. Qed.

Lemma wp_exec_one_any what p f toks (Q : unit -> world -> Prop) w :
  (forall w', settle_any toks w w' -> Q tt w') -> world_ok w ->
  DelInv (messages (w_db w)) (consumers (w_db w)) (f (deliveries (w_db w))) ->
  touched toks (deliveries (w_db w)) (f (deliveries (w_db w))) ->
  wp (exec_one what p f) Q any_error w.
Proof.
  intros HQ Hok HD Ht. unfold exec_one. wp_steps. case_match; [|by wp_steps]. wp_steps. apply HQ.
  split; [by apply settle_frame_deliveries|done].
Qed.

Lemma settle_any_event toks f w w' :
  settle_any toks w w' -> settle_any toks w (World (on_events f (w_db w')) (w_mem w')).
Proof. intros [? ?]. split; [by apply settle_frame_events|done]. Qed.

Lemma applyAction_any now it plan row con reason res budget w :
  world_ok w ->
  wp (applyAction env now plan it row con reason res budget)
     (fun _ w' => settle_any [si_Token it] w w') any_error w.
Proof.
  intros Hok. pose proof Hok as [_ _ _ ID]. unfold applyAction. destruct (Action plan).
  - wp_steps. by apply settle_any_refl.
  - wp_steps. eapply (wp_exec_one_any _ _ _ [si_Token it]); [|done|by apply DelInv_delete|by apply touched_delete].
    intros w' Hw'. wp_steps. by apply settle_any_event.
  - wp_steps. eapply (wp_exec_one_any _ _ _ [si_Token it]); [|done| |by apply touched_update].
    + intros w' Hw'. case_match; wp_steps; [by apply settle_any_event|done].
    + apply DelInv_update; try done. intros r _. apply release_row_ok.
  - wp_steps. eapply (wp_exec_one_any _ _ _ [si_Token it]); [|done|by apply DelInv_update|].
    + intros w' Hw'. wp_steps. by apply settle_any_event.
    + apply touched_update; [|done]. by intros r [? _]%andb_true_iff.
  - wp_steps. eapply wp_mono; [apply (DeadSink.Dead_wp (se_limits env) (se_dlq env)); by apply Inv_events| |done].
    intros [ev b] w1 [Hsf _]. cbv beta iota. pose proof (DeadSink.snk_ok _ _ Hsf) as Hok1. wp_steps.
    eapply (wp_exec_one_any _ _ _ [si_Token it]); [|done| |by apply touched_delete].
    + intros w' Hw'. wp_steps. eapply settle_any_trans; [|exact Hw'].
      split; [|rewrite (DeadSink.snk_deliveries _ _ Hsf); apply touched_refl].
      eapply settle_frame_trans; [by apply settle_frame_events, settle_frame_refl|by apply settle_frame_sink].
    + apply DelInv_delete. by destruct Hok1.
Qed.

Lemma applyOne_any now it con rows budget w :
  world_ok w ->
  wp (applyOne env now it con rows budget) (fun _ w' => settle_any [si_Token it] w w') any_error w.
Proof.
  intros Hok. assert (Hrej : forall name reason res,
    wp (evs ← rejectionEvent now (se_interval env) it name reason res; mret (res, evs, budget))
       (fun _ w' => settle_any [si_Token it] w w') any_error w).
  { intros name reason res. wp_steps. eapply wp_mono; [by apply rejectionEvent_wp| |done].
    intros evs w' [Hfr Hd]. wp_steps. split; [done|]. rewrite Hd. apply touched_refl. }
  unfold applyOne. repeat case_match; try (wp_steps; by apply settle_any_refl); try apply Hrej; try by wp_steps.
  by apply applyAction_any.
Qed.

Lemma SettleCmd_any items now w :
  world_ok w ->
  wp (SettleCmd env items now) (fun _ w' => settle_any (map si_Token items) w w') any_error w.
Proof.
  intros Hok. unfold SettleCmd. destruct (group_items _ _ _ _) as [slots groups]. wp_steps.
  set (loaded := map _ groups).
  assert (Hsub : forall it sl, (it, sl) ∈ zip items slots -> [si_Token it] ⊆ map si_Token items).
  { intros it sl Hz tok ->%list_elem_of_singleton. apply in_mapped. by eapply elem_of_zip_l. }
  apply (wp_for_each _ _ _ (fun l _ w' => l ⊆ zip items slots /\ settle_any (map si_Token items) w w')).
  - split; [done|]. by apply settle_any_refl.
  - intros [it sl] rest acc w1 [Hl Hw1]. unfold settle_step.
    destruct sl as [|gi]; [wp_steps; set_solver|]. destruct (loaded !! gi) as [[con rows]|]; [|by wp_steps].
    wp_steps. eapply wp_mono; [apply applyOne_any, (stf_ok _ _ (proj1 Hw1))| |done].
    intros [[res evs] b] w2 [Hfr Ht]. cbv beta iota. wp_steps. split; [set_solver|].
    eapply settle_any_trans; [done|]. split; [done|]. eapply touched_mono; [|done].
    apply (Hsub it (SlotGroup gi)). set_solver.
  - intros acc w' [_ Hw']. by wp_steps.
Qed.

(** A batch whose items all target one consumer. *)
Lemma SettleCmd_one_wp items now s n w :
  world_ok w -> Forall (targets s n) items ->
  let ans := answers env (w_db w) now ∅ items in
  wp (SettleCmd env items now)
     (fun '(res, _) w' => progress w now (kept ∅ items) w' /\ map outcome (Results res) = ans /\
        OKs res = count succeeded ans /\ Failed res = count (fun a => negb (succeeded a)) ans)
     (abort (exists it, it ∈ items /\ dies (w_db w) now it)) w.
Proof.
  intros Hok Ht. assert (Hpr : progress w now [] w).
  { split; [by apply settle_frame_refl|]. symmetry. apply resolve_nil. }
  destruct items as [|it items]; [unfold SettleCmd; simpl; by wp_steps|].
  unfold SettleCmd. rewrite (group_items_one s n) by done. wp_steps. unfold load_group. simpl map.
  eapply wp_mono; [eapply (settle_loop_wp w now s n _ _ ∅ []); try done| |done].
  - set_solver.
  - intros a Ha. apply loadSettleRows_lookup; [apply (inv_del_key _ _ _ (inv_deliveries _ _ Hok))|].
    by apply (in_mapped (fun it => Token.Seq (si_Token it))).
  - intros acc w' (Hp & Hres & Hok' & Hf). wp_steps. by split_and!.
Qed.

(** The answer to an ack whose token names a live row. *)
Lemma ack_decision d now k it r :
  Inv d k -> r ∈ deliveries d -> fence (si_Token it) r = true -> si_Verb it = VerbAck ->
  exists plan, decision env d now it = Ok plan /\ Status plan = ItemStatusOK /\ Action plan = ActionAck.
Proof.
  intros [_ _ IC ID] Hr Hf Hv. apply fence_true in Hf as (Hk & Ha & Hg).
  destruct (inv_del_con _ _ _ ID r Hr) as (c & Hc & Hkc & Hgc & _). injection Hk as Hs Hn Hq.
  unfold decision, loadSettleConsumer. rewrite <-Hs, <-Hn, <-Hq.
  assert (find_consumer (d_stream r) (d_consumer r) d = Some c) as ->
    by (by apply (query_row_unique ckey); [apply IC|..]).
  rewrite find_delivery_row by (done || apply ID). simpl. unfold PlanSettle. simpl.
  rewrite <-Hg, Hgc, Z.eqb_refl, <-Ha, Z.eqb_refl, Hv. simpl. eexists. split; [done|]. done.
Qed.

(** ** Theorems *)

(** C1: A settle batch for one consumer refines the row-by-row specification.
    Started in a store that satisfies the invariant, it keeps the invariant and
    the consumers, only appends messages (dead-letter copies), and leaves
    exactly the pending set in which every row was resolved by the first item
    whose token names that row, attempt and generation, as the planner decides
    from the state before the batch.  The results are in request order with the
    planner's status for each item (an exact repeat is answered stale), and the
    counters count them.  It can stop early only when some item kills a message
    and the copy's headers or the copy budget do not admit it. *)
Theorem settle_refines (items : list SettleItem) (now : Z) (s n : string) (w : world) :
  world_ok w -> Forall (targets s n) items ->
  wp (SettleCmd env items now)
     (fun '(res, _) w' => world_ok w' /\ consumers (w_db w') = consumers (w_db w) /\
        messages (w_db w) `prefix_of` messages (w_db w') /\
        deliveries (w_db w') = omap (resolve env (w_db w) now (kept ∅ items)) (deliveries (w_db w)) /\
        map outcome (Results res) = answers env (w_db w) now ∅ items /\
        OKs res = count succeeded (answers env (w_db w) now ∅ items) /\
        OKs res + Failed res = Z.of_nat (length items))
     (fun e _ => (exists it, it ∈ items /\ dies (w_db w) now it) /\
        (e = DeadSink.header_error \/ e = ErrDeadBudget)) w.
Proof.
  intros Hok Ht. eapply wp_mono; [by apply (SettleCmd_one_wp items now s n)| |done].
  intros [res evs] w' ([[Hok' Hc Hm] Hd] & Hres & Hoks & Hfail). split_and!; try done.
  rewrite Hoks, Hfail, count_split. f_equal. clear. generalize (∅ : gset string).
  induction items as [|it items IH]; intros seen; simpl; [done|]. case_bool_decide; simpl; by rewrite IH.
Qed.

(** C9: Fencing (invariant I7), for every batch, mixed consumers included: a
    successful settle keeps the invariant and the consumers, leaves every row
    that no token of the batch names exactly (stream, consumer, sequence,
    attempt, generation) untouched, and never creates a row or changes the
    identity, the attempt count or the generation of one. *)
Theorem settle_fenced (items : list SettleItem) (now : Z) (w w' : world) (res : SettleResult) (evs : list event) :
  world_ok w -> SettleCmd env items now w = (w', Ok (res, evs)) ->
  world_ok w' /\ consumers (w_db w') = consumers (w_db w) /\
  (forall r, r ∈ deliveries (w_db w) -> (forall it, it ∈ items -> fence (si_Token it) r = false) ->
     r ∈ deliveries (w_db w')) /\
  (forall r', r' ∈ deliveries (w_db w') -> exists r, r ∈ deliveries (w_db w) /\
     dkey r' = dkey r /\ d_attempts r' = d_attempts r /\ d_generation r' = d_generation r).
Proof.
  intros Hok Hrun. destruct (wp_run _ _ _ _ _ _ (SettleCmd_any items now w Hok) Hrun) as [[Hok' Hc _] (f & -> & Hf & Hk)].
  split_and!; [done|done|..].
  - intros r Hr Hno. apply list_elem_of_omap. exists r. split; [done|]. apply Hf.
    intros tok (it & -> & Hit)%mapped_in. auto.
  - intros r' (r & Hr & Hr')%list_elem_of_omap. exists r. split; [done|]. auto.
Qed.

Definition ack_item (tok : Token.Token) : SettleItem := MkSettleItem tok VerbAck None "".

(** An ack whose token names a live row succeeds and removes exactly that row. *)
Lemma ack_live_wp tok now w r :
  world_ok w -> r ∈ deliveries (w_db w) -> fence tok r = true ->
  wp (SettleCmd env [ack_item tok] now)
     (fun '(res, _) w' => world_ok w' /\ consumers (w_db w') = consumers (w_db w) /\
        map outcome (Results res) = [(tok, ItemStatusOK)] /\
        deliveries (w_db w') = delete_where (has_key dkey (dkey r)) (deliveries (w_db w)))
     (fun _ _ => False) w.
Proof.
  intros Hok Hr Hf. destruct (ack_decision _ now _ (ack_item tok) r Hok Hr Hf eq_refl) as (plan & Hdec & Hst & Hact).
  eapply wp_mono; [apply (SettleCmd_one_wp [ack_item tok] now (Token.Stream tok) (Token.Consumer tok) w Hok)| |].
  - by repeat constructor.
  - intros [res evs] w' ([[Hok' Hc _] Hd] & Hres & _). split_and!; [done|done|..].
    + rewrite Hres. simpl. rewrite bool_decide_false by set_solver. unfold verdict. by rewrite Hdec, Hst.
    + rewrite Hd, delete_omap. apply omap_same. intros x Hx. unfold resolve. simpl.
      rewrite bool_decide_false by set_solver. simpl.
      assert (fence tok x = has_key dkey (dkey r) x) as ->.
      { apply eq_true_iff_eq. rewrite has_key_true. apply fence_true in Hf as Hf'. split.
        - intros [Hk _]%fence_true. destruct Hf' as [Hk' _]. congruence.
        - intros Hk. by rewrite (key_unique dkey _ x r (inv_del_key _ _ _ (inv_deliveries _ _ Hok)) Hx Hr Hk). }
      destruct (has_key _ _ x); [|done]. unfold resolve_by, effect. by rewrite Hdec, Hact.
  - intros e w' [(it & ->%list_elem_of_singleton & plan' & Hdec' & Hact') _]. simplify_eq. congruence.
Qed.

(** An ack of a resolved delivery is answered stale and changes nothing. *)
Lemma ack_resolved_wp tok now w c :
  world_ok w -> c ∈ consumers (w_db w) -> ckey c = (Token.Stream tok, Token.Consumer tok) ->
  c_generation c = Token.Generation tok -> Token.Seq tok < c_cursor_seq c ->
  find_delivery (Token.Stream tok) (Token.Consumer tok) (Token.Seq tok) (w_db w) = None ->
  wp (SettleCmd env [ack_item tok] now)
     (fun '(res, _) w' => map outcome (Results res) = [(tok, ItemStatusStale)] /\
        deliveries (w_db w') = deliveries (w_db w))
     (fun _ _ => False) w.
Proof.
  intros Hok Hc Hk Hg Hcur Hnone.
  assert (Hdec : decision env (w_db w) now (ack_item tok) = Ok (plan_rejected ItemStatusStale "" 0)).
  { unfold decision, loadSettleConsumer. simpl.
    assert (find_consumer (Token.Stream tok) (Token.Consumer tok) (w_db w) = Some c) as ->.
    { apply (query_row_unique ckey); [apply (inv_consumers _ _ Hok)|done|done]. }
    simpl. rewrite Hnone. unfold PlanSettle. simpl. rewrite Hg, Z.eqb_refl. simpl.
    by rewrite (proj2 (Z.ltb_lt _ _) Hcur). }
  eapply wp_mono; [apply (SettleCmd_one_wp [ack_item tok] now (Token.Stream tok) (Token.Consumer tok) w Hok)| |].
  - by repeat constructor.
  - intros [res evs] w' ([_ Hd] & Hres & _). split.
    + rewrite Hres. simpl. rewrite bool_decide_false by set_solver. unfold verdict. by rewrite Hdec.
    + rewrite Hd. simpl. rewrite bool_decide_false by set_solver. simpl.
      etrans; [apply (resolve_idle (w_db w) now [])|apply resolve_nil]; [|set_solver].
      intros plan Hplan. rewrite Hdec in Hplan. by simplify_eq/=.
  - intros e w' [(it & ->%list_elem_of_singleton & plan' & Hdec' & Hact') _].
    rewrite Hdec in Hdec'. by simplify_eq/=.
Qed.

(** C7: Fetch then ack.  Every message a fetch hands out can be acknowledged with
    the token the answer carries, at any later instant while the lease stands:
    the ack succeeds, never aborts the batch, and removes exactly that row from
    the pending set; acknowledging it again is answered stale and changes
    nothing (idempotence, T3a). *)
Theorem fetch_then_ack (s n : string) (batch maxBytes : Z) (limits : ConsumerLimits) (now now1 now2 : Z)
    (w w1 : world) (fr : Fetch.fetchResult) (evs : list event) (cd : Fetch.claimedDelivery) :
  world_ok w -> Fetch.fetchCmd s n batch maxBytes limits now w = (w1, Ok (fr, evs)) ->
  cd ∈ Fetch.fr_claimed fr ->
  let tok := Fetch.token_of fr cd in
  wp (SettleCmd env [ack_item tok] now1)
     (fun '(res, _) w2 => world_ok w2 /\ map outcome (Results res) = [(tok, ItemStatusOK)] /\
        deliveries (w_db w2) = delete_where (has_key dkey (s, n, Fetch.cd_seq cd)) (deliveries (w_db w1)) /\
        wp (SettleCmd env [ack_item tok] now2)
           (fun '(res', _) w3 => map outcome (Results res') = [(tok, ItemStatusStale)] /\
              deliveries (w_db w3) = deliveries (w_db w2)) (fun _ _ => False) w2)
     (fun _ _ => False) w1.
Proof.
  intros Hok Hrun Hcd tok.
  destruct (wp_run _ _ _ _ _ _ (Fetch.fetchCmd_wp w s n batch maxBytes limits now Hok) Hrun) as (c & Hfind & Hres).
  destruct (Fetch.find_consumer_ok _ _ _ _ Hok Hfind) as (Hc & <- & <-). destruct (c_paused c).
  { destruct Hres as (Hnil & _). rewrite Hnil in Hcd. set_solver. }
  destruct Hres as (set & next & w0 & admitted & rows & Hf). pose proof (Fetch.fetched_ok _ _ _ _ _ _ _ _ _ _ _ _ Hf) as Hok1.
  destruct (Fetch.fetched_lease _ _ _ _ _ _ _ _ _ _ _ _ _ Hok Hc Hf Hcd) as (r & Hr & Hk & _ & Ha & Hg & _).
  destruct (Fetch.fet_token _ _ _ _ _ _ _ _ _ _ _ _ Hf) as (Hs & Hn & _).
  assert (Hfence : fence tok r = true) by (apply fence_true; unfold tok; simpl; rewrite Hs, Hn; done).
  eapply wp_mono; [by apply (ack_live_wp tok now1 w1 r)| |done].
  intros [res evs'] w2 (Hok2 & Hc2 & Hres & Hd). rewrite <-Hk. split_and!; try done.
  destruct (inv_del_con _ _ _ (inv_deliveries _ _ Hok1) r Hr) as (c1 & Hc1 & Hkc & Hgc & Hcur).
  apply fence_true in Hfence as (Hkt & _ & Hgt).
  eapply (ack_resolved_wp tok now2 w2 c1); try done; [by rewrite Hc2|..].
  - rewrite Hkc. unfold dkey in Hkt. congruence.
  - congruence.
  - assert (Token.Seq tok = d_seq r) as ->; [unfold dkey in Hkt; congruence|done].
  - unfold find_delivery. rewrite <-Hkt, Hd. apply query_row_deleted.
Qed.

End Facts.

(** *** The theorems at work *)

Import Samples.

Definition sample_env : SettleEnv :=
  MkSettleEnv DefaultLimits (DefaultDLQConfig DefaultLimits) (fun _ => None) (60 * Second) 4096 Hour.

Definition token (consumer : string) (seq attempt : Z) : Token.Token :=
  Token.MkToken "orders" consumer seq attempt 1.

Lemma settle_refines_witness :
  exists w' res evs, SettleCmd sample_env [ack_item (token "billing" 1 1); ack_item (token "billing" 1 1);
      ack_item (token "billing" 1 2)] 9000000 Fetch.after_fetch = (w', Ok (res, evs)) /\
    world_ok w' /\ OKs res + Failed res = 3 /\
    map ir_Status (Results res) = [ItemStatusOK; ItemStatusStale; ItemStatusStaleAck].
Proof.
  set (items := [_; _; _]).
  pose proof (settle_refines sample_env items 9000000 "orders" "billing" Fetch.after_fetch Fetch.after_fetch_ok
    ltac:(by repeat constructor)) as Hs.
  unfold wp in Hs. destruct (SettleCmd _ _ _ _) as [w' [[res evs]|e]] eqn:Hrun; [|vm_compute in Hrun; discriminate].
  exists w', res, evs. destruct Hs as (Hok & _ & _ & _ & Hres & _ & Hsum). split_and!; [done|done|done|].
  vm_compute in Hrun. by injection Hrun as _ <- _.
Defined.

Lemma settle_fenced_witness :
  exists w' res evs, SettleCmd sample_env [ack_item (token "billing" 1 7); ack_item (token "mailing" 1 1)]
      9000000 Fetch.after_fetch = (w', Ok (res, evs)) /\
    deliveries (w_db Fetch.after_fetch) <> [] /\
    forall r, r ∈ deliveries (w_db Fetch.after_fetch) -> r ∈ deliveries (w_db w').
Proof.
  destruct (SettleCmd _ _ _ _) as [w' [[res evs]|e]] eqn:Hrun; [|vm_compute in Hrun; discriminate].
  exists w', res, evs. split; [done|]. split; [by vm_compute|]. intros r Hr.
  apply (settle_fenced sample_env _ 9000000 Fetch.after_fetch w' res evs Fetch.after_fetch_ok Hrun); [done|].
  vm_compute in Hr. apply list_elem_of_singleton in Hr as ->. clear Hrun. intros it [-> |[-> |[]%elem_of_nil]%elem_of_cons]%elem_of_cons; by vm_compute.
Defined.

Lemma fetch_then_ack_witness :
  exists fr evs cd, Fetch.fetchCmd "orders" "billing" 10 4096 DefaultConsumerLimits 8000000 Publish.after_publish
      = (Fetch.after_fetch, Ok (fr, evs)) /\ cd ∈ Fetch.fr_claimed fr /\
    wp (SettleCmd sample_env [ack_item (Fetch.token_of fr cd)] 9000000)
       (fun '(res, _) w2 => deliveries (w_db w2) = []) (fun _ _ => False) Fetch.after_fetch.
Proof.
  destruct (Fetch.fetchCmd "orders" "billing" 10 4096 DefaultConsumerLimits 8000000 Publish.after_publish)
    as [w1 [[fr evs]|e]] eqn:Hrun; [|vm_compute in Hrun; discriminate].
  assert (w1 = Fetch.after_fetch) as -> by (unfold Fetch.after_fetch; by rewrite Hrun).
  set (cd := Fetch.MkClaimed 1 1 30008 30000).
  assert (Hcd : cd ∈ Fetch.fr_claimed fr) by (vm_compute in Hrun; injection Hrun as <- _; by apply list_elem_of_singleton).
  exists fr, evs, cd. split; [done|]. split; [done|].
  pose proof (fetch_then_ack sample_env "orders" "billing" 10 4096 DefaultConsumerLimits 8000000 9000000 9500000
    Publish.after_publish Fetch.after_fetch fr evs cd Publish.after_publish_ok Hrun Hcd) as Hack.
  cbv zeta in Hack. eapply wp_mono; [exact Hack| |by intros].
  intros [res evs'] w2 (_ & _ & Hd & _). rewrite Hd. by vm_compute.
Defined.

(** *** Interleaved consumers *)

Definition two_orders : list PublishReq.PublishReq :=
  [PublishReq.MkPublishReq "orders.created" [] "{}" "key-1" "";
   PublishReq.MkPublishReq "orders.created" [] "{}" "key-2" ""].

Definition fetch_all (consumer : string) (w : world) : world :=
  fst (Fetch.fetchCmd "orders" consumer 10 4096 DefaultConsumerLimits 8000000 w).

(** Two messages, each in flight at both consumers. *)
Definition both_fetched : world :=
  fetch_all "mailing" (fetch_all "billing"
    (fst (Publish.batchPublishCmd DefaultLimits "orders" two_orders 7000000 base))).


End StoreSettle.
