(* ===== verification/ApiSettle.v ===== *)
(** * The settle endpoints

    [internal/api/settle.go]: the accepted spellings of a settle request, the
    split between tokens that parse and placeholders for those that do not, the
    merge of the store's results back into request order, and the projection of
    a single outcome onto the HTTP status. *)

From S2P Require Import StoreSettle ApiErrors.

Module ApiSettle.
Import Settle StoreSettle ApiErrors.

Record settleItemReq : Set := MkItemReq { iq_Token : string; iq_DelayMS : option Z; iq_Reason : string }.
Record settleReq : Set := MkSettleReq {
  sq_Token : string;
  sq_DelayMS : option Z;
  sq_Tokens : list string;
  sq_Items : list settleItemReq;
}.

Record settleItemResult : Set := MkWireResult {
  wr_Token : string;
  wr_Result : string;
  wr_Reason : string;
  wr_TokenAttempt : Z;
  wr_CurrentAttempt : Z;
}.

Record settleResponse : Set := MkSettleResponse { wp_Results : list settleItemResult; wp_OK : Z; wp_Stale : Z; wp_Unknown : Z }.

(** A slot of the request: its raw token, and whether it failed to parse. *)
Record settleSlot : Set := MkSlot { sl_raw : string; sl_bad : bool }.

Definition badShape (tag : string) : api_error := of_error (E ErrBadRequest tag).

(** The items a request spells, and whether it is the single form. *)
Definition spelled (verb : string) (req : settleReq) : api_error + (list settleItemReq * bool) :=
  let given := ((if bool_decide (sq_Token req = "") then 0 else 1)
                + (if (0 <? length (sq_Tokens req))%nat then 1 else 0)
                + (if (0 <? length (sq_Items req))%nat then 1 else 0))%nat in
  if (given =? 0)%nat then inl (badShape "settle needs a token")
  else if (1 <? given)%nat then inl (badShape "pass exactly ONE of token, tokens or items")
  else if match sq_DelayMS req with Some d => d <? 0 | None => false end then inl (badShape "delay_ms")
  else if bool_decide (is_Some (sq_DelayMS req)) && negb (bool_decide (verb = VerbNak)) then inl (badShape "delay_ms is nak-only")
  else if negb (bool_decide (sq_Token req = "")) then inr ([MkItemReq (sq_Token req) (sq_DelayMS req) ""], true)
  else if (0 <? length (sq_Tokens req))%nat then
    if negb (bool_decide (verb = VerbAck)) then inl (badShape "the tokens array is ack-only")
    else inr (map (fun t => MkItemReq t None "") (sq_Tokens req), false)
  else if existsb (fun it => bool_decide (is_Some (iq_DelayMS it)) && negb (bool_decide (verb = VerbNak))) (sq_Items req)
  then inl (badShape "delay_ms is nak-only")
  else inr (sq_Items req, false).

(** The delay is an int64 product of milliseconds and a million. *)
Definition settle_item (verb : string) (tok : Token.Token) (it : settleItemReq) : SettleItem :=
  MkSettleItem tok verb (if bool_decide (verb = VerbNak) then (fun ms => wrap64 (ms * Millisecond)) <$> iq_DelayMS it else None)
    (iq_Reason it).

Fixpoint parse_items (verb : string) (single : bool) (items : list settleItemReq)
  : api_error + (list settleSlot * list SettleItem) :=
  match items with
  | [] => inr ([], [])
  | it :: items =>
      match Token.ParseToken (iq_Token it) with
      | Err e =>
          if single then inl (of_error e)
          else match parse_items verb single items with
               | inl e => inl e
               | inr (slots, subs) => inr (MkSlot (iq_Token it) true :: slots, subs)
               end
      | Ok tok =>
          match parse_items verb single items with
          | inl e => inl e
          | inr (slots, subs) => inr (MkSlot (iq_Token it) false :: slots, settle_item verb tok it :: subs)
          end
      end
  end.

Definition parseSettleReq (verb : string) (req : settleReq) : api_error + (list settleSlot * list SettleItem * bool) :=
  match spelled verb req with
  | inl e => inl e
  | inr (items, single) =>
      match parse_items verb single items with
      | inl e => inl e
      | inr (slots, subs) => inr (slots, subs, single)
      end
  end.

(** The text of a stored error is reduced to its tag. *)
Fixpoint error_text (e : error) : string :=
  match e with E _ tag | Plain tag => tag | CmdErr e => error_text e end.

Definition renderItem (ir : ItemResult) : settleItemResult :=
  let result := match ir_Status ir with
                | ItemStatusOK => "ok"
                | ItemStatusStale | ItemStatusStaleAck | ItemStatusWrongGen => "stale"
                | ItemStatusUnknown => "unknown"
                end in
  let '(reason, current) := match ir_Status ir with
                            | ItemStatusStaleAck => ("attempt_fence", ir_CurrentAttempt ir)
                            | ItemStatusWrongGen => ("generation_fence", 0)
                            | ItemStatusUnknown => (match ir_Err ir with Some e => error_text e | None => "no_live_delivery" end, 0)
                            | ItemStatusOK | ItemStatusStale => ("", 0)
                            end in
  MkWireResult (Token.TokenString (ir_Token ir)) result reason (ir_Attempt ir) current.

Definition malformed (raw : string) : settleItemResult := MkWireResult raw "unknown" "malformed_token" 0 0.

Definition counted (r : settleItemResult) (o : settleResponse) : settleResponse :=
  let res := wp_Results o ++ [r] in
  if bool_decide (wr_Result r = "ok") then MkSettleResponse res (wp_OK o + 1) (wp_Stale o) (wp_Unknown o)
  else if bool_decide (wr_Result r = "stale") then MkSettleResponse res (wp_OK o) (wp_Stale o + 1) (wp_Unknown o)
  else MkSettleResponse res (wp_OK o) (wp_Stale o) (wp_Unknown o + 1).

(** [None] is a result index out of range, which panics the handler. *)
Fixpoint render_loop (slots : list settleSlot) (results : list ItemResult) (out : settleResponse) : option settleResponse :=
  match slots with
  | [] => Some out
  | s :: slots =>
      if sl_bad s then render_loop slots results (counted (malformed (sl_raw s)) out)
      else match results with
           | [] => None
           | ir :: results => render_loop slots results (counted (renderItem ir) out)
           end
  end.

Definition renderSettle (slots : list settleSlot) (res : SettleResult) : option settleResponse :=
  render_loop slots (Results res) (MkSettleResponse [] 0 0 0).

Definition reasonText (r : settleItemResult) : string :=
  if bool_decide (wr_Reason r = "") then "settle outcome: " +:+ wr_Result r else wr_Reason r.

(** The consumers to wake after a nak: those of the releases visible at [now]. *)
Definition nak_wakes (verb : string) (now : Z) (subs : list SettleItem) (results : list ItemResult) : list (string * string) :=
  if negb (bool_decide (verb = VerbNak)) then []
  else (fun x => (Token.Stream (si_Token x.1), Token.Consumer (si_Token x.1)))
         <$> List.filter (fun x => bool_decide (ir_Status x.2 = ItemStatusOK) && (ir_RetryAt x.2 * Millisecond <=? now)) (zip subs results).

Inductive reply : Set := Body (r : settleResponse) | Refused (e : api_error) | Panic.

(** What a single outcome makes of the status. *)
Definition project (single : bool) (out : settleResponse) : reply :=
  if single then
    match wp_Results out with
    | [] => Panic
    | item :: _ =>
        if bool_decide (wr_Result item = "ok") then Body out
        else if bool_decide (wr_Result item = "stale")
        then Refused (WithCode (of_error (E ErrStaleAck (reasonText item))) (code_string CodeStaleAck))
        else Refused (of_error (E ErrNotFound (reasonText item)))
    end
  else Body out.

(** The handler after decoding: the store it leaves, the keys it wakes, the reply. *)
Section Handler.
Context `{Ids} (env : SettleEnv) (maxSettleBatch : Z).

Definition handleSettle (verb : string) (req : settleReq) (now wakeNow : Z) (w : world) : world * list (string * string) * reply :=
  match parseSettleReq verb req with
  | inl e => (w, [], Refused e)
  | inr (slots, subs, single) =>
      if maxSettleBatch <? Z.of_nat (length subs) then (w, [], Refused (of_error (E ErrTooLarge "settle batch")))
      else
        match SettleCmd env subs now w with
        | (w', Err e) => (World (w_db w) (w_mem w'), [], Refused (classifySubmit "api.settle" (of_error e)))
        | (w', Ok (res, _)) =>
            match renderSettle slots res with
            | None => (w', [], Panic)
            | Some out => (w', nak_wakes verb wakeNow subs (Results res), project single out)
            end
        end
  end.
End Handler.

(** ** The store answers every item, in order *)

Section Order.
Context `{Ids} (env : SettleEnv).

(** After any computation that may fail. *)
Lemma wp_after {A B} (m : tx A) (k : A -> tx B) (Q : B -> world -> Prop) w :
  (forall a w, wp (k a) Q (fun _ _ => True) w) -> wp (x ← m; k x) Q (fun _ _ => True) w.
Proof. intros Hk. apply wp_bind. unfold wp at 1. destruct (m w) as [w' [a|e]]; [apply Hk|done]. Qed.

Lemma applyAction_token now plan it row con reason res budget w :
  wp (applyAction env now plan it row con reason res budget) (fun x _ => ir_Token x.1.1 = ir_Token res) (fun _ _ => True) w.
Proof.
  unfold applyAction. destruct (Action plan); repeat first [done | apply wp_after; intros | case_match].
Qed.

Lemma applyOne_token now it con rows budget w :
  wp (applyOne env now it con rows budget) (fun x _ => ir_Token x.1.1 = si_Token it) (fun _ _ => True) w.
Proof.
  unfold applyOne. repeat case_match; try done; try (apply wp_after; done). apply applyAction_token.
Qed.

Lemma group_items_length items byToken groups byGroup : length (group_items items byToken groups byGroup).1 = length items.
Proof.
  revert byToken groups byGroup. induction items as [|it items IH]; intros; simpl; [done|].
  case_bool_decide; [|destruct (byGroup !! _)]; (match goal with |- context [group_items items ?a ?b ?c] =>
    specialize (IH a b c); destruct (group_items items a b c) end); simpl in *; congruence.
Qed.

Lemma SettleCmd_tokens items now w w' res evs :
  SettleCmd env items now w = (w', Ok (res, evs)) -> map ir_Token (Results res) = map si_Token items.
Proof.
  intros Hrun. apply (wp_run (SettleCmd env items now) (fun x _ => map ir_Token (Results x.1) = map si_Token items)
    (fun _ _ => True) w w' (res, evs)); [|done].
  unfold SettleCmd. pose proof (group_items_length items ∅ [] ∅) as Hlen.
  destruct (group_items items ∅ [] ∅) as [slots groups]. simpl in Hlen. apply wp_after. intros loaded w1. apply wp_bind.
  apply (wp_for_each _ _ _ (fun rest acc _ => map ir_Token (ba_results acc) ++ map (fun x => si_Token x.1) rest = map si_Token items)).
  - simpl. clear -Hlen. revert slots Hlen. induction items as [|it items IH]; intros [|sl slots] Hl; simpl in *; try done.
    rewrite IH; congruence.
  - intros [it sl] rest acc w2 Hacc. unfold settle_step. destruct sl as [|gi].
    + apply wp_ret. simpl. by rewrite map_app, <-app_assoc.
    + destruct (loaded !! gi) as [[con rows]|]; [|done]. apply wp_bind. eapply wp_mono; [apply applyOne_token| |done].
      intros [[r e] b] w3 Ht. apply wp_ret. simpl in *. rewrite map_app, <-app_assoc. simpl. by rewrite Ht.
  - intros acc w2 Hacc. apply wp_ret. simpl in *. by rewrite app_nil_r in Hacc.
Qed.
End Order.

(** ** Requests *)

(** The tokens a request names, in its order. *)
Definition asked (req : settleReq) : list string :=
  if bool_decide (sq_Token req = "") then
    if (0 <? length (sq_Tokens req))%nat then sq_Tokens req else map iq_Token (sq_Items req)
  else [sq_Token req].

Lemma spelled_tokens verb req items single :
  spelled verb req = inr (items, single) ->
  map iq_Token items = asked req /\ (single = true -> length items = 1%nat).
Proof.
  unfold spelled, asked. intros Hs. repeat case_match; simplify_eq/=; try done.
  all: by rewrite ?map_map, ?map_id.
Qed.

Lemma parse_items_spec verb single items slots subs :
  parse_items verb single items = inr (slots, subs) ->
  map sl_raw slots = map iq_Token items /\
  map (fun it => Token.TokenString (si_Token it)) subs = map sl_raw (List.filter (fun s => negb (sl_bad s)) slots).
Proof.
  revert slots subs. induction items as [|it items IH]; intros slots subs; simpl; [by intros [= <- <-]|].
  destruct (Token.ParseToken (iq_Token it)) as [tok|e] eqn:Hp; [|destruct single; [done|]].
  all: destruct (parse_items verb _ items) as [e'|[slots' subs']]; [done|]; intros [= <- <-].
  all: destruct (IH slots' subs' eq_refl) as [H1 H2]; simpl; rewrite ?H1, ?H2.
  - split; [done|]. by rewrite (proj1 (Token.parse_canonical _ _ Hp)).
  - done.
Qed.

(** ** Rendering *)

Definition result_is (s : string) (r : settleItemResult) : bool := bool_decide (wr_Result r = s).

(** The counters are those of the results. *)
Definition honest (o : settleResponse) : Prop :=
  wp_OK o = count (result_is "ok") (wp_Results o) /\ wp_Stale o = count (result_is "stale") (wp_Results o) /\
  wp_OK o + wp_Stale o + wp_Unknown o = Z.of_nat (length (wp_Results o)).

Lemma counted_spec r o : wp_Results (counted r o) = wp_Results o ++ [r] /\ (honest o -> honest (counted r o)).
Proof.
  unfold counted, honest, result_is. repeat case_bool_decide; simpl; (split; [done|]).
  all: rewrite !count_app, !count_cons, !count_nil, length_app; simpl; repeat case_bool_decide; try congruence; lia.
Qed.

Lemma render_loop_spec slots results out :
  map (fun r => Token.TokenString (ir_Token r)) results = map sl_raw (List.filter (fun s => negb (sl_bad s)) slots) ->
  honest out ->
  exists out', render_loop slots results out = Some out' /\ honest out' /\
    map wr_Token (wp_Results out') = map wr_Token (wp_Results out) ++ map sl_raw slots.
Proof.
  revert results out. induction slots as [|s slots IH]; intros results out Hr Ho; simpl in *.
  - exists out. by rewrite app_nil_r.
  - destruct (sl_bad s); simpl in *.
    + destruct (counted_spec (malformed (sl_raw s)) out) as [Hc Hh].
      destruct (IH results _ Hr (Hh Ho)) as (out' & -> & ? & Ht). exists out'. split_and!; [done..|].
      by rewrite Ht, Hc, map_app, <-app_assoc.
    + destruct results as [|ir results]; [done|]. injection Hr as Hir Hr.
      destruct (counted_spec (renderItem ir) out) as [Hc Hh].
      destruct (IH results _ Hr (Hh Ho)) as (out' & -> & ? & Ht). exists out'. split_and!; [done..|].
      rewrite Ht, Hc, map_app, <-app_assoc. simpl. f_equal. f_equal. rewrite <-Hir. unfold renderItem. by case_match.
Qed.

(** The status of a single settle: 200, 409 for a fenced or repeated token, 404 for an unknown one. *)
Lemma project_single item ok st un :
  match project true (MkSettleResponse [item] ok st un) with
  | Body _ => wr_Result item = "ok"
  | Refused e => (wr_Result item = "stale" /\ writeError e = (CodeStaleAck, 409, 0)) \/
                 (wr_Result item <> "ok" /\ wr_Result item <> "stale" /\ writeError e = (CodeNotFound, 404, 0))
  | Panic => False
  end.
Proof. unfold project. simpl. repeat case_bool_decide; try done; [left|right]; done. Qed.

(** A settle request is answered token by token, in its own order.  Whatever
    the verb, the spelling and the store, the handler never indexes past the
    store's results; every answer with a body lists exactly the tokens of the
    request, in request order and in the spelling the caller used, malformed
    ones included, and its counters count its results; and a single-token
    request is answered with a body only when its one outcome is ok. *)
Theorem settle_reply `{Ids} env maxSettleBatch verb req now wakeNow w w' wakes r :
  handleSettle env maxSettleBatch verb req now wakeNow w = (w', wakes, r) ->
  r <> Panic /\
  (forall out, r = Body out -> map wr_Token (wp_Results out) = asked req /\ honest out /\
     (sq_Token req <> "" -> map wr_Result (wp_Results out) = ["ok"])).
Proof.
  unfold handleSettle, parseSettleReq. destruct (spelled verb req) as [e|[items single]] eqn:Hs; [by intros [= <- <- <-]|].
  destruct (spelled_tokens _ _ _ _ Hs) as [Htok Hone]. destruct (parse_items verb single items) as [e|[slots subs]] eqn:Hp; [by intros [= <- <- <-]|].
  destruct (parse_items_spec _ _ _ _ _ Hp) as [Hraw Hsub]. destruct (_ <? _); [by intros [= <- <- <-]|].
  destruct (SettleCmd env subs now w) as [w1 [[res evs]|e]] eqn:Hrun; [|by intros [= <- <- <-]].
  pose proof (SettleCmd_tokens env _ _ _ _ _ _ Hrun) as Hres.
  destruct (render_loop_spec slots (Results res) (MkSettleResponse [] 0 0 0)) as (out & Hout & Hh & Ht).
  { rewrite <-Hsub, <-(map_map ir_Token Token.TokenString), Hres, map_map. done. }
  { by repeat split. }
  unfold renderSettle. rewrite Hout. intros [= <- <- <-]. simpl in Ht. rewrite Hraw, Htok in Ht.
  assert (Hsingle : sq_Token req <> "" -> single = true) by (intros Hne; revert Hs; unfold spelled; rewrite (bool_decide_false _ Hne); clear; intros; repeat case_match; by simplify_eq/=).
  unfold project. destruct single; [|split; [done|]; intros out' [= <-]; do 2 (split; [done|]); intros Hx; by specialize (Hsingle Hx)].
  specialize (Hone eq_refl). assert (Hlen : length (wp_Results out) = 1%nat).
  { rewrite <-(length_map wr_Token), Ht, <-Htok, length_map. done. }
  destruct (wp_Results out) as [|item [|]] eqn:Hw; try done. repeat case_bool_decide; (split; [done|]); intros out' Ho; try done.
  injection Ho as <-. rewrite Hw. do 2 (split; [done|]). intros _. simpl. by f_equal.
Qed.

Lemma settle_reply_witness :
  let req := MkSettleReq "" None ["orders/billing/1/1/1"; "not a token"] [] in
  exists out, (handleSettle StoreSettle.sample_env 10 VerbAck req (2000 * Millisecond) 0 Fetch.after_fetch).2 = Body out /\
    map wr_Token (wp_Results out) = ["orders/billing/1/1/1"; "not a token"] /\ map wr_Result (wp_Results out) = ["ok"; "unknown"].
Proof.
  intros req. set (h := handleSettle StoreSettle.sample_env 10 VerbAck req (2000 * Millisecond) 0 Fetch.after_fetch).
  destruct h as [[w' wakes] r] eqn:Hh. destruct (settle_reply StoreSettle.sample_env 10 VerbAck req _ _ _ w' wakes r Hh) as [_ Hb].
  assert (Hr : r = h.2) by (by rewrite Hh). vm_compute in Hr. rewrite Hr in Hb. eexists. split; [exact Hr|].
  destruct (Hb _ eq_refl) as [Ht _]. split; [exact Ht|reflexivity].
Defined.

(** A delay of some 584 years wraps around to less than a millisecond, which the
    planner's bound on nak delays then accepts. *)
Lemma nak_delay_wraps tok :
  si_Delay (settle_item VerbNak tok (MkItemReq "" (Some 18446744073710) "")) = Some 448384 /\
  Policy.MaxNakDelay < 18446744073710 * Millisecond /\ 448384 < Millisecond <= Policy.MaxNakDelay.
Proof. by vm_compute. Qed.

End ApiSettle.
