(* ===== verification/ClientSettle.v ===== *)
(** * The settle verbs, from the client to the store

    [pkg/client/settle.go]: the request bodies of Ack, Nak, Term and Extend and
    the options of Nak; the decoding of such a body into the server's request
    ([internal/api/settle.go]); and the two put together.  A JSON string is the
    string it encodes, for valid UTF-8. *)

From S2P Require Import StoreSettle GoText ApiErrors ApiCodec ApiSettle ClientErrors.

Module ClientSettle.
Import ApiErrors ApiCodec Settle StoreSettle ApiSettle.

Record settleItemWire : Set := MkItemWire { iw_Token : string; iw_DelayMS : option Z; iw_Reason : string }.

(** The item encoded: delay_ms and reason are omitted when empty. *)
Definition item_json (it : settleItemWire) : json :=
  JObj ([("token", JStr (iw_Token it))]
        ++ match iw_DelayMS it with Some ms => [("delay_ms", JNum ms)] | None => [] end
        ++ if bool_decide (iw_Reason it = "") then [] else [("reason", JStr (iw_Reason it))]).

(** The options of a nak. *)
Inductive SettleOption : Set := WithDelay (d : Z) | WithReason (s : string).

Definition apply_option (o : SettleOption) (acc : option Z * string) : option Z * string :=
  match o with WithDelay d => (Some d, acc.2) | WithReason s => (acc.1, s) end.

(** A call either fails before the request or sends a body to a verb. *)
Definition request : Set := ClientErrors.Error + (string * json).

Definition bad_request (msg : string) : ClientErrors.Error := ClientErrors.MkCErr "bad_request" msg 0 0 ClientErrors.OtherCause.

(** A variadic call without arguments passes the nil slice, which encodes as null. *)
Definition Ack (tokens : list string) : request :=
  if existsb (fun t => bool_decide (t = "")) tokens then inl (bad_request "ack token is empty")
  else inr (VerbAck, JObj [("tokens", match tokens with [] => JNull | _ => JArr (map JStr tokens) end)]).

Definition Nak (token : string) (opts : list SettleOption) : request :=
  let '(delay, reason) := foldl (fun acc o => apply_option o acc) (None, "") opts in
  inr (VerbNak, item_json (MkItemWire token (Milliseconds <$> delay) (if bool_decide (reason = "") then "" else ClientErrors.truncateReason reason))).

Definition Term (token reason : string) : request := inr (VerbTerm, item_json (MkItemWire token None (ClientErrors.truncateReason reason))).

Definition Extend (tokens : list string) : request :=
  if existsb (fun t => bool_decide (t = "")) tokens then inl (bad_request "extend token is empty")
  else inr (VerbExtend, JObj [("items", JArr (map (fun t => item_json (MkItemWire t None "")) tokens))]).

(** ** The server's decoding of a settle body *)

Definition set_item (it : settleItemReq) (k : string) (v : json) : option settleItemReq :=
  if named "token" k then s ← of_string (iq_Token it) v; Some (MkItemReq s (iq_DelayMS it) (iq_Reason it))
  else if named "delay_ms" k then d ← of_int64_ptr v; Some (MkItemReq (iq_Token it) d (iq_Reason it))
  else if named "reason" k then s ← of_string (iq_Reason it) v; Some (MkItemReq (iq_Token it) (iq_DelayMS it) s)
  else None.

Definition set_req (r : settleReq) (k : string) (v : json) : option settleReq :=
  if named "token" k then s ← of_string (sq_Token r) v; Some (MkSettleReq s (sq_DelayMS r) (sq_Tokens r) (sq_Items r))
  else if named "delay_ms" k then d ← of_int64_ptr v; Some (MkSettleReq (sq_Token r) d (sq_Tokens r) (sq_Items r))
  else if named "tokens" k then l ← of_slice (of_string "") v; Some (MkSettleReq (sq_Token r) (sq_DelayMS r) l (sq_Items r))
  else if named "items" k then
    l ← of_slice (of_struct set_item (MkItemReq "" None "")) v; Some (MkSettleReq (sq_Token r) (sq_DelayMS r) (sq_Tokens r) l)
  else None.

Definition decode_settleReq (v : json) : option settleReq := of_struct set_req (MkSettleReq "" None [] []) v.

(** The body of a client request: JSON of [len] bytes and nothing after it. *)
Definition client_body (v : json) (len : Z) : body := MkBody "application/json" (Some v) len None.

(** [handleSettle] with its decoding step. *)
Section Serve.
Context `{Ids} (env : SettleEnv) (maxSettleBatch maxRequestBytes : Z).

Definition serve_settle (verb : string) (b : body) (now wakeNow : Z) (w : world) : world * list (string * string) * reply :=
  match decodeJSONInto decode_settleReq maxRequestBytes b with
  | inl e => (w, [], Refused e)
  | inr req => handleSettle env maxSettleBatch verb req now wakeNow w
  end.

(** ** Requests the server understands *)

Lemma decode_ack tokens :
  decode_settleReq (JObj [("tokens", match tokens with [] => JNull | _ => JArr (map JStr tokens) end)]) = Some (MkSettleReq "" None tokens []).
Proof.
  assert (Hm : forall l, mapM (of_string "") (map JStr l) = Some l) by (induction l as [|t l IH]; simpl; [done|]; by rewrite IH).
  destruct tokens as [|t l]; [reflexivity|]. transitivity (mapM (of_string "") (map JStr (t :: l)) ≫= fun x => Some (MkSettleReq "" None x []));
    [reflexivity|]. by rewrite Hm.
Qed.

Lemma decode_extend tokens :
  decode_settleReq (JObj [("items", JArr (map (fun t => item_json (MkItemWire t None "")) tokens))])
  = Some (MkSettleReq "" None [] (map (fun t => MkItemReq t None "") tokens)).
Proof.
  assert (Hm : forall l, mapM (of_struct set_item (MkItemReq "" None "")) (map (fun t => item_json (MkItemWire t None "")) l)
    = Some (map (fun t => MkItemReq t None "") l)) by (induction l as [|t l IH]; simpl; [done|]; by rewrite IH).
  transitivity (mapM (of_struct set_item (MkItemReq "" None "")) (map (fun t => item_json (MkItemWire t None "")) tokens)
    ≫= fun x => Some (MkSettleReq "" None [] x)); [reflexivity|]. by rewrite Hm.
Qed.

Lemma decode_single token delay :
  match delay with Some ms => - 2 ^ 63 <= ms < 2 ^ 63 | None => True end ->
  decode_settleReq (item_json (MkItemWire token delay "")) = Some (MkSettleReq token delay [] []).
Proof.
  intros Hd. destruct delay as [ms|]; [|reflexivity]. unfold item_json. rewrite bool_decide_true by done. cbn -[Z.pow Z.leb Z.ltb].
  assert ((- 2 ^ 63 <=? ms) && (ms <? 2 ^ 63) = true) as Hr by (bool_prop; lia).
  unfold set_req at 1. cbn -[Z.pow Z.leb Z.ltb]. unfold of_int64_ptr, of_int64. rewrite Hr. done.
Qed.

(** A reason on a single item is a field the request lacks. *)
Lemma decode_reason token delay reason :
  reason <> "" -> decode_settleReq (item_json (MkItemWire token delay reason)) = None.
Proof.
  intros Hr. unfold decode_settleReq, item_json. rewrite (bool_decide_false _ Hr).
  apply (unknown_field_refused _ _ "reason" (JStr reason)); [|done]. 
  apply elem_of_app; right. apply elem_of_app; right. apply elem_of_cons. by left.
Qed.

Lemma serve_decoded verb v len req now wakeNow w :
  len <= maxRequestBytes -> decode_settleReq v = Some req ->
  serve_settle verb (client_body v len) now wakeNow w = handleSettle env maxSettleBatch verb req now wakeNow w.
Proof.
  intros Hl Hd. unfold serve_settle, decodeJSONInto, client_body, More. cbn [b_end b_value b_trail b_contentType].
  rewrite (proj2 (Z.ltb_ge _ _) Hl). cbn [mbind option_bind]. by rewrite Hd.
Qed.

Lemma serve_refused verb v len now wakeNow w :
  len <= maxRequestBytes -> decode_settleReq v = None ->
  exists e, serve_settle verb (client_body v len) now wakeNow w = (w, [], Refused e) /\ writeError e = (CodeBadRequest, 400, 0).
Proof.
  intros Hl Hd. exists (of_error (E ErrBadRequest "api.decode")). split; [|reflexivity].
  unfold serve_settle, decodeJSONInto, client_body, More. cbn [b_end b_value b_trail b_contentType].
  rewrite (proj2 (Z.ltb_ge _ _) Hl). cbn [mbind option_bind]. by rewrite Hd.
Qed.

(** The delay and the reason a list of options settles on: the last of each. *)
Definition settled_on (opts : list SettleOption) : option Z * string := foldl (fun acc o => apply_option o acc) (None, "") opts.

Lemma Milliseconds_int64 d : - 2 ^ 63 <= d < 2 ^ 63 -> - 2 ^ 63 <= Milliseconds d < 2 ^ 63.
Proof. unfold Milliseconds, Millisecond. intros Hd. Z.to_euclidean_division_equations. lia. Qed.

(** C33: What the client asks the server does, except to carry a reason.  An
    ack and an extend, for any tokens, and a nak without a reason, with or
    without a delay, reach the store as the request the caller made; but every
    nak and every term with a non-empty reason, in the single form the client
    uses, is refused as a bad request by the decoder, which knows no reason at
    the top level, and settles nothing. *)
Theorem client_settle_served len now wakeNow w (Hlen : len <= maxRequestBytes) :
  (forall tokens verb v, Ack tokens = inr (verb, v) -> serve_settle verb (client_body v len) now wakeNow w
     = handleSettle env maxSettleBatch VerbAck (MkSettleReq "" None tokens []) now wakeNow w) /\
  (forall tokens verb v, Extend tokens = inr (verb, v) -> serve_settle verb (client_body v len) now wakeNow w
     = handleSettle env maxSettleBatch VerbExtend (MkSettleReq "" None [] (map (fun t => MkItemReq t None "") tokens)) now wakeNow w) /\
  (forall token opts verb v, Nak token opts = inr (verb, v) ->
     let '(delay, reason) := settled_on opts in
     (reason = "" -> match delay with Some d => - 2 ^ 63 <= d < 2 ^ 63 | None => True end ->
        serve_settle verb (client_body v len) now wakeNow w
        = handleSettle env maxSettleBatch VerbNak (MkSettleReq token (Milliseconds <$> delay) [] []) now wakeNow w) /\
     (reason <> "" -> exists e, serve_settle verb (client_body v len) now wakeNow w = (w, [], Refused e) /\
        writeError e = (CodeBadRequest, 400, 0))) /\
  (forall token reason verb v, Term token reason = inr (verb, v) -> reason <> "" ->
     exists e, serve_settle verb (client_body v len) now wakeNow w = (w, [], Refused e) /\ writeError e = (CodeBadRequest, 400, 0)).
Proof.
  split; [|split; [|split]].
  - intros tokens verb v. unfold Ack. destruct (existsb _ _); [done|]. intros [= <- <-]. apply serve_decoded, decode_ack; done.
  - intros tokens verb v. unfold Extend. destruct (existsb _ _); [done|]. intros [= <- <-]. apply serve_decoded, decode_extend; done.
  - intros token opts verb v. unfold Nak. change (foldl _ _ opts) with (settled_on opts). destruct (settled_on opts) as [delay reason].
    intros [= <- <-]. split.
    + intros -> Hd. apply serve_decoded; [done|]. apply decode_single. destruct delay as [d|]; [|done]. by apply Milliseconds_int64.
    + intros Hr. apply serve_refused; [done|]. apply decode_reason. rewrite (bool_decide_false _ Hr). by intros ?%ClientErrors.truncateReason_empty.
  - intros token reason verb v [= <- <-] Hr. apply serve_refused; [done|]. apply decode_reason. by intros ?%ClientErrors.truncateReason_empty.
Qed.

End Serve.

Lemma client_settle_served_witness :
  exists e, serve_settle StoreSettle.sample_env 10 1000 VerbTerm (client_body (item_json (MkItemWire "orders/billing/1/1/1" None "poison")) 60)
      (2000 * Millisecond) 0 Fetch.after_fetch = (Fetch.after_fetch, [], Refused e) /\ writeError e = (CodeBadRequest, 400, 0).
Proof.
  apply (client_settle_served StoreSettle.sample_env 10 1000 60 (2000 * Millisecond) 0 Fetch.after_fetch ltac:(lia)) with "orders/billing/1/1/1" "poison";
    [reflexivity|discriminate].
Defined.

(** The batch form carries the same reason to the store. *)
Example batch_reason_decodes :
  decode_settleReq (JObj [("items", JArr [item_json (MkItemWire "orders/billing/1/1/1" None "poison")])])
  = Some (MkSettleReq "" None [] [MkItemReq "orders/billing/1/1/1" None "poison"]).
Proof. reflexivity. Qed.

End ClientSettle.
