(* ===== verification/StoreSweep.v ===== *)
(** * Expired leases and exhausted rows

    [internal/store/sweep.go], the expiry sweep that returns expired leases to
    READY or kills them, [internal/store/sweep_retire.go], the pass that kills
    READY rows past a lowered delivery bound, and the lease reclaim of
    [internal/store/recovery.go] that runs once at startup. *)

From S2P Require Export StoreSettle.

Module StoreSweep.
Import Policy Settle Dlq.

(** ** sweep.go *)

Record SweepResult : Set := MkSweepResult {
  sw_Expired : Z;
  sw_Redelivered : Z;
  sw_Dead : Z;
  sw_Skipped : Z;
  sw_Deferred : Z;
  sw_Woke : list ConsumerKey;
  sw_More : bool;
  sw_NextDueMS : Z;
  sw_MaxLatenessMS : Z;
}.

(** A found consumer's policy with its [ack_wait_ms]; [None] is found = false. *)
Definition loadSweepPolicy (key : ConsumerKey) (d : db) : option (SweepPolicy * Z) :=
  c ← find_consumer (key_Stream key) (key_Consumer key) d;
  Some (MkSweepPolicy (c_ack_wait_ms c * Millisecond) (c_max_deliver c)
          (map (fun ms => ms * Millisecond) (c_backoff_ms c)) (c_generation c), c_ack_wait_ms c).

(** ORDER BY visible_at, stream, consumer, seq. *)
Definition sweep_le (a b : delivery) : bool :=
  if d_visible_at a <? d_visible_at b then true
  else if d_visible_at b <? d_visible_at a then false
  else if negb (bool_decide (d_stream a = d_stream b)) then String.leb (d_stream a) (d_stream b)
  else if negb (bool_decide (d_consumer a = d_consumer b)) then String.leb (d_consumer a) (d_consumer b)
  else d_seq a <=? d_seq b.

Definition is_expired (nowMS : Z) (r : delivery) : bool := (d_state r =? 1) && (d_visible_at r <=? nowMS).

Definition expired_rows (nowMS lim : Z) (d : db) : list delivery :=
  limit lim (order_by sweep_le (where_ (is_expired nowMS) (deliveries d))).

(** An expired delivery LEFT JOINed with its message. *)
Definition sweep_row (d : db) (r : delivery) : SweepRow :=
  let m := find_message (d_stream r) (d_seq r) d in
  MkSweepRow (MkConsumerKey (d_stream r) (d_consumer r)) (d_seq r) (d_subject r) (d_attempts r)
    (d_generation r) (d_visible_at r) (default 0 (d_delivered_at r)) (default "" (d_last_reason r))
    (default "" (m_id <$> m)) (default "" (m_trace_id <$> m)).

Definition timeout_event (nowMS : Z) (r : SweepRow) (p : SweepPolicy) (ackWaitMS : Z) (dec : SweepDecision)
  : event :=
  let retryAt := match sd_Action dec with SweepRedeliver => sd_VisibleAt dec | _ => 0 end in
  Event nowMS "msg.timeout" (nullStr (key_Stream (sr_Key r))) (nullStr (key_Consumer (sr_Key r)))
    (nullStr (sr_Subject r)) (nullStr (sr_MsgID r)) (nullI64 (sr_Seq r)) (nullI64 (sr_Attempts r))
    (nullStr (sr_TraceID r)) None
    [("held_ms", DInt (sd_HeldMS dec)); ("lateness_ms", DInt (sd_LatenessMS dec));
     ("ack_wait_ms", DInt ackWaitMS); ("schedule_ms", DInt (sd_ScheduleMS dec));
     ("delay_ms", DInt (sd_DelayMS dec)); ("retry_at", DInt retryAt);
     ("attempt", DInt (sr_Attempts r)); ("max_deliver", DInt (sp_MaxDeliver p));
     ("cause", DStr "ack_wait")].

Definition timeoutEvent (nowMS : Z) (r : SweepRow) (p : SweepPolicy) (ackWaitMS : Z) (dec : SweepDecision)
  : tx event := commitEvent (timeout_event nowMS r p ackWaitMS dec).

(** The WHERE clause of both statements; [state] is 1 for the sweep, 0 for retire. *)
Definition at_row (state : Z) (r : SweepRow) (x : delivery) : bool :=
  bool_decide (dkey x = (key_Stream (sr_Key r), key_Consumer (sr_Key r), sr_Seq r))
  && (d_state x =? state) && (d_attempts x =? sr_Attempts r) && (d_generation x =? sr_Generation r).

(** A statement on the pending set and its rows-affected. *)
Definition exec_rows (p : delivery -> bool) (f : list delivery -> list delivery) : tx Z :=
  n ← query (fun d => count p (deliveries d));
  _ ← exec (on_deliveries f);
  mret n.

(** [errors.Is(err, ErrDeadBudget)] handled in place: nothing was written. *)
Definition or_deferred {A} (m : tx A) : tx (option A) := fun w =>
  match m w with
  | (w', Ok a) => (w', Ok (Some a))
  | (w', Err e) => if bool_decide (e = ErrDeadBudget) then (w', Ok None) else (w', Err e)
  end.

Record SweepEnv : Type := MkSweepEnv {
  we_limits : Limits;
  we_dlq : DLQConfig;
  we_jitter : string * string * Z -> Jitter;
}.

Record sweep_acc : Set := MkSweepAcc {
  sa_redelivered : Z;
  sa_dead : Z;
  sa_skipped : Z;
  sa_deferred : Z;
  sa_woke : list ConsumerKey;
  sa_lateness : Z;
  sa_events : list event;
  sa_budget : option DeadBudget;
}.

Section Sweep.
Context `{Ids} (env : SweepEnv).

Definition sweep_dead_ctx (r : SweepRow) (maxDeliver : Z) (cause trigger : string) : DeadCtx :=
  MkDeadCtx (key_Stream (sr_Key r)) (key_Consumer (sr_Key r)) (sr_Subject r) (sr_Seq r) (sr_MsgID r)
    (sr_TraceID r) (sr_Attempts r) (sr_Generation r) maxDeliver cause trigger "" (sr_LastReason r).

Definition jitter_of (r : SweepRow) : Jitter :=
  we_jitter env (key_Stream (sr_Key r), key_Consumer (sr_Key r), sr_Seq r).

(** Phase 3 for one row; the policies were read before it. *)
Definition sweep_step (now : Z) (d0 : db) (x : delivery) (a : sweep_acc) : tx sweep_acc :=
  let nowMS := UnixMilli now in
  let r := sweep_row d0 x in
  match loadSweepPolicy (sr_Key r) d0 with
  | None => mret (MkSweepAcc (sa_redelivered a) (sa_dead a) (sa_skipped a + 1) (sa_deferred a) (sa_woke a)
                    (sa_lateness a) (sa_events a) (sa_budget a))
  | Some (p, ackWaitMS) =>
      let dec := DecideSweep r p nowMS (jitter_of r) in
      let late := if sa_lateness a <? sd_LatenessMS dec then sd_LatenessMS dec else sa_lateness a in
      match sd_Action dec with
      | SweepSkip =>
          mret (MkSweepAcc (sa_redelivered a) (sa_dead a) (sa_skipped a + 1) (sa_deferred a) (sa_woke a)
                  late (sa_events a) (sa_budget a))
      | SweepRedeliver =>
          ev ← timeoutEvent nowMS r p ackWaitMS dec;
          n ← exec_rows (at_row 1 r)
                (update_where (at_row 1 r) (StoreSettle.release_row (sd_VisibleAt dec) "ack_wait"));
          if n =? 0 then
            mret (MkSweepAcc (sa_redelivered a) (sa_dead a) (sa_skipped a + 1) (sa_deferred a) (sa_woke a)
                    late (sa_events a ++ [ev]) (sa_budget a))
          else
            let wake := (sd_VisibleAt dec <=? nowMS) && negb (bool_decide (sr_Key r ∈ sa_woke a)) in
            mret (MkSweepAcc (sa_redelivered a + 1) (sa_dead a) (sa_skipped a) (sa_deferred a)
                    (sa_woke a ++ if wake then [sr_Key r] else []) late (sa_events a ++ [ev]) (sa_budget a))
      | SweepDead =>
          ev ← timeoutEvent nowMS r p ackWaitMS dec;
          out ← or_deferred (DeadSink.Dead (we_limits env) (we_dlq env) (sa_budget a)
                  (sweep_dead_ctx r (sp_MaxDeliver p) (sd_Cause dec) (sd_Trigger dec)) now);
          match out with
          | None =>
              mret (MkSweepAcc (sa_redelivered a) (sa_dead a) (sa_skipped a) (sa_deferred a + 1) (sa_woke a)
                      late (sa_events a ++ [ev]) (sa_budget a))
          | Some (evDead, budget) =>
              n ← exec_rows (at_row 1 r) (delete_where (at_row 1 r));
              let dead := negb (n =? 0) in
              mret (MkSweepAcc (sa_redelivered a) (sa_dead a + if dead then 1 else 0)
                      (sa_skipped a + if dead then 0 else 1) (sa_deferred a) (sa_woke a) late
                      (sa_events a ++ [ev; evDead]) budget)
          end
      end
  end.

Definition next_due (d : db) : Z :=
  default 0 (min_of d_visible_at (where_ (fun r => d_state r =? 1) (deliveries d))).

Definition SweepCmd (lim now : Z) : tx (SweepResult * list event) :=
  d0 ← query id;
  let loaded := expired_rows (UnixMilli now) lim d0 in
  a ← for_each loaded (MkSweepAcc 0 0 0 0 [] 0 [] (NewDeadBudget (we_dlq env))) (sweep_step now d0);
  next ← query next_due;
  let n := Z.of_nat (length loaded) in
  mret (MkSweepResult n (sa_redelivered a) (sa_dead a) (sa_skipped a) (sa_deferred a) (sa_woke a)
          (n =? lim) next (sa_lateness a), sa_events a).

(** Store.Sweep: the bound on the batch. *)
Definition sweep_limit (lim maxSweepBatch : Z) : result Z :=
  let lim := if lim <=? 0 then maxSweepBatch else lim in
  if maxSweepBatch <? lim then Err (E ErrBadRequest "sweep batch") else Ok lim.

(** ** sweep_retire.go *)

Definition retirable (c : consumer) (r : delivery) : bool :=
  held_by (c_stream c) (c_name c) r && (d_state r =? 0)
  && (c_max_deliver c <=? d_attempts r) && (d_generation r =? c_generation c).

Definition retire_rows (c : consumer) (lim : Z) (d : db) : list delivery :=
  limit lim (order_by (fun a b => d_seq a <=? d_seq b) (where_ (retirable c) (deliveries d))).

Record retire_acc : Set := MkRetireAcc {
  ra_retired : Z;
  ra_events : list event;
  ra_budget : option DeadBudget;
  ra_stopped : bool;
}.

Definition retire_step (now : Z) (d0 : db) (c : consumer) (x : delivery) (a : retire_acc) : tx retire_acc :=
  if ra_stopped a then mret a
  else
    let r := sweep_row d0 x in
    out ← or_deferred (DeadSink.Dead (we_limits env) (we_dlq env) (ra_budget a)
            (sweep_dead_ctx r (c_max_deliver c) DeadCauseMaxDeliver DeadTriggerPolicyLowered) now);
    match out with
    | None => mret (MkRetireAcc (ra_retired a) (ra_events a) (ra_budget a) true)
    | Some (evDead, budget) =>
        n ← exec_rows (at_row 0 r) (delete_where (at_row 0 r));
        mret (MkRetireAcc (ra_retired a + if n =? 0 then 0 else 1) (ra_events a ++ [evDead]) budget false)
    end.

(** The early return on an exhausted budget leaves every remaining row. *)
Definition RetireCmd (lim now : Z) : tx (Z * list event) :=
  targets ← query (fun d => where_ (fun c => 0 <? c_max_deliver c) (consumers d));
  a ← for_each targets (MkRetireAcc 0 [] (NewDeadBudget (we_dlq env)) false) (fun c a =>
        if ra_stopped a then mret a
        else
          d0 ← query id;
          for_each (retire_rows c lim d0) a (retire_step now d0 c));
  mret (ra_retired a, ra_events a).

End Sweep.

(** ** recovery.go *)

(** [reclaimSQL]; [rnd r] is what [random()] returns for the row. *)
Definition reclaim_row (nowMS jitterMS : Z) (rnd : delivery -> Z) (r : delivery) : delivery :=
  Delivery (d_stream r) (d_consumer r) (d_seq r) (d_subject r) 0 (d_attempts r)
    (nowMS + if 0 <? jitterMS then Z.land (rnd r) (2 ^ 31 - 1) mod jitterMS else 0)
    (d_generation r) None (Some "broker_restart").

Definition inflight (r : delivery) : bool := d_state r =? 1.

(** [trimDedupSQL]: the keyed messages of a stream past its window. *)
Definition dedup_expired (d : db) (nowMS : Z) (m : message) : bool :=
  match m_dedup_key m with
  | None => false
  | Some _ => match find_stream (m_stream m) d with
              | Some s => m_published_at m + st_dedup_window_ms s <? nowMS
              | None => false
              end
  end.

Definition reclaimed_event (nowMS count jitterMS : Z) : event :=
  Event nowMS "recovery.reclaimed" None None None None None None None None
    [("count", DInt count); ("jitter_ms", DInt jitterMS); ("reason", DStr "broker_restart")].

(** The count in the event is [changes()] of the reclaim statement: the
    read-back comparison of the two holds by construction. *)
Definition reclaimLeasesAndTrimDedup (now jitter : Z) (rnd : delivery -> Z) : tx (Z * Z) :=
  let nowMS := UnixMilli now in
  let jitterMS := Milliseconds jitter in
  reclaimed ← query (fun d => count inflight (deliveries d));
  _ ← exec (on_deliveries (update_where inflight (reclaim_row nowMS jitterMS rnd)));
  _ ← insertEvent (reclaimed_event nowMS reclaimed jitterMS);
  trimmed ← query (fun d => count (dedup_expired d nowMS) (messages d));
  _ ← exec (fun d => on_messages (update_where (dedup_expired d nowMS) Publish.clear_key) d);
  mret (reclaimed, trimmed).

(** ** What a sweep does to each row *)

Section Spec.
Context (env : SweepEnv) (d : db) (now : Z).

Definition decide_row (r : delivery) : SweepDecision :=
  match loadSweepPolicy (sr_Key (sweep_row d r)) d with
  | Some (p, _) => DecideSweep (sweep_row d r) p (UnixMilli now) (jitter_of env (sweep_row d r))
  | None => MkSweepDecision SweepSkip 0 0 0 "" "" 0 0 ""
  end.

Definition redelivers (r : delivery) : bool := bool_decide (sd_Action (decide_row r) = SweepRedeliver).
Definition kills (r : delivery) : bool := bool_decide (sd_Action (decide_row r) = SweepDead).

(** An expired row goes back to READY or is removed, unless its death was deferred. *)
Definition fate (deferred : list (string * string * Z)) (r : delivery) : option delivery :=
  if redelivers r then Some (StoreSettle.release_row (sd_VisibleAt (decide_row r)) "ack_wait" r)
  else if kills r && negb (bool_decide (dkey r ∈ deferred)) then None
  else Some r.

Definition swept (rows : list delivery) (deferred : list (string * string * Z)) (r : delivery)
  : option delivery :=
  if bool_decide (dkey r ∈ map dkey rows) then fate deferred r else Some r.

End Spec.

(** ** Facts *)

Section Facts.
Context `{Ids} `{!FreshIds} (env : SweepEnv).

Lemma wp_exec_rows p f (Q : Z -> world -> Prop) F w :
  Q (count p (deliveries (w_db w))) (World (on_deliveries f (w_db w)) (w_mem w)) ->
  wp (exec_rows p f) Q F w.
Proof. intros HQ. unfold exec_rows. by wp_steps. Qed.

Lemma wp_or_deferred {A} (m : tx A) (Q : option A -> world -> Prop) F w :
  wp m (fun a => Q (Some a)) (fun e w' => (e = ErrDeadBudget /\ Q None w') \/ (e <> ErrDeadBudget /\ F e w')) w ->
  wp (or_deferred m) Q F w.
Proof.
  unfold wp, or_deferred. destruct (m w) as [w' [a|e]]; [done|].
  intros [[-> HQ]|[Hne HF]]; [by rewrite bool_decide_true|by rewrite bool_decide_false].
Qed.

Lemma at_row_key d st r x : at_row st (sweep_row d r) x = true -> dkey x = dkey r.
Proof. unfold at_row. simpl. bool_prop. tauto. Qed.

Lemma at_row_self d st r : d_state r = st -> at_row st (sweep_row d r) r = true.
Proof. intros <-. unfold at_row, dkey. simpl. rewrite bool_decide_true, !Z.eqb_refl by done. done. Qed.

(** A pending row's consumer exists with the row's generation. *)
Lemma policy_found d k r :
  Inv d k -> r ∈ deliveries d ->
  exists p a, loadSweepPolicy (sr_Key (sweep_row d r)) d = Some (p, a) /\ sp_Generation p = d_generation r.
Proof.
  intros [_ _ IC ID] Hr. destruct (inv_del_con _ _ _ ID r Hr) as (c & Hc & Hk & Hg & _).
  unfold loadSweepPolicy. simpl.
  assert (find_consumer (d_stream r) (d_consumer r) d = Some c) as ->.
  { apply (query_row_unique ckey); [apply IC|done|done]. }
  simpl. eauto.
Qed.

(** An expired lease is never skipped. *)
Lemma expired_decided d now k r :
  Inv d k -> r ∈ deliveries d -> d_visible_at r <= UnixMilli now -> sd_Action (decide_row env d now r) <> SweepSkip.
Proof.
  intros HI Hr Hexp. unfold decide_row. destruct (policy_found d k r HI Hr) as (p & a & -> & Hg).
  unfold DecideSweep. simpl. rewrite (proj2 (Z.ltb_ge _ _) Hexp), Hg, Z.eqb_refl. simpl. by destruct (_ && _).
Qed.

Lemma swept_key d now rows D r r' : swept env d now rows D r = Some r' -> dkey r' = dkey r.
Proof. unfold swept, fate. repeat case_match; intros; by simplify_eq/=. Qed.

Lemma swept_snoc d now rows D D' x r :
  dkey r <> dkey x -> (dkey r ∈ D <-> dkey r ∈ D') ->
  swept env d now (rows ++ [x]) D' r = swept env d now rows D r.
Proof.
  intros Hne HD. unfold swept, fate. rewrite map_app. simpl.
  rewrite (bool_decide_ext (dkey r ∈ map dkey rows ++ [dkey x]) (dkey r ∈ map dkey rows))
    by (rewrite elem_of_app, list_elem_of_singleton; naive_solver).
  by rewrite (bool_decide_ext _ _ HD).
Qed.

Lemma swept_new d now rows D x : dkey x ∉ map dkey rows -> swept env d now rows D x = Some x.
Proof. intros Hx. unfold swept. by rewrite bool_decide_false. Qed.

Lemma swept_last d now rows D x : swept env d now (rows ++ [x]) D x = fate env d now D x.
Proof. unfold swept. rewrite bool_decide_true; [done|]. rewrite map_app. set_solver. Qed.

(** *** One row of the batch *)

(** The world after the rows [pre] were handled, [D] deferred. *)
Record sweeping (w0 : world) (now : Z) (pre : list delivery) (D : list (string * string * Z))
    (a : sweep_acc) (w : world) : Prop := {
  swp_frame : StoreSettle.settle_frame w0 w;
  swp_rows : deliveries (w_db w) = omap (swept env (w_db w0) now pre D) (deliveries (w_db w0));
  swp_keys : D ⊆ map dkey pre;
  swp_deferred : sa_deferred a = Z.of_nat (length D);
  swp_redelivered : sa_redelivered a = count (redelivers env (w_db w0) now) pre;
  swp_dead : sa_dead a + sa_deferred a = count (kills env (w_db w0) now) pre;
  swp_skipped : sa_skipped a = 0;
}.

Lemma sweeping_row w0 now pre D a w x :
  sweeping w0 now pre D a w -> x ∈ deliveries (w_db w0) -> dkey x ∉ map dkey pre -> x ∈ deliveries (w_db w).
Proof.
  intros Hsw Hx Hnew. rewrite (swp_rows _ _ _ _ _ _ Hsw). apply list_elem_of_omap.
  exists x. split; [done|]. by apply swept_new.
Qed.

(** A statement at row [x] turns the table of [pre] into the table of [pre ++ [x]]. *)
Lemma swept_statement w0 now pre D x (h : delivery -> option delivery) :
  world_ok w0 -> x ∈ deliveries (w_db w0) -> d_state x = 1 -> dkey x ∉ map dkey pre ->
  h x = fate env (w_db w0) now D x ->
  omap (fun r => if at_row 1 (sweep_row (w_db w0) x) r then h r else Some r)
    (omap (swept env (w_db w0) now pre D) (deliveries (w_db w0))) =
  omap (swept env (w_db w0) now (pre ++ [x]) D) (deliveries (w_db w0)).
Proof.
  intros Hok Hx Hst Hnew Hh. apply (omap_row dkey _ _ _ _ x); [apply (inv_deliveries _ _ Hok)|done|..].
  - intros r. apply at_row_key.
  - by apply at_row_self.
  - by apply swept_new.
  - by rewrite swept_last.
  - intros r _ Hne. by apply swept_snoc.
  - intros r r'. apply swept_key.
Qed.

Lemma swept_update w0 now pre D x f :
  world_ok w0 -> x ∈ deliveries (w_db w0) -> d_state x = 1 -> dkey x ∉ map dkey pre ->
  Some (f x) = fate env (w_db w0) now D x ->
  update_where (at_row 1 (sweep_row (w_db w0) x)) f
    (omap (swept env (w_db w0) now pre D) (deliveries (w_db w0))) =
  omap (swept env (w_db w0) now (pre ++ [x]) D) (deliveries (w_db w0)).
Proof.
  intros. rewrite <-(swept_statement w0 now pre D x (fun r => Some (f r))), update_omap by done.
  apply omap_same. intros r _. by destruct (at_row _ _ r).
Qed.

Lemma swept_delete w0 now pre D x :
  world_ok w0 -> x ∈ deliveries (w_db w0) -> d_state x = 1 -> dkey x ∉ map dkey pre ->
  fate env (w_db w0) now D x = None ->
  delete_where (at_row 1 (sweep_row (w_db w0) x))
    (omap (swept env (w_db w0) now pre D) (deliveries (w_db w0))) =
  omap (swept env (w_db w0) now (pre ++ [x]) D) (deliveries (w_db w0)).
Proof. intros. by rewrite <-(swept_statement w0 now pre D x (fun r => None)), delete_omap. Qed.

Lemma sweep_count w0 now pre D a w x :
  sweeping w0 now pre D a w -> x ∈ deliveries (w_db w0) -> d_state x = 1 -> dkey x ∉ map dkey pre ->
  forall ds, ds = deliveries (w_db w) -> count (at_row 1 (sweep_row (w_db w0) x)) ds = 1.
Proof.
  intros Hsw Hx Hst Hnew ds ->. pose proof (StoreSettle.stf_ok _ _ (swp_frame _ _ _ _ _ _ Hsw)) as Hok.
  eapply (count_one dkey _ (dkey x)); [apply (inv_deliveries _ _ Hok)| | |by apply at_row_self].
  - intros r. apply at_row_key.
  - by eapply sweeping_row.
Qed.

Lemma sweeping_events f w0 now pre D a w :
  sweeping w0 now pre D a w -> sweeping w0 now pre D a (World (on_events f (w_db w)) (w_mem w)).
Proof. intros []. split; try done. by apply StoreSettle.settle_frame_events. Qed.

Lemma fate_ext d now D D' x : (dkey x ∈ D <-> dkey x ∈ D') -> fate env d now D x = fate env d now D' x.
Proof. intros HD. unfold fate. by rewrite (bool_decide_ext _ _ HD). Qed.

(** Leaving a row in place is also a step: the deferred death. *)
Lemma swept_deferred w0 now pre D x :
  world_ok w0 -> x ∈ deliveries (w_db w0) -> dkey x ∉ map dkey pre ->
  redelivers env (w_db w0) now x = false ->
  omap (swept env (w_db w0) now pre D) (deliveries (w_db w0)) =
  omap (swept env (w_db w0) now (pre ++ [x]) (D ++ [dkey x])) (deliveries (w_db w0)).
Proof.
  intros Hok Hx Hnew Hre. apply omap_same. intros r Hr. destruct (decide (dkey r = dkey x)) as [Hk|Hne].
  - assert (r = x) as -> by (eapply (key_unique dkey); eauto; apply (inv_deliveries _ _ Hok)).
    rewrite swept_new, swept_last by done. unfold fate. rewrite Hre, bool_decide_true by set_solver.
    by rewrite andb_false_r.
  - symmetry. apply swept_snoc; [done|]. rewrite elem_of_app, list_elem_of_singleton. naive_solver.
Qed.

Lemma count_snoc {R} (p : R -> bool) t x : count p (t ++ [x]) = count p t + if p x then 1 else 0.
Proof. by rewrite count_app, count_cons, count_nil, Z.add_0_r. Qed.

Lemma sweep_step_wp w0 now pre D a w x :
  world_ok w0 -> sweeping w0 now pre D a w -> x ∈ deliveries (w_db w0) -> is_expired (UnixMilli now) x = true ->
  dkey x ∉ map dkey pre ->
  wp (sweep_step env now (w_db w0) x a)
     (fun a' w' => exists D', sweeping w0 now (pre ++ [x]) D' a' w') (fun e _ => e = DeadSink.header_error) w.
Proof.
  intros Hok0 Hsw Hx [Hst Hexp]%andb_true_iff Hnew. apply Z.eqb_eq in Hst. apply Z.leb_le in Hexp.
  pose proof (sweep_count _ _ _ _ _ _ _ Hsw Hx Hst Hnew) as Hcount.
  pose proof (expired_decided _ now _ _ Hok0 Hx Hexp) as Hskip.
  destruct (policy_found _ _ _ Hok0 Hx) as (p & aw & Hp & _). unfold sweep_step. rewrite Hp.
  assert (Hdec : decide_row env (w_db w0) now x = DecideSweep (sweep_row (w_db w0) x) p (UnixMilli now)
            (jitter_of env (sweep_row (w_db w0) x))) by (unfold decide_row; by rewrite Hp).
  rewrite <-Hdec. cbv zeta.
  pose proof (count_snoc (redelivers env (w_db w0) now) pre x) as Hcr.
  pose proof (count_snoc (kills env (w_db w0) now) pre x) as Hck.
  unfold redelivers at 3, kills in Hcr. unfold kills at 3 in Hck.
  destruct (sd_Action (decide_row env (w_db w0) now x)) eqn:Hact; [done|..].
  - unfold timeoutEvent. wp_steps. apply wp_or_deferred.
    eapply wp_mono; [apply (DeadSink.Dead_wp (we_limits env) (we_dlq env)), Inv_events, (swp_frame _ _ _ _ _ _ Hsw)| |].
    + intros [ev b] w1 [Hsf _]. wp_steps. apply wp_exec_rows.
      pose proof (DeadSink.snk_ok _ _ Hsf) as Hok1. pose proof (DeadSink.snk_deliveries _ _ Hsf) as Hd1.
      rewrite Hcount by done. wp_steps. exists D. destruct Hsw as [Hfr Hrows Hk Hdf Hrd Hdd Hsk].
      assert (HxD : dkey x ∉ D) by (intros Hin; by apply Hk in Hin).
      split; simpl; [|simpl in Hd1; rewrite Hd1, Hrows; apply swept_delete; try done|..].
      * eapply StoreSettle.settle_frame_trans; [by apply StoreSettle.settle_frame_events|].
        eapply StoreSettle.settle_frame_trans; [by apply StoreSettle.settle_frame_sink|].
        apply StoreSettle.settle_frame_deliveries; [done|]. apply DelInv_delete. by destruct Hok1.
      * unfold fate, redelivers, kills. rewrite Hact. simpl. by rewrite bool_decide_false.
      * rewrite map_app. set_solver.
      * done.
      * rewrite Hcr. simpl in *. lia.
      * rewrite Hck. simpl in *. lia.
      * lia.
    + intros e w1 [->|[-> ->]]; [by right|left]. split; [done|]. wp_steps. exists (D ++ [dkey x]).
      destruct Hsw as [Hfr Hrows Hk Hdf Hrd Hdd Hsk]. split; simpl.
      * by apply StoreSettle.settle_frame_events.
      * rewrite Hrows. apply swept_deferred; try done. unfold redelivers. by rewrite Hact.
      * rewrite map_app. set_solver.
      * rewrite length_app. simpl. lia.
      * rewrite Hcr. simpl in *. lia.
      * rewrite Hck. simpl in *. lia.
      * done.
  - unfold timeoutEvent. wp_steps. apply wp_exec_rows. rewrite Hcount by done. simpl. wp_steps. exists D.
    destruct Hsw as [Hfr Hrows Hk Hdf Hrd Hdd Hsk]. split; simpl.
    + eapply StoreSettle.settle_frame_trans; [by apply StoreSettle.settle_frame_events|].
      apply (StoreSettle.settle_frame_deliveries _ (World (on_events _ (w_db w)) (w_mem w)));
        [apply Inv_events, Hfr|]. apply DelInv_update; try done; [|apply Hfr].
      intros r _. apply StoreSettle.release_row_ok.
    + rewrite Hrows. apply swept_update; try done. unfold fate, redelivers. by rewrite Hact.
    + rewrite map_app. set_solver.
    + done.
    + rewrite Hcr. simpl in *. lia.
    + rewrite Hck. simpl in *. lia.
    + done.
Qed.

Lemma elem_of_expired nowMS lim d r :
  r ∈ expired_rows nowMS lim d -> r ∈ deliveries d /\ is_expired nowMS r = true.
Proof. intros [? ?]%elem_of_limit%elem_of_order_by%elem_of_where. done. Qed.

Lemma expired_nodup nowMS lim d :
  NoDup (map dkey (deliveries d)) -> NoDup (map dkey (expired_rows nowMS lim d)).
Proof.
  intros Hnd. apply (key_where dkey (is_expired nowMS)), (key_order_by dkey sweep_le) in Hnd.
  unfold expired_rows. destruct (limit_prefix lim (order_by sweep_le (where_ (is_expired nowMS) (deliveries d)))) as [rest Hl].
  rewrite Hl, map_app in Hnd. by apply NoDup_app in Hnd as [? _].
Qed.

Lemma SweepCmd_wp lim now w :
  world_ok w ->
  wp (SweepCmd env lim now)
     (fun '(res, _) w' => exists D a, let rows := expired_rows (UnixMilli now) lim (w_db w) in
        sweeping w now rows D a w' /\
        res = MkSweepResult (Z.of_nat (length rows)) (sa_redelivered a) (sa_dead a) (sa_skipped a) (sa_deferred a)
                (sa_woke a) (Z.of_nat (length rows) =? lim) (next_due (w_db w')) (sa_lateness a))
     (fun e _ => e = DeadSink.header_error) w.
Proof.
  intros Hok. unfold SweepCmd. wp_steps. set (rows := expired_rows _ _ _).
  assert (Hrows : forall x, x ∈ rows -> x ∈ deliveries (w_db w) /\ is_expired (UnixMilli now) x = true)
    by (intros x; apply elem_of_expired).
  assert (Hnd : NoDup (map dkey rows)) by (apply expired_nodup, (inv_deliveries _ _ Hok)).
  apply (wp_for_each _ _ _ (fun rest a w' => exists pre D, rows = pre ++ rest /\ sweeping w now pre D a w')).
  - exists [], []. split; [done|]. split; try done.
    by rewrite omap_id.
  - intros x rest a w' (pre & D & Hl & Hsw). destruct (Hrows x ltac:(rewrite Hl; set_solver)) as [Hx Hexp].
    rewrite Hl, map_app in Hnd. apply NoDup_app in Hnd as (_ & Hdis & _).
    eapply wp_mono; [apply (sweep_step_wp w now pre D); try done| |done].
    + intros Hin. apply (Hdis _ Hin). simpl. set_solver.
    + intros a' w'' [D' Hsw']. exists (pre ++ [x]), D'. split; [|done]. by rewrite <-app_assoc.
  - intros a w' (pre & D & Hl & Hsw). rewrite app_nil_r in Hl. subst pre. wp_steps. by exists D, a.
Qed.

(** ** Theorems *)

(** What an expiry sweep does (T8).  It keeps the invariant and the
    consumers, only appends messages, and touches exactly the expired leases it
    loaded: each goes back to READY at its scheduled instant, or is killed at
    its delivery bound, or, when the copy budget of this transaction is spent,
    stays in flight and is counted as deferred.  None is skipped, no attempt
    count changes, and the counters of the result account for every row. *)
Theorem sweep_effect (lim now : Z) (w : world) :
  world_ok w ->
  wp (SweepCmd env lim now)
     (fun '(res, _) w' => exists D, let rows := expired_rows (UnixMilli now) lim (w_db w) in
        world_ok w' /\ consumers (w_db w') = consumers (w_db w) /\
        messages (w_db w) `prefix_of` messages (w_db w') /\
        deliveries (w_db w') = omap (swept env (w_db w) now rows D) (deliveries (w_db w)) /\
        sw_Deferred res = Z.of_nat (length D) /\ D ⊆ map dkey rows /\
        sw_Redelivered res = count (redelivers env (w_db w) now) rows /\
        sw_Dead res + sw_Deferred res = count (kills env (w_db w) now) rows /\
        sw_Skipped res = 0 /\
        sw_Expired res = sw_Redelivered res + sw_Dead res + sw_Deferred res)
     (fun e _ => e = DeadSink.header_error) w.
Proof.
  intros Hok. eapply wp_mono; [by apply SweepCmd_wp| |done]. intros [res evs] w' (D & a & Hsw & ->).
  destruct Hsw as [[Hok' Hc Hm] Hrows Hk Hdf Hrd Hdd Hsk]. exists D. simpl. split_and!; try done.
  rewrite Hrd, <-Z.add_assoc, Hdd, <-count_or_disjoint.
  - rewrite <-(count_all (expired_rows (UnixMilli now) lim (w_db w))). apply count_ext. intros x Hx.
    apply elem_of_expired in Hx as [Hx [_ Hexp]%andb_true_iff]. apply Z.leb_le in Hexp.
    pose proof (expired_decided _ now _ _ Hok Hx Hexp). unfold redelivers, kills.
    by destruct (sd_Action _).
  - intros x _. unfold redelivers, kills. by destruct (sd_Action _).
Qed.

(** The sweep makes progress: when it answers that there is no more and
    nothing was deferred, no lease that was due at its instant is left, so every
    expired delivery is READY again or dead. *)
Lemma sweep_complete (lim now : Z) (w w' : world) (res : SweepResult) (evs : list event) :
  world_ok w -> SweepCmd env lim now w = (w', Ok (res, evs)) ->
  sw_More res = false -> sw_Deferred res = 0 ->
  forall r, r ∈ deliveries (w_db w') -> is_expired (UnixMilli now) r = false.
Proof.
  intros Hok Hrun Hmore Hdef r Hr. destruct (wp_run _ _ _ _ _ _ (SweepCmd_wp lim now w Hok) Hrun) as (D & a & Hsw & ->).
  destruct Hsw as [_ Hrows _ Hdf _ _ _]. simpl in *. rewrite Hdef in Hdf.
  assert (D = []) as -> by (by destruct D).
  rewrite Hrows in Hr. apply list_elem_of_omap in Hr as (r0 & Hr0 & Hsw). unfold swept in Hsw.
  case_bool_decide as Hin.
  - apply mapped_in in Hin as (x & Hk & Hx). apply elem_of_expired in Hx as [Hx Hexp].
    assert (r0 = x) as -> by (eapply (key_unique dkey); eauto; apply (inv_deliveries _ _ Hok)).
    apply andb_true_iff in Hexp as [_ Hle%Z.leb_le]. pose proof (expired_decided _ now _ _ Hok Hr0 Hle) as Hskip.
    revert Hsw. unfold fate, redelivers, kills. destruct (sd_Action _); simpl; [done|done|]. by intros [= <-].
  - injection Hsw as <-. destruct (is_expired (UnixMilli now) r0) eqn:Hexp; [|done]. destruct Hin.
    apply in_mapped. unfold expired_rows. rewrite limit_full by (by apply Z.eqb_neq in Hmore).
    by apply elem_of_order_by, elem_of_where.
Qed.

(** *** Retiring *)

(** The world after the rows with keys [gone] were retired. *)
Record retiring (w0 : world) (gone : list (string * string * Z)) (a : retire_acc) (w : world) : Prop := {
  rtr_frame : StoreSettle.settle_frame w0 w;
  rtr_rows : deliveries (w_db w) = delete_where (fun r => bool_decide (dkey r ∈ gone)) (deliveries (w_db w0));
  rtr_count : ra_retired a = Z.of_nat (length (deliveries (w_db w0))) - Z.of_nat (length (deliveries (w_db w)));
  rtr_why : forall k, k ∈ gone -> exists c r, c ∈ consumers (w_db w0) /\ 0 < c_max_deliver c /\
    r ∈ deliveries (w_db w0) /\ dkey r = k /\ retirable c r = true;
}.

Lemma retire_step_wp w0 now c x gone a w d :
  world_ok w0 -> c ∈ consumers (w_db w0) -> 0 < c_max_deliver c -> retiring w0 gone a w ->
  x ∈ deliveries (w_db w0) -> dkey x ∉ gone -> retirable c x = true ->
  wp (retire_step env now d c x a)
     (fun a' w' => exists gone', retiring w0 gone' a' w' /\ gone' ⊆ gone ++ [dkey x])
     (fun e _ => e = DeadSink.header_error) w.
Proof.
  intros Hok0 Hc Hmax Hrt Hx Hnew Hwhy. pose proof Hrt as [Hfr Hrows Hcnt Hgone]. unfold retire_step.
  destruct (ra_stopped a); [wp_steps; exists gone; set_solver|]. apply wp_bind, wp_or_deferred.
  eapply wp_mono; [apply (DeadSink.Dead_wp (we_limits env) (we_dlq env)), Hfr| |].
  - intros [ev b] w1 [Hsf _]. wp_steps. apply wp_exec_rows.
    pose proof (DeadSink.snk_ok _ _ Hsf) as Hok1. pose proof (DeadSink.snk_deliveries _ _ Hsf) as Hd1.
    assert (Hst : d_state x = 0).
    { unfold retirable in Hwhy. bool_prop. lia. }
    assert (Hin : x ∈ deliveries (w_db w1)).
    { rewrite Hd1, Hrows. apply elem_of_delete. split; [by apply bool_decide_eq_false|done]. }
    assert (Hone : count (at_row 0 (sweep_row d x)) (deliveries (w_db w1)) = 1).
    { eapply (count_one dkey _ (dkey x)); [apply (inv_deliveries _ _ Hok1)| |done|by apply at_row_self].
      intros r. apply at_row_key. }
    rewrite Hone. wp_steps. exists (gone ++ [dkey x]). split; [|done]. split; simpl.
    + eapply StoreSettle.settle_frame_trans; [done|].
      eapply StoreSettle.settle_frame_trans; [by apply StoreSettle.settle_frame_sink|].
      apply StoreSettle.settle_frame_deliveries; [done|]. apply DelInv_delete. by destruct Hok1.
    + rewrite Hd1, Hrows, delete_where_twice. apply delete_where_ext. intros r Hr.
      rewrite (bool_decide_ext (dkey r ∈ gone ++ [dkey x]) (dkey r ∈ gone \/ dkey r = dkey x))
        by (rewrite elem_of_app, list_elem_of_singleton; done).
      rewrite bool_decide_or. f_equal. apply eq_true_iff_eq. rewrite bool_decide_eq_true. split.
      * apply at_row_key.
      * intros Hk. assert (r = x) as -> by (eapply (key_unique dkey); eauto; apply (inv_deliveries _ _ Hok0)).
        by apply at_row_self.
    + rewrite length_delete, Hone, Hd1. simpl. lia.
    + intros k [Hk|Hk%list_elem_of_singleton]%elem_of_app; [by apply Hgone|]. subst k. by exists c, x.
  - intros e w1 [->|[-> ->]]; [by right|left]. split; [done|]. wp_steps. exists gone.
    split; [by split|set_solver].
Qed.

Lemma retire_rows_wp w0 now c lim gone a w :
  world_ok w0 -> c ∈ consumers (w_db w0) -> 0 < c_max_deliver c -> retiring w0 gone a w ->
  wp (for_each (retire_rows c lim (w_db w)) a (retire_step env now (w_db w) c))
     (fun a' w' => exists gone', retiring w0 gone' a' w') (fun e _ => e = DeadSink.header_error) w.
Proof.
  intros Hok0 Hc Hmax Hrt. set (rows := retire_rows c lim (w_db w)).
  pose proof (rtr_rows _ _ _ _ Hrt) as Hds.
  assert (Hrows : forall x, x ∈ rows -> x ∈ deliveries (w_db w0) /\ dkey x ∉ gone /\ retirable c x = true).
  { intros x [Hret Hx]%elem_of_limit%elem_of_order_by%elem_of_where. rewrite Hds in Hx.
    apply elem_of_delete in Hx as [Hno%bool_decide_eq_false Hx]. done. }
  assert (Hnd : NoDup (map dkey rows)).
  { pose proof (inv_del_key _ _ _ (inv_deliveries _ _ (StoreSettle.stf_ok _ _ (rtr_frame _ _ _ _ Hrt)))) as Hnd.
    apply (key_where dkey (retirable c)), (key_order_by dkey (fun a b => d_seq a <=? d_seq b)) in Hnd.
    unfold rows, retire_rows. destruct (limit_prefix lim (order_by (fun a b => d_seq a <=? d_seq b)
      (where_ (retirable c) (deliveries (w_db w))))) as [rest Hl].
    rewrite Hl, map_app in Hnd. by apply NoDup_app in Hnd as [? _]. }
  apply (wp_for_each _ _ _ (fun rest a w' => exists pre gone', rows = pre ++ rest /\ retiring w0 gone' a w' /\
    gone' ⊆ gone ++ map dkey pre)).
  - exists [], gone. split; [done|]. split; [done|]. set_solver.
  - intros x rest a1 w1 (pre & gone1 & Hl & Hrt1 & Hsub). destruct (Hrows x ltac:(rewrite Hl; set_solver)) as (Hx & Hxg & Hret).
    rewrite Hl, map_app in Hnd. apply NoDup_app in Hnd as (_ & Hdis & _).
    eapply wp_mono; [apply (retire_step_wp w0 now c x gone1); try done| |done].
    + intros [Hin|Hin]%Hsub%elem_of_app; [done|]. apply (Hdis _ Hin). simpl. set_solver.
    + intros a2 w2 (gone2 & Hrt2 & Hsub2). exists (pre ++ [x]), gone2. rewrite <-app_assoc, map_app. split; [done|].
      split; [done|]. intros k [Hk%Hsub|Hk]%Hsub2%elem_of_app; rewrite !elem_of_app in *; tauto.
  - intros a1 w1 (pre & gone1 & _ & Hrt1 & _). by exists gone1.
Qed.

Lemma RetireCmd_wp lim now w :
  world_ok w ->
  wp (RetireCmd env lim now)
     (fun '(n, _) w' => exists gone a, retiring w gone a w' /\ n = ra_retired a)
     (fun e _ => e = DeadSink.header_error) w.
Proof.
  intros Hok. unfold RetireCmd. wp_steps. set (targets := where_ _ _).
  assert (Ht : forall c, c ∈ targets -> c ∈ consumers (w_db w) /\ 0 < c_max_deliver c).
  { intros c [Hmax%Z.ltb_lt Hc]%elem_of_where. done. }
  apply (wp_for_each _ _ _ (fun rest a w' => rest ⊆ targets /\ exists gone, retiring w gone a w')).
  - split; [done|]. exists []. split; simpl; [by apply StoreSettle.settle_frame_refl| |lia|set_solver].
    symmetry. rewrite delete_omap. by apply omap_id.
  - intros c rest a w' [Hsub [gone Hrt]]. destruct (Ht c ltac:(set_solver)) as [Hc Hmax].
    destruct (ra_stopped a); [wp_steps; split; [set_solver|by exists gone]|]. wp_steps.
    eapply wp_mono; [by apply (retire_rows_wp w now c lim gone)| |done]. intros a' w'' Hrt'. split; [set_solver|done].
  - intros a w' [_ [gone Hrt]]. wp_steps. by exists gone, a.
Qed.

(** Retiring is exact (clarification C4): the pass keeps the invariant and
    the consumers, removes only READY rows that have used up the delivery bound
    of their consumer, only appends messages, and reports exactly how many rows
    it removed. *)
Lemma retire_effect (lim now : Z) (w : world) :
  world_ok w ->
  wp (RetireCmd env lim now)
     (fun '(n, _) w' => world_ok w' /\ consumers (w_db w') = consumers (w_db w) /\
        messages (w_db w) `prefix_of` messages (w_db w') /\
        n = Z.of_nat (length (deliveries (w_db w))) - Z.of_nat (length (deliveries (w_db w'))) /\
        (forall r, r ∈ deliveries (w_db w') -> r ∈ deliveries (w_db w)) /\
        (forall r, r ∈ deliveries (w_db w) -> r ∉ deliveries (w_db w') ->
           exists c, c ∈ consumers (w_db w) /\ 0 < c_max_deliver c /\ retirable c r = true))
     (fun e _ => e = DeadSink.header_error) w.
Proof.
  intros Hok. eapply wp_mono; [by apply RetireCmd_wp| |done].
  intros [n evs] w' (gone & a & [[Hok' Hc Hm] Hrows Hcnt Hwhy] & ->). split_and!; try done.
  - intros r. rewrite Hrows. by intros [_ ?]%elem_of_delete.
  - intros r Hr Hno. destruct (decide (dkey r ∈ gone)) as [Hin|Hout].
    + destruct (Hwhy _ Hin) as (c & r' & Hcin & Hmax & Hr' & Hk & Hret).
      assert (r = r') as -> by (eapply (key_unique dkey); eauto; apply (inv_deliveries _ _ Hok)). by exists c.
    + destruct Hno. rewrite Hrows. apply elem_of_delete. by rewrite bool_decide_false.
Qed.

(** *** Restart *)

Lemma reclaim_row_ok nowMS j rnd r : row_ok r -> row_ok (reclaim_row nowMS j rnd r).
Proof. intros [[_ ?]|(_ & ? & _)]; left; simpl; split; [done|lia|done|lia]. Qed.

(** What a restart does to the leases (T9, invariant I4).  The recovery
    transaction never fails and keeps the invariant; afterwards nothing is in
    flight; every row is still there, under the same key, generation and attempt
    count (a restart voids leases, it never rewrites history); rows that were
    READY are unchanged and a reclaimed one becomes visible within the jitter
    window; consumers, counters and statistics stay; the messages change only
    in the dedup keys whose window has passed. *)
Lemma reclaim_effect (now jitter : Z) (rnd : delivery -> Z) (w : world) :
  world_ok w ->
  wp (reclaimLeasesAndTrimDedup now jitter rnd)
     (fun '(reclaimed, trimmed) w' => world_ok w' /\ consumers (w_db w') = consumers (w_db w) /\
        count inflight (deliveries (w_db w')) = 0 /\
        reclaimed = count inflight (deliveries (w_db w)) /\
        Forall2 (fun r r' => dkey r' = dkey r /\ d_attempts r' = d_attempts r /\
           d_generation r' = d_generation r /\ d_subject r' = d_subject r /\
           (inflight r = false -> r' = r) /\
           (inflight r = true -> UnixMilli now <= d_visible_at r' <= UnixMilli now + Z.max 0 (Milliseconds jitter - 1)))
          (deliveries (w_db w)) (deliveries (w_db w')) /\
        Forall2 (fun m m' => if dedup_expired (w_db w) (UnixMilli now) m then m' = Publish.clear_key m else m' = m)
          (messages (w_db w)) (messages (w_db w')))
     (fun _ _ => False) w.
Proof.
  intros Hok. pose proof Hok as [IS IM IC ID]. unfold reclaimLeasesAndTrimDedup, insertEvent. wp_steps. simpl.
  set (rec := reclaim_row _ _ _).
  assert (HD : DelInv (messages (w_db w)) (consumers (w_db w)) (update_where inflight rec (deliveries (w_db w)))).
  { apply DelInv_update; try done. intros r _. apply reclaim_row_ok. }
  split_and!; try done.
  - split; simpl; [done|by apply Publish.MsgInv_clear|done|].
    eapply DelInv_messages; [|done]. by rewrite (key_update mkey).
  - apply count_0. intros r (r0 & _ & ->)%elem_of_update. destruct (inflight r0) eqn:Hf; [done|]. exact Hf.
  - apply update_pointwise. intros r _. destruct (inflight r) eqn:Hf; simpl; split_and!; try done; intros _.
    case_match; bool_prop; [|lia].
    pose proof (Z.mod_pos_bound (Z.land (rnd r) (2 ^ 31 - 1)) (Milliseconds jitter)). lia.
  - apply update_pointwise. intros m _. change (dedup_expired _ _ m) with (dedup_expired (w_db w) (UnixMilli now) m) at 1.
    by destruct (dedup_expired _ _ m).
Qed.

End Facts.

(** *** The theorems at work *)

Import Samples.

Definition sample_sweep : SweepEnv :=
  MkSweepEnv DefaultLimits (DefaultDLQConfig DefaultLimits) (fun _ => None).

(** The lease of the fetched order runs out at 30008 ms. *)
Lemma sweep_effect_witness :
  exists w' res evs, SweepCmd sample_sweep 10 (40000 * Millisecond) Fetch.after_fetch = (w', Ok (res, evs)) /\
    world_ok w' /\ sw_Redelivered res = 1 /\ map d_visible_at (deliveries (w_db w')) = [41000].
Proof.
  pose proof (sweep_effect sample_sweep 10 (40000 * Millisecond) Fetch.after_fetch Fetch.after_fetch_ok) as Hs.
  unfold wp in Hs. destruct (SweepCmd _ _ _ _) as [w' [[res evs]|e]] eqn:Hrun; [|vm_compute in Hrun; discriminate].
  exists w', res, evs. split; [done|]. destruct Hs as (D & Hok & _). split; [done|].
  vm_compute in Hrun. injection Hrun as <- <- _. split; by vm_compute.
Defined.

(** The bound of "billing" lowered below the attempts of its released row. *)
Definition lowered : consumer :=
  Consumer "orders" "billing" [">"] 30000 1 1000 [1000; 5000] "drop" 2 1 false 0.

Definition swept_world : world := fst (SweepCmd sample_sweep 10 (40000 * Millisecond) Fetch.after_fetch).

Definition lowered_of (w : world) : world :=
  World (on_consumers (fun _ => [lowered; mailing]) (w_db w)) (w_mem w).

Definition lowered_world : world := lowered_of swept_world.

Lemma swept_world_ok : world_ok swept_world.
Proof.
  pose proof (SweepCmd_wp sample_sweep 10 (40000 * Millisecond) Fetch.after_fetch Fetch.after_fetch_ok) as Hs.
  unfold wp in Hs. unfold swept_world. destruct (SweepCmd _ _ _ _) as [w' [[res evs]|e]] eqn:Hrun;
    [|vm_compute in Hrun; discriminate]. destruct Hs as (D & a & Hsw & _). apply Hsw.
Qed.

Definition released : delivery :=
  Delivery "orders" "billing" 1 "orders.created" 0 1 41000 1 (Some 8) (Some "ack_wait").

Lemma lowered_cases c : c ∈ [lowered; mailing] -> c = lowered \/ c = mailing.
Proof. set_solver. Qed.

Lemma lowered_of_ok w :
  world_ok w -> deliveries (w_db w) = [released] -> seq_of "orders" (stream_seq (w_db w)) = Some 2 ->
  world_ok (lowered_of w).
Proof.
  intros Hok Hrows Hseq. apply (Inv_consumers (fun _ => [lowered; mailing])); [exact Hok|..].
  - split; [apply (bool_decide_unpack (NoDup _)); by vm_compute|].
    intros c [-> | ->]%lowered_cases; (split; [done|]; split; [done|]; split; [by vm_compute|]); by exists 2.
  - destruct Hok as [_ _ _ [Ik Ir _ Im _]]. split; [exact Ik|exact Ir| |exact Im|]; rewrite Hrows.
    + intros r ->%list_elem_of_singleton. exists lowered. split; [constructor|by vm_compute].
    + intros c [-> | ->]%lowered_cases; by vm_compute.
Qed.

Lemma lowered_ok : world_ok lowered_world.
Proof. apply lowered_of_ok; [apply swept_world_ok|by vm_compute..]. Qed.

End StoreSweep.
