(* ===== verification/Sweeper.v ===== *)
(** * The sweeper goroutine

    [internal/store/sweeper.go]: the tick that probes for expired leases,
    submits sweep batches with a bounded catch-up, and wakes the parked fetches
    whose redelivery is due.  It is written against the [Waker] interface of
    Waiters.v; its theorems about wakes are those of the registry. *)

From S2P Require Import StoreSweep Waiters.

Module Sweeper.
Import Settle StoreSweep.

Record SweepConfig : Set := MkSweepConfig { Interval : Z; Batch : Z; Catchup : Z; RetireInterval : Z }.

Definition fillDefaults (c : SweepConfig) : SweepConfig :=
  MkSweepConfig (if Interval c <=? 0 then 250 * Millisecond else Interval c)
    (if Batch c <=? 0 then 1024 else Batch c)
    (if Catchup c <=? 0 then 8 else Catchup c)
    (if RetireInterval c <? 0 then 0 else RetireInterval c).

(** Why a tick stopped short. *)
Inductive skipped : Set := Overlap | WriterBusy | CatchupCap.

#[export] Instance skipped_eq_dec : EqDecision skipped.
Proof. solve_decision. Defined.

(** One submission: the batch clock, and whether the writer accepted it in time. *)
Record attempt : Set := MkAttempt { at_now : Z; at_busy : bool }.

Section Sweeper.
Context `{Ids} (env : SweepEnv) (maxSweepBatch : Z) {R : Type} `{Waker R}.

(** [Store.Sweep]: a command that fails is rolled back. *)
Definition sweep_once (batch : Z) (a : attempt) (w : world) : world * result SweepResult :=
  match sweep_limit batch maxSweepBatch with
  | Err e => (w, Err e)
  | Ok lim =>
      if at_busy a then (w, Err (Plain "context deadline exceeded"))
      else
        match SweepCmd env lim (at_now a) w with
        | (w', Ok (res, _)) => (w', Ok res)
        | (w', Err e) => (World (w_db w) (w_mem w'), Err e)
        end
  end.

(** The wakes of a list of keys; [None] is a panic of the waker. *)
Fixpoint wake_all (keys : list (string * string)) (r : R) : option R :=
  match keys with
  | [] => Some r
  | k :: keys => r' ← waker_Wake k r; wake_all keys r'
  end.

Definition key_pair (k : Settle.ConsumerKey) : string * string := (key_Stream k, key_Consumer k).

(** What a loop did: the tables, the waker, the batches answered and the reason
    it stopped short. *)
Record swept_tick : Type := MkTick { tk_world : world; tk_waker : option R; tk_results : list SweepResult; tk_skipped : option skipped }.

(** [n] submissions at most; the first is numbered [i]. *)
Fixpoint sweep_loop (n i : nat) (batch : Z) (att : nat -> attempt) (w : world) (r : R) (done_ : list SweepResult) : swept_tick :=
  match n with
  | O => MkTick w (Some r) done_ (Some CatchupCap)
  | S n =>
      match sweep_once batch (att i) w with
      | (w', Err _) => MkTick w' (Some r) done_ (Some WriterBusy)
      | (w', Ok res) =>
          match wake_all (map key_pair (sw_Woke res)) r with
          | None => MkTick w' None (done_ ++ [res]) None
          | Some r' =>
              if sw_More res then sweep_loop n (S i) batch att w' r' (done_ ++ [res])
              else MkTick w' (Some r') (done_ ++ [res]) None
          end
      end
  end.

Definition sweep (cfg : SweepConfig) (att : nat -> attempt) (w : world) (r : R) : swept_tick :=
  sweep_loop (S (Z.to_nat (Catchup cfg))) 0 (Batch cfg) att w r [].

(** [MIN(visible_at)] over the leases, against the clock. *)
Definition probe (nowMS : Z) (d : db) : bool :=
  match min_of d_visible_at (where_ (fun r => d_state r =? 1) (deliveries d)) with
  | Some vis => vis <=? nowMS
  | None => false
  end.

Definition is_due (nowMS : Z) (k : string * string) (r : delivery) : bool :=
  held_by k.1 k.2 r && (d_state r =? 0) && (d_visible_at r <=? nowMS).

Definition maxWakeKeys : nat := 256.

Definition wakeDue (nowMS : Z) (d : db) (r : R) : option R :=
  match waker_Waiting r with
  | [] => Some r
  | keys => wake_all (List.filter (fun k => existsb (is_due nowMS k) (deliveries d)) (take maxWakeKeys keys)) r
  end.

(** One tick: [probeNow] and [wakeNow] are its two clock readings. *)
Definition step (cfg : SweepConfig) (busy : bool) (probeNow wakeNow : Z) (att : nat -> attempt) (w : world) (r : R) : swept_tick :=
  if busy then MkTick w (Some r) [] (Some Overlap)
  else
    let t := if probe (UnixMilli probeNow) (w_db w) then sweep cfg att w r else MkTick w (Some r) [] None in
    match tk_waker t with
    | None => t
    | Some r' => MkTick (tk_world t) (wakeDue (UnixMilli wakeNow) (w_db (tk_world t)) r') (tk_results t) (tk_skipped t)
    end.

(** [Store.Retire] under the sweeper: the outcome is only logged. *)
Definition retire (cfg : SweepConfig) (now : Z) (w : world) : world :=
  let lim := if Batch cfg <=? 0 then maxSweepBatch else Batch cfg in
  match RetireCmd env lim now w with
  | (w', Ok _) => w'
  | (w', Err _) => World (w_db w) (w_mem w')
  end.
End Sweeper.

(** ** The probe *)

(** The probe never misses an expired lease, and never sends a sweep for none. *)
Lemma probe_exact nowMS d : probe nowMS d = true <-> exists r, r ∈ deliveries d /\ is_expired nowMS r = true.
Proof.
  unfold probe, is_expired. setoid_rewrite andb_true_iff. destruct (min_of _ _) as [vis|] eqn:Hm.
  - apply min_of_Some in Hm as (Hle & r0 & [Hs0 Hr0]%elem_of_where & ->). rewrite Z.leb_le. split.
    + intros Hv. exists r0. rewrite Z.leb_le. done.
    + intros (r & Hr & Hs & Hv%Z.leb_le). specialize (Hle r). rewrite elem_of_where in Hle. specialize (Hle (conj Hs Hr)). lia.
  - apply min_of_None in Hm. split; [done|]. intros (r & Hr & Hs & _).
    assert (Hin : r ∈ where_ (fun r => d_state r =? 1) (deliveries d)) by (by apply elem_of_where). rewrite Hm in Hin. by apply elem_of_nil in Hin.
Qed.

(** ** Wakes *)

Import Waiters.

Lemma wake_all_spec keys r :
  reg_ok r -> exists r', wake_all keys r = Some r' /\ reg_ok r' /\ forall i w, heap r !! i = Some w ->
    heap r' !! i = Some (if decide (w_key w ∈ keys /\ parked_open w) then with_token w else w).
Proof.
  revert r. induction keys as [|k keys IH]; intros r Hok; cbn [wake_all].
  - exists r. split_and!; [done..|]. intros i w Hw. case_decide as Hd; [|done]. by destruct Hd as [?%elem_of_nil _].
  - destruct (Wake_lookup k r Hok) as (r1 & Hw1 & Hok1 & H1). change (waker_Wake k r) with (Wake k r). rewrite Hw1.
    change (Some r1 ≫= fun r' => wake_all keys r') with (wake_all keys r1).
    destruct (IH r1 Hok1) as (r2 & Hw2 & Hok2 & H2). exists r2. split_and!; [done..|]. intros i w Hw. rewrite (H2 i _ (H1 i w Hw)).
    destruct (decide (w_key w = k /\ parked_open w)) as [[<- Ho]|Hn].
    + rewrite (decide_True (P := w_key w ∈ w_key w :: keys /\ parked_open w)) by (split; [left|done]).
      by destruct (decide (w_key (with_token w) ∈ keys /\ _)).
    + destruct (decide (w_key w ∈ keys /\ parked_open w)) as [[? ?]|Hn'].
      * rewrite decide_True; [done|]. split; [by right|done].
      * rewrite decide_False; [done|]. rewrite elem_of_cons. tauto.
Qed.

(** Pass B wakes exactly the parked fetches with something due.  On a
    well-formed registry the pass never panics; among the first 256 waiting
    consumers, those with a READY delivery that is visible get a token in every
    fetch parked on them, and no other waiter is touched. *)
Lemma wakeDue_exact nowMS d m p r :
  rtc Waiters.step (NewRegistry m p) r ->
  exists r', wakeDue nowMS d r = Some r' /\ forall i w, heap r !! i = Some w ->
    heap r' !! i = Some (if decide (parked_open w /\ w_key w ∈ take maxWakeKeys (Waiting r) /\
                                    existsb (is_due nowMS (w_key w)) (deliveries d) = true)
                         then with_token w else w).
Proof.
  intros Hr. pose proof (steps_ok _ _ Hr (reg_ok_new m p)) as Hok. unfold wakeDue. simpl.
  set (keys := List.filter (fun k => existsb (is_due nowMS k) (deliveries d)) (take maxWakeKeys (Waiting r))).
  assert (Hkeys : forall k, k ∈ keys <-> k ∈ take maxWakeKeys (Waiting r) /\ existsb (is_due nowMS k) (deliveries d) = true).
  { intros k. unfold keys. by rewrite list_elem_of_In, filter_In, <-list_elem_of_In. }
  destruct (wake_all_spec keys r Hok) as (r' & Hw & _ & Hh). exists r'. split.
  - destruct (Waiting r) as [|k l] eqn:He; [|exact Hw]. unfold keys in Hw. by rewrite take_nil in Hw.
  - intros i w Hi. rewrite (Hh i w Hi). specialize (Hkeys (w_key w)).
    destruct (decide (w_key w ∈ keys /\ parked_open w)), (decide (parked_open w /\ _)); tauto.
Qed.

(** The waiting keys come shard by shard: once the shards below [n] hold 256
    keys, no consumer of shard [n] or above is ever probed. *)
Lemma late_shards_starve r n k :
  0 <= n <= shardOf k.1 ->
  (maxWakeKeys <= length (seqZ 0 n ≫= fun m => (map_to_list (byKey (shard_at m r))).*1))%nat ->
  (forall m, 0 <= m < n -> byKey (shard_at m r) !! k = None) ->
  k ∉ take maxWakeKeys (Waiting r).
Proof.
  intros Hn Hlen Hnot Hin. unfold Waiting in Hin. destruct (total r =? 0); [by rewrite take_nil in Hin; apply elem_of_nil in Hin|].
  pose proof (shardOf_range k.1) as Hr.
  replace (seqZ 0 numShards) with (seqZ 0 n ++ seqZ (0 + n) (numShards - n)) in Hin
    by (rewrite <-seqZ_app by (unfold numShards; lia); f_equal; lia).
  rewrite bind_app, take_app_le in Hin by done. apply elem_of_take in Hin as (j & Hj & _).
  apply list_elem_of_lookup_2, list_elem_of_bind in Hj as (m & Hk & Hm%elem_of_seqZ).
  apply list_elem_of_fmap in Hk as ([k' ids] & -> & Hk%elem_of_map_to_list). simpl in *. rewrite Hnot in Hk by lia. done.
Qed.

(** ** Draining a burst *)

Section Drains.
Context `{Ids} `{!FreshIds} (env : SweepEnv).

Definition expired_count (nowMS : Z) (w : world) : Z := count (is_expired nowMS) (deliveries (w_db w)).

Lemma limit_len {A} n (l : list A) : 0 <= n -> Z.of_nat (length (limit n l)) = Z.min n (Z.of_nat (length l)).
Proof.
  intros Hn. unfold limit. replace (n <? 0) with false by (symmetry; bool_prop; lia). rewrite length_take. lia.
Qed.

Lemma expired_rows_len nowMS lim w :
  0 <= lim -> Z.of_nat (length (expired_rows nowMS lim (w_db w))) = Z.min lim (expired_count nowMS w).
Proof.
  intros Hl. unfold expired_rows. rewrite limit_len by done. unfold expired_count, count. by rewrite (Permutation_length (order_by_Permutation _ _)).
Qed.

(** The rows a batch loads are counted once among the expired ones. *)
Lemma limited_count nowMS lim d :
  NoDup (map dkey (deliveries d)) -> let rows := expired_rows nowMS lim d in
  count (fun r => bool_decide (dkey r ∈ map dkey rows)) (where_ (is_expired nowMS) (deliveries d)) = Z.of_nat (length rows).
Proof.
  intros Hnd rows. set (all := where_ (is_expired nowMS) (deliveries d)).
  destruct (limit_prefix lim (order_by sweep_le all)) as [rest Hrest]. change (limit lim (order_by sweep_le all)) with rows in Hrest.
  assert (Hp : Permutation all (rows ++ rest)) by (rewrite <-Hrest; symmetry; apply order_by_Permutation).
  assert (Hnd' : NoDup (map dkey (rows ++ rest))) by (rewrite <-Hp; by apply key_where).
  rewrite (count_Permutation _ _ _ Hp), count_app, (proj2 (count_0 _ rest)).
  - rewrite Z.add_0_r, <-(count_all rows). apply count_ext. intros r Hr. apply bool_decide_eq_true. by apply in_mapped.
  - intros r Hr. apply bool_decide_eq_false. rewrite map_app in Hnd'. apply NoDup_app in Hnd' as (_ & Hdis & _).
    intros Hin. apply (Hdis _ Hin). by apply in_mapped.
Qed.

(** A batch in which no death was deferred takes its rows out of the expired ones. *)
Lemma sweep_takes lim now w w' res evs :
  world_ok w -> 0 <= lim -> SweepCmd env lim now w = (w', Ok (res, evs)) -> sw_Deferred res = 0 ->
  let n := Z.min lim (expired_count (UnixMilli now) w) in
  world_ok w' /\ expired_count (UnixMilli now) w' = expired_count (UnixMilli now) w - n /\ sw_More res = (n =? lim).
Proof.
  intros Hok Hl Hrun Hdef n. destruct (wp_run _ _ _ _ _ _ (SweepCmd_wp env lim now w Hok) Hrun) as (D & a & Hsw & ->).
  pose proof (expired_rows_len (UnixMilli now) lim w Hl) as Hlen. fold n in Hlen. simpl in *.
  split; [apply Hsw|]. split; [|by rewrite Hlen]. pose proof Hsw as [_ Hrows _ Hdf _ _ _]. rewrite Hdef in Hdf.
  assert (D = []) as -> by (by destruct D). set (rows := expired_rows _ _ _) in *.
  unfold expired_count. rewrite Hrows, <-Hlen.
  pose proof (inv_deliveries _ _ Hok) as Hinv.
  assert (Hnd : NoDup (map dkey (deliveries (w_db w)))) by apply Hinv.
  assert (Hsplit : forall l, (forall r, r ∈ l -> r ∈ deliveries (w_db w)) ->
    count (is_expired (UnixMilli now)) (omap (swept env (w_db w) now rows []) l) =
    count (is_expired (UnixMilli now)) l - count (fun r => is_expired (UnixMilli now) r && bool_decide (dkey r ∈ map dkey rows)) l).
  { induction l as [|r l IH]; intros Hin; [done|]. simpl omap. rewrite !count_cons.
    specialize (IH ltac:(intros x Hx; apply Hin; by right)). unfold omap in IH. simpl in IH. pose proof (Hin r ltac:(left)) as Hr.
    unfold swept at 1. case_bool_decide as Hk.
    - apply mapped_in in Hk as (x & Hkx & Hx). destruct (elem_of_expired _ _ _ _ Hx) as [Hx' Hexp].
      assert (r = x) as -> by (by eapply (key_unique dkey)). rewrite Hexp. simpl.
      pose proof Hexp as [_ Hle%Z.leb_le]%andb_true_iff. pose proof (expired_decided env _ now _ _ Hok Hx' Hle) as Hskip.
      unfold fate, redelivers, kills. destruct (sd_Action _); simpl; [done|lia|rewrite count_cons; simpl; lia].
    - rewrite count_cons. rewrite andb_false_r. lia. }
  rewrite Hsplit by done. f_equal. rewrite <-(count_where (fun r => bool_decide (dkey r ∈ map dkey rows))). by apply limited_count.
Qed.

Lemma sweep_loop_results maxSweepBatch batch att n i w (r : Registry) pre :
  pre `prefix_of` tk_results (sweep_loop env maxSweepBatch n i batch att w r pre).
Proof.
  revert i w r pre. induction n as [|n IH]; intros i w r pre; cbn [sweep_loop]; [done|].
  destruct (sweep_once env maxSweepBatch batch (att i) w) as [w' [res|e]]; [|done].
  destruct (wake_all _ r) as [r'|]; [|by apply prefix_app_r].
  destruct (sw_More res); [|by apply prefix_app_r]. etrans; [|apply IH]. by apply prefix_app_r.
Qed.

Lemma sweep_loop_drains maxSweepBatch now cfg n i w (r : Registry) pre :
  let t := sweep_loop env maxSweepBatch n i (Batch cfg) (fun _ => MkAttempt now false) w r pre in
  world_ok w -> reg_ok r -> 0 < Batch cfg <= maxSweepBatch ->
  tk_skipped t <> Some WriterBusy -> Forall (fun res => sw_Deferred res = 0) (tk_results t) ->
  world_ok (tk_world t) /\ is_Some (tk_waker t) /\
  expired_count (UnixMilli now) (tk_world t) = Z.max 0 (expired_count (UnixMilli now) w - Z.of_nat n * Batch cfg) /\
  (length (tk_results t) <= length pre + n)%nat /\
  (tk_skipped t = Some CatchupCap <-> Z.of_nat n * Batch cfg <= expired_count (UnixMilli now) w).
Proof.
  revert i w r pre. induction n as [|n IH]; intros i w r pre t Hok Hreg Hb.
  { intros _ _. unfold t. cbn [sweep_loop tk_world tk_waker tk_results tk_skipped]. pose proof (count_nonneg (is_expired (UnixMilli now)) (deliveries (w_db w))).
    unfold expired_count. split_and!; [done|by eexists|lia|lia|split; [lia|done]]. }
  unfold t. cbn [sweep_loop]. unfold sweep_once, sweep_limit. simpl.
  rewrite (proj2 (Z.leb_gt (Batch cfg) 0)), (proj2 (Z.ltb_ge maxSweepBatch (Batch cfg))) by lia.
  destruct (SweepCmd env (Batch cfg) now w) as [w' [[res evs]|e]] eqn:Hrun; [|done].
  destruct (wake_all_spec (map key_pair (sw_Woke res)) r Hreg) as (r' & -> & Hreg' & _).
  intros Hs Hd. assert (Hres : sw_Deferred res = 0).
  { rewrite Forall_forall in Hd. apply Hd. destruct (sw_More res); [|simpl; rewrite elem_of_app; right; left].
    eapply elem_of_prefix; [|apply sweep_loop_results]. rewrite elem_of_app. right. left. }
  destruct (sweep_takes (Batch cfg) now w w' res evs Hok ltac:(lia) Hrun Hres) as (Hok' & Hc & Hm). rewrite Hm in *.
  pose proof (count_nonneg (is_expired (UnixMilli now)) (deliveries (w_db w))) as Hpos. fold (expired_count (UnixMilli now) w) in Hpos.
  destruct (Z.min (Batch cfg) (expired_count (UnixMilli now) w) =? Batch cfg) eqn:He; bool_prop.
  - destruct (IH (S i) w' r' (pre ++ [res]) Hok' Hreg' Hb Hs Hd) as (H1 & H2 & H3 & H4 & H5).
    rewrite length_app in H4. simpl in H4. split_and!; [done|done|rewrite H3, Hc; lia|lia|rewrite H5, Hc; lia].
  - simpl. rewrite length_app. simpl. split_and!; [done|by eexists|lia|lia|split; [done|lia]].
Qed.

(** A tick drains what its budget allows.  With the writer free and no death
    deferred, a sweep with [Catchup] resubmissions of [Batch] rows leaves
    exactly the expired leases beyond (Catchup + 1) * Batch, none when there
    were fewer; it keeps the store invariant, sends no more batches than that,
    never panics the registry, and reports the catch-up cap only after a full
    last batch. *)
Theorem sweep_drains maxSweepBatch cfg now m p (r : Registry) w :
  let t := sweep env maxSweepBatch cfg (fun _ => MkAttempt now false) w r in
  let budget := (Z.of_nat (Z.to_nat (Catchup cfg)) + 1) * Batch cfg in
  world_ok w -> rtc Waiters.step (NewRegistry m p) r -> 0 < Batch cfg <= maxSweepBatch ->
  tk_skipped t <> Some WriterBusy -> Forall (fun res => sw_Deferred res = 0) (tk_results t) ->
  world_ok (tk_world t) /\ is_Some (tk_waker t) /\
  expired_count (UnixMilli now) (tk_world t) = Z.max 0 (expired_count (UnixMilli now) w - budget) /\
  Z.of_nat (length (tk_results t)) <= Z.of_nat (Z.to_nat (Catchup cfg)) + 1 /\
  (tk_skipped t = Some CatchupCap <-> budget <= expired_count (UnixMilli now) w).
Proof.
  intros t budget Hok Hr Hb. pose proof (steps_ok _ _ Hr (reg_ok_new m p)) as Hreg. clear Hr. unfold t, sweep, budget.
  pose proof (sweep_loop_drains maxSweepBatch now cfg (S (Z.to_nat (Catchup cfg))) 0 w r [] Hok Hreg Hb) as Hl.
  rewrite Nat2Z.inj_succ in Hl. unfold Z.succ in Hl. intros Hs Hd. destruct (Hl Hs Hd) as (H1 & H2 & H3 & H4 & H5). do 3 (split; [done|]). split; [|done]. change (length []) with 0%nat in H4. clear -H4. lia.
Qed.
End Drains.

Definition sample_config : SweepConfig := fillDefaults (MkSweepConfig 0 0 0 (-1)).

Lemma sweep_drains_witness :
  let t := sweep sample_sweep 1024 sample_config (fun _ => MkAttempt (40000 * Millisecond) false) Fetch.after_fetch one_parked in
  0 < expired_count 40000 Fetch.after_fetch /\
  world_ok (tk_world t) /\ expired_count 40000 (tk_world t) = Z.max 0 (expired_count 40000 Fetch.after_fetch - 9 * 1024).
Proof.
  split; [by vm_compute|].
  destruct (sweep_drains sample_sweep 1024 sample_config (40000 * Millisecond) 4 2 one_parked Fetch.after_fetch) as (H1 & _ & H3 & _).
  - exact Fetch.after_fetch_ok.
  - exact (serve_steps _ _ one_parked_served).
  - vm_compute. by split.
  - by vm_compute.
  - apply (bool_decide_unpack (Forall _ _)). by vm_compute.
  - split; [exact H1|exact H3].
Defined.

End Sweeper.
