(* ===== verification/StreamAdmin.v ===== *)
(** * Streams: creation, update, deletion

    [internal/store/streams.go], [update.go], [delete.go] and the stream
    commands of [commands.go].  Deleting a stream takes two phases: one command
    removes its metadata and leaves a high-water mark and a reap marker in the
    [meta] table, then a loop of bounded commands removes the messages and
    clears the marker. *)

From S2P Require Export Publish Dead.

Module StreamAdmin.
Import Policy Dlq.

(** ** streams.go *)

Record StreamInfo : Set := MkStreamInfo {
  sn_Name : string;
  sn_Subjects : list string;
  sn_Retention : string;
  sn_MaxMsgs : Z;
  sn_MaxBytes : Z;
  sn_MaxAgeMS : Z;
  sn_MaxMsgSize : Z;
  sn_Discard : string;
  sn_DedupWindowMS : Z;
  sn_CreatedAt : Z;
  sn_FirstSeq : Z;
  sn_LastSeq : Z;
  sn_Msgs : Z;
  sn_Bytes : Z;
  sn_DLQ : bool;
  sn_Origin : string;
}.

Definition msDuration (ms : Z) : Z := wrap64 (ms * Millisecond).

Definition Config (i : StreamInfo) : StreamConfig :=
  MkStreamConfig (sn_Name i) (sn_Subjects i) (sn_Retention i) (sn_MaxMsgs i) (sn_MaxBytes i)
    (msDuration (sn_MaxAgeMS i)) (sn_MaxMsgSize i) (sn_Discard i) (msDuration (sn_DedupWindowMS i)).

Definition metaSeqHwmPrefix : string := "seq_hwm.".
Definition metaReapPrefix : string := "reap.".

(** SELECT v FROM meta WHERE k = ?, and the upsert of a value. *)
Definition meta_get (k : string) (d : db) : option string := snd <$> query_row (has_key fst k) (meta d).
Definition meta_del (k : string) : db -> db := on_meta (delete_where (has_key fst k)).
Definition meta_put (k v : string) : db -> db :=
  on_meta (fun t => if existsb (has_key fst k) t then update_where (has_key fst k) (fun _ => (k, v)) t
                    else t ++ [(k, v)]).

Definition scanStreamInfo (r : stream_row) : StreamInfo :=
  MkStreamInfo (st_name r) (st_subjects r) (st_retention r) (st_max_msgs r) (st_max_bytes r)
    (st_max_age_ms r) (st_max_msg_size r) (st_discard r) (st_dedup_window_ms r) (st_created_at r)
    0 0 0 0 (IsDLQ (st_name r)) (default "" (OriginOf (st_name r))).

(** The position fields of a stream: an empty stream reports 0 and [next - 1]. *)
Definition with_stats (i : StreamInfo) (msgs bytes first last : Z) : StreamInfo :=
  MkStreamInfo (sn_Name i) (sn_Subjects i) (sn_Retention i) (sn_MaxMsgs i) (sn_MaxBytes i)
    (sn_MaxAgeMS i) (sn_MaxMsgSize i) (sn_Discard i) (sn_DedupWindowMS i) (sn_CreatedAt i)
    first last msgs bytes (sn_DLQ i) (sn_Origin i).

Definition find_stats (s : string) (d : db) : option stats_row :=
  query_row (has_key ss_stream s) (stream_stats d).

Definition fillStreamStats (d : db) (i : StreamInfo) : StreamInfo :=
  let st := find_stats (sn_Name i) d in
  let mine := where_ (on_stream (sn_Name i)) (messages d) in
  let first := min_of m_seq mine in
  let last := match first with
              | Some _ => default 0 (max_of m_seq mine)
              | None => default 0 (find_seq (sn_Name i) d) - 1
              end in
  with_stats i (default 0 (ss_msgs <$> st)) (default 0 (ss_bytes <$> st)) (default 0 first) last.

(** Reads run on the read pool: a snapshot of the committed database. *)
Definition GetStream (name : string) (d : db) : result StreamInfo :=
  let? _ := ValidateExistingStreamName name in
  match find_stream name d with
  | None => Err (E ErrNotFound "stream")
  | Some r => Ok (fillStreamStats d (scanStreamInfo r))
  end.

Definition ListStreams (d : db) : list StreamInfo :=
  map (fun r => fillStreamStats d (scanStreamInfo r))
    (order_by (fun a b => String.leb (st_name a) (st_name b)) (streams d)).

(** [slices.Compact]. *)
Fixpoint compact (l : list string) : list string :=
  match l with
  | x :: ((y :: _) as l') => if bool_decide (x = y) then compact l' else x :: compact l'
  | l => l
  end.

(** The stored subject list: sorted, without repetition. *)
Definition marshalSubjectsSet (subs : list string) : list string := compact (order_by String.leb subs).

Definition diff_if (b : bool) (field : string) : list string := if b then [field] else [].

Definition configDiff (old next : StreamConfig) : list string :=
  diff_if (negb (bool_decide (marshalSubjectsSet (sc_Subjects old) = marshalSubjectsSet (sc_Subjects next)))) "subjects"
  ++ diff_if (negb (bool_decide (sc_Retention old = sc_Retention next))) "retention"
  ++ diff_if (negb (sc_MaxMsgs old =? sc_MaxMsgs next)) "max_msgs"
  ++ diff_if (negb (sc_MaxBytes old =? sc_MaxBytes next)) "max_bytes"
  ++ diff_if (negb (sc_MaxAge old =? sc_MaxAge next)) "max_age"
  ++ diff_if (negb (sc_MaxMsgSize old =? sc_MaxMsgSize next)) "max_msg_size"
  ++ diff_if (negb (bool_decide (sc_Discard old = sc_Discard next))) "discard"
  ++ diff_if (negb (sc_DedupWindow old =? sc_DedupWindow next)) "dedup_window".

Definition resumeSeq (name : string) : tx Z :=
  raw ← query (meta_get (metaSeqHwmPrefix +:+ name));
  match raw with
  | None => mret 1
  | Some raw => match sscanf_d raw with
                | Some hwm => mret (wrap64 (hwm + 1))
                | None => fail (Plain "seq_hwm is not an integer")
                end
  end.

(** ** commands.go *)

Definition ReapInProgressError : error := E ErrConflict "ReapInProgressError".
Definition StreamExistsError : error := E ErrConflict "StreamExistsError".
Definition NameCaseCollisionError : error := E ErrConflict "NameCaseCollisionError".

Definition refuseDuringReap (name : string) : tx unit :=
  raw ← query (meta_get (metaReapPrefix +:+ name));
  match raw with
  | None => mret tt
  | Some raw => match sscanf_d raw with
                | Some _ => fail ReapInProgressError
                | None => fail (Plain "reap marker is not an integer")
                end
  end.

(** The row a configuration is stored as. *)
Definition stream_row_of (cfg : StreamConfig) (created : Z) : stream_row :=
  StreamRow (sc_Name cfg) (marshalSubjectsSet (sc_Subjects cfg)) (sc_Retention cfg) (sc_MaxMsgs cfg)
    (sc_MaxBytes cfg) (Milliseconds (sc_MaxAge cfg)) (sc_MaxMsgSize cfg) (sc_Discard cfg)
    (Milliseconds (sc_DedupWindow cfg)) created.

(** An INSERT that must succeed: a constraint violation is an unmarked error. *)
Definition insert_or {R K} `{EqDecision K} (key : R -> K) (tag : string) (r : R) (get : db -> list R)
    (set : (list R -> list R) -> db -> db) : tx unit :=
  t ← query_or (Plain tag) (fun d => insert_unique key r (get d));
  exec (set (fun _ => t)).

Definition info_of (cfg : StreamConfig) (ts : Z) : StreamInfo :=
  MkStreamInfo (sc_Name cfg) (sc_Subjects cfg) (sc_Retention cfg) (sc_MaxMsgs cfg) (sc_MaxBytes cfg)
    (Milliseconds (sc_MaxAge cfg)) (sc_MaxMsgSize cfg) (sc_Discard cfg) (Milliseconds (sc_DedupWindow cfg)) ts
    0 0 0 0 (IsDLQ (sc_Name cfg)) (default "" (OriginOf (sc_Name cfg))).

(** The fresh-name half of the command. *)
Definition insert_new_stream (cfg : StreamConfig) (actor : string) (ts : Z) : tx (StreamInfo * list event) :=
  next ← resumeSeq (sc_Name cfg);
  _ ← insert_or st_name "insert stream row" (stream_row_of cfg ts) streams on_streams;
  _ ← insert_or sq_stream "insert stream_seq row" (SeqRow (sc_Name cfg) next) stream_seq on_stream_seq;
  _ ← insert_or ss_stream "insert stream_stats row" (StatsRow (sc_Name cfg) 0 0 0 0) stream_stats on_stream_stats;
  ev ← commitEvent (Event ts "stream.create" (nullStr (sc_Name cfg)) None None None None None None
                      (nullStr actor) [("next_seq", DInt next)]);
  mret (info_of cfg ts, [ev]).

(** The result carries whether the stream existed with the same configuration. *)
Definition createStreamCmd (cfg : StreamConfig) (actor : string) (now : Z)
  : tx (StreamInfo * bool * list event) :=
  _ ← marking (refuseDuringReap (sc_Name cfg));
  existing ← query (fun d => query_row (has_key (fun r => fold_case (st_name r)) (fold_case (sc_Name cfg))) (streams d));
  match scanStreamInfo <$> existing with
  | Some i =>
      if bool_decide (sn_Name i = sc_Name cfg) then
        match configDiff (Config i) cfg with
        | [] => mret (i, true, [])
        | _ => marking (fail StreamExistsError)
        end
      else marking (fail NameCaseCollisionError)
  | None =>
      '(i, evs) ← insert_new_stream cfg actor (UnixMilli now);
      mret (i, false, evs)
  end.

(** Store.CreateStream: the checks before the command is enqueued. *)
Definition CreateStream (limits : Limits) (cfg : StreamConfig) (actor : string) (now : Z)
  : tx (StreamInfo * bool * list event) :=
  _ ← lift (ValidateStreamName (sc_Name cfg));
  _ ← lift (ValidateStreamConfig cfg limits);
  createStreamCmd cfg actor now.

(** ** update.go *)

(** A present field is [Some]. *)
Record StreamPatch : Set := MkStreamPatch {
  sp_Subjects : option (list string);
  sp_Retention : option string;
  sp_MaxMsgs : option Z;
  sp_MaxBytes : option Z;
  sp_MaxAgeMS : option Z;
  sp_MaxMsgSize : option Z;
  sp_Discard : option string;
  sp_DedupWindowMS : option Z;
}.

Record UpdateResult : Set := MkUpdateResult {
  ur_Info : StreamInfo;
  ur_NarrowedMsgs : Z;
  ur_Fields : list string;
}.

Definition field_if {A} (o : option A) (field : string) : list string :=
  match o with
  | Some _ => [field]
  | None => []
  end.

Definition applyPatch (old : StreamConfig) (p : StreamPatch) : StreamConfig * list string :=
  (MkStreamConfig (sc_Name old)
     (default (sc_Subjects old) (sp_Subjects p)) (default (sc_Retention old) (sp_Retention p))
     (default (sc_MaxMsgs old) (sp_MaxMsgs p)) (default (sc_MaxBytes old) (sp_MaxBytes p))
     (default (sc_MaxAge old) (msDuration <$> sp_MaxAgeMS p))
     (default (sc_MaxMsgSize old) (sp_MaxMsgSize p)) (default (sc_Discard old) (sp_Discard p))
     (default (sc_DedupWindow old) (msDuration <$> sp_DedupWindowMS p)),
   field_if (sp_Subjects p) "subjects" ++ field_if (sp_Retention p) "retention"
   ++ field_if (sp_MaxMsgs p) "max_msgs" ++ field_if (sp_MaxBytes p) "max_bytes"
   ++ field_if (sp_MaxAgeMS p) "max_age" ++ field_if (sp_MaxMsgSize p) "max_msg_size"
   ++ field_if (sp_Discard p) "discard" ++ field_if (sp_DedupWindowMS p) "dedup_window").

Definition subjectsChanged (old next : list string) : bool :=
  negb (bool_decide (marshalSubjectsSet old = marshalSubjectsSet next)).

Definition streamUsage (name : string) : tx stats_row :=
  query_or (Plain "read stream_stats") (find_stats name).

(** The window functions over seq DESC: each row with the running size sum and
    its recency rank. *)
Fixpoint windowed (rbytes rnk : Z) (l : list message) : list (message * Z * Z) :=
  match l with
  | [] => []
  | m :: l => (m, rbytes + m_size m, rnk + 1) :: windowed (rbytes + m_size m) (rnk + 1) l
  end.

Definition newest_first (name : string) (d : db) : list message :=
  order_by (fun a b => m_seq b <=? m_seq a) (where_ (on_stream name) (messages d)).

Definition cut_age (age now : Z) (x : message * Z * Z) : bool := (0 <? age) && (m_published_at x.1.1 <? now - age).
Definition cut_count (maxMsgs : Z) (x : message * Z * Z) : bool := (0 <? maxMsgs) && (maxMsgs <? x.2).
Definition cut_bytes (maxBytes : Z) (x : message * Z * Z) : bool := (0 <? maxBytes) && (maxBytes <? x.1.2).

Definition at_risk (next : StreamConfig) (now : Z) (x : message * Z * Z) : bool :=
  cut_age (Milliseconds (sc_MaxAge next)) now x || cut_count (sc_MaxMsgs next) x || cut_bytes (sc_MaxBytes next) x.

Definition measureUsage (name : string) (next : StreamConfig) (now : Z) : tx Usage :=
  stats ← streamUsage name;
  rows ← query (fun d => windowed 0 0 (newest_first name d));
  mret (MkUsage now (ss_msgs stats) (ss_bytes stats) (count (at_risk next now) rows)
          (sum_of (fun x => m_size x.1.1) (at_risk next now) rows)).

Definition countUnmatched (name : string) (patterns : list string) : tx Z :=
  match Subject.ParseSet patterns with
  | Err _ => fail (Plain "compile narrowed subjects")
  | Ok set => query (fun d => count (fun m => on_stream name m && negb (Subject.SetMatch set (m_subject m))) (messages d))
  end.

(** The UPDATE keeps the name and the creation time. *)
Definition set_config (next : StreamConfig) (r : stream_row) : stream_row :=
  StreamRow (st_name r) (marshalSubjectsSet (sc_Subjects next)) (sc_Retention next) (sc_MaxMsgs next)
    (sc_MaxBytes next) (Milliseconds (sc_MaxAge next)) (sc_MaxMsgSize next) (sc_Discard next)
    (Milliseconds (sc_DedupWindow next)) (st_created_at r).

Definition updated_info (old : StreamInfo) (next : StreamConfig) (st : stats_row) : StreamInfo :=
  MkStreamInfo (sn_Name old) (sc_Subjects next) (sc_Retention next) (sc_MaxMsgs next) (sc_MaxBytes next)
    (Milliseconds (sc_MaxAge next)) (sc_MaxMsgSize next) (sc_Discard next) (Milliseconds (sc_DedupWindow next))
    (sn_CreatedAt old) (sn_FirstSeq old) (sn_LastSeq old) (ss_msgs st) (ss_bytes st) (sn_DLQ old) (sn_Origin old).

Definition updateStreamCmd (limits : Limits) (name : string) (p : StreamPatch) (allowDataLoss : bool)
    (actor : string) (now : Z) : tx (UpdateResult * list event) :=
  let ts := UnixMilli now in
  row ← marking (query_or (E ErrNotFound "stream") (find_stream name));
  let old := scanStreamInfo row in
  let '(next, fields) := applyPatch (Config old) p in
  match fields with
  | [] =>
      st ← streamUsage name;
      mret (MkUpdateResult (with_stats old (ss_msgs st) (ss_bytes st) 0 0) 0 [], [])
  | _ =>
      _ ← marking (lift (ValidateStreamConfig next limits));
      u ← measureUsage name next ts;
      _ ← marking (lift (ValidateUpdate (Config old) next u allowDataLoss));
      _ ← exec (on_streams (update_where (has_key st_name name) (set_config next)));
      ev ← commitEvent (Event ts "stream.update" (nullStr name) None None None None None None (nullStr actor)
                          [("fields", DStrs fields)]);
      st ← streamUsage name;
      narrowed ← (if subjectsChanged (sc_Subjects (Config old)) (sc_Subjects next)
                  then countUnmatched name (sc_Subjects next) else mret 0);
      mret (MkUpdateResult (updated_info old next st) narrowed fields, [ev])
  end.

(** ** delete.go *)

Definition deleteChunkRows : Z := 10000.

Record DeleteResult : Set := MkDeleteResult { dr_Messages : Z; dr_Bytes : Z; dr_Consumers : Z }.

(** The four DELETEs and, after the markers, the stream row. *)
Definition drop_metadata (name : string) (d : db) : db :=
  on_stream_seq (delete_where (has_key sq_stream name))
    (on_stream_stats (delete_where (has_key ss_stream name))
      (on_consumers (delete_where (fun c => bool_decide (c_stream c = name)))
        (on_deliveries (delete_where (fun r => bool_decide (d_stream r = name))) d))).

Definition deleteStreamCmd (name actor : string) (now : Z) : tx (DeleteResult * list event) :=
  let ts := UnixMilli now in
  st ← marking (query_or (E ErrNotFound "stream") (find_stats name));
  ncons ← query (fun d => count (fun c => bool_decide (c_stream c = name)) (consumers d));
  next ← query (fun d => default 0 (find_seq name d));
  _ ← exec (drop_metadata name);
  _ ← exec (meta_put (metaSeqHwmPrefix +:+ name) (format_int (next - 1)));
  _ ← exec (meta_put (metaReapPrefix +:+ name) (format_int (ss_msgs st)));
  _ ← exec (on_streams (delete_where (has_key st_name name)));
  ev ← commitEvent (Event ts "stream.delete" (nullStr name) None None None None None None (nullStr actor)
                      [("bytes", DInt (ss_bytes st)); ("consumers", DInt ncons); ("messages", DInt (ss_msgs st))]);
  mret (MkDeleteResult (ss_msgs st) (ss_bytes st) ncons, [ev]).

(** (Removed, Cleared) *)
Definition reapChunkCmd (name : string) : tx (Z * bool) :=
  n ← query (fun d => count (on_stream name) (messages d));
  let removed := Z.min n deleteChunkRows in
  _ ← exec (on_messages (delete_first (on_stream name) (Z.to_nat deleteChunkRows)));
  if removed <? deleteChunkRows then
    _ ← exec (meta_del (metaReapPrefix +:+ name));
    mret (removed, true)
  else mret (removed, false).

(** The follow-up commands of one deletion; [false] when the fuel runs out. *)
Fixpoint reap_loop (fuel : nat) (name : string) : tx bool :=
  match fuel with
  | O => mret false
  | S f =>
      '(removed, cleared) ← reapChunkCmd name;
      if cleared || (removed =? 0) then mret true else reap_loop f name
  end.

(** Store.DeleteStream; the number of chunks is bounded by the stored messages. *)
Definition DeleteStream (fuel : nat) (name confirm actor : string) (now : Z) : tx (DeleteResult * list event * bool) :=
  _ ← lift (ValidateExistingStreamName name);
  if negb (bool_decide (confirm = name)) then fail (E ErrConflict "confirm parameter")
  else
    '(deleted, evs) ← deleteStreamCmd name actor now;
    done ← reap_loop fuel name;
    mret (deleted, evs, done).

(** The pending reap markers, in key order. *)
Definition reap_markers (d : db) : list string :=
  map (fun kv => drop_str (String.length metaReapPrefix) kv.1)
    (where_ (fun kv => has_prefix metaReapPrefix (fold_case kv.1)) (meta d)).

(** (Removed, Pending) *)
Definition reapResumeCmd : tx (Z * bool) :=
  names ← query (fun d => reap_markers (on_meta (order_by (fun a b => String.leb a.1 b.1)) d));
  match names with
  | [] => mret (0, false)
  | name :: _ =>
      '(removed, cleared) ← reapChunkCmd name;
      mret (removed, negb cleared)
  end.

(** commands.go, finishInterruptedReaps: every chunk is a transaction of its own. *)
Fixpoint finish_one (fuel : nat) (name : string) : tx bool :=
  match fuel with
  | O => mret false
  | S f =>
      '(removed, _) ← reapChunkCmd name;
      if removed <? deleteChunkRows then mret true else finish_one f name
  end.

Definition finishInterruptedReaps (fuel : nat) : tx (list string * bool) :=
  names ← query reap_markers;
  ok ← for_each names true (fun name ok => b ← finish_one fuel name; mret (ok && b));
  mret (names, ok).

(** ** Facts: dropping a stream *)

Lemma seq_of_drop (name s : string) (sq : list seq_row) :
  s <> name -> seq_of s (delete_where (has_key sq_stream name) sq) = seq_of s sq.
Proof.
  intros Hne. unfold seq_of. rewrite query_row_delete_other; [done|]. intros r _ Hr.
  apply not_true_is_false. rewrite has_key_true. congruence.
Qed.

(** Every table without the rows of one stream. *)
Record dropped (name : string) (d d' : db) : Prop := {
  drp_streams : streams d' = delete_where (has_key st_name name) (streams d);
  drp_seq : stream_seq d' = delete_where (has_key sq_stream name) (stream_seq d);
  drp_stats : stream_stats d' = delete_where (has_key ss_stream name) (stream_stats d);
  drp_consumers : consumers d' = delete_where (fun c => bool_decide (c_stream c = name)) (consumers d);
  drp_deliveries : deliveries d' = delete_where (fun r => bool_decide (d_stream r = name)) (deliveries d);
}.

Section Invariant.
Context `{Ids}.

Lemma MsgInv_drop name sq ms st k :
  MsgInv sq ms st k ->
  MsgInv (delete_where (has_key sq_stream name) sq) (delete_where (on_stream name) ms)
    (delete_where (has_key ss_stream name) st) k.
Proof.
  intros [Isk Imk Ims Inp Iid Isz Iord Idd Ist Iss].
  assert (Hother : forall m, m ∈ delete_where (on_stream name) ms -> m_stream m <> name /\ m ∈ ms).
  { intros m [Hs Hm]%elem_of_delete. unfold on_stream in Hs. by rewrite bool_decide_eq_false in Hs. }
  split.
  - by apply key_delete.
  - by apply key_delete.
  - intros m [Hne Hm]%Hother. rewrite seq_of_drop by done. auto.
  - intros s n. destruct (decide (s = name)) as [-> |Hne]; [|rewrite seq_of_drop by done; apply Inp].
    unfold seq_of. by rewrite query_row_deleted.
  - intros m [_ Hm]%Hother. auto.
  - intros m [_ Hm]%Hother. auto.
  - intros m m' [_ Hm]%Hother [_ Hm']%Hother. auto.
  - intros m m' key [_ Hm]%Hother [_ Hm']%Hother. exact (Idd m m' key Hm Hm').
  - intros r [Hk Hr]%elem_of_delete. apply not_true_iff_false in Hk. rewrite has_key_true in Hk.
    rewrite count_delete, sum_of_delete.
    assert (Hdis : forall m : message, m ∈ ms -> on_stream name m && on_stream (ss_stream r) m = false).
    { intros m _. unfold on_stream. apply not_true_iff_false. rewrite andb_true_iff, !bool_decide_eq_true.
      intros [? ?]. congruence. }
    rewrite (proj2 (count_0 _ ms) Hdis), (sum_of_0 _ _ _ Hdis), !Z.sub_0_r. auto.
  - intros s (r & -> & [Hk Hr]%elem_of_delete)%mapped_in.
    assert (Hin : sq_stream r ∈ map ss_stream st) by (apply Iss, in_mapped, Hr).
    apply mapped_in in Hin as (x & Hx & Hin). rewrite Hx. apply in_mapped, elem_of_delete. split; [|done].
    apply bool_decide_eq_false. apply bool_decide_eq_false in Hk. congruence.
Qed.

Lemma dropped_ok name d d' k :
  Inv d k -> dropped name d d' -> messages d' = delete_where (on_stream name) (messages d) -> Inv d' k.
Proof.
  intros [IS IM IC ID] [Est Esq Ess Ec Ed] Em.
  assert (Hcon : forall c, c ∈ consumers d' -> c_stream c <> name /\ c ∈ consumers d).
  { rewrite Ec. intros c [Hs Hc]%elem_of_delete. by rewrite bool_decide_eq_false in Hs. }
  split; rewrite ?Est, ?Esq, ?Ess, ?Em.
  - destruct IS as [Ik Ir]. split; [by apply key_delete|]. intros r [Hk Hr]%elem_of_delete.
    apply not_true_iff_false in Hk. rewrite has_key_true in Hk. rewrite seq_of_drop by done. auto.
  - by apply MsgInv_drop.
  - destruct IC as [Ik Ic]. split; [rewrite Ec; by apply key_delete|]. intros c [Hne Hc]%Hcon.
    rewrite seq_of_drop by done. auto.
  - destruct ID as [Ik Ir Icon Imsg Ib]. rewrite Ed.
    assert (Hdel : forall r, r ∈ delete_where (fun r => bool_decide (d_stream r = name)) (deliveries d) ->
              d_stream r <> name /\ r ∈ deliveries d).
    { intros r [Hs Hr]%elem_of_delete. by rewrite bool_decide_eq_false in Hs. }
    split.
    + by apply key_delete.
    + intros r [_ Hr]%Hdel. auto.
    + intros r [Hne Hr]%Hdel. destruct (Icon r Hr) as (c & Hc & Hk & Hg & Hq). exists c.
      rewrite Ec, elem_of_delete, bool_decide_eq_false. split; [|done]. split; [|done]. injection Hk as Hk1 Hk2. congruence.
    + intros r [Hne Hr]%Hdel. pose proof (Imsg r Hr) as (m & Hk & Hm)%mapped_in. rewrite Hk.
      apply in_mapped, elem_of_delete. split; [|done]. unfold on_stream. apply bool_decide_eq_false.
      injection Hk. congruence.
    + intros c [_ Hc]%Hcon. etrans; [apply count_delete_le|auto].
Qed.

End Invariant.

(** ** Facts: the reap loop *)

Lemma count_chunk name (t : list message) :
  count (on_stream name) (delete_first (on_stream name) (Z.to_nat deleteChunkRows) t)
  = Z.max 0 (count (on_stream name) t - deleteChunkRows).
Proof. unfold count. rewrite delete_first_left. unfold deleteChunkRows. lia. Qed.

Lemma reap_chunk name w :
  reapChunkCmd name w =
  let n := count (on_stream name) (messages (w_db w)) in
  let d := on_messages (delete_first (on_stream name) (Z.to_nat deleteChunkRows)) (w_db w) in
  if n <? deleteChunkRows then (World (meta_del (metaReapPrefix +:+ name) d) (w_mem w), Ok (n, true))
  else (World d (w_mem w), Ok (deleteChunkRows, false)).
Proof.
  unfold reapChunkCmd, mbind, tx_bind, query, exec, mret, tx_ret. simpl.
  destruct (Z.ltb_spec (count (on_stream name) (messages (w_db w))) deleteChunkRows) as [Hlt|Hge].
  - rewrite Z.min_l by lia. by rewrite (proj2 (Z.ltb_lt _ _) Hlt).
  - rewrite Z.min_r by lia. by rewrite Z.ltb_irrefl.
Qed.

Lemma delete_rest {R} (p : R -> bool) n (t : list R) : delete_where p (delete_first p n t) = delete_where p t.
Proof.
  rewrite <-(delete_first_all p (length (where_ p t)) t) by done.
  rewrite <-(delete_first_all p (length (where_ p t)) (delete_first p n t)) by (rewrite delete_first_left; lia).
  rewrite delete_first_twice, !delete_first_all by lia. done.
Qed.

(** What is left of a database when a stream's messages are reaped. *)
Definition reaped (name : string) (d : db) : db :=
  meta_del (metaReapPrefix +:+ name) (on_messages (delete_where (on_stream name)) d).

(** One command per full chunk, and one for the rest: the loop ends. *)
Lemma reap_loop_ends fuel name w :
  count (on_stream name) (messages (w_db w)) < Z.of_nat fuel * deleteChunkRows ->
  reap_loop fuel name w = (World (reaped name (w_db w)) (w_mem w), Ok true).
Proof.
  revert w. induction fuel as [|fuel IH]; intros w Hc.
  { pose proof (count_nonneg (on_stream name) (messages (w_db w))). lia. }
  simpl. unfold mbind, tx_bind. rewrite reap_chunk. cbv zeta.
  destruct (Z.ltb_spec (count (on_stream name) (messages (w_db w))) deleteChunkRows) as [Hlt|Hge].
  - simpl. unfold mret, tx_ret, reaped, meta_del, on_meta, on_messages. simpl.
    rewrite delete_first_all; [done|]. unfold count in Hlt. lia.
  - simpl. rewrite IH; simpl.
    + unfold reaped, meta_del, on_meta, on_messages. simpl. by rewrite delete_rest.
    + rewrite count_chunk. lia.
Qed.

Lemma finish_one_reap fuel name w : finish_one fuel name w = reap_loop fuel name w.
Proof.
  revert w. induction fuel as [|fuel IH]; intros w; [done|]. simpl. unfold mbind, tx_bind.
  rewrite reap_chunk. cbv zeta. destruct (count _ _ <? _) eqn:Hlt; simpl.
  - by rewrite Hlt.
  - apply IH.
Qed.

(** ** Facts: the meta table *)

Lemma meta_get_del k d : meta_get k (meta_del k d) = None.
Proof. unfold meta_get, meta_del. simpl. by rewrite query_row_deleted. Qed.

Lemma meta_get_del_other k k' d : k <> k' -> meta_get k (meta_del k' d) = meta_get k d.
Proof.
  intros Hne. unfold meta_get, meta_del. simpl. rewrite query_row_delete_other; [done|].
  intros r _ Hr. apply bool_decide_eq_false. congruence.
Qed.

Lemma meta_get_put k v d : meta_get k (meta_put k v d) = Some v.
Proof.
  unfold meta_get, meta_put. simpl. case_match eqn:Hex.
  - apply existsb_exists in Hex as (r & Hr%list_elem_of_In & Hk).
    assert (Hin : (k, v) ∈ update_where (has_key fst k) (fun _ => (k, v)) (meta d)).
    { apply elem_of_update. exists r. by rewrite Hk. }
    destruct (query_row _ _) as [x|] eqn:Hq.
    + apply query_row_Some in Hq as [Hx%has_key_true (r0 & Hr0 & ->)%elem_of_update].
      destruct (has_key fst k r0) eqn:Hk0; [done|]. by apply bool_decide_eq_false in Hk0.
    + apply (query_row_None _ _ _ Hq) in Hin. by apply bool_decide_eq_false in Hin.
  - rewrite query_row_snoc. destruct (query_row _ _) as [x|] eqn:Hq.
    + apply query_row_Some in Hq as [Hx%has_key_true Hin]. apply existsb_key in Hex. destruct Hex.
      rewrite <-Hx. by apply in_mapped.
    + unfold has_key. simpl. by rewrite bool_decide_true.
Qed.

Lemma meta_get_put_other k k' v d : k <> k' -> meta_get k (meta_put k' v d) = meta_get k d.
Proof.
  intros Hne. unfold meta_get, meta_put. simpl. destruct (existsb _ _).
  - unfold query_row, update_where. induction (meta d) as [|r t IH]; [done|]. simpl.
    destruct (has_key fst k' r) eqn:Hr.
    + apply has_key_true in Hr. unfold has_key in *. simpl. rewrite !bool_decide_false by congruence. exact IH.
    + by destruct (has_key fst k r).
  - rewrite query_row_snoc. destruct (query_row _ _); [done|]. unfold has_key. simpl.
    by rewrite bool_decide_false.
Qed.

Lemma hwm_not_reap a b : metaSeqHwmPrefix +:+ a <> metaReapPrefix +:+ b.
Proof. done. Qed.

(** ** Facts: the commands *)

Section Commands.
Context `{Ids}.

(** The metadata phase: nothing of the stream but its messages is left, and the
    high-water mark and the reap marker are recorded. *)
Record deleted (name : string) (w w' : world) : Prop := {
  dl_dropped : dropped name (w_db w) (w_db w');
  dl_messages : messages (w_db w') = messages (w_db w);
  dl_mem : w_mem w' = w_mem w;
  dl_meta : meta (w_db w') = meta (meta_put (metaReapPrefix +:+ name)
    (format_int (count (on_stream name) (messages (w_db w))))
    (meta_put (metaSeqHwmPrefix +:+ name) (format_int (default 0 (find_seq name (w_db w)) - 1)) (w_db w)));
}.

(** The reported counts are the stored ones. *)
Lemma deleteStreamCmd_wp name actor now w :
  world_ok w ->
  wp (deleteStreamCmd name actor now)
     (fun '(res, evs) w' => deleted name w w' /\
        dr_Messages res = count (on_stream name) (messages (w_db w)) /\
        dr_Bytes res = sum_of m_size (on_stream name) (messages (w_db w)) /\
        dr_Consumers res = count (fun c => bool_decide (c_stream c = name)) (consumers (w_db w)) /\
        is_Some (find_stats name (w_db w)))
     (fun e w' => w' = w /\ IsCmdError e = true) w.
Proof.
  intros Hok. unfold deleteStreamCmd. wp_steps; [|done]. intros st Hst. wp_steps.
  assert (Hin : st ∈ stream_stats (w_db w) /\ ss_stream st = name).
  { apply query_row_Some in Hst as [?%has_key_true ?]. done. }
  destruct Hin as [Hin <-]. destruct (inv_stats _ _ _ _ (inv_messages _ _ Hok) st Hin) as [Hn Hb].
  split; [|by rewrite Hst; eauto]. split; simpl; [by split|done|by destruct w|]. by rewrite Hn.
Qed.

(** Both phases together are the removal of the stream from every table. *)
Lemma DeleteStream_wp fuel name confirm actor now w :
  world_ok w -> count (on_stream name) (messages (w_db w)) < Z.of_nat fuel * deleteChunkRows ->
  wp (DeleteStream fuel name confirm actor now)
     (fun '(res, _, ok) w' => ok = true /\ confirm = name /\ is_Some (find_stats name (w_db w)) /\
        dr_Messages res = count (on_stream name) (messages (w_db w)) /\
        dr_Bytes res = sum_of m_size (on_stream name) (messages (w_db w)) /\
        dropped name (w_db w) (w_db w') /\
        messages (w_db w') = delete_where (on_stream name) (messages (w_db w)) /\
        meta_get (metaReapPrefix +:+ name) (w_db w') = None /\
        meta_get (metaSeqHwmPrefix +:+ name) (w_db w') = Some (format_int (default 0 (find_seq name (w_db w)) - 1)) /\
        w_mem w' = w_mem w)
     (fun _ w' => w' = w) w.
Proof.
  intros Hok Hfuel. unfold DeleteStream. wp_steps; [intros _ _|done].
  destruct (bool_decide (confirm = name)) eqn:Hcf; simpl; [|done]. apply bool_decide_eq_true in Hcf.
  apply wp_bind. eapply wp_mono; [by apply deleteStreamCmd_wp| |by intros e w' [-> _]].
  intros [res evs] w1 ([Hd Hm Hmem Hmeta] & Hr1 & Hr2 & Hr3 & Hst). apply wp_bind.
  unfold wp at 1. rewrite reap_loop_ends by (by rewrite Hm). wp_steps.
  split_and!; try done.
  - destruct Hd. by split.
  - simpl. by rewrite Hm.
  - apply meta_get_del.
  - cbn [w_db]. unfold reaped. rewrite meta_get_del_other by done. unfold meta_get. simpl. rewrite Hmeta.
    change (meta_get (metaSeqHwmPrefix +:+ name) (meta_put (metaReapPrefix +:+ name)
      (format_int (count (on_stream name) (messages (w_db w))))
      (meta_put (metaSeqHwmPrefix +:+ name) (format_int (default 0 (find_seq name (w_db w)) - 1)) (w_db w)))
      = Some (format_int (default 0 (find_seq name (w_db w)) - 1))).
    rewrite meta_get_put_other by done. apply meta_get_put.
Qed.

(** What a creation adds: one row in each of three tables and an event. *)
Record created (cfg : StreamConfig) (ts next : Z) (w w' : world) : Prop := {
  cr_streams : streams (w_db w') = streams (w_db w) ++ [stream_row_of cfg ts];
  cr_seq : stream_seq (w_db w') = stream_seq (w_db w) ++ [SeqRow (sc_Name cfg) next];
  cr_stats : stream_stats (w_db w') = stream_stats (w_db w) ++ [StatsRow (sc_Name cfg) 0 0 0 0];
  cr_messages : messages (w_db w') = messages (w_db w);
  cr_consumers : consumers (w_db w') = consumers (w_db w);
  cr_deliveries : deliveries (w_db w') = deliveries (w_db w);
  cr_meta : meta (w_db w') = meta (w_db w);
  cr_mem : w_mem w' = w_mem w;
}.

Lemma created_ok cfg ts next w w' :
  world_ok w -> created cfg ts next w w' -> 1 <= next -> 0 <= sc_DedupWindow cfg ->
  sc_Name cfg ∉ map st_name (streams (w_db w)) -> sc_Name cfg ∉ map sq_stream (stream_seq (w_db w)) ->
  sc_Name cfg ∉ map ss_stream (stream_stats (w_db w)) -> world_ok w'.
Proof.
  intros [IS IM IC ID] [Est Esq Ess Em Ec Ed _ Emem] Hnext Hw Hs Hq Ht. unfold world_ok.
  assert (Hnone : seq_of (sc_Name cfg) (stream_seq (w_db w)) = None).
  { apply seq_of_None. by apply existsb_key. }
  assert (Hgrow : forall s n, seq_of s (stream_seq (w_db w)) = Some n -> exists n',
            seq_of s (stream_seq (w_db w) ++ [SeqRow (sc_Name cfg) next]) = Some n' /\ n <= n').
  { intros s n Hn. exists n. by rewrite seq_of_snoc, Hn. }
  split; rewrite ?Est, ?Esq, ?Ess, ?Em, ?Ec, ?Ed, ?Emem; [|..|done].
  - apply StrInv_add; [by eapply StrInv_grow|done| |].
    + simpl. apply Z.quot_pos; [done|unfold Millisecond; lia].
    + simpl. rewrite seq_of_snoc, Hnone, bool_decide_true by done. by eexists.
  - pose proof (MsgInv_seed _ _ _ _ _ _ IM Hnone Hnext) as HM.
    rewrite (proj2 (existsb_key ss_stream _ _) Ht) in HM. exact HM.
  - by eapply ConInv_grow.
Qed.

(** A recorded high-water mark is the text of a sequence number. *)
Definition hwm_ok (name : string) (d : db) : Prop :=
  forall raw, meta_get (metaSeqHwmPrefix +:+ name) d = Some raw ->
    exists n, 0 <= n < max_int64 /\ raw = format_int n.

(** Where a new incarnation of a stream starts counting. *)
Definition resume_point (name : string) (d : db) : Z :=
  match meta_get (metaSeqHwmPrefix +:+ name) d with
  | None => 1
  | Some raw => default 0 (sscanf_d raw) + 1
  end.

Lemma resumeSeq_wp name w :
  hwm_ok name (w_db w) ->
  wp (resumeSeq name) (fun n w' => w' = w /\ n = resume_point name (w_db w) /\ 1 <= n) (fun _ _ => False) w.
Proof.
  intros Hh. unfold resumeSeq, resume_point. wp_steps.
  destruct (meta_get _ _) as [raw|] eqn:Hraw; [|done].
  destruct (Hh raw Hraw) as (n & Hn & ->). rewrite sscanf_format by lia. apply wp_ret. simpl.
  unfold max_int64 in Hn. rewrite wrap64_id by lia. split_and!; [done..|lia].
Qed.

Definition same_fold (name : string) (d : db) : option stream_row :=
  query_row (has_key (fun r => fold_case (st_name r)) (fold_case name)) (streams d).

Lemma createStreamCmd_wp cfg actor now w :
  world_ok w -> 0 <= sc_DedupWindow cfg -> hwm_ok (sc_Name cfg) (w_db w) ->
  wp (createStreamCmd cfg actor now)
     (fun '(i, existed, evs) w' =>
        meta_get (metaReapPrefix +:+ sc_Name cfg) (w_db w) = None /\
        if existed : bool then w' = w /\ evs = [] /\ exists r, find_stream (sc_Name cfg) (w_db w) = Some r /\
             i = scanStreamInfo r /\ configDiff (Config i) cfg = []
        else world_ok w' /\ created cfg (UnixMilli now) (resume_point (sc_Name cfg) (w_db w)) w w')
     (fun e _ => IsCmdError e = true /\
          (is_Some (meta_get (metaReapPrefix +:+ sc_Name cfg) (w_db w)) \/ is_Some (same_fold (sc_Name cfg) (w_db w))) \/
        is_Some (meta_get (metaReapPrefix +:+ sc_Name cfg) (w_db w)) \/
        sc_Name cfg ∈ map sq_stream (stream_seq (w_db w)) \/ sc_Name cfg ∈ map ss_stream (stream_stats (w_db w))) w.
Proof.
  intros Hok Hw Hh. unfold createStreamCmd, refuseDuringReap. wp_steps.
  destruct (meta_get _ _) as [raw|] eqn:Hreap.
  { destruct (sscanf_d raw); wp_steps; eauto 10. }
  wp_steps. fold (same_fold (sc_Name cfg) (w_db w)). destruct (same_fold _ _) as [r|] eqn:Hf; simpl.
  - destruct (bool_decide (st_name r = sc_Name cfg)) eqn:Hn; [|wp_steps; left; split; [done|eauto]].
    destruct (configDiff _ _) eqn:Hdiff; wp_steps; [|left; split; [done|eauto]].
    split_and!; try done. exists r. split; [|done]. apply bool_decide_eq_true in Hn.
    apply query_row_Some in Hf as [_ Hin]. unfold find_stream.
    apply query_row_unique; [apply (inv_streams _ _ Hok)|done|done].
  - assert (Hs : sc_Name cfg ∉ map st_name (streams (w_db w))).
    { intros (r & Hr & Hin)%mapped_in. apply (query_row_None _ _ _ Hf), bool_decide_eq_false in Hin. congruence. }
    unfold insert_new_stream, insert_or. wp_steps.
    eapply wp_mono; [by apply resumeSeq_wp| |done]. intros next w' (-> & -> & Hnext). wp_steps.
    2: { unfold insert_unique. simpl. by rewrite (proj2 (existsb_key st_name _ _) Hs). }
    intros t1 [_ ->]%insert_unique_Some. wp_steps; simpl.
    2: { unfold insert_unique. simpl. case_match eqn:Hex; [|done]. intros _. right; right; left.
         apply existsb_exists in Hex as (x & Hx%list_elem_of_In & <-%has_key_true). by apply in_mapped. }
    intros t2 [Hq ->]%insert_unique_Some. wp_steps; simpl.
    2: { unfold insert_unique. simpl. case_match eqn:Hex; [|done]. intros _. right; right; right.
         apply existsb_exists in Hex as (x & Hx%list_elem_of_In & <-%has_key_true). by apply in_mapped. }
    intros t3 [Ht ->]%insert_unique_Some. wp_steps. split; [done|].
    match goal with |- world_ok ?w1 /\ _ => assert (Hc : created cfg (UnixMilli now) (resume_point (sc_Name cfg) (w_db w)) w w1) end.
    { by split. }
    split; [|exact Hc]. by eapply created_ok.
Qed.

(** Only the fresh-name half of the command answers that the stream is new. *)
Lemma createStreamCmd_fresh cfg actor now w w1 i evs :
  createStreamCmd cfg actor now w = (w1, Ok (i, false, evs)) ->
  same_fold (sc_Name cfg) (w_db w) = None /\ i = info_of cfg (UnixMilli now).
Proof.
  intros Hrun.
  assert (Hwp : wp (createStreamCmd cfg actor now) (fun '(i, existed, _) _ => existed = false ->
      same_fold (sc_Name cfg) (w_db w) = None /\ i = info_of cfg (UnixMilli now)) any_error w).
  { unfold createStreamCmd, refuseDuringReap. wp_steps. destruct (meta_get _ _) as [raw|].
    { by destruct (sscanf_d raw). }
    wp_steps. fold (same_fold (sc_Name cfg) (w_db w)). destruct (same_fold _ _) as [r|]; simpl.
    - destruct (bool_decide _); [|done]. by destruct (configDiff _ _).
    - unfold insert_new_stream, resumeSeq, insert_or. wp_steps.
      destruct (meta_get _ _) as [raw|]; [destruct (sscanf_d raw); [|done]|]; wp_steps; try done.
      all: intros t1 _; wp_steps; [|done]; intros t2 _; wp_steps; [|done]; intros t3 _; wp_steps; done. }
  exact (wp_run _ _ _ _ _ _ Hwp Hrun eq_refl).
Qed.

(** A deletion that ends leaves a mark a later creation can read. *)
Lemma deleted_resume name d d' n :
  find_seq name d = Some n -> 1 <= n <= max_int64 ->
  meta_get (metaSeqHwmPrefix +:+ name) d' = Some (format_int (default 0 (find_seq name d) - 1)) ->
  hwm_ok name d' /\ resume_point name d' = n.
Proof.
  intros Hn Hb Hm. rewrite Hn in Hm. change (default 0 (Some n)) with n in Hm. split.
  - intros raw Hraw. exists (n - 1). split; [lia|congruence].
  - unfold resume_point. rewrite Hm, sscanf_format by lia. simpl. lia.
Qed.

End Commands.

(** ** Facts: interrupted deletions *)

Definition is_marker (kv : string * string) : bool := has_prefix metaReapPrefix (fold_case kv.1).

Lemma markers_put_hwm name v (d : db) :
  where_ is_marker (meta (meta_put (metaSeqHwmPrefix +:+ name) v d)) = where_ is_marker (meta d).
Proof.
  assert (Hno : forall x, is_marker (metaSeqHwmPrefix +:+ name, x) = false) by done.
  revert Hno. generalize (metaSeqHwmPrefix +:+ name). intros key Hno.
  unfold meta_put. simpl. destruct (existsb _ _).
  - unfold where_, update_where. induction (meta d) as [|r t IH]; [done|]. simpl.
    destruct (has_key fst key r) eqn:Hk.
    + apply has_key_true in Hk. destruct r as [k x]. simpl in Hk. subst k. by rewrite !Hno.
    + destruct (is_marker r); [f_equal|]; exact IH.
  - unfold where_. rewrite List.filter_app. simpl. by rewrite Hno, app_nil_r.
Qed.

Lemma markers_put_reap name v (d : db) :
  where_ is_marker (meta d) = [] ->
  where_ is_marker (meta (meta_put (metaReapPrefix +:+ name) v d)) = [(metaReapPrefix +:+ name, v)].
Proof.
  intros Hnone. unfold meta_put. simpl. destruct (existsb _ _) eqn:Hex.
  - apply existsb_exists in Hex as (r & Hr%list_elem_of_In & Hk%has_key_true).
    assert (Hin : r ∈ where_ is_marker (meta d)) by (apply elem_of_where; unfold is_marker; by rewrite Hk).
    rewrite Hnone in Hin. by apply elem_of_nil in Hin.
  - unfold where_ in *. by rewrite List.filter_app, Hnone.
Qed.

Lemma markers_del name v (d : db) :
  where_ is_marker (meta d) = [(metaReapPrefix +:+ name, v)] ->
  where_ is_marker (meta (meta_del (metaReapPrefix +:+ name) d)) = [].
Proof.
  intros Hone. destruct (where_ is_marker (meta (meta_del _ d))) as [|r l] eqn:Hw; [done|].
  assert (Hr : r ∈ where_ is_marker (meta (meta_del (metaReapPrefix +:+ name) d))) by (rewrite Hw; left).
  apply elem_of_where in Hr as [Hm Hr]. simpl in Hr. apply elem_of_delete in Hr as [Hk Hr].
  assert (Hin : r ∈ where_ is_marker (meta d)) by (by apply elem_of_where). rewrite Hone in Hin.
  apply list_elem_of_singleton in Hin as ->. by apply bool_decide_eq_false in Hk.
Qed.

(** Some chunks of one reap have run. *)
Record mid_reap (name : string) (d1 d2 : db) : Prop := {
  mr_streams : streams d2 = streams d1;
  mr_seq : stream_seq d2 = stream_seq d1;
  mr_stats : stream_stats d2 = stream_stats d1;
  mr_consumers : consumers d2 = consumers d1;
  mr_deliveries : deliveries d2 = deliveries d1;
  mr_messages : exists k, messages d2 = delete_first (on_stream name) k (messages d1);
  mr_meta : meta d2 = meta d1 \/
    (meta d2 = meta (meta_del (metaReapPrefix +:+ name) d1) /\ count (on_stream name) (messages d2) = 0);
}.

Fixpoint chunks (n : nat) (name : string) : tx unit :=
  match n with
  | O => mret tt
  | S n => _ ← reapChunkCmd name; chunks n name
  end.

Lemma mid_reap_refl name d : mid_reap name d d.
Proof.
  split; try done; [|by left]. exists 0%nat. induction (messages d) as [|m l IH]; [done|]. simpl.
  destruct (on_stream name m); [done|]. by f_equal.
Qed.

Lemma mid_reap_chunk name d1 w :
  mid_reap name d1 (w_db w) ->
  wp (reapChunkCmd name) (fun _ w' => mid_reap name d1 (w_db w') /\ w_mem w' = w_mem w) (fun _ _ => False) w.
Proof.
  intros [Es Eq Et Ec Ed [k Em] Emeta]. unfold wp. rewrite reap_chunk. cbv zeta.
  pose proof (count_chunk name (messages (w_db w))) as Hcount.
  destruct (Z.ltb_spec (count (on_stream name) (messages (w_db w))) deleteChunkRows) as [Hlt|Hge].
  - split; [|done]. split; try done; simpl.
    + exists (k + Z.to_nat deleteChunkRows)%nat. by rewrite Em, delete_first_twice.
    + right. split; [|lia]. destruct Emeta as [-> |[-> _]]; [done|]. simpl.
      rewrite delete_where_twice. apply delete_where_ext. intros r _. by destruct (has_key _ _ _).
  - split; [|done]. split; try done; simpl.
    + exists (k + Z.to_nat deleteChunkRows)%nat. by rewrite Em, delete_first_twice.
    + destruct Emeta as [? |[_ Hz]]; [by left|]. rewrite Hz in Hge. unfold deleteChunkRows in Hge. lia.
Qed.

Lemma mid_reap_chunks n name d1 w :
  mid_reap name d1 (w_db w) ->
  wp (chunks n name) (fun _ w' => mid_reap name d1 (w_db w') /\ w_mem w' = w_mem w) (fun _ _ => False) w.
Proof.
  revert w. induction n as [|n IH]; intros w Hm; simpl; [done|]. apply wp_bind.
  eapply wp_mono; [by apply mid_reap_chunk| |done]. intros r w' [Hm' Hmem].
  eapply wp_mono; [by apply IH| |done]. intros [] w2 [? Hmem2]. split; [done|congruence].
Qed.

Lemma count_0_delete {R} (p : R -> bool) (t : list R) : count p t = 0 -> delete_where p t = t.
Proof.
  rewrite count_0. intros Hp. unfold delete_where. induction t as [|r t IH]; [done|]. simpl.
  rewrite Hp by set_solver. simpl. f_equal. apply IH. intros x Hx. apply Hp. set_solver.
Qed.

(** ** Facts: stored configurations *)

Lemma compact_head x l : exists l', compact (x :: l) = x :: l'.
Proof.
  revert x. induction l as [|y l IH]; intros x; [by exists []|]. simpl. case_bool_decide as Hxy; [|eauto].
  subst. apply (IH y).
Qed.

Lemma compact_sorted l : Sorted String.le l -> Sorted String.le (compact l).
Proof.
  induction l as [|x l IH]; [done|]. intros Hs. apply Sorted_inv in Hs as [Hs Hhd].
  destruct l as [|y l]; [repeat constructor|]. specialize (IH Hs). inversion Hhd as [|? ? Hxy]; subst.
  simpl. case_bool_decide; [exact IH|]. constructor; [exact IH|].
  change (HdRel String.le x (compact (y :: l))). destruct (compact_head y l) as [l' ->]. by constructor.
Qed.

Lemma compact_idemp l : compact (compact l) = compact l.
Proof.
  induction l as [|x l IH]; [done|]. destruct l as [|y l]; [done|]. simpl. case_bool_decide as Hxy; [exact IH|].
  change (compact (x :: compact (y :: l)) = x :: compact (y :: l)). revert IH.
  destruct (compact_head y l) as [l' ->]. intros IH. simpl. rewrite bool_decide_false by done.
  f_equal. exact IH.
Qed.

Lemma sort_sorted l : Sorted String.le (order_by String.leb l).
Proof. apply Sorted_merge_sort. apply String.le_total. Qed.

Lemma sort_id l : Sorted String.le l -> order_by String.leb l = l.
Proof.
  intros Hl. apply (StronglySorted_unique String.le).
  - apply Sorted_StronglySorted; [apply String.le_po|apply sort_sorted].
  - apply Sorted_StronglySorted; [apply String.le_po|done].
  - apply order_by_Permutation.
Qed.

Lemma elem_of_compact x l : x ∈ compact l <-> x ∈ l.
Proof.
  induction l as [|y l IH]; [done|]. destruct l as [|z l]; [done|]. simpl. case_bool_decide as Hyz.
  - subst. change (x ∈ compact (z :: l) <-> x ∈ z :: z :: l). rewrite IH, !elem_of_cons. tauto.
  - change (x ∈ y :: compact (z :: l) <-> x ∈ y :: z :: l). rewrite elem_of_cons, IH, !elem_of_cons. tauto.
Qed.

(** Storing a stored subject list changes nothing. *)
Lemma marshalSubjects_idemp l : marshalSubjectsSet (marshalSubjectsSet l) = marshalSubjectsSet l.
Proof.
  unfold marshalSubjectsSet. rewrite sort_id by apply compact_sorted, sort_sorted. apply compact_idemp.
Qed.

(** A duration the store keeps exactly: whole milliseconds of an int64. *)
Definition whole_ms (x : Z) : Prop := x mod Millisecond = 0 /\ - 2 ^ 63 <= x < 2 ^ 63.

Lemma whole_ms_stored x : whole_ms x -> msDuration (Milliseconds x) = x.
Proof.
  intros [Hmod Hr]. unfold msDuration, Milliseconds.
  apply Z.mod_divide in Hmod as [q ->]; [|done]. rewrite Z.quot_mul by done. by apply wrap64_id.
Qed.

Lemma configDiff_stored cfg ts :
  whole_ms (sc_MaxAge cfg) -> whole_ms (sc_DedupWindow cfg) ->
  configDiff (Config (scanStreamInfo (stream_row_of cfg ts))) cfg = [].
Proof.
  intros Ha Hw. unfold configDiff. simpl.
  rewrite !whole_ms_stored, marshalSubjects_idemp by done. rewrite !bool_decide_true by done. by rewrite !Z.eqb_refl.
Qed.

(** ** Facts: the data-loss guard *)

(** What the janitor would delete under the limits of a stream row. *)
Definition row_at_risk (r : stream_row) (now : Z) (x : message * Z * Z) : bool :=
  cut_age (st_max_age_ms r) now x || cut_count (st_max_msgs r) x || cut_bytes (st_max_bytes r) x.

(** The limit columns hold what an accepted configuration stores: nothing
    negative, and an age whose duration fits an int64. *)
Definition limits_ok (r : stream_row) : Prop :=
  0 <= st_max_msgs r /\ 0 <= st_max_bytes r /\ 0 <= st_max_age_ms r /\ st_max_age_ms r * Millisecond < 2 ^ 63.

Lemma windowed_bounds l a b x :
  Forall (fun m => 0 <= m_size m) l -> x ∈ windowed a b l ->
  x.1.2 <= a + sumZ (map m_size l) /\ x.2 <= b + Z.of_nat (length l).
Proof.
  intros Hf. revert a b. induction Hf as [|m l Hm Hf IH]; intros a b Hx; simpl in Hx; [by apply elem_of_nil in Hx|].
  assert (0 <= sumZ (map m_size l)).
  { apply sumZ_nonneg. apply List.Forall_map. exact Hf. }
  apply elem_of_cons in Hx as [-> |Hx]; [simpl; lia|]. apply IH in Hx. simpl. lia.
Qed.

Lemma ValidateUpdate_keeps old next u :
  ValidateUpdate old next u false = Ok tt ->
  (sc_MaxMsgs next <> 0 -> sc_MaxMsgs next < u_Msgs u -> sc_MaxMsgs old <> 0 /\ sc_MaxMsgs old <= sc_MaxMsgs next) /\
  (sc_MaxBytes next <> 0 -> sc_MaxBytes next < u_Bytes u -> sc_MaxBytes old <> 0 /\ sc_MaxBytes old <= sc_MaxBytes next) /\
  (sc_MaxAge next <> 0 -> 0 < u_AtRiskMsgs u -> sc_MaxAge old <> 0 /\ sc_MaxAge old <= sc_MaxAge next) /\
  ~ (sc_Retention old = RetentionLimits /\ sc_Retention next = RetentionWorkQueue).
Proof.
  unfold ValidateUpdate. case_match; [done|].
  destruct (negb (sc_MaxMsgs next =? 0) && _ && _) eqn:H1; [done|].
  destruct (negb (sc_MaxBytes next =? 0) && _ && _) eqn:H2; [done|].
  destruct (negb (sc_MaxAge next =? 0) && _ && _) eqn:H3; [done|]. simpl.
  destruct (bool_decide _ && _) eqn:H4; [done|]. intros _.
  split_and!; [intros; bool_prop; lia..|].
  intros [Hl Hq]. by rewrite !bool_decide_true in H4.
Qed.

Lemma msDuration_id ms : 0 <= ms -> ms * Millisecond < 2 ^ 63 -> msDuration ms = ms * Millisecond.
Proof. intros. apply wrap64_id. unfold Millisecond in *. lia. Qed.

Lemma Milliseconds_mono a b : 0 <= a -> a * Millisecond <= b -> a <= Milliseconds b.
Proof.
  intros Ha Hb. unfold Milliseconds. rewrite <-(Z.quot_mul a Millisecond) by done.
  apply Z.quot_le_mono; [done|lia].
Qed.

(** Without the override, whatever the new limits of a stream put at risk was at
    risk under its old ones. *)
Definition harmless (name : string) (now : Z) (allow : bool) (d d' : db) : Prop :=
  exists old new, find_stream name d = Some old /\ find_stream name d' = Some new /\
    limits_ok new /\ st_created_at new = st_created_at old /\
    (allow = false -> forall x, x ∈ windowed 0 0 (newest_first name d) ->
       row_at_risk new now x = true -> row_at_risk old now x = true).

Section Guard.
Context `{Ids}.

Lemma newest_facts name d k :
  Inv d k -> Forall (fun m => 0 <= m_size m) (newest_first name d) /\
  sumZ (map m_size (newest_first name d)) = sum_of m_size (on_stream name) (messages d) /\
  Z.of_nat (length (newest_first name d)) = count (on_stream name) (messages d).
Proof.
  intros Hi. pose proof (order_by_Permutation (fun a b : message => m_seq b <=? m_seq a)
    (where_ (on_stream name) (messages d))) as Hperm. split_and!.
  - apply List.Forall_forall. intros m Hm%list_elem_of_In. unfold newest_first in Hm.
    apply elem_of_order_by, elem_of_where in Hm as [_ Hm].
    rewrite (inv_msg_size _ _ _ _ (inv_messages _ _ Hi) m Hm). lia.
  - apply sumZ_Permutation. by apply Permutation_map.
  - unfold count, newest_first. by rewrite Hperm.
Qed.

(** An accepted update without the override puts nothing new at risk. *)
Lemma guard_sound name d k st old next now u x :
  Inv d k -> find_stats name d = Some st -> limits_ok old ->
  u = MkUsage now (ss_msgs st) (ss_bytes st) (count (at_risk next now) (windowed 0 0 (newest_first name d)))
        (sum_of (fun x => m_size x.1.1) (at_risk next now) (windowed 0 0 (newest_first name d))) ->
  ValidateUpdate (Config (scanStreamInfo old)) next u false = Ok tt ->
  x ∈ windowed 0 0 (newest_first name d) -> row_at_risk (set_config next old) now x = true ->
  row_at_risk old now x = true.
Proof.
  intros Hi Hst (Hm0 & Hb0 & Ha0 & Hr0) -> Hv Hx Hrisk.
  apply ValidateUpdate_keeps in Hv as (Hmsgs & Hbytes & Hage & _). simpl in *.
  destruct (newest_facts name d k Hi) as (Hf & Hsum & Hlen).
  apply query_row_Some in Hst as [Hk%has_key_true Hin].
  destruct (inv_stats _ _ _ _ (inv_messages _ _ Hi) st Hin) as [Hn Hb]. rewrite Hk in Hn, Hb.
  destruct (windowed_bounds _ _ _ _ Hf Hx) as [Hxb Hxn].
  rewrite msDuration_id in Hage by done.
  assert (Hcount : 0 < count (at_risk next now) (windowed 0 0 (newest_first name d))).
  { assert (at_risk next now x = true) as Hax by exact Hrisk. pose proof (count_pos _ _ _ Hx Hax). lia. }
  revert Hrisk. unfold row_at_risk, cut_age, cut_count, cut_bytes. simpl. bool_prop.
  intros [[[Hp Hc]|[Hp Hc]]|[Hp Hc]].
  - left; left. assert (sc_MaxAge next <> 0) as Hne by (unfold Milliseconds in Hp; intros Hz; by rewrite Hz in Hp).
    destruct (Hage Hne Hcount) as [Hne' Hle]. pose proof (Milliseconds_mono _ _ Ha0 Hle). unfold Millisecond in *. lia.
  - left; right. destruct (Hmsgs ltac:(lia) ltac:(lia)). lia.
  - right. destruct (Hbytes ltac:(lia) ltac:(lia)). lia.
Qed.

Lemma find_stats_Some name d k r :
  Inv d k -> find_stream name d = Some r -> is_Some (find_stats name d).
Proof.
  intros Hi Hr. apply query_row_Some in Hr as [Hk%has_key_true Hin].
  destruct (inv_str _ _ (inv_streams _ _ Hi) r Hin) as [_ [n Hn]]. rewrite Hk in Hn.
  pose proof (inv_seq_stats _ _ _ _ (inv_messages _ _ Hi) name (seq_of_elem _ _ _ Hn)) as (st & -> & Hst)%mapped_in.
  unfold find_stats. destruct (query_row _ _) eqn:Hq; [by eexists|].
  apply (query_row_None _ _ _ Hq), bool_decide_eq_false in Hst. done.
Qed.

Lemma set_config_StrInv next ss sq name :
  0 <= sc_DedupWindow next -> StrInv ss sq -> StrInv (update_where (has_key st_name name) (set_config next) ss) sq.
Proof.
  intros Hw [Ik Ir]. split; [by rewrite (key_update st_name)|].
  intros r (r0 & Hr0 & ->)%elem_of_update. destruct (has_key _ _ _); [|auto]. simpl. split; [|by apply Ir].
  apply Z.quot_pos; [done|unfold Millisecond; lia].
Qed.

(** The age a patched configuration stores fits the column. *)
Lemma patched_age old p :
  sc_MaxAge (applyPatch (Config old) p).1 < 2 ^ 63.
Proof. simpl. destruct (sp_MaxAgeMS p); apply wrap64_lt. Qed.

Lemma set_config_limits next r u l :
  ValidateStreamConfig next l = Ok u -> sc_MaxAge next < 2 ^ 63 -> limits_ok (set_config next r).
Proof.
  intros (_ & _ & _ & Hm & Hb & Ha & _)%ValidateStreamConfig_bounds Hmax. unfold limits_ok. simpl.
  split_and!; try done.
  - apply Z.quot_pos; [done|unfold Millisecond; lia].
  - unfold Milliseconds. pose proof (Z.mul_quot_le (sc_MaxAge next) Millisecond Ha ltac:(done)). lia.
Qed.

End Guard.

(** ** Theorems *)

Section Theorems.
Context `{Ids}.


(** Sequence numbers are never reused across a deletion (P2): a stream
    created again under the name of a deleted one is empty and continues
    counting where the old one stopped, above every sequence number it ever
    assigned; the creation goes through whenever no other stream differs from
    the name only by case. *)
Lemma recreate_resumes fuel limits cfg actor actor' now now' n w w1 res evs :
  world_ok w -> find_seq (sc_Name cfg) (w_db w) = Some n -> n <= max_int64 ->
  count (on_stream (sc_Name cfg)) (messages (w_db w)) < Z.of_nat fuel * deleteChunkRows ->
  (forall r, r ∈ streams (w_db w) -> fold_case (st_name r) = fold_case (sc_Name cfg) -> st_name r = sc_Name cfg) ->
  ValidateStreamName (sc_Name cfg) = Ok tt -> ValidateStreamConfig cfg limits = Ok tt ->
  DeleteStream fuel (sc_Name cfg) (sc_Name cfg) actor now w = (w1, Ok (res, evs, true)) ->
  wp (CreateStream limits cfg actor' now')
     (fun '(i, existed, _) w2 => existed = false /\ world_ok w2 /\
        find_seq (sc_Name cfg) (w_db w2) = Some n /\ where_ (on_stream (sc_Name cfg)) (messages (w_db w2)) = [] /\
        forall m, m ∈ messages (w_db w) -> m_stream m = sc_Name cfg -> m_seq m < n)
     (fun _ _ => False) w1.
Proof.
  intros Hok Hn Hmax Hfuel Hcase Hvn Hvc Hrun.
  destruct (wp_run _ _ _ _ _ _ (DeleteStream_wp fuel _ _ actor now w Hok Hfuel) Hrun)
    as (_ & _ & _ & _ & _ & Hd & Hm & Hreap & Hhwm & Hmem).
  assert (Hok1 : world_ok w1) by (unfold world_ok; rewrite Hmem; by eapply dropped_ok).
  pose proof (inv_next_pos _ _ _ _ (inv_messages _ _ Hok) _ _ Hn) as Hpos.
  destruct (deleted_resume _ _ _ _ Hn (conj Hpos Hmax) Hhwm) as [Hh Hres].
  assert (Hw : 0 <= sc_DedupWindow cfg).
  { by apply ValidateStreamConfig_bounds in Hvc as (_ & _ & _ & _ & _ & _ & _ & [? _]). }
  assert (Hfold : same_fold (sc_Name cfg) (w_db w1) = None).
  { destruct (same_fold _ _) as [r|] eqn:Hq; [|done]. apply query_row_Some in Hq as [Hf%has_key_true Hin].
    rewrite (drp_streams _ _ _ Hd) in Hin. apply elem_of_delete in Hin as [Hk Hin].
    apply bool_decide_eq_false in Hk. destruct Hk. by apply Hcase. }
  unfold CreateStream. wp_steps; [intros _ _|by rewrite Hvn]. wp_steps; [intros _ _|by rewrite Hvc].
  eapply wp_mono; [by apply createStreamCmd_wp| |].
  - intros [[i existed] evs'] w2 [_ Hpost]. destruct existed.
    + destruct Hpost as (_ & _ & r & Hr & _). unfold find_stream in Hr.
      rewrite (drp_streams _ _ _ Hd), query_row_deleted in Hr. done.
    + destruct Hpost as [Hok2 Hc]. split_and!; try done.
      * unfold find_seq. rewrite (cr_seq _ _ _ _ _ Hc). change (seq_of (sc_Name cfg)
          (stream_seq (w_db w1) ++ [SeqRow (sc_Name cfg) (resume_point (sc_Name cfg) (w_db w1))]) = Some n).
        rewrite seq_of_snoc, (drp_seq _ _ _ Hd). unfold seq_of. rewrite query_row_deleted. simpl.
        by rewrite bool_decide_true, Hres.
      * rewrite (cr_messages _ _ _ _ _ Hc), Hm. apply where_deleted.
      * intros m Hin Hs. destruct (inv_msg_seq _ _ _ _ (inv_messages _ _ Hok) m Hin) as (n' & Hn' & Hb).
        rewrite Hs in Hn'. unfold find_seq in Hn. unfold seq_of in Hn'. assert (n' = n) as -> by congruence. lia.
  - intros e w2 [[_ [[? Hx]|[? Hx]]]|[[? Hx]|[Hx|Hx]]]; try congruence.
    + rewrite (drp_seq _ _ _ Hd) in Hx. apply mapped_in in Hx as (x & Hx & [Hk _]%elem_of_delete).
      by apply bool_decide_eq_false in Hk.
    + rewrite (drp_stats _ _ _ Hd) in Hx. apply mapped_in in Hx as (x & Hx & [Hk _]%elem_of_delete).
      by apply bool_decide_eq_false in Hk.
Qed.


(** Creating is idempotent: after a creation, creating the same configuration
    again changes nothing and answers that the stream exists, with its stored
    configuration; it is refused neither by the case rule nor by the comparison,
    which sees through the order and repetition of subjects. *)
Lemma create_twice cfg actor actor' now now' w w1 i evs :
  world_ok w -> 0 <= sc_DedupWindow cfg -> hwm_ok (sc_Name cfg) (w_db w) ->
  whole_ms (sc_MaxAge cfg) -> whole_ms (sc_DedupWindow cfg) ->
  createStreamCmd cfg actor now w = (w1, Ok (i, false, evs)) ->
  exists i', createStreamCmd cfg actor' now' w1 = (w1, Ok (i', true, [])) /\
    configDiff (Config i') cfg = [] /\ sn_Name i' = sc_Name cfg /\ sn_CreatedAt i' = sn_CreatedAt i.
Proof.
  intros Hok Hw Hh Ha Hd Hrun.
  pose proof (wp_run _ _ _ _ _ _ (createStreamCmd_wp cfg actor now w Hok Hw Hh) Hrun) as (Hreap & Hok1 & Hc).
  destruct (createStreamCmd_fresh _ _ _ _ _ _ _ Hrun) as [Hf ->].
  exists (scanStreamInfo (stream_row_of cfg (UnixMilli now))). split; [|by rewrite configDiff_stored].
  unfold createStreamCmd, refuseDuringReap, mbind, tx_bind, marking, query, mret, tx_ret.
  unfold meta_get in Hreap |- *. rewrite (cr_meta _ _ _ _ _ Hc), Hreap.
  rewrite (cr_streams _ _ _ _ _ Hc), query_row_snoc. unfold same_fold in Hf. rewrite Hf.
  pose proof (configDiff_stored cfg (UnixMilli now) Ha Hd) as Hsame.
  unfold has_key. rewrite bool_decide_true by done. cbv beta iota. cbn [fmap option_fmap option_map].
  rewrite bool_decide_true by done. by rewrite Hsame.
Qed.

Lemma deleted_markers name actor now w w1 out :
  world_ok w -> reap_markers (w_db w) = [] -> deleteStreamCmd name actor now w = (w1, Ok out) ->
  deleted name w w1 /\ exists v, where_ is_marker (meta (w_db w1)) = [(metaReapPrefix +:+ name, v)].
Proof.
  intros Hok Hnone Hrun. pose proof (wp_run _ _ _ _ _ _ (deleteStreamCmd_wp name actor now w Hok) Hrun) as Hd.
  destruct out as [res evs]. destruct Hd as [Hd _]. split; [done|]. eexists. rewrite (dl_meta _ _ _ Hd).
  apply markers_put_reap. rewrite markers_put_hwm. unfold reap_markers in Hnone. fold is_marker in Hnone.
  by apply map_eq_nil in Hnone.
Qed.

(** A deletion survives a crash between its phases.  Stop after the metadata
    command and any number of message chunks; the startup pass then ends, finds
    exactly the unfinished deletion, and leaves the database the uninterrupted
    deletion would have left: no row of the stream in any table, no marker, the
    invariant intact. *)
Lemma interrupted_delete_recovers fuel j name actor now w w1 w2 out :
  world_ok w -> reap_markers (w_db w) = [] ->
  deleteStreamCmd name actor now w = (w1, Ok out) -> chunks j name w1 = (w2, Ok tt) ->
  count (on_stream name) (messages (w_db w)) < Z.of_nat fuel * deleteChunkRows ->
  wp (finishInterruptedReaps fuel)
     (fun '(_, ok) w3 => ok = true /\ world_ok w3 /\ dropped name (w_db w) (w_db w3) /\
        messages (w_db w3) = delete_where (on_stream name) (messages (w_db w)) /\ reap_markers (w_db w3) = [])
     (fun _ _ => False) w2.
Proof.
  intros Hok Hnone Hdel Hch Hfuel.
  destruct (deleted_markers _ _ _ _ _ _ Hok Hnone Hdel) as [[Hd Hm Hmem _] [v Hmark]].
  destruct (wp_run _ _ _ _ _ _ (mid_reap_chunks j name _ w1 (mid_reap_refl name (w_db w1))) Hch) as [Hmid Hmem2].
  assert (Hend : forall w3, w_mem w3 = w_mem w2 -> mid_reap name (w_db w1) (w_db w3) ->
            messages (w_db w3) = delete_where (on_stream name) (messages (w_db w)) ->
            world_ok w3 /\ dropped name (w_db w) (w_db w3)).
  { intros w3 Hmem3 [Es Eq Et Ec Ed _ _] Hm3.
    assert (Hd3 : dropped name (w_db w) (w_db w3)) by (destruct Hd; split; congruence).
    split; [|done]. unfold world_ok. rewrite Hmem3, Hmem2, Hmem. by eapply dropped_ok. }
  destruct Hmid as [Es Eq Et Ec Ed [k Em] Emeta]. unfold finishInterruptedReaps. wp_steps.
  unfold reap_markers. fold is_marker. destruct Emeta as [Emeta|[Emeta Hz]].
  - rewrite Emeta, Hmark. cbn [map]. change ((metaReapPrefix +:+ name, v).1) with (metaReapPrefix +:+ name).
    rewrite drop_str_app. cbn [for_each]. apply wp_bind, wp_bind.
    unfold wp at 1. rewrite finish_one_reap, reap_loop_ends.
    2: { rewrite Em, Hm. eapply Z.le_lt_trans; [|exact Hfuel]. unfold count. rewrite delete_first_left. lia. }
    wp_steps. split; [done|]. cbn [w_db]. fold is_marker.
    assert (Hmsg : messages (reaped name (w_db w2)) = delete_where (on_stream name) (messages (w_db w))).
    { simpl. by rewrite Em, delete_rest, Hm. }
    destruct (Hend (World (reaped name (w_db w2)) (w_mem w2))) as [? ?]; try done.
    { split; try done; [exists (k + length (where_ (on_stream name) (messages (w_db w2))))%nat|right].
      - simpl. by rewrite <-delete_first_twice, <-Em, delete_first_all.
      - split; [simpl; by rewrite Emeta|]. simpl. unfold count. by rewrite where_deleted. }
    split_and!; try done. unfold reap_markers, reaped. fold is_marker. erewrite markers_del; [done|]. simpl. by rewrite Emeta.
  - rewrite Emeta. erewrite markers_del by exact Hmark. wp_steps. split; [done|].
    assert (Hmsg : messages (w_db w2) = delete_where (on_stream name) (messages (w_db w))).
    { by rewrite <-(count_0_delete _ _ Hz), Em, delete_rest, Hm. }
    destruct (Hend w2) as [? ?]; try done.
    { split; try done; [by exists k|by right]. }
    split_and!; try done. unfold reap_markers. fold is_marker. rewrite Emeta. by erewrite markers_del.
Qed.

(** While messages of a deleted stream are left, its name is held: neither a
    creation nor a publish can put new rows where the chunks still delete. *)
Lemma name_held_during_reap j name actor now w w1 w2 out :
  world_ok w -> reap_markers (w_db w) = [] ->
  deleteStreamCmd name actor now w = (w1, Ok out) -> chunks j name w1 = (w2, Ok tt) ->
  where_ (on_stream name) (messages (w_db w2)) <> [] ->
  (forall cfg actor' now', sc_Name cfg = name -> exists e, createStreamCmd cfg actor' now' w2 = (w2, Err e)) /\
  (forall limits r now', exists e, Publish.publishWriteCmd limits name r now' w2 = (w2, Err (CmdErr e)) /\ is_kind ErrNotFound e = true).
Proof.
  intros Hok Hnone Hdel Hch Hleft.
  pose proof (wp_run _ _ _ _ _ _ (deleteStreamCmd_wp name actor now w Hok) Hdel) as Hd.
  destruct out as [res evs]. destruct Hd as [[Hdrop _ _ Hmeta] _].
  destruct (wp_run _ _ _ _ _ _ (mid_reap_chunks j name _ w1 (mid_reap_refl name (w_db w1))) Hch)
    as [[Es _ _ _ _ _ Emeta] _].
  destruct Emeta as [Emeta|[_ Hz]].
  2: { destruct Hleft. unfold count in Hz. apply nil_length_inv. lia. }
  assert (Hmark : is_Some (meta_get (metaReapPrefix +:+ name) (w_db w2))).
  { unfold meta_get. rewrite Emeta, Hmeta.
    match goal with |- is_Some (snd <$> query_row _ (meta ?d)) => change (is_Some (meta_get (metaReapPrefix +:+ name) d)) end.
    rewrite meta_get_put. by eexists. }
  split.
  - intros cfg actor' now' <-. destruct Hmark as [raw Hraw].
    unfold createStreamCmd, refuseDuringReap, mbind, tx_bind, marking, query. rewrite Hraw.
    destruct (sscanf_d raw); by eexists.
  - intros limits r now'. exists Publish.not_exist.
    unfold Publish.publishWriteCmd, Publish.publishTx, Publish.loadStreamConfig, mbind, tx_bind, marking, query_or.
    unfold find_stream. by rewrite Es, (drp_streams _ _ _ Hdrop), query_row_deleted.
Qed.

End Theorems.

(** ** Samples *)

Import Samples.

Definition orders_cfg : StreamConfig := DefaultConfig "orders".

Local Abbreviation deletion := (DeleteStream 1 "orders" "orders" "ops" 5000000 base) (only parsing).
Local Abbreviation deletion_started := (deleteStreamCmd "orders" "ops" 5000000 Publish.after_publish) (only parsing).

Lemma deletion_ran : exists w1 res evs, deletion = (w1, Ok (res, evs, true)).
Proof.
  destruct (ran deletion ltac:(vm_compute; reflexivity)) as (w1 & [[res evs] ok] & Hrun).
  assert (Hdone : (fun r => match r with Ok (_, _, ok) => ok | Err _ => false end) (snd deletion) = true)
    by (vm_compute; reflexivity).
  rewrite Hrun in Hdone. simpl in Hdone. subst ok. eauto.
Qed.

Lemma few_orders : count (on_stream "orders") (messages (w_db base)) < Z.of_nat 1 * deleteChunkRows.
Proof. vm_compute. reflexivity. Qed.

Lemma few_published : count (on_stream "orders") (messages (w_db Publish.after_publish)) < Z.of_nat 1 * deleteChunkRows.
Proof. vm_compute. reflexivity. Qed.


(** Lowering [max_msgs] to 1 on an empty stream is harmless. *)
Definition lower_msgs : StreamPatch := MkStreamPatch None None (Some 1) None None None None None.


Definition payments_cfg : StreamConfig := DefaultConfig "payments".

End StreamAdmin.
