(* ===== verification/ConsumerAdmin.v ===== *)
(** * Consumers: creation, update, pause, seek, deletion

    Module [Start] models the start positions of [internal/queue/consumer.go].
    Module [ConsumerAdmin] models [internal/store/consumer.go] (except the
    backlog count, which is with the fetch path) and [internal/store/seek.go]. *)

From S2P Require Export Fetch StoreSettle StreamAdmin.

(** ** Start positions: internal/queue/consumer.go *)

Module Start.

Definition StartFirst : string := "first".
Definition StartNew : string := "new".
Definition StartSeq : string := "seq".
Definition StartTime : string := "time".

(** [pos_Rel] is a negative offset, resolved against the daemon clock. *)
Record StartPosition : Set := MkStartPosition {
  pos_Kind : string;
  pos_Seq : Z;
  pos_Time : Z;
  pos_Rel : Z;
}.

Definition StartString (s : StartPosition) : string :=
  if bool_decide (pos_Kind s = StartFirst) then "first"
  else if bool_decide (pos_Kind s = StartNew) then "new"
  else if bool_decide (pos_Kind s = StartSeq) then "seq:" +:+ format_int (pos_Seq s)
  else if bool_decide (pos_Kind s = StartTime) then
    if negb (pos_Rel s =? 0) then "time:" +:+ duration_string (pos_Rel s)
    else "time:" +:+ format_int (pos_Time s)
  else "".

Definition WarningStartClamped : string := "start_clamped".

End Start.

Module ConsumerAdmin.
Import Policy Start StreamAdmin.

(** ** consumer.go: the read shape *)

Record ConsumerInfo : Set := MkConsumerInfo {
  ci_Stream : string;
  ci_Name : string;
  ci_Filters : list string;
  ci_AckWaitMS : Z;
  ci_MaxDeliver : Z;
  ci_MaxAckPending : Z;
  ci_BackoffMS : list Z;
  ci_DeadPolicy : string;
  ci_Paused : bool;
  ci_CursorSeq : Z;
  ci_Generation : Z;
  ci_CreatedAt : Z;
  ci_RetryHorizonMS : Z;
}.

(** The live statistics, filled on the read path. *)
Record ConsumerStats : Set := MkConsumerStats {
  cs_Pending : Z;
  cs_Inflight : Z;
  cs_ReadyNow : Z;
  cs_InBackoff : Z;
  cs_Backlog : Z;
  cs_BacklogExact : bool;
  cs_OldestPendingAgeMS : Z;
  cs_BlockedBy : string;
}.

Definition msDurations (ds : list Z) : list Z := map Milliseconds ds.
Definition msList (ms : list Z) : list Z := map msDuration ms.
Definition marshalStringList (l : list string) : list string := compact (order_by String.leb l).

Definition InfoConfig (i : ConsumerInfo) : ConsumerConfig :=
  MkConsumerConfig (ci_Name i) (ci_Filters i) (msDuration (ci_AckWaitMS i)) (ci_MaxDeliver i)
    (ci_MaxAckPending i) (msList (ci_BackoffMS i)) (ci_DeadPolicy i) (ci_Paused i).

Definition scanConsumerInfo (c : consumer) : ConsumerInfo :=
  let i horizon := MkConsumerInfo (c_stream c) (c_name c) (c_filters c) (c_ack_wait_ms c) (c_max_deliver c)
    (c_max_ack_pending c) (c_backoff_ms c) (c_dead_policy c) (c_paused c) (c_cursor_seq c) (c_generation c)
    (c_created_at c) horizon in
  i (Milliseconds (RetryHorizon (InfoConfig (i 0)))).

Definition consumerBlockedBy (paused : bool) (pending readyNow cursorSeq next bound : Z) : string :=
  if paused then "paused"
  else if (0 <? bound) && (bound <=? pending) then "flow_control"
  else if (0 <? pending) && (readyNow =? 0) then "backoff"
  else if (pending =? 0) && (cursorSeq <? next) then "catching_up"
  else if pending =? 0 then "empty"
  else "none".

(** The rows of one consumer JOINed with their messages. *)
Definition joined (stream name : string) (d : db) : list (delivery * message) :=
  omap (fun r => if held_by stream name r then (fun m => (r, m)) <$> find_message (d_stream r) (d_seq r) d else None)
    (deliveries d).

Definition fillConsumerStats (nowMS : Z) (d : db) (i : ConsumerInfo) : ConsumerStats :=
  let rows := joined (ci_Stream i) (ci_Name i) d in
  let pending := Z.of_nat (length rows) in
  let inflight := sumZ (map (fun x => d_state x.1) rows) in
  let readyNow := count (fun x => (d_state x.1 =? 0) && (d_visible_at x.1 <=? nowMS)) rows in
  let oldest := default 0 (min_of (fun x => m_published_at x.2) rows) in
  let next := default 0 (find_seq (ci_Stream i) d) in
  let '(backlog, exact) := Fetch.consumerBacklog (ci_Stream i) (ci_CursorSeq i) next (ci_Filters i) d in
  MkConsumerStats pending inflight readyNow (pending - inflight - readyNow) backlog exact
    (if pending =? 0 then 0 else nowMS - oldest)
    (consumerBlockedBy (ci_Paused i) pending readyNow (ci_CursorSeq i) next (ci_MaxAckPending i)).

Definition GetConsumer (nowMS : Z) (stream name : string) (d : db) : result (ConsumerInfo * ConsumerStats) :=
  let? _ := ValidateExistingStreamName stream in
  let? _ := Subject.ValidateConsumerName name in
  match find_consumer stream name d with
  | None => Err (E ErrNotFound "consumer")
  | Some c => let i := scanConsumerInfo c in Ok (i, fillConsumerStats nowMS d i)
  end.

(** ** consumer.go: resolving a start position *)

(** The oldest live sequence number, or the counter of an empty stream, and the counter. *)
Definition streamBounds (stream : string) : tx (Z * Z) :=
  first ← query (fun d => min_of m_seq (where_ (on_stream stream) (messages d)));
  next ← query_or (E ErrNotFound "stream") (find_seq stream);
  mret (default next first, next).

Definition clampCursor (seq first next : Z) : Z :=
  if seq <? first then first else if next <? seq then next else seq.

(** ORDER BY published_at, seq LIMIT 1. *)
Definition time_le (a b : message) : bool :=
  if m_published_at a =? m_published_at b then m_seq a <=? m_seq b else m_published_at a <? m_published_at b.

Definition first_since (stream : string) (t : Z) (d : db) : option message :=
  head (order_by time_le (where_ (fun m => on_stream stream m && (t <=? m_published_at m)) (messages d))).

Definition resolveTimeStart (stream : string) (t next : Z) : tx (Z * bool) :=
  m ← query (first_since stream t);
  match m with
  | None => mret (next, false)
  | Some m =>
      minPub ← query (fun d => min_of m_published_at (where_ (on_stream stream) (messages d)));
      mret (m_seq m, match minPub with Some v => t <? v | None => false end)
  end.

Definition start_instant (start : StartPosition) (now : Z) : Z :=
  if negb (pos_Rel start =? 0) then UnixMilli (now + pos_Rel start) else pos_Time start.

Definition resolveStartPosition (stream : string) (start : StartPosition) (now : Z) : tx (Z * bool) :=
  '(first, next) ← streamBounds stream;
  if bool_decide (pos_Kind start = StartFirst) then mret (first, false)
  else if bool_decide (pos_Kind start = StartNew) then mret (next, false)
  else if bool_decide (pos_Kind start = StartSeq) then
    let cursor := clampCursor (pos_Seq start) first next in
    mret (cursor, (first <? next) && (pos_Seq start <? cursor))
  else if bool_decide (pos_Kind start = StartTime) then
    resolveTimeStart stream (start_instant start now) next
  else fail (E ErrBadRequest "start kind").

(** ** consumer.go: creation *)

Definition consumerStartKey (stream name : string) : string := "cstart." +:+ stream +:+ Fetch.nul +:+ name.

Definition consumerConfigDiff (old next : ConsumerConfig) : list string :=
  diff_if (negb (bool_decide (marshalStringList (cc_Filters old) = marshalStringList (cc_Filters next)))) "filters"
  ++ diff_if (negb (cc_AckWait old =? cc_AckWait next)) "ack_wait"
  ++ diff_if (negb (cc_MaxDeliver old =? cc_MaxDeliver next)) "max_deliver"
  ++ diff_if (negb (cc_MaxAckPending old =? cc_MaxAckPending next)) "max_ack_pending"
  ++ diff_if (negb (bool_decide (cc_Backoff old = cc_Backoff next))) "backoff"
  ++ diff_if (negb (bool_decide (cc_DeadPolicy old = cc_DeadPolicy next))) "dead_policy".

Definition consumer_row_of (stream : string) (cfg : ConsumerConfig) (cursor ts : Z) : consumer :=
  Consumer stream (cc_Name cfg) (marshalStringList (cc_Filters cfg)) (Milliseconds (cc_AckWait cfg))
    (cc_MaxDeliver cfg) (cc_MaxAckPending cfg) (msDurations (cc_Backoff cfg)) (cc_DeadPolicy cfg) cursor 1
    (cc_Paused cfg) ts.

Record consumerCreateResult : Set := MkConsumerCreateResult {
  cr_info : ConsumerInfo;
  cr_created : bool;
  cr_updated : bool;
  cr_warnings : list string;
}.

(** The configuration columns of the read shape. *)
Definition with_config (i : ConsumerInfo) (next : ConsumerConfig) : ConsumerInfo :=
  MkConsumerInfo (ci_Stream i) (ci_Name i) (cc_Filters next) (Milliseconds (cc_AckWait next)) (cc_MaxDeliver next)
    (cc_MaxAckPending next) (msDurations (cc_Backoff next)) (cc_DeadPolicy next) (ci_Paused i) (ci_CursorSeq i)
    (ci_Generation i) (ci_CreatedAt i) (Milliseconds (RetryHorizon next)).

Definition insert_meta (k v : string) : tx unit :=
  insert_or fst "insert meta row" (k, v) meta on_meta.

Definition applyInsert (stream : string) (cfg : ConsumerConfig) (start : StartPosition) (actor : string) (now : Z)
  : tx (consumerCreateResult * list event) :=
  let ts := UnixMilli now in
  '(cursor, clamped) ← marking (resolveStartPosition stream start now);
  _ ← insert_or ckey "insert consumer row" (consumer_row_of stream cfg cursor ts) consumers on_consumers;
  _ ← insert_meta (consumerStartKey stream (cc_Name cfg)) (StartString start);
  ev ← commitEvent (Event ts "consumer.create" (nullStr stream) (nullStr (cc_Name cfg)) None None None None None
                      (nullStr actor) [("cursor_seq", DInt cursor); ("start", DStr (StartString start))]);
  let info := MkConsumerInfo stream (cc_Name cfg) (cc_Filters cfg) (Milliseconds (cc_AckWait cfg))
    (cc_MaxDeliver cfg) (cc_MaxAckPending cfg) (msDurations (cc_Backoff cfg)) (cc_DeadPolicy cfg)
    (cc_Paused cfg) cursor 1 ts (Milliseconds (RetryHorizon cfg)) in
  mret (MkConsumerCreateResult info true false (if clamped : bool then [WarningStartClamped] else []), [ev]).

Definition ImmutableFieldError : error := E ErrConflict "ImmutableFieldError".

Definition checkStartImmutable (stream name : string) (start : StartPosition) : tx unit :=
  recorded ← query (meta_get (consumerStartKey stream name));
  match recorded with
  | None => mret tt
  | Some r => if bool_decide (r = StartString start) then mret tt else fail ImmutableFieldError
  end.

(** UPDATE consumers SET filters .. dead_policy; name, cursor and the rest stay. *)
Definition set_consumer_config (next : ConsumerConfig) (c : consumer) : consumer :=
  Consumer (c_stream c) (c_name c) (marshalStringList (cc_Filters next)) (Milliseconds (cc_AckWait next))
    (cc_MaxDeliver next) (cc_MaxAckPending next) (msDurations (cc_Backoff next)) (cc_DeadPolicy next)
    (c_cursor_seq c) (c_generation c) (c_paused c) (c_created_at c).

Definition applyUpdate (limits : ConsumerLimits) (stream : string) (cfg : ConsumerConfig) (actor : string)
    (existing : ConsumerInfo) (diff : list string) (ts : Z) : tx (ConsumerInfo * event) :=
  _ ← marking (lift (ValidateDeadPolicyForStream stream (cc_DeadPolicy cfg)));
  let next := MkConsumerConfig (cc_Name cfg) (cc_Filters cfg) (cc_AckWait cfg) (cc_MaxDeliver cfg)
    (cc_MaxAckPending cfg) (cc_Backoff cfg) (cc_DeadPolicy cfg) (ci_Paused existing) in
  _ ← marking (lift (ValidateConsumerConfig next limits));
  _ ← exec (on_consumers (update_where (has_key ckey (stream, cc_Name cfg)) (set_consumer_config next)));
  ev ← commitEvent (Event ts "consumer.update" (nullStr stream) (nullStr (cc_Name cfg)) None None None None None
                      (nullStr actor) [("fields", DStrs diff)]);
  mret (with_config existing next, ev).

Definition createConsumerCmd (limits : ConsumerLimits) (stream : string) (cfg : ConsumerConfig)
    (start : StartPosition) (actor : string) (now : Z) : tx (consumerCreateResult * list event) :=
  let ts := UnixMilli now in
  _ ← marking (refuseDuringReap stream);
  _ ← marking (query_or (E ErrNotFound "stream") (find_stream stream));
  existing ← query (fun d => query_row (has_key (fun c => (c_stream c, fold_case (c_name c)))
                                         (stream, fold_case (cc_Name cfg))) (consumers d));
  match existing with
  | None => applyInsert stream cfg start actor now
  | Some c =>
      let existing := scanConsumerInfo c in
      _ ← marking (checkStartImmutable stream (cc_Name cfg) start);
      match consumerConfigDiff (InfoConfig existing) cfg with
      | [] => mret (MkConsumerCreateResult existing false false [], [])
      | diff =>
          '(updated, ev) ← applyUpdate limits stream cfg actor existing diff ts;
          mret (MkConsumerCreateResult updated false true [], [ev])
      end
  end.

(** Store.CreateConsumer: the checks before the command is enqueued. *)
Definition CreateConsumer (limits : ConsumerLimits) (stream : string) (cfg : ConsumerConfig)
    (start : StartPosition) (actor : string) (now : Z) : tx (consumerCreateResult * list event) :=
  _ ← lift (ValidateExistingStreamName stream);
  _ ← lift (ValidateDeadPolicyForStream stream (cc_DeadPolicy cfg));
  _ ← lift (ValidateConsumerConfig cfg limits);
  if bool_decide (pos_Kind start = "") then fail (E ErrBadRequest "start position is required")
  else createConsumerCmd limits stream cfg start actor now.

(** ** consumer.go: update *)

Record ConsumerPatch : Set := MkConsumerPatch {
  cp_Filters : option (list string);
  cp_AckWaitMS : option Z;
  cp_MaxDeliver : option Z;
  cp_MaxAckPending : option Z;
  cp_BackoffMS : option (list Z);
  cp_DeadPolicy : option string;
}.

Definition applyConsumerPatch (old : ConsumerConfig) (p : ConsumerPatch) : ConsumerConfig * list string :=
  (MkConsumerConfig (cc_Name old) (default (cc_Filters old) (cp_Filters p))
     (default (cc_AckWait old) (msDuration <$> cp_AckWaitMS p)) (default (cc_MaxDeliver old) (cp_MaxDeliver p))
     (default (cc_MaxAckPending old) (cp_MaxAckPending p)) (default (cc_Backoff old) (msList <$> cp_BackoffMS p))
     (default (cc_DeadPolicy old) (cp_DeadPolicy p)) (cc_Paused old),
   field_if (cp_Filters p) "filters" ++ field_if (cp_AckWaitMS p) "ack_wait"
   ++ field_if (cp_MaxDeliver p) "max_deliver" ++ field_if (cp_MaxAckPending p) "max_ack_pending"
   ++ field_if (cp_BackoffMS p) "backoff" ++ field_if (cp_DeadPolicy p) "dead_policy").

(** A READY row that was never delivered. *)
Definition droppable (stream name : string) (r : delivery) : bool :=
  held_by stream name r && (d_state r =? 0) && (d_attempts r =? 0).

Definition droppable_asc (stream name : string) (d : db) : list delivery :=
  order_by (fun a b => d_seq a <=? d_seq b) (where_ (droppable stream name) (deliveries d)).

Definition droppable_desc (stream name : string) (d : db) : list delivery :=
  order_by (fun a b => d_seq b <=? d_seq a) (where_ (droppable stream name) (deliveries d)).

Definition set_cursor (cursor : Z) (c : consumer) : consumer :=
  Consumer (c_stream c) (c_name c) (c_filters c) (c_ack_wait_ms c) (c_max_deliver c) (c_max_ack_pending c)
    (c_backoff_ms c) (c_dead_policy c) cursor (c_generation c) (c_paused c) (c_created_at c).

(** The residue still above the bound. *)
Definition shrinkDeliveries (stream name : string) (bound : Z) : tx Z :=
  pending ← query (fun d => count (held_by stream name) (deliveries d));
  if pending <=? bound then mret 0
  else
    let excess := pending - bound in
    free ← query (fun d => count (droppable stream name) (deliveries d));
    let dropped := if free <? excess then free else excess in
    if dropped =? 0 then mret excess
    else
      lowest ← query_or (Plain "read rewind seq")
                 (fun d => d_seq <$> (droppable_asc stream name d !! Z.to_nat (free - dropped)));
      seqs ← query (fun d => map d_seq (limit dropped (droppable_desc stream name d)));
      _ ← exec (on_deliveries (delete_where (fun r => droppable stream name r && bool_decide (d_seq r ∈ seqs))));
      _ ← exec (on_consumers (update_where (has_key ckey (stream, name)) (set_cursor lowest)));
      mret (excess - dropped).

Definition lowers (p : ConsumerPatch) (existing : ConsumerInfo) : bool :=
  match cp_MaxAckPending p with
  | Some b => b <? ci_MaxAckPending existing
  | None => false
  end.

Definition updateConsumerCmd (limits : ConsumerLimits) (stream name : string) (p : ConsumerPatch)
    (actor : string) (now : Z) : tx (ConsumerInfo * list event) :=
  let ts := UnixMilli now in
  row ← marking (query_or (E ErrNotFound "consumer") (find_consumer stream name));
  let existing := scanConsumerInfo row in
  let '(next, fields) := applyConsumerPatch (InfoConfig existing) p in
  match fields with
  | [] => mret (existing, [])
  | _ =>
      _ ← marking (lift (ValidateDeadPolicyForStream stream (cc_DeadPolicy next)));
      _ ← marking (lift (ValidateConsumerConfig next limits));
      overshoot ← (if lowers p existing then shrinkDeliveries stream name (default 0 (cp_MaxAckPending p)) else mret 0);
      _ ← exec (on_consumers (update_where (has_key ckey (stream, name)) (set_consumer_config next)));
      ev ← commitEvent (Event ts "consumer.update" (nullStr stream) (nullStr name) None None None None None
                          (nullStr actor)
                          (("fields", DStrs fields) :: if lowers p existing then [("overshoot", DInt overshoot)] else []));
      mret (with_config existing next, [ev])
  end.

(** ** consumer.go: deletion and pause *)

(** The [delete] on the writer's flow map. *)
Definition forget_flow (key : string) : tx unit := fun w =>
  let m := w_mem w in
  (World (w_db w) (Mem (delete key (flow m)) (limiter m) (minted m) (drawn m)), Ok tt).

(** (pending, inflight) *)
Definition deleteConsumerCmd (stream name actor : string) (now : Z) : tx (Z * Z * list event) :=
  let ts := UnixMilli now in
  _ ← marking (query_or (E ErrNotFound "consumer") (find_consumer stream name));
  pending ← query (fun d => count (held_by stream name) (deliveries d));
  inflight ← query (fun d => sum_of d_state (held_by stream name) (deliveries d));
  _ ← exec (on_deliveries (delete_where (held_by stream name)));
  _ ← exec (on_consumers (delete_where (has_key ckey (stream, name))));
  _ ← exec (meta_del (consumerStartKey stream name));
  _ ← forget_flow (Fetch.flowKey stream name);
  ev ← commitEvent (Event ts "consumer.delete" (nullStr stream) (nullStr name) None None None None None
                      (nullStr actor) [("inflight", DInt inflight); ("pending", DInt pending)]);
  mret (pending, inflight, [ev]).

Definition set_paused (b : bool) (c : consumer) : consumer :=
  Consumer (c_stream c) (c_name c) (c_filters c) (c_ack_wait_ms c) (c_max_deliver c) (c_max_ack_pending c)
    (c_backoff_ms c) (c_dead_policy c) (c_cursor_seq c) (c_generation c) b (c_created_at c).

Definition setPausedCmd (stream name : string) (paused : bool) (actor : string) (now : Z) : tx (list event) :=
  c ← marking (query_or (E ErrNotFound "consumer") (find_consumer stream name));
  if Bool.eqb (c_paused c) paused then mret []
  else
    _ ← exec (on_consumers (update_where (has_key ckey (stream, name)) (set_paused paused)));
    ev ← commitEvent (Event (UnixMilli now) "consumer.pause" (nullStr stream) (nullStr name) None None None None None
                        (nullStr actor) [("paused", DBool paused)]);
    mret [ev].

(** ** seek.go *)

Record SeekImpact : Set := MkSeekImpact {
  sk_CursorBefore : Z;
  sk_CursorAfter : Z;
  sk_PendingDropped : Z;
  sk_Messages : Z;
  sk_Clamped : bool;
  sk_Warnings : list string;
}.

Record SeekResult : Set := MkSeekResult { sk_Impact : SeekImpact; sk_Generation : Z }.

Definition move_cursor (target : Z) (c : consumer) : consumer :=
  Consumer (c_stream c) (c_name c) (c_filters c) (c_ack_wait_ms c) (c_max_deliver c) (c_max_ack_pending c)
    (c_backoff_ms c) (c_dead_policy c) target (c_generation c + 1) (c_paused c) (c_created_at c).

(** The recomputed clamp report: by sequence number, or by the absolute instant. *)
Definition seek_clamped (stream : string) (to : StartPosition) (target first next : Z) (d : db) : bool :=
  if bool_decide (pos_Kind to = StartSeq) then
    negb (pos_Seq to =? target) && (target =? clampCursor (pos_Seq to) first next)
  else if bool_decide (pos_Kind to = StartTime) then
    match first_since stream (pos_Time to) d with Some _ => false | None => true end
  else false.

Definition seek_warnings (dropped msgs : Z) : list string :=
  (if 0 <? dropped then [format_int dropped +:+ " outstanding ack token(s) will fence as stale on this consumer"] else [])
  ++ (if 0 <? msgs then [format_int msgs +:+ " message(s) will be redelivered from the moved cursor"] else []).

Definition seekCmd (stream name : string) (to : StartPosition) (dryRun : bool) (actor : string) (now : Z)
  : tx (SeekResult * list event) :=
  c ← marking (query_or (E ErrNotFound "consumer") (find_consumer stream name));
  '(target, clamped) ← marking (resolveStartPosition stream to now);
  if clamped : bool then marking (fail (E ErrBadRequest "seek start position"))
  else
    pending ← query (fun d => count (fun r => held_by stream name r && (d_state r =? 0)) (deliveries d));
    inflight ← query (fun d => count (fun r => held_by stream name r && (d_state r =? 1)) (deliveries d));
    let dropped := pending + inflight in
    '(first, next) ← streamBounds stream;
    msgs ← query (fun d => count (fun m => on_stream stream m && (target <=? m_seq m)) (messages d));
    clamped ← query (seek_clamped stream to target first next);
    let impact := MkSeekImpact (c_cursor_seq c) target dropped msgs clamped (seek_warnings dropped msgs) in
    if dryRun then mret (MkSeekResult impact 0, [])
    else
      n ← query (fun d => count (held_by stream name) (deliveries d));
      _ ← exec (on_deliveries (delete_where (held_by stream name)));
      if negb (n =? dropped) then fail (Plain "dropped deliveries, plan said otherwise")
      else
        _ ← exec (on_consumers (update_where (has_key ckey (stream, name)) (move_cursor target)));
        ev ← commitEvent (Event 0 "consumer.seek" (nullStr stream) (nullStr name) None None None None None
                            (nullStr actor)
                            [("from", DInt (c_cursor_seq c)); ("to", DInt target); ("dropped", DInt dropped);
                             ("clamped", DBool clamped)]);
        mret (MkSeekResult impact (c_generation c + 1), [ev]).

(** ** Facts: start positions *)

(** What a start position asks for, message by message. *)
Definition wanted (start : StartPosition) (now : Z) (m : message) : bool :=
  if bool_decide (pos_Kind start = StartFirst) then true
  else if bool_decide (pos_Kind start = StartNew) then false
  else if bool_decide (pos_Kind start = StartSeq) then pos_Seq start <=? m_seq m
  else start_instant start now <=? m_published_at m.

Definition tle (a b : message) : Prop := Is_true (time_le a b).

Lemma tle_spec a b :
  tle a b <-> m_published_at a < m_published_at b \/ m_published_at a = m_published_at b /\ m_seq a <= m_seq b.
Proof. unfold tle, time_le. rewrite Is_true_true. case_match; bool_prop; lia. Qed.

#[local] Instance tle_total : Total tle.
Proof. intros a b. rewrite !tle_spec. lia. Qed.

#[local] Instance tle_trans : Transitive tle.
Proof. intros a b c. rewrite !tle_spec. lia. Qed.

(** The row the ordered query returns is the least one. *)
Lemma first_since_spec stream t d m :
  first_since stream t d = Some m ->
  m ∈ messages d /\ m_stream m = stream /\ t <= m_published_at m /\
  forall m', m' ∈ messages d -> m_stream m' = stream -> t <= m_published_at m' -> tle m m'.
Proof.
  unfold first_since. set (l := where_ _ (messages d)). intros Hh.
  assert (Hl : forall x, x ∈ order_by time_le l <-> x ∈ messages d /\ m_stream x = stream /\ t <= m_published_at x).
  { intros x. rewrite elem_of_order_by. unfold l, on_stream. rewrite elem_of_where. bool_prop. naive_solver. }
  assert (Hs : StronglySorted tle (order_by time_le l)) by (apply (StronglySorted_merge_sort tle)).
  destruct (order_by time_le l) as [|x rest] eqn:Ho; [done|]. injection Hh as ->.
  apply StronglySorted_inv in Hs as [_ Hle]. destruct (proj1 (Hl m) ltac:(left)) as (? & ? & ?).
  split_and!; try done. intros m' Hm' Hs' Ht'. pose proof (proj2 (Hl m') (conj Hm' (conj Hs' Ht'))) as [-> |Hin]%elem_of_cons.
  - rewrite tle_spec. lia.
  - rewrite List.Forall_forall in Hle. apply Hle. by apply list_elem_of_In.
Qed.

Lemma first_since_None stream t d m :
  first_since stream t d = None -> m ∈ messages d -> m_stream m = stream -> m_published_at m < t.
Proof.
  unfold first_since. intros Hh Hm Hs. destruct (Z.lt_ge_cases (m_published_at m) t) as [|Ht]; [done|].
  assert (Hin : m ∈ order_by time_le (where_ (fun m => on_stream stream m && (t <=? m_published_at m)) (messages d))).
  { apply elem_of_order_by, elem_of_where. split; [|done]. unfold on_stream. bool_prop. done. }
  destruct (order_by _ _); [by apply elem_of_nil in Hin|done].
Qed.

Lemma bounds_pure stream w w' r : streamBounds stream w = (w', r) -> w' = w.
Proof.
  unfold streamBounds, mbind, tx_bind, query, query_or, mret, tx_ret. destruct (find_seq stream (w_db w)); congruence.
Qed.

Lemma resolve_pure stream start now w w' r : resolveStartPosition stream start now w = (w', r) -> w' = w.
Proof.
  unfold resolveStartPosition, mbind, tx_bind. destruct (streamBounds stream w) as [w1 [[first next]|e]] eqn:Hb.
  - apply bounds_pure in Hb as ->. unfold resolveTimeStart, mbind, tx_bind, query, mret, tx_ret, fail.
    repeat case_match; congruence.
  - apply bounds_pure in Hb as ->. congruence.
Qed.

Section Facts.
Context `{Ids}.

Lemma streamBounds_wp stream w :
  world_ok w ->
  wp (streamBounds stream)
     (fun '(first, next) w' => w' = w /\ find_seq stream (w_db w) = Some next /\ 1 <= first <= next /\
        forall m, m ∈ messages (w_db w) -> m_stream m = stream -> first <= m_seq m < next)
     (fun e w' => w' = w /\ e = E ErrNotFound "stream" /\ find_seq stream (w_db w) = None) w.
Proof.
  intros Hok. unfold streamBounds. wp_steps; [|done]. intros next Hn. wp_steps.
  pose proof (inv_messages _ _ Hok) as IM. pose proof (inv_next_pos _ _ _ _ IM stream next Hn) as Hpos.
  assert (Hmsg : forall m, m ∈ messages (w_db w) -> m_stream m = stream -> 1 <= m_seq m < next).
  { intros m Hm Hs. destruct (inv_msg_seq _ _ _ _ IM m Hm) as (n & Hn' & Hb). rewrite Hs in Hn'.
    unfold seq_of in Hn'. unfold find_seq in Hn. assert (n = next) as -> by congruence. done. }
  assert (Hon : forall m, m ∈ where_ (on_stream stream) (messages (w_db w)) <-> m ∈ messages (w_db w) /\ m_stream m = stream).
  { intros m. rewrite elem_of_where. unfold on_stream. bool_prop. tauto. }
  split; [done|]. split; [done|]. destruct (min_of _ _) as [first|] eqn:Hmin; simpl.
  - apply min_of_Some in Hmin as [Hle (r & Hr & ->)]. apply Hon in Hr as [Hr Hs]. specialize (Hmsg r Hr Hs).
    split; [lia|]. intros m Hm Hms. specialize (Hle m (proj2 (Hon m) (conj Hm Hms))).
    destruct (inv_msg_seq _ _ _ _ IM m Hm) as (n & Hn' & Hb). rewrite Hms in Hn'.
    unfold seq_of in Hn'. unfold find_seq in Hn. assert (n = next) as -> by congruence. lia.
  - split; [lia|]. intros m Hm Hms. apply min_of_None in Hmin.
    assert (Hin : m ∈ where_ (on_stream stream) (messages (w_db w))) by by apply Hon.
    rewrite Hmin in Hin. by apply elem_of_nil in Hin.
Qed.

(** Every kind of start position resolves to a cursor that selects exactly the
    stored messages it asks for, between 1 and the stream's counter. *)
Lemma resolve_wp stream start now w :
  world_ok w ->
  wp (resolveStartPosition stream start now)
     (fun '(cursor, _) w' => w' = w /\ exists next, find_seq stream (w_db w) = Some next /\ 1 <= cursor <= next /\
        forall m, m ∈ messages (w_db w) -> m_stream m = stream -> (cursor <= m_seq m <-> wanted start now m = true))
     (fun e w' => w' = w /\ IsCmdError (maybeCmdErr e) = true) w.
Proof.
  intros Hok. unfold resolveStartPosition. wp_steps. eapply wp_mono; [by apply streamBounds_wp| |].
  2: { intros e w' (-> & -> & _). done. }
  intros [first next] w' (-> & Hn & Hb & Hm). unfold wanted.
  destruct (bool_decide (pos_Kind start = StartFirst)).
  { wp_steps. split; [done|]. exists next. split_and!; try done; try lia. intros m Hin Hs. specialize (Hm m Hin Hs). intuition lia. }
  destruct (bool_decide (pos_Kind start = StartNew)).
  { wp_steps. split; [done|]. exists next. split_and!; try done; try lia. intros m Hin Hs. specialize (Hm m Hin Hs).
    split; [lia|done]. }
  destruct (bool_decide (pos_Kind start = StartSeq)).
  { wp_steps. split; [done|]. exists next. unfold clampCursor. split_and!; try done; try (repeat case_match; bool_prop; lia).
    intros m Hin Hs. specialize (Hm m Hin Hs). repeat case_match; bool_prop; lia. }
  destruct (bool_decide (pos_Kind start = StartTime)); [|done].
  set (t := start_instant start now). unfold resolveTimeStart. wp_steps.
  destruct (first_since stream t (w_db w)) as [m0|] eqn:Hf.
  - apply first_since_spec in Hf as (Hin0 & Hs0 & Ht0 & Hmin). wp_steps. split; [done|]. exists next.
    pose proof (Hm m0 Hin0 Hs0). split_and!; try done; try lia. intros m Hin Hs. rewrite Z.leb_le. split.
    + intros Hle. destruct (Z.eq_dec (m_seq m0) (m_seq m)) as [Heq|Hne].
      * assert (m0 = m) as -> by (eapply (key_unique mkey); eauto; [apply (inv_messages _ _ Hok)|unfold mkey; congruence]). done.
      * pose proof (inv_msg_order _ _ _ _ (inv_messages _ _ Hok) m0 m Hin0 Hin ltac:(congruence) ltac:(lia)). lia.
    + intros Ht. specialize (Hmin m Hin Hs Ht). apply tle_spec in Hmin as [Hlt|[_ Hle]]; [|done].
      destruct (Z.lt_ge_cases (m_seq m) (m_seq m0)) as [Hlt'|]; [|lia].
      pose proof (inv_msg_order _ _ _ _ (inv_messages _ _ Hok) m m0 Hin Hin0 ltac:(congruence) Hlt'). lia.
  - wp_steps. split; [done|]. exists next. split_and!; try done; try lia. intros m Hin Hs.
    pose proof (first_since_None _ _ _ _ Hf Hin Hs). specialize (Hm m Hin Hs). rewrite Z.leb_le. lia.
Qed.

Lemma marshal_parses l : is_ok (Subject.ParseSet l) = true -> is_ok (Subject.ParseSet (marshalStringList l)) = true.
Proof.
  rewrite !SubjectFacts.ParseSet_is_ok. intros [Hne Hall].
  assert (Hmem : forall x, x ∈ marshalStringList l <-> x ∈ l).
  { intros x. unfold marshalStringList. by rewrite elem_of_compact, elem_of_order_by. }
  split; [|intros r Hr%Hmem; auto]. intros Hnil. destruct l as [|x l]; [done|].
  assert (Hx : x ∈ marshalStringList (x :: l)) by (apply Hmem; left). rewrite Hnil in Hx. by apply elem_of_nil in Hx.
Qed.

(** The insert half: a consumer that reads exactly what its start position asks
    for, at generation 1, with nothing pending. *)
Lemma applyInsert_wp limits stream cfg start actor now w :
  world_ok w -> consumer_wf cfg limits -> (stream, cc_Name cfg) ∉ map ckey (consumers (w_db w)) ->
  wp (applyInsert stream cfg start actor now)
     (fun '(res, _) w' => cr_created res = true /\ world_ok w' /\ exists cursor,
        consumers (w_db w') = consumers (w_db w) ++ [consumer_row_of stream cfg cursor (UnixMilli now)] /\
        deliveries (w_db w') = deliveries (w_db w) /\ messages (w_db w') = messages (w_db w) /\
        meta_get (consumerStartKey stream (cc_Name cfg)) (w_db w') = Some (StartString start) /\
        forall m, m ∈ messages (w_db w) -> m_stream m = stream -> (cursor <= m_seq m <-> wanted start now m = true))
     (fun e _ => IsCmdError e = true \/ is_Some (meta_get (consumerStartKey stream (cc_Name cfg)) (w_db w))) w.
Proof.
  intros Hok Hwf Hnew. unfold applyInsert, insert_meta, insert_or. wp_steps.
  eapply wp_mono; [by apply resolve_wp| |by intros e w' [-> ?]; left].
  intros [cursor clamped] w' (-> & next & Hn & Hc & Hsel). wp_steps.
  2: { unfold insert_unique. by rewrite (proj2 (existsb_key ckey _ _) Hnew). }
  intros t1 [_ ->]%insert_unique_Some. wp_steps.
  2: { unfold insert_unique. simpl. case_match eqn:Hex; [|done]. intros _. right.
       apply existsb_exists in Hex as (x & Hx%list_elem_of_In & Hk). unfold meta_get.
       destruct (query_row _ _) eqn:Hq; [by eexists|]. by rewrite (query_row_None _ _ _ Hq Hx) in Hk. }
  intros t2 [Hmk ->]%insert_unique_Some. wp_steps. split; [done|]. split; [|exists cursor; split_and!; try done].
  - apply Inv_events, Inv_meta, Inv_consumers; [done| |].
    + pose proof (inv_consumers _ _ Hok) as [Ik Ic]. split; [by apply (key_snoc ckey)|].
      intros c [Hc'| ->]%elem_of_snoc; [auto|]. simpl. split; [done|]. split; [by apply Hwf|].
      split; [apply marshal_parses, Hwf|]. eauto.
    + apply DelInv_add_consumer; [apply Hok|done|]. simpl. pose proof (cwf_max_ack_pending _ _ Hwf). lia.
  - unfold meta_get. simpl. rewrite query_row_snoc. destruct (query_row _ _) as [x|] eqn:Hq.
    + apply query_row_Some in Hq as [Hx%has_key_true Hin]. destruct Hmk. simpl. rewrite <-Hx. by apply in_mapped.
    + unfold has_key. simpl. by rewrite bool_decide_true.
Qed.

(** *** Shrinking the pending set *)

(** Deliveries are in order: a row never delivered lies above every row that was. *)
Definition fresh_last (stream name : string) (ds : list delivery) : Prop :=
  forall r r', r ∈ ds -> r' ∈ ds -> held_by stream name r' = true ->
    droppable stream name r = true -> droppable stream name r' = false -> d_seq r' < d_seq r.

Lemma droppable_held s n r : droppable s n r = true -> held_by s n r = true.
Proof. unfold droppable. bool_prop. tauto. Qed.

Lemma droppable_nodup s n w : world_ok w -> NoDup (map d_seq (droppable_asc s n (w_db w))).
Proof.
  intros Hok. apply (key_order_by d_seq), (held_seqs_nodup s n).
  - apply key_where, (inv_del_key _ _ _ (inv_deliveries _ _ Hok)).
  - intros x [Hx _]%elem_of_where. by apply droppable_held in Hx.
Qed.

(** The split of the never-delivered rows the two queries of the shrink agree
    on: [low] stay, [high] go, and the rewind target is the least of [high]. *)
Lemma shrink_split s n w k :
  world_ok w -> 1 <= k <= count (droppable s n) (deliveries (w_db w)) ->
  exists low high lowest,
    map d_seq (droppable_asc s n (w_db w)) = low ++ lowest :: high /\
    Z.of_nat (length (lowest :: high)) = k /\
    d_seq <$> (droppable_asc s n (w_db w) !! Z.to_nat (count (droppable s n) (deliveries (w_db w)) - k)) = Some lowest /\
    map d_seq (limit k (droppable_desc s n (w_db w))) = reverse (lowest :: high).
Proof.
  intros Hok Hk. set (asc := droppable_asc s n (w_db w)).
  assert (Hlen : Z.of_nat (length asc) = count (droppable s n) (deliveries (w_db w))).
  { unfold count, asc, droppable_asc. by rewrite order_by_Permutation. }
  set (i := Z.to_nat (count (droppable s n) (deliveries (w_db w)) - k)).
  destruct (drop i (map d_seq asc)) as [|lowest high] eqn:Hd.
  { apply (f_equal length) in Hd. rewrite length_drop, length_map in Hd. simpl in Hd. lia. }
  exists (take i (map d_seq asc)), high, lowest.
  assert (Hsplit : map d_seq asc = take i (map d_seq asc) ++ lowest :: high) by (by rewrite <-Hd, take_drop).
  assert (Hhigh : length (lowest :: high) = Z.to_nat k) by (rewrite <-Hd, length_drop, length_map; lia).
  split_and!; [done|lia|..].
  - rewrite <-list_lookup_fmap. change (d_seq <$> asc) with (map d_seq asc). rewrite Hsplit.
    rewrite lookup_app_r; rewrite length_take, length_map; [|lia].
    replace (i - i `min` length asc)%nat with O by lia. done.
  - unfold limit, droppable_desc. replace (k <? 0) with false by (symmetry; apply Z.ltb_ge; lia).
    rewrite <-firstn_map, order_by_desc. fold (droppable_asc s n (w_db w)). fold asc. rewrite Hsplit, reverse_app.
    apply take_app_length'. by rewrite length_reverse.
Qed.

(** Exactly the never-delivered rows at or above the rewind target go. *)
Lemma shrink_gone s n w low high lowest r :
  world_ok w -> map d_seq (droppable_asc s n (w_db w)) = low ++ lowest :: high ->
  r ∈ deliveries (w_db w) -> droppable s n r = true ->
  (d_seq r ∈ reverse (lowest :: high) <-> lowest <= d_seq r).
Proof.
  intros Hok Hsplit Hr Hdrop. set (free := where_ (droppable s n) (deliveries (w_db w))).
  pose proof (droppable_nodup s n w Hok) as Hnd.
  pose proof (sorted_lt d_seq _ (order_by_sorted d_seq free) Hnd) as Hs.
  change (order_by (fun a b => d_seq a <=? d_seq b) free) with (droppable_asc s n (w_db w)) in Hs.
  rewrite Hsplit in Hs. apply StronglySorted_app in Hs as (Hlow & _ & Hhigh).
  apply StronglySorted_inv in Hhigh as [_ Hhigh]. rewrite Forall_forall in Hhigh.
  assert (Hin : d_seq r ∈ low ++ lowest :: high).
  { rewrite <-Hsplit. apply in_mapped, elem_of_order_by, elem_of_where. done. }
  assert (Hrev : d_seq r ∈ reverse (lowest :: high) <-> d_seq r ∈ lowest :: high) by (by rewrite reverse_Permutation).
  rewrite Hrev, elem_of_cons. apply elem_of_app in Hin as [Hin|Hin].
  - specialize (Hlow _ lowest Hin ltac:(left)). split; [|lia]. intros [-> |Hh]; [lia|]. specialize (Hhigh _ Hh). lia.
  - apply elem_of_cons in Hin as [-> |Hin]; [intuition lia|]. specialize (Hhigh _ Hin). intuition lia.
Qed.

Lemma update_same {R} (p : R -> bool) f (t : list R) :
  (forall r, r ∈ t -> p r = true -> f r = r) -> update_where p f t = t.
Proof.
  intros Hf. unfold update_where. induction t as [|r t IH]; [done|]. simpl. rewrite IH by (intros; apply Hf; set_solver).
  destruct (p r) eqn:Hp; [|done]. by rewrite Hf by (done || left).
Qed.

(** What a shrink to [bound] leaves: [cursor] is where the consumer resumes. *)
Record shrunk (s n : string) (bound over cursor : Z) (w w' : world) : Prop := {
  shr_ok : world_ok w';
  shr_messages : messages (w_db w') = messages (w_db w);
  shr_seq : stream_seq (w_db w') = stream_seq (w_db w);
  shr_mem : w_mem w' = w_mem w;
  shr_consumers : consumers (w_db w') = update_where (has_key ckey (s, n)) (set_cursor cursor) (consumers (w_db w));
  shr_kept : forall r, r ∈ deliveries (w_db w') <->
    r ∈ deliveries (w_db w) /\ (droppable s n r = true -> d_seq r < cursor);
  shr_over : over = Z.max 0 (count (held_by s n) (deliveries (w_db w')) - bound);
  shr_residue : 0 < over -> forall r, r ∈ deliveries (w_db w') -> droppable s n r = false;
}.

Lemma count_gone s n w low high lowest :
  world_ok w -> map d_seq (droppable_asc s n (w_db w)) = low ++ lowest :: high ->
  count (fun r => droppable s n r && bool_decide (d_seq r ∈ reverse (lowest :: high))) (deliveries (w_db w))
  = Z.of_nat (length (lowest :: high)).
Proof.
  intros Hok Hsplit. set (seqs := lowest :: high) in *. unfold count.
  set (gone := where_ _ (deliveries (w_db w))).
  assert (Hgone : forall r, r ∈ gone <-> r ∈ deliveries (w_db w) /\ droppable s n r = true /\ d_seq r ∈ seqs).
  { intros r. unfold gone. rewrite elem_of_where, andb_true_iff, bool_decide_eq_true, reverse_Permutation. tauto. }
  assert (Hperm : Permutation (map d_seq gone) seqs).
  { apply NoDup_Permutation.
    - apply (held_seqs_nodup s n); [apply key_where, (inv_del_key _ _ _ (inv_deliveries _ _ Hok))|].
      intros r (_ & Hd & _)%Hgone. by apply droppable_held.
    - pose proof (droppable_nodup s n w Hok) as Hnd. rewrite Hsplit in Hnd. by apply NoDup_app in Hnd as (_ & _ & ?).
    - intros x. split; [intros (r & -> & Hr%Hgone)%mapped_in; tauto|]. intros Hx.
      assert (Hin : x ∈ map d_seq (droppable_asc s n (w_db w))) by (rewrite Hsplit; apply elem_of_app; by right).
      apply mapped_in in Hin as (r & -> & Hr). apply elem_of_order_by, elem_of_where in Hr as [? ?].
      by apply in_mapped, Hgone. }
  by rewrite <-Hperm, length_map.
Qed.

Lemma shrunk_none s n bound over c w :
  world_ok w -> find_consumer s n (w_db w) = Some c ->
  over = Z.max 0 (count (held_by s n) (deliveries (w_db w)) - bound) ->
  (0 < over -> forall r, r ∈ deliveries (w_db w) -> droppable s n r = false) ->
  shrunk s n bound over (c_cursor_seq c) w w.
Proof.
  intros Hok Hc Hover Hres. destruct (Fetch.find_consumer_ok _ _ _ _ Hok Hc) as (Hin & <- & <-). split; try done.
  - symmetry. apply update_same. intros c0 Hc0 Hk%has_key_true.
    assert (c0 = c) as -> by (eapply (key_unique ckey); eauto; apply (inv_consumers _ _ Hok)). by destruct c.
  - intros r. split; [|tauto]. intros Hr. split; [done|]. intros Hd%droppable_held%held_by_true.
    apply (DelInv_consumer _ _ _ r c (inv_con_key _ _ (inv_consumers _ _ Hok)) (inv_deliveries _ _ Hok) Hr Hin).
    unfold ckey. by destruct Hd as [-> ->].
Qed.

(** Deleting the rows at or above the new cursor, and moving it there, keeps the
    invariant: nothing of the consumer is left above its cursor. *)
Lemma shrunk_some s n bound cursor (seqs : list Z) c w :
  world_ok w -> fresh_last s n (deliveries (w_db w)) -> find_consumer s n (w_db w) = Some c ->
  (exists r, r ∈ deliveries (w_db w) /\ droppable s n r = true /\ d_seq r = cursor) ->
  (forall r, r ∈ deliveries (w_db w) -> droppable s n r = true -> (d_seq r ∈ seqs <-> cursor <= d_seq r)) ->
  let gone r := droppable s n r && bool_decide (d_seq r ∈ seqs) in
  let over := count (held_by s n) (deliveries (w_db w)) - bound - count gone (deliveries (w_db w)) in
  0 <= over -> (0 < over -> count gone (deliveries (w_db w)) = count (droppable s n) (deliveries (w_db w))) ->
  shrunk s n bound over cursor w
    (World (on_consumers (update_where (has_key ckey (s, n)) (set_cursor cursor))
             (on_deliveries (delete_where gone) (w_db w))) (w_mem w)).
Proof.
  intros Hok Hfresh Hc (r0 & Hr0 & Hd0 & Hcur) Hseqs gone over Hover Hres.
  destruct (Fetch.find_consumer_ok _ _ _ _ Hok Hc) as (Hin & Hs & Hn).
  assert (Hkept : forall r, r ∈ delete_where gone (deliveries (w_db w)) <->
            r ∈ deliveries (w_db w) /\ (droppable s n r = true -> d_seq r < cursor)).
  { intros r. rewrite elem_of_delete. unfold gone. split.
    - intros [Hg Hr]. split; [done|]. intros Hd. rewrite Hd in Hg. simpl in Hg. apply bool_decide_eq_false in Hg.
      rewrite Hseqs in Hg by done. lia.
    - intros [Hr Hlt]. split; [|done]. destruct (droppable s n r) eqn:Hd; [|done]. simpl.
      apply bool_decide_eq_false. rewrite Hseqs by done. specialize (Hlt eq_refl). lia. }
  assert (Hbelow : forall r, r ∈ delete_where gone (deliveries (w_db w)) -> held_by s n r = true -> d_seq r < cursor).
  { intros r [Hr Hlt]%Hkept Hh. destruct (droppable s n r) eqn:Hd; [auto|]. subst cursor. by apply Hfresh. }
  assert (Hr0c : 1 <= cursor < c_cursor_seq c).
  { apply droppable_held, held_by_true in Hd0 as [Hs0 Hn0].
    destruct (DelInv_consumer _ _ _ r0 c (inv_con_key _ _ (inv_consumers _ _ Hok)) (inv_deliveries _ _ Hok) Hr0 Hin) as [_ ?];
      [unfold ckey; congruence|].
    pose proof (inv_del_msg _ _ _ (inv_deliveries _ _ Hok) r0 Hr0) as (m & Hm & Hmin)%mapped_in.
    destruct (inv_msg_seq _ _ _ _ (inv_messages _ _ Hok) m Hmin) as (x & _ & Hb). injection Hm as _ Hm. lia. }
  split; simpl; try done.
  - destruct Hok as [IS IM IC ID]. split; simpl; try done.
    + apply ConInv_update; try done. intros c0 Hc0 Hk%has_key_true. destruct (inv_con _ _ IC c0 Hc0) as (? & ? & ? & x & Hx & Hb).
      simpl. split_and!; try done. exists x. split; [done|].
      assert (c0 = c) as -> by (eapply (key_unique ckey); eauto; [apply IC|unfold ckey in *; congruence]). lia.
    + apply (DelInv_delete _ _ _ gone) in ID as [Ik Ir Icon Imsg Ib]. split; try done.
      * intros r Hr. destruct (Icon r Hr) as (c0 & Hc0 & Hk & Hg & Hq).
        exists (if has_key ckey (s, n) c0 then set_cursor cursor c0 else c0).
        split; [apply elem_of_update; eauto|]. destruct (has_key ckey (s, n) c0) eqn:Hk0; [|done]. simpl.
        split_and!; try done. apply Hbelow; [done|]. apply has_key_true in Hk0. apply held_by_true. unfold ckey in *. split; congruence.
      * intros c0 (c1 & Hc1 & ->)%elem_of_update. specialize (Ib c1 Hc1). by destruct (has_key ckey (s, n) c1).
  - rewrite count_delete. rewrite (count_ext (fun r => gone r && held_by s n r) gone); [unfold over in *; lia|].
    intros r _. unfold gone. destruct (droppable s n r) eqn:Hd; [|done]. apply droppable_held in Hd. rewrite Hd.
    by destruct (bool_decide _).
  - intros Hpos r Hr. specialize (Hres Hpos). apply Hkept in Hr as Hr'. destruct Hr' as [Hr' Hlt].
    destruct (droppable s n r) eqn:Hd; [|done]. exfalso.
    assert (Hz : count (droppable s n) (delete_where gone (deliveries (w_db w))) = 0).
    { rewrite count_delete. rewrite (count_ext (fun r => gone r && droppable s n r) gone); [lia|].
      intros x _. unfold gone. destruct (droppable s n x); [|done]. by destruct (bool_decide _). }
    pose proof (count_pos _ _ _ Hr Hd). lia.
Qed.

Lemma shrinkDeliveries_wp s n bound c w :
  world_ok w -> fresh_last s n (deliveries (w_db w)) -> find_consumer s n (w_db w) = Some c ->
  wp (shrinkDeliveries s n bound) (fun over w' => exists cursor, shrunk s n bound over cursor w w')
     (fun _ _ => False) w.
Proof.
  intros Hok Hfresh Hc. unfold shrinkDeliveries. wp_steps.
  destruct (Z.leb_spec (count (held_by s n) (deliveries (w_db w))) bound) as [Hle|Hgt].
  { wp_steps. exists (c_cursor_seq c). apply shrunk_none; try done; lia. }
  wp_steps. set (free := count (droppable s n) (deliveries (w_db w))).
  set (excess := count (held_by s n) (deliveries (w_db w)) - bound).
  assert (Hdr : (if free <? excess then free else excess) = Z.min free excess) by (case_match; bool_prop; lia).
  rewrite Hdr. pose proof (count_nonneg (droppable s n) (deliveries (w_db w))) as Hfree.
  destruct (Z.eqb_spec (Z.min free excess) 0) as [Hz|Hnz].
  { wp_steps. exists (c_cursor_seq c). apply shrunk_none; try done; [unfold excess; lia|].
    intros _. apply count_0. unfold free, excess in *. lia. }
  destruct (shrink_split s n w (Z.min free excess) Hok ltac:(unfold free in *; lia)) as (low & high & lowest & Hsplit & Hk & Hlow & Hlim).
  wp_steps; [|unfold free in *; by rewrite Hlow]. intros x Hx.
  assert (x = lowest) as -> by (unfold free in *; congruence). wp_steps. rewrite Hlim.
  exists lowest. pose proof (count_gone s n w low high lowest Hok Hsplit) as Hgone. rewrite Hk in Hgone.
  assert (excess - Z.min free excess = count (held_by s n) (deliveries (w_db w)) - bound -
    count (fun r => droppable s n r && bool_decide (d_seq r ∈ reverse (lowest :: high))) (deliveries (w_db w))) as ->
    by (rewrite Hgone; unfold excess; lia).
  apply (shrunk_some s n bound lowest (reverse (lowest :: high)) c w); try done.
  - assert (Hin : lowest ∈ map d_seq (droppable_asc s n (w_db w))) by (rewrite Hsplit; apply elem_of_app; right; left).
    apply mapped_in in Hin as (r & -> & Hr). apply elem_of_order_by, elem_of_where in Hr as [? ?]. by exists r.
  - intros r Hr Hd. by eapply shrink_gone.
  - rewrite Hgone. unfold excess in *. lia.
  - rewrite Hgone. unfold excess, free in *. lia.
Qed.

(** The patch's bound is the one the shrink runs with. *)
Lemma patch_bound p i :
  if lowers p i then default 0 (cp_MaxAckPending p) = cc_MaxAckPending (applyConsumerPatch (InfoConfig i) p).1
  else ci_MaxAckPending i <= cc_MaxAckPending (applyConsumerPatch (InfoConfig i) p).1.
Proof. unfold lowers. simpl. destruct (cp_MaxAckPending p); simpl; [case_match; bool_prop; [done|lia]|lia]. Qed.

(** Storing a configuration whose bound the pending set fits keeps the invariant. *)
Lemma set_config_ok limits s n next w :
  world_ok w -> consumer_wf next limits ->
  (forall c, c ∈ consumers (w_db w) -> ckey c = (s, n) ->
     count (held_by s n) (deliveries (w_db w)) <= cc_MaxAckPending next) ->
  world_ok (World (on_consumers (update_where (has_key ckey (s, n)) (set_consumer_config next)) (w_db w)) (w_mem w)).
Proof.
  intros [IS IM IC ID] Hwf Hfit. split; simpl; try done.
  - apply ConInv_update; try done. intros c Hc Hk. destruct (inv_con _ _ IC c Hc) as (? & _ & _ & ?). simpl.
    split_and!; try done; [by apply Hwf|apply marshal_parses, Hwf].
  - destruct ID as [? ? Icon ? Ib]. split; try done.
    + intros r Hr. destruct (Icon r Hr) as (c & Hc & Hk & ?).
      exists (if has_key ckey (s, n) c then set_consumer_config next c else c). split; [apply elem_of_update; eauto|].
      by destruct (has_key ckey (s, n) c).
    + intros c (c0 & Hc0 & ->)%elem_of_update. specialize (Ib c0 Hc0). destruct (has_key ckey (s, n) c0) eqn:Hk; [|done].
      apply has_key_true in Hk. specialize (Hfit c0 Hc0 Hk). unfold ckey in Hk. simpl. injection Hk as -> ->. done.
Qed.

Lemma checkStart_wp s n start w :
  wp (checkStartImmutable s n start) (fun _ w' => w' = w) (fun e w' => w' = w /\ IsCmdError (maybeCmdErr e) = true) w.
Proof.
  unfold checkStartImmutable. wp_steps. destruct (meta_get _ _) as [r|]; [|done].
  by destruct (bool_decide (r = StartString start)).
Qed.

(** Both halves of a seek, before the write. *)
Lemma held_states stream name w :
  world_ok w ->
  count (fun r => held_by stream name r && (d_state r =? 0)) (deliveries (w_db w))
  + count (fun r => held_by stream name r && (d_state r =? 1)) (deliveries (w_db w))
  = count (held_by stream name) (deliveries (w_db w)).
Proof.
  intros Hok. pose proof (inv_del_row _ _ _ (inv_deliveries _ _ Hok)) as Hrow. revert Hrow.
  generalize (deliveries (w_db w)). intros l Hrow. induction l as [|r l IH]; [done|]. rewrite !count_cons.
  specialize (IH ltac:(intros; apply Hrow; set_solver)).
  destruct (Hrow r ltac:(left)) as [[-> _]|[-> _]]; destruct (held_by stream name r); simpl; lia.
Qed.

(** The dry run takes the same decisions. *)
Lemma seek_dry_run stream name to actor now w w' res evs :
  seekCmd stream name to false actor now w = (w', Ok (res, evs)) ->
  exists res', seekCmd stream name to true actor now w = (w, Ok (res', [])) /\ sk_Impact res' = sk_Impact res.
Proof.
  unfold seekCmd, mbind, tx_bind, marking, query_or, query, mret, tx_ret.
  destruct (find_consumer stream name (w_db w)) as [c|]; [|done].
  destruct (resolveStartPosition stream to now w) as [w1 [[target clamped]|e]] eqn:Hr; [|done].
  assert (w1 = w) as -> by (by apply resolve_pure in Hr). destruct clamped; [done|].
  destruct (streamBounds stream w) as [w2 [[first next]|e]] eqn:Hb; [|done].
  assert (w2 = w) as -> by (by apply bounds_pure in Hb). simpl.
  destruct (negb _); [done|]. intros [= _ <- _]. by eexists.
Qed.

(** A seek: the impact it reports, and what it leaves. *)
Lemma seekCmd_wp stream name to dryRun actor now w :
  world_ok w ->
  wp (seekCmd stream name to dryRun actor now)
     (fun '(res, _) w' => exists c, find_consumer stream name (w_db w) = Some c /\
        sk_CursorBefore (sk_Impact res) = c_cursor_seq c /\
        sk_PendingDropped (sk_Impact res) = count (held_by stream name) (deliveries (w_db w)) /\
        sk_Messages (sk_Impact res) = count (fun m => on_stream stream m && (sk_CursorAfter (sk_Impact res) <=? m_seq m)) (messages (w_db w)) /\
        (forall m, m ∈ messages (w_db w) -> m_stream m = stream ->
           (sk_CursorAfter (sk_Impact res) <= m_seq m <-> wanted to now m = true)) /\
        if dryRun : bool then w' = w
        else world_ok w' /\ messages (w_db w') = messages (w_db w) /\
          sk_Generation res = c_generation c + 1 /\
          deliveries (w_db w') = delete_where (held_by stream name) (deliveries (w_db w)) /\
          consumers (w_db w') = update_where (has_key ckey (stream, name))
            (move_cursor (sk_CursorAfter (sk_Impact res))) (consumers (w_db w)))
     (fun e w' => w' = w /\ IsCmdError e = true) w.
Proof.
  intros Hok. unfold seekCmd. wp_steps; [|done]. intros c Hc. wp_steps.
  eapply wp_mono; [by apply resolve_wp| |done]. intros [target clamped] w' (-> & next & Hn & Hb & Hsel).
  destruct clamped; [done|]. wp_steps. eapply wp_mono; [by apply streamBounds_wp| |].
  2: { intros e w' (_ & _ & Hno). congruence. }
  intros [first next'] w' (-> & _ & _ & _). wp_steps. rewrite held_states by done.
  destruct dryRun; wp_steps; [exists c; by split_and!|].
  rewrite Z.eqb_refl. simpl. wp_steps. exists c. split_and!; try done.
  apply Inv_events. destruct Hok as [IS IM IC ID]. split; simpl; try done.
  - apply ConInv_update; try done. intros c0 Hc0 Hk. destruct (inv_con _ _ IC c0 Hc0) as (? & ? & ? & _).
    simpl. split_and!; try done; [lia|]. exists next. apply has_key_true in Hk. injection Hk as -> _. done.
  - by apply DelInv_reset.
Qed.

End Facts.

(** ** Theorems *)

Section Theorems.
Context `{Ids}.

(** C26: A seek (T10) drops every pending row of the consumer, moves its cursor
    where the position says and raises its generation, so that it will redeliver
    exactly the stored messages the position asks for; other consumers, messages
    and the invariant are untouched; what it reports is what it does, and the dry
    run reports the same and changes nothing. *)
Theorem seek_effect stream name to actor now w :
  world_ok w ->
  wp (seekCmd stream name to false actor now)
     (fun '(res, _) w' => world_ok w' /\ messages (w_db w') = messages (w_db w) /\
        exists c, find_consumer stream name (w_db w) = Some c /\
          find_consumer stream name (w_db w') = Some (move_cursor (sk_CursorAfter (sk_Impact res)) c) /\
          deliveries (w_db w') = delete_where (held_by stream name) (deliveries (w_db w)) /\
          sk_PendingDropped (sk_Impact res) = count (held_by stream name) (deliveries (w_db w)) /\
          (forall m, m ∈ messages (w_db w) -> m_stream m = stream ->
             (sk_CursorAfter (sk_Impact res) <= m_seq m <-> wanted to now m = true)) /\
          exists res', seekCmd stream name to true actor now w = (w, Ok (res', [])) /\ sk_Impact res' = sk_Impact res)
     (fun e w' => w' = w /\ IsCmdError e = true) w.
Proof.
  intros Hok. unfold wp. destruct (seekCmd stream name to false actor now w) as [w' [[res evs]|e]] eqn:Hrun.
  2: { exact (wp_run_err _ _ _ _ _ _ (seekCmd_wp stream name to false actor now w Hok) Hrun). }
  destruct (wp_run _ _ _ _ _ _ (seekCmd_wp stream name to false actor now w Hok) Hrun)
    as (c & Hc & Hcur & Hdrop & Hmsgs & Hsel & Hok' & Hm & Hgen & Hd & Hcs).
  split; [done|]. split; [done|]. exists c. split_and!; try done.
  - unfold find_consumer. rewrite Hcs, (query_row_update ckey) by done. unfold find_consumer in Hc. rewrite Hc. simpl.
    apply query_row_Some in Hc as [-> _]. done.
  - by apply seek_dry_run in Hrun.
Qed.


(** A new consumer (issue 9): whatever its start position, an accepted
    configuration gives a consumer at generation 1 with nothing pending, that
    will be handed exactly the stored messages the position asks for; the
    invariant holds, and an answer that neither created nor updated changes
    nothing.  For a name that is free, the only refusal that is not a business
    rejection is a recorded start position left behind under the same name. *)
Lemma create_consumer_effect limits s cfg start actor now w :
  world_ok w -> consumer_wf cfg limits -> meta_get (metaReapPrefix +:+ s) (w_db w) = None ->
  wp (createConsumerCmd limits s cfg start actor now)
     (fun '(res, _) w' =>
        (cr_created res = true -> world_ok w' /\ count (held_by s (cc_Name cfg)) (deliveries (w_db w')) = 0 /\
           exists cursor, consumers (w_db w') = consumers (w_db w) ++ [consumer_row_of s cfg cursor (UnixMilli now)] /\
             meta_get (consumerStartKey s (cc_Name cfg)) (w_db w') = Some (StartString start) /\
             forall m, m ∈ messages (w_db w) -> m_stream m = s -> (cursor <= m_seq m <-> wanted start now m = true)) /\
        (cr_created res = false -> cr_updated res = false -> w' = w))
     (fun e _ => IsCmdError e = true \/ is_Some (meta_get (consumerStartKey s (cc_Name cfg)) (w_db w)) \/
        exists c, c ∈ consumers (w_db w) /\ c_stream c = s /\ fold_case (c_name c) = fold_case (cc_Name cfg)) w.
Proof.
  intros Hok Hwf Hreap. unfold createConsumerCmd, refuseDuringReap. wp_steps. rewrite Hreap. wp_steps; [intros st _|by left].
  wp_steps. destruct (query_row _ (consumers (w_db w))) as [c|] eqn:Hq.
  - assert (Hex : exists c, c ∈ consumers (w_db w) /\ c_stream c = s /\ fold_case (c_name c) = fold_case (cc_Name cfg)).
    { apply query_row_Some in Hq as [Hk%has_key_true Hin]. exists c. injection Hk. auto. }
    wp_steps. eapply wp_mono; [apply (checkStart_wp s (cc_Name cfg) start)| |by intros e w' [_ ?]; left].
    intros [] w' ->. destruct (consumerConfigDiff _ _) as [|f diff]; wp_steps; [by split|].
    unfold applyUpdate. wp_steps; [intros ? _|by auto]. wp_steps; [intros ? _|by auto]. wp_steps. by split.
  - assert (Hnew : (s, cc_Name cfg) ∉ map ckey (consumers (w_db w))).
    { intros (c & Hc & Hin)%mapped_in. apply (query_row_None _ _ _ Hq), bool_decide_eq_false in Hin.
      unfold ckey in Hc. injection Hc as Hs Hn. by rewrite <-Hs, <-Hn in Hin. }
    eapply wp_mono; [by eapply applyInsert_wp| |naive_solver].
    intros [res evs] w' (Hcr & Hok' & cursor & Hc & Hd & Hm & Hmeta & Hsel). split; [|congruence].
    intros _. split; [done|]. split; [|by exists cursor].
    rewrite Hd. eapply new_consumer_holds_nothing; [apply (inv_deliveries _ _ Hok)|done].
Qed.

(** Deleting a consumer removes its rows, its start record and nothing else,
    reports how many were pending and in flight, and keeps the invariant; the
    name is then free for a new consumer. *)
Lemma delete_consumer_effect s n actor now w :
  world_ok w ->
  wp (deleteConsumerCmd s n actor now)
     (fun '(pending, inflight, _) w' => world_ok w' /\ messages (w_db w') = messages (w_db w) /\
        find_consumer s n (w_db w') = None /\ meta_get (consumerStartKey s n) (w_db w') = None /\
        deliveries (w_db w') = delete_where (held_by s n) (deliveries (w_db w)) /\
        (forall c, c ∈ consumers (w_db w) -> ckey c <> (s, n) -> c ∈ consumers (w_db w')) /\
        pending = count (held_by s n) (deliveries (w_db w)) /\
        inflight = count (fun r => held_by s n r && (d_state r =? 1)) (deliveries (w_db w)))
     (fun e w' => w' = w /\ IsCmdError e = true) w.
Proof.
  intros Hok. unfold deleteConsumerCmd. wp_steps; [|done]. intros c Hc. wp_steps.
  unfold forget_flow, wp at 1. wp_steps. split_and!; try done.
  - apply Inv_events. destruct Hok as [IS IM IC ID]. split; simpl; try done; [by apply ConInv_delete|].
    pose proof ID as HD. apply (DelInv_delete _ _ _ (held_by s n)) in HD as [? ? Icon ? Ib]. split; try done.
    + intros r Hr. destruct (Icon r Hr) as (c0 & Hc0 & Hk & ?). exists c0. split; [|done].
      apply elem_of_delete. split; [|done]. apply bool_decide_eq_false. rewrite Hk. intros [= Hs Hn].
      apply elem_of_delete in Hr as [Hno _]. apply not_true_iff_false in Hno. by apply Hno, held_by_true.
    + intros c0 [_ Hc0]%elem_of_delete. auto.
  - unfold find_consumer. simpl. by rewrite query_row_deleted.
  - apply meta_get_del.
  - intros c0 Hc0 Hne. apply elem_of_delete. split; [|done]. by apply bool_decide_eq_false.
  - pose proof (inv_del_row _ _ _ (inv_deliveries _ _ Hok)) as Hrow. revert Hrow. generalize (deliveries (w_db w)).
    intros l Hrow. induction l as [|r l IH]; [done|]. rewrite count_cons, sum_of_cons, IH by (intros; apply Hrow; set_solver).
    destruct (Hrow r ltac:(left)) as [[-> _]|[-> _]]; by destruct (held_by s n r).
Qed.

End Theorems.

Section Fencing.
Context `{Ids} `{!FreshIds} (env : StoreSettle.SettleEnv).

(** A seek fences every token handed out before it (I7): in any later state
    where the consumer still has at least the generation the seek gave it, a
    batch of tokens of an earlier generation leaves the pending set as it is. *)
Lemma seek_fences_tokens s n to actor now w w1 c res evs items now2 w2 w3 sres c2 :
  world_ok w -> find_consumer s n (w_db w) = Some c ->
  seekCmd s n to false actor now w = (w1, Ok (res, evs)) ->
  Forall (fun it => Token.Stream (StoreSettle.si_Token it) = s /\ Token.Consumer (StoreSettle.si_Token it) = n /\
            Token.Generation (StoreSettle.si_Token it) <= c_generation c) items ->
  world_ok w2 -> find_consumer s n (w_db w2) = Some c2 -> sk_Generation res <= c_generation c2 ->
  StoreSettle.SettleCmd env items now2 w2 = (w3, Ok sres) ->
  deliveries (w_db w3) = deliveries (w_db w2).
Proof.
  intros Hok Hc Hseek Hitems Hok2 Hc2 Hgen Hset.
  destruct (wp_run _ _ _ _ _ _ (seekCmd_wp s n to false actor now w Hok) Hseek) as (c0 & Hc0 & _ & _ & _ & _ & _ & _ & Hg & _).
  assert (c0 = c) as -> by congruence.
  destruct (wp_run _ _ _ _ _ _ (StoreSettle.SettleCmd_any env items now2 w2 Hok2) Hset) as [_ (f & -> & Hf & _)].
  apply omap_id. intros r Hr. apply Hf. intros tok (it & -> & Hit)%mapped_in. apply not_true_is_false.
  intros (Hk & _ & Hgr)%StoreSettle.fence_true. rewrite Forall_forall in Hitems. destruct (Hitems it Hit) as (Hs & Hn & Hle).
  destruct (Fetch.find_consumer_ok _ _ _ _ Hok2 Hc2) as (Hin & Hcs & Hcn).
  destruct (DelInv_consumer _ _ _ r c2 (inv_con_key _ _ (inv_consumers _ _ Hok2)) (inv_deliveries _ _ Hok2) Hr Hin) as [Hrg _].
  - unfold dkey in Hk. unfold ckey. injection Hk. congruence.
  - lia.
Qed.

End Fencing.

(** ** Samples *)

Import Samples.

Definition from_first : StartPosition := MkStartPosition StartFirst 0 0 0.
Definition from_two : StartPosition := MkStartPosition StartSeq 2 0 0.

Lemma seek_effect_witness :
  exists w' res evs, seekCmd "orders" "billing" from_first false "ops" 9000000 Fetch.after_fetch = (w', Ok (res, evs)) /\
    world_ok w' /\ sk_PendingDropped (sk_Impact res) = 1.
Proof.
  destruct (ran (seekCmd "orders" "billing" from_first false "ops" 9000000 Fetch.after_fetch) ltac:(vm_compute; reflexivity))
    as (w' & [res evs] & Hrun).
  exists w', res, evs. split; [exact Hrun|].
  pose proof (wp_run _ _ _ _ _ _ (seek_effect "orders" "billing" from_first "ops" 9000000 Fetch.after_fetch Fetch.after_fetch_ok) Hrun)
    as (Hok & _ & c & _ & _ & _ & Hdrop & _).
  split; [exact Hok|]. rewrite Hdrop. vm_compute. reflexivity.
Defined.

Definition lower_bound : ConsumerPatch := MkConsumerPatch None None None (Some 1) None None.

Definition billing_fresh : Prop := fresh_last "orders" "billing" (deliveries (w_db Fetch.after_fetch)).

Lemma after_fetch_fresh : billing_fresh.
Proof.
  unfold billing_fresh, fresh_last. intros r r' Hr Hr' _ Hd _. exfalso. revert Hd. apply not_true_iff_false.
  vm_compute in Hr. apply list_elem_of_singleton in Hr as ->. reflexivity.
Qed.


Definition audit : ConsumerConfig := DefaultConsumerConfig "audit".

Lemma audit_wf : consumer_wf audit DefaultConsumerLimits.
Proof. eapply ValidateConsumerConfig_wf. vm_compute. reflexivity. Qed.

(** The consumer a seek leaves carries the generation it reports. *)
Definition seek_current (r : world * result (SeekResult * list event)) : bool :=
  match r with
  | (w1, Ok (res, _)) => match find_consumer "orders" "billing" (w_db w1) with
                         | Some c2 => sk_Generation res <=? c_generation c2
                         | None => false
                         end
  | _ => false
  end.

Lemma seek_current_spec w1 res evs :
  seek_current (w1, Ok (res, evs)) = true ->
  exists c2, find_consumer "orders" "billing" (w_db w1) = Some c2 /\ sk_Generation res <= c_generation c2.
Proof. simpl. destruct (find_consumer _ _ _) as [c2|]; [|done]. rewrite Z.leb_le. eauto. Qed.

(** The token of the fetched order, settled after a seek. *)
(** ** Two names that outlive their consumer *)

(** The start record of a consumer survives the deletion of its stream: after
    the stream is deleted and created again, the consumer is gone but creating
    it fails on the record's key, with an error that is not a business rejection
    and so dooms the batch it rides in. *)
Lemma recreated_consumer_refused :
  let create w := createConsumerCmd DefaultConsumerLimits "orders" audit from_first "ops" 9000000 w in
  let w1 := fst (create base) in
  let w2 := fst (DeleteStream 1 "orders" "orders" "ops" 9000000 w1) in
  let w3 := fst (CreateStream DefaultLimits (DefaultConfig "orders") "ops" 9000000 w2) in
  is_Some (find_stream "orders" (w_db w3)) /\ find_consumer "orders" "audit" (w_db w3) = None /\
  exists e, snd (create w3) = Err e /\ IsCmdError e = false.
Proof.
  cbv zeta. split; [|split].
  - eexists. vm_compute. reflexivity.
  - vm_compute. reflexivity.
  - exists (Plain "insert meta row"). split; vm_compute; reflexivity.
Qed.

(** A create that names an existing consumer in another case is answered as an
    update, with its event, and changes no consumer: the lookup folds case, the
    UPDATE does not. *)
Lemma case_variant_update_lost :
  let cfg := DefaultConsumerConfig "Billing" in
  exists w' res ev, createConsumerCmd DefaultConsumerLimits "orders" cfg from_first "ops" 9000000 base = (w', Ok (res, [ev])) /\
    cr_updated res = true /\ ev_consumer ev = Some "Billing" /\
    consumers (w_db w') = consumers (w_db base) /\ find_consumer "orders" "Billing" (w_db w') = None.
Proof. cbv zeta. eexists _, _, _. split; [vm_compute; reflexivity|]. vm_compute. split_and!; reflexivity. Qed.

End ConsumerAdmin.
