(* ===== verification/Flags.v ===== *)
(** * Flag values and the texts the commands parse

    Translation of [internal/cli/flagx] (the flag values every command shares),
    of the start-position grammar of [internal/queue/consumer.go]
    ([ParseStartPosition], the other half of [StartPosition.String]) and of
    [store.ParseSince].  The theorems are the round trips the comments promise:
    what [String] prints, [Set] reads back. *)

From S2P Require Import Prelude GoText TextFields Durations Subject Sql Db ConsumerAdmin.
Import Start.

(** ** duration.go *)

Definition day : Z := 24 * Hour.
Definition maxDays : Z := max_int64 / day.

Definition Duration_Set (s : string) : result Z :=
  if has_suffix "d" s then
    match atoi (take_str (String.length s - 1) s) with
    | Some n => if (n <? 0) || (maxDays <? n) then Err (E ErrBadRequest "days") else Ok (n * day)
    | None => Err (E ErrBadRequest "days")
    end
  else match ParseDuration s with
       | None => Err (E ErrBadRequest "not a duration")
       | Some v => if v <? 0 then Err (E ErrBadRequest "negative") else Ok v
       end.

Definition Duration_String (d : Z) : string := duration_string d.

Definition Duration_Millis (d : Z) : Z := Z.quot d Millisecond.

(** ** bytes.go *)

(** [strings.ToLower], as far as a comparison with an ASCII text can tell: the
    ASCII capitals, and the two other runes whose lower case is ASCII (the
    Kelvin sign and the dotted capital I). *)
Definition ToLower (s : string) : string :=
  unchunk (map (fun c => (c.1, if c.1 =? 8490 then "k" else if c.1 =? 304 then "i" else fold_case c.2)) (chunks s)).

Definition byteUnits (u : string) : option Z :=
  if bool_decide (u = "kib") then Some (2 ^ 10) else if bool_decide (u = "mib") then Some (2 ^ 20)
  else if bool_decide (u = "gib") then Some (2 ^ 30) else if bool_decide (u = "tib") then Some (2 ^ 40)
  else if bool_decide (u = "pib") then Some (2 ^ 50) else if bool_decide (u = "kb") then Some (10 ^ 3)
  else if bool_decide (u = "mb") then Some (10 ^ 6) else if bool_decide (u = "gb") then Some (10 ^ 9)
  else if bool_decide (u = "tb") then Some (10 ^ 12) else if bool_decide (u = "pb") then Some (10 ^ 15)
  else None.

Definition Bytes_Set (s : string) : result Z :=
  let num := span_digits s in
  let unit := ToLower (drop_str (String.length num) s) in
  if bool_decide (num = "") then Err (E ErrBadRequest "not a number")
  else match atoi num with
       | None => Err (E ErrBadRequest "does not fit in 64 bits")
       | Some v =>
           match (if bool_decide (unit = "") then Some 1 else byteUnits unit) with
           | None => Err (E ErrBadRequest "unknown unit")
           | Some mult =>
               if (0 <? v) && (0 <? mult) && (max_int64 / mult <? v) then Err (E ErrBadRequest "overflows")
               else Ok (wrap64 (v * mult))
           end
       end.

Definition Bytes_String (b : Z) : string := format_int b.

(** ** backoff.go *)

Fixpoint backoff_entries (parts : list string) : result (list Z) :=
  match parts with
  | [] => Ok []
  | p :: parts' =>
      match Duration_Set p with
      | Err _ => Err (E ErrBadRequest "backoff entry")
      | Ok d =>
          if d =? 0 then Err (E ErrBadRequest "backoff entry is zero")
          else
            let? out := backoff_entries parts' in
            Ok (d :: out)
      end
  end.

Definition Backoff_Set (s : string) : result (list Z) := backoff_entries (split_on "," s).
Definition Backoff_String (b : list Z) : string := join_with "," (map duration_string b).
Definition Backoff_Millis (b : list Z) : list Z := map (fun d => Z.quot d Millisecond) b.

(** ** headers.go, patterns.go *)

Definition hasControlByte (s : string) : bool :=
  negb (all_bytes (fun c => negb ((byte_z c <? 32) || (byte_z c =? 127))) s).

Definition Headers_Set (h : list (string * string)) (s : string) : result (list (string * string)) :=
  match cut "=" s with
  | None => Err (E ErrBadRequest "not KEY=VALUE")
  | Some (key, val) =>
      if bool_decide (key = "") then Err (E ErrBadRequest "empty key")
      else if has_prefix "messq-" (ToLower key) then Err (E ErrBadRequest "reserved prefix")
      else if hasControlByte key then Err (E ErrBadRequest "control character in key")
      else if hasControlByte val then Err (E ErrBadRequest "control character in value")
      else Ok (h ++ [(key, val)])
  end.

Definition Patterns_Set (p : list string) (s : string) : result (list string) :=
  match Subject.ParsePattern s with
  | Err _ => Err (E ErrBadRequest "pattern")
  | Ok _ => Ok (p ++ [s])
  end.

(** ** queue/consumer.go: ParseStartPosition; flagx/position.go *)

Definition zero_position (kind : string) : StartPosition := MkStartPosition kind 0 0 0.

Definition parse_start_time (rest : string) : result StartPosition :=
  if (1 <? slen rest) && has_prefix "-" rest then
    match ParseDuration rest with
    | Some d => if 0 <=? d then Err (E ErrBadRequest "relative time") else Ok (MkStartPosition StartTime 0 0 d)
    | None => Err (E ErrBadRequest "relative time")
    end
  else match parse_rfc3339 rest with
       | Some ts =>
           let ms := UnixMilli ts in
           if ms <? 0 then Err (E ErrBadRequest "predates the epoch") else Ok (MkStartPosition StartTime 0 ms 0)
       | None =>
           match atoi rest with
           | Some n => if n <? 0 then Err (E ErrBadRequest "start") else Ok (MkStartPosition StartTime 0 n 0)
           | None => Err (E ErrBadRequest "start")
           end
       end.

Definition ParseStartPosition (s : string) : result StartPosition :=
  if bool_decide (s = "first") || bool_decide (s = "start") then Ok (zero_position StartFirst)
  else if bool_decide (s = "new") then Ok (zero_position StartNew)
  else if bool_decide (s = "") then Err (E ErrBadRequest "start is required")
  else if has_prefix "seq:" s then
    match atoi (drop_str 4 s) with
    | Some n => if n <? 0 then Err (E ErrBadRequest "sequence number") else Ok (MkStartPosition StartSeq n 0 0)
    | None => Err (E ErrBadRequest "sequence number")
    end
  else if has_prefix "time:" s then parse_start_time (drop_str 5 s)
  else Err (E ErrBadRequest "start").

Definition Position_Set (s : string) : result StartPosition :=
  match ParseStartPosition s with
  | Ok sp => Ok sp
  | Err _ => Err (E ErrBadRequest "flagx.Position.Set")
  end.

(** ** store/events.go: ParseSince *)

Definition ParseSince (spec : string) (nowMS : Z) : result Z :=
  let spec := TrimSpace spec in
  match spec with
  | EmptyString => Ok 0
  | String c _ =>
      if (byte_z c =? 45) || (byte_z c =? 43) then
        match ParseDuration spec with
        | None => Err (E ErrBadRequest "not a relative duration")
        | Some d => Ok (wrap64 (nowMS + Milliseconds d))
        end
      else match parse_rfc3339 spec with
           | Some t => Ok (UnixMilli t)
           | None => match atoi spec with
                     | Some ms => Ok ms
                     | None => Err (E ErrBadRequest "since")
                     end
           end
  end.

(** ** Lemmas: printed integers *)

(** The magnitude [atoi] reads after a sign. *)
Definition magnitude (s : string) : option Z :=
  if all_bytes is_digit s && negb (bool_decide (s = "")) then Some (dec_val 0 s) else None.

Definition bounded (hi : Z) (m : option Z) : option Z := n ← m; if n <=? hi then Some n else None.

Lemma atoi_unsigned c s :
  c <> "-"%char -> c <> "+"%char -> atoi (String c s) = bounded max_int64 (magnitude (String c s)).
Proof. intros Hm Hp. destruct c as [[] [] [] [] [] [] [] []]; done. Qed.

Lemma atoi_plus s : atoi (String "+" s) = bounded max_int64 (magnitude s).
Proof. done. Qed.

Lemma atoi_minus s : atoi (String "-" s) = Z.opp <$> bounded (max_int64 + 1) (magnitude s).
Proof.
  change (atoi (String "-" s)) with (n ← magnitude s; if n <=? max_int64 + 1 then Some (- n) else None).
  unfold bounded. destruct (magnitude s) as [n|]; [|done]. cbn. by case_match.
Qed.

Lemma bounded_magnitude hi s n : bounded hi (magnitude s) = Some n -> 0 <= n <= hi.
Proof.
  unfold bounded, magnitude. destruct (all_bytes is_digit s) eqn:Hd; [|done].
  destruct (negb (bool_decide (s = ""))); [|done]. cbn. case_match; [|done]. intros [= <-].
  bool_prop. split; [by apply dec_val_ge|done].
Qed.

Lemma atoi_digits s :
  s <> "" -> all_bytes is_digit s = true ->
  atoi s = if dec_val 0 s <=? max_int64 then Some (dec_val 0 s) else None.
Proof.
  intros Hne Hd. destruct s as [|c s]; [done|].
  rewrite atoi_unsigned; [|intros ->; done..]. unfold magnitude. by rewrite Hd, bool_decide_eq_false_2.
Qed.

Lemma atoi_format n : 0 <= n <= max_int64 -> atoi (format_int n) = Some n.
Proof.
  intros Hn. unfold format_int. rewrite (proj2 (Z.ltb_ge _ _)) by lia.
  rewrite atoi_digits; [|apply (format_digits_not_empty 19)|by apply format_digits_digits; lia].
  assert (dec_val 0 (format_uint n) = n) as -> by (apply format_digits_val; unfold max_int64 in Hn; lia).
  by rewrite (proj2 (Z.leb_le _ _)) by lia.
Qed.

Lemma atoi_range s n : atoi s = Some n -> - 2 ^ 63 <= n <= max_int64.
Proof.
  destruct s as [|c s]; [done|]. assert (max_int64 + 1 = 2 ^ 63) by done.
  destruct (decide (c = "-"%char)) as [->|Hm].
  { rewrite atoi_minus. intros (m & ?%bounded_magnitude & ->)%fmap_Some. lia. }
  destruct (decide (c = "+"%char)) as [->|Hp];
    rewrite ?atoi_plus, ?atoi_unsigned by done; intros ?%bounded_magnitude; lia.
Qed.

(** ** Durations, sizes and schedules *)

Lemma tail_app x b c : (exists a, b = a +:+ c) -> exists a, x +:+ b = a +:+ c.
Proof. intros [a ->]. exists (x +:+ a). by rewrite sapp_assoc. Qed.

Lemma duration_string_tail d : exists a, duration_string d = a +:+ "s".
Proof.
  assert (forall u, exists a, duration_abs u = a +:+ "s") as H.
  { intros u. unfold duration_abs. destruct (u =? 0); [by exists "0"|].
    destruct (u <? 1000); [apply tail_app; by exists "n"|].
    destruct (u <? Millisecond); [do 2 apply tail_app; by exists (String "194" (String "181" ""))|].
    destruct (u <? Second); [do 2 apply tail_app; by exists "m"|]. do 4 apply tail_app. by exists "". }
  unfold duration_string. case_match; [|done]. destruct (H (- d)) as [a ->]. by exists (String "-" a).
Qed.

Lemma has_suffix_last a c d : has_suffix (String c "") (a +:+ String d "") = true -> c = d.
Proof.
  intros [t Ht]%has_suffix_spec. revert t Ht. induction a as [|x a IH]; intros [|y t] Ht; simpl in Ht; simplify_eq; eauto.
  - by destruct t.
  - by destruct a.
Qed.

Lemma Duration_roundtrip d : 0 <= d < 2 ^ 63 -> Duration_Set (Duration_String d) = Ok d.
Proof.
  intros Hd. unfold Duration_Set, Duration_String. destruct (has_suffix "d" (duration_string d)) eqn:Hs.
  - destruct (duration_string_tail d) as [a Ha]. rewrite Ha in Hs. by apply has_suffix_last in Hs.
  - rewrite duration_roundtrip by lia. by rewrite (proj2 (Z.ltb_ge _ _)) by lia.
Qed.

(** What [Set] accepts is a non-negative duration int64 holds. *)
Lemma Duration_Set_days n : 0 <= n <= maxDays -> 0 <= n * day <= max_int64.
Proof.
  intros H. assert (0 < day) by done. pose proof (Z.mul_div_le max_int64 day ltac:(done)).
  unfold maxDays in H. nia.
Qed.

Lemma Bytes_Set_exact s b :
  Bytes_Set s = Ok b ->
  exists v mult, atoi (span_digits s) = Some v /\ 0 < mult /\ b = v * mult /\ 0 <= b <= max_int64.
Proof.
  unfold Bytes_Set. case_bool_decide as Hne; [done|].
  assert (all_bytes is_digit (span_digits s) = true) as Hd.
  { clear. induction s as [|c s IH]; [done|]. simpl. destruct (is_digit c) eqn:Hc; [|done]. simpl. by rewrite Hc. }
  destruct (atoi (span_digits s)) as [v|] eqn:Ha; [|done].
  assert (0 <= v).
  { rewrite atoi_digits in Ha by done. case_match; [|done]. simplify_eq. by apply dec_val_ge. }
  pose proof (atoi_range _ _ Ha) as Hr.
  destruct (if bool_decide _ then _ else _) as [mult|] eqn:Hu; [|done].
  assert (0 < mult <= 2 ^ 50) as Hm.
  { unfold byteUnits in Hu. repeat (case_bool_decide; [simplify_eq; lia|]). done. }
  destruct ((0 <? v) && (0 <? mult) && (max_int64 / mult <? v)) eqn:Ho; [done|]. intros [= <-].
  exists v, mult. assert (0 <= v * mult <= max_int64) as Hb.
  { split; [nia|]. destruct (decide (v = 0)) as [->|]; [unfold max_int64; lia|].
    rewrite (proj2 (Z.ltb_lt 0 v)), (proj2 (Z.ltb_lt 0 mult)) in Ho by lia. cbn [andb] in Ho. bool_prop.
    assert (mult * (max_int64 / mult) <= max_int64) by (apply Z.mul_div_le; lia). nia. }
  unfold max_int64 in Hb. rewrite wrap64_id by lia. split_and!; [done|lia|done|lia|unfold max_int64; lia].
Qed.

Lemma drop_str_all s : drop_str (String.length s) s = "".
Proof. induction s; simpl; auto. Qed.

Lemma Bytes_roundtrip b : 0 <= b <= max_int64 -> Bytes_Set (Bytes_String b) = Ok b.
Proof.
  intros Hb. pose proof (atoi_format b Hb) as Ha. unfold Bytes_Set, Bytes_String, format_int in *.
  rewrite (proj2 (Z.ltb_ge _ _)) in * by lia.
  rewrite span_digits_all by (by apply format_digits_digits; lia). rewrite drop_str_all.
  change (ToLower "") with "". rewrite bool_decide_eq_false_2 by apply (format_digits_not_empty 19).
  rewrite Ha, bool_decide_eq_true_2 by done. unfold max_int64 in Hb.
  assert ((0 <? b) && (0 <? 1) && (max_int64 / 1 <? b) = false) as ->.
  { rewrite Z.div_1_r. rewrite (proj2 (Z.ltb_ge max_int64 b)) by (unfold max_int64; lia). apply andb_false_r. }
  by rewrite Z.mul_1_r, wrap64_id by lia.
Qed.

Lemma frac_part_bytes c prec v : is_digit c = false -> c <> "."%char -> 0 <= v -> has_byte c (frac_part prec v) = false.
Proof.
  intros Hc Hp Hv. unfold frac_part. set (t := pad_zeros _ _).
  assert (all_bytes is_digit (drop_zeros t) = true) as Hd.
  { destruct (drop_zeros_spec t) as (j & _ & _ & Hd). apply Hd, pad_zeros_digits. by apply format_digits_digits. }
  apply (all_bytes_no_byte _ c) in Hd; [|done].
  destruct (drop_zeros t); [done|]. cbn [has_byte] in *. rewrite Hd. by rewrite bool_decide_eq_false_2 by congruence.
Qed.

Lemma no_byte_sapp c a b : has_byte c a = false -> has_byte c b = false -> has_byte c (a +:+ b) = false.
Proof. intros Ha Hb. by rewrite has_byte_app, Ha, Hb. Qed.

(** A printed duration has no comma. *)
Lemma duration_string_no_comma d : - 2 ^ 63 <= d -> has_byte "," (duration_string d) = false.
Proof.
  assert (forall u, 0 <= u -> has_byte "," (duration_abs u) = false) as H.
  { intros u Hu. pose proof (fun n => format_uint_no_byte "," n eq_refl) as Hf.
    pose proof (fun p v => frac_part_bytes "," p v eq_refl ltac:(done)) as Hp.
    assert (forall a b, 0 < b -> 0 <= a -> 0 <= a / b /\ 0 <= a mod b) as Hdm.
    { intros a b Hb Ha. split; [by apply Z.div_pos|by apply Z.mod_pos_bound]. }
    assert (0 <= u / Second) by (by apply Hdm). assert (0 <= u / Second / 60) by (by apply Hdm).
    unfold duration_abs. repeat case_match; try done; repeat apply no_byte_sapp; try done;
      try (apply Hf || apply Hp); try done; by apply Hdm. }
  intros Hd. unfold duration_string. destruct (d <? 0) eqn:Hn; bool_prop; cbn [has_byte].
  - rewrite H by lia. by rewrite bool_decide_eq_false_2.
  - apply H. lia.
Qed.

Lemma backoff_entries_printed b :
  Forall (fun d => 0 < d < 2 ^ 63) b -> backoff_entries (map duration_string b) = Ok b.
Proof.
  induction 1 as [|d b Hd Hb IH]; [done|]. cbn [map backoff_entries].
  change (duration_string d) with (Duration_String d). rewrite Duration_roundtrip by lia.
  rewrite (proj2 (Z.eqb_neq _ _)) by lia. by rewrite IH.
Qed.

Lemma Backoff_roundtrip b :
  b <> [] -> Forall (fun d => 0 < d < 2 ^ 63) b -> Backoff_Set (Backoff_String b) = Ok b.
Proof.
  intros Hne Hb. unfold Backoff_Set, Backoff_String. rewrite split_join; [by apply backoff_entries_printed|by destruct b|].
  apply Forall_map. eapply Forall_impl; [exact Hb|]. intros d [Hd _]. apply duration_string_no_comma. lia.
Qed.

(** The flag values round trip.  What [String] prints of a duration, a byte
    size or a retry schedule, [Set] reads back to the same value, over the
    whole range each type has (an int64 that is not negative; a non-empty list
    of strictly positive durations), and a byte size that [Set] accepts is the
    number times its unit, never a wrapped product. *)
Theorem flag_values_roundtrip (d b : Z) (schedule : list Z) (s : string) :
  0 <= d < 2 ^ 63 -> 0 <= b < 2 ^ 63 -> schedule <> [] -> Forall (fun x => 0 < x < 2 ^ 63) schedule ->
  Duration_Set (Duration_String d) = Ok d /\ Bytes_Set (Bytes_String b) = Ok b /\
  Backoff_Set (Backoff_String schedule) = Ok schedule /\
  (forall n, Bytes_Set s = Ok n ->
     exists v mult, atoi (span_digits s) = Some v /\ 0 < mult /\ n = v * mult /\ 0 <= n < 2 ^ 63).
Proof.
  intros Hd Hb Hne Hs. split_and!; [by apply Duration_roundtrip| |by apply Backoff_roundtrip|].
  - apply Bytes_roundtrip. unfold max_int64. lia.
  - intros n (v & mult & Ha & Hm & -> & Hr)%Bytes_Set_exact. exists v, mult. unfold max_int64 in Hr. split_and!; [done|done|done|lia|lia].
Qed.

Lemma flag_values_roundtrip_witness :
  Duration_Set (Duration_String 5400000000001) = Ok 5400000000001 /\ Bytes_Set (Bytes_String 1048576) = Ok 1048576 /\
  Backoff_Set (Backoff_String [Second; 5 * Second; 30 * Second]) = Ok [Second; 5 * Second; 30 * Second] /\
  (forall n, Bytes_Set "64KiB" = Ok n ->
     exists v mult, atoi (span_digits "64KiB") = Some v /\ 0 < mult /\ n = v * mult /\ 0 <= n < 2 ^ 63).
Proof.
  apply flag_values_roundtrip; [lia|lia|discriminate|].
  repeat (apply Forall_cons; split; [vm_compute; split; reflexivity|]). apply Forall_nil. exact I.
Defined.

(** ** Start positions *)

Lemma getnum_range fixed s n r :
  getnum fixed s = Some (n, r) -> 0 <= n <= 99 /\ (all_bytes is_digit s = true -> all_bytes is_digit r = true).
Proof.
  unfold getnum. destruct s as [|a [|b s]]; [done| |].
  - destruct (is_digit a) eqn:Ha, fixed; try done. intros [= <- <-]. pose proof (is_digit_range _ Ha). split; [lia|done].
  - destruct (is_digit a) eqn:Ha; [|done]. cbn [negb]. pose proof (is_digit_range _ Ha).
    destruct (is_digit b) eqn:Hb.
    + intros [= <- <-]. pose proof (is_digit_range _ Hb). split; [lia|]. cbn [all_bytes]. by rewrite Ha, Hb.
    + destruct fixed; [done|]. intros [= <- <-]. split; [lia|]. cbn [all_bytes]. by rewrite Ha.
Qed.

(** A number is not an RFC 3339 instant. *)
Lemma rfc3339_digits s : all_bytes is_digit s = true -> parse_rfc3339 s = None.
Proof.
  intros Hd. unfold parse_rfc3339.
  destruct (getnum true s) as [[y1 s1]|] eqn:H1; [|done]. cbn [mbind option_bind].
  apply getnum_range in H1 as [_ H1]. specialize (H1 Hd).
  destruct (getnum true s1) as [[y2 s2]|] eqn:H2; [|done]. cbn [mbind option_bind].
  apply getnum_range in H2 as [_ H2]. specialize (H2 H1).
  destruct s2 as [|c s2]; [done|]. cbn [all_bytes] in H2. apply andb_true_iff in H2 as [Hc _].
  cbn [skip_byte]. by rewrite bool_decide_eq_false_2 by (intros ->; done).
Qed.

Lemma daysIn_range m y : 28 <= daysIn m y <= 31.
Proof. unfold daysIn. repeat case_match; lia. Qed.

Lemma days_before_month_range m y : 1 <= m <= 12 -> 0 <= days_before_month m y <= 341.
Proof.
  intros Hm. unfold days_before_month. split.
  - apply sumZ_nonneg, Forall_map, Forall_forall. intros k _. pose proof (daysIn_range (Z.of_nat k) y). simpl. lia.
  - etrans; [apply (sumZ_bound _ 31)|].
    + apply Forall_map, Forall_forall. intros k _. pose proof (daysIn_range (Z.of_nat k) y). simpl. lia.
    + rewrite length_map, length_seq. lia.
Qed.

Lemma frac_nanos_range k s : 0 <= frac_nanos k s < 10 ^ Z.of_nat k.
Proof.
  revert s; induction k as [|k IH]; intros s; [destruct s; simpl; lia|].
  destruct s as [|c s]; cbn [frac_nanos]; [apply conj; [lia|apply Z.pow_pos_nonneg; lia]|].
  rewrite Nat2Z.inj_succ, Z.pow_succ_r by lia. specialize (IH s).
  assert (0 < 10 ^ Z.of_nat k) by (apply Z.pow_pos_nonneg; lia).
  destruct (is_digit c) eqn:Hc; [|lia]. pose proof (is_digit_range _ Hc). nia.
Qed.

Lemma parse_zone_range s off r : parse_zone s = Some (off, r) -> - 400000 <= off <= 400000.
Proof.
  destruct s as [|c s]; [done|]. cbn [parse_zone]. destruct (byte_z c =? 90); [intros [= <- _]; lia|].
  destruct s as [|h1 [|h2 [|x [|m1 [|m2 s]]]]]; try done. destruct (byte_z x =? 58); [|done]. cbn [negb].
  destruct (getnum true (String h1 _)) as [[hr ?]|] eqn:Ha; [|done]. apply getnum_range in Ha as [Ha _].
  destruct (getnum true (String m1 _)) as [[mm ?]|] eqn:Hb; [|done]. apply getnum_range in Hb as [Hb _].
  cbn [mbind option_bind]. destruct ((24 <? hr) || (60 <? mm)); [done|].
  destruct (byte_z c =? 43); [intros [= <- _]; lia|]. destruct (byte_z c =? 45); [intros [= <- _]; lia|done].
Qed.

(** An RFC 3339 instant has a year of four digits, so its milliseconds fit. *)
Lemma rfc3339_bound s t : parse_rfc3339 s = Some t -> UnixMilli t <= max_int64.
Proof.
  unfold parse_rfc3339.
  destruct (getnum true s) as [[y1 s1]|] eqn:H1; [|done]. cbn [mbind option_bind]. apply getnum_range in H1 as [H1 _].
  destruct (getnum true s1) as [[y2 s2]|] eqn:H2; [|done]. cbn [mbind option_bind]. apply getnum_range in H2 as [H2 _].
  destruct (skip_byte "-" s2) as [s3|]; [|done]. cbn [mbind option_bind].
  destruct (getnum true s3) as [[mo s4]|]; [|done]. cbn [mbind option_bind].
  destruct ((mo <=? 0) || (12 <? mo)) eqn:Hmo; [done|].
  apply orb_false_iff in Hmo as [Hmo1%Z.leb_gt Hmo2%Z.ltb_ge].
  destruct (skip_byte "-" s4) as [s5|]; [|done]. cbn [mbind option_bind].
  destruct (getnum true s5) as [[d s6]|] eqn:H3; [|done]. cbn [mbind option_bind]. apply getnum_range in H3 as [H3 _].
  destruct (skip_byte "T" s6) as [s7|]; [|done]. cbn [mbind option_bind].
  destruct (getnum false s7) as [[h s8]|] eqn:H4; [|done]. cbn [mbind option_bind]. apply getnum_range in H4 as [H4 _].
  destruct (24 <=? h); [done|]. destruct (skip_byte ":" s8) as [s9|]; [|done]. cbn [mbind option_bind].
  destruct (getnum true s9) as [[mi s10]|] eqn:H5; [|done]. cbn [mbind option_bind]. apply getnum_range in H5 as [H5 _].
  destruct (60 <=? mi); [done|]. destruct (skip_byte ":" s10) as [s11|]; [|done]. cbn [mbind option_bind].
  destruct (getnum true s11) as [[se s12]|] eqn:H6; [|done]. cbn [mbind option_bind]. apply getnum_range in H6 as [H6 _].
  destruct (60 <=? se); [done|]. destruct (parse_fraction s12) as [ns s13] eqn:Hf.
  assert (0 <= ns < 10 ^ 9) as Hns.
  { unfold parse_fraction in Hf. repeat case_match; simplify_eq; try lia. apply (frac_nanos_range 9). }
  destruct (parse_zone s13) as [[off s14]|] eqn:Hz; [|done]. cbn [mbind option_bind].
  pose proof (parse_zone_range _ _ _ Hz) as Hoff.
  destruct (negb (bool_decide (s14 = ""))); [done|]. destruct ((d <? 1) || (daysIn mo _ <? d)); [done|].
  intros [= <-]. unfold days_from_civil.
  pose proof (days_before_month_range mo (y1 * 100 + y2) ltac:(lia)).
  unfold UnixMilli, max_int64, Second, Millisecond. apply Z.div_le_upper_bound; [lia|].
  set (p := y1 * 100 + y2 - 1) in *. assert (- 1 <= p <= 9998) by (unfold p; lia). clearbody p.
  assert (p / 4 <= 2500) by (apply Z.div_le_upper_bound; lia).
  assert (- 100 <= p / 100) by (apply Z.div_le_lower_bound; lia).
  assert (p / 400 <= 25) by (apply Z.div_le_upper_bound; lia). lia.
Qed.

Lemma pd_loop_range f d s r : 0 <= d <= two63 -> pd_loop f d s = Some r -> 0 <= r <= two63.
Proof.
  revert d s; induction f as [|f IH]; intros d s Hd; destruct s as [|c s]; cbn [pd_loop]; try done; try (by intros [= <-]).
  destruct (pd_item (String c s)) as [[v s']|]; [|done]. cbn [mbind option_bind].
  destruct (two63 <? (d + v) mod 2 ^ 64) eqn:Hlt; [done|]. bool_prop. apply IH. split; [|done]. by apply Z.mod_pos_bound.
Qed.

Lemma ParseDuration_low s d : ParseDuration s = Some d -> d < 0 -> - 2 ^ 63 <= d.
Proof.
  unfold ParseDuration. destruct (match s with String c s' => _ | EmptyString => _ end) as [neg t].
  case_bool_decide; [by intros [= <-]|]. case_bool_decide; [done|].
  destruct (pd_loop (String.length t) 0 t) as [r|] eqn:Hl; [|done]. cbn [mbind option_bind].
  apply pd_loop_range in Hl; [|done]. assert (two63 = 2 ^ 63) by done.
  destruct neg; [intros [= <-]; lia|]. case_match; [done|]. intros [= <-]. lia.
Qed.

Lemma parse_printed_time n : 0 <= n <= max_int64 ->
  parse_start_time (format_int n) = Ok (MkStartPosition StartTime 0 n 0).
Proof.
  intros Hn. unfold parse_start_time.
  assert (format_int n = format_uint n) as Hf by (unfold format_int; by rewrite (proj2 (Z.ltb_ge _ _)) by lia).
  destruct (format_uint_digits n ltac:(lia)) as (c & t & Hc & Hd).
  assert (has_prefix "-" (format_int n) = false) as ->.
  { rewrite Hf, Hc. cbn [has_prefix]. by rewrite bool_decide_eq_false_2 by (intros <-; done). }
  rewrite andb_false_r, rfc3339_digits by (rewrite Hf; by apply format_digits_digits; lia).
  rewrite atoi_format by done. by rewrite (proj2 (Z.ltb_ge _ _)) by lia.
Qed.

(** What [ParseStartPosition] returns. *)
Lemma ParseStartPosition_cases s p :
  ParseStartPosition s = Ok p ->
  p = zero_position StartFirst \/ p = zero_position StartNew \/
  (exists n, 0 <= n <= max_int64 /\ p = MkStartPosition StartSeq n 0 0) \/
  (exists n, 0 <= n <= max_int64 /\ p = MkStartPosition StartTime 0 n 0) \/
  (exists d, - 2 ^ 63 <= d < 0 /\ p = MkStartPosition StartTime 0 0 d).
Proof.
  unfold ParseStartPosition, parse_start_time.
  destruct (bool_decide (s = "first") || bool_decide (s = "start")); [intros [= <-]; tauto|].
  case_bool_decide; [intros [= <-]; tauto|]. case_bool_decide; [done|].
  destruct (has_prefix "seq:" s).
  { destruct (atoi (drop_str 4 s)) as [n|] eqn:Ha; [|done]. apply atoi_range in Ha.
    destruct (n <? 0) eqn:Hn; [done|]. bool_prop. intros [= <-]. right; right; left. exists n. split; [lia|done]. }
  destruct (has_prefix "time:" s); [|done]. set (rest := drop_str 5 s).
  destruct ((1 <? slen rest) && has_prefix "-" rest).
  { destruct (ParseDuration rest) as [d|] eqn:Hd; [|done]. destruct (0 <=? d) eqn:Hd0; [done|]. bool_prop.
    intros [= <-]. do 4 right. exists d. split; [|done]. split; [by eapply ParseDuration_low|done]. }
  destruct (parse_rfc3339 rest) as [ts|] eqn:Hr.
  { apply rfc3339_bound in Hr. destruct (UnixMilli ts <? 0) eqn:Hu; [done|]. bool_prop. intros [= <-].
    do 3 right; left. by exists (UnixMilli ts). }
  destruct (atoi rest) as [n|] eqn:Ha; [|done]. apply atoi_range in Ha. destruct (n <? 0) eqn:Hn; [done|]. bool_prop.
  intros [= <-]. do 3 right; left. exists n. split; [lia|done].
Qed.

(** The start-position grammar round trips.  Whatever text names a start
    position (an alias, a sequence number, a Unix-millisecond or RFC 3339
    instant, a relative offset), [StartPosition.String] of the parsed position
    is a text that parses to that position again, so the spelling recorded
    when a consumer is created stands for the same position later. *)
Theorem start_position_roundtrip (s : string) (p : StartPosition) :
  ParseStartPosition s = Ok p -> ParseStartPosition (StartString p) = Ok p.
Proof.
  intros [->|[->|[(n & Hn & ->)|[(n & Hn & ->)|(d & Hd & ->)]]]]%ParseStartPosition_cases; [done|done| | |].
  - change (StartString (MkStartPosition StartSeq n 0 0)) with ("seq:" +:+ format_int n).
    change (ParseStartPosition ("seq:" +:+ format_int n)) with
      (match atoi (format_int n) with
       | Some n => if n <? 0 then Err (E ErrBadRequest "sequence number") else Ok (MkStartPosition StartSeq n 0 0)
       | None => Err (E ErrBadRequest "sequence number")
       end).
    rewrite atoi_format by done. by rewrite (proj2 (Z.ltb_ge _ _)) by lia.
  - change (StartString (MkStartPosition StartTime 0 n 0)) with ("time:" +:+ format_int n).
    change (ParseStartPosition ("time:" +:+ format_int n)) with (parse_start_time (format_int n)).
    by apply parse_printed_time.
  - assert (StartString (MkStartPosition StartTime 0 0 d) = "time:" +:+ duration_string d) as ->.
    { unfold StartString. cbn [pos_Kind pos_Rel]. by rewrite (proj2 (Z.eqb_neq _ _)) by lia. }
    change (ParseStartPosition ("time:" +:+ duration_string d)) with (parse_start_time (duration_string d)).
    unfold parse_start_time. rewrite duration_roundtrip by lia.
    assert ((1 <? slen (duration_string d)) && has_prefix "-" (duration_string d) = true) as ->.
    { unfold duration_string. rewrite (proj2 (Z.ltb_lt d 0)) by lia. cbn [has_prefix String.length].
      pose proof (duration_abs_head (- d) ltac:(lia)) as Hh. destruct (duration_abs (- d)); [done|].
      cbn [String.length]. rewrite (proj2 (Z.ltb_lt _ _)) by lia. by rewrite bool_decide_eq_true_2. }
    by rewrite (proj2 (Z.leb_gt _ _)) by lia.
Qed.

Lemma start_position_roundtrip_witness :
  ParseStartPosition (StartString (MkStartPosition StartTime 0 0 (- (90 * Minute)))) = Ok (MkStartPosition StartTime 0 0 (- (90 * Minute))).
Proof. apply (start_position_roundtrip "time:-1.5h"). vm_compute. reflexivity. Defined.
