(* ===== verification/Serve.v ===== *)
(** * messq serve: configuration, listener policy and startup order

    Translation of [internal/cli/serve.go] (the flag parser, the listener
    admission table and [runServe] up to the bound listener),
    [internal/auth/listener.go] and [internal/auth/preflight.go].  The file
    system, the resolver and the process's uid are arguments; what the daemon
    does is the list of actions it takes before it serves or exits. *)

From stdpp Require Import gmap.
From S2P Require Import Prelude GoText TextFields Durations NetAddr Sql Auth Subject Db ConsumerAdmin Flags.

(** ** Values *)

Inductive Durability : Set := DurabilityFull | DurabilityRelaxed.

Definition Durability_String (d : Durability) : string :=
  match d with DurabilityFull => "full" | DurabilityRelaxed => "relaxed" end.

Definition Synchronous (d : Durability) : Z :=
  match d with DurabilityFull => 2 | DurabilityRelaxed => 1 end.

Definition ParseDurability (s : string) : result Durability :=
  if bool_decide (s = Durability_String DurabilityFull) then Ok DurabilityFull
  else if bool_decide (s = Durability_String DurabilityRelaxed) then Ok DurabilityRelaxed
  else Err (E ErrBadRequest "unknown durability").

Definition parseI64 (s : string) : result Z :=
  match atoi (TrimSpace s) with
  | None => Err (Plain "invalid integer")
  | Some n => if n <=? 0 then Err (Plain "must be positive") else Ok n
  end.

Definition parsePositiveInt (s : string) : result Z :=
  match atoi s with
  | None => Err (Plain "invalid integer")
  | Some n => if n <=? 0 then Err (Plain "must be positive") else Ok n
  end.

Definition byte_suffixes : list (string * Z) :=
  [("TiB", 2 ^ 40); ("GiB", 2 ^ 30); ("MiB", 2 ^ 20); ("KiB", 2 ^ 10); ("B", 1)].

Definition scaled (num : string) (mult : Z) : result Z :=
  match atoi num with
  | None => Err (Plain "invalid byte size")
  | Some n => if n <? 0 then Err (Plain "negative") else Ok (wrap64 (n * mult))
  end.

Fixpoint try_units (units : list (string * Z)) (s : string) : result Z :=
  match units with
  | [] => scaled s 1
  | (suffix, mult) :: units' =>
      if has_suffix suffix s
      then scaled (TrimSpace (take_str (String.length s - String.length suffix) s)) mult
      else try_units units' s
  end.

Definition parseByteSize (s : string) : result Z :=
  let s := TrimSpace s in
  if bool_decide (s = "") then Err (Plain "empty byte size") else try_units byte_suffixes s.

(** [strconv.ParseUint(s, 8, 32)]. *)
Fixpoint octal_val (acc : Z) (s : string) : option Z :=
  match s with
  | EmptyString => Some acc
  | String c s' =>
      if cont_in 48 55 c then
        let acc := acc * 8 + digit_val c in
        if 2 ^ 32 <=? acc then None else octal_val acc s'
      else None
  end.

Definition parseSocketMode (s : string) : result Z :=
  match (if bool_decide (s = "") then None else octal_val 0 s) with
  | None => Err (Plain "--socket-mode must be octal")
  | Some v =>
      if v =? 0 then Err (Plain "--socket-mode must not be 0000")
      else if 511 <? v then Err (Plain "--socket-mode carries setuid/setgid/sticky bits")
      else Ok v
  end.

(** ** The configuration *)

Record serveConfig := mkServeConfig {
  sv_dataDir : string; sv_listen : string; sv_durability : Durability;
  sv_maxMsgSizeCeiling : Z; sv_maxHeaderBytes : Z; sv_maxBatchMessages : Z; sv_maxBatchBytes : Z;
  sv_peekScanLimit : Z; sv_peekMaxLimit : Z; sv_dedupSweepInterval : Z; sv_drainTimeout : Z;
  sv_maxWaiters : Z; sv_maxWaitersPerConsumer : Z; sv_maxFetchWait : Z; sv_fetchEmptyDamper : Z;
  sv_maxRequestBytes : Z; sv_readHeaderTimeout : Z; sv_idleTimeout : Z; sv_maxRequestHeaderBytes : Z;
  sv_maxConns : Z; sv_writerSubmitTimeout : Z; sv_authFile : string; sv_socketMode : Z;
  sv_janitorInterval : Z; sv_eventRetention : Z; sv_eventMaxRows : Z; sv_walMaxBytes : Z; sv_minFreeBytes : Z;
  sv_diskReserveBytes : Z; sv_vacuumFreelistPages : Z; sv_vacuumPagesPerTick : Z;
  sv_lagReportThreshold : Z; sv_lagReportInterval : Z;
  sv_dev : bool; sv_devEphemeral : bool }.

Definition serveFlagNames : list string :=
  ["--data-dir"; "--listen"; "--durability"; "--max-msg-size-ceiling"; "--max-header-bytes"; "--max-batch-messages";
   "--max-batch-bytes"; "--peek-scan-limit"; "--peek-max-limit"; "--dedup-sweep-interval"; "--drain-timeout";
   "--max-waiters"; "--max-waiters-per-consumer"; "--max-fetch-wait"; "--fetch-empty-damper"; "--max-request-bytes";
   "--read-header-timeout"; "--idle-timeout"; "--max-request-header-bytes"; "--max-conns"; "--writer-submit-timeout";
   "--auth-file"; "--socket-mode"; "--janitor-interval"; "--event-retention"; "--event-max-rows"; "--wal-max-bytes";
   "--min-free-bytes"; "--disk-reserve-bytes"; "--vacuum-freelist-pages"; "--vacuum-pages-per-tick";
   "--lag-report-threshold"; "--lag-report-interval"; "--dev"].

Definition serveBoolFlags : list string := ["--dev"].

Definition devDrainTimeout : Z := 2 * Second.

(** The loop over the arguments; a later flag replaces an earlier one. *)
Fixpoint parse_argv (args : list string) (flags : gmap string string) : result (gmap string string) :=
  match args with
  | [] => Ok flags
  | arg :: args =>
      let '(name, val, hasEq) := match cut "=" arg with
                                 | Some (l, r) => (l, r, true)
                                 | None => (arg, "", false)
                                 end in
      if negb (has_prefix "--" name) then Err (Plain "unexpected argument")
      else if negb (bool_decide (name ∈ serveFlagNames)) then Err (Plain "unknown flag")
      else if bool_decide (name ∈ serveBoolFlags) then
        if bool_decide (val = "") || bool_decide (val = "true") then parse_argv args (<[name := "true"]> flags)
        else if bool_decide (val = "false") then parse_argv args (<[name := "false"]> flags)
        else Err (Plain "takes no value")
      else if hasEq then parse_argv args (<[name := val]> flags)
      else match args with
           | [] => Err (Plain "needs a value")
           | val :: args => parse_argv args (<[name := val]> flags)
           end
  end.

Section Parse.
Variable flags : gmap string string.
Variable getenv : string -> string.

(** Flag, then environment variable, then default. *)
Definition resolve (name envName def : string) : string :=
  match flags !! name with
  | Some v => v
  | None => if bool_decide (getenv envName = "") then def else getenv envName
  end.

Definition duration_of (name envName def : string) : result Z :=
  match ParseDuration (resolve name envName def) with
  | Some d => Ok d
  | None => Err (Plain name)
  end.

(** [--data-dir]: explicit flag, then the throwaway directory of [--dev], then
    the environment. *)
Definition resolve_data_dir (dev : bool) : result (string * bool) :=
  match flags !! "--data-dir" with
  | Some v => Ok (v, false)
  | None =>
      if dev then Ok ("", true)
      else if bool_decide (getenv "MESSQ_DATA_DIR" = "") then Err (Plain "--data-dir is required")
      else Ok (getenv "MESSQ_DATA_DIR", false)
  end.

Definition all_positive (l : list Z) : result unit :=
  if forallb (fun v => 0 <? v) l then Ok tt else Err (Plain "must be positive").

Definition config_of_flags : result serveConfig :=
  let dev := bool_decide (flags !! "--dev" = Some "true") in
  let? (dataDir, ephemeral) := resolve_data_dir dev in
  let? durability := ParseDurability (resolve "--durability" "MESSQ_DURABILITY" "full") in
  let listen := resolve "--listen" "MESSQ_LISTEN" "unix:///run/messq/messq.sock" in
  let? maxMsgSizeCeiling := parseByteSize (resolve "--max-msg-size-ceiling" "MESSQ_MAX_MSG_SIZE_CEILING" "8MiB") in
  let? maxHeaderBytes := parseByteSize (resolve "--max-header-bytes" "MESSQ_MAX_HEADER_BYTES" "4KiB") in
  let? maxBatchMessages := parsePositiveInt (resolve "--max-batch-messages" "MESSQ_MAX_BATCH_MESSAGES" "1000") in
  let? maxBatchBytes := parseByteSize (resolve "--max-batch-bytes" "MESSQ_MAX_BATCH_BYTES" "8MiB") in
  let? peekScanLimit := parsePositiveInt (resolve "--peek-scan-limit" "MESSQ_PEEK_SCAN_LIMIT" "10000") in
  let? peekMaxLimit := parsePositiveInt (resolve "--peek-max-limit" "MESSQ_PEEK_MAX_LIMIT" "1000") in
  let? dedupSweepInterval := duration_of "--dedup-sweep-interval" "MESSQ_DEDUP_SWEEP_INTERVAL" "60s" in
  let? drain := duration_of "--drain-timeout" "MESSQ_DRAIN_TIMEOUT" "10s" in
  let drainTimeout := if dev && bool_decide (flags !! "--drain-timeout" = None) then devDrainTimeout else drain in
  let? maxWaiters := parsePositiveInt (resolve "--max-waiters" "MESSQ_MAX_WAITERS" "4096") in
  let? maxWaitersPerConsumer := parsePositiveInt (resolve "--max-waiters-per-consumer" "MESSQ_MAX_WAITERS_PER_CONSUMER" "256") in
  let? maxFetchWait := duration_of "--max-fetch-wait" "MESSQ_MAX_FETCH_WAIT" "5m" in
  let? fetchEmptyDamper := duration_of "--fetch-empty-damper" "MESSQ_FETCH_EMPTY_DAMPER" "5ms" in
  let? maxRequestBytes := parseByteSize (resolve "--max-request-bytes" "MESSQ_MAX_REQUEST_BYTES" "1MiB") in
  let? readHeaderTimeout := duration_of "--read-header-timeout" "MESSQ_READ_HEADER_TIMEOUT" "10s" in
  let? idleTimeout := duration_of "--idle-timeout" "MESSQ_IDLE_TIMEOUT" "120s" in
  let? maxRequestHeaderBytes := parseByteSize (resolve "--max-request-header-bytes" "MESSQ_MAX_REQUEST_HEADER_BYTES" "16KiB") in
  let? maxConns := parsePositiveInt (resolve "--max-conns" "MESSQ_MAX_CONNS" "1024") in
  let? writerSubmitTimeout := duration_of "--writer-submit-timeout" "MESSQ_WRITER_SUBMIT_TIMEOUT" "5s" in
  let authFile := resolve "--auth-file" "MESSQ_AUTH_FILE" "" in
  let? socketMode := parseSocketMode (resolve "--socket-mode" "MESSQ_SOCKET_MODE" "0660") in
  let? janitorInterval := duration_of "--janitor-interval" "MESSQ_JANITOR_INTERVAL" "60s" in
  if janitorInterval <? 0 then Err (Plain "--janitor-interval") else
  let? eventRetention := duration_of "--event-retention" "MESSQ_EVENT_RETENTION" "72h" in
  if eventRetention <=? 0 then Err (Plain "--event-retention") else
  let? eventMaxRows := parseI64 (resolve "--event-max-rows" "MESSQ_EVENT_MAX_ROWS" "1000000") in
  let? walMaxBytes := parseByteSize (resolve "--wal-max-bytes" "MESSQ_WAL_MAX_BYTES" "256MiB") in
  let? minFreeBytes := parseByteSize (resolve "--min-free-bytes" "MESSQ_MIN_FREE_BYTES" "256MiB") in
  let? diskReserveBytes := parseByteSize (resolve "--disk-reserve-bytes" "MESSQ_DISK_RESERVE_BYTES" "64MiB") in
  let? vacuumFreelistPages := parseI64 (resolve "--vacuum-freelist-pages" "MESSQ_VACUUM_FREELIST_PAGES" "10000") in
  let? vacuumPagesPerTick := parseI64 (resolve "--vacuum-pages-per-tick" "MESSQ_VACUUM_PAGES_PER_TICK" "2000") in
  let? lagReportThreshold := parseI64 (resolve "--lag-report-threshold" "MESSQ_LAG_REPORT_THRESHOLD" "10000") in
  let? lagReportInterval := duration_of "--lag-report-interval" "MESSQ_LAG_REPORT_INTERVAL" "60s" in
  if lagReportInterval <=? 0 then Err (Plain "--lag-report-interval") else
  let? _ := all_positive [walMaxBytes; minFreeBytes; diskReserveBytes; vacuumFreelistPages; vacuumPagesPerTick; lagReportThreshold] in
  let? _ := all_positive [maxMsgSizeCeiling; maxHeaderBytes; maxBatchBytes; dedupSweepInterval; drainTimeout] in
  Ok (mkServeConfig dataDir listen durability maxMsgSizeCeiling maxHeaderBytes maxBatchMessages maxBatchBytes
        peekScanLimit peekMaxLimit dedupSweepInterval drainTimeout maxWaiters maxWaitersPerConsumer maxFetchWait
        fetchEmptyDamper maxRequestBytes readHeaderTimeout idleTimeout maxRequestHeaderBytes maxConns writerSubmitTimeout
        authFile socketMode janitorInterval eventRetention eventMaxRows walMaxBytes minFreeBytes diskReserveBytes
        vacuumFreelistPages vacuumPagesPerTick lagReportThreshold lagReportInterval dev ephemeral).
End Parse.

Definition parseServeFlags (args : list string) (getenv : string -> string) : result serveConfig :=
  let? flags := parse_argv args ∅ in
  config_of_flags flags getenv.

(** ** auth/listener.go *)

Inductive Class : Set := ClassUnix | ClassLoopback | ClassPublic.

#[global] Instance Class_eq_dec : EqDecision Class.
Proof. solve_decision. Defined.

(** The resolver: the addresses of a host, or its error. *)
Abbreviation resolver := (string -> result (list (list Z))) (only parsing).

Definition classifyTCP (hostport : string) (lookup : resolver) : result Class :=
  match SplitHostPort hostport with
  | None => Err (Plain "invalid --listen tcp address")
  | Some (host, _) =>
      if bool_decide (host = "") then Ok ClassPublic
      else match ParseIP host with
           | Some ip => Ok (if IsLoopback ip then ClassLoopback else ClassPublic)
           | None =>
               let? addrs := lookup host in
               if bool_decide (addrs = []) then Err (Plain "resolves to no addresses")
               else if existsb (fun ip => negb (IsLoopback ip)) addrs then Ok ClassPublic
               else Ok ClassLoopback
           end
  end.

Definition Classify (addr : string) (lookup : resolver) : result Class :=
  if has_prefix "unix://" addr then Ok ClassUnix
  else if has_prefix "tcp://" addr then classifyTCP (drop_str 6 addr) lookup
  else Err (Plain "unsupported --listen").

(** ** The admission table: serve.go *)

Record listenerAdmission := mkAdmission { refuse : bool; warnBanner : option string; repeatWarn : bool }.

Definition bannerLoopbackUnauth : string := "unauthenticated loopback listener".
Definition bannerPublicCleartext : string := "serving cleartext HTTP on a public address".

Definition evaluateListenerAdmission (addr : string) (tokens : Z) (lookup : resolver) : result (Class * listenerAdmission) :=
  let? class := Classify addr lookup in
  match class with
  | ClassUnix => Ok (class, mkAdmission false None false)
  | ClassLoopback =>
      if tokens =? 0 then Ok (class, mkAdmission false (Some bannerLoopbackUnauth) true)
      else Ok (class, mkAdmission false None false)
  | ClassPublic =>
      if tokens =? 0 then Ok (class, mkAdmission true None false)
      else Ok (class, mkAdmission false (Some bannerPublicCleartext) false)
  end.

Definition refuseNonLoopback (hostport : string) (lookup : resolver) : result unit :=
  match SplitHostPort hostport with
  | None => Err (Plain "invalid --listen tcp address")
  | Some _ =>
      let? class := Classify ("tcp://" +:+ hostport) lookup in
      if bool_decide (class = ClassPublic) then Err (Plain "refusing to bind") else Ok tt
  end.

(** ** auth/preflight.go *)

Inductive Level : Set := LevelWarn | LevelFatal.

#[global] Instance Level_eq_dec : EqDecision Level.
Proof. solve_decision. Defined.

(** A finding; the detail text is reduced to a tag. *)
Record Finding := mkFinding { f_Level : Level; f_What : string; f_Detail : string; f_Fix : bool }.

(** What [os.Stat] answers: the owner is known where the platform gives it. *)
Inductive file_stat : Set :=
| StatMissing
| StatError
| Stat (is_dir : bool) (perm : Z) (owner : option Z).

(** The files the audit looks at, at one moment. *)
Record fsys := mkFsys {
  fs_data_dir : file_stat;
  fs_db : string -> file_stat;
  fs_auth : file_stat;
  fs_auth_data : option string }.

Record Options := mkOptions { o_AuthFile : string; o_RequireAuth : bool; o_SocketMode : Z; o_UID : Z }.

(** Group or other may do something: [perm & 0o077 != 0]. *)
Definition group_or_other (perm : Z) : bool := negb (Z.land perm 63 =? 0).

Definition fatal (what detail : string) (has_fix : bool) : Finding := mkFinding LevelFatal what detail has_fix.

Definition checkDataDir (fs : fsys) : list Finding :=
  match fs_data_dir fs with
  | StatMissing | StatError => [fatal "data dir" "cannot stat" false]
  | Stat is_dir perm _ =>
      if negb is_dir then [fatal "data dir" "not a directory" false]
      else if group_or_other perm then [fatal "data dir" "mode, want 0700" true]
      else []
  end.

Definition dbFileName : string := "messq.db".

Definition checkDBFiles (fs : fsys) : list Finding :=
  List.concat (map (fun name =>
    match fs_db fs name with
    | StatMissing => []
    | StatError => [fatal "database file" "cannot stat" false]
    | Stat _ perm _ => if group_or_other perm then [fatal "database file" "mode, want 0600" true] else []
    end) [dbFileName; dbFileName +:+ "-wal"; dbFileName +:+ "-shm"]).

Definition checkAuthFile (opts : Options) (fs : fsys) : list Finding :=
  if bool_decide (o_AuthFile opts = "") then []
  else match fs_auth fs with
       | StatMissing | StatError => [fatal "auth file" "cannot stat" false]
       | Stat _ perm owner =>
           let out := (if group_or_other perm then [fatal "auth file" "mode, want 0600" true] else [])
                      ++ match owner with
                         | Some uid => if negb (uid =? o_UID opts) && negb (uid =? 0)
                                       then [fatal "auth file" "owner" true] else []
                         | None => []
                         end in
           match fs_auth_data fs with
           | None => out ++ [fatal "auth file" "cannot read" false]
           | Some data =>
               match Auth.Parse data with
               | Err _ => out ++ [fatal "auth file" "unparseable" false]
               | Ok tokens =>
                   if o_RequireAuth opts && bool_decide (tokens = [])
                   then out ++ [fatal "auth file" "holds no tokens" true] else out
               end
           end
       end.

Definition checkSocketMode (opts : Options) : list Finding :=
  if o_SocketMode opts =? 0 then []
  else if negb (Z.land (o_SocketMode opts) 6 =? 0) then [fatal "socket mode" "grants other read or write" true]
  else [].

Definition checkRoot (opts : Options) : list Finding :=
  if o_UID opts =? 0 then [mkFinding LevelWarn "uid" "running as uid 0" false] else [].

Definition Preflight (opts : Options) (fs : fsys) : list Finding :=
  checkDataDir fs ++ checkDBFiles fs ++ checkAuthFile opts fs ++ checkSocketMode opts ++ checkRoot opts.

(** ** runServe, up to the bound listener *)

Definition exit_error : Z := 1.
Definition exit_usage : Z := 2.
Definition exit_config : Z := 78.

Inductive action : Set :=
| MkdirTemp | RemoveTemp | LogRefused | OpenStore | CloseStore | WarnFinding (what : string) | BindListener
| WarnBanner (banner : string) (repeated : bool).

#[global] Instance action_eq_dec : EqDecision action.
Proof. solve_decision. Defined.

Inductive outcome :=
| Exit (code : Z)
| Serving (cfg : serveConfig) (class : Class).

(** What startup meets: the file system when the token file is first read and
    when it is audited, the resolver, the uid, and whether the calls that can
    fail succeed. *)
Record startup_env := mkEnv {
  en_mkdir : bool;
  en_auth_data : option string;
  en_lookup : resolver;
  en_open : bool;
  en_fs : fsys;
  en_uid : Z;
  en_listen : bool }.

Definition loadAuthTokenCount (data : option string) : result Z :=
  match data with
  | None => Err (Plain "cannot read --auth-file")
  | Some text => let? tokens := Auth.Parse text in Ok (Z.of_nat (length tokens))
  end.

Definition runServe (args : list string) (getenv : string -> string) (env : startup_env) : list action * outcome :=
  match parseServeFlags args getenv with
  | Err _ => ([], Exit exit_usage)
  | Ok cfg =>
      if sv_devEphemeral cfg && negb (en_mkdir env) then ([], Exit exit_error)
      else
        let temp := if sv_devEphemeral cfg then [MkdirTemp] else [] in
        let untemp := if sv_devEphemeral cfg then [RemoveTemp] else [] in
        match (if bool_decide (sv_authFile cfg = "") then Ok 0 else loadAuthTokenCount (en_auth_data env)) with
        | Err _ => (temp ++ [LogRefused] ++ untemp, Exit exit_config)
        | Ok tokens =>
            match evaluateListenerAdmission (sv_listen cfg) tokens (en_lookup env) with
            | Err _ => (temp ++ untemp, Exit exit_usage)
            | Ok (class, adm) =>
                if refuse adm then (temp ++ [LogRefused] ++ untemp, Exit exit_config)
                else if negb (en_open env) then (temp ++ untemp, Exit exit_error)
                else
                  let opts := mkOptions (sv_authFile cfg) (bool_decide (class = ClassPublic)) (sv_socketMode cfg) (en_uid env) in
                  let findings := Preflight opts (en_fs env) in
                  if existsb (fun f => bool_decide (f_Level f = LevelFatal)) findings
                  then (temp ++ [OpenStore; LogRefused; CloseStore] ++ untemp, Exit exit_config)
                  else
                    let opened := temp ++ [OpenStore] ++ map (fun f => WarnFinding (f_What f)) findings in
                    if negb (en_listen env) then (opened ++ [CloseStore] ++ untemp, Exit exit_error)
                    else (opened ++ [BindListener]
                          ++ match warnBanner adm with Some b => [WarnBanner b (bool_decide (class = ClassLoopback))] | None => [] end,
                          Serving cfg class)
            end
        end
  end.

(** ** What an accepted configuration guarantees *)

Definition int64 (z : Z) : Prop := - 2 ^ 63 <= z < 2 ^ 63.

(** The bounds [runServe] hands to the store, the server and the janitor. *)
Record config_ok (c : serveConfig) : Prop := {
  ok_sizes : Forall (fun v => 0 < v < 2 ^ 63)
    [sv_maxMsgSizeCeiling c; sv_maxHeaderBytes c; sv_maxBatchBytes c; sv_walMaxBytes c; sv_minFreeBytes c; sv_diskReserveBytes c];
  ok_counts : Forall (fun v => 0 < v < 2 ^ 63)
    [sv_maxBatchMessages c; sv_peekScanLimit c; sv_peekMaxLimit c; sv_maxWaiters c; sv_maxWaitersPerConsumer c; sv_maxConns c;
     sv_eventMaxRows c; sv_vacuumFreelistPages c; sv_vacuumPagesPerTick c; sv_lagReportThreshold c];
  ok_periods : Forall (fun v => 0 < v)
    [sv_dedupSweepInterval c; sv_drainTimeout c; sv_eventRetention c; sv_lagReportInterval c];
  ok_janitor : 0 <= sv_janitorInterval c;
  ok_mode : 0 < sv_socketMode c <= 511;
  ok_ephemeral : sv_devEphemeral c = true -> sv_dev c = true /\ sv_dataDir c = "" }.

Lemma parsePositiveInt_range s n : parsePositiveInt s = Ok n -> 0 < n < 2 ^ 63.
Proof.
  unfold parsePositiveInt. destruct (atoi s) as [m|] eqn:Ha; [|done]. apply atoi_range in Ha.
  destruct (m <=? 0) eqn:Hm; [done|]. intros [= <-]. unfold max_int64 in Ha. bool_prop. lia.
Qed.

Lemma parseI64_range s n : parseI64 s = Ok n -> 0 < n < 2 ^ 63.
Proof. apply parsePositiveInt_range. Qed.

Lemma parseByteSize_range s n : parseByteSize s = Ok n -> n < 2 ^ 63.
Proof.
  unfold parseByteSize. case_bool_decide; [done|].
  assert (forall t m, scaled t m = Ok n -> n < 2 ^ 63) as Hs.
  { intros t m. unfold scaled. destruct (atoi t) as [v|]; [|done]. destruct (v <? 0); [done|].
    intros [= <-]. pose proof (wrap64_lt (v * m)). done. }
  generalize byte_suffixes as units. intros units. induction units as [|[suf mult] units IH]; cbn [try_units]; [apply Hs|].
  case_match; [apply Hs|apply IH].
Qed.

Lemma parseSocketMode_range s n : parseSocketMode s = Ok n -> 0 < n <= 511.
Proof.
  assert (forall acc t v, 0 <= acc -> octal_val acc t = Some v -> 0 <= v) as Hpos.
  { clear. intros acc t; revert acc. induction t as [|c t IH]; intros acc v Ha; cbn [octal_val]; [by intros [= <-]|].
    destruct (cont_in 48 55 c) eqn:Hc; [|done]. case_match; [done|]. apply IH.
    unfold cont_in in Hc. unfold digit_val. bool_prop. lia. }
  unfold parseSocketMode. case_bool_decide; [done|]. destruct (octal_val 0 s) as [v|] eqn:Hv; [|done].
  apply Hpos in Hv; [|done]. destruct (v =? 0) eqn:H0; [done|]. destruct (511 <? v) eqn:H1; [done|].
  intros [= <-]. bool_prop. lia.
Qed.

Lemma all_positive_Ok l u : all_positive l = Ok u -> Forall (fun v => 0 < v) l.
Proof.
  unfold all_positive. destruct (forallb _ l) eqn:Hf; [|done]. intros _. apply Forall_forall. intros v Hv%list_elem_of_In.
  rewrite forallb_forall in Hf. by apply Z.ltb_lt, Hf.
Qed.

(** Take a parsed configuration apart. *)
Ltac parse_steps H :=
  repeat match type of H with
  | rbind _ _ = Ok _ => let v := fresh "v" in let Hv := fresh "Hv" in apply rbind_ok in H as (v & Hv & H)
  | (if ?b then Err _ else _) = Ok _ => let Hb := fresh "Hb" in destruct b eqn:Hb; [done|]
  | (let '(_, _) := ?p in _) = Ok _ => destruct p
  end.

Lemma resolve_data_dir_ephemeral flags getenv dev s b :
  resolve_data_dir flags getenv dev = Ok (s, b) -> b = true -> dev = true /\ s = "".
Proof. unfold resolve_data_dir. intros H ->. repeat case_match; simplify_eq. done. Qed.



(** ** Flags win over the environment *)

(** The variables the settings fall back to, with their flags. *)
Definition settings : list (string * string) :=
  [("--data-dir", "MESSQ_DATA_DIR"); ("--listen", "MESSQ_LISTEN"); ("--durability", "MESSQ_DURABILITY");
   ("--max-msg-size-ceiling", "MESSQ_MAX_MSG_SIZE_CEILING"); ("--max-header-bytes", "MESSQ_MAX_HEADER_BYTES");
   ("--max-batch-messages", "MESSQ_MAX_BATCH_MESSAGES"); ("--max-batch-bytes", "MESSQ_MAX_BATCH_BYTES");
   ("--peek-scan-limit", "MESSQ_PEEK_SCAN_LIMIT"); ("--peek-max-limit", "MESSQ_PEEK_MAX_LIMIT");
   ("--dedup-sweep-interval", "MESSQ_DEDUP_SWEEP_INTERVAL"); ("--drain-timeout", "MESSQ_DRAIN_TIMEOUT");
   ("--max-waiters", "MESSQ_MAX_WAITERS"); ("--max-waiters-per-consumer", "MESSQ_MAX_WAITERS_PER_CONSUMER");
   ("--max-fetch-wait", "MESSQ_MAX_FETCH_WAIT"); ("--fetch-empty-damper", "MESSQ_FETCH_EMPTY_DAMPER");
   ("--max-request-bytes", "MESSQ_MAX_REQUEST_BYTES"); ("--read-header-timeout", "MESSQ_READ_HEADER_TIMEOUT");
   ("--idle-timeout", "MESSQ_IDLE_TIMEOUT"); ("--max-request-header-bytes", "MESSQ_MAX_REQUEST_HEADER_BYTES");
   ("--max-conns", "MESSQ_MAX_CONNS"); ("--writer-submit-timeout", "MESSQ_WRITER_SUBMIT_TIMEOUT");
   ("--auth-file", "MESSQ_AUTH_FILE"); ("--socket-mode", "MESSQ_SOCKET_MODE"); ("--janitor-interval", "MESSQ_JANITOR_INTERVAL");
   ("--event-retention", "MESSQ_EVENT_RETENTION"); ("--event-max-rows", "MESSQ_EVENT_MAX_ROWS");
   ("--wal-max-bytes", "MESSQ_WAL_MAX_BYTES"); ("--min-free-bytes", "MESSQ_MIN_FREE_BYTES");
   ("--disk-reserve-bytes", "MESSQ_DISK_RESERVE_BYTES"); ("--vacuum-freelist-pages", "MESSQ_VACUUM_FREELIST_PAGES");
   ("--vacuum-pages-per-tick", "MESSQ_VACUUM_PAGES_PER_TICK"); ("--lag-report-threshold", "MESSQ_LAG_REPORT_THRESHOLD");
   ("--lag-report-interval", "MESSQ_LAG_REPORT_INTERVAL")].

(** The environment variables that can still matter: those of the settings no
    flag gives, except the data directory under [--dev]. *)
Definition consulted (flags : gmap string string) (setting : string * string) : Prop :=
  flags !! setting.1 = None /\ ~ (setting.1 = "--data-dir" /\ flags !! "--dev" = Some "true").

Lemma resolve_env flags getenv getenv' name envName def :
  (flags !! name = None -> getenv envName = getenv' envName) ->
  resolve flags getenv name envName def = resolve flags getenv' name envName def.
Proof. intros H. unfold resolve. destruct (flags !! name); [done|]. by rewrite H. Qed.

(** A flag wins over the environment, and so does [--dev] for the data
    directory.  Two environments that agree on the variables of the settings
    no flag gives (the data directory apart when [--dev] is on) make the same
    configuration, or the same refusal: a production [MESSQ_DATA_DIR] cannot
    leak into a development daemon. *)
Theorem serve_flags_win (args : list string) (flags : gmap string string) (getenv getenv' : string -> string) :
  parse_argv args ∅ = Ok flags ->
  (forall st, st ∈ settings -> consulted flags st -> getenv st.2 = getenv' st.2) ->
  parseServeFlags args getenv = parseServeFlags args getenv'.
Proof.
  intros Hf Hagree. unfold parseServeFlags. rewrite Hf. cbn [rbind].
  assert (forall name envName def, (name, envName) ∈ settings -> name <> "--data-dir" ->
            resolve flags getenv name envName def = resolve flags getenv' name envName def) as Hr.
  { intros name envName def Hin Hne. apply resolve_env. intros Hn. apply (Hagree (name, envName) Hin).
    split; [done|]. by intros [? _]. }
  assert (resolve_data_dir flags getenv (bool_decide (flags !! "--dev" = Some "true"))
          = resolve_data_dir flags getenv' (bool_decide (flags !! "--dev" = Some "true"))) as Hd.
  { unfold resolve_data_dir. destruct (flags !! "--data-dir") eqn:Hdd; [done|]. case_bool_decide as Hdev; [done|].
    assert (getenv "MESSQ_DATA_DIR" = getenv' "MESSQ_DATA_DIR") as ->; [|done].
    apply (Hagree ("--data-dir", "MESSQ_DATA_DIR")); [apply elem_of_cons; by left|].
    split; [done|]. by intros [_ ?]. }
  unfold config_of_flags, duration_of. rewrite Hd.
  repeat match goal with
  | |- context [resolve flags getenv ?n ?e ?d] =>
      rewrite (Hr n e d) by first [apply (bool_decide_unpack _); vm_compute; reflexivity | discriminate]
  end.
  reflexivity.
Qed.

Lemma serve_flags_win_witness :
  parseServeFlags ["--dev"] (fun v => if bool_decide (v = "MESSQ_DATA_DIR") then "/var/lib/messq" else "")
  = parseServeFlags ["--dev"] (fun _ => "").
Proof.
  apply (serve_flags_win ["--dev"] {["--dev" := "true"]}).
  - vm_compute. reflexivity.
  - intros st Hst [Hn Hdev]. case_bool_decide as He; [|reflexivity]. exfalso. apply Hdev.
    assert (st.1 = "--data-dir") as ->; [|split; reflexivity].
    assert (forallb (fun st => negb (bool_decide (st.2 = "MESSQ_DATA_DIR")) || bool_decide (st.1 = "--data-dir")) settings = true)
      as Hall by (vm_compute; reflexivity).
    rewrite forallb_forall in Hall. apply list_elem_of_In in Hst. specialize (Hall st Hst).
    rewrite bool_decide_eq_true_2 in Hall by exact He. apply bool_decide_eq_true in Hall. exact Hall.
Defined.

(** ** Byte sizes *)

Lemma TrimSpace_word s : word s -> TrimSpace s = s.
Proof.
  intros [Hne Hn]. unfold TrimSpace.
  replace (drop_spaces (chunks s)) with (chunks s)
    by (rewrite <-(app_nil_r (chunks s)), drop_spaces_word; [done|by apply chunks_not_nil|done]).
  replace (drop_spaces (List.rev (chunks s))) with (List.rev (chunks s))
    by (rewrite <-(app_nil_r (List.rev (chunks s))), drop_spaces_word;
        [done|by apply rev_not_nil, chunks_not_nil|by rewrite forallb_rev]).
  by rewrite rev_involutive, unchunk_chunks.
Qed.

(** The digits of a count, then a unit: what the flag parser computes. *)
Lemma parseByteSize_printed n :
  0 <= n <= max_int64 -> parseByteSize (format_uint n +:+ "TiB") = Ok (wrap64 (n * 2 ^ 40)).
Proof.
  intros Hn. assert (all_bytes is_digit (format_uint n) = true) as Hd by (apply format_digits_digits; lia).
  assert (forall c, is_digit c = true -> byte_z c < 128 /\ IsSpace (byte_z c) = false) as Hplain.
  { intros c Hc. apply is_hex_plain. unfold is_hex. by rewrite Hc. }
  assert (word (format_uint n)) as Hw.
  { split; [apply (format_digits_not_empty 19)|]. by apply (ascii_no_space is_digit). }
  assert (word (format_uint n +:+ "TiB")) as Hw'.
  { destruct Hw as [Hne Hns]. split; [by destruct (format_uint n)|]. unfold no_space in *.
    by rewrite chunks_app, forallb_app, Hns. }
  unfold parseByteSize. rewrite (TrimSpace_word _ Hw'). rewrite bool_decide_eq_false_2 by apply Hw'.
  cbn [try_units byte_suffixes]. rewrite (proj2 (has_suffix_spec _ _)) by eauto.
  rewrite sapp_length. replace (String.length (format_uint n) + String.length "TiB" - String.length "TiB")%nat
    with (String.length (format_uint n)) by (simpl; lia).
  rewrite take_str_app, (TrimSpace_word _ Hw). unfold scaled.
  pose proof (atoi_format n Hn) as Ha. unfold format_int in Ha. rewrite (proj2 (Z.ltb_ge _ _)) in Ha by lia.
  rewrite Ha. by rewrite (proj2 (Z.ltb_ge _ _)) by lia.
Qed.

(** The shared flag value refuses what does not fit. *)
Lemma Bytes_Set_printed n :
  0 <= n <= max_int64 ->
  Bytes_Set (format_uint n +:+ "TiB") = if n * 2 ^ 40 <? 2 ^ 63 then Ok (n * 2 ^ 40) else Err (E ErrBadRequest "overflows").
Proof.
  intros Hn. assert (all_bytes is_digit (format_uint n) = true) as Hd by (apply format_digits_digits; lia).
  assert (span_digits (format_uint n +:+ "TiB") = format_uint n) as Hsp.
  { revert Hd. generalize (format_uint n) as w. induction w as [|c w IH]; [done|]. cbn [all_bytes String.append span_digits].
    intros [-> Hw]%andb_true_iff. by rewrite IH. }
  pose proof (atoi_format n Hn) as Ha. unfold format_int in Ha. rewrite (proj2 (Z.ltb_ge _ _)) in Ha by lia.
  unfold Bytes_Set. rewrite Hsp, drop_str_app, bool_decide_eq_false_2 by apply (format_digits_not_empty 19).
  rewrite Ha. change (ToLower "TiB") with "tib". rewrite bool_decide_eq_false_2 by done.
  change (byteUnits "tib") with (Some (2 ^ 40)). unfold max_int64 in Hn.
  assert (max_int64 / 2 ^ 40 = 8388607) as Hq by reflexivity.
  destruct (n * 2 ^ 40 <? 2 ^ 63) eqn:Hfit; bool_prop.
  - rewrite Hq, (proj2 (Z.ltb_ge 8388607 n)), andb_false_r by lia. by rewrite wrap64_id by lia.
  - rewrite Hq, (proj2 (Z.ltb_lt 8388607 n)), (proj2 (Z.ltb_lt 0 n)) by lia. done.
Qed.

(** The two byte-size parsers disagree on a size that does not fit.  The
    commands refuse a count of tebibytes that overflows int64; [messq serve]
    accepts it with the wrapped product, so 16777217TiB configures one
    tebibyte. *)
Theorem byte_size_wraps (n : Z) :
  2 ^ 23 <= n < 2 ^ 63 ->
  Bytes_Set (format_uint n +:+ "TiB") = Err (E ErrBadRequest "overflows") /\
  parseByteSize (format_uint n +:+ "TiB") = Ok (wrap64 (n * 2 ^ 40)) /\ wrap64 (n * 2 ^ 40) <> n * 2 ^ 40.
Proof.
  intros Hn. rewrite Bytes_Set_printed, parseByteSize_printed by (unfold max_int64; lia).
  rewrite (proj2 (Z.ltb_ge _ _)) by lia. split_and!; [done|done|].
  pose proof (wrap64_lt (n * 2 ^ 40)). lia.
Qed.

Lemma byte_size_wraps_witness :
  Bytes_Set "16777217TiB" = Err (E ErrBadRequest "overflows") /\ parseByteSize "16777217TiB" = Ok (wrap64 (16777217 * 2 ^ 40)) /\
  wrap64 (16777217 * 2 ^ 40) <> 16777217 * 2 ^ 40.
Proof. apply (byte_size_wraps 16777217). lia. Defined.

(** ** Startup *)

(** The posture the audit demands of the file system. *)
Record posture (opts : Options) (fs : fsys) : Prop := {
  pos_data_dir : exists perm owner, fs_data_dir fs = Stat true perm owner /\ Z.land perm 63 = 0;
  pos_db : forall name d perm owner, name ∈ [dbFileName; dbFileName +:+ "-wal"; dbFileName +:+ "-shm"] ->
    fs_db fs name = Stat d perm owner -> Z.land perm 63 = 0;
  pos_auth : o_AuthFile opts <> "" ->
    exists d perm owner data tokens, fs_auth fs = Stat d perm owner /\ Z.land perm 63 = 0 /\
      (forall uid, owner = Some uid -> uid = o_UID opts \/ uid = 0) /\
      fs_auth_data fs = Some data /\ Auth.Parse data = Ok tokens /\ (o_RequireAuth opts = true -> tokens <> []);
  pos_socket : Z.land (o_SocketMode opts) 6 = 0 }.

Definition no_fatal (l : list Finding) : Prop := existsb (fun f => bool_decide (f_Level f = LevelFatal)) l = false.

Lemma no_fatal_app l k : no_fatal (l ++ k) <-> no_fatal l /\ no_fatal k.
Proof. unfold no_fatal. rewrite existsb_app, orb_false_iff. done. Qed.

Lemma group_or_other_false perm : group_or_other perm = false -> Z.land perm 63 = 0.
Proof. unfold group_or_other. rewrite negb_false_iff. apply Z.eqb_eq. Qed.

Lemma checkAuthFile_ok opts fs :
  o_AuthFile opts <> "" -> no_fatal (checkAuthFile opts fs) ->
  exists d perm owner data tokens, fs_auth fs = Stat d perm owner /\ Z.land perm 63 = 0 /\
    (forall uid, owner = Some uid -> uid = o_UID opts \/ uid = 0) /\
    fs_auth_data fs = Some data /\ Auth.Parse data = Ok tokens /\ (o_RequireAuth opts = true -> tokens <> []).
Proof.
  intros Hne. unfold checkAuthFile. rewrite bool_decide_eq_false_2 by done.
  destruct (fs_auth fs) as [| |d perm owner]; [done|done|].
  destruct (fs_auth_data fs) as [data|]; [|intros [_ ?]%no_fatal_app; done].
  destruct (Auth.Parse data) as [tokens|] eqn:Hparse; [|intros [_ ?]%no_fatal_app; done].
  intros H. exists d, perm, owner, data, tokens.
  assert (no_fatal (if group_or_other perm then [fatal "auth file" "mode, want 0600" true] else []) /\
          no_fatal (match owner with
                    | Some uid => if negb (uid =? o_UID opts) && negb (uid =? 0) then [fatal "auth file" "owner" true] else []
                    | None => [] end) /\
          (o_RequireAuth opts = true -> tokens <> [])) as (Hp & Ho & Hr).
  { destruct (o_RequireAuth opts); cbn [andb] in H; [|by apply no_fatal_app in H as [? ?]].
    case_bool_decide as Ht; [by apply no_fatal_app in H as [_ ?]|]. by apply no_fatal_app in H as [? ?]. }
  split_and!; [done| | |done|done|done].
  - destruct (group_or_other perm) eqn:Hg; [done|]. by apply group_or_other_false.
  - intros uid ->. revert Ho. destruct (uid =? o_UID opts) eqn:H1; [apply Z.eqb_eq in H1; by left|].
    destruct (uid =? 0) eqn:H2; [apply Z.eqb_eq in H2; by right|]. done.
Qed.

(** An audit without a fatal finding establishes the posture. *)
Lemma Preflight_posture opts fs : no_fatal (Preflight opts fs) -> posture opts fs.
Proof.
  unfold Preflight. rewrite !no_fatal_app. intros (Hd & Hdb & Ha & Hs & _). split.
  - unfold checkDataDir in Hd. destruct (fs_data_dir fs) as [| |[] perm owner]; [done|done| |done]. cbn [negb] in Hd.
    destruct (group_or_other perm) eqn:Hg; [done|]. exists perm, owner. split; [done|]. by apply group_or_other_false.
  - intros name d perm owner Hin Hst. unfold checkDBFiles in Hdb. cbn [map List.concat] in Hdb.
    rewrite !no_fatal_app in Hdb. destruct Hdb as (H1 & H2 & H3 & _).
    assert (forall n, (n = name) -> no_fatal (match fs_db fs n with
      | StatMissing => [] | StatError => [fatal "database file" "cannot stat" false]
      | Stat _ perm _ => if group_or_other perm then [fatal "database file" "mode, want 0600" true] else [] end) -> Z.land perm 63 = 0) as Hone.
    { intros n ->. rewrite Hst. destruct (group_or_other perm) eqn:Hg; [done|]. intros _. by apply group_or_other_false. }
    rewrite !elem_of_cons in Hin. destruct Hin as [->|[->|[->|Hin]]]; eauto. by apply not_elem_of_nil in Hin.
  - intros Hne. by apply checkAuthFile_ok.
  - unfold checkSocketMode in Hs. destruct (o_SocketMode opts =? 0) eqn:H0; bool_prop; [by rewrite H0|].
    destruct (Z.land (o_SocketMode opts) 6 =? 0) eqn:H6; bool_prop; done.
Qed.

(** A daemon is serving: what was checked, and in which order. *)
Definition served_safely (env : startup_env) (acts : list action) (cfg : serveConfig) (class : Class) : Prop :=
  (exists pre mid post, acts = pre ++ [OpenStore] ++ mid ++ [BindListener] ++ post /\
     BindListener ∉ pre /\ BindListener ∉ mid /\ CloseStore ∉ acts) /\
  posture (mkOptions (sv_authFile cfg) (bool_decide (class = ClassPublic)) (sv_socketMode cfg) (en_uid env)) (en_fs env) /\
  Classify (sv_listen cfg) (en_lookup env) = Ok class /\
  (class = ClassPublic -> sv_authFile cfg <> "" /\
     exists data tokens, en_auth_data env = Some data /\ Auth.Parse data = Ok tokens /\ tokens <> []).

Lemma admission_tokens addr tokens lookup class adm :
  evaluateListenerAdmission addr tokens lookup = Ok (class, adm) ->
  Classify addr lookup = Ok class /\ (refuse adm = false -> class = ClassPublic -> tokens <> 0).
Proof.
  unfold evaluateListenerAdmission. intros (c & Hc & H)%rbind_ok. rewrite Hc.
  destruct c; repeat case_match; simplify_eq; (split; [done|]); intros; try done; bool_prop; lia.
Qed.

(** C37: what startup guarantees before it binds.  [messq serve] binds its
    listener exactly when it goes on to serve; then the store was opened
    first, the audit of that moment found the data directory and the database
    files closed to group and other, the socket mode without other access and
    the token file (when one is named) readable, private and parseable, and a
    public address is bound only with a token file that held a token both when
    the listener was admitted and when the audit ran.  A start that ends in an
    exit binds nothing, and one that exits before the store is opened leaves
    the store untouched. *)
Theorem serve_binds_safely (args : list string) (getenv : string -> string) (env : startup_env)
    (acts : list action) (out : outcome) :
  runServe args getenv env = (acts, out) ->
  match out with
  | Serving cfg class => parseServeFlags args getenv = Ok cfg /\ served_safely env acts cfg class
  | Exit code => BindListener ∉ acts /\ (OpenStore ∈ acts <-> CloseStore ∈ acts)
  end.
Proof.
  unfold runServe. destruct (parseServeFlags args getenv) as [cfg|] eqn:Hcfg; [|intros [= <- <-]; set_solver].
  destruct (sv_devEphemeral cfg && negb (en_mkdir env)); [intros [= <- <-]; set_solver|].
  set (temp := if sv_devEphemeral cfg then [MkdirTemp] else []).
  set (untemp := if sv_devEphemeral cfg then [RemoveTemp] else []).
  assert (forall a, a ∈ temp -> a = MkdirTemp) as Ht by (unfold temp; case_match; set_solver).
  assert (forall a, a ∈ untemp -> a = RemoveTemp) as Hu by (unfold untemp; case_match; set_solver).
  assert (BindListener ∉ temp /\ OpenStore ∉ temp /\ CloseStore ∉ temp) as (T1 & T2 & T3)
    by (split_and!; intros H%Ht; done).
  assert (BindListener ∉ untemp /\ OpenStore ∉ untemp /\ CloseStore ∉ untemp) as (U1 & U2 & U3)
    by (split_and!; intros H%Hu; done).
  clearbody temp untemp. clear Ht Hu.
  destruct (if bool_decide (sv_authFile cfg = "") then _ else _) as [tokens|] eqn:Htok; [|intros [= <- <-]; set_solver].
  destruct (evaluateListenerAdmission _ _ _) as [[class adm]|] eqn:Hadm; [|intros [= <- <-]; set_solver].
  apply admission_tokens in Hadm as [Hclass Hpub].
  destruct (refuse adm) eqn:Hrefuse; [intros [= <- <-]; set_solver|].
  destruct (en_open env); [|intros [= <- <-]; set_solver]. cbn [negb].
  set (opts := mkOptions _ _ _ _). set (findings := Preflight opts (en_fs env)).
  destruct (existsb _ findings) eqn:Hfatal; [intros [= <- <-]; set_solver|].
  assert (forall a, a ∈ map (fun f => WarnFinding (f_What f)) findings -> exists w, a = WarnFinding w) as Hw.
  { intros a (f & -> & _)%mapped_in. eauto. }
  assert (BindListener ∉ map (fun f => WarnFinding (f_What f)) findings /\ CloseStore ∉ map (fun f => WarnFinding (f_What f)) findings)
    as [W1 W3] by (split; intros [w ?]%Hw; done).
  destruct (en_listen env); cbn [negb]; intros [= <- <-]; [|set_solver].
  split; [done|]. split_and!; [|by apply Preflight_posture|done|].
  - set (post := match warnBanner adm with Some b => _ | None => _ end).
    assert (CloseStore ∉ post) as P3.
    { unfold post. destruct (warnBanner adm); [|apply not_elem_of_nil]. apply not_elem_of_cons; split; [done|apply not_elem_of_nil]. }
    clearbody findings post. exists temp, (map (fun f => WarnFinding (f_What f)) findings), post. rewrite <-!app_assoc.
    split_and!; [done|done|done|]. repeat (rewrite not_elem_of_app || rewrite not_elem_of_cons). split_and!; done.
  - intros ->. specialize (Hpub eq_refl eq_refl). case_bool_decide as Ha; [simplify_eq|]. split; [done|].
    unfold loadAuthTokenCount in Htok. destruct (en_auth_data env) as [data|]; [|done].
    apply rbind_ok in Htok as (ts & Hp & [= <-]). exists data, ts. split_and!; [done|done|]. intros ->. done.
Qed.

Definition sample_args : list string := ["--data-dir=/var/lib/messq"; "--listen=tcp://0.0.0.0:7777"; "--auth-file"; "/etc/messq/tokens"].

Definition serve_env : startup_env :=
  mkEnv true (Some sample_file) (fun _ => Ok []) true
    (mkFsys (Stat true 448 (Some 1000)) (fun _ => StatMissing) (Stat false 384 (Some 1000)) (Some sample_file)) 1000 true.

Lemma serve_binds_safely_witness :
  exists cfg, runServe sample_args (fun _ => "") serve_env
    = ([OpenStore; BindListener; WarnBanner bannerPublicCleartext false], Serving cfg ClassPublic) /\
    served_safely serve_env [OpenStore; BindListener; WarnBanner bannerPublicCleartext false] cfg ClassPublic.
Proof.
  destruct (parseServeFlags sample_args (fun _ => "")) as [cfg|] eqn:H; [|vm_compute in H; discriminate].
  assert (runServe sample_args (fun _ => "") serve_env
          = ([OpenStore; BindListener; WarnBanner bannerPublicCleartext false], Serving cfg ClassPublic)) as Hr.
  { unfold runServe. rewrite H. vm_compute in H. injection H as <-. vm_compute. reflexivity. }
  exists cfg. split; [exact Hr|]. exact (proj2 (serve_binds_safely _ _ _ _ _ Hr)).
Defined.
