(* ===== verification/Purge.v ===== *)
(** * Purging a stream: internal/store/purge.go

    The unfiltered purge runs on indexed ranges, the filtered and keep-newest
    purges on an explicit list of victims.  Both drop the pending rows of the
    deleted messages and raise the generation of the consumers that held some. *)

From S2P Require Export ConsumerAdmin StoreSweep.

Module Purge.

Record PurgeSpec : Set := MkPurgeSpec {
  pg_UpToSeq : option Z;
  pg_Subject : string;
  pg_Keep : Z;
}.

Definition ValidatePurgeSpec (spec : PurgeSpec) : result unit :=
  let? _ := match pg_UpToSeq spec with
            | Some q =>
                if q <? 1 then Err (E ErrBadRequest "up_to_seq")
                else if 0 <? pg_Keep spec then Err (E ErrBadRequest "keep together with up_to_seq") else Ok tt
            | None => Ok tt
            end in
  if pg_Keep spec <? 0 then Err (E ErrBadRequest "keep is negative")
  else if bool_decide (pg_Subject spec = "") then Ok tt
  else match Subject.ParsePattern (pg_Subject spec) with
       | Ok _ => Ok tt
       | Err _ => Err (E ErrBadRequest "subject pattern does not parse")
       end.

Record PurgeImpact : Set := MkPurgeImpact {
  pi_Messages : Z;
  pi_Bytes : Z;
  pi_PendingDropped : Z;
  pi_ConsumersAffected : list string;
  pi_FirstSeqAfter : Z;
  pi_CursorBefore : Z;
  pi_CursorAfter : Z;
  pi_Clamped : bool;
}.

(** The messages of a stream up to a sequence number, and the pending rows on them. *)
Definition in_range (stream : string) (bound : Z) (m : message) : bool := on_stream stream m && (m_seq m <=? bound).
Definition row_in_range (stream : string) (bound : Z) (r : delivery) : bool :=
  bool_decide (d_stream r = stream) && (d_seq r <=? bound).

Definition countRange (stream : string) (bound : Z) : tx (Z * Z) :=
  query (fun d => (count (in_range stream bound) (messages d), sum_of m_size (in_range stream bound) (messages d))).

Definition sortStrings (l : list string) : list string := order_by String.leb l.

Definition distinctDeliveryConsumers (stream : string) (bound : Z) : tx (list string) :=
  query (fun d => sortStrings (remove_dups (map d_consumer (where_ (row_in_range stream bound) (deliveries d))))).

Definition cursorBounds (stream : string) : tx Z :=
  query (fun d => default 0 (min_of c_cursor_seq (where_ (fun c => bool_decide (c_stream c = stream)) (consumers d)))).

Definition take_stats (dMsgs dBytes : Z) (r : stats_row) : stats_row :=
  StatsRow (ss_stream r) (ss_msgs r - dMsgs) (ss_bytes r - dBytes) (ss_expired_seq r) (ss_expired_at r).

Definition adjustStats (stream : string) (dMsgs dBytes : Z) : tx unit :=
  exec (on_stream_stats (update_where (has_key ss_stream stream) (take_stats dMsgs dBytes))).

Definition bump_generation (c : consumer) : consumer :=
  Consumer (c_stream c) (c_name c) (c_filters c) (c_ack_wait_ms c) (c_max_deliver c) (c_max_ack_pending c)
    (c_backoff_ms c) (c_dead_policy c) (c_cursor_seq c) (c_generation c + 1) (c_paused c) (c_created_at c).

(** One UPDATE per affected consumer. *)
Definition bump_all (stream : string) (names : list string) : tx unit :=
  for_each names tt (fun name _ => exec (on_consumers (update_where (has_key ckey (stream, name)) bump_generation))).

Definition purge_event (stream actor : string) (im : PurgeImpact) (subj : string) : event :=
  Event 0 "stream.purge" (nullStr stream) None None None None None None (nullStr actor)
    ([("messages", DInt (pi_Messages im)); ("bytes", DInt (pi_Bytes im)); ("pending_dropped", DInt (pi_PendingDropped im));
      ("first_seq_after", DInt (pi_FirstSeqAfter im))]
     ++ if bool_decide (subj = "") then [] else [("subject", DStr subj)]).

(** Cursors behind the purged range move to its end, never back. *)
Definition clamp_forward (stream : string) (newCur : Z) : db -> db :=
  on_consumers (update_where (fun c => bool_decide (c_stream c = stream) && (c_cursor_seq c <? newCur))
                  (ConsumerAdmin.set_cursor newCur)).

Definition applyFastRange (stream : string) (dryRun : bool) (actor : string) (upper next : Z)
  : tx (PurgeImpact * list event) :=
  '(msgs, bytes) ← countRange stream upper;
  first ← query (fun d => default 0 (min_of m_seq (where_ (fun m => on_stream stream m && (upper <? m_seq m)) (messages d))));
  let first := if first =? 0 then next else first in
  affected ← distinctDeliveryConsumers stream upper;
  curBefore ← cursorBounds stream;
  if dryRun || (msgs =? 0) then mret (MkPurgeImpact msgs bytes 0 affected first curBefore 0 false, [])
  else
    dropped ← query (fun d => count (row_in_range stream upper) (deliveries d));
    _ ← exec (on_deliveries (delete_where (row_in_range stream upper)));
    _ ← exec (clamp_forward stream (upper + 1));
    curAfter ← cursorBounds stream;
    _ ← bump_all stream affected;
    n ← query (fun d => count (in_range stream upper) (messages d));
    _ ← exec (on_messages (delete_where (in_range stream upper)));
    if negb (n =? msgs) then fail (Plain "plan drift")
    else
      _ ← adjustStats stream msgs bytes;
      let im := MkPurgeImpact msgs bytes dropped affected first curBefore curAfter (negb (curBefore =? curAfter)) in
      ev ← commitEvent (purge_event stream actor im "");
      mret (im, [ev]).

(** Candidates newest first, filtered by the pattern when there is one. *)
Definition candidate (stream : string) (pat : option Subject.Pattern) (upper : Z) (m : message) : bool :=
  in_range stream upper m && match pat with None => true | Some p => Subject.Match p (m_subject m) end.

Definition selectVictims (stream : string) (pat : option Subject.Pattern) (upper : Z) (d : db) : list message :=
  order_by (fun a b => m_seq b <=? m_seq a) (where_ (candidate stream pat upper) (messages d)).

Definition keep_newest (keep : Z) (victims : list message) : list message :=
  if Z.of_nat (length victims) <=? keep then [] else if 0 <? keep then drop (Z.to_nat keep) victims else victims.

(** The consumers of the pending rows on one message, in table order. *)
Definition holds (stream : string) (upper : Z) (d : db) (seq : Z) : list string :=
  map d_consumer (where_ (fun r => row_in_range stream upper r && (d_seq r =? seq)) (deliveries d)).

Definition on_seq (stream : string) (seq : Z) (r : delivery) : bool :=
  bool_decide (d_stream r = stream) && (d_seq r =? seq).

Definition delete_victim (stream : string) (seq : Z) : tx unit :=
  n ← query (fun d => count (has_key mkey (stream, seq)) (messages d));
  _ ← exec (on_messages (delete_where (has_key mkey (stream, seq))));
  if negb (n =? 1) then fail (Plain "message vanished") else mret tt.

Definition first_after (stream : string) (next : Z) (seqs : list Z) (d : db) : Z :=
  match seqs with
  | [] => 0
  | maxV :: _ =>
      match min_of m_seq (where_ (fun m => on_stream stream m && (maxV <? m_seq m) && (m_seq m <? next)) (messages d)) with
      | Some v => if 0 <? v then v else maxV + 1
      | None => maxV + 1
      end
  end.

Definition applyScanPath (stream : string) (keep : Z) (subj : string) (dryRun : bool) (actor : string)
    (pat : option Subject.Pattern) (upper next : Z) : tx (PurgeImpact * list event) :=
  all ← query (selectVictims stream pat upper);
  let victims := keep_newest keep all in
  let seqs := map m_seq victims in
  let msgs := Z.of_nat (length victims) in
  let bytes := sumZ (map m_size victims) in
  held ← query (fun d => map (holds stream upper d) seqs);
  let affected := sortStrings (remove_dups (concat held)) in
  let dropped := sumZ (map (fun l => Z.of_nat (length l)) held) in
  first ← query (first_after stream next seqs);
  let im := MkPurgeImpact msgs bytes dropped affected first 0 0 false in
  if dryRun || (msgs =? 0) then mret (im, [])
  else
    _ ← for_each seqs tt (fun seq _ => exec (on_deliveries (delete_where (on_seq stream seq))));
    _ ← bump_all stream affected;
    _ ← for_each seqs tt (fun seq _ => delete_victim stream seq);
    _ ← adjustStats stream msgs bytes;
    ev ← commitEvent (purge_event stream actor im subj);
    mret (im, [ev]).

Definition purgeCmd (stream : string) (spec : PurgeSpec) (dryRun : bool) (actor : string) : tx (PurgeImpact * list event) :=
  pat ← (if bool_decide (pg_Subject spec = "") then mret None
         else p ← marking (lift (Subject.ParsePattern (pg_Subject spec))); mret (Some p));
  next ← query (fun d => default 1 (find_seq stream d));
  let upper := match pg_UpToSeq spec with Some q => Z.min q (next - 1) | None => next - 1 end in
  if negb (bool_decide (is_Some pat)) && (pg_Keep spec =? 0) then applyFastRange stream dryRun actor upper next
  else applyScanPath stream (pg_Keep spec) (pg_Subject spec) dryRun actor pat upper next.

(** Store.Purge *)
Definition PurgeStream (stream : string) (spec : PurgeSpec) (dryRun : bool) (actor : string)
  : tx (PurgeImpact * list event) :=
  _ ← lift (Policy.ValidateExistingStreamName stream);
  _ ← lift (ValidatePurgeSpec spec);
  purgeCmd stream spec dryRun actor.

(** ** Facts *)

(** The messages, and the pending rows, at the sequence numbers [V] of a stream. *)
Definition hit (stream : string) (V : Z -> bool) (m : message) : bool := on_stream stream m && V (m_seq m).
Definition row_hit (stream : string) (V : Z -> bool) (r : delivery) : bool :=
  bool_decide (d_stream r = stream) && V (d_seq r).

(** A purge tears a consumer's pending set when it takes some of its rows and leaves others. *)
Definition untorn (stream : string) (V : Z -> bool) (ds : list delivery) : Prop :=
  forall r r', r ∈ ds -> r' ∈ ds -> row_hit stream V r = true -> d_stream r' = stream ->
    d_consumer r' = d_consumer r -> row_hit stream V r' = true.

Definition bumped (stream : string) (names : list string) (cs : list consumer) : list consumer :=
  update_where (fun c => bool_decide (c_stream c = stream) && bool_decide (c_name c ∈ names)) bump_generation cs.

Lemma bumped_cons stream n names cs :
  n ∉ names ->
  bumped stream names (update_where (has_key ckey (stream, n)) bump_generation cs) = bumped stream (n :: names) cs.
Proof.
  intros Hn. unfold bumped, update_where. rewrite map_map. apply map_ext. intros c.
  unfold has_key. destruct (decide (ckey c = (stream, n))) as [Hk|Hk].
  - rewrite (bool_decide_true (ckey c = (stream, n))) by done. injection Hk as Hs Hnm.
    rewrite (bool_decide_false (c_name (bump_generation c) ∈ names)) by (simpl; congruence).
    rewrite andb_false_r, (bool_decide_true (c_stream c = stream)) by done.
    by rewrite bool_decide_true by (rewrite Hnm; left).
  - rewrite (bool_decide_false (ckey c = (stream, n))) by done.
    destruct (decide (c_stream c = stream)) as [Hs|Hs]; [|by rewrite !(bool_decide_false (c_stream c = stream))].
    rewrite (bool_decide_ext (c_name c ∈ names) (c_name c ∈ n :: names)); [done|].
    rewrite elem_of_cons. split; [by right|]. intros [Heq|?]; [|done]. destruct Hk. unfold ckey. congruence.
Qed.

Lemma bump_all_run stream names w :
  NoDup names -> bump_all stream names w = (World (on_consumers (bumped stream names) (w_db w)) (w_mem w), Ok tt).
Proof.
  intros Hnd. revert w. induction Hnd as [|n names Hn Hnd IH]; intros w; simpl.
  - assert (bumped stream [] (consumers (w_db w)) = consumers (w_db w)) as Hid.
    { apply update_none. intros c _. by rewrite (bool_decide_false (c_name c ∈ [])), andb_false_r by apply not_elem_of_nil. }
    destruct w as [[] m]. unfold on_consumers. simpl in *. by rewrite Hid.
  - trans (bump_all stream names (World (on_consumers (update_where (has_key ckey (stream, n)) bump_generation) (w_db w)) (w_mem w)));
      [done|]. rewrite IH. unfold on_consumers. simpl. by rewrite bumped_cons.
Qed.

Lemma affected_nodup (l : list string) : NoDup (sortStrings (remove_dups l)).
Proof. unfold sortStrings. rewrite order_by_Permutation. apply NoDup_remove_dups. Qed.

Lemma elem_of_affected (l : list string) x : x ∈ sortStrings (remove_dups l) <-> x ∈ l.
Proof. unfold sortStrings. by rewrite elem_of_order_by, elem_of_remove_dups. Qed.

Section Invariant.
Context `{Ids}.

(** The database a purge of [V] leaves: [newCur] is the forward clamp, or 0. *)
Record purged (stream : string) (V : Z -> bool) (names : list string) (newCur : Z) (w w' : world) : Prop := {
  pu_streams : streams (w_db w') = streams (w_db w);
  pu_seq : stream_seq (w_db w') = stream_seq (w_db w);
  pu_messages : messages (w_db w') = delete_where (hit stream V) (messages (w_db w));
  pu_deliveries : deliveries (w_db w') = delete_where (row_hit stream V) (deliveries (w_db w));
  pu_consumers : consumers (w_db w') = bumped stream names (update_where
    (fun c => bool_decide (c_stream c = stream) && (c_cursor_seq c <? newCur)) (ConsumerAdmin.set_cursor newCur) (consumers (w_db w)));
  pu_stats : stream_stats (w_db w') = update_where (has_key ss_stream stream)
    (take_stats (count (hit stream V) (messages (w_db w))) (sum_of m_size (hit stream V) (messages (w_db w)))) (stream_stats (w_db w));
  pu_mem : w_mem w' = w_mem w;
}.

(** A purge that tears no consumer keeps the invariant. *)
Lemma purged_ok stream V names newCur w w' :
  world_ok w -> purged stream V names newCur w w' -> untorn stream V (deliveries (w_db w)) ->
  (forall n, n ∈ names -> exists r, r ∈ deliveries (w_db w) /\ row_hit stream V r = true /\ d_consumer r = n) ->
  (forall n, find_seq stream (w_db w) = Some n -> newCur <= n) -> world_ok w'.
Proof.
  intros [IS IM IC ID] [Est Esq Em Ed Ec Ess Emem] Htorn Hnames Hcur. unfold world_ok. rewrite Emem.
  set (moved := fun c => if bool_decide (c_stream c = stream) && (c_cursor_seq c <? newCur) then ConsumerAdmin.set_cursor newCur c else c).
  assert (Hcon : forall c', c' ∈ consumers (w_db w') -> exists c, c ∈ consumers (w_db w) /\
            (c' = moved c \/ c' = bump_generation (moved c) /\ c_stream c = stream /\ c_name c ∈ names)).
  { intros c'. rewrite Ec. intros (c1 & Hc1 & ->)%elem_of_update. apply elem_of_update in Hc1 as (c & Hc & ->). exists c.
    split; [done|]. fold (moved c). destruct (bool_decide (c_stream (moved c) = stream) && _) eqn:Hb; [|by left]. right.
    bool_prop. destruct Hb as [Hs Hn]. unfold moved in Hs, Hn. by destruct (bool_decide _ && _). }
  assert (Hmoved : forall c, ckey (moved c) = ckey c /\ c_generation (moved c) = c_generation c /\
            c_max_ack_pending (moved c) = c_max_ack_pending c /\ c_filters (moved c) = c_filters c /\ c_cursor_seq c <= c_cursor_seq (moved c)).
  { intros c. unfold moved. destruct (bool_decide _ && _) eqn:Hb; simpl; [|split_and!; done || lia]. bool_prop. split_and!; try done. lia. }
  split; rewrite ?Est, ?Esq, ?Em, ?Ess; [done|..].
  - apply (MsgInv_delete stream (hit stream V)); [|done|done]. intros m _. unfold hit, on_stream. bool_prop. tauto.
  - split; [rewrite Ec; unfold bumped; rewrite !(key_update ckey) by done; exact (inv_con_key _ _ IC)|].
    intros c' (c & Hc & Hc')%Hcon. destruct (inv_con _ _ IC c Hc) as (Hg & Hmax & Hf & n & Hn & Hb).
    destruct (Hmoved c) as (Hk & Hg' & Hm' & Hf' & Hle). injection Hk as Hs _.
    assert (Hup : c_cursor_seq (moved c) <= n).
    { unfold moved in *. destruct (bool_decide (c_stream c = stream) && _) eqn:Hmv; [|lia]. simpl. bool_prop.
      destruct Hmv as [<- _]. by apply Hcur. }
    destruct Hc' as [-> |(-> & _)]; simpl; rewrite ?Hs, ?Hg', ?Hm', ?Hf'; split_and!; try done; try lia; exists n; split; (done || lia).
  - pose proof (DelInv_delete _ _ _ (row_hit stream V) ID) as [Ik Ir Icon Imsg Ib]. rewrite Ed. split; try done.
    + intros r Hr. destruct (Icon r Hr) as (c & Hc & Hk & Hg & Hq).
      destruct (Hmoved c) as (Hk' & Hg' & _ & _ & Hle). apply elem_of_delete in Hr as Hr'. destruct Hr' as [Hno Hr'].
      exists (moved c). split; [|split_and!; [congruence|congruence|lia]]. rewrite Ec. apply elem_of_update. exists (moved c).
      split; [apply elem_of_update; by exists c|]. destruct (bool_decide _ && _) eqn:Hb; [|done]. exfalso. bool_prop.
      destruct Hb as [Hs Hn]. destruct (Hnames _ Hn) as (r0 & Hr0 & Hhit & Hcn). unfold ckey in Hk, Hk'.
      assert (row_hit stream V r = true); [|congruence]. apply (Htorn r0 r Hr0 Hr' Hhit); congruence.
    + intros r Hr. pose proof (Imsg r Hr) as (m & Hk & Hm)%mapped_in. rewrite Hk. apply in_mapped, elem_of_delete. split; [|done].
      apply elem_of_delete in Hr as [Hno _]. injection Hk as Hks Hkq. unfold hit, on_stream. unfold row_hit in Hno. by rewrite <-Hks, <-Hkq.
    + intros c' (c & Hc & Hc')%Hcon. destruct (Hmoved c) as (Hk & _ & Hm' & _). injection Hk as Hs Hn. specialize (Ib c Hc).
      destruct Hc' as [-> |(-> & _)]; simpl; by rewrite Hs, Hn, Hm'.
Qed.

Lemma wp_bump_all stream names (Q : unit -> world -> Prop) F w :
  NoDup names -> Q tt (World (on_consumers (bumped stream names) (w_db w)) (w_mem w)) -> wp (bump_all stream names) Q F w.
Proof. intros Hnd HQ. unfold wp. by rewrite bump_all_run. Qed.

(** The consumers with a pending row in the purged set, sorted. *)
Definition affected_by (stream : string) (V : Z -> bool) (ds : list delivery) : list string :=
  sortStrings (remove_dups (map d_consumer (where_ (row_hit stream V) ds))).

Lemma elem_of_affected_by stream V ds n :
  n ∈ affected_by stream V ds <-> exists r, r ∈ ds /\ row_hit stream V r = true /\ d_consumer r = n.
Proof.
  unfold affected_by. rewrite elem_of_affected. split.
  - intros (r & -> & [Hh Hr]%elem_of_where)%mapped_in. eauto.
  - intros (r & Hr & Hh & <-). by apply in_mapped, elem_of_where.
Qed.

(** When no message is in the set, neither is a pending row. *)
Lemma no_rows stream V w :
  world_ok w -> count (hit stream V) (messages (w_db w)) = 0 -> forall r, r ∈ deliveries (w_db w) -> row_hit stream V r = false.
Proof.
  intros Hok Hz r Hr. rewrite count_0 in Hz. pose proof (inv_del_msg _ _ _ (inv_deliveries _ _ Hok) r Hr) as (m & Hk & Hm)%mapped_in.
  specialize (Hz m Hm). injection Hk as Hs Hq. unfold row_hit. unfold hit, on_stream in Hz. by rewrite Hs, Hq.
Qed.

Lemma purged_nothing stream V w :
  world_ok w -> count (hit stream V) (messages (w_db w)) = 0 ->
  purged stream V (affected_by stream V (deliveries (w_db w))) 0 w w.
Proof.
  intros Hok Hz. pose proof (no_rows stream V w Hok Hz) as Hr. pose proof (proj1 (count_0 _ _) Hz) as Hm. split; try done.
  - symmetry. rewrite delete_omap. apply omap_id. intros m Hin. by rewrite Hm.
  - symmetry. rewrite delete_omap. apply omap_id. intros r Hin. by rewrite Hr.
  - rewrite (update_none _ (ConsumerAdmin.set_cursor 0)).
    + symmetry. apply update_none. intros c _. rewrite (bool_decide_false (_ ∈ _)), andb_false_r; [done|].
      intros (r & Hin & Hh & _)%elem_of_affected_by. by rewrite Hr in Hh.
    + intros c Hc. destruct (inv_con _ _ (inv_consumers _ _ Hok) c Hc) as (_ & _ & _ & n & _ & Hb).
      destruct (Z.ltb_spec (c_cursor_seq c) 0); [lia|]. apply andb_false_r.
  - rewrite Hz, sum_of_0 by done. symmetry. unfold update_where. rewrite <-(map_id (stream_stats _)) at 2. apply map_ext.
    intros []. destruct (has_key _ _ _); [|done]. unfold take_stats. simpl. by rewrite !Z.sub_0_r.
Qed.

Lemma fast_wp stream actor upper next w :
  world_ok w ->
  let V := fun q => q <=? upper in
  let n := count (hit stream V) (messages (w_db w)) in
  wp (applyFastRange stream false actor upper next)
     (fun '(im, _) w' => purged stream V (affected_by stream V (deliveries (w_db w))) (if n =? 0 then 0 else upper + 1) w w' /\
        pi_Messages im = n /\ pi_Bytes im = sum_of m_size (hit stream V) (messages (w_db w)) /\
        pi_PendingDropped im = count (row_hit stream V) (deliveries (w_db w)) /\
        pi_ConsumersAffected im = affected_by stream V (deliveries (w_db w)))
     (fun _ _ => False) w.
Proof.
  intros Hok V n. unfold applyFastRange, countRange, distinctDeliveryConsumers, cursorBounds. wp_steps. simpl.
  change (count (in_range stream upper) (messages (w_db w))) with n. destruct (Z.eqb_spec n 0) as [Hz|Hz].
  - wp_steps. split_and!; try done; [by apply purged_nothing|]. simpl. symmetry. apply count_0, no_rows; done.
  - wp_steps. apply wp_bump_all; [apply affected_nodup|]. wp_steps. simpl. rewrite Z.eqb_refl. simpl.
    unfold adjustStats. wp_steps. split_and!; try done.
Qed.

(** *** The scan path *)

Definition among (seqs : list Z) : Z -> bool := fun q => bool_decide (q ∈ seqs).

Lemma row_hit_cons stream q seqs r : row_hit stream (among (q :: seqs)) r = on_seq stream q r || row_hit stream (among seqs) r.
Proof.
  unfold row_hit, on_seq, among. rewrite <-andb_orb_distrib_r. f_equal. apply Bool.eq_iff_eq_true.
  rewrite orb_true_iff, !bool_decide_eq_true, elem_of_cons, Z.eqb_eq. done.
Qed.

Lemma hit_cons stream q seqs m :
  hit stream (among (q :: seqs)) m = has_key mkey (stream, q) m || hit stream (among seqs) m.
Proof.
  unfold hit, on_stream, among, has_key, mkey. apply Bool.eq_iff_eq_true. bool_prop. rewrite elem_of_cons. split.
  - intros [-> [-> |?]]; [by left|by right].
  - intros [[= -> ->]|[-> ?]]; split; auto.
Qed.

Lemma drop_rows_run stream seqs w :
  for_each seqs tt (fun seq _ => exec (on_deliveries (delete_where (on_seq stream seq)))) w
  = (World (on_deliveries (delete_where (row_hit stream (among seqs))) (w_db w)) (w_mem w), Ok tt).
Proof.
  revert w. induction seqs as [|q seqs IH]; intros w.
  - simpl. rewrite on_deliveries_id; [by destruct w|]. rewrite delete_omap. apply omap_id. intros r _.
    unfold row_hit, among. by rewrite (bool_decide_false (_ ∈ [])), andb_false_r by apply not_elem_of_nil.
  - etrans; [exact (IH (World (on_deliveries (delete_where (on_seq stream q)) (w_db w)) (w_mem w)))|].
    unfold on_deliveries. simpl. rewrite delete_where_twice.
    erewrite delete_where_ext; [done|]. intros r _. by rewrite row_hit_cons.
Qed.

Lemma delete_victims_run stream seqs w :
  NoDup seqs -> (forall q, q ∈ seqs -> count (has_key mkey (stream, q)) (messages (w_db w)) = 1) ->
  for_each seqs tt (fun seq _ => delete_victim stream seq) w
  = (World (on_messages (delete_where (hit stream (among seqs))) (w_db w)) (w_mem w), Ok tt).
Proof.
  intros Hnd. revert w. induction Hnd as [|q seqs Hq Hnd IH]; intros w Hone.
  - simpl. destruct w as [[] mm]. unfold on_messages. simpl. rewrite delete_omap, omap_id; [done|]. intros m _.
    unfold hit, among. by rewrite (bool_decide_false (_ ∈ [])), andb_false_r by apply not_elem_of_nil.
  - set (w1 := World (on_messages (delete_where (has_key mkey (stream, q))) (w_db w)) (w_mem w)).
    assert (Hstep : delete_victim stream q w = (w1, Ok tt)).
    { unfold delete_victim, query, exec. unfold mbind, tx_bind. simpl. rewrite (Hone q) by left. done. }
    simpl. unfold mbind, tx_bind. rewrite Hstep. etrans; [apply (IH w1)|].
    + intros q' Hq'. unfold w1. simpl. rewrite count_delete, (Hone q') by (by right).
      rewrite (proj2 (count_0 _ _)); [done|]. intros m _. unfold has_key. apply not_true_iff_false. bool_prop.
      intros [Hk Hk']. congruence.
    + unfold w1, on_messages. simpl. rewrite delete_where_twice. erewrite delete_where_ext; [done|]. intros m _. by rewrite hit_cons.
Qed.

Lemma holds_spec stream upper d seqs :
  NoDup seqs -> (forall q, q ∈ seqs -> q <= upper) ->
  sumZ (map (fun l => Z.of_nat (length l)) (map (holds stream upper d) seqs)) = count (row_hit stream (among seqs)) (deliveries d) /\
  forall n, n ∈ concat (map (holds stream upper d) seqs) <->
    exists r, r ∈ deliveries d /\ row_hit stream (among seqs) r = true /\ d_consumer r = n.
Proof.
  intros Hnd Hle. induction Hnd as [|q seqs Hq Hnd IH]; simpl.
  - assert (Hno : forall r, row_hit stream (among []) r = false).
    { intros r. unfold row_hit, among. by rewrite (bool_decide_false (_ ∈ [])), andb_false_r by apply not_elem_of_nil. }
    split; [symmetry; apply count_0; auto|]. intros n. rewrite elem_of_nil. split; [done|]. intros (r & _ & Hr & _). by rewrite Hno in Hr.
  - destruct IH as [IHc IHn]; [intros q' Hq'; apply Hle; by right|].
    assert (Hh : holds stream upper d q = map d_consumer (where_ (on_seq stream q) (deliveries d))).
    { unfold holds. f_equal. apply List.filter_ext. intros r. unfold row_in_range, on_seq. specialize (Hle q ltac:(left)).
      destruct (Z.eqb_spec (d_seq r) q) as [-> |]; [|by rewrite !andb_false_r]. by rewrite (proj2 (Z.leb_le q upper)), andb_true_r. }
    rewrite IHc, Hh. split.
    + rewrite length_map. fold (count (on_seq stream q) (deliveries d)).
      rewrite <-count_or_disjoint; [apply count_ext; intros r _; by rewrite row_hit_cons|].
      intros r _ [_ Hrq%Z.eqb_eq]%andb_true_iff. unfold row_hit, among. by rewrite Hrq, (bool_decide_false (q ∈ seqs)), andb_false_r.
    + intros n. rewrite elem_of_app, IHn. setoid_rewrite row_hit_cons. setoid_rewrite orb_true_iff. split.
      * intros [(r & -> & [Hr Hin]%elem_of_where)%mapped_in|(r & ? & ? & ?)]; eauto 8.
      * intros (r & Hr & [Ho|Ho] & <-); [left; by apply in_mapped, elem_of_where|right; eauto].
Qed.

(** What a purge deletes: the candidates with [keep] or more candidates above them. *)
Definition doomed (stream : string) (pat : option Subject.Pattern) (keep upper : Z) (ms : list message) (m : message) : bool :=
  candidate stream pat upper m
  && (keep <=? count (fun m' => candidate stream pat upper m' && (m_seq m <? m_seq m')) ms).

Definition doomed_seqs (stream : string) (pat : option Subject.Pattern) (keep upper : Z) (ms : list message) : Z -> bool :=
  fun q => existsb (fun m => doomed stream pat keep upper ms m && (m_seq m =? q)) ms.

Lemma candidate_stream stream pat upper m : candidate stream pat upper m = true -> m_stream m = stream /\ m_seq m <= upper.
Proof. unfold candidate, in_range, on_stream. bool_prop. tauto. Qed.

Lemma doomed_hit stream pat keep upper ms m :
  NoDup (map mkey ms) -> m ∈ ms -> hit stream (doomed_seqs stream pat keep upper ms) m = doomed stream pat keep upper ms m.
Proof.
  intros Hnd Hm. apply Bool.eq_iff_eq_true. unfold hit, on_stream, doomed_seqs. bool_prop. rewrite existsb_exists. split.
  - intros [Hs (m' & Hm' & [Hd Hq]%andb_true_iff)]. apply list_elem_of_In in Hm'. apply Z.eqb_eq in Hq.
    assert (m' = m) as ->; [|done]. apply (key_unique mkey ms); try done. unfold mkey.
    apply andb_true_iff in Hd as [[Hs' _]%candidate_stream _]. congruence.
  - intros Hd. pose proof Hd as Hd'. apply andb_true_iff in Hd' as [[Hs _]%candidate_stream _]. split; [done|]. exists m.
    rewrite Hd, Z.eqb_refl. split; [by apply list_elem_of_In|done].
Qed.

(** Every pending row is on a stored message, so a set of sequence numbers matters
    only at those. *)
Lemma row_hit_ext stream V V' w :
  world_ok w -> (forall m, m ∈ messages (w_db w) -> hit stream V m = hit stream V' m) ->
  forall r, r ∈ deliveries (w_db w) -> row_hit stream V r = row_hit stream V' r.
Proof.
  intros Hok HV r Hr. pose proof (inv_del_msg _ _ _ (inv_deliveries _ _ Hok) r Hr) as (m & Hk & Hm)%mapped_in.
  injection Hk as Hs Hq. specialize (HV m Hm). unfold hit, on_stream in HV. unfold row_hit. by rewrite Hs, Hq.
Qed.

(** [purged] depends on the list of names only through its members. *)
Lemma purged_names stream V names names' newCur w w' :
  (forall n, n ∈ names' <-> n ∈ names) -> purged stream V names newCur w w' -> purged stream V names' newCur w w'.
Proof.
  intros Hn [Est Esq Em Ed Ec Ess Emem]. split; try done. rewrite Ec. unfold bumped, update_where. rewrite !map_map. apply map_ext.
  intros c. by rewrite !(bool_decide_ext (_ ∈ names') (_ ∈ names)) by apply Hn.
Qed.

(** [purged] depends on the set only at the stored messages. *)
Lemma purged_ext stream V V' names newCur w w' :
  world_ok w -> (forall m, m ∈ messages (w_db w) -> hit stream V m = hit stream V' m) ->
  purged stream V names newCur w w' -> purged stream V' names newCur w w'.
Proof.
  intros Hok HV [Est Esq Em Ed Ec Ess Emem].
  pose proof (row_hit_ext stream V V' w Hok HV) as Hr. split; try done.
  - rewrite Em. by apply delete_where_ext.
  - rewrite Ed. by apply delete_where_ext.
  - by rewrite Ess, (count_ext _ _ _ HV), (sum_of_ext _ _ _ _ HV).
Qed.

Lemma victims_spec stream pat keep upper w :
  world_ok w -> 0 <= keep ->
  let victims := keep_newest keep (selectVictims stream pat upper (w_db w)) in
  NoDup (map m_seq victims) /\
  forall m, m ∈ victims <-> m ∈ messages (w_db w) /\ doomed stream pat keep upper (messages (w_db w)) m = true.
Proof.
  intros Hok Hkeep. set (ms := messages (w_db w)). set (all := selectVictims stream pat upper (w_db w)).
  assert (Hdrop : keep_newest keep all = drop (Z.to_nat keep) all).
  { unfold keep_newest. destruct (Z.leb_spec (Z.of_nat (length all)) keep); [by rewrite drop_ge by lia|].
    destruct (Z.ltb_spec 0 keep); [done|]. by replace keep with 0 by lia. }
  assert (Hnd : NoDup (map m_seq (where_ (candidate stream pat upper) ms))).
  { pose proof (key_where mkey (candidate stream pat upper) _ (inv_msg_key _ _ _ _ (inv_messages _ _ Hok))) as Hnd.
    rewrite <-(map_map mkey snd). apply NoDup_fmap_2_strong; [|done]. unfold ms.
    intros k k' (m & -> & [[Hs _]%candidate_stream _]%elem_of_where)%mapped_in
      (m' & -> & [[Hs' _]%candidate_stream _]%elem_of_where)%mapped_in. unfold mkey. simpl. congruence. }
  pose proof (order_by_desc_sorted m_seq _ Hnd) as Hsort. change (StronglySorted (fun a b => m_seq b < m_seq a) all) in Hsort.
  simpl. rewrite Hdrop. split.
  - apply (sublist_NoDup _ (map m_seq all)).
    + apply (key_order_by m_seq). done.
    + rewrite <-skipn_map. apply sublist_drop.
  - intros m. rewrite elem_of_drop_ranked by done. unfold all at 1, selectVictims. rewrite elem_of_order_by, elem_of_where.
    unfold doomed. rewrite andb_true_iff, Z.leb_le, Z2Nat.id by done.
    assert (Hc : count (fun x => m_seq m <? m_seq x) all = count (fun m' => candidate stream pat upper m' && (m_seq m <? m_seq m')) ms).
    { unfold all, selectVictims. by rewrite (count_Permutation _ _ _ (order_by_Permutation _ _)), count_where. }
    rewrite Hc. tauto.
Qed.

(** The plan of the scan path, at the set of sequence numbers it deletes. *)
Record scan_plan (stream : string) (V : Z -> bool) (w : world) (victims : list message) (held : list (list string)) : Prop := {
  sp_nodup : NoDup (map m_seq victims);
  sp_one : forall q, q ∈ map m_seq victims -> count (has_key mkey (stream, q)) (messages (w_db w)) = 1;
  sp_hit : forall m, m ∈ messages (w_db w) -> hit stream (among (map m_seq victims)) m = hit stream V m;
  sp_rows : forall r, r ∈ deliveries (w_db w) -> row_hit stream (among (map m_seq victims)) r = row_hit stream V r;
  sp_count : Z.of_nat (length victims) = count (hit stream V) (messages (w_db w));
  sp_bytes : sumZ (map m_size victims) = sum_of m_size (hit stream V) (messages (w_db w));
  sp_held : sumZ (map (fun l => Z.of_nat (length l)) held) = count (row_hit stream V) (deliveries (w_db w));
  sp_names : forall n, n ∈ sortStrings (remove_dups (concat held)) <-> n ∈ affected_by stream V (deliveries (w_db w));
}.

Lemma scan_planned stream keep pat upper w :
  world_ok w -> 0 <= keep ->
  let victims := keep_newest keep (selectVictims stream pat upper (w_db w)) in
  scan_plan stream (doomed_seqs stream pat keep upper (messages (w_db w))) w victims
    (map (holds stream upper (w_db w)) (map m_seq victims)).
Proof.
  intros Hok Hkeep. pose proof (inv_msg_key _ _ _ _ (inv_messages _ _ Hok)) as Hkey.
  destruct (victims_spec stream pat keep upper w Hok Hkeep) as [Hnd Hvic]. cbv zeta.
  set (victims := keep_newest keep (selectVictims stream pat upper (w_db w))) in *.
  set (V := doomed_seqs stream pat keep upper (messages (w_db w))).
  assert (Hstr : forall m, m ∈ victims -> m_stream m = stream /\ m_seq m <= upper).
  { intros m [_ [Hc _]%andb_true_iff]%Hvic. by eapply candidate_stream. }
  assert (Hhit : forall m, m ∈ messages (w_db w) -> hit stream (among (map m_seq victims)) m = hit stream V m).
  { intros m Hm. unfold V. rewrite doomed_hit by done. apply Bool.eq_iff_eq_true. unfold hit, on_stream, among. bool_prop. split.
    - intros [Hs (m' & Hq & Hm')%mapped_in]. pose proof (Hstr m' Hm') as [Hs' _]. apply Hvic in Hm' as [Hin Hd].
      assert (m = m') as ->; [|done]. apply (key_unique mkey (messages (w_db w))); try done. unfold mkey. congruence.
    - intros Hd. assert (Hv : m ∈ victims) by by apply Hvic. split; [by apply Hstr|by apply in_mapped]. }
  pose proof (row_hit_ext stream _ V w Hok Hhit) as Hrow.
  assert (Hperm : Permutation victims (where_ (hit stream V) (messages (w_db w)))).
  { apply select_Permutation; [by apply NoDup_fmap_1 in Hkey|by apply NoDup_fmap_1 in Hnd|].
    intros m. rewrite Hvic. split; intros [Hm Hd]; (split; [done|]); [by unfold V; rewrite doomed_hit|by unfold V in Hd; rewrite doomed_hit in Hd]. }
  destruct (holds_spec stream upper (w_db w) (map m_seq victims) Hnd) as [Hsumh Helem].
  { intros q (m & -> & Hm)%mapped_in. by apply Hstr. }
  split; try done.
  - intros q (m & -> & Hm)%mapped_in. pose proof (Hstr m Hm) as [<- _]. apply Hvic in Hm as [Hm _].
    apply (count_one mkey _ (mkey m) _ m); try done; [|by apply has_key_true]. intros x. apply has_key_true.
  - unfold count. by rewrite Hperm.
  - unfold sum_of. apply sumZ_Permutation, Permutation_map, Hperm.
  - by rewrite Hsumh, (count_ext _ _ _ Hrow).
  - intros n. rewrite elem_of_affected, Helem, elem_of_affected_by. split; intros (r & Hr & Hh & Hc); exists r; (split; [done|]);
      [rewrite <-Hrow by done|rewrite Hrow by done]; done.
Qed.

Lemma scan_wp stream keep subj actor pat upper next w :
  world_ok w -> 0 <= keep ->
  let V := doomed_seqs stream pat keep upper (messages (w_db w)) in
  wp (applyScanPath stream keep subj false actor pat upper next)
     (fun '(im, _) w' => purged stream V (pi_ConsumersAffected im) 0 w w' /\
        pi_Messages im = count (hit stream V) (messages (w_db w)) /\
        pi_Bytes im = sum_of m_size (hit stream V) (messages (w_db w)) /\
        pi_PendingDropped im = count (row_hit stream V) (deliveries (w_db w)) /\
        forall n, n ∈ pi_ConsumersAffected im <-> n ∈ affected_by stream V (deliveries (w_db w)))
     (fun _ _ => False) w.
Proof.
  intros Hok Hkeep V. unfold applyScanPath. apply wp_bind, wp_query. apply wp_bind, wp_query. apply wp_bind, wp_query.
  destruct (scan_planned stream keep pat upper w Hok Hkeep) as [Hnd Hone Hhit Hrow Hlen Hsum Hheld Hnames].
  set (victims := keep_newest keep (selectVictims stream pat upper (w_db w))) in *. fold V in Hhit, Hrow, Hlen, Hsum, Hheld, Hnames.
  set (names := sortStrings _) in *. destruct (Z.eqb_spec (Z.of_nat (length victims)) 0) as [Hz|Hz].
  - wp_steps. split_and!; try done. simpl. apply (purged_names _ _ (affected_by stream V (deliveries (w_db w)))); [done|].
    apply purged_nothing; [done|]. by rewrite <-Hlen.
  - apply wp_bind. unfold wp at 1. rewrite drop_rows_run. apply wp_bind, wp_bump_all; [apply affected_nodup|].
    apply wp_bind. unfold wp at 1. rewrite delete_victims_run by done. unfold adjustStats. wp_steps. split_and!; try done.
    rewrite Hlen, Hsum. split; try done; simpl.
    + by apply delete_where_ext.
    + by apply delete_where_ext.
    + f_equal. rewrite (update_none _ (ConsumerAdmin.set_cursor 0)); [done|].
      intros c Hc. destruct (inv_con _ _ (inv_consumers _ _ Hok) c Hc) as (_ & _ & _ & n & _ & Hb).
      destruct (Z.ltb_spec (c_cursor_seq c) 0); [lia|]. apply andb_false_r.
Qed.

(** The compiled pattern and the end of the range a request asks for. *)
Definition pattern_of (spec : PurgeSpec) : option Subject.Pattern :=
  if bool_decide (pg_Subject spec = "") then None
  else match Subject.ParsePattern (pg_Subject spec) with Ok p => Some p | Err _ => None end.

Definition range_end (stream : string) (spec : PurgeSpec) (d : db) : Z :=
  let last := default 1 (find_seq stream d) - 1 in
  match pg_UpToSeq spec with Some q => Z.min q last | None => last end.

Definition fast_path (spec : PurgeSpec) : bool := bool_decide (pg_Subject spec = "") && (pg_Keep spec =? 0).

Lemma valid_spec spec :
  ValidatePurgeSpec spec = Ok tt ->
  0 <= pg_Keep spec /\ (pg_Subject spec <> "" -> exists p, Subject.ParsePattern (pg_Subject spec) = Ok p).
Proof.
  unfold ValidatePurgeSpec. destruct (match pg_UpToSeq spec with Some _ => _ | None => _ end); simpl; [|done].
  destruct (Z.ltb_spec (pg_Keep spec) 0); [done|]. case_bool_decide; [done|].
  destruct (Subject.ParsePattern (pg_Subject spec)) as [p|]; [|done]. intros _. split; [done|]. by exists p.
Qed.

(** A validated purge runs one of the two paths. *)
Lemma purge_paths stream spec dryRun actor w :
  Policy.ValidateExistingStreamName stream = Ok tt -> ValidatePurgeSpec spec = Ok tt ->
  PurgeStream stream spec dryRun actor w =
    (if fast_path spec
     then applyFastRange stream dryRun actor (range_end stream spec (w_db w)) (default 1 (find_seq stream (w_db w))) w
     else applyScanPath stream (pg_Keep spec) (pg_Subject spec) dryRun actor (pattern_of spec)
            (range_end stream spec (w_db w)) (default 1 (find_seq stream (w_db w))) w).
Proof.
  intros Hn Hv. destruct (valid_spec spec Hv) as [_ Hp]. unfold PurgeStream, purgeCmd, lift, fast_path, pattern_of.
  unfold mbind, tx_bind. rewrite Hn, Hv. destruct (decide (pg_Subject spec = "")) as [He|He].
  - rewrite !(bool_decide_true (pg_Subject spec = "")) by done. simpl. by destruct (pg_Keep spec =? 0).
  - rewrite !(bool_decide_false (pg_Subject spec = "")) by done. destruct (Hp He) as [p Hpp]. unfold marking. rewrite Hpp. done.
Qed.

(** On the fast path the doomed messages are the whole range. *)
Lemma doomed_fast stream spec upper ms m :
  fast_path spec = true -> doomed stream (pattern_of spec) (pg_Keep spec) upper ms m = hit stream (fun q => q <=? upper) m.
Proof.
  unfold fast_path, pattern_of. intros [-> ->%Z.eqb_eq]%andb_true_iff. unfold doomed, candidate.
  rewrite (proj2 (Z.leb_le 0 _)) by apply count_nonneg. by rewrite !andb_true_r.
Qed.

Lemma whole_untorn stream w :
  world_ok w ->
  untorn stream (doomed_seqs stream None 0 (range_end stream (MkPurgeSpec None "" 0) (w_db w)) (messages (w_db w))) (deliveries (w_db w)).
Proof.
  intros Hok r r' _ Hr' _ Hs _. pose proof (inv_del_msg _ _ _ (inv_deliveries _ _ Hok) r' Hr') as (m & Hk & Hm)%mapped_in.
  injection Hk as Hks Hkq. unfold row_hit. rewrite Hs, bool_decide_true by done. rewrite Hkq. simpl.
  assert (Hd : doomed stream None 0 (range_end stream (MkPurgeSpec None "" 0) (w_db w)) (messages (w_db w)) m = true).
  { rewrite (doomed_fast stream (MkPurgeSpec None "" 0)) by done. unfold hit, on_stream. rewrite bool_decide_true by congruence. simpl. apply Z.leb_le.
    destruct (inv_msg_seq _ _ _ _ (inv_messages _ _ Hok) m Hm) as (n & Hn & Hb). rewrite <-Hks, Hs in Hn.
    unfold range_end. simpl. change (find_seq stream (w_db w)) with (seq_of stream (stream_seq (w_db w))). rewrite Hn. simpl. lia. }
  rewrite <-doomed_hit in Hd; [|exact (inv_msg_key _ _ _ _ (inv_messages _ _ Hok))|done].
  by apply andb_true_iff in Hd as [_ Hd].
Qed.

Lemma range_end_lt stream spec d n : find_seq stream d = Some n -> range_end stream spec d < n.
Proof. intros Hn. unfold range_end. rewrite Hn. simpl. destruct (pg_UpToSeq spec); lia. Qed.

Lemma purge_wp stream spec actor w :
  world_ok w -> Policy.ValidateExistingStreamName stream = Ok tt -> ValidatePurgeSpec spec = Ok tt ->
  let V := doomed_seqs stream (pattern_of spec) (pg_Keep spec) (range_end stream spec (w_db w)) (messages (w_db w)) in
  wp (PurgeStream stream spec false actor)
     (fun '(im, _) w' => (exists newCur, (forall n, find_seq stream (w_db w) = Some n -> newCur <= n) /\
                            purged stream V (pi_ConsumersAffected im) newCur w w') /\
        pi_Messages im = count (hit stream V) (messages (w_db w)) /\
        pi_Bytes im = sum_of m_size (hit stream V) (messages (w_db w)) /\
        pi_PendingDropped im = count (row_hit stream V) (deliveries (w_db w)) /\
        forall n, n ∈ pi_ConsumersAffected im <-> n ∈ affected_by stream V (deliveries (w_db w)))
     (fun _ _ => False) w.
Proof.
  intros Hok Hn Hv V. unfold wp. rewrite purge_paths by done.
  assert (Hpos : forall n, find_seq stream (w_db w) = Some n -> 0 <= n).
  { intros n Hq. pose proof (inv_next_pos _ _ _ _ (inv_messages _ _ Hok) stream n Hq). lia. }
  destruct (fast_path spec) eqn:Hf.
  - pose proof (fast_wp stream actor (range_end stream spec (w_db w)) (default 1 (find_seq stream (w_db w))) w Hok) as Hwp.
    unfold wp in Hwp. destruct (applyFastRange _ _ _ _ _ w) as [w' [[im evs]|e]]; [|done].
    destruct Hwp as (Hp & Hm & Hb & Hd & Ha).
    assert (HV : forall m, m ∈ messages (w_db w) -> hit stream (fun q => q <=? range_end stream spec (w_db w)) m = hit stream V m).
    { intros m Hmm. unfold V. rewrite doomed_hit by (try done; exact (inv_msg_key _ _ _ _ (inv_messages _ _ Hok))).
      by rewrite doomed_fast. }
    pose proof (row_hit_ext _ _ _ w Hok HV) as Hr.
    assert (Haff : affected_by stream (fun q => q <=? range_end stream spec (w_db w)) (deliveries (w_db w)) = affected_by stream V (deliveries (w_db w))).
    { unfold affected_by. by rewrite (where_ext _ _ _ Hr). }
    rewrite Hm, Hb, Hd, Ha, (count_ext _ _ _ HV), (sum_of_ext _ _ _ _ HV), (count_ext _ _ _ Hr), Haff. split_and!; try done.
    eexists. split; [|rewrite Haff in Hp; by eapply purged_ext]. intros n Hq. pose proof (range_end_lt stream spec _ n Hq).
    destruct (_ =? 0); [auto|lia].
  - pose proof (scan_wp stream (pg_Keep spec) (pg_Subject spec) actor (pattern_of spec) (range_end stream spec (w_db w))
      (default 1 (find_seq stream (w_db w))) w Hok (proj1 (valid_spec spec Hv))) as Hwp.
    unfold wp in Hwp. destruct (applyScanPath _ _ _ _ _ _ _ _ w) as [w' [[im evs]|e]]; [|done].
    destruct Hwp as (Hp & Hrest). split; [|done]. exists 0. split; done.
Qed.

(** The dry run of either path stops at the plan of the real one. *)
Definition same_plan (a b : PurgeImpact) : Prop :=
  pi_Messages a = pi_Messages b /\ pi_Bytes a = pi_Bytes b /\ pi_ConsumersAffected a = pi_ConsumersAffected b /\
  pi_FirstSeqAfter a = pi_FirstSeqAfter b /\ pi_CursorBefore a = pi_CursorBefore b.

Lemma fast_preview stream actor upper next w w' im evs :
  applyFastRange stream false actor upper next w = (w', Ok (im, evs)) ->
  exists im', applyFastRange stream true actor upper next w = (w, Ok (im', [])) /\ same_plan im' im.
Proof.
  intros Hrun.
  assert (Hwp : wp (applyFastRange stream false actor upper next)
            (fun '(im, _) _ => exists im', applyFastRange stream true actor upper next w = (w, Ok (im', [])) /\ same_plan im' im)
            any_error w).
  { unfold applyFastRange, countRange, distinctDeliveryConsumers, cursorBounds. wp_steps. simpl.
    destruct (count (in_range stream upper) (messages (w_db w)) =? 0) eqn:Hz; simpl.
    - wp_steps. eexists. by split.
    - wp_steps. apply wp_bump_all; [apply affected_nodup|]. wp_steps. destruct (negb _); [by wp_steps|]. unfold adjustStats. wp_steps.
      eexists. by split. }
  exact (wp_run _ _ _ _ _ _ Hwp Hrun).
Qed.

Lemma scan_preview stream keep subj actor pt upper next w w' im evs :
  applyScanPath stream keep subj false actor pt upper next w = (w', Ok (im, evs)) ->
  applyScanPath stream keep subj true actor pt upper next w = (w, Ok (im, [])).
Proof.
  intros Hrun.
  assert (Hwp : wp (applyScanPath stream keep subj false actor pt upper next)
            (fun '(im, _) _ => applyScanPath stream keep subj true actor pt upper next w = (w, Ok (im, []))) any_error w).
  { unfold applyScanPath. wp_steps. simpl. destruct (_ =? 0); [by wp_steps|]. apply wp_bind. unfold wp at 1. rewrite drop_rows_run.
    apply wp_bind, wp_bump_all; [apply affected_nodup|]. apply wp_bind.
    match goal with |- wp ?m _ _ ?w0 => unfold wp; destruct (m w0) as [w1 [[]|e]] end; [|done].
    unfold adjustStats. wp_steps. done. }
  exact (wp_run _ _ _ _ _ _ Hwp Hrun).
Qed.

(** ** Properties *)

(** C28: A validated purge (G4) always succeeds and deletes exactly the messages it
    should: those of the stream in the range that match the subject, except the
    newest [keep] of them; with them go their pending rows, and no others.  The
    statistics stay exact, the sequence counter does not move, so no number is
    reused; cursors only move forward; what it reports is what it did; and unless it
    tears a consumer's pending set the invariant holds after it, always so for a
    purge of the whole stream. *)
Theorem purge_effect stream spec actor w :
  world_ok w -> Policy.ValidateExistingStreamName stream = Ok tt -> ValidatePurgeSpec spec = Ok tt ->
  let dead := doomed stream (pattern_of spec) (pg_Keep spec) (range_end stream spec (w_db w)) (messages (w_db w)) in
  let V := doomed_seqs stream (pattern_of spec) (pg_Keep spec) (range_end stream spec (w_db w)) (messages (w_db w)) in
  wp (PurgeStream stream spec false actor)
     (fun '(im, _) w' =>
        messages (w_db w') = delete_where dead (messages (w_db w)) /\
        deliveries (w_db w') = delete_where (row_hit stream V) (deliveries (w_db w)) /\
        stream_seq (w_db w') = stream_seq (w_db w) /\
        Forall2 (fun c c' => ckey c' = ckey c /\ c_cursor_seq c <= c_cursor_seq c' /\ c_generation c' = c_generation c +
                   if bool_decide (c_stream c = stream) && bool_decide (c_name c ∈ pi_ConsumersAffected im) then 1 else 0)
          (consumers (w_db w)) (consumers (w_db w')) /\
        pi_Messages im = count dead (messages (w_db w)) /\
        pi_Bytes im = sum_of m_size dead (messages (w_db w)) /\
        pi_PendingDropped im = count (row_hit stream V) (deliveries (w_db w)) /\
        (untorn stream V (deliveries (w_db w)) \/ spec = MkPurgeSpec None "" 0 -> world_ok w'))
     (fun _ _ => False) w.
Proof.
  intros Hok Hn Hv dead V. eapply wp_mono; [by apply purge_wp| |done]. fold V.
  intros [im evs] w' ((newCur & Hle & Hp) & Hm & Hb & Hd & Ha).
  assert (Hdead : forall m, m ∈ messages (w_db w) -> hit stream V m = dead m).
  { intros m Hin. apply doomed_hit; [exact (inv_msg_key _ _ _ _ (inv_messages _ _ Hok))|done]. }
  split_and!; [rewrite (pu_messages _ _ _ _ _ _ Hp); by apply delete_where_ext|apply Hp|apply Hp| |
    by rewrite Hm; apply count_ext|by rewrite Hb; apply sum_of_ext|done|].
  - rewrite (pu_consumers _ _ _ _ _ _ Hp). unfold bumped, update_where. rewrite map_map. apply Forall2_fmap_r, Forall_Forall2_diag, Forall_forall.
    intros c _. simpl. destruct (bool_decide (c_stream c = stream) && (c_cursor_seq c <? newCur)) eqn:Hc; simpl;
      [apply andb_true_iff in Hc as [Hs Hc%Z.ltb_lt]; rewrite Hs; simpl|]; destruct (bool_decide (c_stream c = stream)); simpl;
      try destruct (bool_decide (c_name c ∈ _)); simpl; split_and!; done || lia.
  - intros Hcase. apply (purged_ok stream V (pi_ConsumersAffected im) newCur w w'); try done.
    + destruct Hcase as [Ht| ->]; [done|]. by apply whole_untorn.
    + intros n Hin%Ha. by apply elem_of_affected_by.
Qed.

(** A dry run changes nothing and, on the same database, plans what the real
    purge then does: the same messages and bytes, the same consumers, the same
    first surviving number; with a subject or [keep] the whole report agrees. *)
Lemma purge_preview stream spec actor w w' im evs :
  Policy.ValidateExistingStreamName stream = Ok tt -> ValidatePurgeSpec spec = Ok tt ->
  PurgeStream stream spec false actor w = (w', Ok (im, evs)) ->
  exists im', PurgeStream stream spec true actor w = (w, Ok (im', [])) /\ same_plan im' im /\ (fast_path spec = false -> im' = im).
Proof.
  intros Hn Hv. rewrite !purge_paths by done. destruct (fast_path spec).
  - intros (im' & Hrun & Hsame)%fast_preview. by exists im'.
  - intros Hrun%scan_preview. exists im. by split_and!.
Qed.

End Invariant.

(** *** The theorems at work *)

Import Policy Samples.

Definition second : PublishReq.PublishReq := PublishReq.MkPublishReq "orders.paid" [] "{}" "" "".

(** Two messages, both in flight at billing. *)
Definition two_messages : world := fst (Publish.publishWriteCmd DefaultLimits "orders" second 7500000 Publish.after_publish).
Definition both_inflight : world := fst (Fetch.fetchCmd "orders" "billing" 10 4096 DefaultConsumerLimits 8000000 two_messages).

Definition whole : PurgeSpec := MkPurgeSpec None "" 0.
Definition up_to_one : PurgeSpec := MkPurgeSpec (Some 1) "" 0.

Lemma purge_effect_witness :
  exists w' im evs, PurgeStream "orders" whole false "ops" Fetch.after_fetch = (w', Ok (im, evs)) /\ world_ok w' /\
    pi_Messages im = 1 /\ pi_PendingDropped im = 1.
Proof.
  destruct (ran (PurgeStream "orders" whole false "ops" Fetch.after_fetch) ltac:(vm_compute; reflexivity)) as (w' & [im evs] & Hrun).
  exists w', im, evs. split; [exact Hrun|].
  pose proof (wp_run _ _ _ _ _ _ (purge_effect "orders" whole "ops" Fetch.after_fetch Fetch.after_fetch_ok eq_refl eq_refl) Hrun)
    as (_ & _ & _ & _ & Hm & _ & Hd & Hok).
  split; [apply Hok; right; reflexivity|]. rewrite Hm, Hd. split; vm_compute; reflexivity.
Defined.

(** A purge that takes some of a consumer's pending rows strands the others:
    it raises the consumer's generation and leaves their rows at the old one.
    With messages 1 and 2 in flight and 1 purged, the holder's ack of 2 is refused
    as a wrong generation, a sweep after its deadline skips the row, and a fetch
    after that gets nothing, though message 2 is stored and unacknowledged. *)
Lemma purge_strands_delivery :
  let w := fst (PurgeStream "orders" up_to_one false "ops" both_inflight) in
  map m_seq (messages (w_db w)) = [2] /\
  map (fun r => (d_consumer r, d_seq r, d_generation r)) (deliveries (w_db w)) = [("billing", 2, 1)] /\
  option_map c_generation (find_consumer "orders" "billing" (w_db w)) = Some 2 /\
  (exists w' res evs, StoreSettle.SettleCmd StoreSettle.sample_env [StoreSettle.ack_item (StoreSettle.token "billing" 2 1)] 9500000 w
                = (w', Ok (res, evs)) /\ map StoreSettle.ir_Status (StoreSettle.Results res) = [Settle.ItemStatusWrongGen]) /\
  let w1 := fst (StoreSweep.SweepCmd StoreSweep.sample_sweep 10 (40000 * Millisecond) w) in
  deliveries (w_db w1) = deliveries (w_db w) /\
  exists w2 res evs, Fetch.fetchCmd "orders" "billing" 10 4096 DefaultConsumerLimits (90000 * Millisecond) w1 = (w2, Ok (res, evs)) /\
    Fetch.fr_claimed res = [] /\ Fetch.fr_backlog res = 0.
Proof.
  cbv zeta. split_and!; try (vm_compute; reflexivity).
  - do 3 eexists. split; vm_compute; reflexivity.
  - do 3 eexists. split; [vm_compute; reflexivity|]. split; vm_compute; reflexivity.
Qed.

(** On the unfiltered path the dry run understates: it reports no pending row
    dropped and no cursor clamped where the purge of the same database drops one
    and moves the lowest cursor. *)
Lemma purge_preview_understates :
  exists w' dry real evs, PurgeStream "orders" up_to_one true "ops" both_inflight = (both_inflight, Ok (dry, [])) /\
    PurgeStream "orders" up_to_one false "ops" both_inflight = (w', Ok (real, evs)) /\
    (pi_PendingDropped dry, pi_CursorAfter dry, pi_Clamped dry) = (0, 0, false) /\
    (pi_PendingDropped real, pi_CursorAfter real, pi_Clamped real) = (1, 2, true).
Proof. do 4 eexists. split; [vm_compute; reflexivity|]. split; [vm_compute; reflexivity|]. split; vm_compute; reflexivity. Qed.

End Purge.
