(* ===== verification/ApiAdmin.v ===== *)
(** * The administration endpoints

    [internal/api/streams.go], [consumers.go], [consumer_upsert.go], [purge.go]
    and [seek.go]: the wire shapes, the guards that run before a command (the
    confirmation, the dry-run gate, the declarative upsert, the filter
    permission) and the handlers over the store's commands.  A handler takes the
    world and leaves the world it commits.  The texts of teaching messages and
    the suggested next commands are not kept. *)

From S2P Require Import TextFields ApiErrors ApiCodec Routes StreamAdmin ConsumerAdmin Flags Purge Fetch Samples.

Module ApiAdmin.
Import ApiErrors ApiCodec Routes Policy StreamAdmin ConsumerAdmin.
Import ConsumerAdmin.Start.

Definition actorAPI : string := "api".

(** The typed error a store or policy error is. *)
Fixpoint typed_of (e : error) : list typed :=
  match e with
  | CmdErr e => typed_of e
  | Plain _ => []
  | E k tag =>
      if bool_decide (tag = "StreamExistsError") then [StreamExists]
      else if bool_decide (tag = "ImmutableFieldError") then [ImmutableField]
      else if bool_decide (tag = "ErrReservedName") then [ReservedName]
      else if bool_decide (tag = "MismatchError") then [MismatchError]
      else if bool_decide (tag = "ReservedHeaderError") then [ReservedHeader]
      else if bool_decide (k = ErrTooLarge) && bool_decide (tag ∈ ["body"; "header"; "headers"]) then [TooLargeError tag]
      else if bool_decide (k = ErrConflict) && bool_decide (tag ∈ ["max_msgs"; "max_bytes"; "max_age"; "retention"])
      then [ApiErrors.WouldLoseData]
      else []
  end.

Definition of_store (e : error) : api_error := MkApiError e None (typed_of e).

(** ** Wire shapes *)

(** Into a slice over the one it holds: an element starts from the element in its place. *)
Definition of_slice_over {T} (zero : T) (elem : T -> json -> option T) (old : list T) (v : json) : option (list T) :=
  match v with
  | JArr l => mapM (fun x => elem (default zero (old !! x.1)) x.2) (zip (seq 0 (length l)) l)
  | JNull => Some []
  | _ => None
  end.

Definition of_int32 (old : Z) (v : json) : option Z :=
  match v with JNum n => if (- 2 ^ 31 <=? n) && (n <? 2 ^ 31) then Some n else None | JNull => Some old | _ => None end.

Definition of_bool (old : bool) (v : json) : option bool := match v with JBool b => Some b | JNull => Some old | _ => None end.

(** Into a pointer: [null] clears it. *)
Definition of_ptr {T} (dec : json -> option T) (v : json) : option (option T) :=
  match v with JNull => Some None | _ => Some <$> dec v end.

Record streamConfigRequest : Set := MkStreamConfigRequest {
  sr_Name : string;
  sr_Subjects : list string;
  sr_Retention : string;
  sr_MaxMsgs : Z;
  sr_MaxBytes : Z;
  sr_MaxAgeMS : Z;
  sr_MaxMsgSize : Z;
  sr_Discard : string;
  sr_DedupWindowMS : Z;
}.

Definition defaultStreamConfigRequest : streamConfigRequest :=
  let d := DefaultConfig "" in
  MkStreamConfigRequest "" (sc_Subjects d) (sc_Retention d) 0 0 (Milliseconds (sc_MaxAge d)) (sc_MaxMsgSize d) (sc_Discard d)
    (Milliseconds (sc_DedupWindow d)).

Definition set_streamConfig (r : streamConfigRequest) (k : string) (v : json) : option streamConfigRequest :=
  let '(MkStreamConfigRequest n su re mm mb ma ms di de) := r in
  if named "name" k then (fun x => MkStreamConfigRequest x su re mm mb ma ms di de) <$> of_string n v
  else if named "subjects" k then (fun x => MkStreamConfigRequest n x re mm mb ma ms di de) <$> of_slice_over "" of_string su v
  else if named "retention" k then (fun x => MkStreamConfigRequest n su x mm mb ma ms di de) <$> of_string re v
  else if named "max_msgs" k then (fun x => MkStreamConfigRequest n su re x mb ma ms di de) <$> of_int64 mm v
  else if named "max_bytes" k then (fun x => MkStreamConfigRequest n su re mm x ma ms di de) <$> of_int64 mb v
  else if named "max_age_ms" k then (fun x => MkStreamConfigRequest n su re mm mb x ms di de) <$> of_int64 ma v
  else if named "max_msg_size" k then (fun x => MkStreamConfigRequest n su re mm mb ma x di de) <$> of_int64 ms v
  else if named "discard" k then (fun x => MkStreamConfigRequest n su re mm mb ma ms x de) <$> of_string di v
  else if named "dedup_window_ms" k then (fun x => MkStreamConfigRequest n su re mm mb ma ms di x) <$> of_int64 de v
  else None.

Definition stream_config (r : streamConfigRequest) : StreamConfig :=
  MkStreamConfig (sr_Name r) (sr_Subjects r) (sr_Retention r) (sr_MaxMsgs r) (sr_MaxBytes r) (msDuration (sr_MaxAgeMS r))
    (sr_MaxMsgSize r) (sr_Discard r) (msDuration (sr_DedupWindowMS r)).

Definition set_streamPatch (r : StreamPatch) (k : string) (v : json) : option StreamPatch :=
  let '(MkStreamPatch su re mm mb ma ms di de) := r in
  if named "subjects" k then (fun x => MkStreamPatch x re mm mb ma ms di de) <$> of_ptr (of_slice_over "" of_string (default [] su)) v
  else if named "retention" k then (fun x => MkStreamPatch su x mm mb ma ms di de) <$> of_ptr (of_string "") v
  else if named "max_msgs" k then (fun x => MkStreamPatch su re x mb ma ms di de) <$> of_int64_ptr v
  else if named "max_bytes" k then (fun x => MkStreamPatch su re mm x ma ms di de) <$> of_int64_ptr v
  else if named "max_age_ms" k then (fun x => MkStreamPatch su re mm mb x ms di de) <$> of_int64_ptr v
  else if named "max_msg_size" k then (fun x => MkStreamPatch su re mm mb ma x di de) <$> of_int64_ptr v
  else if named "discard" k then (fun x => MkStreamPatch su re mm mb ma ms x de) <$> of_ptr (of_string "") v
  else if named "dedup_window_ms" k then (fun x => MkStreamPatch su re mm mb ma ms di x) <$> of_int64_ptr v
  else None.

Definition no_patch : StreamPatch := MkStreamPatch None None None None None None None None.

Record consumerConfigRequest : Set := MkConsumerConfigRequest {
  kr_Name : string;
  kr_Filters : list string;
  kr_AckWaitMS : Z;
  kr_MaxDeliver : Z;
  kr_MaxAckPending : Z;
  kr_BackoffMS : list Z;
  kr_DeadPolicy : string;
  kr_Paused : bool;
  kr_Start : string;
  kr_Ordered : option bool;
  kr_MaxRate : option Z;
}.

Definition defaultConsumerConfigRequest : consumerConfigRequest :=
  let d := DefaultConsumerConfig "" in
  MkConsumerConfigRequest "" (cc_Filters d) (Milliseconds (cc_AckWait d)) (cc_MaxDeliver d) (cc_MaxAckPending d)
    (map Milliseconds (cc_Backoff d)) "" false "" None None.

Definition set_consumerConfig (r : consumerConfigRequest) (k : string) (v : json) : option consumerConfigRequest :=
  let '(MkConsumerConfigRequest n fi aw md ma bo dp pa st od mr) := r in
  if named "name" k then (fun x => MkConsumerConfigRequest x fi aw md ma bo dp pa st od mr) <$> of_string n v
  else if named "filters" k then (fun x => MkConsumerConfigRequest n x aw md ma bo dp pa st od mr) <$> of_slice_over "" of_string fi v
  else if named "ack_wait_ms" k then (fun x => MkConsumerConfigRequest n fi x md ma bo dp pa st od mr) <$> of_int64 aw v
  else if named "max_deliver" k then (fun x => MkConsumerConfigRequest n fi aw x ma bo dp pa st od mr) <$> of_int32 md v
  else if named "max_ack_pending" k then (fun x => MkConsumerConfigRequest n fi aw md x bo dp pa st od mr) <$> of_int64 ma v
  else if named "backoff_ms" k then (fun x => MkConsumerConfigRequest n fi aw md ma x dp pa st od mr) <$> of_slice_over 0 of_int64 bo v
  else if named "dead_policy" k then (fun x => MkConsumerConfigRequest n fi aw md ma bo x pa st od mr) <$> of_string dp v
  else if named "paused" k then (fun x => MkConsumerConfigRequest n fi aw md ma bo dp x st od mr) <$> of_bool pa v
  else if named "start" k then (fun x => MkConsumerConfigRequest n fi aw md ma bo dp pa x od mr) <$> of_string st v
  else if named "ordered" k then (fun x => MkConsumerConfigRequest n fi aw md ma bo dp pa st x mr) <$> of_ptr (of_bool false) v
  else if named "max_rate" k then (fun x => MkConsumerConfigRequest n fi aw md ma bo dp pa st od x) <$> of_int64_ptr v
  else None.

Definition consumer_config (stream : string) (r : consumerConfigRequest) : ConsumerConfig :=
  let dp := if bool_decide (kr_DeadPolicy r = "") then DefaultDeadPolicyForStream stream else kr_DeadPolicy r in
  MkConsumerConfig (kr_Name r) (kr_Filters r) (msDuration (kr_AckWaitMS r)) (kr_MaxDeliver r) (kr_MaxAckPending r)
    (map msDuration (kr_BackoffMS r)) dp (kr_Paused r).

Definition set_consumerPatch (r : ConsumerPatch) (k : string) (v : json) : option ConsumerPatch :=
  let '(MkConsumerPatch fi aw md ma bo dp) := r in
  if named "filters" k then (fun x => MkConsumerPatch x aw md ma bo dp) <$> of_ptr (of_slice_over "" of_string (default [] fi)) v
  else if named "ack_wait_ms" k then (fun x => MkConsumerPatch fi x md ma bo dp) <$> of_int64_ptr v
  else if named "max_deliver" k then (fun x => MkConsumerPatch fi aw x ma bo dp) <$> of_ptr (of_int32 0) v
  else if named "max_ack_pending" k then (fun x => MkConsumerPatch fi aw md x bo dp) <$> of_int64_ptr v
  else if named "backoff_ms" k then (fun x => MkConsumerPatch fi aw md ma x dp) <$> of_ptr (of_slice_over 0 of_int64 (default [] bo)) v
  else if named "dead_policy" k then (fun x => MkConsumerPatch fi aw md ma bo x) <$> of_ptr (of_string "") v
  else None.

Definition no_consumer_patch : ConsumerPatch := MkConsumerPatch None None None None None None.

Record purgeRequest : Set := MkPurgeRequest { pq_UpToSeq : option Z; pq_Subject : string; pq_Keep : option Z }.

Definition set_purge (r : purgeRequest) (k : string) (v : json) : option purgeRequest :=
  let '(MkPurgeRequest up su ke) := r in
  if named "up_to_seq" k then (fun x => MkPurgeRequest x su ke) <$> of_int64_ptr v
  else if named "subject" k then (fun x => MkPurgeRequest up x ke) <$> of_string su v
  else if named "keep" k then (fun x => MkPurgeRequest up su x) <$> of_int64_ptr v
  else None.

(** [seekRequest] has the one field [to]. *)
Definition set_seek (to k : string) (v : json) : option string := if named "to" k then of_string to v else None.

(** ** Guards *)

Definition sorted (l : list string) : list string := order_by String.leb l.

Definition consumerConfigsEqual (stored want : ConsumerConfig) : bool :=
  bool_decide (sorted (cc_Filters stored) = sorted (cc_Filters want))
  && (cc_AckWait stored =? cc_AckWait want)
  && (cc_MaxDeliver stored =? cc_MaxDeliver want)
  && (cc_MaxAckPending stored =? cc_MaxAckPending want)
  && bool_decide (cc_Backoff stored = cc_Backoff want)
  && bool_decide (cc_DeadPolicy stored = cc_DeadPolicy want).

(** The refusal written, if any. *)
Definition consumerExistsRefusal (nowMS : Z) (stream : string) (want : ConsumerConfig) (d : db) : option api_error :=
  match GetConsumer nowMS stream (cc_Name want) d with
  | Err e => if is_kind ErrNotFound e then None else Some (of_store e)
  | Ok (cur, _) =>
      if consumerConfigsEqual (InfoConfig cur) want then None
      else Some (MkApiError (E ErrConflict "ConsumerExistsError") None [ConsumerExists])
  end.

Definition checkFilterChangeRefusal (current want : list string) (allowed : bool) : option api_error :=
  if bool_decide (sorted current = sorted want) || allowed then None
  else Some (MkApiError (E ErrConflict "consumerFilterChangeError") None [FilterChange]).

(** ** store/consumer.go: the operations around the commands *)

Definition ListConsumers (nowMS : Z) (stream : string) (d : db) : result (list (ConsumerInfo * ConsumerStats)) :=
  let? _ := ValidateExistingStreamName stream in
  Ok (map (fun c => let i := scanConsumerInfo c in (i, fillConsumerStats nowMS d i))
        (order_by (fun a b => String.leb (c_name a) (c_name b)) (where_ (fun c => bool_decide (c_stream c = stream)) (consumers d)))).

(** A handler's answer: the status and body of a success, or an error. *)
Inductive answer (A : Type) :=
| Body (status : Z) (a : A)
| Refused (e : api_error).
Arguments Body {A} status a.
Arguments Refused {A} e.

Section Handlers.
Context `{Ids} (limits : Limits) (climits : ConsumerLimits) (maxRequestBytes : Z).

(** One command through the engine: an error leaves the database as it was. *)
Definition submit {A} (m : tx A) (w : world) : world * result A :=
  match m w with
  | (w', Err e) => (World (w_db w) (w_mem w'), Err e)
  | (w', Ok a) => (w', Ok a)
  end.

(** A step that may refuse before anything is submitted. *)
Definition refuse_or {A} (r : option api_error) (w : world) (k : world * answer A) : world * answer A :=
  match r with Some e => (w, Refused e) | None => k end.

Definition check {A} (r : result unit) (w : world) (k : world * answer A) : world * answer A :=
  match r with Err e => (w, Refused (of_store e)) | Ok _ => k end.

Definition decoded {T A} (set : T -> string -> json -> option T) (zero : T) (b : body) (w : world)
    (k : T -> world * answer A) : world * answer A :=
  match decodeJSONInto (of_struct set zero) maxRequestBytes b with inl e => (w, Refused e) | inr t => k t end.

(** *** Streams *)

Definition handleCreateStream (b : body) (now : Z) (w : world) : world * answer StreamInfo :=
  decoded set_streamConfig defaultStreamConfigRequest b w (fun req =>
    let cfg := stream_config req in
    check (ValidateStreamConfig cfg limits) w
      match submit (CreateStream limits cfg actorAPI now) w with
      | (w', Err e) => (w', Refused (of_store e))
      | (w', Ok (info, existed, _)) => (w', Body (if existed : bool then 200 else 201) info)
      end).

Definition handleListStreams (w : world) : world * answer (list StreamInfo) := (w, Body 200 (ListStreams (w_db w))).

Definition handleGetStream (name : string) (w : world) : world * answer StreamInfo :=
  check (ValidateExistingStreamName name) w
    match GetStream name (w_db w) with
    | Err e => (w, Refused (of_store e))
    | Ok info => (w, Body 200 info)
    end.

Definition handleUpdateStream (q : request) (name : string) (b : body) (now : Z) (w : world) : world * answer (StreamInfo * Z) :=
  check (ValidateExistingStreamName name) w
    (decoded set_streamPatch no_patch b w (fun patch =>
       let allowDataLoss := bool_decide (rq_query q "allow_data_loss" = "1") in
       match submit (updateStreamCmd limits name patch allowDataLoss actorAPI now) w with
       | (w', Err e) => (w', Refused (of_store e))
       | (w', Ok (res, _)) => (w', Body 200 (ur_Info res, ur_NarrowedMsgs res))
       end)).

(** The confirmation of a deletion: the name, spelled out. *)
Definition confirm_guard {A} (q : request) (name : string) (current : result A) : option api_error :=
  let confirm := rq_query q "confirm" in
  if bool_decide (confirm = "") || negb (bool_decide (confirm = name)) then
    match current with
    | Err e => Some (of_store e)
    | Ok _ => confirmRefusal name confirm
    end
  else None.

(** The body: the receipt, and the depth of a dead-letter stream that survives. *)
Definition handleDeleteStream (q : request) (name : string) (now : Z) (w : world) : world * answer (DeleteResult * option Z) :=
  check (ValidateExistingStreamName name) w
    (refuse_or (checkDryRunGate q) w
      (refuse_or (confirm_guard q name (GetStream name (w_db w))) w
        match DeleteStream (S (length (messages (w_db w)))) name name actorAPI now w with
        | (w', Err e) => (w', Refused (of_store e))
        | (w', Ok (res, _, _)) =>
            (w', Body 200 (res, match GetStream (name +:+ reservedSuffix) (w_db w') with
                                | Ok i => Some (sn_Msgs i)
                                | Err _ => None
                                end))
        end)).

Definition handlePurgeStream (q : request) (name : string) (b : body) (w : world) : world * answer (bool * Purge.PurgeImpact) :=
  check (ValidateExistingStreamName name) w
    (decoded set_purge (MkPurgeRequest None "" None) b w (fun req =>
       let spec := Purge.MkPurgeSpec (pq_UpToSeq req) (pq_Subject req) (default 0 (pq_Keep req)) in
       let dryRun := bool_decide (rq_query q "dry_run" = "1") in
       match submit (Purge.PurgeStream name spec dryRun actorAPI) w with
       | (w', Err e) => (w', Refused (of_store e))
       | (w', Ok (im, _)) => (w', Body 200 (negb dryRun, im))
       end)).

(** *** Consumers *)

(** The names a consumer route carries. *)
Definition check_names {A} (stream consumer : string) (w : world) (k : world * answer A) : world * answer A :=
  check (ValidateExistingStreamName stream) w (check (Subject.ValidateConsumerName consumer) w k).

(** Store.CreateConsumer reads the row back under the name of the request. *)
Definition store_CreateConsumer (nowMS : Z) (stream : string) (cfg : ConsumerConfig) (start : StartPosition) (now : Z) (w : world)
  : world * result (ConsumerInfo * list string * bool * bool) :=
  match submit (CreateConsumer climits stream cfg start actorAPI now) w with
  | (w', Err e) => (w', Err e)
  | (w', Ok (cr, _)) =>
      (w', match GetConsumer nowMS stream (cc_Name cfg) (w_db w'), ValidateConsumerConfig cfg climits with
           | Ok (i, _), Ok warns => Ok (i, (warns ++ cr_warnings cr)%list, cr_created cr, cr_updated cr)
           | Err e, _ | _, Err e => Err e
           end)
  end.

Definition unsupportedError (field : string) : api_error := MkApiError (E ErrBadRequest field) None [UnsupportedError].

(** The body: the consumer, the warnings, and whether stored state changed. *)
Definition handleCreateConsumer (stream : string) (b : body) (nowMS now : Z) (w : world)
  : world * answer (ConsumerInfo * list string * bool) :=
  check (ValidateExistingStreamName stream) w
    (decoded set_consumerConfig defaultConsumerConfigRequest b w (fun req =>
       refuse_or (if bool_decide (kr_Ordered req = None) then None else Some (unsupportedError "ordered")) w
         (refuse_or (if bool_decide (kr_MaxRate req = None) then None else Some (unsupportedError "max_rate")) w
           match Flags.ParseStartPosition (kr_Start req) with
           | Err e => (w, Refused (of_store e))
           | Ok start =>
               let cfg := consumer_config stream req in
               refuse_or (consumerExistsRefusal nowMS stream cfg (w_db w)) w
                 match store_CreateConsumer nowMS stream cfg start now w with
                 | (w', Err e) => (w', Refused (of_store e))
                 | (w', Ok (info, warns, created, updated)) =>
                     (w', Body (if created : bool then 201 else 200) (info, warns, created || updated))
                 end
           end))).

Definition handleListConsumers (stream : string) (nowMS : Z) (w : world) : world * answer (list (ConsumerInfo * ConsumerStats)) :=
  check (ValidateExistingStreamName stream) w
    match ListConsumers nowMS stream (w_db w) with
    | Err e => (w, Refused (of_store e))
    | Ok l => (w, Body 200 l)
    end.

Definition handleGetConsumer (stream consumer : string) (nowMS : Z) (w : world) : world * answer (ConsumerInfo * ConsumerStats) :=
  check_names stream consumer w
    match GetConsumer nowMS stream consumer (w_db w) with
    | Err e => (w, Refused (of_store e))
    | Ok i => (w, Body 200 i)
    end.

(** After a command the store reads the consumer back. *)
Definition read_back {A} (nowMS : Z) (stream consumer : string) (r : world * result A) : world * answer (ConsumerInfo * ConsumerStats) :=
  match r with
  | (w', Err e) => (w', Refused (of_store e))
  | (w', Ok _) =>
      (w', match GetConsumer nowMS stream consumer (w_db w') with Err e => Refused (of_store e) | Ok i => Body 200 i end)
  end.

Definition handleUpdateConsumer (q : request) (stream consumer : string) (b : body) (nowMS now : Z) (w : world)
  : world * answer (ConsumerInfo * ConsumerStats) :=
  check_names stream consumer w
    (decoded set_consumerPatch no_consumer_patch b w (fun patch =>
       refuse_or
         (match cp_Filters patch with
          | None => None
          | Some want =>
              match GetConsumer nowMS stream consumer (w_db w) with
              | Err e => Some (of_store e)
              | Ok (cur, _) => checkFilterChangeRefusal (ci_Filters cur) want (bool_decide (rq_query q "allow_filter_change" = "1"))
              end
          end) w
         (read_back nowMS stream consumer (submit (updateConsumerCmd climits stream consumer patch actorAPI now) w)))).

Definition handleDeleteConsumer (q : request) (stream consumer : string) (nowMS now : Z) (w : world) : world * answer (Z * Z) :=
  check_names stream consumer w
    (refuse_or (checkDryRunGate q) w
      (refuse_or (confirm_guard q consumer (GetConsumer nowMS stream consumer (w_db w))) w
        match submit (deleteConsumerCmd stream consumer actorAPI now) w with
        | (w', Err e) => (w', Refused (of_store e))
        | (w', Ok (pending, inflight, _)) => (w', Body 200 (pending, inflight))
        end)).

(** The finding of a pause: how many leases keep running. *)
Definition pauseFindings (inflight : Z) : option Z := if inflight <=? 0 then None else Some inflight.

(** The body: the state, whether it changed, and the finding. *)
Definition handleSetPausedRoute (stream consumer : string) (wantPaused : bool) (nowMS now : Z) (w : world)
  : world * answer (bool * bool * option Z) :=
  check_names stream consumer w
    match GetConsumer nowMS stream consumer (w_db w) with
    | Err e => (w, Refused (of_store e))
    | Ok (cur, stats) =>
        if Bool.eqb (ci_Paused cur) wantPaused then (w, Body 200 (wantPaused, false, None))
        else
          let findings := if wantPaused && (0 <? cs_Inflight stats) then pauseFindings (cs_Inflight stats) else None in
          match read_back nowMS stream consumer (submit (setPausedCmd stream consumer wantPaused actorAPI now) w) with
          | (w', Refused e) => (w', Refused e)
          | (w', Body _ (info, _)) => (w', Body 200 (ci_Paused info, true, findings))
          end
    end.

Definition handlePauseConsumer stream consumer := handleSetPausedRoute stream consumer true.
Definition handleResumeConsumer stream consumer := handleSetPausedRoute stream consumer false.

Definition handleSeekConsumer (q : request) (stream consumer : string) (b : body) (now : Z) (w : world)
  : world * answer (bool * SeekImpact) :=
  check_names stream consumer w
    (decoded set_seek "" b w (fun to =>
       match Flags.ParseStartPosition to with
       | Err e => (w, Refused (of_store e))
       | Ok to =>
           let dryRun := bool_decide (rq_query q "dry_run" = "1") in
           match submit (seekCmd stream consumer to dryRun actorAPI now) w with
           | (w', Err e) => (w', Refused (of_store e))
           | (w', Ok (res, _)) => (w', Body 200 (negb dryRun, sk_Impact res))
           end
       end)).
End Handlers.

(** ** Facts *)

Definition refused {A} (w : world) (r : world * answer A) : Prop := r.1 = w /\ exists e, r.2 = Refused e.

Lemma check_refused {A} r w (k : world * answer A) : (r = Ok tt -> refused w k) -> refused w (check r w k).
Proof. unfold check. destruct r as [[]|e]; [auto|]. intros _. split; [done|]. by eexists. Qed.

Lemma refuse_or_refused {A} r w (k : world * answer A) : (r = None -> refused w k) -> refused w (refuse_or r w k).
Proof. unfold refuse_or. destruct r as [e|]; [|auto]. intros _. split; [done|]. by eexists. Qed.

Lemma confirm_guard_none {A} q name (cur : result A) : confirm_guard q name cur = None -> rq_query q "confirm" = name.
Proof.
  unfold confirm_guard, confirmRefusal. destruct (bool_decide (rq_query q "confirm" = name)) eqn:Hc.
  - by apply bool_decide_eq_true in Hc.
  - rewrite orb_true_r. simpl. destruct cur; [|done]. by destruct (bool_decide (rq_query q "confirm" = "")).
Qed.

Lemma dry_run_gate_none q : checkDryRunGate q = None -> rq_query q "dry_run" = "".
Proof. unfold checkDryRunGate. by case_bool_decide. Qed.

(** Both guards before a deletion. *)
Lemma guards_refuse {A B} q name (cur : result B) w (k : world * answer A) :
  rq_query q "confirm" <> name \/ rq_query q "dry_run" <> "" ->
  refused w (refuse_or (checkDryRunGate q) w (refuse_or (confirm_guard q name cur) w k)).
Proof.
  intros Hno. apply refuse_or_refused. intros Hd%dry_run_gate_none. apply refuse_or_refused. intros Hc%confirm_guard_none.
  destruct Hno; congruence.
Qed.

Section Effects.
Context `{Ids}.

Lemma submit_keeps {A} (m : tx A) w :
  wp m (fun _ w' => w_db w' = w_db w) (fun _ _ => True) w -> w_db (submit m w).1 = w_db w.
Proof. unfold submit, wp. by destruct (m w) as [w' [a|e]]. Qed.

(** A computation that only reads. *)
Definition reads {A} (m : tx A) : Prop := forall w, (m w).1 = w.

Lemma reads_bind {A B} (m : tx A) (k : A -> tx B) : reads m -> (forall a, reads (k a)) -> reads (m ≫= k).
Proof.
  intros Hm Hk w. specialize (Hm w). unfold mbind, tx_bind. destruct (m w) as [w' [a|e]]; simpl in *; subst; [apply Hk|done].
Qed.

Lemma reads_marking {A} (m : tx A) : reads m -> reads (marking m).
Proof. intros Hm w. specialize (Hm w). unfold marking. by destruct (m w) as [w' [a|e]]. Qed.

Lemma reads_ret {A} (a : A) : reads (mret a).
Proof. done. Qed.
Lemma reads_fail {A} e : reads (fail e : tx A).
Proof. done. Qed.
Lemma reads_query {A} (f : db -> A) : reads (query f).
Proof. done. Qed.
Lemma reads_lift {A} (r : result A) : reads (lift r).
Proof. intros w. unfold lift. by destruct r. Qed.
Lemma reads_query_or {A} e (f : db -> option A) : reads (query_or e f).
Proof. intros w. unfold query_or. by destruct (f (w_db w)). Qed.

Lemma submit_reads {A} (m : tx A) w : reads m -> w_db (submit m w).1 = w_db w.
Proof. intros Hm. specialize (Hm w). unfold submit. destruct (m w) as [w' [a|e]]; simpl in *; by subst. Qed.
End Effects.

Create HintDb reads.
#[export] Hint Resolve reads_bind reads_marking reads_ret reads_fail reads_query reads_lift reads_query_or : reads.

(** Every branch of a computation that only reads. *)
Ltac reads_tac := repeat first [apply reads_bind | solve [auto with reads] | apply reads_marking | discriminate | progress intros | case_match].

(** A dry run of a purge or of a seek writes nothing. *)
Lemma purge_dry_reads stream spec actor : reads (Purge.PurgeStream stream spec true actor).
Proof.
  unfold Purge.PurgeStream, Purge.purgeCmd, Purge.applyFastRange, Purge.applyScanPath, Purge.countRange,
    Purge.distinctDeliveryConsumers, Purge.cursorBounds. reads_tac.
Qed.

Lemma seek_dry_reads stream name to actor now : reads (seekCmd stream name to true actor now).
Proof. unfold seekCmd, resolveStartPosition, resolveTimeStart, streamBounds. reads_tac. Qed.

(** ** The declarative upsert *)

(** No two consumers of a stream differ only in case. *)
Definition case_unique (cs : list consumer) : Prop :=
  forall a b, a ∈ cs -> b ∈ cs -> c_stream a = c_stream b -> fold_case (c_name a) = fold_case (c_name b) -> a = b.

Lemma equal_configs_no_diff stored want : consumerConfigsEqual stored want = true -> consumerConfigDiff stored want = [].
Proof.
  unfold consumerConfigsEqual, consumerConfigDiff. intros Heq. bool_prop.
  destruct Heq as (((((Hf & Ha) & Hd) & Hm) & Hb) & Hp).
  unfold marshalStringList. fold (sorted (cc_Filters stored)) (sorted (cc_Filters want)). rewrite Hf.
  rewrite !bool_decide_true by done. rewrite Ha, Hd, Hm, !Z.eqb_refl. done.
Qed.

(** What a POST may do to the tables: nothing, or one new consumer. *)
Record converged (stream : string) (d d' : db) : Prop := {
  cv_messages : messages d' = messages d;
  cv_deliveries : deliveries d' = deliveries d;
  cv_consumers : consumers d' = consumers d \/
    exists c, consumers d' = consumers d ++ [c] /\ c_stream c = stream /\
      Forall (fun a => c_stream a = stream -> fold_case (c_name a) <> fold_case (c_name c)) (consumers d);
}.

Section Upsert.
Context `{Ids}.

Lemma submit_wp {A} (m : tx A) (Q : db -> Prop) w :
  Q (w_db w) -> wp m (fun _ w' => Q (w_db w')) (fun _ _ => True) w -> Q (w_db (submit m w).1).
Proof. unfold submit, wp. by destruct (m w) as [w' [a|e]]. Qed.

Lemma insert_fresh stream cfg start actor now w :
  query_row (has_key (fun c => (c_stream c, fold_case (c_name c))) (stream, fold_case (cc_Name cfg))) (consumers (w_db w)) = None ->
  wp (applyInsert stream cfg start actor now) (fun _ w' => converged stream (w_db w) (w_db w')) (fun _ _ => True) w.
Proof.
  intros Hnone. unfold applyInsert. apply wp_bind, wp_marking.
  unfold wp at 1. destruct (resolveStartPosition stream start now w) as [w1 [[cursor clamped]|e]] eqn:Hr; [|done].
  apply resolve_pure in Hr as ->. unfold insert_meta, insert_or. wp_steps; try done.
  intros t Ht. wp_steps; try done. intros t' _. wp_steps. simpl.
  apply insert_unique_Some in Ht as [_ ->]. split; [done|done|]. right. eexists. split; [done|]. split; [done|].
  apply Forall_forall. intros a Ha Hs Hf. pose proof (query_row_None _ _ a Hnone Ha) as Hk. unfold has_key in Hk.
  simpl in Hf. by rewrite Hs, Hf, bool_decide_true in Hk.
Qed.

(** What passes the refusal: a new name, or the stored configuration again. *)
Lemma refusal_none nowMS climits stream cfg warns d :
  ValidateExistingStreamName stream = Ok tt -> ValidateConsumerConfig cfg climits = Ok warns ->
  consumerExistsRefusal nowMS stream cfg d = None ->
  forall c, find_consumer stream (cc_Name cfg) d = Some c -> consumerConfigDiff (InfoConfig (scanConsumerInfo c)) cfg = [].
Proof.
  intros Hs Hcfg Hno c Hf. unfold consumerExistsRefusal, GetConsumer in Hno.
  rewrite Hs, Hf in Hno. simpl in Hno.
  rewrite (cwf_name _ _ (ValidateConsumerConfig_wf _ _ _ Hcfg)) in Hno. simpl in Hno.
  destruct (consumerConfigsEqual _ _) eqn:He; [|done]. by apply equal_configs_no_diff.
Qed.

(** The update of a row that is not there touches no consumer. *)
Lemma update_missing climits stream cfg actor existing diff ts w :
  find_consumer stream (cc_Name cfg) (w_db w) = None ->
  wp (applyUpdate climits stream cfg actor existing diff ts) (fun _ w' => converged stream (w_db w) (w_db w')) (fun _ _ => True) w.
Proof.
  intros Hnone. unfold applyUpdate. wp_steps; try done. intros _ _. wp_steps; try done. intros _ _. wp_steps. simpl.
  split; [done|done|]. left. simpl. apply update_none. intros r Hr. by apply (query_row_None _ _ r Hnone).
Qed.

Lemma converged_refl stream d : converged stream d d.
Proof. split; auto. Qed.

Lemma upsert_effect nowMS climits stream cfg start actor now w :
  case_unique (consumers (w_db w)) -> consumerExistsRefusal nowMS stream cfg (w_db w) = None ->
  wp (CreateConsumer climits stream cfg start actor now) (fun _ w' => converged stream (w_db w) (w_db w')) (fun _ _ => True) w.
Proof.
  intros Hcase Hno. unfold CreateConsumer. wp_steps; try done. intros [] Hs. wp_steps; try done. intros _ _. wp_steps; try done.
  intros warns Hcfg. destruct (bool_decide (pos_Kind start = "")); [done|]. unfold createConsumerCmd, refuseDuringReap.
  wp_steps. destruct (meta_get _ _) as [raw|]; [destruct (sscanf_d raw); done|]. wp_steps; try done. intros st _. wp_steps.
  destruct (query_row _ (consumers (w_db w))) as [c|] eqn:Hq; [|by apply insert_fresh].
  apply query_row_Some in Hq as [Hk%has_key_true Hin]. injection Hk as Hcs Hcf.
  unfold checkStartImmutable. wp_steps. case_match; [case_match|]; wp_steps; try done.
  all: destruct (consumerConfigDiff _ cfg) eqn:Hd; [by apply wp_ret, converged_refl|];
    apply wp_bind; destruct (find_consumer stream (cc_Name cfg) (w_db w)) as [c'|] eqn:Hf;
    [|eapply wp_mono; [by apply update_missing| |done]; by intros [??] w' ?].
  all: exfalso; pose proof Hf as Hf'; apply query_row_Some in Hf' as [Hk'%has_key_true Hin']; injection Hk' as Hs' Hn';
    assert (c' = c) as -> by (apply Hcase; congruence).
  all: by rewrite (refusal_none _ _ _ _ _ _ Hs Hcfg Hno c Hf) in Hd.
Qed.
End Upsert.

(** ** Properties *)

Section Properties.
Context `{Ids} (climits : ConsumerLimits) (maxRequestBytes : Z).

(** C21: Destroying data takes the operator's consent.  A deletion of a stream or
    of a consumer whose [confirm] is not the name itself, or that carries any
    [dry_run], is refused and changes nothing; a purge or a seek with
    [dry_run=1] leaves the database as it was; and a deletion of a stream that
    is answered with a receipt named the stream, removed it from every table,
    kept the invariant, and reports the messages there were. *)
Theorem destructive_needs_consent q name consumer b nowMS now w :
  (rq_query q "confirm" <> name \/ rq_query q "dry_run" <> "" -> refused w (handleDeleteStream q name now w))
  /\ (rq_query q "confirm" <> consumer \/ rq_query q "dry_run" <> "" -> refused w (handleDeleteConsumer q name consumer nowMS now w))
  /\ (rq_query q "dry_run" = "1" ->
        w_db (handlePurgeStream maxRequestBytes q name b w).1 = w_db w
        /\ w_db (handleSeekConsumer maxRequestBytes q name consumer b now w).1 = w_db w)
  /\ (forall w' status res dlq, world_ok w -> handleDeleteStream q name now w = (w', Body status (res, dlq)) ->
        rq_query q "confirm" = name /\ rq_query q "dry_run" = "" /\ world_ok w' /\ dropped name (w_db w) (w_db w')
        /\ messages (w_db w') = delete_where (on_stream name) (messages (w_db w))
        /\ dr_Messages res = count (on_stream name) (messages (w_db w))).
Proof.
  split; [|split; [|split]].
  - intros Hno. apply check_refused. intros _. by apply guards_refuse.
  - intros Hno. unfold handleDeleteConsumer, check_names. do 2 (apply check_refused; intros _). by apply guards_refuse.
  - intros Hdry. split.
    + unfold handlePurgeStream, check, decoded. rewrite Hdry. case_match; [|done]. case_match; [done|].
      rewrite bool_decide_true by done.
      pose proof (submit_reads _ w (purge_dry_reads name (Purge.MkPurgeSpec (pq_UpToSeq p) (pq_Subject p) (default 0 (pq_Keep p))) actorAPI)) as Hs.
      destruct (submit _ w) as [w' [[im evs]|e]]; exact Hs.
    + unfold handleSeekConsumer, check_names, check, decoded. rewrite Hdry. do 2 (case_match; [|done]). case_match; [done|].
      rewrite bool_decide_true by done. destruct (Flags.ParseStartPosition _) as [to|e]; [|done].
      pose proof (submit_reads _ w (seek_dry_reads name consumer to actorAPI now)) as Hs.
      destruct (submit _ w) as [w' [[im evs]|e]]; exact Hs.
  - intros w' status res dlq Hok. unfold handleDeleteStream, check, refuse_or.
    case_match; [|done]. destruct (checkDryRunGate q) eqn:Hd; [done|]. apply dry_run_gate_none in Hd.
    destruct (confirm_guard _ _ _) eqn:Hc; [done|]. apply confirm_guard_none in Hc.
    assert (count (on_stream name) (messages (w_db w)) < Z.of_nat (S (length (messages (w_db w)))) * deleteChunkRows) as Hfuel.
    { pose proof (count_le (on_stream name) (fun _ => true) (messages (w_db w)) ltac:(done)) as Hle. rewrite count_all in Hle.
      unfold deleteChunkRows. lia. }
    pose proof (DeleteStream_wp _ name name actorAPI now w Hok Hfuel) as Hwp.
    unfold wp in Hwp. destruct (DeleteStream _ _ _ _ _ w) as [w1 [[[res1 evs] ok]|e]]; [|done]. intros [= <- _ <- _].
    destruct Hwp as (_ & _ & _ & Hr1 & _ & Hdr & Hm & _ & _ & Hmem). split_and!; try done.
    unfold world_ok. rewrite Hmem. by eapply dropped_ok.
Qed.

(** A POST never edits a consumer.  Whatever the document, afterwards the
    messages and the deliveries are as before, and so is the table of consumers,
    except for one row added at its end when its name is new to the stream; a
    taken name with another configuration is refused, and PATCH is the way to
    change it. *)
Theorem upsert_never_edits stream b nowMS now w :
  case_unique (consumers (w_db w)) ->
  converged stream (w_db w) (w_db (handleCreateConsumer climits maxRequestBytes stream b nowMS now w).1).
Proof.
  intros Hcase. unfold handleCreateConsumer, check, decoded, refuse_or.
  pose proof (converged_refl stream (w_db w)) as Hrefl.
  case_match; [|done]. case_match; [done|].
  destruct (bool_decide (kr_Ordered _ = None)); [|done]. destruct (bool_decide (kr_MaxRate _ = None)); [|done].
  destruct (Flags.ParseStartPosition _) as [start|e]; [|done].
  destruct (consumerExistsRefusal nowMS stream _ (w_db w)) eqn:Hno; [done|].
  pose proof (submit_wp _ _ w Hrefl (upsert_effect nowMS climits stream _ start actorAPI now w Hcase Hno)) as Hs.
  unfold store_CreateConsumer. destruct (submit _ w) as [w' [[cr evs]|e']]; [|exact Hs]. by repeat case_match.
Qed.
End Properties.

(** ** The theorems at work *)

Import Samples.

Definition query_of (l : list (string * string)) : string -> string :=
  fun k => default "" (snd <$> List.find (fun x => bool_decide (x.1 = k)) l).

Definition delete_with (l : list (string * string)) : request :=
  mkRequest "DELETE" ["v1"; "streams"; "orders"] None (query_of l) "".

Definition purge_with (l : list (string * string)) : request :=
  mkRequest "POST" ["v1"; "streams"; "orders"; "purge"] None (query_of l) "".

Definition json_body (v : json) : body := MkBody "application/json" (Some v) 10 None.

Definition sent {A} (r : world * answer A) : bool := match r.2 with Body _ _ => true | Refused _ => false end.

Lemma destructive_needs_consent_witness :
  refused base (handleDeleteStream (delete_with []) "orders" 5000000 base)
  /\ refused base (handleDeleteConsumer (delete_with [("confirm", "billing"); ("dry_run", "1")]) "orders" "billing" 5000 5000000 base)
  /\ exists w' res dlq, handleDeleteStream (delete_with [("confirm", "orders")]) "orders" 5000000 base = (w', Body 200 (res, dlq)) /\ world_ok w'.
Proof.
  split; [|split].
  - by apply (destructive_needs_consent 4096 (delete_with []) "orders" "billing" (json_body (JObj [])) 5000 5000000 base); left.
  - by apply (destructive_needs_consent 4096 (delete_with [("confirm", "billing"); ("dry_run", "1")]) "orders" "billing" (json_body (JObj []))
                5000 5000000 base); right.
  - destruct (handleDeleteStream (delete_with [("confirm", "orders")]) "orders" 5000000 base) as [w' [status [res dlq]|e]] eqn:Hrun.
    + exists w', res, dlq. assert (status = 200) as -> by (vm_compute in Hrun; congruence). split; [done|].
      by apply (destructive_needs_consent 4096 (delete_with [("confirm", "orders")]) "orders" "billing" (json_body (JObj [])) 5000 5000000 base)
        in Hrun as (_ & _ & ? & _); [|exact base_ok].
    + assert (sent (handleDeleteStream (delete_with [("confirm", "orders")]) "orders" 5000000 base) = true) as Hs by (vm_compute; reflexivity).
      rewrite Hrun in Hs. done.
Defined.

Lemma upsert_never_edits_witness :
  converged "orders" (w_db base) (w_db (handleCreateConsumer DefaultConsumerLimits 4096 "orders"
    (json_body (JObj [("name", JStr "billing"); ("start", JStr "first"); ("max_deliver", JNum 3)])) 5000 5000000 base).1).
Proof.
  apply (upsert_never_edits DefaultConsumerLimits 4096 "orders"). intros a b Ha Hb. vm_compute in Ha, Hb.
  apply list_elem_of_In in Ha, Hb. simpl in Ha, Hb. naive_solver.
Defined.

(** A dry run spelled [true] purges: only the value [1] previews, and no route
    but the two deletions refuses what it does not honour. *)
Lemma purge_dry_run_true_applies :
  exists w' im, handlePurgeStream 4096 (purge_with [("dry_run", "true")]) "orders" (json_body (JObj [])) Publish.after_publish
                = (w', Body 200 (true, im)) /\ messages (w_db w') = [] /\ messages (w_db Publish.after_publish) <> [].
Proof. eexists _, _. split; [vm_compute; reflexivity|]. by vm_compute. Qed.

(** A deletion refuses the preview its row of the registry declares. *)
Lemma delete_declares_and_refuses_dry_run :
  rt_DryRun (destroying "DELETE" "/v1/streams/{stream}" "delete_stream" "stream" "StreamDelete") = true
  /\ refused base (handleDeleteStream (delete_with [("confirm", "orders"); ("dry_run", "1")]) "orders" 5000000 base).
Proof. split; [done|]. apply check_refused. intros _. by apply guards_refuse; right. Qed.

(** Filters that repeat a pattern are stored without the repetition; posting the
    same document again is then refused as a different configuration. *)
Definition audited : json :=
  JObj [("name", JStr "audit"); ("start", JStr "first"); ("filters", JArr [JStr "orders.*"; JStr "orders.*"])].

Lemma repeated_filter_not_idempotent :
  let first := handleCreateConsumer DefaultConsumerLimits 4096 "orders" (json_body audited) 5000 5000000 base in
  sent first = true
  /\ sent (handleCreateConsumer DefaultConsumerLimits 4096 "orders" (json_body audited) 5000 5000000 first.1) = false.
Proof. by vm_compute. Qed.

End ApiAdmin.
