(* ===== verification/Journal.v ===== *)
(** * The event journal: internal/store/events.go, events_trim.go, admin.go

    The journal is read in pages, each bounded by the rows it returns and by the
    rows it examines, and trimmed by age and by size.  A row is the pair of its
    rowid and the event; the [detail] column is represented by what it encodes. *)

From S2P Require Export ConsumerAdmin.

(** ** Bounded scans: the loop that [Store.Events] and [Store.ListMessages] share *)

Module Paging.

(** Why a scan stopped: the rows ended, the page was filled, or the next row would
    exceed the number of rows it may examine. *)
Inductive stop : Set := Exhausted | Filled | BoundReached.

Section Scan.
Context {A : Type} (ok : A -> bool) (lim budget : Z).

(** [last] is the last row examined. *)
Fixpoint scan (scanned : Z) (found : list A) (last : option A) (rows : list A) : list A * option A * stop :=
  match rows with
  | [] => (found, last, Exhausted)
  | x :: rows =>
      if scanned =? budget then (found, last, BoundReached)
      else if negb (ok x) then scan (scanned + 1) found (Some x) rows
      else let found := found ++ [x] in
           if Z.of_nat (length found) =? lim then (found, Some x, Filled)
           else scan (scanned + 1) found (Some x) rows
  end.

Definition or_last (l : list A) (last : option A) : option A :=
  match list.last l with Some x => Some x | None => last end.

Lemma or_last_cons x l last : or_last (x :: l) last = or_last l (Some x).
Proof. unfold or_last. destruct l as [|y l]; [done|]. rewrite last_cons_cons. by destruct (list.last (y :: l)) eqn:Hl; [|apply last_None in Hl]. Qed.

(** A scan examines a prefix of the rows and keeps what matches in it. *)
Lemma scan_spec scanned found last rows :
  scanned <= budget ->
  let '(found', last', why) := scan scanned found last rows in
  exists pre post, rows = pre ++ post /\ found' = found ++ where_ ok pre /\ last' = or_last pre last /\
    match why with
    | Exhausted => post = [] /\ scanned + Z.of_nat (length pre) <= budget
    | Filled => pre <> [] /\ Z.of_nat (length found') = lim
    | BoundReached => scanned + Z.of_nat (length pre) = budget
    end.
Proof.
  revert scanned found last. induction rows as [|x rows IH]; intros scanned found last Hb.
  { exists [], []. simpl. rewrite app_nil_r. split_and!; done || lia. }
  simpl. destruct (scanned =? budget) eqn:Hs; bool_prop.
  { exists [], (x :: rows). simpl. rewrite app_nil_r. split_and!; try done. lia. }
  assert (Hstep : forall found1, found1 = found ++ where_ ok [x] ->
    let '(found', last', why) := scan (scanned + 1) found1 (Some x) rows in
    exists pre post, x :: rows = pre ++ post /\ found' = found ++ where_ ok pre /\ last' = or_last pre last /\
      match why with
      | Exhausted => post = [] /\ scanned + Z.of_nat (length pre) <= budget
      | Filled => pre <> [] /\ Z.of_nat (length found') = lim
      | BoundReached => scanned + Z.of_nat (length pre) = budget
      end).
  { intros found1 ->. specialize (IH (scanned + 1) (found ++ where_ ok [x]) (Some x) ltac:(lia)).
    destruct (scan _ _ _ rows) as [[found' last'] why]. destruct IH as (pre & post & -> & -> & -> & Hst).
    exists (x :: pre), post. rewrite or_last_cons. split_and!; [done| |done|].
    - rewrite <-app_assoc. f_equal. unfold where_. simpl. by destruct (ok x).
    - destruct why; cbn [length] in *; [split; [tauto|lia]|split; [done|tauto]|lia]. }
  unfold where_ in Hstep. simpl in Hstep. destruct (ok x) eqn:Hm; simpl.
  - destruct (_ =? lim) eqn:Hl; bool_prop; [|by apply Hstep]. exists [x], rows. unfold where_. simpl. rewrite Hm. by split_and!.
  - apply Hstep. by rewrite app_nil_r.
Qed.

(** A page that is not filled is short. *)
Lemma scan_short scanned found last rows :
  Z.of_nat (length found) < lim ->
  let '(found', _, why) := scan scanned found last rows in why <> Filled -> Z.of_nat (length found') < lim.
Proof.
  revert scanned found last. induction rows as [|x rows IH]; intros scanned found last Hl; simpl; [done|].
  destruct (scanned =? budget); [done|]. destruct (ok x); simpl; [|by apply IH].
  destruct (_ =? lim) eqn:He; bool_prop; [done|]. apply IH. rewrite length_app in *. simpl in *. lia.
Qed.

End Scan.

End Paging.

Module Journal.

Import Paging.

(** ** Reading *)

Inductive Order : Set := OrderAsc | OrderDesc.

#[global] Instance Order_eq_dec : EqDecision Order.
Proof. solve_decision. Defined.

Record EventFilter : Set := MkFilter {
  ef_MsgID : string;
  ef_TraceID : string;
  ef_Stream : string;
  ef_Consumer : string;
  ef_Events : list string;
  ef_Since : Z;
  ef_Until : Z;
  ef_AfterID : Z;
  ef_Limit : Z;
  ef_ScanBudget : Z;
  ef_Order : Order;
}.

Record EventPage : Set := MkPage {
  ep_Events : list event;
  ep_Complete : bool;
  ep_ScannedToID : Z;
  ep_NextAfterID : Z;
  ep_HorizonTS : Z;
}.

(** [Options.EventQueryMaxLimit] and [Options.EventScanBudget]. *)
Record ceilings : Set := MkCeilings { eventQueryMaxLimit : Z; eventScanBudget : Z }.

Definition EventHorizon (d : db) : Z := default 0 (min_of (fun x => ev_ts x.2) (events d)).

Definition MaxEventID (d : db) : Z := default 0 (max_of fst (events d)).

Definition eventPatternMatch (pattern name : string) : bool :=
  if has_suffix ".*" pattern then has_prefix (take_str (String.length pattern - 1) pattern) name
  else bool_decide (pattern = name).

(** The residual predicates, on the carrier: a NULL column reads as the empty string. *)
Definition matches (f : EventFilter) (e : event) : bool :=
  if negb (bool_decide (ef_Stream f = "")) && negb (bool_decide (default "" (ev_stream e) = ef_Stream f)) then false
  else if negb (bool_decide (ef_Consumer f = "")) && negb (bool_decide (default "" (ev_consumer e) = ef_Consumer f)) then false
  else existsb (fun p => eventPatternMatch p (ev_name e)) (ef_Events f) || bool_decide (ef_Events f = []).

(** The WHERE clause of [buildEventQuery] without its cursor, and the cursor. *)
Definition anchored (f : EventFilter) (x : Z * event) : bool :=
  (bool_decide (ef_MsgID f = "") || bool_decide (ev_msg_id x.2 = Some (ef_MsgID f)))
  && (bool_decide (ef_TraceID f = "") || bool_decide (ev_trace_id x.2 = Some (ef_TraceID f)))
  && ((ef_Since f <=? 0) || (ef_Since f <=? ev_ts x.2))
  && ((ef_Until f <=? 0) || (ev_ts x.2 <? ef_Until f)).

Definition past_cursor (f : EventFilter) (x : Z * event) : bool :=
  (ef_AfterID f <=? 0) || match ef_Order f with OrderDesc => x.1 <? ef_AfterID f | OrderAsc => ef_AfterID f <? x.1 end.

Definition ordered (o : Order) (t : list (Z * event)) : list (Z * event) :=
  match o with
  | OrderAsc => order_by (fun a b => a.1 <=? b.1) t
  | OrderDesc => order_by (fun a b => b.1 <=? a.1) t
  end.

Definition buildEventQuery (f : EventFilter) (maxRows : Z) (d : db) : list (Z * event) :=
  limit maxRows (ordered (ef_Order f) (where_ (fun x => anchored f x && past_cursor f x) (events d))).

Definition capped (v ceiling : Z) : Z := if (v <=? 0) || (ceiling <? v) then ceiling else v.

Definition Events (s : ceilings) (f : EventFilter) (d : db) : EventPage :=
  let lim := capped (ef_Limit f) (eventQueryMaxLimit s) in
  let budget := capped (ef_ScanBudget f) (eventScanBudget s) in
  let '(found, last, why) := scan (fun x => matches f x.2) lim budget 0 [] None (buildEventQuery f (lim + budget) d) in
  let scannedTo := default 0 (fst <$> last) in
  match why with
  | Exhausted => MkPage (map snd found) true scannedTo 0 (EventHorizon d)
  | _ => MkPage (map snd found) false scannedTo scannedTo (EventHorizon d)
  end.

(** ** Trimming *)

Definition defaultTrimBatch : Z := 512.

Record TrimEventsCmd : Set := MkTrim { tr_MaxAgeMs : Z; tr_MaxRows : Z; tr_Batch : Z }.

Record TrimEventsResult : Set := MkTrimResult { tr_Deleted : Z; tr_More : bool }.

(** [DELETE FROM events WHERE id IN (SELECT id ... ORDER BY id ASC LIMIT n)]. *)
Definition oldest_ids (p : Z * event -> bool) (n : Z) (t : list (Z * event)) : list Z :=
  map fst (limit n (ordered OrderAsc (where_ p t))).

Definition trimDeleteChunk (p : Z * event -> bool) (n : Z) : tx Z :=
  ids ← query (fun d => oldest_ids p n (events d));
  n ← query (fun d => count (fun x => bool_decide (x.1 ∈ ids)) (events d));
  _ ← exec (on_events (delete_where (fun x => bool_decide (x.1 ∈ ids))));
  mret n.

Definition aged (cutoff : Z) (x : Z * event) : bool := ev_ts x.2 <? cutoff.

Definition total_events (d : db) : Z := Z.of_nat (length (events d)).

(** One round of the loop: the age pass, then the size pass; what each deleted. *)
Definition trim_round (c : TrimEventsCmd) (nowMS budget : Z) : tx (Z * Z) :=
  n1 ← (if (0 <? tr_MaxAgeMs c) && (0 <? budget) then trimDeleteChunk (aged (nowMS - tr_MaxAgeMs c)) budget else mret 0);
  n2 ← (if (0 <? tr_MaxRows c) && (0 <? budget - n1) then
          total ← query total_events;
          let excess := total - tr_MaxRows c in
          if 0 <? excess then trimDeleteChunk (fun _ => true) (Z.min excess (budget - n1)) else mret 0
        else mret 0);
  mret (n1, n2).

(** [None] when the fuel runs out. *)
Fixpoint trim_loop (fuel : nat) (c : TrimEventsCmd) (nowMS budget deleted : Z) : tx (option Z) :=
  match fuel with
  | O => mret None
  | S fuel =>
      '(n1, n2) ← trim_round c nowMS budget;
      let budget := budget - n1 - n2 in
      let deleted := deleted + n1 + n2 in
      if negb ((0 <? n1) || (0 <? n2)) || (budget <=? 0) then mret (Some deleted)
      else trim_loop fuel c nowMS budget deleted
  end.

Definition trimStillOwed (maxAgeMs nowMS maxRows : Z) (d : db) : bool :=
  if (0 <? maxRows) && (maxRows <? total_events d) then true
  else if 0 <? maxAgeMs then existsb (aged (nowMS - maxAgeMs)) (events d)
  else false.

(** Every round but the last deletes a row, so the budget bounds the rounds. *)
Definition TrimEvents (c : TrimEventsCmd) (now : Z) : tx (option TrimEventsResult * list event) :=
  let nowMS := UnixMilli now in
  let budget := if tr_Batch c <=? 0 then defaultTrimBatch else tr_Batch c in
  deleted ← trim_loop (S (Z.to_nat budget)) c nowMS budget 0;
  match deleted with
  | None => mret (None, [])
  | Some deleted =>
      more ← query (trimStillOwed (tr_MaxAgeMs c) nowMS (tr_MaxRows c));
      mret (Some (MkTrimResult deleted more), [])
  end.

(** ** admin.go: the settings and levels are plain words, which [%q] quotes as JSON does *)

Definition adminActionCmd (setting from to actor : string) (now : Z) : tx (unit * list event) :=
  ev ← commitEvent (Event (UnixMilli now) "admin.action" None None None None None None None (nullStr actor)
                      [("setting", DStr setting); ("from", DStr from); ("to", DStr to)]);
  mret (tt, [ev]).

(** ** Facts: the journal *)

(** Rowids are positive and grow along the table. *)
Definition journal_ok (t : list (Z * event)) : Prop := StronglySorted Z.lt (map fst t) /\ Forall (Z.lt 0) (map fst t).

Lemma journal_nil : journal_ok [].
Proof. split; constructor. Qed.

Lemma journal_append t e : journal_ok t -> journal_ok (t ++ [(next_event_id t, e)]).
Proof.
  intros [Hs Hp]. unfold journal_ok. rewrite map_app. simpl. split.
  - apply StronglySorted_app. split_and!; [|done|repeat constructor]. intros x y Hx ->%list_elem_of_singleton.
    apply mapped_in in Hx as (r & -> & Hr). unfold next_event_id. destruct (max_of fst t) as [m|] eqn:Hm.
    + pose proof (max_of_bound _ _ _ _ Hm Hr). lia.
    + apply max_of_None in Hm as ->. by apply elem_of_nil in Hr.
  - apply Forall_app. split; [done|]. repeat constructor. unfold next_event_id. destruct (max_of fst t) as [m|] eqn:Hm; [|lia].
    destruct t as [|r t]; [done|]. pose proof (max_of_bound _ _ _ r Hm ltac:(left)). apply Forall_inv in Hp. simpl in *. lia.
Qed.

Lemma journal_where p t : journal_ok t -> journal_ok (where_ p t).
Proof.
  intros [Hs Hp]. split; [by apply sorted_where|]. rewrite Forall_forall in Hp. apply Forall_forall.
  intros x (r & -> & [_ Hr]%elem_of_where)%mapped_in. apply Hp. by apply in_mapped.
Qed.

(** *** The rows of a query *)

Definition dirkey (o : Order) (x : Z * event) : Z := match o with OrderAsc => x.1 | OrderDesc => - x.1 end.

Definition rows (f : EventFilter) (d : db) : list (Z * event) :=
  ordered (ef_Order f) (where_ (fun x => anchored f x && past_cursor f x) (events d)).

(** What a filter asks for: the matching rows past its cursor, in its order. *)
Definition answers (f : EventFilter) (d : db) : list event :=
  map snd (where_ (fun x => matches f x.2) (rows f d)).

Lemma where_reverse {R} (p : R -> bool) t : where_ p (reverse t) = reverse (where_ p t).
Proof.
  induction t as [|r t IH]; [done|]. rewrite reverse_cons. unfold where_ in *. rewrite List.filter_app, IH. simpl.
  destruct (p r); [by rewrite reverse_cons|by rewrite app_nil_r].
Qed.

Lemma ordered_where o p t : journal_ok t -> ordered o (where_ p t) = where_ p (ordered o t).
Proof.
  intros Hj. pose proof (journal_where p _ Hj) as [Hw _]. destruct Hj as [Hs _]. destruct o; simpl.
  - by rewrite !(order_by_id fst).
  - rewrite !(order_by_reverse fst) by done. by rewrite where_reverse.
Qed.

Lemma ordered_sorted o t : journal_ok t -> StronglySorted Z.lt (map (dirkey o) (ordered o t)).
Proof.
  intros [Hs _]. destruct o; simpl; [by rewrite (order_by_id fst)|]. rewrite (order_by_reverse fst) by done.
  pose proof (StronglySorted_reverse _ _ Hs) as Hr. change (map fst t) with (fst <$> t) in Hr. rewrite <-fmap_reverse in Hr.
  apply StronglySorted_map. induction (reverse t) as [|a l IH]; [constructor|]. simpl in Hr. apply StronglySorted_inv in Hr as [Hr Ha].
  constructor; [auto|]. rewrite Forall_forall in Ha. apply Forall_forall. intros b Hb. simpl.
  specialize (Ha (fst b) (in_mapped fst l b Hb)). simpl in Ha. lia.
Qed.

Lemma rows_in f d x : x ∈ rows f d -> x ∈ events d /\ anchored f x = true /\ past_cursor f x = true.
Proof.
  intros Hx. assert (x ∈ where_ (fun x => anchored f x && past_cursor f x) (events d)) as Hin.
  { unfold rows, ordered in Hx. destruct (ef_Order f); by apply elem_of_order_by in Hx. }
  apply elem_of_where in Hin as [Hp Hin]. bool_prop. tauto.
Qed.

(** *** One page *)

Lemma capped_pos v c : 0 < c -> 0 < capped v c.
Proof. intros Hc. unfold capped. case_match; bool_prop; lia. Qed.

Definition sane (s : ceilings) : Prop := 0 < eventQueryMaxLimit s /\ 0 < eventScanBudget s.

Lemma Events_spec s f d :
  sane s -> let page := Events s f d in
  exists pre post, rows f d = pre ++ post /\ ep_Events page = map snd (where_ (fun x => matches f x.2) pre) /\
    if ep_Complete page then post = []
    else exists x, list.last pre = Some x /\ ep_NextAfterID page = x.1.
Proof.
  intros [Hlim Hbud]. unfold Events. apply (capped_pos (ef_Limit f)) in Hlim. apply (capped_pos (ef_ScanBudget f)) in Hbud.
  set (lim := capped (ef_Limit f) _) in *. set (budget := capped (ef_ScanBudget f) _) in *.
  pose proof (scan_spec (fun x => matches f x.2) lim budget 0 [] None (buildEventQuery f (lim + budget) d) ltac:(lia)) as Hsc.
  destruct (scan _ _ _ _ _ _ _) as [[found last] why]. destruct Hsc as (pre & post & Hq & -> & -> & Hst). simpl.
  unfold buildEventQuery in Hq. change (ordered _ _) with (rows f d) in Hq.
  assert (Hmore : pre <> [] -> exists pre' post', rows f d = pre' ++ post' /\
    map snd (where_ (fun x => matches f x.2) pre) = map snd (where_ (fun x => matches f x.2) pre') /\
    exists x, list.last pre' = Some x /\ default 0 (fst <$> or_last pre None) = x.1).
  { intros Hne. destruct (limit_prefix (lim + budget) (rows f d)) as [rest Hr]. exists pre, (post ++ rest).
    rewrite Hr, Hq, <-app_assoc. split_and!; try done. unfold or_last. destruct (list.last pre) as [x|] eqn:Hl; [by exists x|].
    by apply last_None in Hl. }
  destruct why; simpl.
  - destruct Hst as [-> Hlen]. rewrite app_nil_r in Hq. exists pre, []. rewrite app_nil_r. split_and!; try done.
    rewrite <-Hq. symmetry. apply limit_full. rewrite Hq. lia.
  - apply Hmore. tauto.
  - apply Hmore. intros ->. simpl in Hst. lia.
Qed.

(** *** Following the cursor *)

Definition resume (f : EventFilter) (id : Z) : EventFilter :=
  MkFilter (ef_MsgID f) (ef_TraceID f) (ef_Stream f) (ef_Consumer f) (ef_Events f) (ef_Since f) (ef_Until f) id
    (ef_Limit f) (ef_ScanBudget f) (ef_Order f).

(** A caller that asks for page after page; [ds] are the databases it meets. *)
Fixpoint walk (s : ceilings) (f : EventFilter) (ds : list db) : option (list event) :=
  match ds with
  | [] => None
  | d :: ds =>
      let page := Events s f d in
      if ep_Complete page then Some (ep_Events page)
      else rest ← walk s (resume f (ep_NextAfterID page)) ds; Some (ep_Events page ++ rest)
  end.

Lemma where_after {R} (g : R -> Z) pre x post :
  StronglySorted Z.lt (map g (pre ++ x :: post)) -> where_ (fun y => g x <? g y) (pre ++ x :: post) = post.
Proof.
  intros Hs. unfold where_. rewrite List.filter_app. simpl. rewrite Z.ltb_irrefl. rewrite map_app in Hs. simpl in Hs.
  apply StronglySorted_app in Hs as (Hlow & _ & [_ Hhi]%StronglySorted_inv).
  rewrite Forall_forall in Hhi. change (List.filter ?p ?l) with (where_ p l).
  assert (where_ (fun y => g x <? g y) pre = []) as ->.
  { apply where_nil. intros y Hy. specialize (Hlow (g y) (g x) (in_mapped g pre y Hy) ltac:(left)). lia. }
  apply where_all. intros y Hy. specialize (Hhi (g y) (in_mapped g post y Hy)). lia.
Qed.

(** The next query returns the rows the page did not reach. *)
Lemma rows_resume f d pre x post :
  journal_ok (events d) -> rows f d = pre ++ x :: post -> rows (resume f x.1) d = post.
Proof.
  intros Hj Hr. assert (Hx : x ∈ rows f d) by (rewrite Hr; set_solver). apply rows_in in Hx as (Hin & _ & Hcur).
  pose proof Hj as [_ Hpos]. assert (0 < x.1) as H0 by (rewrite Forall_forall in Hpos; by apply Hpos, in_mapped).
  pose proof (ordered_sorted (ef_Order f) _ (journal_where (fun x => anchored f x && past_cursor f x) _ Hj)) as Hso.
  change (ordered _ _) with (rows f d) in Hso. rewrite Hr in Hso.
  transitivity (where_ (fun y => dirkey (ef_Order f) x <? dirkey (ef_Order f) y) (rows f d)); [|rewrite Hr; by apply where_after].
  unfold rows. rewrite <-ordered_where by (by apply journal_where). simpl. rewrite <-where_where. apply (f_equal (ordered (ef_Order f))).
  apply where_ext. intros y _. unfold anchored, past_cursor in *. simpl. rewrite <-!andb_assoc. do 4 f_equal.
  rewrite (proj2 (Z.leb_gt (x.1) 0) H0). simpl. destruct (ef_AfterID f <=? 0) eqn:Ha; simpl in *; [by destruct (ef_Order f); simpl; lia|].
  destruct (ef_Order f); simpl in *; lia.
Qed.

Lemma answers_resume f d pre x post :
  journal_ok (events d) -> rows f d = pre ++ x :: post ->
  answers f d = map snd (where_ (fun x => matches f x.2) (pre ++ [x])) ++ answers (resume f x.1) d.
Proof.
  intros Hj Hr. unfold answers. rewrite (rows_resume f d pre x post Hj Hr), Hr, <-map_app.
  change (matches (resume f x.1)) with (matches f). f_equal. unfold where_. rewrite <-List.filter_app. by rewrite <-app_assoc.
Qed.

Lemma last_split {A} (l : list A) x : list.last l = Some x -> exists pre, l = pre ++ [x].
Proof. intros Hl. by apply last_Some in Hl. Qed.

(** C30: A caller that follows [NextAfterID] until a page says [Complete] gets every
    event the filter asks for, once and in order, whatever the page and scan bounds
    are; it needs no more pages than there are rows, and one. *)
Theorem events_walk s f d n :
  sane s -> journal_ok (events d) -> (length (rows f d) < n)%nat -> walk s f (replicate n d) = Some (answers f d).
Proof.
  intros Hs Hj. revert f. induction n as [|n IH]; intros f Hn; [lia|]. simpl.
  destruct (Events_spec s f d Hs) as (pre & post & Hr & Hev & Hst). destruct (ep_Complete _).
  - rewrite Hev, Hst, app_nil_r in *. unfold answers. by rewrite Hr.
  - destruct Hst as (x & (pre' & ->)%last_split & Hnext). rewrite Hnext.
    rewrite <-app_assoc in Hr. simpl in Hr. rewrite IH.
    + simpl. rewrite Hev. by rewrite (answers_resume f d pre' x post).
    + rewrite (rows_resume f d pre' x post Hj Hr). rewrite Hr, length_app in Hn. simpl in Hn. lia.
Qed.

(** Oldest first, the journal may grow between the pages. *)
Definition extends (d d' : db) : Prop := exists new, events d' = events d ++ new.

Lemma rows_extends f d d' :
  ef_Order f = OrderAsc -> journal_ok (events d) -> journal_ok (events d') -> extends d d' ->
  exists new, rows f d' = rows f d ++ new.
Proof.
  intros Ho [Hs _] [Hs' _] [new He]. unfold rows. rewrite Ho. simpl.
  exists (where_ (fun x => anchored f x && past_cursor f x) new).
  rewrite !(order_by_id fst) by (by apply sorted_where). rewrite He. unfold where_. apply List.filter_app.
Qed.

(** A follower that reads oldest first while events are appended between its
    pages ends, when a page is complete, with exactly the events that are in the
    journal at that moment: appending disturbs no page. *)
Lemma events_follow s f ds evs :
  sane s -> ef_Order f = OrderAsc -> Forall (fun d => journal_ok (events d)) ds -> StronglySorted extends ds ->
  walk s f ds = Some evs -> exists d, d ∈ ds /\ evs = answers f d.
Proof.
  intros Hs. revert f evs. induction ds as [|d ds IH]; intros f evs Ho Hj Hext; [done|]. simpl.
  apply Forall_cons in Hj as [Hd Hj]. apply StronglySorted_inv in Hext as [Hext Hall].
  destruct (Events_spec s f d Hs) as (pre & post & Hr & Hev & Hst). destruct (ep_Complete _).
  - intros [= <-]. exists d. split; [left|]. rewrite Hev, Hst, app_nil_r in *. unfold answers. by rewrite Hr.
  - destruct Hst as (x & (pre' & ->)%last_split & ->). intros (rest & Hw & [= <-])%bind_Some.
    destruct (IH (resume f x.1) _ Ho Hj Hext Hw) as (d' & Hd' & ->). exists d'. split; [by right|]. rewrite Hev.
    rewrite Forall_forall in Hall, Hj. destruct (rows_extends f d d' Ho Hd (Hj d' Hd') (Hall d' Hd')) as [new Hr'].
    rewrite Hr, <-!app_assoc in Hr'. simpl in Hr'. by rewrite (answers_resume f d' pre' x _ (Hj d' Hd') Hr').
Qed.

(** *** The trim *)

(** One bounded statement deletes the first [n] rows of [p]. *)
Lemma oldest_deleted p n t :
  journal_ok t -> 0 <= n ->
  delete_where (fun x => bool_decide (x.1 ∈ oldest_ids p n t)) t = delete_first p (Z.to_nat n) t /\
  count (fun x => bool_decide (x.1 ∈ oldest_ids p n t)) t = Z.min n (count p t).
Proof.
  intros [Hs _] Hn. unfold oldest_ids. simpl. rewrite (order_by_id fst) by (by apply sorted_where).
  unfold limit. rewrite (proj2 (Z.ltb_ge n 0) Hn). assert (Hm : Z.of_nat (Z.to_nat n) = n) by lia. revert Hm.
  generalize (Z.to_nat n) as m. intros m <-. clear Hn. revert m. induction t as [|r t IH]; intros m.
  { split; [done|]. unfold count. simpl. lia. }
  simpl in Hs. apply StronglySorted_inv in Hs as [Hs Ha]. rewrite Forall_forall in Ha.
  assert (Hno : forall m', bool_decide (r.1 ∈ map fst (take m' (where_ p t))) = false).
  { intros m'. apply bool_decide_eq_false. intros (x & Hx & Hin)%mapped_in. rewrite list_elem_of_In in Hin.
    apply list_elem_of_In, elem_of_take in Hin as (i & Hin%list_elem_of_lookup_2 & _). apply elem_of_where in Hin as [_ Hin].
    specialize (Ha _ (in_mapped fst t x Hin)). simpl in Ha. lia. }
  unfold where_, delete_where. simpl. destruct (p r) eqn:Hp; [destruct m as [|m]|]; simpl.
  - split; [|rewrite !count_cons, Hp; unfold count; simpl; change (List.filter ?p ?l) with (where_ p l); rewrite where_nil by done; simpl; lia].
    f_equal. change (delete_where (fun _ => false) t = t). rewrite delete_omap. by apply omap_id.
  - destruct (IH Hs m) as [Hd Hc]. rewrite bool_decide_true by left. simpl.
    assert (Hext : forall x, x ∈ t -> bool_decide (x.1 ∈ r.1 :: map fst (take m (List.filter p t))) = bool_decide (x.1 ∈ map fst (take m (where_ p t)))).
    { intros x Hx. specialize (Ha _ (in_mapped fst t x Hx)). apply bool_decide_ext. rewrite elem_of_cons. unfold where_.
      split; [intros [? |?]; [lia|done]|by right]. }
    split.
    + rewrite <-Hd. by apply delete_where_ext.
    + rewrite !count_cons, Hp, bool_decide_true by left. rewrite (count_ext _ _ _ Hext), Hc. lia.
  - destruct (IH Hs m) as [Hd Hc]. change (List.filter p t) with (where_ p t). rewrite Hno. simpl. split; [by rewrite <-Hd|].
    rewrite !count_cons, Hp, Hno. change (List.filter p t) with (where_ p t) in Hc. rewrite Hc. lia.
Qed.

Lemma trimDeleteChunk_wp p n w Q :
  journal_ok (events (w_db w)) -> 0 <= n ->
  Q (Z.min n (count p (events (w_db w)))) (World (on_events (delete_first p (Z.to_nat n)) (w_db w)) (w_mem w)) ->
  wp (trimDeleteChunk p n) Q (fun _ _ => False) w.
Proof.
  intros Hj Hn HQ. destruct (oldest_deleted p n _ Hj Hn) as [Hd Hc]. unfold trimDeleteChunk. wp_steps.
  rewrite Hc. unfold on_events in *. by rewrite Hd.
Qed.

Lemma delete_first_kept {R} (p : R -> bool) n t x : x ∈ t -> p x = false -> x ∈ delete_first p n t.
Proof.
  revert n. induction t as [|r t IH]; intros n; [by intros ?%elem_of_nil|]. simpl. intros [-> |Hx]%elem_of_cons Hp.
  - rewrite Hp. left.
  - destruct (p r); [destruct n; [by right|auto]|right; auto].
Qed.

Lemma delete_first_sub {R} (p : R -> bool) n t : delete_first p n t `sublist_of` t.
Proof.
  revert n. induction t as [|r t IH]; intros n; simpl; [constructor|]. destruct (p r); [destruct n|]; [done| |]; by constructor.
Qed.

Lemma delete_first_length {R} (p : R -> bool) n t :
  Z.of_nat (length (delete_first p n t)) = Z.of_nat (length t) - Z.min (Z.of_nat n) (count p t).
Proof.
  revert n. induction t as [|r t IH]; intros n; [unfold count; simpl; lia|]. rewrite count_cons. cbn [delete_first].
  pose proof (count_nonneg p t). destruct (p r); [destruct n as [|n]|]; cbn [length]; rewrite ?Nat2Z.inj_succ, ?IH; lia.
Qed.

Lemma delete_first_drop {R} n (t : list R) : delete_first (fun _ => true) n t = drop n t.
Proof. revert n. induction t as [|r t IH]; intros [|n]; simpl; auto. Qed.

Lemma count_true {R} (t : list R) : count (fun _ => true) t = Z.of_nat (length t).
Proof. unfold count. by rewrite where_all. Qed.

Lemma journal_sub t t' : journal_ok t -> t' `sublist_of` t -> journal_ok t'.
Proof.
  intros [Hs Hp] Hsub. induction Hsub as [|x t' t Hsub IH|x t' t Hsub IH]; [by split| |].
  - simpl in *. apply StronglySorted_inv in Hs as [Hs Hx]. apply Forall_cons in Hp as [Hp0 Hp].
    destruct (IH Hs Hp) as [Hs' Hp']. split; constructor; try done. rewrite Forall_forall in *.
    intros y (r & -> & Hr)%mapped_in. apply Hx, in_mapped. by eapply elem_of_sublist.
  - simpl in *. apply StronglySorted_inv in Hs as [Hs _]. apply Forall_cons in Hp as [_ Hp]. auto.
Qed.

(** Nothing is owed any more. *)
Definition clean (c : TrimEventsCmd) (nowMS : Z) (t : list (Z * event)) : Prop :=
  (0 < tr_MaxAgeMs c -> forall x, x ∈ t -> aged (nowMS - tr_MaxAgeMs c) x = false) /\
  (0 < tr_MaxRows c -> Z.of_nat (length t) <= tr_MaxRows c).

(** A row may go for its age, or because the rows that stay are all newer and enough. *)
Definition owed (c : TrimEventsCmd) (nowMS : Z) (t' : list (Z * event)) (x : Z * event) : Prop :=
  (0 < tr_MaxAgeMs c /\ aged (nowMS - tr_MaxAgeMs c) x = true) \/
  (0 < tr_MaxRows c <= Z.of_nat (length t') /\ forall y, y ∈ t' -> x.1 < y.1).

Record trimmed (c : TrimEventsCmd) (nowMS budget n : Z) (t t' : list (Z * event)) : Prop := {
  trm_sub : t' `sublist_of` t;
  trm_count : n = Z.of_nat (length t) - Z.of_nat (length t');
  trm_budget : n <= budget;
  trm_owed : forall x, x ∈ t -> x ∉ t' -> owed c nowMS t' x;
  trm_clean : n < budget -> clean c nowMS t';
}.

Definition set_events (t : list (Z * event)) (w : world) : world := World (on_events (fun _ => t) (w_db w)) (w_mem w).

(** What each pass leaves. *)
Definition age_pass (c : TrimEventsCmd) (nowMS budget : Z) (t : list (Z * event)) : list (Z * event) :=
  if 0 <? tr_MaxAgeMs c then delete_first (aged (nowMS - tr_MaxAgeMs c)) (Z.to_nat budget) t else t.

Definition size_pass (c : TrimEventsCmd) (budget : Z) (t : list (Z * event)) : list (Z * event) :=
  if 0 <? tr_MaxRows c then drop (Z.to_nat (Z.min (Z.of_nat (length t) - tr_MaxRows c) budget)) t else t.

Lemma age_pass_spec c nowMS budget t :
  0 < budget -> let t1 := age_pass c nowMS budget t in let n1 := Z.of_nat (length t) - Z.of_nat (length t1) in
  t1 `sublist_of` t /\ 0 <= n1 <= budget /\
  (forall x, x ∈ t -> x ∉ t1 -> 0 < tr_MaxAgeMs c /\ aged (nowMS - tr_MaxAgeMs c) x = true) /\
  (n1 < budget -> 0 < tr_MaxAgeMs c -> forall x, x ∈ t1 -> aged (nowMS - tr_MaxAgeMs c) x = false).
Proof.
  intros Hb. unfold age_pass. destruct (0 <? tr_MaxAgeMs c) eqn:Ha; bool_prop.
  2: { cbv zeta. split_and!; try done; lia. }
  set (p := aged _). cbv zeta. pose proof (count_nonneg p t). rewrite delete_first_length. split_and!; try lia; [apply delete_first_sub| |].
  - intros x Hx Hn. split; [done|]. destruct (p x) eqn:Hp; [done|]. by destruct Hn; apply delete_first_kept.
  - intros Hlt _ x. rewrite delete_first_all by (unfold count in *; lia). by intros [? _]%elem_of_delete.
Qed.

Lemma size_pass_spec c budget t :
  journal_ok t -> 0 <= budget -> let t2 := size_pass c budget t in let n2 := Z.of_nat (length t) - Z.of_nat (length t2) in
  t2 `sublist_of` t /\ 0 <= n2 <= budget /\
  (forall x, x ∈ t -> x ∉ t2 -> 0 < tr_MaxRows c <= Z.of_nat (length t2) /\ forall y, y ∈ t2 -> x.1 < y.1) /\
  (n2 < budget \/ budget = 0 /\ Z.of_nat (length t) <= tr_MaxRows c -> 0 < tr_MaxRows c -> Z.of_nat (length t2) <= tr_MaxRows c).
Proof.
  intros [Hs _] Hb. unfold size_pass. destruct (0 <? tr_MaxRows c) eqn:Ha; bool_prop.
  2: { cbv zeta. split_and!; try done; lia. }
  cbv zeta. rewrite length_drop. set (k := Z.to_nat _). split_and!; try lia; [apply sublist_drop|].
  - intros x Hx Hn. assert (Hin : x ∈ take k t).
    { rewrite <-(take_drop k t) in Hx. apply elem_of_app in Hx as [? |?]; done. }
    assert (0 < Z.of_nat k).
    { destruct (decide (k = 0%nat)) as [E|]; [|lia]. rewrite E in Hn. by rewrite drop_0 in Hn. }
    split; [lia|]. intros y Hy. rewrite <-(take_drop k t), map_app in Hs. apply StronglySorted_app in Hs as (Hlt & _).
    apply Hlt; by apply in_mapped.
Qed.

Definition fewer (t t' : list (Z * event)) : Z := Z.of_nat (length t) - Z.of_nat (length t').

Lemma set_events_id w : set_events (events (w_db w)) w = w.
Proof. by destruct w as [[] ?]. Qed.

Lemma age_pass_wp c nowMS budget w Q :
  journal_ok (events (w_db w)) -> 0 < budget ->
  let t1 := age_pass c nowMS budget (events (w_db w)) in
  Q (fewer (events (w_db w)) t1) (set_events t1 w) ->
  wp (if (0 <? tr_MaxAgeMs c) && (0 <? budget) then trimDeleteChunk (aged (nowMS - tr_MaxAgeMs c)) budget else mret 0)
     Q (fun _ _ => False) w.
Proof.
  intros Hj Hb. unfold age_pass, fewer. rewrite (proj2 (Z.ltb_lt 0 budget) Hb). destruct (0 <? tr_MaxAgeMs c); simpl; intros HQ.
  - apply trimDeleteChunk_wp; [done|lia|]. rewrite delete_first_length in HQ. revert HQ.
    match goal with |- Q ?a _ -> Q ?b _ => replace b with a by lia end. done.
  - wp_steps. rewrite set_events_id, Z.sub_diag in HQ. exact HQ.
Qed.

Lemma size_pass_wp c budget w Q :
  journal_ok (events (w_db w)) -> 0 <= budget ->
  let t2 := size_pass c budget (events (w_db w)) in
  Q (fewer (events (w_db w)) t2) (set_events t2 w) ->
  wp (if (0 <? tr_MaxRows c) && (0 <? budget) then
        total ← query total_events;
        let excess := total - tr_MaxRows c in
        if 0 <? excess then trimDeleteChunk (fun _ => true) (Z.min excess budget) else mret 0
      else mret 0) Q (fun _ _ => False) w.
Proof.
  intros Hj Hb. unfold size_pass, fewer. set (t := events (w_db w)) in *.
  assert (Hdry : forall k, k = 0%nat -> Q (Z.of_nat (length t) - Z.of_nat (length (drop k t))) (set_events (drop k t) w) -> Q 0 w).
  { intros k -> HQ. rewrite drop_0, Z.sub_diag in HQ. unfold t in HQ. by rewrite set_events_id in HQ. }
  destruct (0 <? tr_MaxRows c); simpl; intros HQ; [|wp_steps; by apply (Hdry 0%nat)].
  destruct (0 <? budget) eqn:H1; bool_prop; [|wp_steps; eapply (Hdry (Z.to_nat _)); [|exact HQ]; lia].
  wp_steps. unfold total_events. fold t. destruct (0 <? _) eqn:H2; bool_prop; [|wp_steps; eapply (Hdry (Z.to_nat _)); [|exact HQ]; lia].
  apply trimDeleteChunk_wp; [done|lia|]. fold t. rewrite count_true. revert HQ. rewrite <-delete_first_drop.
  unfold set_events, on_events. simpl. fold t. rewrite delete_first_drop, length_drop.
  match goal with |- Q ?a _ -> Q ?b _ => replace b with a by lia end. done.
Qed.

Lemma trim_round_wp c nowMS budget w :
  journal_ok (events (w_db w)) -> 0 < budget ->
  wp (trim_round c nowMS budget)
     (fun '(a, b) w' => exists t', w' = set_events t' w /\ trimmed c nowMS budget (a + b) (events (w_db w)) t') (fun _ _ => False) w.
Proof.
  intros Hj Hb. unfold trim_round. apply wp_bind, age_pass_wp; [done..|].
  destruct (age_pass_spec c nowMS budget (events (w_db w)) Hb) as (Hsub1 & Hn1 & Hage & Hall).
  set (t := events (w_db w)) in *. generalize dependent (age_pass c nowMS budget t). intros t1 Hsub1 Hn1 Hage Hall.
  fold (fewer t t1) in *. pose proof (journal_sub _ _ Hj Hsub1) as Hj1.
  apply wp_bind, size_pass_wp; [done|lia|]. simpl.
  destruct (size_pass_spec c (budget - fewer t t1) t1 Hj1 ltac:(lia)) as (Hsub2 & Hn2 & Hsize & Hrows).
  generalize dependent (size_pass c (budget - fewer t t1) t1). intros t2 Hsub2 Hn2 Hsize Hrows.
  wp_steps. exists t2. split; [done|]. unfold fewer in *. split.
  - by etrans.
  - lia.
  - lia.
  - intros x Hx Hn. destruct (decide (x ∈ t1)) as [H1|H1]; [right; auto|left; auto].
  - intros Hlt. split; [|intros Hr; apply Hrows; [left; lia|done]].
    intros Ha x Hx. apply Hall; [lia|done|]. by eapply elem_of_sublist.
Qed.

(** After a round that leaves budget the next one finds nothing. *)
Lemma trim_dry c nowMS budget w :
  journal_ok (events (w_db w)) -> 0 < budget -> clean c nowMS (events (w_db w)) ->
  wp (trim_round c nowMS budget) (fun r w' => r = (0, 0) /\ w' = w) (fun _ _ => False) w.
Proof.
  intros Hj Hb [Ha Hr]. unfold trim_round. set (t := events (w_db w)) in *.
  assert (E1 : age_pass c nowMS budget t = t).
  { unfold age_pass. destruct (0 <? _) eqn:H0; bool_prop; [|done]. rewrite delete_first_all.
    - rewrite delete_omap. apply omap_id. intros x Hx. by rewrite Ha.
    - rewrite where_nil; [simpl; lia|auto]. }
  assert (E2 : size_pass c budget t = t).
  { unfold size_pass. destruct (0 <? _) eqn:H0; bool_prop; [|done]. specialize (Hr H0).
    by assert (Z.to_nat (Z.min (Z.of_nat (length t) - tr_MaxRows c) budget) = 0%nat) as -> by lia. }
  assert (E3 : fewer t t = 0) by (unfold fewer; lia).
  apply wp_bind, age_pass_wp; [done..|]. fold t. rewrite E1, E3, Z.sub_0_r. unfold t. rewrite set_events_id.
  apply wp_bind, size_pass_wp; [done|lia|]. fold t. rewrite E2, E3. unfold t. rewrite set_events_id. by wp_steps.
Qed.

Lemma owed_exact c nowMS d : trimStillOwed (tr_MaxAgeMs c) nowMS (tr_MaxRows c) d = false <-> clean c nowMS (events d).
Proof.
  unfold trimStillOwed, clean, total_events. split.
  - destruct (_ && _) eqn:Hr; [done|]. intros Hx. split.
    + intros Ha. rewrite (proj2 (Z.ltb_lt _ _) Ha) in Hx. intros x Hin. apply not_true_iff_false. intros Hag.
      apply not_true_iff_false in Hx. apply Hx, existsb_exists. exists x. by rewrite <-list_elem_of_In.
    + intros H0. rewrite (proj2 (Z.ltb_lt _ _) H0) in Hr. simpl in Hr. lia.
  - intros [Ha Hr]. destruct (_ && _) eqn:Hb; [bool_prop; lia|]. destruct (0 <? tr_MaxAgeMs c) eqn:H0; [|done]. bool_prop.
    apply not_true_iff_false. intros (x & Hx%list_elem_of_In & Hag)%existsb_exists. by rewrite Ha in Hag.
Qed.

Definition trim_budget (c : TrimEventsCmd) : Z := if tr_Batch c <=? 0 then defaultTrimBatch else tr_Batch c.

Lemma trim_loop_wp c nowMS budget fuel w :
  journal_ok (events (w_db w)) -> 0 < budget ->
  wp (trim_loop (S (S fuel)) c nowMS budget 0)
     (fun r w' => exists n t', r = Some n /\ w' = set_events t' w /\ trimmed c nowMS budget n (events (w_db w)) t')
     (fun _ _ => False) w.
Proof.
  intros Hj Hb. set (loop := trim_loop (S fuel)). change (trim_loop (S (S fuel)) c nowMS budget 0) with
    ('(n1, n2) ← trim_round c nowMS budget;
     if negb ((0 <? n1) || (0 <? n2)) || (budget - n1 - n2 <=? 0) then mret (Some (0 + n1 + n2))
     else loop c nowMS (budget - n1 - n2) (0 + n1 + n2)).
  apply wp_bind. eapply wp_mono; [by apply trim_round_wp| |done]. intros [n1 n2] w1 (t' & -> & Ht).
  destruct (_ || _) eqn:Hstop; [wp_steps; exists (n1 + n2), t'; split_and!; done|].
  apply orb_false_iff in Hstop as [_ Hleft]. bool_prop. unfold loop. cbn [trim_loop].
  apply wp_bind. eapply wp_mono; [apply trim_dry; simpl| |done].
  - eapply journal_sub; [exact Hj|exact (trm_sub _ _ _ _ _ _ Ht)].
  - lia.
  - apply (trm_clean _ _ _ _ _ _ Ht). lia.
  - intros [? ?] w2 [[= -> ->] ->]. simpl. wp_steps. exists (n1 + n2), t'. split_and!; [f_equal; lia|done|done].
Qed.

(** Trimming the journal always finishes; it deletes at most its budget of rows,
    only rows that are too old, or older than every row that stays when the rows
    that stay are still as many as the bound; [More] says exactly whether a bound is
    still exceeded, and then the whole budget was spent.  No other table changes. *)
Lemma trim_effect c now w :
  journal_ok (events (w_db w)) ->
  wp (TrimEvents c now)
     (fun '(res, evs) w' => exists t' n more, w' = set_events t' w /\ res = Some (MkTrimResult n more) /\ evs = [] /\
        journal_ok t' /\ trimmed c (UnixMilli now) (trim_budget c) n (events (w_db w)) t' /\
        (more = false <-> clean c (UnixMilli now) t') /\ (more = true -> n = trim_budget c))
     (fun _ _ => False) w.
Proof.
  intros Hj. assert (Hb : 0 < trim_budget c) by (unfold trim_budget, defaultTrimBatch; case_match; bool_prop; lia).
  unfold TrimEvents. fold (trim_budget c). destruct (Z.to_nat (trim_budget c)) as [|fuel] eqn:Hf; [lia|].
  apply wp_bind. eapply wp_mono; [by apply trim_loop_wp| |done]. intros r w' (n & t' & -> & -> & Ht). wp_steps.
  exists t', n. eexists. split_and!; [done|done|done| |done|apply owed_exact|].
  - eapply journal_sub; [exact Hj|exact (trm_sub _ _ _ _ _ _ Ht)].
  - intros Hm. pose proof (trm_budget _ _ _ _ _ _ Ht). destruct (decide (n = trim_budget c)) as [|Hn]; [done|].
    assert (Hc : clean c (UnixMilli now) t') by (apply (trm_clean _ _ _ _ _ _ Ht); lia).
    apply (owed_exact c (UnixMilli now) (w_db (set_events t' w))) in Hc. congruence.
Qed.

(** ** Samples *)

Import Samples.

Definition logged (n : nat) : world := set_events (imap (fun i e => (Z.of_nat i + 1, e)) (replicate n (blank_event 7 "msg.publish"))) base.

Definition everything : EventFilter := MkFilter "" "" "" "" [] 0 0 0 0 0 OrderAsc.

Definition page_of_one : ceilings := MkCeilings 1 2.

Lemma logged_ok : journal_ok (events (w_db (logged 3))).
Proof. split; [apply (bool_decide_unpack (StronglySorted Z.lt _))|apply (bool_decide_unpack (Forall (Z.lt 0) _))]; vm_compute; exact I. Qed.

Lemma logged_two_ok : journal_ok (events (w_db (logged 2))).
Proof. split; [apply (bool_decide_unpack (StronglySorted Z.lt _))|apply (bool_decide_unpack (Forall (Z.lt 0) _))]; vm_compute; exact I. Qed.

Lemma events_walk_witness :
  sane page_of_one /\ (length (rows everything (w_db (logged 3))) < 4)%nat /\
  walk page_of_one everything (replicate 4 (w_db (logged 3))) = Some (answers everything (w_db (logged 3))) /\
  length (answers everything (w_db (logged 3))) = 3%nat.
Proof.
  assert (Hn : (length (rows everything (w_db (logged 3))) < 4)%nat) by (vm_compute; lia).
  split; [by split|]. split; [exact Hn|]. split; [|vm_compute; reflexivity].
  apply events_walk; [by split|exact logged_ok|exact Hn].
Defined.

Definition in_2026 : Z := 1780000000000 * Millisecond.
Definition three_days : TrimEventsCmd := MkTrim (72 * 3600 * 1000) 0 0.

(** The audit row of a seek carries no timestamp.  Under the default retention of
    three days a trim in the same instant deletes it as too old, while a pause
    recorded at that instant stays. *)
Lemma seek_audit_trimmed :
  let r1 := ConsumerAdmin.setPausedCmd "orders" "billing" true "ops" in_2026 base in
  let r2 := ConsumerAdmin.seekCmd "orders" "billing" ConsumerAdmin.from_first false "ops" in_2026 r1.1 in
  let r3 := TrimEvents three_days in_2026 r2.1 in
  is_ok r1.2 = true /\ is_ok r2.2 = true /\ is_ok r3.2 = true /\
  map (fun x => ev_name x.2) (events (w_db r2.1)) = ["consumer.pause"; "consumer.seek"] /\
  map (fun x => ev_name x.2) (events (w_db r3.1)) = ["consumer.pause"].
Proof. vm_compute. by split_and!. Qed.

(** A rowid is one more than the largest in the table, so a journal whose rows
    have all been trimmed numbers its events from 1 again: a follower that resumes
    from its cursor gets a page that says it is complete and misses the new event. *)
Lemma trimmed_journal_loses_cursor :
  let r1 := TrimEvents three_days in_2026 (logged 3) in
  let r2 := adminActionCmd "log_level" "info" "debug" "ops" in_2026 r1.1 in
  is_ok r1.2 = true /\ is_ok r2.2 = true /\
  MaxEventID (w_db (logged 3)) = 3 /\ length (events (w_db r2.1)) = 1%nat /\
  Events page_of_one (resume everything 3) (w_db r2.1) = MkPage [] true 0 0 (UnixMilli in_2026).
Proof. vm_compute. by split_and!. Qed.

End Journal.
