(* ===== verification/Reads.v ===== *)
(** * Reads: internal/store/peek.go, pending.go

    The side-effect free reads of messages and of a consumer's pending set.  They
    run on the read pool, on one committed state: each is a function of it. *)

From S2P Require Export Journal StoreSettle.

Module Reads.

Import Policy Paging.

(** ** peek.go *)

(** [PeekMissError] explains a missing sequence number; the other errors do not. *)
Inductive peek_error : Set :=
| PeekMissError (reason : string) (boundary : Z)
| PeekErr (e : error).

Definition reasonExpired : string := "expired".
Definition reasonNeverPublished : string := "never_published".

(** [next] is coalesced to 0, so it is never NULL. *)
Definition PeekSeq (stream : string) (seq : Z) (d : db) : message + peek_error :=
  match ValidateExistingStreamName stream with
  | Err e => inr (PeekErr e)
  | Ok _ =>
      let first := min_of m_seq (where_ (on_stream stream) (messages d)) in
      let next := default 0 (find_seq stream d) in
      let stored :=
        if next <=? seq then inr (PeekMissError reasonNeverPublished (next - 1))
        else match query_row (has_key mkey (stream, seq)) (messages d) with
             | Some m => inl m
             | None => inr (PeekErr (E ErrNotFound "no row for seq"))
             end in
      match first with
      | Some f => if seq <? f then inr (PeekMissError reasonExpired f) else stored
      | None => stored
      end
  end.

(** The join on streams hides the rows of a deleted stream. *)
Definition PeekID (id : string) (d : db) : result message :=
  match query_row (fun m => bool_decide (m_id m = id) && existsb (has_key st_name (m_stream m)) (streams d)) (messages d) with
  | Some m => Ok m
  | None => Err (E ErrNotFound "no live message with id")
  end.

Record ListQuery : Set := MkListQuery {
  lq_Stream : string;
  lq_FromSeq : Z;
  lq_Subject : string;
  lq_Limit : Z;
  lq_Order : string;
  lq_IncludeBody : bool;
}.

Record Page : Set := MkListPage {
  pg_Messages : list message;
  pg_Complete : bool;
  pg_ScannedToSeq : Z;
  pg_Limit : Z;
}.

(** Without bodies the column is not selected: the field keeps its zero value. *)
Definition bodyCol (include : bool) (m : message) : message :=
  if include then m
  else Message (m_stream m) (m_seq m) (m_id m) (m_subject m) (m_hdr m) "" (m_size m) (m_published_at m) (m_trace_id m) (m_dedup_key m).

Definition desc (q : ListQuery) : bool := bool_decide (lq_Order q = "desc").

Definition fromClause (q : ListQuery) (m : message) : bool :=
  (lq_FromSeq q <=? 0) || (if desc q then m_seq m <=? lq_FromSeq q else lq_FromSeq q <=? m_seq m).

Definition literalClause (literal : string) (m : message) : bool :=
  bool_decide (literal = "") || bool_decide (m_subject m = literal).

Definition orderBy (descending : bool) (t : list message) : list message :=
  if descending then order_by (fun a b => m_seq b <=? m_seq a) t else order_by (fun a b => m_seq a <=? m_seq b) t.

Definition list_limit (peekMaxLimit : Z) (q : ListQuery) : Z :=
  let effective := if lq_IncludeBody q then peekMaxLimit / 10 else peekMaxLimit in
  if (lq_Limit q <=? 0) || (effective <? lq_Limit q) then effective else lq_Limit q.

(** The compiled filter, and the subject itself when it has no wildcard. *)
Definition compile (subj : string) : result (option Subject.Set_ * string) :=
  if bool_decide (subj = "") then Ok (None, "")
  else match Subject.ParseSet [subj] with
       | Err _ => Err (E ErrBadRequest "subject filter is not a valid pattern")
       | Ok set =>
           Ok (Some set, match Subject.ParsePattern subj with Ok pat => if Subject.IsLiteral pat then subj else "" | Err _ => "" end)
       end.

Definition selected (matcher : option Subject.Set_) (m : message) : bool :=
  match matcher with Some set => Subject.SetMatch set (m_subject m) | None => true end.

Definition ListMessages (peekMaxLimit peekScanLimit : Z) (q : ListQuery) (d : db) : result Page :=
  let? _ := ValidateExistingStreamName (lq_Stream q) in
  let lim := list_limit peekMaxLimit q in
  let? compiled := compile (lq_Subject q) in
  let '(matcher, literal) := compiled in
  let rows := orderBy (desc q)
    (where_ (fun m => on_stream (lq_Stream q) m && fromClause q m && literalClause literal m) (messages d)) in
  let '(found, last, why) := scan (selected matcher) lim peekScanLimit 0 [] None rows in
  let page := map (bodyCol (lq_IncludeBody q)) found in
  Ok (match why with
      | BoundReached =>
          if lim <=? Z.of_nat (length found) then MkListPage page true 0 lim
          else MkListPage page false (default 0 (m_seq <$> last)) lim
      | _ => MkListPage page true 0 lim
      end).

(** ** pending.go *)

Record PendingItem : Set := MkPendingItem {
  pi_Seq : Z;
  pi_State : string;
  pi_Attempts : Z;
  pi_MaxDeliver : Z;
  pi_VisibleAt : Z;
  pi_AckToken : option string;
}.

Record PendingPage : Set := MkPending {
  pl_Stream : string;
  pl_Consumer : string;
  pl_Limit : Z;
  pl_NextAfter : option Z;
  pl_Items : list PendingItem;
}.

Record PendingQuery : Set := MkPendingQuery {
  pq_Limit : Z;
  pq_After : Z;
  pq_OlderThanMS : Z;
  pq_State : string;
}.

(** A conversion to int32 keeps the low 32 bits. *)
Definition to_int32 (v : Z) : Z := (v + 2 ^ 31) mod 2 ^ 32 - 2 ^ 31.

Definition queueToken (stream consumer : string) (seq attempts generation : Z) : string :=
  Token.TokenString (Token.MkToken stream consumer seq (to_int32 attempts) generation).

(** Scanning a column into an int32 fails out of range. *)
Definition scan_int32 (v : Z) : result Z :=
  if (- 2 ^ 31 <=? v) && (v <? 2 ^ 31) then Ok v else Err (Plain "scan: value out of range").

Definition stateFilter (state : string) : result (delivery -> bool) :=
  if bool_decide (state = "") then Ok (fun _ => true)
  else if bool_decide (state = "ready") then Ok (fun r => d_state r =? 0)
  else if bool_decide (state = "inflight") then Ok (fun r => d_state r =? 1)
  else Err (Plain "unknown state filter").

Definition due_first (a b : delivery) : bool :=
  if d_visible_at a =? d_visible_at b then d_seq a <=? d_seq b else d_visible_at a <? d_visible_at b.

(** The joined row of a delivery; a delivery without its consumer has none. *)
Definition pending_item (stream consumer : string) (d : db) (r : delivery) : option (result PendingItem) :=
  c ← find_consumer (d_stream r) (d_consumer r) d;
  Some (let? maxDeliver := scan_int32 (c_max_deliver c) in
        let? gen := scan_int32 (d_generation r) in
        Ok (if d_state r =? 1
            then MkPendingItem (d_seq r) "inflight" (d_attempts r) maxDeliver (d_visible_at r)
                   (Some (queueToken stream consumer (d_seq r) (d_attempts r) gen))
            else MkPendingItem (d_seq r) "ready" (d_attempts r) maxDeliver (d_visible_at r) None)).

Fixpoint collect {A} (l : list (result A)) : result (list A) :=
  match l with
  | [] => Ok []
  | r :: l => let? a := r in let? rest := collect l in Ok (a :: rest)
  end.

(** A limit of 0 asks for no LIMIT clause. *)
Definition PendingList (stream consumer : string) (q : PendingQuery) (d : db) : result PendingPage :=
  if pq_Limit q <? 0 then Err (Plain "negative limit")
  else
    let lim := if pq_Limit q =? 0 then -1 else pq_Limit q in
    let? in_state := stateFilter (pq_State q) in
    let keep r := held_by stream consumer r && in_state r && ((pq_After q <=? 0) || (pq_After q <? d_seq r))
                  && ((pq_OlderThanMS q <=? 0) || (d_visible_at r <=? pq_OlderThanMS q))
                  && bool_decide (is_Some (find_consumer (d_stream r) (d_consumer r) d)) in
    let? items := collect (omap (pending_item stream consumer d) (limit lim (order_by due_first (where_ keep (deliveries d))))) in
    Ok (MkPending stream consumer (Z.max (pq_Limit q) lim)
          (if (Z.of_nat (length items) =? lim) && (0 <? lim) && (0 <? Z.of_nat (length items))
           then pi_Seq <$> list.last items else None) items).

(** ** Facts: listings *)

Definition seqkey (descending : bool) (m : message) : Z := if descending then - m_seq m else m_seq m.

Lemma orderBy_sorted b t : NoDup (map m_seq t) -> StronglySorted Z.lt (map (seqkey b) (orderBy b t)).
Proof.
  intros Hnd. destruct b; simpl.
  - pose proof (order_by_desc_sorted m_seq t Hnd) as Hs. apply StronglySorted_map.
    induction Hs as [|a l Hl IH Ha]; constructor; [done|]. eapply Forall_impl; [exact Ha|]. intros x. simpl. lia.
  - apply sorted_lt; [apply order_by_sorted|]. by rewrite (Permutation_map m_seq (order_by_Permutation _ t)).
Qed.

Lemma orderBy_Permutation b t : Permutation (orderBy b t) t.
Proof. destruct b; apply order_by_Permutation. Qed.

Lemma where_orderBy b p t : NoDup (map m_seq t) -> where_ p (orderBy b t) = orderBy b (where_ p t).
Proof.
  intros Hnd. apply (sorted_by_unique (seqkey b)).
  - by apply sorted_where, orderBy_sorted.
  - apply orderBy_sorted. by apply key_where.
  - by rewrite !orderBy_Permutation.
Qed.

(** The index on the subject skips no message the pattern selects. *)
Lemma compile_literal subj matcher literal m :
  compile subj = Ok (matcher, literal) -> selected matcher m = true -> literalClause literal m = true.
Proof.
  unfold compile, literalClause. case_bool_decide; [by intros [= <- <-]|].
  unfold Subject.ParseSet. simpl. destruct (Subject.ParsePattern subj) as [pat|e] eqn:Hp; [|done]. simpl. intros [= <- <-].
  simpl. unfold Subject.SetMatch. simpl. rewrite orb_false_r. intros Hm. destruct (Subject.IsLiteral pat) eqn:Hl; [|done].
  rewrite orb_true_iff. right. apply bool_decide_eq_true. by apply (SubjectTheorems.Match_prefilters subj (m_subject m) pat Hp).
Qed.

(** What a listing asks for, in its order. *)
Definition in_listing (q : ListQuery) (matcher : option Subject.Set_) (m : message) : bool :=
  on_stream (lq_Stream q) m && fromClause q m && selected matcher m.

Definition listing (q : ListQuery) (d : db) : list message :=
  match compile (lq_Subject q) with
  | Ok (matcher, _) => orderBy (desc q) (where_ (in_listing q matcher) (messages d))
  | Err _ => []
  end.

(** Not past the sequence number the scan reached. *)
Definition reached (q : ListQuery) (seq : Z) (m : message) : bool := if desc q then seq <=? m_seq m else m_seq m <=? seq.

Lemma stream_seqs s p (t : list message) :
  NoDup (map mkey t) -> (forall m, m ∈ t -> p m = true -> m_stream m = s) -> NoDup (map m_seq (where_ p t)).
Proof.
  intros Hnd Hs. apply (NoDup_fmap_1 (fun q => (s, q))).
  assert (Heq : (fun q => (s, q)) <$> map m_seq (where_ p t) = map mkey (where_ p t)); [|rewrite Heq; by apply key_where].
  etrans; [apply (map_map m_seq (fun q => (s, q)))|]. apply map_ext_in. intros m Hm%list_elem_of_In.
  apply elem_of_where in Hm as [Hp Hm]. unfold mkey. by rewrite (Hs m Hm Hp).
Qed.

Lemma page_of_rows q lim budget matcher found last why wanted rows :
  0 < lim -> 0 < budget -> StronglySorted Z.lt (map (seqkey (desc q)) rows) -> where_ (selected matcher) rows = wanted ->
  scan (selected matcher) lim budget 0 [] None rows = (found, last, why) ->
  match why with
  | BoundReached => Z.of_nat (length found) < lim /\ found = where_ (reached q (default 0 (m_seq <$> last))) wanted
  | _ => found = limit lim wanted
  end.
Proof.
  intros Hlim Hbud Hs <- Hscan. pose proof (scan_spec (selected matcher) lim budget 0 [] None rows ltac:(lia)) as Hsp.
  pose proof (scan_short (selected matcher) lim budget 0 [] None rows Hlim) as Hshort. rewrite Hscan in Hsp, Hshort.
  destruct Hsp as (pre & post & -> & -> & -> & Hst). simpl. rewrite !where_app. unfold limit. rewrite (proj2 (Z.ltb_ge lim 0)) by lia. destruct why.
  - destruct Hst as [-> _]. simpl. rewrite app_nil_r, take_ge; [done|]. specialize (Hshort ltac:(done)). simpl in Hshort. lia.
  - destruct Hst as [_ Hlen]. simpl in Hlen. rewrite take_app_length'; [done|lia].
  - split; [by apply Hshort|]. destruct (list.last pre) as [x|] eqn:Hl.
    2: { apply last_None in Hl as ->. simpl in Hst. lia. }
    apply last_Some in Hl as [pre0 ->]. unfold or_last. rewrite last_snoc. simpl.
    assert (Hr : forall y, reached q (m_seq x) y = (seqkey (desc q) y <=? seqkey (desc q) x)).
    { intros y. unfold reached, seqkey. destruct (desc q); lia. }
    rewrite !map_app in Hs. simpl in Hs. apply StronglySorted_app in Hs as (Hlt & Hlow & _).
    apply StronglySorted_app in Hlow as (Hlow & _ & _). rewrite (where_all _ (where_ _ (pre0 ++ [x]))), (where_nil _ (where_ _ post)), app_nil_r; [done| |].
    + intros y [_ Hy]%elem_of_where. rewrite Hr. apply Z.leb_gt, Hlt; [|by apply in_mapped]. apply elem_of_app. right. left.
    + intros y [_ Hy]%elem_of_where. rewrite Hr. apply Z.leb_le. apply elem_of_app in Hy as [Hy| ->%list_elem_of_singleton]; [|lia].
      assert (seqkey (desc q) y < seqkey (desc q) x); [|lia]. apply Hlow; [by apply in_mapped|left].
Qed.

(** A listing that says it is complete is exactly the first messages of what was
    asked for, as many as its limit; one that says it is not holds every message
    asked for up to the sequence number it reports as scanned, so that resuming
    behind it loses nothing.  Serving a literal subject from the index changes
    neither. *)
Lemma list_page `{Ids} (peekMaxLimit peekScanLimit : Z) (q : ListQuery) (w : world) (page : Page) :
  world_ok w -> 0 < list_limit peekMaxLimit q -> 0 < peekScanLimit ->
  ListMessages peekMaxLimit peekScanLimit q (w_db w) = Ok page ->
  pg_Limit page = list_limit peekMaxLimit q /\
  pg_Messages page = map (bodyCol (lq_IncludeBody q))
    (if pg_Complete page then limit (pg_Limit page) (listing q (w_db w))
     else where_ (reached q (pg_ScannedToSeq page)) (listing q (w_db w))) /\
  (pg_Complete page = false -> Z.of_nat (length (pg_Messages page)) < pg_Limit page).
Proof.
  intros Hok Hlim Hbud. unfold ListMessages, listing. destruct (ValidateExistingStreamName _); [|done]. simpl.
  destruct (compile (lq_Subject q)) as [[matcher literal]|e] eqn:Hc; [|done]. simpl.
  set (rows := orderBy _ _). destruct (scan _ _ _ _ _ _ rows) as [[found last] why] eqn:Hscan.
  pose proof (inv_msg_key _ _ _ _ (inv_messages _ _ Hok)) as Hkey.
  assert (Hnd : NoDup (map m_seq (where_ (fun m => on_stream (lq_Stream q) m && fromClause q m && literalClause literal m) (messages (w_db w))))).
  { apply (stream_seqs (lq_Stream q)); [done|]. intros m _. unfold on_stream. bool_prop. tauto. }
  assert (Hw : where_ (selected matcher) rows = orderBy (desc q) (where_ (in_listing q matcher) (messages (w_db w)))).
  { unfold rows. rewrite where_orderBy by done. f_equal. rewrite <-where_where. apply where_ext. intros m _. unfold in_listing.
    destruct (selected matcher m) eqn:Hsel; [|by rewrite !andb_false_r]. rewrite (compile_literal _ _ _ m Hc Hsel). by rewrite andb_true_r. }
  pose proof (page_of_rows q _ _ matcher found last why _ rows Hlim Hbud (orderBy_sorted _ _ Hnd) Hw Hscan) as Hp.
  destruct why; intros [= <-]; simpl; [by subst found|by subst found|]. destruct Hp as [Hlt Hp].
  destruct (_ <=? _) eqn:Hle; bool_prop; [lia|]. simpl. rewrite length_map. by subst found.
Qed.

(** ** Facts: the pending set *)

Lemma collect_in {A} (l : list (result A)) items a : collect l = Ok items -> a ∈ items -> Ok a ∈ l.
Proof.
  revert items. induction l as [|r l IH]; intros items; simpl; [by intros [= <-] ?%elem_of_nil|].
  destruct r as [b|e]; [|done]. simpl. destruct (collect l) as [rest|e] eqn:Hc; [|done]. simpl. intros [= <-] [-> |Ha]%elem_of_cons.
  - left.
  - right. by apply (IH rest).
Qed.

(** Every listed item is a pending row of the consumer, read with its state. *)
Lemma listed_row s n q d page it :
  PendingList s n q d = Ok page -> it ∈ pl_Items page ->
  exists r, r ∈ deliveries d /\ held_by s n r = true /\ pending_item s n d r = Some (Ok it).
Proof.
  unfold PendingList. destruct (_ <? 0); [done|]. destruct (stateFilter _) as [f|e]; [|done]. simpl.
  destruct (collect _) as [items|e] eqn:Hc; [|done]. simpl. intros [= <-] Hit. simpl in Hit.
  apply (collect_in _ _ _ Hc) in Hit. apply list_elem_of_omap in Hit as (r & Hr & Hitem). exists r.
  apply elem_of_limit, elem_of_order_by, elem_of_where in Hr as [Hk Hr]. bool_prop. tauto.
Qed.

Lemma to_int32_id v : 0 <= v <= max_int32 -> to_int32 v = v.
Proof. intros Hv. unfold to_int32, max_int32 in *. rewrite Z.mod_small; lia. Qed.

(** The ack token a pending listing derives for an INFLIGHT row parses, and an
    ack with it settles exactly that delivery: reading the pending set gives the
    same authority the fetch answer gave. *)
Lemma listed_token_acks `{Ids} `{!FreshIds} (env : StoreSettle.SettleEnv) (s n : string) (q : PendingQuery) (now : Z) (w : world)
    (page : PendingPage) (it : PendingItem) (txt : string) :
  world_ok w -> PendingList s n q (w_db w) = Ok page -> it ∈ pl_Items page -> pi_AckToken it = Some txt ->
  Subject.ValidateStreamName s = Ok tt -> Subject.ValidateConsumerName n = Ok tt ->
  pi_Seq it <= max_int64 -> pi_Attempts it <= max_int32 ->
  exists tok, Token.ParseToken txt = Ok tok /\ pi_State it = "inflight" /\
    wp (StoreSettle.SettleCmd env [StoreSettle.ack_item tok] now)
       (fun '(res, _) w' => world_ok w' /\ map StoreSettle.outcome (StoreSettle.Results res) = [(tok, Settle.ItemStatusOK)] /\
          deliveries (w_db w') = delete_where (has_key dkey (s, n, pi_Seq it)) (deliveries (w_db w)))
       (fun _ _ => False) w.
Proof.
  intros Hok Hpage Hit Htok Hs Hn Hseq Hatt. destruct (listed_row _ _ _ _ _ _ Hpage Hit) as (r & Hr & Hheld & Hitem).
  apply held_by_true in Hheld as [Hrs Hrn]. unfold pending_item in Hitem. apply bind_Some in Hitem as (c & Hc & Hitem).
  unfold scan_int32 in Hitem. destruct (_ && _) in Hitem; [|done].
  destruct ((- 2 ^ 31 <=? d_generation r) && (d_generation r <? 2 ^ 31)) eqn:Hg; [|done]. bool_prop. simpl in Hitem.
  pose proof (inv_del_row _ _ _ (inv_deliveries _ _ Hok) r Hr) as Hrow.
  pose proof (inv_del_msg _ _ _ (inv_deliveries _ _ Hok) r Hr) as (m & Hm & Hmin)%mapped_in.
  destruct (inv_msg_seq _ _ _ _ (inv_messages _ _ Hok) m Hmin) as (k & _ & Hpos).
  destruct (inv_del_con _ _ _ (inv_deliveries _ _ Hok) r Hr) as (c' & Hc' & _ & Hgen & _).
  destruct (inv_con _ _ (inv_consumers _ _ Hok) c' Hc') as (Hgpos & _).
  assert (Hsq : d_seq r = m_seq m) by (unfold mkey in Hm; congruence).
  destruct (d_state r =? 1) eqn:Hst; bool_prop; simplify_eq/=.
  destruct Hrow as [[? _]|(_ & Hapos & _)]; [lia|].
  set (tok := Token.MkToken (d_stream r) (d_consumer r) (d_seq r) (d_attempts r) (d_generation r)).
  exists tok. unfold queueToken. rewrite to_int32_id by (unfold max_int32 in *; lia). fold tok. split_and!; [|done|].
  - apply Token.print_parses. unfold tok, Token.token_wf. simpl. unfold max_int32 in *. split_and!; try done; lia.
  - eapply wp_mono; [apply (StoreSettle.ack_live_wp env tok now w r); [done|done|]| |done].
    + apply StoreSettle.fence_true. done.
    + intros [res evs] w' (Hok' & _ & Hres & Hd). done.
Qed.

(** *** The theorems at work *)

Import Samples.

Definition first_page : ListQuery := MkListQuery "orders" 0 "orders.*" 10 "" false.

Definition all_pending : PendingQuery := MkPendingQuery 10 0 0 "".

(** Both messages in flight at billing; the lease of the first is then extended. *)
Definition second : PublishReq.PublishReq := PublishReq.MkPublishReq "orders.paid" [] "{}" "" "".
Definition extended : world :=
  fst (StoreSettle.SettleCmd StoreSettle.sample_env [StoreSettle.MkSettleItem (StoreSettle.token "billing" 1 1) Settle.VerbExtend None ""] 20000000000
    (fst (Fetch.fetchCmd "orders" "billing" 10 4096 DefaultConsumerLimits 8000000
      (fst (Publish.publishWriteCmd DefaultLimits "orders" second 7500000 Publish.after_publish))))).

Definition pages_of_one (after : Z) : option (list Z * option Z) :=
  match PendingList "orders" "billing" (MkPendingQuery 1 after 0 "") (w_db extended) with
  | Ok page => Some (map pi_Seq (pl_Items page), pl_NextAfter page)
  | Err _ => None
  end.

(** The pending listing orders by deadline but resumes by sequence number.  With
    the first delivery's lease extended past the second's, the first page lists
    delivery 2 and says to resume after 2; the next page is empty and the last:
    delivery 1, still in flight, is on no page. *)
Lemma pending_paging_skips :
  map d_seq (where_ (fun r => d_state r =? 1) (deliveries (w_db extended))) = [1; 2] /\
  pages_of_one 0 = Some ([2], Some 2) /\ pages_of_one 2 = Some ([], None).
Proof. vm_compute. by split_and!. Qed.

End Reads.
