(* ===== verification/Writer.v ===== *)
(** * The group-commit engine: internal/store/writer.go, solo.go, commands.go

    One goroutine takes commands from a bounded channel, assembles them into
    batches and commits each batch in one transaction, every command behind its
    own savepoint.  The engine is generic in the commands; what SQLite and the
    clock answer is an argument of each step. *)

From S2P Require Export Db.

Module Writer.

(** [Config] without its durability mode. *)
Record Config : Set := MkConfig {
  CommitWindow : Z;
  CommitMaxBatch : Z;
  CommitMaxBytes : Z;
  QueueDepth : Z;
  FatalDrain : Z;
}.

Definition defaultCommitMaxBatch : Z := 256.
Definition defaultCommitMaxBytes : Z := Z.shiftl 8 20.
Definition defaultQueueDepth : Z := 2048.
Definition defaultFatalDrain : Z := 2 * Second.

(** The budgets are filled in even when the window is refused. *)
Definition fillDefaults (c : Config) : Config * result unit :=
  let or v d := if v <=? 0 then d else v in
  (MkConfig (CommitWindow c) (or (CommitMaxBatch c) defaultCommitMaxBatch) (or (CommitMaxBytes c) defaultCommitMaxBytes)
     (or (QueueDepth c) defaultQueueDepth) (or (FatalDrain c) defaultFatalDrain),
   if CommitWindow c <? 0 then Err (E ErrBadRequest "commit window is negative") else Ok tt).

Definition eventBufferBatches : nat := 64.

Record FatalError : Set := MkFatal {
  fe_Op : string;
  fe_Err : error;
  fe_At : Z;
  fe_Batch : Z;
}.

(** What a caller of [Do] sees when it is not a result: the command's own error,
    [ErrCommitUnknown] with the failed operation, [ErrWriterLatched],
    [ErrWriterClosing], or the error of its context. *)
Inductive refusal : Set :=
| Rejected (e : error)
| CommitUnknown (op : string) (cause : error)
| WriterLatched (fe : FatalError)
| WriterClosing
| CtxDone.

(** What SQLite answers to the statements of one batch: [None] is success.  A failed
    COMMIT may still have reached the disk. *)
Record driver : Set := MkDriver {
  dr_begin : option error;
  dr_savepoint : nat -> option error;
  dr_release : nat -> option error;
  dr_rollback_to : nat -> option error;
  dr_commit : option (error * bool);
}.

Definition sound_driver : driver := MkDriver None (fun _ => None) (fun _ => None) (fun _ => None) None.

Section Engine.
Context {R : Type}.

(** A command: its transaction body, its byte estimate and, for a solo command, the
    body that runs on the raw handle. *)
Record Cmd : Type := MkCmd {
  cmd_Kind : string;
  cmd_Apply : Z -> tx (R * list event);
  cmd_Bytes : Z;
  cmd_Solo : option (Z -> tx (R * list event));
}.

Definition isSolo (c : Cmd) : bool := match cmd_Solo c with Some _ => true | None => false end.

Record request : Type := MkRequest { rq_id : nat; rq_cmd : Cmd }.

Definition answer : Type := R + refusal.

(** [g_sending] are the callers of [Do] past its guards, [g_queue] the channel,
    [g_replies] the closed [done] channels with what they answer, oldest first. *)
Record engine : Type := MkEngine {
  g_world : world;
  g_sending : list request;
  g_queue : list request;
  g_pending : option request;
  g_latched : option FatalError;
  g_rw_open : bool;
  g_lastNow : Z;
  g_closing : bool;
  g_exited : bool;
  g_replies : list (nat * answer);
  g_pump : list (list event);
}.

Definition set_world (w : world) (g : engine) : engine :=
  MkEngine w (g_sending g) (g_queue g) (g_pending g) (g_latched g) (g_rw_open g) (g_lastNow g) (g_closing g) (g_exited g) (g_replies g) (g_pump g).
Definition set_replies (l : list (nat * answer)) (g : engine) : engine :=
  MkEngine (g_world g) (g_sending g) (g_queue g) (g_pending g) (g_latched g) (g_rw_open g) (g_lastNow g) (g_closing g) (g_exited g) l (g_pump g).
Definition set_waiting (q : list request) (p : option request) (g : engine) : engine :=
  MkEngine (g_world g) (g_sending g) q p (g_latched g) (g_rw_open g) (g_lastNow g) (g_closing g) (g_exited g) (g_replies g) (g_pump g).
Definition set_sending (l : list request) (g : engine) : engine :=
  MkEngine (g_world g) l (g_queue g) (g_pending g) (g_latched g) (g_rw_open g) (g_lastNow g) (g_closing g) (g_exited g) (g_replies g) (g_pump g).
Definition set_lastNow (n : Z) (g : engine) : engine :=
  MkEngine (g_world g) (g_sending g) (g_queue g) (g_pending g) (g_latched g) (g_rw_open g) n (g_closing g) (g_exited g) (g_replies g) (g_pump g).
Definition set_flags (closing exited : bool) (g : engine) : engine :=
  MkEngine (g_world g) (g_sending g) (g_queue g) (g_pending g) (g_latched g) (g_rw_open g) (g_lastNow g) closing exited (g_replies g) (g_pump g).
Definition set_pump (l : list (list event)) (g : engine) : engine :=
  MkEngine (g_world g) (g_sending g) (g_queue g) (g_pending g) (g_latched g) (g_rw_open g) (g_lastNow g) (g_closing g) (g_exited g) (g_replies g) l.

(** The first fault wins; the read-write pool is closed after it. *)
Definition latch (fe : FatalError) (g : engine) : engine :=
  MkEngine (g_world g) (g_sending g) (g_queue g) (g_pending g) (match g_latched g with Some fe0 => Some fe0 | None => Some fe end)
    false (g_lastNow g) (g_closing g) (g_exited g) (g_replies g) (g_pump g).

(** [r.err = ...; close(r.done)]: closing a closed channel panics, and nothing
    recovers a panic of the writer goroutine: [None]. *)
Definition close_done (id : nat) (a : answer) (g : engine) : option engine :=
  if bool_decide (id ∈ map fst (g_replies g)) then None else Some (set_replies (g_replies g ++ [(id, a)]) g).

Fixpoint failAll (batch : list request) (why : refusal) (g : engine) : option engine :=
  match batch with
  | [] => Some g
  | r :: batch => g' ← close_done (rq_id r) (inr why) g; failAll batch why g'
  end.

(** The batch timestamp never goes back. *)
Definition batchNow (clk : Z) (g : engine) : Z * engine :=
  let nano := Z.max clk (g_lastNow g) in (nano, set_lastNow nano g).

Definition doomed (batch : list request) (op : string) (cause : error) (clk : Z) (g : engine) : option engine :=
  failAll batch (CommitUnknown op cause) (latch (MkFatal op cause clk (Z.of_nat (length batch))) g).

(** The loop over the batch, inside the transaction: [ap_world] is the transaction's
    view, [ap_done] the results not yet replied. *)
Record applied : Type := MkApplied {
  ap_world : world;
  ap_done : list (nat * R);
  ap_events : list event;
}.

Inductive progress : Type :=
| Through (a : applied) (g : engine)
| Broken (op : string) (cause : error) (m : mem) (g : engine)
| Panicked.

Fixpoint apply_loop (dr : driver) (now : Z) (i : nat) (batch : list request) (a : applied) (g : engine) : progress :=
  match batch with
  | [] => Through a g
  | r :: batch =>
      let broken op e := Broken op e (w_mem (ap_world a)) g in
      match dr_savepoint dr i with
      | Some e => broken "savepoint" e
      | None =>
          match cmd_Apply (rq_cmd r) now (ap_world a) with
          | (w', Ok (res, evs)) =>
              match dr_release dr i with
              | Some e => Broken "release" e (w_mem w') g
              | None => apply_loop dr now (S i) batch (MkApplied w' (ap_done a ++ [(rq_id r, res)]) (ap_events a ++ evs)) g
              end
          | (w', Err e) =>
              if negb (IsCmdError e) then Broken "apply" e (w_mem w') g
              else match dr_rollback_to dr i with
                   | Some e => Broken "rollback_to" e (w_mem w') g
                   | None =>
                       match dr_release dr i with
                       | Some e => Broken "release" e (w_mem w') g
                       | None =>
                           match close_done (rq_id r) (inr (Rejected e)) g with
                           | None => Panicked
                           | Some g' =>
                               apply_loop dr now (S i) batch
                                 (MkApplied (World (w_db (ap_world a)) (w_mem w')) (ap_done a) (ap_events a)) g'
                           end
                       end
                   end
          end
      end
  end.

Fixpoint reply_all (l : list (nat * R)) (g : engine) : option engine :=
  match l with
  | [] => Some g
  | (id, res) :: l => g' ← close_done id (inl res) g; reply_all l g'
  end.

(** A full fan-out queue drops the batch's events. *)
Definition fan_out (evs : list event) (g : engine) : engine :=
  if (length evs =? 0)%nat || (eventBufferBatches <=? length (g_pump g))%nat then g else set_pump (g_pump g ++ [evs]) g.

Definition commitBatch (dr : driver) (clk : Z) (batch : list request) (g : engine) : option engine :=
  match g_latched g with
  | Some fe => failAll batch (WriterLatched fe) g
  | None =>
      let '(now, g) := batchNow clk g in
      match dr_begin dr with
      | Some e => doomed batch "begin" e clk g
      | None =>
          match apply_loop dr now 0 batch (MkApplied (g_world g) [] []) g with
          | Panicked => None
          | Broken op e m g' => doomed batch op e clk (set_world (World (w_db (g_world g)) m) g')
          | Through a g' =>
              match dr_commit dr with
              | Some (e, landed) =>
                  doomed batch "commit" e clk
                    (set_world (if landed then ap_world a else World (w_db (g_world g)) (w_mem (ap_world a))) g')
              | None =>
                  g'' ← reply_all (ap_done a) (set_world (ap_world a) g');
                  Some (fan_out (ap_events a) g'')
              end
          end
      end
  end.

(** A solo command runs on the raw handle, outside every transaction; its failure
    goes to its caller and latches nothing.  A closed pool refuses. *)
Definition commitSolo (clk : Z) (r : request) (g : engine) : option engine :=
  match cmd_Solo (rq_cmd r) with
  | None => close_done (rq_id r) (inr (Rejected (Plain "does not implement Solo"))) g
  | Some body =>
      let '(now, g) := batchNow clk g in
      let '(w', res) := if g_rw_open g then body now (g_world g) else (g_world g, Err (Plain "sql: database is closed")) in
      let g := set_world w' g in
      match res with
      | Err e => close_done (rq_id r) (inr (Rejected e)) g
      | Ok (v, evs) => g' ← close_done (rq_id r) (inl v) g; Some (fan_out evs g')
      end
  end.

(** [takeBatch]: [ready] are the commands received before the window closes. *)
Fixpoint fill (cfg : Config) (batch : list request) (bytes : Z) (ready : list request)
  : list request * option request * list request :=
  match ready with
  | [] => (batch, None, [])
  | r :: rest =>
      if CommitMaxBatch cfg <=? Z.of_nat (length batch) then (batch, None, ready)
      else if isSolo (rq_cmd r) || (CommitMaxBytes cfg <? bytes + cmd_Bytes (rq_cmd r)) then (batch, Some r, rest)
      else fill cfg (batch ++ [r]) (bytes + cmd_Bytes (rq_cmd r)) rest
  end.

Definition takeBatch (cfg : Config) (first : request) (ready : list request)
  : list request * option request * list request :=
  fill cfg [first] (cmd_Bytes (rq_cmd first)) ready.

(** What one turn of the loop meets: the driver, the clock, and how much of the
    queue is received before the commit window closes. *)
Record luck : Set := MkLuck { lk_driver : driver; lk_clock : Z; lk_ready : nat }.

Definition assemble (cfg : Config) (l : luck) (first : request) (g : engine) : option engine :=
  let '(batch, next, rest) := takeBatch cfg first (take (lk_ready l) (g_queue g)) in
  commitBatch (lk_driver l) (lk_clock l) batch (set_waiting (rest ++ drop (lk_ready l) (g_queue g)) next g).

(** One turn of [run].  With nothing to take, a stopped loop returns and an idle one
    waits. *)
Definition turn (cfg : Config) (l : luck) (g : engine) : option engine :=
  match g_pending g with
  | Some r =>
      if isSolo (rq_cmd r) then commitSolo (lk_clock l) r (set_waiting (g_queue g) None g)
      else assemble cfg l r (set_waiting (g_queue g) None g)
  | None =>
      match g_queue g with
      | [] => Some (if g_closing g then set_flags true true g else g)
      | r :: q =>
          if isSolo (rq_cmd r) then commitSolo (lk_clock l) r (set_waiting q None g)
          else assemble cfg l r (set_waiting q None g)
      end
  end.

(** [Do] up to the send: the guards, in order. *)
Definition Do_guard (ctxDone : bool) (g : engine) : option refusal :=
  match g_latched g with
  | Some fe => Some (WriterLatched fe)
  | None => if g_closing g then Some WriterClosing else if ctxDone then Some CtxDone else None
  end.

(** The engine before its first command. *)
Definition start (w : world) : engine := MkEngine w [] [] None None true 0 false false [] [].

(** The interleavings of callers and the loop.  The guards of [Do] and its send are
    two steps: the writer may be closed, latched or gone between them.  A caller
    leaves before the send when its context ends or the loop has returned. *)
Inductive step (cfg : Config) : engine -> engine -> Prop :=
| step_enter r ctxDone g :
    Do_guard ctxDone g = None ->
    rq_id r ∉ map rq_id (g_sending g) ++ map rq_id (match g_pending g with Some p => [p] | None => [] end ++ g_queue g) ++ map fst (g_replies g) ->
    step cfg g (set_sending (g_sending g ++ [r]) g)
| step_send r l l' g :
    g_sending g = l ++ r :: l' -> Z.of_nat (length (g_queue g)) < QueueDepth cfg ->
    step cfg g (set_sending (l ++ l') (set_waiting (g_queue g ++ [r]) (g_pending g) g))
| step_leave r l l' g :
    g_sending g = l ++ r :: l' -> step cfg g (set_sending (l ++ l') g)
| step_turn luck g g' :
    g_exited g = false -> turn cfg luck g = Some g' -> step cfg g g'
| step_close g : step cfg g (set_flags true (g_exited g) g).

(** [run], for at most [n] turns; [lucks] is what each turn meets. *)
Fixpoint run (cfg : Config) (lucks : nat -> luck) (n : nat) (g : engine) : option engine :=
  if g_exited g then Some g
  else match n with
       | O => Some g
       | S n => g' ← turn cfg (lucks n) g; run cfg lucks n g'
       end.

(** [runSolo]: the fallback without an engine, one command in one transaction. *)
Definition runSolo (dr : driver) (now : Z) (c : Cmd) (w : world) : world * result (R * list event) :=
  let undone (w' : world) := World (w_db w) (w_mem w') in
  match dr_begin dr with
  | Some e => (w, Err e)
  | None =>
      match dr_savepoint dr 0 with
      | Some e => (w, Err e)
      | None =>
          match cmd_Apply c now w with
          | (w', Ok out) =>
              match dr_release dr 0 with
              | Some e => (undone w', Err e)
              | None => match dr_commit dr with
                        | Some (e, landed) => (if landed then w' else undone w', Err e)
                        | None => (w', Ok out)
                        end
              end
          | (w', Err e) =>
              if negb (IsCmdError (maybeCmdErr e)) then (undone w', Err e)
              else match dr_rollback_to dr 0 with
                   | Some e' => (undone w', Err e')
                   | None => match dr_release dr 0 with
                             | Some e' => (undone w', Err e')
                             | None => match dr_commit dr with
                                       | Some (e', _) => (undone w', Err e')
                                       | None => (undone w', Err (maybeCmdErr e))
                                       end
                             end
                   end
          end
      end
  end.

End Engine.
#[global] Arguments Cmd : clear implicits.
#[global] Arguments request : clear implicits.
#[global] Arguments engine : clear implicits.
#[global] Arguments answer : clear implicits.

(** ** Facts *)

Section Facts.
Context {R : Type}.
Implicit Types (batch : list (request R)) (g : engine R).
#[local] Arguments IsCmdError : simpl never.
Local Abbreviation outcome := (result (R * list event)).

(** The reference: the commands one after the other, each behind its savepoint. *)
Fixpoint one_by_one (now : Z) (batch : list (request R)) (w : world) : world * list (nat * outcome) :=
  match batch with
  | [] => (w, [])
  | r :: batch =>
      let '(w1, out) := savepoint (cmd_Apply (rq_cmd r) now) w in
      let '(w2, outs) := one_by_one now batch w1 in
      (w2, (rq_id r, out) :: outs)
  end.

Definition succeeded (x : nat * outcome) : option (nat * R) := match x.2 with Ok (res, _) => Some (x.1, res) | Err _ => None end.
Definition rejected (x : nat * outcome) : option (nat * answer R) := match x.2 with Ok _ => None | Err e => Some (x.1, inr (Rejected e)) end.
Definition emitted (x : nat * outcome) : list event := match x.2 with Ok (_, evs) => evs | Err _ => [] end.
Definition answered (x : nat * outcome) : nat * answer R :=
  (x.1, match x.2 with Ok (res, _) => inl res | Err e => inr (Rejected e) end).
Definition infra (x : nat * outcome) : bool := match x.2 with Ok _ => false | Err e => negb (IsCmdError e) end.

Definition ids (l : list (request R)) : list nat := map rq_id l.

Lemma one_by_one_ids now batch w : map fst (one_by_one now batch w).2 = ids batch.
Proof.
  revert w. induction batch as [|r batch IH]; intros w; simpl; [done|].
  destruct (savepoint _ w) as [w1 out]. specialize (IH w1). destruct (one_by_one now batch w1). simpl in *. congruence.
Qed.

Lemma one_by_one_cons now r batch w :
  one_by_one now (r :: batch) w =
    let '(w1, out) := savepoint (cmd_Apply (rq_cmd r) now) w in
    ((one_by_one now batch w1).1, (rq_id r, out) :: (one_by_one now batch w1).2).
Proof. simpl. destruct (savepoint _ w) as [w1 out]. by destruct (one_by_one now batch w1). Qed.

(** *** Closing the done channels *)

Lemma close_fresh id a g : id ∉ map fst (g_replies g) -> close_done id a g = Some (set_replies (g_replies g ++ [(id, a)]) g).
Proof. intros Hn. unfold close_done. by rewrite bool_decide_false. Qed.

(** A list of answers to channels that are open and distinct. *)
Fixpoint close_all (l : list (nat * answer R)) (g : engine R) : option (engine R) :=
  match l with
  | [] => Some g
  | (id, a) :: l => g' ← close_done id a g; close_all l g'
  end.

Lemma close_all_fresh l g :
  NoDup (map fst (g_replies g ++ l)) -> close_all l g = Some (set_replies (g_replies g ++ l) g).
Proof.
  revert g. induction l as [|[id a] l IH]; intros g Hnd; simpl.
  - rewrite app_nil_r. by destruct g.
  - rewrite close_fresh; simpl.
    + rewrite IH by (simpl; by rewrite <-app_assoc). simpl. by rewrite <-app_assoc.
    + rewrite map_app in Hnd. simpl in Hnd. apply NoDup_app in Hnd as (_ & Hd & _). intros Hin. apply (Hd id Hin). left.
Qed.

Lemma close_all_stale l g id : id ∈ map fst (g_replies g) -> id ∈ map fst l -> close_all l g = None.
Proof.
  revert g. induction l as [|[id' a] l IH]; intros g Hg Hl; simpl in *; [by apply elem_of_nil in Hl|].
  unfold close_done. case_bool_decide as Hc; [done|]. simpl. apply IH.
  - simpl. rewrite map_app. apply elem_of_app. by left.
  - apply elem_of_cons in Hl as [-> |]; done.
Qed.

Lemma failAll_close batch why g : failAll batch why g = close_all (map (fun r => (rq_id r, inr why)) batch) g.
Proof. revert g. induction batch as [|r batch IH]; intros g; simpl; [done|]. by destruct (close_done _ _ g); simpl. Qed.

Lemma reply_all_close l g : reply_all l g = close_all (map (fun x => (x.1, inl x.2)) l) g.
Proof. revert g. induction l as [|[id res] l IH]; intros g; simpl; [done|]. by destruct (close_done _ _ g); simpl. Qed.

Lemma failAll_ids batch (why : refusal) : map fst (map (fun r : request R => (rq_id r, inr (A := R) why)) batch) = ids batch.
Proof. by rewrite map_map. Qed.

Definition fresh_for batch g : Prop := NoDup (map fst (g_replies g) ++ ids batch).

(** *** The loop of a batch *)

(** How far the loop got against the reference outcomes [outs] of the batch. *)
Definition loop_spec (w' : world) (outs : list (nat * outcome)) (a : applied) g (p : progress) : Prop :=
  match p with
  | Through a' g' =>
      a' = MkApplied w' (ap_done a ++ omap succeeded outs) (ap_events a ++ concat (map emitted outs)) /\
      g' = set_replies (g_replies g ++ omap rejected outs) g /\ Forall (fun x => infra x = false) outs
  | Broken op e m g' =>
      exists pre x post, outs = pre ++ x :: post /\ Forall (fun x => infra x = false) pre /\
        (op = "apply" -> infra x = true) /\ g' = set_replies (g_replies g ++ omap rejected pre) g
  | Panicked => False
  end.

Lemma loop_here w' x outs a g op e m :
  (op = "apply" -> infra x = true) -> loop_spec w' (x :: outs) a g (Broken op e m g).
Proof.
  intros Hop. exists [], x, outs. split_and!; [done|constructor|done|]. simpl. rewrite app_nil_r. by destruct g.
Qed.

Lemma loop_success w' id res evs outs w1 a g p :
  loop_spec w' outs (MkApplied w1 (ap_done a ++ [(id, res)]) (ap_events a ++ evs)) g p ->
  loop_spec w' ((id, Ok (res, evs)) :: outs) a g p.
Proof.
  destruct p as [a' g'|op e m g'|]; simpl; [|intros (pre & x & post & -> & Hpre & Hop & ->)|done].
  - intros (-> & -> & Hall). rewrite <-!app_assoc. split_and!; [done|done|by constructor].
  - exists ((id, Ok (res, evs)) :: pre), x, post. split_and!; [done|by constructor|done|done].
Qed.

Lemma loop_rejected w' id e outs w1 a g p :
  IsCmdError e = true ->
  loop_spec w' outs (MkApplied w1 (ap_done a) (ap_events a)) (set_replies (g_replies g ++ [(id, inr (Rejected e))]) g) p ->
  loop_spec w' ((id, Err e) :: outs) a g p.
Proof.
  intros He. destruct p as [a' g'|op e' m g'|]; simpl; [|intros (pre & x & post & -> & Hpre & Hop & ->)|done].
  - intros (-> & -> & Hall). rewrite <-app_assoc. split_and!; [done|done|constructor; [|done]]. unfold infra. simpl. by rewrite He.
  - exists ((id, Err e) :: pre), x, post. split_and!; [done|constructor; [unfold infra; simpl; by rewrite He|done]|done|].
    simpl. by rewrite <-app_assoc.
Qed.

#[local] Arguments loop_spec : simpl never.

Lemma apply_loop_spec dr now i batch a g :
  fresh_for batch g ->
  loop_spec (one_by_one now batch (ap_world a)).1 (one_by_one now batch (ap_world a)).2 a g (apply_loop dr now i batch a g).
Proof.
  revert i a g. induction batch as [|r batch IH]; intros i a g Hf.
  { simpl. split_and!; [destruct a; simpl; by rewrite !app_nil_r|rewrite app_nil_r; by destruct g|constructor]. }
  rewrite one_by_one_cons. unfold savepoint. simpl apply_loop.
  destruct (dr_savepoint dr i); [destruct (cmd_Apply _ _ _) as [? []]; by apply (loop_here _ _ _ _ _ _ _ _)|].
  unfold fresh_for in Hf. simpl in Hf. rewrite NoDup_app, NoDup_cons in Hf. destruct Hf as (Hg & Hd & Hr & Hb).
  destruct (cmd_Apply (rq_cmd r) now (ap_world a)) as [w' [[res evs]|e]] eqn:Hap; simpl.
  - destruct (dr_release dr i); [by apply (loop_here _ _ _ _ _ _ _ _)|]. apply (loop_success _ _ _ _ _ w'), IH. apply NoDup_app. split_and!; [done| |done].
    intros x Hx Hx'. apply (Hd x Hx). by right.
  - destruct (IsCmdError e) eqn:He; simpl;
      [|apply (loop_here _ _ _ _ _ _ _ _); intros _; unfold infra; simpl; by rewrite He].
    destruct (dr_rollback_to dr i); [by apply (loop_here _ _ _ _ _ _ _ _)|]. destruct (dr_release dr i); [by apply (loop_here _ _ _ _ _ _ _ _)|].
    rewrite close_fresh by (intros Hin; apply (Hd _ Hin); left). apply (loop_rejected _ _ _ _ (World (w_db (ap_world a)) (w_mem w'))), IH; [done|].
    unfold fresh_for. simpl. rewrite map_app, <-app_assoc. simpl. apply NoDup_app. rewrite NoDup_cons. by split_and!.
Qed.

(** With a driver that does not fail, the loop stops exactly at an infrastructure
    error. *)
Lemma apply_loop_sound now i batch a g :
  match apply_loop sound_driver now i batch a g with
  | Through _ _ => True
  | Broken op _ _ _ => op = "apply" /\ Exists (fun x => infra x = true) (one_by_one now batch (ap_world a)).2
  | Panicked => True
  end.
Proof.
  revert i a g. induction batch as [|r batch IH]; intros i a g; [done|]. rewrite one_by_one_cons. unfold savepoint. simpl.
  destruct (cmd_Apply (rq_cmd r) now (ap_world a)) as [w' [[res evs]|e]]; simpl.
  - match goal with |- context [apply_loop sound_driver now ?i' batch ?a' ?g'] => specialize (IH i' a' g') end.
    destruct (apply_loop _ _ _ _ _ _); try done. destruct IH as [-> IH]. split; [done|]. by apply Exists_cons_tl.
  - destruct (IsCmdError e) eqn:He; simpl; [|split; [done|]; apply Exists_cons_hd; unfold infra; simpl; by rewrite He].
    destruct (close_done _ _ g) as [g1|]; [|done].
    match goal with |- context [apply_loop sound_driver now ?i' batch ?a' ?g'] => specialize (IH i' a' g') end.
    destruct (apply_loop _ _ _ _ _ _); try done. destruct IH as [-> IH]. split; [done|]. by apply Exists_cons_tl.
Qed.

Lemma answers_split outs :
  Permutation (omap rejected outs ++ map (fun x => (x.1, inl x.2)) (omap succeeded outs)) (map answered outs).
Proof.
  induction outs as [|[id [[res evs]|e]] outs IH]; simpl; [done| |].
  - rewrite <-Permutation_middle. by constructor.
  - by constructor.
Qed.

Lemma answered_ids outs : map fst (map answered outs) = map fst outs.
Proof. by rewrite map_map. Qed.

(** The fan-out touches only the pump's queue. *)
Definition fanned (evs : list event) (l : list (list event)) : list (list event) :=
  if (length evs =? 0)%nat || (eventBufferBatches <=? length l)%nat then l else l ++ [evs].

Lemma fan_out_pump evs g : fan_out evs g = set_pump (fanned evs (g_pump g)) g.
Proof. unfold fan_out, fanned. destruct ((length evs =? 0)%nat || _); [by destruct g|done]. Qed.

(** What a batch or a solo command leaves alone. *)
Record engine_frame g g' : Prop := {
  ef_sending : g_sending g' = g_sending g;
  ef_queue : g_queue g' = g_queue g;
  ef_pending : g_pending g' = g_pending g;
  ef_closing : g_closing g' = g_closing g;
  ef_exited : g_exited g' = g_exited g;
  ef_lastNow : g_lastNow g <= g_lastNow g';
}.

(** A batch that commits: the reference run of its commands at one instant. *)
Record committed (clk : Z) batch g g' : Prop := {
  cm_now : g_lastNow g' = Z.max clk (g_lastNow g);
  cm_world : g_world g' = (one_by_one (g_lastNow g') batch (g_world g)).1;
  cm_replies : Permutation (g_replies g') (g_replies g ++ map answered (one_by_one (g_lastNow g') batch (g_world g)).2);
  cm_sound : Forall (fun x => infra x = false) (one_by_one (g_lastNow g') batch (g_world g)).2;
  cm_open : g_latched g' = g_latched g /\ g_rw_open g' = g_rw_open g;
  cm_pump : g_pump g' = fanned (concat (map emitted (one_by_one (g_lastNow g') batch (g_world g)).2)) (g_pump g);
}.

(** A batch that does not: every caller gets the one refusal, the engine is latched
    and its pool closed, and the database is as it was, unless the failed COMMIT had
    reached the disk. *)
Record refused (dr : driver) (clk : Z) batch g g' : Prop := {
  rf_replies : exists why, g_replies g' = g_replies g ++ map (fun r => (rq_id r, inr why)) batch;
  rf_latched : is_Some (g_latched g') /\ (g_latched g = None -> g_rw_open g' = false);
  rf_keep : is_Some (g_latched g) -> g_latched g' = g_latched g /\ g_rw_open g' = g_rw_open g /\ g_world g' = g_world g;
  rf_db : w_db (g_world g') = w_db (g_world g) \/
    exists e, dr_commit dr = Some (e, true) /\ g_latched g = None /\
      g_world g' = (one_by_one (Z.max clk (g_lastNow g)) batch (g_world g)).1;
}.

Lemma failAll_fresh batch why g :
  fresh_for batch g -> failAll batch why g = Some (set_replies (g_replies g ++ map (fun r => (rq_id r, inr why)) batch) g).
Proof. intros Hf. rewrite failAll_close. apply close_all_fresh. by rewrite map_app, failAll_ids. Qed.

Lemma doomed_fresh batch op cause clk g :
  fresh_for batch g ->
  doomed batch op cause clk g = Some (set_replies (g_replies g ++ map (fun r => (rq_id r, inr (CommitUnknown op cause))) batch)
    (latch (MkFatal op cause clk (Z.of_nat (length batch))) g)).
Proof. intros Hf. unfold doomed. by rewrite failAll_fresh. Qed.

(** Dooming a batch after one of its commands was rejected closes that command's
    channel again. *)
Lemma doomed_stale batch op cause clk g id :
  id ∈ map fst (g_replies g) -> id ∈ ids batch -> doomed batch op cause clk g = None.
Proof. intros Hg Hb. unfold doomed. rewrite failAll_close. apply (close_all_stale _ _ id); [done|]. by rewrite failAll_ids. Qed.

Lemma rejected_ids outs x : x ∈ omap rejected outs -> x.1 ∈ map fst outs.
Proof.
  intros ([id [[res evs]|e]] & Hin & Hx)%list_elem_of_omap; [done|]. injection Hx as <-. simpl.
  change id with (fst (id, Err (A := R * list event) e)). by apply list_elem_of_fmap_2.
Qed.

(** A doomed batch is answered only when none of its commands was answered before. *)
Lemma doomed_none_before batch op cause clk g g1 outs now g' :
  fresh_for batch g -> (forall x, x ∈ map fst outs -> x ∈ ids batch) ->
  g1 = set_replies (g_replies g ++ omap rejected outs) (set_lastNow now g) ->
  forall w, doomed batch op cause clk (set_world w g1) = Some g' ->
  g' = set_replies (g_replies g ++ map (fun r => (rq_id r, inr (CommitUnknown op cause))) batch)
         (latch (MkFatal op cause clk (Z.of_nat (length batch))) (set_world w (set_lastNow now g))).
Proof.
  intros Hf Hin -> w. destruct (omap rejected outs) as [|[id a] l] eqn:Hrej.
  - rewrite doomed_fresh by (unfold fresh_for; simpl; by rewrite app_nil_r). intros [= <-]. simpl. by rewrite app_nil_r.
  - rewrite (doomed_stale _ _ _ _ _ id); [done| |].
    + simpl. rewrite map_app. apply elem_of_app. right. left.
    + apply Hin. apply (rejected_ids outs (id, a)). rewrite Hrej. left.
Qed.

Lemma refused_doomed dr clk batch op cause fe now w g :
  g_latched g = None ->
  (w_db w = w_db (g_world g) \/
   exists e, dr_commit dr = Some (e, true) /\ w = (one_by_one (Z.max clk (g_lastNow g)) batch (g_world g)).1) ->
  refused dr clk batch g (set_replies (g_replies g ++ map (fun r => (rq_id r, inr (CommitUnknown op cause))) batch)
    (latch fe (set_world w (set_lastNow now g)))).
Proof.
  intros Hl Hw. split; simpl; rewrite ?Hl; [eauto|eauto|by intros [? [=]]|].
  destruct Hw as [Hw|(e & Hc & Hw)]; [by left|right; eauto].
Qed.

Lemma commitBatch_spec dr clk batch g g' :
  fresh_for batch g -> commitBatch dr clk batch g = Some g' ->
  engine_frame g g' /\ (committed clk batch g g' /\ g_latched g = None \/ refused dr clk batch g g').
Proof.
  intros Hf. unfold commitBatch. destruct (g_latched g) as [fe|] eqn:Hl.
  { rewrite failAll_fresh by done. intros [= <-]. split; [by split|]. right. split; simpl; rewrite ?Hl; [eauto|by eauto|done|by left]. }
  unfold batchNow. set (now := Z.max clk (g_lastNow g)).
  assert (Hnow : g_lastNow g <= now) by lia.
  destruct (dr_begin dr) as [e|].
  { rewrite doomed_fresh by done. intros [= <-]. split; [by split|]. right.
    apply (refused_doomed dr clk batch "begin" e _ now (g_world g) g Hl). by left. }
  pose proof (apply_loop_spec dr now 0 batch (MkApplied (g_world (set_lastNow now g)) [] []) (set_lastNow now g) Hf) as Hloop.
  pose proof (one_by_one_ids now batch (g_world g)) as Hids. unfold loop_spec in Hloop.
  destruct (apply_loop dr now 0 batch _ _) as [a g1|op e m g1|]; [|clear Hnow|done].
  - destruct Hloop as (-> & -> & Hsound). simpl in *. set (outs := (one_by_one now batch (g_world g)).2) in *.
    destruct (dr_commit dr) as [[e landed]|] eqn:Hcm.
    + intros Hd. eapply (doomed_none_before _ _ _ _ g _ outs now) in Hd; [|done|intros x; by rewrite Hids|done]. subst g'.
      split; [by split|]. right. apply refused_doomed; [done|]. destruct landed; [right; eauto|by left].
    + rewrite reply_all_close, close_all_fresh.
      * simpl. rewrite fan_out_pump. intros [= <-]. split; [by split|]. left. split; [|done].
        split; simpl; try done. rewrite <-app_assoc. by rewrite answers_split.
      * simpl. rewrite <-app_assoc, map_app, (Permutation_map fst (answers_split outs)), answered_ids, Hids. exact Hf.
  - destruct Hloop as (pre & x & post & Houts & Hpre & _ & ->). simpl in *. intros Hd.
    eapply (doomed_none_before _ _ _ _ g _ pre now) in Hd; [|done| |done]; last first.
    { intros y Hy. rewrite <-Hids, Houts, map_app. apply elem_of_app. by left. }
    subst g'. split; [split; done || (simpl; lia)|]. right. apply refused_doomed; [done|by left].
Qed.

(** Without a fault of the driver or an infrastructure error the batch commits. *)
Lemma commitBatch_total clk batch g :
  fresh_for batch g -> g_latched g = None ->
  Forall (fun x => infra x = false) (one_by_one (Z.max clk (g_lastNow g)) batch (g_world g)).2 ->
  exists g', commitBatch sound_driver clk batch g = Some g' /\ g_latched g' = None.
Proof.
  intros Hf Hl Hs. unfold commitBatch. rewrite Hl. unfold batchNow. set (now := Z.max clk (g_lastNow g)) in *. simpl.
  pose proof (apply_loop_spec sound_driver now 0 batch (MkApplied (g_world g) [] []) (set_lastNow now g) Hf) as Hloop.
  pose proof (apply_loop_sound now 0 batch (MkApplied (g_world g) [] []) (set_lastNow now g)) as Hthrough.
  unfold loop_spec in Hloop. destruct (apply_loop _ _ _ _ _ _) as [a g1|op e m g1|]; [| |done].
  - destruct Hloop as (-> & -> & _). simpl. rewrite reply_all_close, close_all_fresh; [simpl; rewrite fan_out_pump; eauto|]. simpl.
    rewrite <-app_assoc, map_app, (Permutation_map fst (answers_split _)), answered_ids, one_by_one_ids. exact Hf.
  - exfalso. simpl in Hthrough. destruct Hthrough as [_ (x & Hx & Hi)%Exists_exists]. rewrite Forall_forall in Hs. by rewrite Hs in Hi.
Qed.

(** *** Assembling a batch *)

Definition held (o : option (request R)) : list (request R) := match o with Some r => [r] | None => [] end.
Definition bytes_of (l : list (request R)) : Z := sumZ (map (fun r => cmd_Bytes (rq_cmd r)) l).

Lemma fill_spec cfg batch bytes ready :
  let '(b, next, rest) := fill cfg batch bytes ready in
  exists taken, b = batch ++ taken /\ ready = taken ++ held next ++ rest /\
    Forall (fun r => isSolo (rq_cmd r) = false) taken /\
    (taken <> [] -> Z.of_nat (length b) <= CommitMaxBatch cfg /\ bytes + bytes_of taken <= CommitMaxBytes cfg).
Proof.
  revert batch bytes. induction ready as [|r ready IH]; intros batch bytes; simpl.
  { exists []. rewrite app_nil_r. split_and!; done. }
  destruct (Z.leb_spec (CommitMaxBatch cfg) (Z.of_nat (length batch))) as [|Hlen].
  { exists []. rewrite app_nil_r. split_and!; done. }
  destruct (isSolo (rq_cmd r)) eqn:Hs; simpl.
  { exists []. rewrite app_nil_r. split_and!; done. }
  destruct (Z.ltb_spec (CommitMaxBytes cfg) (bytes + cmd_Bytes (rq_cmd r))) as [|Hb].
  { exists []. rewrite app_nil_r. split_and!; done. }
  specialize (IH (batch ++ [r]) (bytes + cmd_Bytes (rq_cmd r))).
  destruct (fill cfg (batch ++ [r]) _ ready) as [[b next] rest]. destruct IH as (taken & -> & -> & Hsolo & Hbd).
  exists (r :: taken). rewrite <-app_assoc. split_and!; [done|done|by constructor|]. intros _.
  change (bytes_of (r :: taken)) with (cmd_Bytes (rq_cmd r) + bytes_of taken).
  destruct taken as [|r' taken]; [|specialize (Hbd ltac:(done)) as [Hbl Hbb]; split; [|lia]].
  - unfold bytes_of. simpl. rewrite length_app. simpl. lia.
  - etrans; [|exact Hbl]. by rewrite <-app_assoc.
Qed.

(** *** A turn of the loop *)

(** Accepted and not answered, in the order of the channel. *)
Definition waiting g : list (request R) := held (g_pending g) ++ g_queue g.
Definition all_ids g : list nat := ids (g_sending g) ++ ids (waiting g) ++ map fst (g_replies g).

Lemma ids_app l l' : ids (l ++ l') = ids l ++ ids l'.
Proof. apply map_app. Qed.

Lemma committed_ids clk batch g g' : committed clk batch g g' -> Permutation (map fst (g_replies g')) (map fst (g_replies g) ++ ids batch).
Proof. intros [_ _ Hr _ _ _]. by rewrite (Permutation_map fst Hr), map_app, answered_ids, one_by_one_ids. Qed.

Lemma refused_ids dr clk batch g g' : refused dr clk batch g g' -> map fst (g_replies g') = map fst (g_replies g) ++ ids batch.
Proof. intros [[why Hr] _ _ _]. by rewrite Hr, map_app, failAll_ids. Qed.

(** One turn serves the oldest waiting commands: [batch] is answered, the others
    keep their order. *)
Record turned g g' (batch : list (request R)) : Prop := {
  tn_waiting : waiting g = batch ++ waiting g';
  tn_replies : Permutation (map fst (g_replies g')) (map fst (g_replies g) ++ ids batch);
  tn_sending : g_sending g' = g_sending g;
  tn_closing : g_closing g' = g_closing g;
  tn_exited : g_exited g' = (g_exited g || (g_closing g && bool_decide (waiting g = [])));
  tn_progress : waiting g <> [] -> batch <> [];
  tn_lastNow : g_lastNow g <= g_lastNow g';
  tn_latched : is_Some (g_latched g) -> g_latched g' = g_latched g /\ (g_rw_open g = false -> g_rw_open g' = false /\ g_world g' = g_world g);
  tn_rw : (is_Some (g_latched g) -> g_rw_open g = false) -> is_Some (g_latched g') -> g_rw_open g' = false;
}.

Lemma fresh_batch g batch rest : NoDup (all_ids g) -> waiting g = batch ++ rest -> fresh_for batch g.
Proof.
  unfold all_ids, fresh_for. intros Hnd Hw. rewrite Hw, ids_app in Hnd. apply NoDup_app in Hnd as (_ & _ & Hnd).
  rewrite <-app_assoc in Hnd. rewrite (Permutation_app_comm (ids rest)), app_assoc in Hnd. apply NoDup_app in Hnd as (Hnd & _ & _).
  by rewrite Permutation_app_comm.
Qed.

Lemma waiting_nonempty g (batch rest : list (request R)) :
  waiting g = batch ++ rest -> batch <> [] -> g_exited g = (g_exited g || (g_closing g && bool_decide (waiting g = []))).
Proof.
  intros Hw Hb. rewrite (bool_decide_false (waiting g = [])); [by rewrite andb_false_r, orb_false_r|]. rewrite Hw.
  by destruct batch.
Qed.

Lemma commitBatch_turned dr clk batch q p g g' :
  NoDup (all_ids g) -> waiting g = batch ++ held p ++ q -> batch <> [] ->
  commitBatch dr clk batch (set_waiting q p g) = Some g' -> turned g g' batch.
Proof.
  intros Hnd Hw Hb Hrun. apply commitBatch_spec in Hrun as [[Hse Hq Hp Hcl Hex Hln] Hcase]; [|exact (fresh_batch g batch _ Hnd Hw)].
  simpl in *. split; try done.
  - rewrite Hw. unfold waiting. by rewrite Hp, Hq.
  - destruct Hcase as [[Hc _]|Hc]; [exact (committed_ids _ _ _ _ Hc)|by rewrite (refused_ids _ _ _ _ _ Hc)].
  - rewrite Hex. by eapply waiting_nonempty.
  - intros Hl. destruct Hcase as [[_ Hn]|[_ _ Hk _]]; [simpl in Hn; rewrite Hn in Hl; by destruct Hl|].
    destruct (Hk Hl) as (-> & -> & ->). done.
  - intros Hrw Hl. destruct Hcase as [[[_ _ _ _ [Hcl' Hro] _] Hn]|[_ [_ Hr] Hk _]]; simpl in *.
    + rewrite Hcl', Hn in Hl. by destruct Hl.
    + destruct (g_latched g) eqn:Hlg; [|auto]. destruct (Hk ltac:(by eexists)) as (_ & -> & _). apply Hrw. by eexists.
Qed.

Lemma answered_turned n w' a pump r q g :
  waiting g = r :: q -> g_lastNow g <= n -> (g_rw_open g = false -> w' = g_world g) ->
  turned g (set_pump pump (set_replies (g_replies g ++ [(rq_id r, a)]) (set_world w' (set_lastNow n (set_waiting q None g))))) [r].
Proof.
  intros Hw Hn Hro. split; simpl; [exact Hw|by rewrite map_app|done|done|exact (waiting_nonempty g [r] q Hw ltac:(done))|done|done|auto|auto].
Qed.

Lemma commitSolo_turned clk r q g g' :
  NoDup (all_ids g) -> waiting g = r :: q ->
  commitSolo clk r (set_waiting q None g) = Some g' -> turned g g' [r].
Proof.
  intros Hnd Hw. pose proof (fresh_batch g [r] q Hnd Hw) as Hf.
  assert (Hr : rq_id r ∉ map fst (g_replies g)).
  { intros Hin. apply NoDup_app in Hf as (_ & Hd & _). apply (Hd _ Hin). left. }
  unfold commitSolo. destruct (cmd_Solo (rq_cmd r)) as [body|].
  - unfold batchNow. simpl. destruct (if g_rw_open g then _ else _) as [w' res] eqn:Hbody.
    assert (Hro : g_rw_open g = false -> w' = g_world g) by (intros Hro; rewrite Hro in Hbody; by injection Hbody as <- _).
    destruct res as [[v evs]|e]; rewrite close_fresh by done; simpl; rewrite ?fan_out_pump; intros [= <-]; simpl.
    + apply (answered_turned (Z.max clk (g_lastNow g)) w' (inl v)); [done|lia|done].
    + apply (answered_turned (Z.max clk (g_lastNow g)) w' (inr (Rejected e)) (g_pump g)); [done|lia|done].
  - rewrite close_fresh by done. intros [= <-].
    apply (answered_turned (g_lastNow g) (g_world g) (inr (Rejected (Plain "does not implement Solo"))) (g_pump g)); [done|lia|done].
Qed.

Lemma assemble_turned cfg l r q g g' :
  NoDup (all_ids g) -> waiting g = r :: q ->
  assemble cfg l r (set_waiting q None g) = Some g' -> exists batch, turned g g' batch.
Proof.
  intros Hnd Hw. unfold assemble, takeBatch. simpl.
  pose proof (fill_spec cfg [r] (cmd_Bytes (rq_cmd r)) (take (lk_ready l) q)) as Hf.
  destruct (fill cfg [r] _ _) as [[b next] rest]. destruct Hf as (taken & -> & Htake & _).
  intros Hrun. exists ([r] ++ taken). apply (commitBatch_turned _ _ _ _ _ g g' Hnd) in Hrun; [done| |done].
  rewrite Hw, <-(take_drop (lk_ready l) q) at 1. rewrite Htake. by rewrite <-!app_assoc.
Qed.

Lemma turn_turned cfg l g g' : NoDup (all_ids g) -> turn cfg l g = Some g' -> exists batch, turned g g' batch.
Proof.
  intros Hnd. unfold turn. destruct (g_pending g) as [r|] eqn:Hp.
  - assert (Hw : waiting g = r :: g_queue g) by (unfold waiting; by rewrite Hp).
    destruct (isSolo _); [|by apply assemble_turned]. intros Hrun. exists [r]. by apply (commitSolo_turned (lk_clock l) r (g_queue g)).
  - destruct (g_queue g) as [|r q] eqn:Hq.
    + intros [= <-]. exists []. assert (Hw : waiting g = []) by (unfold waiting; by rewrite Hp, Hq).
      destruct (g_closing g) eqn:Hc; split; simpl; try done; rewrite ?app_nil_r, ?Hc, ?Hw; try done.
      * by rewrite orb_true_r.
      * by rewrite orb_false_r.
    + assert (Hw : waiting g = r :: q) by (unfold waiting; by rewrite Hp, Hq).
      destruct (isSolo _); [|by apply assemble_turned]. intros Hrun. exists [r]. by apply (commitSolo_turned (lk_clock l) r q).
Qed.

(** *** Interleavings *)

Record engine_ok g : Prop := {
  eo_ids : NoDup (all_ids g);
  eo_rw : is_Some (g_latched g) -> g_rw_open g = false;
}.

(** From [g] to [g']: [joined] were accepted, [served] answered, oldest first; a
    latched engine is frozen; batch times do not go back. *)
Record evolves g g' : Prop := {
  ev_served : exists joined served, waiting g ++ joined = served ++ waiting g' /\
    Permutation (map fst (g_replies g')) (map fst (g_replies g) ++ ids served);
  ev_latched : is_Some (g_latched g) -> g_latched g' = g_latched g /\ g_world g' = g_world g;
  ev_lastNow : g_lastNow g <= g_lastNow g';
}.

Lemma evolves_same g g' :
  waiting g' = waiting g -> g_replies g' = g_replies g -> g_latched g' = g_latched g -> g_world g' = g_world g ->
  g_lastNow g' = g_lastNow g -> evolves g g'.
Proof.
  intros Hw Hr Hl Hwo Hn. split; [|auto|lia]. exists [], []. rewrite Hw, Hr, !app_nil_r. done.
Qed.

Lemma evolves_trans g1 g2 g3 : evolves g1 g2 -> evolves g2 g3 -> evolves g1 g3.
Proof.
  intros [(j1 & s1 & Hw1 & Hr1) Hl1 Hn1] [(j2 & s2 & Hw2 & Hr2) Hl2 Hn2]. split; [|intros Hl|lia].
  - exists (j1 ++ j2), (s1 ++ s2). rewrite app_assoc, Hw1, <-app_assoc, Hw2, app_assoc. split; [done|].
    by rewrite Hr2, Hr1, ids_app, app_assoc.
  - destruct (Hl1 Hl) as [Hl' ->%eq_sym]. rewrite <-Hl' in Hl. destruct (Hl2 Hl) as [-> ->]. done.
Qed.

Lemma step_spec cfg g g' : engine_ok g -> step cfg g g' -> engine_ok g' /\ evolves g g'.
Proof.
  intros [Hnd Hrw] Hstep. destruct Hstep as [r cd g Hgd Hfr|r l l' g Hs Hq|r l l' g Hs|luck g g' Hex Hrun|g].
  - split; [|by apply evolves_same]. split; [|done]. unfold all_ids, waiting in *. simpl. rewrite ids_app, <-app_assoc. simpl.
    rewrite <-Permutation_middle. apply NoDup_cons. by split.
  - assert (Hw : waiting (set_sending (l ++ l') (set_waiting (g_queue g ++ [r]) (g_pending g) g)) = waiting g ++ [r])
      by (unfold waiting; simpl; by rewrite app_assoc).
    split.
    + split; [|done]. unfold all_ids in *. rewrite Hw. simpl. rewrite Hs in Hnd. rewrite ids_app in *. simpl in Hnd.
      revert Hnd. rewrite ids_app, <-!app_assoc. simpl. by rewrite <-!Permutation_middle.
    + split; simpl; [|done|lia]. exists [r], []. simpl. by rewrite Hw, app_nil_r.
  - split; [|by apply evolves_same]. split; [|done]. unfold all_ids in *. simpl. rewrite Hs, ids_app in Hnd. simpl in Hnd.
    rewrite ids_app. eapply sublist_NoDup; [exact Hnd|]. apply sublist_app; [|done]. apply sublist_app; [done|]. by apply sublist_cons.
  - destruct (turn_turned _ _ _ _ Hnd Hrun) as [batch [Hw Hr Hse Hcl Hex' Hp Hn Hl Hro]]. split.
    + split; [|auto]. unfold all_ids in *. rewrite Hse, Hr. rewrite Hw, ids_app in Hnd.
      revert Hnd. rewrite <-app_assoc. rewrite (Permutation_app_comm (map fst _) (ids batch)).
      by rewrite (Permutation_app_swap_app (ids batch)).
    + split; [|intros Hl'; destruct (Hl Hl') as [? [? ?]]; auto|done]. exists [], batch. rewrite app_nil_r. done.
  - split; [by split|by apply evolves_same].
Qed.

Lemma steps_spec cfg g g' : engine_ok g -> rtc (step cfg) g g' -> engine_ok g' /\ evolves g g'.
Proof.
  intros Hok Hsteps. induction Hsteps as [g|g1 g2 g3 H12 H23 IH]; [split; [done|by apply evolves_same]|].
  destruct (step_spec _ _ _ Hok H12) as [Hok2 Hev]. destruct (IH Hok2) as [Hok3 Hev2]. split; [done|by eapply evolves_trans].
Qed.

Lemma start_ok w : engine_ok (start (R := R) w).
Proof. split; [constructor|by intros [? [=]]]. Qed.

(** *** Draining *)

(** A command whose every error is a marked rejection. *)
Definition marked (c : Cmd R) : Prop :=
  forall now w, match cmd_Apply c now w with (_, Ok _) => True | (_, Err e) => IsCmdError e = true end.

Lemma marked_sound now batch w :
  Forall (fun r => marked (rq_cmd r)) batch -> Forall (fun x => infra x = false) (one_by_one now batch w).2.
Proof.
  intros Hm. revert w. induction Hm as [|r batch Hr Hm IH]; intros w; [constructor|]. rewrite one_by_one_cons. unfold savepoint.
  specialize (Hr now w). destruct (cmd_Apply (rq_cmd r) now w) as [w' [[res evs]|e]]; simpl; constructor; try done; try apply IH.
  unfold infra. simpl. by rewrite Hr.
Qed.

Lemma commitBatch_marked clk batch g :
  fresh_for batch g -> Forall (fun r => marked (rq_cmd r)) batch -> exists g', commitBatch sound_driver clk batch g = Some g'.
Proof.
  intros Hf Hm. destruct (g_latched g) as [fe|] eqn:Hl.
  2: { destruct (commitBatch_total clk batch g Hf Hl (marked_sound _ _ _ Hm)) as (g' & Hrun & _). eauto. }
  unfold commitBatch. rewrite Hl, failAll_fresh by done. eauto.
Qed.

Lemma commitSolo_total clk r g : rq_id r ∉ map fst (g_replies g) -> exists g', commitSolo clk r g = Some g'.
Proof.
  intros Hr. unfold commitSolo. destruct (cmd_Solo (rq_cmd r)) as [body|]; [|rewrite close_fresh by done; eauto].
  unfold batchNow. simpl. destruct (if g_rw_open g then _ else _) as [w' [[v evs]|e]]; rewrite close_fresh by done; simpl; eauto.
Qed.

Lemma turn_total cfg clk n g :
  engine_ok g -> Forall (fun r => marked (rq_cmd r)) (waiting g) -> exists g', turn cfg (MkLuck sound_driver clk n) g = Some g'.
Proof.
  intros [Hnd _] Hm.
  assert (Hserve : forall r q, waiting g = r :: q ->
            (exists g', commitSolo clk r (set_waiting q None g) = Some g') /\
            (exists g', assemble cfg (MkLuck sound_driver clk n) r (set_waiting q None g) = Some g')).
  { intros r q Hw. split.
    - apply commitSolo_total. pose proof (fresh_batch g [r] q Hnd Hw) as Hf. apply NoDup_app in Hf as (_ & Hd & _).
      intros Hin. apply (Hd _ Hin). left.
    - unfold assemble, takeBatch. simpl. pose proof (fill_spec cfg [r] (cmd_Bytes (rq_cmd r)) (take n q)) as Hf.
      destruct (fill cfg [r] _ _) as [[b next] rest]. destruct Hf as (taken & -> & Htake & _).
      assert (Hw' : waiting g = ([r] ++ taken) ++ held next ++ rest ++ drop n q).
      { rewrite Hw, <-(take_drop n q) at 1. rewrite Htake. by rewrite <-!app_assoc. }
      apply commitBatch_marked; [exact (fresh_batch g _ _ Hnd Hw')|]. rewrite Hw', Forall_app in Hm. apply Hm. }
  unfold turn, waiting in *. simpl. destruct (g_pending g) as [r|].
  - destruct (Hserve r (g_queue g) eq_refl) as [Hs Ha]. by destruct (isSolo _).
  - destruct (g_queue g) as [|r q]; [eauto|]. destruct (Hserve r q eq_refl) as [Hs Ha]. by destruct (isSolo _).
Qed.

Lemma run_exited cfg lucks n g : g_exited g = true -> run cfg lucks n g = Some g.
Proof. intros Hx. destruct n; simpl; by rewrite Hx. Qed.

Lemma run_drains cfg (clk : nat -> Z) (ready : nat -> nat) n g :
  engine_ok g -> g_closing g = true -> g_exited g = false -> Forall (fun r => marked (rq_cmd r)) (waiting g) ->
  (length (waiting g) < n)%nat ->
  exists g', run cfg (fun i => MkLuck sound_driver (clk i) (ready i)) n g = Some g' /\ waiting g' = [] /\ g_exited g' = true /\
    Permutation (map fst (g_replies g')) (map fst (g_replies g) ++ ids (waiting g)).
Proof.
  revert g. induction n as [|n IH]; intros g Hok Hcl Hex Hm Hlen; [lia|]. simpl. rewrite Hex.
  destruct (turn_total cfg (clk n) (ready n) g Hok Hm) as [g1 Hrun]. rewrite Hrun. simpl.
  destruct (step_spec cfg _ _ Hok (step_turn cfg _ g g1 Hex Hrun)) as [Hok1 _].
  destruct (turn_turned _ _ _ _ (eo_ids _ Hok) Hrun) as [batch [Hw Hr Hse Hcl' Hex' Hp Hn Hl Hro]].
  rewrite Hcl, Hex in Hex'. destruct (decide (waiting g = [])) as [He|He].
  - rewrite bool_decide_true in Hex' by done. exists g1. rewrite run_exited by done. rewrite He in Hw. symmetry in Hw.
    apply app_nil in Hw as [-> Hw]. by rewrite He.
  - rewrite bool_decide_false in Hex' by done. rewrite Hw, length_app in Hlen.
    assert (0 < length batch)%nat by (specialize (Hp He); destruct batch; [done|simpl; lia]).
    rewrite Hw, Forall_app in Hm. destruct (IH g1) as (g' & Hrun' & Hw' & Hx & Hr'); [done|congruence|done|apply Hm|lia|].
    exists g'. split_and!; try done. by rewrite Hr', Hr, Hw, ids_app, app_assoc.
Qed.

Lemma first_infra pre pre' x x' post post' :
  pre ++ x :: post = pre' ++ x' :: post' -> Forall (fun y => infra y = false) pre -> Forall (fun y => infra y = false) pre' ->
  infra x = true -> infra x' = true -> pre = pre'.
Proof.
  revert pre'. induction pre as [|y pre IH]; intros [|y' pre']; simpl; [done| | |].
  - intros [= -> _] _ [Hy _]%Forall_cons Hx _. congruence.
  - intros [= -> _] [Hy _]%Forall_cons _ _ Hx'. congruence.
  - intros [= -> Heq] [_ Hp]%Forall_cons [_ Hp']%Forall_cons Hx Hx'. f_equal. by apply (IH pre').
Qed.

(** Without the engine, a command runs as in a batch of its own, its domain errors
    marked. *)
Lemma runSolo_reference now (c : Cmd R) w :
  runSolo sound_driver now c w = marking (savepoint (cmd_Apply c now)) w.
Proof.
  unfold runSolo, marking, savepoint. simpl. destruct (cmd_Apply c now w) as [w' [out|e]]; [done|].
  destruct (IsCmdError (maybeCmdErr e)) eqn:He; [done|]. simpl. unfold maybeCmdErr in *. by destruct (isDomainError e).
Qed.

(** ** Properties *)

(** C3: A batch is all or nothing, and group commit is sequential execution.
    Whatever SQLite answers, a batch that does not crash the process either commits,
    and then the database, every reply and the events are those of running its
    commands one after the other, each behind its savepoint, at one instant; or it is
    refused, every caller gets the same refusal, none a result, the engine is latched
    and the database unchanged unless the failed COMMIT had reached the disk.  With
    no fault and no infrastructure error it commits. *)
Theorem commit_all_or_nothing dr clk batch g :
  fresh_for batch g ->
  (forall g', commitBatch dr clk batch g = Some g' ->
     committed clk batch g g' /\ g_latched g = None \/ refused dr clk batch g g') /\
  (g_latched g = None -> Forall (fun x => infra x = false) (one_by_one (Z.max clk (g_lastNow g)) batch (g_world g)).2 ->
     exists g', commitBatch sound_driver clk batch g = Some g' /\ committed clk batch g g').
Proof.
  intros Hf. split.
  - intros g' Hrun. by apply commitBatch_spec in Hrun as [_ Hcase].
  - intros Hl Hs. destruct (commitBatch_total clk batch g Hf Hl Hs) as (g' & Hrun & Hl'). exists g'. split; [done|].
    apply commitBatch_spec in Hrun as [_ [[Hc _]|[_ [Hfe _] _ _]]]; [done| |done]. rewrite Hl' in Hfe. by destruct Hfe.
Qed.

(** C29: The engine under every interleaving of callers, turns, faults and close.
    A command accepted on the channel is at any time either waiting or answered, never
    both and never twice; commands are answered in the order of their acceptance, and
    none is dropped; batch times do not go back; and once a storage fault has latched
    the engine, the fault and the database never change again. *)
Theorem engine_serves_in_order cfg w g g' :
  rtc (step cfg) (start w) g -> rtc (step cfg) g g' ->
  NoDup (ids (waiting g) ++ map fst (g_replies g)) /\
  (exists joined served, waiting g ++ joined = served ++ waiting g' /\
     Permutation (map fst (g_replies g')) (map fst (g_replies g) ++ ids served)) /\
  g_lastNow g <= g_lastNow g' /\
  (is_Some (g_latched g) -> g_latched g' = g_latched g /\ g_world g' = g_world g).
Proof.
  intros H0 H1. destruct (steps_spec _ _ _ (start_ok w) H0) as [Hok _]. destruct (steps_spec _ _ _ Hok H1) as [_ [Hs Hl Hn]].
  split_and!; try done. apply eo_ids in Hok. unfold all_ids in Hok. by apply NoDup_app in Hok as (_ & _ & Hok).
Qed.

(** [Close] drains.  From any reachable state, with no storage fault and commands
    whose errors are marked rejections, the loop returns after at most one turn per
    waiting command and one more, and every accepted command has been answered. *)
Lemma close_drains cfg w g clk ready n :
  rtc (step cfg) (start w) g -> g_closing g = true -> g_exited g = false ->
  Forall (fun r => marked (rq_cmd r)) (waiting g) -> (length (waiting g) < n)%nat ->
  exists g', run cfg (fun i => MkLuck sound_driver (clk i) (ready i)) n g = Some g' /\ g_exited g' = true /\ waiting g' = [] /\
    Permutation (map fst (g_replies g')) (map fst (g_replies g) ++ ids (waiting g)).
Proof.
  intros H0 Hcl Hex Hm Hn. destruct (steps_spec _ _ _ (start_ok w) H0) as [Hok _].
  destruct (run_drains cfg clk ready n g Hok Hcl Hex Hm Hn) as (g' & Hrun & Hw & Hx & Hr). exists g'. by split_and!.
Qed.

(** C31: A rejection followed by a storage fault in the same batch crashes the
    process: the rejected command's channel is closed when it is rejected, and again
    when the batch is doomed.  For every batch with a rejected command before an
    infrastructure error, the engine does not answer but panics. *)
Theorem rejection_then_fault_panics clk batch g pre x post :
  fresh_for batch g -> g_latched g = None ->
  (one_by_one (Z.max clk (g_lastNow g)) batch (g_world g)).2 = pre ++ x :: post ->
  Forall (fun y => infra y = false) pre -> omap rejected pre <> [] -> infra x = true ->
  commitBatch sound_driver clk batch g = None.
Proof.
  intros Hf Hl Houts Hpre Hrej Hx. destruct (commitBatch sound_driver clk batch g) as [g'|] eqn:Hrun; [exfalso|done].
  assert (Hids := one_by_one_ids (Z.max clk (g_lastNow g)) batch (g_world g)).
  unfold commitBatch in Hrun. rewrite Hl in Hrun. unfold batchNow in Hrun. set (now := Z.max clk (g_lastNow g)) in *. simpl in Hrun.
  pose proof (apply_loop_spec sound_driver now 0 batch (MkApplied (g_world g) [] []) (set_lastNow now g) Hf) as Hloop.
  pose proof (apply_loop_sound now 0 batch (MkApplied (g_world g) [] []) (set_lastNow now g)) as Hthrough.
  unfold loop_spec in Hloop. destruct (apply_loop _ _ _ _ _ _) as [a g1|op e m g1|]; [| |done].
  - destruct Hloop as (_ & _ & Hs). simpl in Hs. rewrite Houts, Forall_app, Forall_cons in Hs. destruct Hs as (_ & Hs & _). congruence.
  - destruct Hloop as (pre' & x' & post' & Houts' & Hpre' & Hop & ->), Hthrough as [-> _]. simpl in *. rewrite Houts in Houts'.
    apply first_infra in Houts' as <-; try done; [|by apply Hop].
    destruct (omap rejected pre) as [|[id ans] l] eqn:Hom; [done|].
    rewrite (doomed_stale _ _ _ _ _ id) in Hrun; [done| |].
    + simpl. rewrite map_app. apply elem_of_app. right. left.
    + rewrite <-Hids, Houts, map_app. apply elem_of_app. left. apply (rejected_ids pre (id, ans)). rewrite Hom. left.
Qed.

Lemma exited_frozen cfg g g' :
  rtc (step cfg) g g' -> g_exited g = true -> g_replies g' = g_replies g /\ g_world g' = g_world g.
Proof.
  induction 1 as [g|g1 g2 g3 H12 H23 IH]; [done|]. intros Hx.
  destruct H12 as [r cd g Hgd Hfr|r l l' g Hs Hq|r l l' g Hs|luck g g' Hex Hrun|g]; try (destruct (IH Hx) as [-> ->]; done). congruence.
Qed.

(** A command accepted after the loop has returned is never answered: a caller
    past the guards of [Do] may still send on the channel when the loop is gone, and
    then waits for a reply that no step gives. *)
Lemma accepted_after_exit_unanswered cfg w (r : request R) :
  0 < QueueDepth cfg ->
  exists g, rtc (step cfg) (start w) g /\ g_exited g = true /\ waiting g = [r] /\
    forall g', rtc (step cfg) g g' -> rq_id r ∉ map fst (g_replies g') /\ g_world g' = w.
Proof.
  intros Hq.
  set (g1 := set_sending [r] (start w)). set (g2 := set_flags true false g1). set (g3 := set_flags true true g1).
  exists (set_sending [] (set_waiting [r] None g3)).
  assert (Hsteps : rtc (step cfg) (start w) (set_sending [] (set_waiting [r] None g3))).
  { apply (rtc_l _ _ g1); [apply (step_enter cfg r false (start w)); [done|apply not_elem_of_nil]|].
    apply (rtc_l _ _ g2); [exact (step_close cfg g1)|].
    apply (rtc_l _ _ g3); [exact (step_turn cfg (MkLuck sound_driver 0 0) g2 g3 eq_refl eq_refl)|].
    apply rtc_once. exact (step_send cfg r [] [] g3 eq_refl Hq). }
  split_and!; try done. intros g' Hg'. destruct (exited_frozen _ _ _ Hg' eq_refl) as [-> ->]. split; [apply not_elem_of_nil|done].
Qed.

End Facts.

(** *** The theorems at work *)

Definition note (name : string) : Cmd unit :=
  MkCmd "note" (fun now => ev ← commitEvent (blank_event now name); mret (tt, [ev])) 0 None.
Definition refuse : Cmd unit := MkCmd "refuse" (fun _ => fail (CmdErr (E ErrNotFound "no such row"))) 0 None.
Definition broken : Cmd unit := MkCmd "broken" (fun _ => fail (Plain "disk I/O error")) 0 None.

Definition empty : world := World empty_db empty_mem.
Definition sample_config : Config := MkConfig 0 256 8388608 16 2000000000.
Definition reqs (cs : list (Cmd unit)) : list (request unit) := imap MkRequest cs.

Lemma commit_all_or_nothing_witness :
  exists g', commitBatch sound_driver 7 (reqs [note "a"; refuse; note "b"]) (start empty) = Some g' /\
    committed 7 (reqs [note "a"; refuse; note "b"]) (start empty) g' /\ length (events (w_db (g_world g'))) = 2%nat.
Proof.
  destruct (commit_all_or_nothing sound_driver 7 (reqs [note "a"; refuse; note "b"]) (start empty)) as [_ Hsound].
  { apply (bool_decide_unpack (NoDup _)). vm_compute. exact I. }
  destruct Hsound as (g' & Hrun & Hc); [reflexivity| |].
  { repeat (constructor; [vm_compute; reflexivity|]). constructor. }
  exists g'. split; [exact Hrun|]. split; [exact Hc|].
  rewrite (cm_world _ _ _ _ Hc), (cm_now _ _ _ _ Hc). vm_compute. reflexivity.
Defined.

(** Two callers, one turn: a batch of two. *)
Definition two_sent : engine unit := set_waiting (reqs [note "a"; note "b"]) None (start empty).

Lemma two_sent_reachable : rtc (step sample_config) (start empty) two_sent.
Proof.
  set (a := MkRequest 0%nat (note "a")). set (b := MkRequest 1%nat (note "b")).
  apply (rtc_l _ _ (set_sending [a] (start empty))).
  { apply (step_enter sample_config a false (start empty)); [done|apply not_elem_of_nil]. }
  apply (rtc_l _ _ (set_waiting [a] None (start empty))); [by apply (step_send sample_config a [] [] (set_sending [a] (start empty)))|].
  apply (rtc_l _ _ (set_sending [b] (set_waiting [a] None (start empty)))).
  { apply (step_enter sample_config b false (set_waiting [a] None (start empty))); [done|]. by apply (bool_decide_unpack _). }
  apply rtc_once. by apply (step_send sample_config b [] [] (set_sending [b] (set_waiting [a] None (start empty)))).
Qed.

Lemma engine_serves_in_order_witness :
  exists g', rtc (step sample_config) two_sent g' /\ waiting g' = [] /\
    (exists joined served, waiting two_sent ++ joined = served ++ waiting g' /\
       Permutation (map fst (g_replies g')) (map fst (g_replies two_sent) ++ ids served)).
Proof.
  destruct (turn sample_config (MkLuck sound_driver 7 1) two_sent) as [g'|] eqn:Hrun; [|vm_compute in Hrun; discriminate].
  exists g'. assert (Hstep : rtc (step sample_config) two_sent g').
  { apply rtc_once. exact (step_turn sample_config _ two_sent g' eq_refl Hrun). }
  split; [exact Hstep|]. split; [vm_compute in Hrun; injection Hrun as <-; reflexivity|].
  apply (engine_serves_in_order sample_config empty two_sent g' two_sent_reachable Hstep).
Defined.

Lemma note_marked name : marked (note name).
Proof. intros now w. exact I. Qed.

Definition closing_two : engine unit := set_flags true false two_sent.

Lemma closing_reachable : rtc (step sample_config) (start empty) closing_two.
Proof. eapply rtc_r; [exact two_sent_reachable|exact (step_close sample_config two_sent)]. Qed.

Lemma rejection_then_fault_panics_witness : commitBatch sound_driver 7 (reqs [refuse; broken]) (start empty) = None.
Proof.
  apply (rejection_then_fault_panics 7 (reqs [refuse; broken]) (start empty)
    [(0%nat, Err (CmdErr (E ErrNotFound "no such row")))] (1%nat, Err (Plain "disk I/O error")) []).
  - apply (bool_decide_unpack (NoDup _)). vm_compute. exact I.
  - reflexivity.
  - reflexivity.
  - constructor; [reflexivity|constructor].
  - discriminate.
  - reflexivity.
Defined.

End Writer.
