(* ===== verification/Retention.v ===== *)
(** * Retention: internal/queue/retention.go, queue/disk.go, store/retention.go

    The eviction planner, the guarded delete and its bookkeeping, the clock-jump
    detector and the disk state machine. *)

From Stdlib Require Import SpecFloat.
From S2P Require Export Publish.

(** ** The planner *)

Module Eviction.

Record Candidate : Set := MkCandidate {
  ca_Seq : Z;
  ca_Size : Z;
  ca_PublishedAt : Z;
  ca_HasDelivery : bool;
}.

Record RetentionView : Set := MkView {
  rv_MaxMsgs : Z;
  rv_MaxBytes : Z;
  rv_MaxAgeMs : Z;
  rv_Msgs : Z;
  rv_Bytes : Z;
  rv_NowMs : Z;
}.

Record EvictionPlan : Set := MkPlan {
  ep_Seqs : list Z;
  ep_FreedBytes : Z;
  ep_HighestDeletedSeq : Z;
  ep_BlockedCount : Z;
  ep_BlockedBytes : Z;
  ep_HighestBlockedSeq : Z;
  ep_More : bool;
}.

Definition no_plan : EvictionPlan := MkPlan [] 0 0 0 0 0 false.

Definition block (c : Candidate) (p : EvictionPlan) : EvictionPlan :=
  MkPlan (ep_Seqs p) (ep_FreedBytes p) (ep_HighestDeletedSeq p) (ep_BlockedCount p + 1) (ep_BlockedBytes p + ca_Size c)
    (if ep_HighestBlockedSeq p <? ca_Seq c then ca_Seq c else ep_HighestBlockedSeq p) (ep_More p).

Definition take_ (c : Candidate) (p : EvictionPlan) : EvictionPlan :=
  MkPlan (ep_Seqs p ++ [ca_Seq c]) (ep_FreedBytes p + ca_Size c)
    (if ep_HighestDeletedSeq p <? ca_Seq c then ca_Seq c else ep_HighestDeletedSeq p)
    (ep_BlockedCount p) (ep_BlockedBytes p) (ep_HighestBlockedSeq p) (ep_More p).

Definition set_more (b : bool) (p : EvictionPlan) : EvictionPlan :=
  MkPlan (ep_Seqs p) (ep_FreedBytes p) (ep_HighestDeletedSeq p) (ep_BlockedCount p) (ep_BlockedBytes p) (ep_HighestBlockedSeq p) b.

Definition picked (p : EvictionPlan) : Z := Z.of_nat (length (ep_Seqs p)).

Definition violatesAfter (n freed : Z) (v : RetentionView) : bool :=
  ((0 <? rv_MaxMsgs v) && (rv_MaxMsgs v <? rv_Msgs v - n)) || ((0 <? rv_MaxBytes v) && (rv_MaxBytes v <? rv_Bytes v - freed)).

Definition StillViolating (msgs bytes : Z) (v : RetentionView) : bool :=
  ((0 <? rv_MaxMsgs v) && (rv_MaxMsgs v <? msgs)) || ((0 <? rv_MaxBytes v) && (rv_MaxBytes v <? bytes)).

Definition wantAge (v : RetentionView) (c : Candidate) : bool :=
  (0 <? rv_MaxAgeMs v) && (ca_PublishedAt c <? rv_NowMs v - rv_MaxAgeMs v).

(** The walk over the candidates: [excess] and [need] are what the count and byte
    passes still ask for. *)
Fixpoint evict (v : RetentionView) (batch excess need : Z) (cands : list Candidate) (p : EvictionPlan) : EvictionPlan :=
  match cands with
  | [] => p
  | c :: rest =>
      if negb (wantAge v c) && negb (0 <? excess) && negb (0 <? need) then evict v batch excess need rest p
      else if ca_HasDelivery c then evict v batch excess need rest (block c p)
      else if negb (wantAge v c) && (rv_Msgs v - picked p <=? 1) then p
      else
        let p := take_ c p in
        let excess := if 0 <? excess then excess - 1 else excess in
        let need := if need - ca_Size c <? 0 then 0 else need - ca_Size c in
        if picked p =? batch then p else evict v batch excess need rest p
  end.

Definition excess_of (v : RetentionView) : Z :=
  if (0 <? rv_MaxMsgs v) && (rv_MaxMsgs v <? rv_Msgs v) then rv_Msgs v - rv_MaxMsgs v else 0.
Definition need_of (v : RetentionView) : Z :=
  if (0 <? rv_MaxBytes v) && (rv_MaxBytes v <? rv_Bytes v) then rv_Bytes v - rv_MaxBytes v else 0.

Definition PlanEviction (cands : list Candidate) (v : RetentionView) (batch : Z) : EvictionPlan :=
  if batch <=? 0 then no_plan
  else
    let p := evict v batch (excess_of v) (need_of v) cands no_plan in
    set_more ((picked p =? batch) && violatesAfter (picked p) (ep_FreedBytes p) v) p.

Record Holder : Set := MkHolder { ho_Consumer : string; ho_Seq : Z }.

Definition better (h best : Holder) : bool :=
  (ho_Seq h <? ho_Seq best) || ((ho_Seq h =? ho_Seq best) && String.ltb (ho_Consumer h) (ho_Consumer best)).

Definition SelectBlame (holders : list Holder) : option Holder :=
  foldl (fun best h => match best with
                       | None => Some h
                       | Some b => if better h b then Some h else Some b
                       end) None holders.

Record TickSample : Set := MkTick { tk_Wall : Z; tk_Mono : Z }.

(** [Time.Sub] saturates, the [Duration] arithmetic wraps. *)
Definition time_sub (t u : Z) : Z := Z.max (- 2 ^ 63) (Z.min (2 ^ 63 - 1) (t - u)).

Definition DetectClockJump (prev cur : TickSample) (tol : Z) : Z * Z * bool :=
  let wallDelta := time_sub (tk_Wall cur) (tk_Wall prev) in
  let monoDelta := wrap64 (tk_Mono cur - tk_Mono prev) in
  let d := wrap64 (wallDelta - monoDelta) in
  let d := if d <? 0 then wrap64 (- d) else d in
  (wallDelta, monoDelta, tol <? d).

(** *** Facts *)

Definition sizes (l : list Candidate) : Z := sumZ (map ca_Size l).
Definition free_of_pins (l : list Candidate) : list Candidate := List.filter (fun c => negb (ca_HasDelivery c)) l.
Definition by_age : relation Candidate := fun a b => ca_PublishedAt a <= ca_PublishedAt b.

Lemma sizes_cons c l : sizes (c :: l) = ca_Size c + sizes l.
Proof. done. Qed.

Lemma sizes_nonneg l : Forall (fun c => 0 <= ca_Size c) l -> 0 <= sizes l.
Proof. induction 1; rewrite ?sizes_cons; [done|lia]. Qed.

Lemma picked_take c p : picked (take_ c p) = picked p + 1.
Proof. unfold picked, take_. simpl. rewrite length_app. simpl. lia. Qed.

(** The walk from [p] to [p'] selects [sel]. *)
Record walked (v : RetentionView) (batch excess need : Z) (cands : list Candidate) (p p' : EvictionPlan) (sel : list Candidate) : Prop := {
  wk_sub : sublist sel cands;
  wk_free : Forall (fun c => ca_HasDelivery c = false) sel;
  wk_seqs : ep_Seqs p' = ep_Seqs p ++ map ca_Seq sel;
  wk_freed : ep_FreedBytes p' = ep_FreedBytes p + sizes sel;
  wk_bound : picked p' <= batch;
  wk_wanted : forall pre c post, sel = pre ++ c :: post -> wantAge v c = true \/
    1 < rv_Msgs v - (picked p + Z.of_nat (length pre)) /\ (Z.of_nat (length pre) < excess \/ sizes pre < need);
  wk_aged : StronglySorted by_age cands -> picked p' < batch ->
    forall c, c ∈ cands -> wantAge v c = true -> ca_HasDelivery c = false -> c ∈ sel;
  wk_done : picked p' < batch -> rv_Msgs v - picked p' <= 1 \/
    (excess <= Z.of_nat (length sel) /\ need <= sizes sel) \/ sel = free_of_pins cands;
}.

(** A candidate that is not taken. *)
Lemma walked_skip v batch excess need c cands p p1 p' sel :
  ep_Seqs p1 = ep_Seqs p -> ep_FreedBytes p1 = ep_FreedBytes p ->
  (ca_HasDelivery c = true \/ wantAge v c = false /\ excess <= 0 /\ need <= 0) ->
  Forall (fun c => 0 <= ca_Size c) (c :: cands) ->
  walked v batch excess need cands p1 p' sel -> walked v batch excess need (c :: cands) p p' sel.
Proof.
  intros Hs Hf Hc Hpos [H1 H2 H3 H4 H5 H6 H7 H8]. assert (Hpk : picked p1 = picked p) by (unfold picked; by rewrite Hs).
  rewrite Hs in H3. rewrite Hf in H4. setoid_rewrite Hpk in H6. split; try done.
  - by apply sublist_cons.
  - intros [Hsort _]%StronglySorted_inv Hb x [-> |Hx]%elem_of_cons Hw Hn; [|by apply H7].
    destruct Hc as [Hp|[Hw' _]]; congruence.
  - intros Hb. destruct (H8 Hb) as [?|[?| ->]]; [by left|by right; left|]. right. simpl.
    destruct Hc as [Hp|(_ & He & Hn)]; [right; unfold free_of_pins; simpl; by rewrite Hp|]. left.
    split; [lia|]. assert (0 <= sizes (free_of_pins cands)); [|lia]. apply sizes_nonneg.
    apply Forall_cons in Hpos as [_ Hpos]. rewrite Forall_forall in *. intros x [Hx _]%list_elem_of_In%filter_In.
    apply Hpos. by apply list_elem_of_In.
Qed.

Lemma walked_stop v batch excess need c cands p :
  wantAge v c = false -> rv_Msgs v - picked p <= 1 -> picked p < batch -> walked v batch excess need (c :: cands) p p [].
Proof.
  intros Hw Hm Hb. split; try done.
  - apply sublist_nil_l.
  - by rewrite app_nil_r.
  - unfold sizes. simpl. lia.
  - lia.
  - by intros [] ? ?.
  - intros [_ Hall]%StronglySorted_inv _ x Hx Hw' _. exfalso. apply elem_of_cons in Hx as [-> |Hx]; [congruence|].
    rewrite Forall_forall in Hall. specialize (Hall x Hx). unfold by_age in Hall. unfold wantAge in *. bool_prop. lia.
  - intros _. by left.
Qed.

(** A candidate that is taken; the walk ends there or goes on with less to ask for. *)
Lemma walked_take v batch excess need excess' need' c cands p p' sel :
  ca_HasDelivery c = false ->
  (wantAge v c = true \/ 1 < rv_Msgs v - picked p /\ (0 < excess \/ 0 < need)) ->
  (0 < excess -> excess' = excess - 1) -> (excess <= 0 -> excess' <= 0) -> need' = Z.max 0 (need - ca_Size c) ->
  Forall (fun c => 0 <= ca_Size c) (c :: cands) ->
  (p' = take_ c p /\ sel = [] /\ picked p' = batch \/ walked v batch excess' need' cands (take_ c p) p' sel) ->
  walked v batch excess need (c :: cands) p p' (c :: sel).
Proof.
  intros Hd Hw He He' -> [Hc Hpos]%Forall_cons [(-> & -> & Hb)|[H1 H2 H3 H4 H5 H6 H7 H8]].
  - split; try done; try lia.
    + apply sublist_skip, sublist_nil_l.
    + repeat constructor. done.
    + unfold sizes. simpl. lia.
    + intros [|x pre] y post; [|by destruct pre]. intros [= <- <-]. simpl. rewrite Z.add_0_r. unfold sizes. simpl. tauto.
  - rewrite picked_take in H6. simpl in H3, H4. split.
    + by apply sublist_skip.
    + by constructor.
    + rewrite H3. simpl. by rewrite <-app_assoc.
    + rewrite H4, sizes_cons. lia.
    + done.
    + intros [|x pre] y post; simpl.
      { intros [= <- <-]. rewrite Z.add_0_r. unfold sizes. simpl. tauto. }
      intros [= <- Hsel]. destruct (H6 _ _ _ Hsel) as [?|[Hm Hwant]]; [by left|]. right. split; [lia|].
      rewrite sizes_cons. assert (0 <= sizes pre).
      { apply sizes_nonneg. apply Forall_forall. intros z Hz. rewrite Forall_forall in Hpos. apply Hpos.
        eapply elem_of_submseteq; [|by apply sublist_submseteq]. rewrite Hsel. apply elem_of_app. by left. }
      destruct Hwant as [?|?]; [left|right]; lia.
    + intros [Hsort _]%StronglySorted_inv Hb x [-> |Hx]%elem_of_cons Hwx Hnx; [left|]. right. by apply H7.
    + intros Hb. destruct (H8 Hb) as [?|[[Hex Hne]| ->]]; [by left|right; left|right; right].
      * rewrite sizes_cons. simpl. lia.
      * unfold free_of_pins. simpl. by rewrite Hd.
Qed.

Lemma evict_walked v batch excess need cands p :
  Forall (fun c => 0 <= ca_Size c) cands -> picked p < batch ->
  exists sel, walked v batch excess need cands p (evict v batch excess need cands p) sel.
Proof.
  intros Hpos. revert excess need p. induction cands as [|c cands IH]; intros excess need p Hb; simpl.
  - exists []. split; [done|by constructor|by rewrite app_nil_r|unfold sizes; simpl; lia|lia|by intros [] ? ?|by intros _ _ ? ?%elem_of_nil|].
    intros _. by right; right.
  - pose proof Hpos as Hpos'. apply Forall_cons in Hpos' as [Hc Hrest]. specialize (IH Hrest).
    destruct (negb (wantAge v c) && negb (0 <? excess) && negb (0 <? need)) eqn:Hwant.
    { destruct (IH excess need p Hb) as [sel Hsel]. exists sel. eapply walked_skip; [..|exact Hsel]; try done. right. bool_prop. tauto. }
    destruct (ca_HasDelivery c) eqn:Hd.
    { destruct (IH excess need (block c p) Hb) as [sel Hsel]. exists sel. eapply walked_skip; [..|exact Hsel]; try done. by left. }
    destruct (negb (wantAge v c) && (rv_Msgs v - picked p <=? 1)) eqn:Hlast.
    { exists []. bool_prop. destruct Hlast. by apply walked_stop. }
    set (excess' := if 0 <? excess then excess - 1 else excess). set (need' := if need - ca_Size c <? 0 then 0 else need - ca_Size c).
    assert (Hw : wantAge v c = true \/ 1 < rv_Msgs v - picked p /\ (0 < excess \/ 0 < need)).
    { destruct (wantAge v c); [by left|]. right. simpl in *. bool_prop. split; lia. }
    assert (Hex : (0 < excess -> excess' = excess - 1) /\ (excess <= 0 -> excess' <= 0)) by (unfold excess'; destruct (Z.ltb_spec 0 excess); lia).
    assert (Hne : need' = Z.max 0 (need - ca_Size c)) by (unfold need'; destruct (Z.ltb_spec (need - ca_Size c) 0); lia).
    destruct (Z.eqb_spec (picked (take_ c p)) batch) as [Hfull|Hfull].
    + exists [c]. destruct Hex as [He He']. eapply walked_take; [done|exact Hw|exact He|exact He'|exact Hne|done|]. by left.
    + rewrite picked_take in Hfull. destruct (IH excess' need' (take_ c p)) as [sel Hsel]; [rewrite picked_take; lia|].
      exists (c :: sel). destruct Hex as [He He']. eapply walked_take; [done|exact Hw|exact He|exact He'|exact Hne|done|]. by right.
Qed.

Lemma violates_asks v n f : 0 <= n -> 0 <= f -> (n < excess_of v \/ f < need_of v) <-> violatesAfter n f v = true.
Proof.
  intros Hn Hf. unfold violatesAfter, excess_of, need_of.
  rewrite orb_true_iff, !andb_true_iff, !Z.ltb_lt.
  destruct (Z.ltb_spec 0 (rv_MaxMsgs v)), (Z.ltb_spec (rv_MaxMsgs v) (rv_Msgs v)),
    (Z.ltb_spec 0 (rv_MaxBytes v)), (Z.ltb_spec (rv_MaxBytes v) (rv_Bytes v)); simpl; lia.
Qed.

(** What [SelectBlame] returns is one of the holders, and none is better. *)
Lemma SelectBlame_spec holders :
  match SelectBlame holders with
  | None => holders = []
  | Some b => b ∈ holders /\ forall h, h ∈ holders -> ho_Seq b <= ho_Seq h
  end.
Proof.
  unfold SelectBlame. destruct holders as [|h0 l]; [done|]. simpl.
  assert (Hgen : forall l b, exists b', foldl (fun best h => match best with None => Some h | Some b => if better h b then Some h else Some b end)
            (Some b) l = Some b' /\ (b' = b \/ b' ∈ l) /\ ho_Seq b' <= ho_Seq b /\ forall h, h ∈ l -> ho_Seq b' <= ho_Seq h).
  { clear. induction l as [|h l IH]; intros b; simpl.
    - exists b. split; [done|]. split; [by left|]. split; [lia|]. by intros h ?%elem_of_nil.
    - destruct (better h b) eqn:Hb.
      + destruct (IH h) as (b' & -> & Hin & Hle & Hall). exists b'. split; [done|]. unfold better in Hb. split; [|split; [bool_prop; lia|]].
        * right. destruct Hin as [-> |]; [left|by right].
        * intros x [-> |Hx]%elem_of_cons; auto.
      + destruct (IH b) as (b' & -> & Hin & Hle & Hall). exists b'. split; [done|]. unfold better in Hb. split; [|split; [done|]].
        * destruct Hin as [-> |]; [by left|right; by right].
        * intros x [-> |Hx]%elem_of_cons; [|auto]. apply orb_false_iff in Hb as [Hb%Z.ltb_ge _]. lia. }
  destruct (Hgen l h0) as (b' & -> & Hin & Hle & Hall). split.
  - destruct Hin as [-> |]; [left|by right].
  - intros h [-> |Hh]%elem_of_cons; auto.
Qed.

(** Within the range of a [Duration] the detector compares the two clocks exactly. *)
Lemma DetectClockJump_exact prev cur tol :
  let d := (tk_Wall cur - tk_Wall prev) - (tk_Mono cur - tk_Mono prev) in
  - 2 ^ 63 <= tk_Wall cur - tk_Wall prev < 2 ^ 63 -> - 2 ^ 63 <= tk_Mono cur - tk_Mono prev < 2 ^ 63 -> - 2 ^ 63 < d < 2 ^ 63 ->
  (DetectClockJump prev cur tol).2 = (tol <? Z.abs d).
Proof.
  intros d Hw Hm Hd. unfold DetectClockJump, time_sub. simpl. rewrite (wrap64_id (tk_Mono cur - tk_Mono prev)) by lia.
  replace (Z.max _ _) with (tk_Wall cur - tk_Wall prev) by lia. fold d. rewrite (wrap64_id d) by lia.
  destruct (Z.ltb_spec d 0); [rewrite wrap64_id by lia|]; f_equal; lia.
Qed.

(** The eviction plan takes exactly what the limits demand.  It selects, oldest
    first and at most a batch, candidates no delivery row pins; each of them is past
    the age limit, or a count or byte limit would still be violated without it, and
    then it is not the last message; when the batch is not full nothing past the age
    limit is left, and the limits hold afterwards, or one message remains, or every
    unpinned candidate was taken; it asks to run again exactly when a full batch
    leaves a limit violated. *)
Lemma plan_eviction_exact cands v batch :
  Forall (fun c => 0 <= ca_Size c) cands -> 0 < batch ->
  exists sel, sublist sel cands /\ Forall (fun c => ca_HasDelivery c = false) sel /\
    let p := PlanEviction cands v batch in let n := Z.of_nat (length sel) in
    ep_Seqs p = map ca_Seq sel /\ ep_FreedBytes p = sizes sel /\ n <= batch /\
    (forall pre c post, sel = pre ++ c :: post -> wantAge v c = true \/
       1 < rv_Msgs v - Z.of_nat (length pre) /\ violatesAfter (Z.of_nat (length pre)) (sizes pre) v = true) /\
    (StronglySorted by_age cands -> n < batch -> forall c, c ∈ cands -> wantAge v c = true -> ca_HasDelivery c = false -> c ∈ sel) /\
    (n < batch -> rv_Msgs v - n <= 1 \/ violatesAfter n (sizes sel) v = false \/ sel = free_of_pins cands) /\
    ep_More p = (n =? batch) && violatesAfter n (sizes sel) v.
Proof.
  intros Hpos Hb. unfold PlanEviction. rewrite (proj2 (Z.leb_gt batch 0)) by done.
  destruct (evict_walked v batch (excess_of v) (need_of v) cands no_plan Hpos) as [sel [H1 H2 H3 H4 H5 H6 H7 H8]]; [done|].
  exists sel. split; [done|]. split; [done|]. set (p := evict _ _ _ _ _ _) in *. simpl in *.
  assert (Hn : picked p = Z.of_nat (length sel)) by (unfold picked; rewrite H3; by rewrite length_map).
  assert (Hsub : forall l post, sel = l ++ post -> 0 <= sizes l).
  { intros l post Hl. apply sizes_nonneg, Forall_forall. intros c Hc. rewrite Forall_forall in Hpos. apply Hpos.
    eapply elem_of_submseteq; [|by apply sublist_submseteq]. rewrite Hl. apply elem_of_app. by left. }
  rewrite Hn in *. rewrite Z.add_0_l in H4. split_and!; try done.
  - intros pre c post Hsel. destruct (H6 _ _ _ Hsel) as [?|[Hm Hask]]; [by left|]. right. split; [done|].
    apply violates_asks; [lia|by eapply Hsub|done].
  - intros Hlt. destruct (H8 Hlt) as [?|[[He Hne]|?]]; [by left| |by right; right]. right. left. apply not_true_iff_false.
    rewrite <-violates_asks; [lia|lia|]. by apply (Hsub sel []); rewrite app_nil_r.
  - by rewrite H4.
Qed.

Definition sample_view : RetentionView := MkView 2 0 0 4 40 1000.
Definition sample_cands : list Candidate :=
  [MkCandidate 1 10 100 false; MkCandidate 2 10 200 true; MkCandidate 3 10 300 false; MkCandidate 4 10 400 false].

End Eviction.

(** ** The disk state machine *)

Module Disk.

Inductive DiskState : Set := DiskOK | DiskLow.

#[global] Instance DiskState_eq_dec : EqDecision DiskState.
Proof. solve_decision. Defined.

Record DiskPolicy : Set := MkDiskPolicy { dk_MinFree : Z; dk_Recover : spec_float; dk_Reserve : Z }.

Inductive DiskAction : Set := ReleaseReserve | RestoreReserve | RejectPublishes | AllowPublishes | Emit.

(** float64: conversion from an integer, product and order of IEEE 754 binary64. *)
Definition of_int64 (z : Z) : spec_float := binary_normalize 53 1024 z 0 false.
Definition fmul (x y : spec_float) : spec_float := SFmul 53 1024 x y.

Section Threshold.
(** [int64(x)] for an [x] that no int64 represents is implementation-specific. *)
Context (out_of_range : spec_float -> Z).

Definition to_int64 (x : spec_float) : Z :=
  match x with
  | S754_zero _ => 0
  | S754_finite s m e =>
      let a := if 0 <=? e then Z.shiftl (Zpos m) e else Z.shiftr (Zpos m) (- e) in
      let z := if s then - a else a in
      if (- 2 ^ 63 <=? z) && (z <? 2 ^ 63) then z else out_of_range x
  | _ => out_of_range x
  end.

Definition recoverThreshold (p : DiskPolicy) : Z :=
  let r := if SFltb (dk_Recover p) (of_int64 1) then of_int64 1 else dk_Recover p in
  let t := to_int64 (fmul (of_int64 (dk_MinFree p)) r) in
  if t <? dk_MinFree p then dk_MinFree p else t.

Definition enterActions (p : DiskPolicy) : list DiskAction :=
  (if 0 <? dk_Reserve p then [ReleaseReserve] else []) ++ [RejectPublishes; Emit].

Definition exitActions (p : DiskPolicy) : list DiskAction :=
  (if 0 <? dk_Reserve p then [RestoreReserve] else []) ++ [AllowPublishes; Emit].

Definition NextDiskState (cur : DiskState) (free : Z) (p : DiskPolicy) : DiskState * list DiskAction :=
  if dk_MinFree p <=? 0 then (cur, [])
  else match cur with
       | DiskOK => if free <? dk_MinFree p then (DiskLow, enterActions p) else (DiskOK, [])
       | DiskLow => if recoverThreshold p <=? free then (DiskOK, exitActions p) else (DiskLow, [])
       end.

(** *** Facts *)

(** What the actions do: the publish gate and the reserve file. *)
Record outside : Set := MkOutside { rejecting : bool; reserve : bool; emitted : nat }.

Definition act (o : outside) (a : DiskAction) : outside :=
  match a with
  | ReleaseReserve => MkOutside (rejecting o) false (emitted o)
  | RestoreReserve => MkOutside (rejecting o) true (emitted o)
  | RejectPublishes => MkOutside true (reserve o) (emitted o)
  | AllowPublishes => MkOutside false (reserve o) (emitted o)
  | Emit => MkOutside (rejecting o) (reserve o) (S (emitted o))
  end.

Definition reading (p : DiskPolicy) (x : DiskState * outside) (free : Z) : DiskState * outside :=
  let '(s, acts) := NextDiskState x.1 free p in (s, foldl act x.2 acts).

Lemma threshold_above p : dk_MinFree p <= recoverThreshold p.
Proof. unfold recoverThreshold. case_match; bool_prop; lia. Qed.

(** The outside agrees with the state. *)
Definition in_step (p : DiskPolicy) (x : DiskState * outside) : Prop :=
  rejecting x.2 = bool_decide (x.1 = DiskLow) /\ (0 < dk_Reserve p -> reserve x.2 = bool_decide (x.1 = DiskOK)).

Lemma reading_in_step p x free : in_step p x -> in_step p (reading p x free).
Proof.
  destruct x as [s o]. unfold in_step, reading, NextDiskState. intros [Hr Hs]. simpl in *.
  destruct (dk_MinFree p <=? 0); [done|].
  destruct s; [destruct (free <? dk_MinFree p)|destruct (recoverThreshold p <=? free)]; simpl; try done;
    unfold enterActions, exitActions; (destruct (Z.ltb_spec 0 (dk_Reserve p)); simpl; (split; [done|]); done || lia).
Qed.

(** Below the recovery threshold the machine only degrades, at or above the minimum
    it only recovers. *)
Lemma below_threshold p readings s o :
  Forall (fun f => f < recoverThreshold p) readings ->
  let '(s', o') := foldl (reading p) (s, o) readings in
  (s = DiskLow -> (s', o') = (s, o)) /\ (emitted o <= emitted o' <= S (emitted o))%nat /\ (s' = DiskOK -> (s', o') = (s, o)).
Proof.
  intros Hf. revert s o. induction Hf as [|f readings Hlt Hf IH]; intros s o; simpl; [split_and!; done || lia|].
  unfold reading at 2, NextDiskState. simpl. destruct (Z.leb_spec (dk_MinFree p) 0); [apply IH|]. destruct s.
  - destruct (Z.ltb_spec f (dk_MinFree p)); [|apply IH]. specialize (IH DiskLow (foldl act o (enterActions p))).
    destruct (foldl (reading p) _ readings) as [s' o']. destruct IH as (H1 & _ & _). specialize (H1 eq_refl) as [= -> ->].
    unfold enterActions. split_and!; try done; destruct (0 <? dk_Reserve p); simpl; lia.
  - rewrite (proj2 (Z.leb_gt _ _)) by lia. apply IH.
Qed.

Lemma above_minimum p readings s o :
  Forall (fun f => dk_MinFree p <= f) readings ->
  let '(s', o') := foldl (reading p) (s, o) readings in
  (s = DiskOK -> (s', o') = (s, o)) /\ (emitted o <= emitted o' <= S (emitted o))%nat.
Proof.
  intros Hf. revert s o. induction Hf as [|f readings Hle Hf IH]; intros s o; simpl; [split_and!; done || lia|].
  unfold reading at 2, NextDiskState. simpl. destruct (Z.leb_spec (dk_MinFree p) 0); [apply IH|]. destruct s.
  - rewrite (proj2 (Z.ltb_ge _ _)) by lia. apply IH.
  - destruct (recoverThreshold p <=? f); [|apply IH]. specialize (IH DiskOK (foldl act o (exitActions p))).
    destruct (foldl (reading p) _ readings) as [s' o']. destruct IH as (H1 & _). specialize (H1 eq_refl) as [= -> ->].
    unfold exitActions. split; [done|]. destruct (0 <? dk_Reserve p); simpl; lia.
Qed.

(** The disk guard does not flap and its outside agrees with it.  After any
    sequence of readings publishes are refused exactly in the low state and the
    reserve is present exactly in the other; readings that stay below the recovery
    threshold, or that stay at or above the minimum, announce at most one change,
    whatever they do around the other bound; and between the two nothing changes. *)
Lemma disk_hysteresis p readings x :
  in_step p x ->
  let y := foldl (reading p) x readings in
  in_step p y /\
  (Forall (fun f => f < recoverThreshold p) readings \/ Forall (fun f => dk_MinFree p <= f) readings ->
     (emitted x.2 <= emitted y.2 <= S (emitted x.2))%nat) /\
  (Forall (fun f => dk_MinFree p <= f < recoverThreshold p) readings -> y = x).
Proof.
  intros Hx. destruct x as [s o]. simpl. split_and!.
  - revert s o Hx. induction readings as [|f readings IH]; intros s o Hx; [done|]. simpl. destruct (reading p (s, o) f) as [s' o'] eqn:Hr.
    apply IH. rewrite <-Hr. by apply reading_in_step.
  - intros [Hf|Hf].
    + pose proof (below_threshold p readings s o Hf). destruct (foldl _ _ readings). simpl. tauto.
    + pose proof (above_minimum p readings s o Hf). destruct (foldl _ _ readings). simpl. tauto.
  - intros Hf.
    assert (Hlo : Forall (fun f => f < recoverThreshold p) readings) by (eapply Forall_impl; [exact Hf|]; simpl; lia).
    assert (Hhi : Forall (fun f => dk_MinFree p <= f) readings) by (eapply Forall_impl; [exact Hf|]; simpl; lia).
    pose proof (below_threshold p readings s o Hlo) as H1. pose proof (above_minimum p readings s o Hhi) as H2.
    destruct (foldl _ _ readings) as [s' o']. destruct s; [exact (proj1 H2 eq_refl)|exact (proj1 H1 eq_refl)].
Qed.

End Threshold.

(** 1 GiB, recovering a quarter above it. *)
Definition sample_policy : DiskPolicy := MkDiskPolicy 1073741824 (S754_finite false 5629499534213120 (-52)) 67108864.

End Disk.

(** ** The sweep *)

Module Retention.

Import Policy Eviction.

Definition defaultRetentionBatch : Z := 512.
Definition maxBlameHolders : Z := 64.

Record RetentionResult : Set := MkRetention {
  rr_Streams : Z;
  rr_Deleted : Z;
  rr_FreedBytes : Z;
  rr_BlockedCount : Z;
  rr_BlockedBytes : Z;
  rr_More : bool;
}.

Record retentionStreamCfg : Set := MkRetCfg {
  rc_name : string;
  rc_mode : string;
  rc_maxMsgs : Z;
  rc_maxBytes : Z;
  rc_maxAgeMs : Z;
  rc_msgs : Z;
  rc_bytes : Z;
  rc_expSeq : Z;
}.

(** A stream row LEFT JOINed with its statistics. *)
Definition retention_cfg (d : db) (s : stream_row) : retentionStreamCfg :=
  let t := query_row (has_key ss_stream (st_name s)) (stream_stats d) in
  MkRetCfg (st_name s) (st_retention s) (st_max_msgs s) (st_max_bytes s) (st_max_age_ms s)
    (default 0 (ss_msgs <$> t)) (default 0 (ss_bytes <$> t)) (default 0 (ss_expired_seq <$> t)).

Definition scanConfigs (d : db) : list retentionStreamCfg :=
  map (retention_cfg d) (order_by (fun a b => String.leb (st_name a) (st_name b)) (streams d)).

Definition pinned (d : db) (m : message) : bool :=
  existsb (fun r => bool_decide (d_stream r = m_stream m) && (d_seq r =? m_seq m)) (deliveries d).

Definition candidate_of (d : db) (m : message) : Candidate :=
  MkCandidate (m_seq m) (m_size m) (m_published_at m) (pinned d m).

Definition oldest_rows (name : string) (floor : option Z) (window : Z) (d : db) : list message :=
  limit window (order_by (fun a b => m_seq a <=? m_seq b)
    (where_ (fun m => on_stream name m && match floor with Some f => m_seq m <? f | None => true end) (messages d))).

(** [None]: a work queue without consumers, where nothing may be reaped. *)
Definition candidatesFor (cfg : retentionStreamCfg) (window : Z) (d : db) : option (list Candidate) :=
  if bool_decide (rc_mode cfg = RetentionWorkQueue) then
    floor ← min_of c_cursor_seq (where_ (fun c => bool_decide (c_stream c = rc_name cfg)) (consumers d));
    Some (map (candidate_of d) (oldest_rows (rc_name cfg) (Some floor) window d))
  else Some (map (candidate_of d) (oldest_rows (rc_name cfg) None window d)).

Fixpoint reap (batch : Z) (cands : list Candidate) (p : EvictionPlan) : EvictionPlan :=
  match cands with
  | [] => p
  | c :: rest =>
      if ca_HasDelivery c then reap batch rest (block c p)
      else if batch <=? picked p then p
      else reap batch rest (take_ c p)
  end.

Definition planWorkqueue (cands : list Candidate) (batch : Z) : EvictionPlan :=
  let p := reap batch cands no_plan in set_more (picked p =? batch) p.

Definition view_of (cfg : retentionStreamCfg) (nowMS : Z) : RetentionView :=
  MkView (rc_maxMsgs cfg) (rc_maxBytes cfg) (rc_maxAgeMs cfg) (rc_msgs cfg) (rc_bytes cfg) nowMS.

(** The plan of one stream; [None] when there is nothing to plan. *)
Definition plan_for (cfg : retentionStreamCfg) (batch nowMS : Z) (d : db) : option EvictionPlan :=
  cands ← candidatesFor cfg (batch * 2 + maxBlameHolders) d;
  Some (if bool_decide (rc_mode cfg = RetentionWorkQueue) then planWorkqueue cands batch
        else PlanEviction cands (view_of cfg nowMS) batch).

(** The guarded statement: the listed rows that no delivery pins. *)
Definition deletable (stream : string) (seqs : list Z) (d : db) (m : message) : bool :=
  on_stream stream m && bool_decide (m_seq m ∈ seqs) && negb (pinned d m).

Definition retentionDeleteBatch (stream : string) (seqs : list Z) : tx (Z * Z) :=
  d ← query id;
  _ ← exec (on_messages (delete_where (deletable stream seqs d)));
  mret (count (deletable stream seqs d) (messages d), sum_of m_size (deletable stream seqs d) (messages d)).

Definition watermark (highDel nowMS deleted freed : Z) (r : stats_row) : stats_row :=
  StatsRow (ss_stream r) (ss_msgs r - deleted) (ss_bytes r - freed) (Z.max (ss_expired_seq r) highDel)
    (if ss_expired_seq r <? highDel then nowMS else ss_expired_at r).

Definition updateWatermarks (stream : string) (highDel nowMS deleted freed : Z) : tx unit :=
  exec (on_stream_stats (update_where (has_key ss_stream stream) (watermark highDel nowMS deleted freed))).

Definition emitExpireEvent (nowMS : Z) (cfg : retentionStreamCfg) (deleted freed postMsgs postBytes : Z) : tx event :=
  commitEvent (Event nowMS "retention.expire" (nullStr (rc_name cfg)) None None None None None None None
    [("deleted", DInt deleted); ("freed", DInt freed); ("msgs_left", DInt postMsgs); ("bytes_left", DInt postBytes)]).

Definition blame_rows (stream : string) (highest : Z) (d : db) : list Holder :=
  map (fun r => MkHolder (d_consumer r) (d_seq r))
    (limit maxBlameHolders (order_by (fun a b => d_seq a <=? d_seq b)
      (where_ (fun r => bool_decide (d_stream r = stream) && (d_seq r <=? highest)) (deliveries d)))).

Definition emitBlockedEvent (nowMS : Z) (cfg : retentionStreamCfg) (highestBlockedSeq wouldFreeBytes : Z) : tx event :=
  holders ← query (blame_rows (rc_name cfg) highestBlockedSeq);
  match SelectBlame holders with
  | None => mret (blank_event 0 "")
  | Some blame =>
      oldest ← query (fun d => min_of m_published_at
                 (where_ (fun m => on_stream (rc_name cfg) m && (m_seq m <=? highestBlockedSeq)) (messages d)));
      let ageMS := match oldest with Some t => if t <? nowMS then nowMS - t else 0 | None => 0 end in
      commitEvent (Event nowMS "retention.blocked" (nullStr (rc_name cfg)) (nullStr (ho_Consumer blame)) None None None None None None
        [("blocking_seq", DInt (ho_Seq blame)); ("would_free_bytes", DInt wouldFreeBytes); ("age_ms", DInt ageMS)])
  end.

Definition sweepOne (batch nowMS : Z) (cfg : retentionStreamCfg) : tx (Z * Z * Z * Z * bool * list event) :=
  let batch := if batch <=? 0 then defaultRetentionBatch else batch in
  let view := view_of cfg nowMS in
  planned ← query (plan_for cfg batch nowMS);
  match planned with
  | None => mret (0, 0, 0, 0, false, [])
  | Some plan =>
      '(del, freed) ← (match ep_Seqs plan with
                       | [] => mret (0, 0)
                       | seqs => retentionDeleteBatch (rc_name cfg) seqs
                       end);
      _ ← (if (0 <? del) && (0 <? ep_HighestDeletedSeq plan)
           then updateWatermarks (rc_name cfg) (ep_HighestDeletedSeq plan) nowMS del freed else mret tt);
      let postMsgs := rv_Msgs view - del in
      let postBytes := rv_Bytes view - freed in
      let more := ep_More plan || ((del =? batch) && StillViolating postMsgs postBytes view) in
      expired ← (if 0 <? del then ev ← emitExpireEvent nowMS cfg del freed postMsgs postBytes; mret [ev] else mret []);
      blocked ← (if (0 <? ep_BlockedCount plan) && StillViolating postMsgs postBytes view
                 then ev ← emitBlockedEvent nowMS cfg (ep_HighestBlockedSeq plan) (ep_BlockedBytes plan); mret [ev] else mret []);
      mret (del, freed, ep_BlockedCount plan, ep_BlockedBytes plan, more, expired ++ blocked)
  end.

Definition RetentionCmd (batch now : Z) : tx (RetentionResult * list event) :=
  cfgs ← query scanConfigs;
  for_each cfgs (MkRetention 0 0 0 0 0 false, []) (fun cfg '(res, evs) =>
    '(del, freed, blockedN, blockedB, more, evs') ← sweepOne batch (UnixMilli now) cfg;
    mret (MkRetention (rr_Streams res + 1) (rr_Deleted res + del) (rr_FreedBytes res + freed) (rr_BlockedCount res + blockedN)
            (rr_BlockedBytes res + blockedB) (rr_More res || more), evs ++ evs')).

(** *** Facts *)

(** What the plans promise: candidates that are not pinned, and the highest of them. *)
Definition plan_ok (cands : list Candidate) (p : EvictionPlan) : Prop :=
  forall q, q ∈ ep_Seqs p -> q <= ep_HighestDeletedSeq p /\ exists c, c ∈ cands /\ ca_Seq c = q /\ ca_HasDelivery c = false.

Lemma plan_ok_block cands c p : plan_ok cands p -> plan_ok cands (block c p).
Proof. done. Qed.

Lemma plan_ok_take cands c p : plan_ok cands p -> c ∈ cands -> ca_HasDelivery c = false -> plan_ok cands (take_ c p).
Proof.
  intros Hp Hc Hd q Hq. simpl in *. apply elem_of_snoc in Hq as [Hq| ->].
  - destruct (Hp q Hq) as [Hle Hex]. split; [|done]. case_match; bool_prop; lia.
  - split; [case_match; bool_prop; lia|]. by exists c.
Qed.

Lemma evict_ok v batch excess need cands rest p :
  rest ⊆ cands -> plan_ok cands p -> plan_ok cands (evict v batch excess need rest p).
Proof.
  revert excess need p. induction rest as [|c rest IH]; intros excess need p Hsub Hp; simpl; [done|].
  assert (Hc : c ∈ cands) by (apply Hsub; left). assert (Hrest : rest ⊆ cands) by (intros x Hx; apply Hsub; by right).
  destruct (_ && negb (0 <? need)); [by apply IH|]. destruct (ca_HasDelivery c) eqn:Hd; [by apply IH|].
  destruct (_ && _); [done|]. destruct (_ =? batch); [by apply plan_ok_take|]. apply IH; [done|]. by apply plan_ok_take.
Qed.

Lemma reap_ok batch cands rest p : rest ⊆ cands -> plan_ok cands p -> plan_ok cands (reap batch rest p).
Proof.
  revert p. induction rest as [|c rest IH]; intros p Hsub Hp; simpl; [done|].
  assert (Hc : c ∈ cands) by (apply Hsub; left). assert (Hrest : rest ⊆ cands) by (intros x Hx; apply Hsub; by right).
  destruct (ca_HasDelivery c) eqn:Hd; [by apply IH|]. destruct (batch <=? picked p); [done|]. apply IH; [done|]. by apply plan_ok_take.
Qed.

Lemma no_plan_ok cands : plan_ok cands no_plan.
Proof. by intros q ?%elem_of_nil. Qed.

Lemma elem_of_oldest name floor window d m :
  m ∈ oldest_rows name floor window d -> m ∈ messages d /\ m_stream m = name /\ (forall f, floor = Some f -> m_seq m < f).
Proof.
  unfold oldest_rows. intros [Hp Hm]%elem_of_limit%elem_of_order_by%elem_of_where. unfold on_stream in Hp. bool_prop.
  destruct Hp as [Hs Hf]. split; [done|]. split; [done|]. intros f ->. by apply Z.ltb_lt.
Qed.

(** The messages a plan names: of the stream, not pinned, and in a work queue below
    every consumer's cursor. *)
Lemma plan_for_safe cfg batch nowMS d p q :
  plan_for cfg batch nowMS d = Some p -> q ∈ ep_Seqs p ->
  q <= ep_HighestDeletedSeq p /\
  exists m, m ∈ messages d /\ mkey m = (rc_name cfg, q) /\ pinned d m = false /\
    (rc_mode cfg = RetentionWorkQueue -> forall c, c ∈ consumers d -> c_stream c = rc_name cfg -> q < c_cursor_seq c).
Proof.
  unfold plan_for, candidatesFor. intros Hp Hq.
  case_bool_decide as Hm.
  - destruct (min_of _ _) as [floor|] eqn:Hfl; [|done]. simpl in Hp. injection Hp as <-.
    apply min_of_Some in Hfl as [Hfl _].
    destruct (reap_ok batch (map (candidate_of d) (oldest_rows (rc_name cfg) (Some floor) (batch * 2 + maxBlameHolders) d))
      _ no_plan ltac:(done) (no_plan_ok _) q Hq) as [Hle (c & Hc & <- & Hd)].
    split; [exact Hle|]. apply mapped_in in Hc as (m & -> & (Hin & Hs & Hf)%elem_of_oldest). exists m. simpl in *.
    split_and!; try done; [unfold mkey; by rewrite Hs|]. intros _ c Hc Hcs. specialize (Hf floor eq_refl).
    assert (floor <= c_cursor_seq c); [|lia]. apply Hfl, elem_of_where. by rewrite bool_decide_true.
  - simpl in Hp. injection Hp as <-. set (cands := map _ _) in *.
    assert (Hpe : plan_ok cands (PlanEviction cands (view_of cfg nowMS) batch)).
    { unfold PlanEviction. destruct (batch <=? 0); [apply no_plan_ok|]. by apply (evict_ok _ _ _ _ cands cands), no_plan_ok. }
    destruct (Hpe q Hq) as [Hle (c & Hc & <- & Hd)].
    split; [exact Hle|]. apply mapped_in in Hc as (m & -> & (Hin & Hs & _)%elem_of_oldest). exists m. simpl in *.
    split_and!; try done. unfold mkey. by rewrite Hs.
Qed.

Section Sweep.
Context `{Ids}.

Lemma pinned_row d m r : r ∈ deliveries d -> mkey m = (d_stream r, d_seq r) -> pinned d m = true.
Proof.
  intros Hr Hk. unfold pinned. apply existsb_exists. exists r. split; [by apply list_elem_of_In|]. injection Hk as Hs Hq.
  by rewrite Hs, Hq, bool_decide_true, Z.eqb_refl.
Qed.

(** Deleting messages that no row is on, with the statistics, keeps the invariant. *)
Lemma Inv_retire stream p f d k :
  Inv d k -> (forall m, m ∈ messages d -> p m = true -> m_stream m = stream /\ pinned d m = false) ->
  (forall r, ss_stream (f r) = ss_stream r /\ ss_msgs (f r) = ss_msgs r - count p (messages d) /\
     ss_bytes (f r) = ss_bytes r - sum_of m_size p (messages d)) ->
  Inv (on_stream_stats (update_where (has_key ss_stream stream) f) (on_messages (delete_where p) d)) k.
Proof.
  intros [IS IM IC ID] Hp Hf. split; simpl; [done| |done|].
  - apply MsgInv_delete; [|done|done]. intros m Hm Hpm. by apply Hp.
  - destruct ID as [Ik Ir Icon Imsg Ib]. split; try done. intros r Hr.
    pose proof (Imsg r Hr) as (m & Hk & Hm)%mapped_in. rewrite Hk. apply in_mapped, elem_of_delete. split; [|done].
    destruct (p m) eqn:Hpm; [|done]. destruct (Hp m Hm Hpm) as [_ Hno]. by rewrite (pinned_row d m r) in Hno.
Qed.

(** The rows a plan deletes; [None] deletes nothing. *)
Definition gone (o : option EvictionPlan) (stream : string) (m : message) : bool :=
  match o with
  | Some p => on_stream stream m && bool_decide (m_seq m ∈ ep_Seqs p)
  | None => false
  end.

(** One stream swept. *)
Record swept_stream (cfg : retentionStreamCfg) (o : option EvictionPlan) (w w' : world) : Prop := {
  ws_ok : world_ok w';
  ws_streams : streams (w_db w') = streams (w_db w);
  ws_seq : stream_seq (w_db w') = stream_seq (w_db w);
  ws_consumers : consumers (w_db w') = consumers (w_db w);
  ws_deliveries : deliveries (w_db w') = deliveries (w_db w);
  ws_messages : messages (w_db w') = delete_where (gone o (rc_name cfg)) (messages (w_db w));
}.

Lemma swept_events cfg o w w' f : swept_stream cfg o w w' -> swept_stream cfg o w (World (on_events f (w_db w')) (w_mem w')).
Proof. intros [? ? ? ? ? ?]. split; try done. by apply Inv_events. Qed.

Lemma deletable_gone cfg batch nowMS w p m :
  world_ok w -> plan_for cfg batch nowMS (w_db w) = Some p -> m ∈ messages (w_db w) ->
  deletable (rc_name cfg) (ep_Seqs p) (w_db w) m = gone (Some p) (rc_name cfg) m.
Proof.
  intros Hok Hp Hm. unfold deletable, gone. destruct (on_stream (rc_name cfg) m) eqn:Hs; [|done]. simpl.
  case_bool_decide as Hq; [|done]. simpl. destruct (plan_for_safe _ _ _ _ _ _ Hp Hq) as (_ & m' & Hm' & Hk & Hpin & _).
  assert (m' = m) as ->; [|by rewrite Hpin]. apply (key_unique mkey (messages (w_db w))); try done.
  - exact (inv_msg_key _ _ _ _ (inv_messages _ _ Hok)).
  - unfold on_stream in Hs. apply bool_decide_eq_true in Hs. unfold mkey in *. congruence.
Qed.

Lemma wp_emitBlocked nowMS cfg high bytes (Q : event -> world -> Prop) F w :
  (forall ev f, Q ev (World (on_events f (w_db w)) (w_mem w))) -> (forall ev, Q ev w) -> wp (emitBlockedEvent nowMS cfg high bytes) Q F w.
Proof. intros HQ HQ'. unfold emitBlockedEvent. wp_steps. destruct (SelectBlame _); wp_steps; auto. Qed.

Definition delete_planned (cfg : retentionStreamCfg) (p : EvictionPlan) : tx (Z * Z) :=
  match ep_Seqs p with [] => mret (0, 0) | seqs => retentionDeleteBatch (rc_name cfg) seqs end.

(** Nothing to delete leaves everything as it is. *)
Lemma swept_none cfg o w :
  world_ok w -> (forall m, m ∈ messages (w_db w) -> gone o (rc_name cfg) m = false) -> swept_stream cfg o w w.
Proof. intros Hok Hg. split; try done. symmetry. rewrite delete_omap. apply omap_id. intros m Hm. by rewrite Hg. Qed.

Lemma delete_planned_wp cfg batch nowMS p w :
  world_ok w -> plan_for cfg batch nowMS (w_db w) = Some p ->
  wp (delete_planned cfg p)
     (fun '(del, freed) w' => del = count (gone (Some p) (rc_name cfg)) (messages (w_db w)) /\
        freed = sum_of m_size (gone (Some p) (rc_name cfg)) (messages (w_db w)) /\
        (del = 0 -> w' = w) /\ (0 < del -> w' = World (on_messages (delete_where (gone (Some p) (rc_name cfg))) (w_db w)) (w_mem w)))
     (fun _ _ => False) w.
Proof.
  intros Hok Hp. unfold delete_planned.
  assert (Hext : forall m, m ∈ messages (w_db w) -> deletable (rc_name cfg) (ep_Seqs p) (w_db w) m = gone (Some p) (rc_name cfg) m)
    by (intros m Hm; by eapply deletable_gone).
  destruct (ep_Seqs p) as [|q seqs] eqn:Hs.
  - assert (Hno : forall m : message, m ∈ messages (w_db w) -> gone (Some p) (rc_name cfg) m = false).
    { intros m _. unfold gone. rewrite Hs, (bool_decide_false (_ ∈ [])) by apply not_elem_of_nil. apply andb_false_r. }
    wp_steps. rewrite (proj2 (count_0 _ _)), sum_of_0 by done. by split_and!.
  - unfold retentionDeleteBatch. wp_steps. change (id (w_db w)) with (w_db w). rewrite (count_ext _ _ _ Hext), (sum_of_ext _ _ _ _ Hext).
    assert (Hm : delete_where (deletable (rc_name cfg) (q :: seqs) (w_db w)) (messages (w_db w)) =
                 delete_where (gone (Some p) (rc_name cfg)) (messages (w_db w))) by by apply delete_where_ext.
    destruct w as [d m]. unfold on_messages. simpl in *. rewrite Hm. split_and!; try done.
    intros Hz. rewrite delete_omap, omap_id; [by destruct d|]. intros x Hx. by rewrite (proj1 (count_0 _ _) Hz).
Qed.

Lemma sweepOne_wp batch nowMS cfg w :
  world_ok w ->
  let b := if batch <=? 0 then defaultRetentionBatch else batch in
  let o := plan_for cfg b nowMS (w_db w) in
  wp (sweepOne batch nowMS cfg)
     (fun '(del, freed, _, _, _, _) w' => swept_stream cfg o w w' /\ del = count (gone o (rc_name cfg)) (messages (w_db w)) /\
        freed = sum_of m_size (gone o (rc_name cfg)) (messages (w_db w)))
     (fun _ _ => False) w.
Proof.
  intros Hok b o. unfold sweepOne. fold b. apply wp_bind, wp_query. fold o. destruct o as [p|] eqn:Ho.
  2: { wp_steps. split; [by apply swept_none|]. split; symmetry; [by apply count_0|by apply sum_of_0]. }
  apply wp_bind. eapply wp_mono; [by apply (delete_planned_wp cfg b nowMS p w)| |done].
  intros [del freed] w1 (Hdel & Hfreed & Hzero & Hpos). apply wp_bind.
  assert (Hsw : wp (if (0 <? del) && (0 <? ep_HighestDeletedSeq p)
                    then updateWatermarks (rc_name cfg) (ep_HighestDeletedSeq p) nowMS del freed else mret tt)
            (fun _ w2 => swept_stream cfg (Some p) w w2) (fun _ _ => False) w1).
  { destruct (Z.ltb_spec 0 del) as [Hd|Hd]; simpl.
    - rewrite (Hpos Hd). rewrite Hdel in Hd.
      assert (Hhigh : 0 < ep_HighestDeletedSeq p).
      { unfold count in Hd. destruct (where_ _ _) as [|m l] eqn:Hw; [simpl in Hd; lia|].
        assert (Hin : m ∈ where_ (gone (Some p) (rc_name cfg)) (messages (w_db w))) by (rewrite Hw; left).
        apply elem_of_where in Hin as [Hg Hm]. simpl in Hg. bool_prop. destruct Hg as [_ Hq].
        destruct (plan_for_safe _ _ _ _ _ _ Ho Hq) as [Hle _].
        destruct (inv_msg_seq _ _ _ _ (inv_messages _ _ Hok) m Hm) as (n & _ & Hb). lia. }
      rewrite (proj2 (Z.ltb_lt _ _) Hhigh). unfold updateWatermarks. wp_steps. split; try done. simpl.
      apply (Inv_retire (rc_name cfg) (gone (Some p) (rc_name cfg))); [done| |].
      + intros m Hm Hg. pose proof (deletable_gone cfg b nowMS w p m Hok Ho Hm) as Hdg. rewrite Hg in Hdg.
        unfold deletable, on_stream in Hdg. bool_prop. tauto.
      + intros r. simpl. rewrite Hdel, Hfreed. done.
    - wp_steps. assert (del = 0) as Hz by (pose proof (count_nonneg (gone (Some p) (rc_name cfg)) (messages (w_db w))); lia).
      rewrite (Hzero Hz). apply swept_none; [done|]. apply count_0. by rewrite <-Hdel. }
  eapply wp_mono; [exact Hsw| |done]. intros [] w2 Hw2.
  apply wp_bind. eapply (wp_mono _ (fun _ w3 => swept_stream cfg (Some p) w w3) _ (fun _ _ => False)); [| |done].
  { destruct (0 <? del); [unfold emitExpireEvent|]; wp_steps; [by apply swept_events|done]. }
  intros expired w3 Hw3. apply wp_bind. eapply (wp_mono _ (fun _ w4 => swept_stream cfg (Some p) w w4) _ (fun _ _ => False)); [| |done].
  { destruct ((0 <? ep_BlockedCount p) && _); [apply wp_bind, wp_emitBlocked; intros; wp_steps|wp_steps]; [by apply swept_events|done|done]. }
  intros blocked w4 Hw4. wp_steps. done.
Qed.

(** *** All streams *)

(** A plan reads only its stream's messages. *)
Lemma plan_for_local cfg b nowMS d d' :
  deliveries d' = deliveries d -> consumers d' = consumers d ->
  where_ (on_stream (rc_name cfg)) (messages d') = where_ (on_stream (rc_name cfg)) (messages d) ->
  plan_for cfg b nowMS d' = plan_for cfg b nowMS d.
Proof.
  intros Hd Hc Hm. unfold plan_for, candidatesFor.
  assert (Hrows : forall floor window, map (candidate_of d') (oldest_rows (rc_name cfg) floor window d') =
            map (candidate_of d) (oldest_rows (rc_name cfg) floor window d)).
  { intros floor window. unfold oldest_rows. rewrite !where_where, Hm. apply map_ext. intros m. unfold candidate_of, pinned. by rewrite Hd. }
  rewrite Hc. case_bool_decide; [|by rewrite Hrows]. destruct (min_of _ _); [|done]. simpl. by rewrite Hrows.
Qed.

(** The messages the plans of the given streams name. *)
Definition gone_any (b nowMS : Z) (d : db) (cfgs : list retentionStreamCfg) (m : message) : bool :=
  existsb (fun cfg => gone (plan_for cfg b nowMS d) (rc_name cfg) m) cfgs.

Definition evicted (b nowMS : Z) (d : db) : message -> bool := gone_any b nowMS d (scanConfigs d).

Lemma gone_stream o name m : gone o name m = true -> m_stream m = name.
Proof. destruct o; simpl; [|done]. unfold on_stream. bool_prop. tauto. Qed.

Lemma gone_any_stream b nowMS d cfgs m : gone_any b nowMS d cfgs m = true -> m_stream m ∈ map rc_name cfgs.
Proof.
  unfold gone_any. rewrite existsb_exists. intros (cfg & Hc & ->%gone_stream). apply in_mapped. by apply list_elem_of_In.
Qed.

Record retention_state (b nowMS : Z) (w w' : world) (pre : list retentionStreamCfg) (res : RetentionResult) : Prop := {
  rs_ok : world_ok w';
  rs_streams : streams (w_db w') = streams (w_db w);
  rs_seq : stream_seq (w_db w') = stream_seq (w_db w);
  rs_consumers : consumers (w_db w') = consumers (w_db w);
  rs_deliveries : deliveries (w_db w') = deliveries (w_db w);
  rs_messages : messages (w_db w') = delete_where (gone_any b nowMS (w_db w) pre) (messages (w_db w));
  rs_deleted : rr_Deleted res = count (gone_any b nowMS (w_db w) pre) (messages (w_db w));
  rs_freed : rr_FreedBytes res = sum_of m_size (gone_any b nowMS (w_db w) pre) (messages (w_db w));
}.

(** The streams before it did not touch the rows of the next one. *)
Lemma others_untouched b nowMS d pre name t :
  name ∉ map rc_name pre -> where_ (on_stream name) (delete_where (gone_any b nowMS d pre) t) = where_ (on_stream name) t.
Proof.
  intros Hn. induction t as [|m t IH]; [done|]. unfold delete_where, where_ in *. simpl.
  destruct (gone_any b nowMS d pre m) eqn:Hg; simpl; [|by destruct (on_stream name m); rewrite IH].
  apply gone_any_stream in Hg. unfold on_stream at 2. rewrite bool_decide_false by congruence. exact IH.
Qed.

Lemma retention_step batch nowMS w w1 pre cfg res w2 del freed res' :
  let b := if batch <=? 0 then defaultRetentionBatch else batch in
  rc_name cfg ∉ map rc_name pre -> retention_state b nowMS w w1 pre res ->
  swept_stream cfg (plan_for cfg b nowMS (w_db w1)) w1 w2 ->
  del = count (gone (plan_for cfg b nowMS (w_db w1)) (rc_name cfg)) (messages (w_db w1)) ->
  freed = sum_of m_size (gone (plan_for cfg b nowMS (w_db w1)) (rc_name cfg)) (messages (w_db w1)) ->
  rr_Deleted res' = rr_Deleted res + del -> rr_FreedBytes res' = rr_FreedBytes res + freed ->
  retention_state b nowMS w w2 (pre ++ [cfg]) res'.
Proof.
  intros b Hn [_ S1 Q1 C1 D1 M1 R1 F1] [Hok S2 Q2 C2 D2 M2] -> -> HR HF.
  assert (Hp : plan_for cfg b nowMS (w_db w1) = plan_for cfg b nowMS (w_db w)).
  { apply plan_for_local; [done|done|]. rewrite M1. by apply others_untouched. }
  rewrite Hp in *. set (o := plan_for cfg b nowMS (w_db w)) in *.
  assert (Hany : forall m, gone_any b nowMS (w_db w) (pre ++ [cfg]) m = gone_any b nowMS (w_db w) pre m || gone o (rc_name cfg) m).
  { intros m. unfold gone_any. rewrite existsb_app. simpl. by rewrite orb_false_r. }
  assert (Hdis : forall m, m ∈ messages (w_db w) -> gone_any b nowMS (w_db w) pre m = true -> gone o (rc_name cfg) m = false).
  { intros m _ Hg%gone_any_stream. apply not_true_iff_false. intros Hg'%gone_stream. congruence. }
  assert (Hand : forall m, m ∈ messages (w_db w) -> gone_any b nowMS (w_db w) pre m && gone o (rc_name cfg) m = false).
  { intros m Hm. destruct (gone_any _ _ _ _ m) eqn:Hg; [|done]. simpl. by apply Hdis. }
  split; try congruence.
  - rewrite M2, M1, delete_where_twice. apply delete_where_ext. intros m _. by rewrite Hany.
  - rewrite HR, R1, M1, count_delete, (proj2 (count_0 _ _) Hand), Z.sub_0_r, <-count_or_disjoint by done. apply count_ext. auto.
  - rewrite HF, F1, M1, sum_of_delete, (sum_of_0 _ _ _ Hand), Z.sub_0_r, <-sum_of_or_disjoint by done. apply sum_of_ext. auto.
Qed.

Lemma scan_names d : NoDup (map st_name (streams d)) -> NoDup (map rc_name (scanConfigs d)).
Proof. intros Hnd. unfold scanConfigs. rewrite map_map. simpl. by apply (key_order_by st_name). Qed.

Lemma RetentionCmd_wp batch now w :
  world_ok w ->
  let b := if batch <=? 0 then defaultRetentionBatch else batch in
  wp (RetentionCmd batch now)
     (fun '(res, _) w' => retention_state b (UnixMilli now) w w' (scanConfigs (w_db w)) res) (fun _ _ => False) w.
Proof.
  intros Hok b. unfold RetentionCmd. apply wp_bind, wp_query.
  pose proof (scan_names _ (inv_str_key _ _ (inv_streams _ _ Hok))) as Hnd. set (cfgs := scanConfigs (w_db w)) in *.
  apply (wp_for_each _ _ _ (fun rest '(res, _) w' => exists pre, cfgs = pre ++ rest /\ retention_state b (UnixMilli now) w w' pre res)).
  - exists []. split; [done|]. split; try done; simpl.
    + symmetry. rewrite delete_omap. by apply omap_id.
    + symmetry. by apply count_0.
    + symmetry. by apply sum_of_0.
  - intros cfg rest [res evs] w1 (pre & Hpre & Hst). wp_steps.
    eapply wp_mono; [apply sweepOne_wp; exact (rs_ok _ _ _ _ _ _ Hst)| |done].
    intros [[[[[del freed] bn] bb] more] evs'] w2 (Hsw & Hdel & Hfreed). wp_steps. exists (pre ++ [cfg]).
    rewrite <-app_assoc. split; [done|]. eapply retention_step; try done.
    rewrite Hpre, map_app in Hnd. apply NoDup_app in Hnd as (_ & Hd & _). intros Hin. apply (Hd _ Hin). left.
  - intros [res evs] w' (pre & Hpre & Hst). rewrite app_nil_r in Hpre. by rewrite Hpre.
Qed.

(** C19: A retention sweep deletes exactly the messages the plans of the streams
    name, in one transaction that always succeeds; no message a delivery row is on,
    so nothing pending loses its message; from a work queue only messages below the
    cursor of every consumer, so none that a consumer has yet to see.  Consumers,
    pending rows and counters stay, the statistics are exact and the report is what
    was deleted. *)
Theorem retention_effect batch now w :
  world_ok w ->
  let dead := evicted (if batch <=? 0 then defaultRetentionBatch else batch) (UnixMilli now) (w_db w) in
  wp (RetentionCmd batch now)
     (fun '(res, _) w' => world_ok w' /\ streams (w_db w') = streams (w_db w) /\ stream_seq (w_db w') = stream_seq (w_db w) /\
        consumers (w_db w') = consumers (w_db w) /\ deliveries (w_db w') = deliveries (w_db w) /\
        messages (w_db w') = delete_where dead (messages (w_db w)) /\
        rr_Deleted res = count dead (messages (w_db w)) /\ rr_FreedBytes res = sum_of m_size dead (messages (w_db w)) /\
        forall m, m ∈ messages (w_db w) -> dead m = true ->
          pinned (w_db w) m = false /\
          forall s, s ∈ streams (w_db w) -> st_name s = m_stream m -> st_retention s = RetentionWorkQueue ->
            forall c, c ∈ consumers (w_db w) -> c_stream c = m_stream m -> m_seq m < c_cursor_seq c)
     (fun _ _ => False) w.
Proof.
  intros Hok dead. eapply wp_mono; [by apply RetentionCmd_wp| |done].
  intros [res evs] w' [H1 H2 H3 H4 H5 H6 H7 H8]. split_and!; try done. intros m Hm Hdead.
  unfold dead, evicted, gone_any in Hdead. rewrite existsb_exists in Hdead. destruct Hdead as (cfg & Hcfg & Hg).
  apply list_elem_of_In in Hcfg. pose proof (gone_stream _ _ _ Hg) as Hs. destruct (plan_for cfg _ _ _) as [p|] eqn:Hp; [|done].
  simpl in Hg. bool_prop. destruct Hg as [_ Hq]. destruct (plan_for_safe _ _ _ _ _ _ Hp Hq) as (_ & m' & Hm' & Hk & Hpin & Hfloor).
  assert (m' = m) as ->.
  { apply (key_unique mkey (messages (w_db w))); try done; [exact (inv_msg_key _ _ _ _ (inv_messages _ _ Hok))|].
    rewrite Hk. unfold mkey. congruence. }
  split; [done|]. intros s Hsin Hsn Hret c Hc Hcs. apply Hfloor; [|done|congruence].
  unfold scanConfigs in Hcfg. apply mapped_in in Hcfg as (s' & -> & Hs'%elem_of_order_by). simpl in *.
  assert (s' = s) as ->; [|done]. apply (key_unique st_name (streams (w_db w))); try done; [exact (inv_str_key _ _ (inv_streams _ _ Hok))|congruence].
Qed.

End Sweep.

Import Samples.

(** A stream bounded to one message. *)
Definition bounded : world :=
  World (on_streams (update_where (fun _ => true) (fun r => StreamRow (st_name r) (st_subjects r) "limits" 1 0 0 1048576 "old" 0 0))
    (w_db base)) (w_mem base).

Lemma bounded_ok : world_ok bounded.
Proof.
  apply Inv_streams; [exact base_ok|]. destruct (inv_streams _ _ base_ok) as [Hk Hs]. split.
  - by rewrite (key_update st_name).
  - intros r (r0 & Hr0 & ->)%elem_of_update. simpl. destruct (Hs r0 Hr0) as [_ Hq]. by split.
Qed.

Definition order : PublishReq.PublishReq := PublishReq.MkPublishReq "orders.created" [] "{}" "" "".

Definition two_stored : world :=
  fst (Publish.publishWriteCmd DefaultLimits "orders" order 8000000
    (fst (Publish.publishWriteCmd DefaultLimits "orders" order 7000000 bounded))).

Lemma two_stored_ok : world_ok two_stored.
Proof.
  unfold two_stored. destruct (Publish.publishWriteCmd _ _ order _ bounded) as [w1 [r1|e]] eqn:H1; [|vm_compute in H1; discriminate].
  assert (Hok1 : world_ok w1) by (eapply (Publish.publish_keeps DefaultLimits); [exact bounded_ok|exact H1]). simpl.
  assert (Hrun : is_ok (Publish.publishWriteCmd DefaultLimits "orders" order 8000000 (w1, Ok r1).1).2 = true)
    by (rewrite <-H1; vm_compute; reflexivity).
  apply ran in Hrun as (w2 & r2 & H2). simpl in H2. rewrite H2. simpl. eapply (Publish.publish_keeps DefaultLimits); [exact Hok1|exact H2].
Qed.

Lemma retention_effect_witness :
  exists w' res evs, RetentionCmd 0 9000000 two_stored = (w', Ok (res, evs)) /\ world_ok w' /\ rr_Deleted res = 1.
Proof.
  destruct (ran (RetentionCmd 0 9000000 two_stored) ltac:(vm_compute; reflexivity)) as (w' & [res evs] & Hrun).
  exists w', res, evs. split; [exact Hrun|].
  pose proof (wp_run _ _ _ _ _ _ (retention_effect 0 9000000 two_stored two_stored_ok) Hrun) as (Hok & _ & _ & _ & _ & _ & Hdel & _).
  split; [exact Hok|]. rewrite Hdel. vm_compute. reflexivity.
Defined.

End Retention.
