(* ===== verification/System.v ===== *)
(** * The daemon: the store's commands under the engine

    The commands of the store as the values [enqueue] hands to the engine, the
    promise each makes to it, and what the promises give together: every state
    the daemon commits keeps the store's invariant. *)

From S2P Require Export Writer Purge Retention Journal.

Module System.

Import Policy Writer.

(** ** Commands draw identifiers and never give them back *)

Definition grows {A} (m : tx A) : Prop := forall w, (minted (w_mem w) <= minted (w_mem (m w).1))%nat.

Lemma grows_ret {A} (a : A) : grows (mret a).
Proof. intros w. simpl. lia. Qed.

Lemma grows_fail {A} e : grows (fail (A := A) e).
Proof. intros w. simpl. lia. Qed.

Lemma grows_lift {A} (r : result A) : grows (lift r).
Proof. intros w. simpl. lia. Qed.

Lemma grows_query {A} (q : db -> A) : grows (query q).
Proof. intros w. simpl. lia. Qed.

Lemma grows_query_or {A} e (q : db -> option A) : grows (query_or e q).
Proof. intros w. unfold query_or. destruct (q (w_db w)); simpl; lia. Qed.

Lemma grows_exec f : grows (exec f).
Proof. intros w. simpl. lia. Qed.

Lemma grows_bind {A B} (m : tx A) (f : A -> tx B) : grows m -> (forall a, grows (f a)) -> grows (m ≫= f).
Proof.
  intros Hm Hf w. unfold mbind, tx_bind. specialize (Hm w). destruct (m w) as [w' [a|e]]; [|done]. simpl in Hm.
  specialize (Hf a w'). lia.
Qed.

Lemma grows_for_each {A S} (l : list A) (s : S) body : (forall a s, grows (body a s)) -> grows (for_each l s body).
Proof.
  intros Hb. revert s. induction l as [|a l IH]; intros s; simpl; [apply grows_ret|]. by apply grows_bind.
Qed.

Lemma grows_marking {A} (m : tx A) : grows m -> grows (marking m).
Proof. intros Hm w. unfold marking. specialize (Hm w). by destruct (m w) as [w' [a|e]]. Qed.

Lemma grows_mint `{Ids} : grows mint.
Proof. intros w. simpl. lia. Qed.

Lemma grows_draw `{Ids} : grows draw_trace.
Proof. intros w. simpl. lia. Qed.

Lemma grows_commitEvent e : grows (commitEvent e).
Proof. apply grows_bind; [apply grows_exec|intros; apply grows_ret]. Qed.

Lemma grows_or_deferred {A} (m : tx A) : grows m -> grows (StoreSweep.or_deferred m).
Proof.
  intros Hm w. unfold StoreSweep.or_deferred. specialize (Hm w). destruct (m w) as [w' [a|e]]; [done|]. by destruct (bool_decide _).
Qed.

Create HintDb grows.
#[export] Hint Resolve grows_ret grows_fail grows_lift grows_query grows_query_or grows_exec grows_mint grows_draw
  grows_commitEvent : grows.

Ltac grow :=
  repeat match goal with
  | |- grows (_ ≫= _) => apply grows_bind; [|intros ?]
  | |- grows (for_each _ _ _) => apply grows_for_each; intros ? ?
  | |- grows (marking _) => apply grows_marking
  | |- grows (StoreSweep.or_deferred _) => apply grows_or_deferred
  | |- grows (match ?x with _ => _ end) => destruct x
  | |- grows (let '(_, _) := ?x in _) => destruct x
  | |- _ => solve [eauto with grows]
  end.

Section Growth.
Context `{Ids}.

Lemma grows_publishTxWithConfig limits now lc r o : grows (Publish.publishTxWithConfig limits now lc r o).
Proof.
  unfold Publish.publishTxWithConfig, Publish.findDedupHit, Publish.publish_new, Publish.allocSeq, Publish.ResolveTraceID,
    Publish.insert_message, Publish.bump_stats. grow.
Qed.

Lemma grows_publish limits stream r now : grows (Publish.publishWriteCmd limits stream r now).
Proof.
  unfold Publish.publishWriteCmd, Publish.publishTx, Publish.loadStreamConfig. grow. apply grows_publishTxWithConfig.
Qed.

Lemma grows_batch limits stream reqs now : grows (Publish.batchPublishCmd limits stream reqs now).
Proof. unfold Publish.batchPublishCmd, Publish.loadStreamConfig. grow. apply grows_publishTxWithConfig. Qed.

Lemma grows_topUp_loop stream consumer set generation bound rows s :
  grows (Fetch.topUp_loop stream consumer set generation bound rows s).
Proof.
  revert s. induction rows as [|m rows IH]; intros s; simpl; [grow|]. unfold Fetch.insert_delivery.
  destruct (negb _); [apply IH|]. destruct (_ <=? _); [grow|]. apply grows_bind; [grow|intros; apply IH].
Qed.

Lemma grows_flow key nowMS interval : grows (Fetch.flowBlockedDue key nowMS interval).
Proof. intros w. unfold Fetch.flowBlockedDue. destruct (match flow (w_mem w) !! key with Some _ => _ | None => _ end); simpl; lia. Qed.
#[local] Hint Resolve grows_topUp_loop grows_flow : grows.

Lemma grows_fetch s n batch maxBytes limits now : grows (Fetch.fetchCmd s n batch maxBytes limits now).
Proof.
  unfold Fetch.fetchCmd, Fetch.loadConsumerTx, Fetch.countDeliveries, Fetch.topUp, Fetch.claimReady, Fetch.applyClaim. grow.
Qed.

Lemma grows_dead limits dlq budget d now : grows (DeadSink.Dead limits dlq budget d now).
Proof.
  unfold DeadSink.Dead, DeadSink.loadDeadPolicy, DeadSink.deadEvent, DeadSink.dead_copy, DeadSink.ensureDLQStream, DeadSink.insert_stream,
    insertEvent, Publish.allocSeq, DeadSink.clampPublishedAt, Publish.insert_message, Publish.bump_stats. grow.
Qed.
#[local] Hint Resolve grows_dead : grows.

Lemma grows_limiter key : grows (StoreSettle.get_limiter key).
Proof. intros w. simpl. lia. Qed.

Lemma grows_put_limiter key lim : grows (StoreSettle.put_limiter key lim).
Proof. intros w. simpl. lia. Qed.
#[local] Hint Resolve grows_limiter grows_put_limiter : grows.

Lemma grows_settle env items now : grows (StoreSettle.SettleCmd env items now).
Proof.
  unfold StoreSettle.SettleCmd, StoreSettle.settle_step, StoreSettle.applyOne, StoreSettle.applyAction, StoreSettle.exec_one,
    StoreSettle.rejectionEvent. grow.
Qed.

Lemma grows_sweep env lim now : grows (StoreSweep.SweepCmd env lim now).
Proof. unfold StoreSweep.SweepCmd, StoreSweep.sweep_step, StoreSweep.timeoutEvent, StoreSweep.exec_rows. grow. Qed.

Lemma grows_retire env lim now : grows (StoreSweep.RetireCmd env lim now).
Proof. unfold StoreSweep.RetireCmd, StoreSweep.retire_step, StoreSweep.exec_rows. grow. Qed.

Lemma grows_sweepDedup name now : grows (Publish.sweepDedupCmd name now).
Proof. unfold Publish.sweepDedupCmd. grow. Qed.

Lemma grows_seek stream name to dryRun actor now : grows (ConsumerAdmin.seekCmd stream name to dryRun actor now).
Proof. unfold ConsumerAdmin.seekCmd, ConsumerAdmin.resolveStartPosition, ConsumerAdmin.resolveTimeStart, ConsumerAdmin.streamBounds. grow. Qed.

Lemma grows_pause stream name paused actor now : grows (ConsumerAdmin.setPausedCmd stream name paused actor now).
Proof. unfold ConsumerAdmin.setPausedCmd. grow. Qed.

Lemma grows_forget key : grows (ConsumerAdmin.forget_flow key).
Proof. intros w. simpl. lia. Qed.
#[local] Hint Resolve grows_forget : grows.

Lemma grows_deleteConsumer stream name actor now : grows (ConsumerAdmin.deleteConsumerCmd stream name actor now).
Proof. unfold ConsumerAdmin.deleteConsumerCmd. grow. Qed.

Lemma grows_purge stream spec dryRun actor : grows (Purge.purgeCmd stream spec dryRun actor).
Proof.
  unfold Purge.purgeCmd, Purge.applyFastRange, Purge.applyScanPath, Purge.countRange, Purge.distinctDeliveryConsumers, Purge.cursorBounds, Purge.bump_all, Purge.delete_victim, Purge.adjustStats. grow.
Qed.

Lemma grows_retention batch now : grows (Retention.RetentionCmd batch now).
Proof.
  unfold Retention.RetentionCmd, Retention.sweepOne, Retention.retentionDeleteBatch, Retention.updateWatermarks,
    Retention.emitExpireEvent, Retention.emitBlockedEvent. grow.
Qed.

Lemma grows_trim c now : grows (Journal.TrimEvents c now).
Proof.
  assert (Hloop : forall fuel nowMS budget deleted, grows (Journal.trim_loop fuel c nowMS budget deleted)).
  { induction fuel as [|fuel IH]; intros nowMS budget deleted; simpl; [grow|].
    unfold Journal.trim_round, Journal.trimDeleteChunk. grow. }
  unfold Journal.TrimEvents. grow.
Qed.

Lemma grows_admin setting from to actor now : grows (Journal.adminActionCmd setting from to actor now).
Proof. unfold Journal.adminActionCmd. grow. Qed.

End Growth.

(** ** The engine under commands that keep the invariant *)

(** What the engine relies on: a command that succeeds re-establishes the store's
    invariant, no command gives identifiers back, and a solo command keeps it
    whether or not it succeeds. *)
Class Keeps `{Ids} {R} (c : Cmd R) : Prop := {
  keeps_ok : forall now w w' out, world_ok w -> cmd_Apply c now w = (w', Ok out) -> world_ok w';
  keeps_grows : forall now, grows (cmd_Apply c now);
  keeps_solo : forall body, cmd_Solo c = Some body -> forall now w, world_ok w -> world_ok (body now w).1;
}.

Section Engine.
Context `{Ids} {R : Type}.
Implicit Types (g : engine R) (r : request R) (batch : list (request R)).

Definition keeping (r : request R) : Prop := Keeps (rq_cmd r).

Definition sound g : Prop := world_ok (g_world g) /\ Forall keeping (g_sending g ++ waiting g).

(** Only the replies move. *)
Definition only_replies g g' : Prop := g' = set_replies (g_replies g') g.

Lemma only_refl g : only_replies g g.
Proof. by destruct g. Qed.

Lemma only_trans g1 g2 g3 : only_replies g1 g2 -> only_replies g2 g3 -> only_replies g1 g3.
Proof. unfold only_replies. intros -> ->. done. Qed.

Lemma only_close id a g g' : close_done id a g = Some g' -> only_replies g g'.
Proof. unfold close_done. case_bool_decide; [done|]. by intros [= <-]. Qed.

Lemma only_failAll batch why g g' : failAll batch why g = Some g' -> only_replies g g'.
Proof.
  revert g. induction batch as [|r batch IH]; intros g; simpl; [intros [= <-]; apply only_refl|].
  intros (g1 & H1%only_close & H2%IH)%bind_Some. by eapply only_trans.
Qed.

Lemma only_reply_all l g g' : reply_all l g = Some g' -> only_replies g g'.
Proof.
  revert g. induction l as [|[id res] l IH]; intros g; simpl; [intros [= <-]; apply only_refl|].
  intros (g1 & H1%only_close & H2%IH)%bind_Some. by eapply only_trans.
Qed.

(** The loop of a batch keeps the invariant in the transaction's view. *)
Lemma apply_loop_keeps dr now i batch a g :
  Forall keeping batch -> world_ok (ap_world a) ->
  match apply_loop dr now i batch a g with
  | Through a' g' => world_ok (ap_world a') /\ (minted (w_mem (ap_world a)) <= minted (w_mem (ap_world a')))%nat /\ only_replies g g'
  | Broken _ _ m g' => (minted (w_mem (ap_world a)) <= minted m)%nat /\ only_replies g g'
  | Panicked => True
  end.
Proof.
  revert i a g. induction batch as [|r batch IH]; intros i a g Hk Hok.
  { simpl. split_and!; [done|lia|apply only_refl]. }
  apply Forall_cons in Hk as [Hr Hk]. simpl. destruct (dr_savepoint dr i); [split; [lia|apply only_refl]|].
  pose proof (keeps_grows (Keeps := Hr) now (ap_world a)) as Hg.
  destruct (cmd_Apply (rq_cmd r) now (ap_world a)) as [w' [[res evs]|e]] eqn:Hrun; simpl in Hg.
  - destruct (dr_release dr i); [split; [done|apply only_refl]|].
    specialize (IH (S i) (MkApplied w' (ap_done a ++ [(rq_id r, res)]) (ap_events a ++ evs)) g Hk (keeps_ok (Keeps := Hr) _ _ _ _ Hok Hrun)).
    simpl in IH. destruct (apply_loop _ _ _ _ _ _); [|destruct IH; split; [lia|done]|done].
    destruct IH as (? & ? & ?). split_and!; [done|lia|done].
  - destruct (negb (IsCmdError e)); [split; [done|apply only_refl]|].
    destruct (dr_rollback_to dr i); [split; [done|apply only_refl]|]. destruct (dr_release dr i); [split; [done|apply only_refl]|].
    destruct (close_done _ _ g) as [g1|] eqn:Hcl; [|done]. apply only_close in Hcl.
    specialize (IH (S i) (MkApplied (World (w_db (ap_world a)) (w_mem w')) (ap_done a) (ap_events a)) g1 Hk (Inv_mono _ _ _ Hg Hok)).
    simpl in IH. destruct (apply_loop _ _ _ _ _ _).
    + destruct IH as (? & ? & ?). split_and!; [done|lia|by eapply only_trans].
    + destruct IH. split; [lia|by eapply only_trans].
    + done.
Qed.

(** What a commit leaves alone. *)
Record kept g g' : Prop := {
  kp_world : world_ok (g_world g');
  kp_sending : g_sending g' = g_sending g;
  kp_queue : g_queue g' = g_queue g;
  kp_pending : g_pending g' = g_pending g;
}.

Lemma kept_only g g1 g' : world_ok (g_world g1) -> g_sending g1 = g_sending g -> g_queue g1 = g_queue g -> g_pending g1 = g_pending g ->
  only_replies g1 g' -> kept g g'.
Proof. intros ? ? ? ? ->. by split. Qed.

(** Close a commit that only replies after [H]. *)
Ltac only_replied H := eapply kept_only; [| | | |exact H]; try done.

Lemma commitBatch_kept dr clk batch g g' :
  Forall keeping batch -> world_ok (g_world g) -> commitBatch dr clk batch g = Some g' -> kept g g'.
Proof.
  intros Hk Hok. unfold commitBatch. destruct (g_latched g) as [fe|].
  { intros Hf%only_failAll. only_replied Hf. }
  destruct (batchNow clk g) as [now g0] eqn:Hb. injection Hb as <- <-. simpl.
  destruct (dr_begin dr) as [e|]; [intros Hf%only_failAll; only_replied Hf|].
  pose proof (apply_loop_keeps dr (Z.max clk (g_lastNow g)) 0 batch (MkApplied (g_world g) [] []) (set_lastNow (Z.max clk (g_lastNow g)) g) Hk Hok) as Hl.
  destruct (apply_loop _ _ _ _ _ _) as [a g1|op e m g1|]; [| |done].
  - destruct Hl as (Hok' & Hm & ->). simpl in Hm. destruct (dr_commit dr) as [[e landed]|].
    + intros Hf%only_failAll. only_replied Hf. simpl. destruct landed; [done|]. by eapply Inv_mono.
    + intros (g2 & Hr%only_reply_all & [= <-])%bind_Some. rewrite fan_out_pump. rewrite Hr. by split.
  - destruct Hl as [Hm ->]. intros Hf%only_failAll. only_replied Hf. simpl. by eapply Inv_mono.
Qed.

Lemma commitSolo_kept clk r g g' : keeping r -> world_ok (g_world g) -> commitSolo clk r g = Some g' -> kept g g'.
Proof.
  intros Hk Hok. unfold commitSolo. destruct (cmd_Solo (rq_cmd r)) as [body|] eqn:Hs; [|intros Hc%only_close; only_replied Hc].
  destruct (batchNow clk g) as [now g0] eqn:Hb. injection Hb as <- <-. simpl.
  assert (Hw : world_ok (if g_rw_open g then body (Z.max clk (g_lastNow g)) (g_world g) else (g_world g, Err (Plain "sql: database is closed"))).1).
  { destruct (g_rw_open g); [|done]. by apply (keeps_solo (Keeps := Hk) _ Hs). }
  destruct (if g_rw_open g then _ else _) as [w' [[v evs]|e]]; simpl in Hw.
  - intros (g2 & Hr%only_close & [= <-])%bind_Some. rewrite fan_out_pump, Hr. by split.
  - intros Hc%only_close. only_replied Hc.
Qed.

Lemma sound_waiting q p g g' :
  world_ok (g_world g) -> Forall keeping (g_sending g ++ held p ++ q) -> kept (set_waiting q p g) g' -> sound g'.
Proof. intros _ Hf [Hw Hs Hq Hp]. split; [done|]. unfold waiting. rewrite Hs, Hq, Hp. done. Qed.

Lemma assemble_sound cfg l r q g g' :
  world_ok (g_world g) -> Forall keeping (g_sending g ++ r :: q) -> assemble cfg l r (set_waiting q None g) = Some g' -> sound g'.
Proof.
  intros Hok [Hs Hf]%Forall_app. apply Forall_cons in Hf as [Hr Hq]. unfold assemble, takeBatch. simpl.
  pose proof (fill_spec cfg [r] (cmd_Bytes (rq_cmd r)) (take (lk_ready l) q)) as Hfill.
  destruct (fill _ _ _ _) as [[batch next] rest]. destruct Hfill as (taken & -> & Htake & _).
  rewrite <-(take_drop (lk_ready l) q), Htake, !Forall_app in Hq. destruct Hq as [(Htk & Hn & Hre) Hdr].
  intros Hc%commitBatch_kept; [|by apply (Forall_cons_2 keeping)|done].
  eapply sound_waiting; [exact Hok| |exact Hc]. by rewrite !Forall_app.
Qed.

Lemma turn_sound cfg l g g' : sound g -> turn cfg l g = Some g' -> sound g'.
Proof.
  intros [Hok Hf] Ht. unfold turn in Ht. unfold waiting in Hf. destruct (g_pending g) as [r|] eqn:Hp; simpl in *; [|destruct (g_queue g) as [|r q] eqn:Hq].
  - destruct (isSolo (rq_cmd r)); [|by eapply assemble_sound]. rewrite !Forall_app, Forall_cons in Hf. destruct Hf as (Hs & Hr & Hq).
    apply commitSolo_kept in Ht; [|done|done]. eapply sound_waiting; [exact Hok| |exact Ht]. by rewrite !Forall_app.
  - injection Ht as <-. destruct (g_closing g); unfold sound, waiting; simpl; by rewrite Hp, Hq.
  - destruct (isSolo (rq_cmd r)); [|by eapply assemble_sound]. rewrite !Forall_app, Forall_cons in Hf. destruct Hf as (Hs & Hr & Hrest).
    apply commitSolo_kept in Ht; [|done|done]. eapply sound_waiting; [exact Hok| |exact Ht]. by rewrite !Forall_app.
Qed.

Lemma step_sound cfg g g' :
  (forall r, r ∈ g_sending g' -> r ∈ g_sending g \/ keeping r) -> sound g -> step cfg g g' -> sound g'.
Proof.
  intros Hnew Hs Hstep. pose proof Hs as [Hok Hf]. destruct Hstep as [r ctxDone g Hg Hid|r l l' g Hl Hq|r l l' g Hl|luck g g' Hx Ht|g].
  - split; [done|]. rewrite Forall_forall in Hf |- *. intros x Hx. unfold waiting in *. simpl in *.
    apply elem_of_app in Hx as [Hx|Hx]; [|apply Hf, elem_of_app; by right].
    destruct (Hnew x Hx) as [Hin|]; [|done]. apply Hf, elem_of_app. by left.
  - split; [done|]. unfold waiting in *. simpl. rewrite Hl in Hf. rewrite !Forall_app, Forall_cons in Hf. rewrite !Forall_app.
    rewrite Forall_singleton. tauto.
  - split; [done|]. unfold waiting in *. simpl. rewrite Hl in Hf. rewrite !Forall_app, Forall_cons in Hf. rewrite !Forall_app. tauto.
  - by eapply turn_sound.
  - exact Hs.
Qed.

End Engine.

(** ** The commands of the store *)

(** solo.go: what SQLite answers to the PRAGMAs is an argument. *)
Definition CheckpointPassive : string := "PASSIVE".
Definition CheckpointTruncate : string := "TRUNCATE".

Record CheckpointResult : Set := MkCheckpoint { cp_Busy : bool; cp_WALPages : Z; cp_Checkpointed : Z }.

Definition CheckpointSolo (wal_checkpoint : string -> result (Z * Z * Z)) (mode : string) : tx CheckpointResult :=
  if negb (bool_decide (mode = CheckpointTruncate)) && negb (bool_decide (mode = CheckpointPassive))
  then fail (Plain "checkpoint mode is neither PASSIVE nor TRUNCATE")
  else '(busy, wal, ckpt) ← lift (wal_checkpoint mode); mret (MkCheckpoint (negb (busy =? 0)) wal ckpt).

Definition maxVacuumPages : Z := Z.shiftl 1 16.

(** No row, or a row without columns, is a step that moved nothing. *)
Definition VacuumSolo (incremental_vacuum : Z -> result (option (option Z))) (pages : Z) : tx Z :=
  if (pages <=? 0) || (maxVacuumPages <? pages) then fail (E ErrBadRequest "vacuum pages")
  else row ← lift (incremental_vacuum pages);
       mret (match row with Some (Some freed) => freed | _ => 0 end).

(** What the settings of a store fix. *)
Record settings : Type := MkSettings {
  set_limits : Limits;
  set_consumerLimits : ConsumerLimits;
  set_settle : StoreSettle.SettleEnv;
  set_sweep : StoreSweep.SweepEnv;
  set_checkpoint : string -> result (Z * Z * Z);
  set_vacuum : Z -> result (option (option Z));
}.

(** The commands that deliver, settle, expire and look after stored messages. *)
Inductive op : Type :=
| OpPublish (stream : string) (r : PublishReq.PublishReq)
| OpPublishBatch (stream : string) (rs : list PublishReq.PublishReq)
| OpSweepDedup (stream : string)
| OpFetch (stream consumer : string) (batch maxBytes : Z)
| OpSettle (items : list StoreSettle.SettleItem)
| OpSweep (lim : Z)
| OpRetire (lim : Z)
| OpRetention (batch : Z)
| OpTrimEvents (c : Journal.TrimEventsCmd)
| OpSeek (stream consumer : string) (to : Start.StartPosition) (dryRun : bool) (actor : string)
| OpSetPaused (stream consumer : string) (paused : bool) (actor : string)
| OpDeleteConsumer (stream consumer actor : string)
| OpPurgeAll (stream actor : string)
| OpAdminAction (setting from to actor : string)
| OpCheckpoint (mode : string)
| OpVacuum (pages : Z).

(** The dynamic [Result] of a command. *)
Inductive reply : Type :=
| RPublish (a : Publish.Ack)
| RPublishBatch (l : list Publish.Ack)
| RSweepDedup (n : Z)
| RFetch (r : Fetch.fetchResult)
| RSettle (r : StoreSettle.SettleResult)
| RSweep (r : StoreSweep.SweepResult)
| RRetire (n : Z)
| RRetention (r : Retention.RetentionResult)
| RTrim (r : option Journal.TrimEventsResult)
| RSeek (r : ConsumerAdmin.SeekResult)
| RPaused
| RDeletedConsumer (pending inflight : Z)
| RPurge (r : Purge.PurgeImpact)
| RAdmin
| RCheckpoint (r : CheckpointResult)
| RVacuum (freed : Z).

Definition replying {A} (f : A -> reply) (m : tx (A * list event)) : tx (reply * list event) :=
  '(a, evs) ← m; mret (f a, evs).

(** The byte estimates the engine budgets a batch with. *)
Definition publish_Bytes (r : PublishReq.PublishReq) : Z :=
  slen (PublishReq.pr_Body r) + sumZ (map (fun kv => slen kv.1 + slen kv.2 + 4) (PublishReq.pr_Headers r)) + 256.
Definition batch_Bytes (rs : list PublishReq.PublishReq) : Z := sumZ (map publish_Bytes rs).

Section Commands.
Context `{Ids} (st : settings).

Definition plain_cmd {A} (kind : string) (bytes : Z) (f : A -> reply) (m : Z -> tx (A * list event)) : Cmd reply :=
  MkCmd kind (fun now => replying f (m now)) bytes None.

(** A solo command refuses to run inside a batch. *)
Definition solo_cmd {A} (kind : string) (f : A -> reply) (m : tx A) : Cmd reply :=
  MkCmd kind (fun _ => fail (CmdErr (Plain "Solo command must never run inside a batch"))) 0
    (Some (fun _ => a ← m; mret (f a, []))).

Definition command (o : op) : Cmd reply :=
  match o with
  | OpPublish s r => plain_cmd "msg.publish" (publish_Bytes r) RPublish (Publish.publishWriteCmd (set_limits st) s r)
  | OpPublishBatch s rs => plain_cmd "msg.publish.batch" (batch_Bytes rs) RPublishBatch (Publish.batchPublishCmd (set_limits st) s rs)
  | OpSweepDedup s => plain_cmd "dedup.sweep" 0 RSweepDedup (fun now => n ← Publish.sweepDedupCmd s now; mret (n, []))
  | OpFetch s c batch maxBytes =>
      plain_cmd "consumer.fetch" (batch * 256) RFetch (Fetch.fetchCmd s c batch maxBytes (set_consumerLimits st))
  | OpSettle items => plain_cmd "consumer.settle" (Z.of_nat (length items) * 200) RSettle (StoreSettle.SettleCmd (set_settle st) items)
  | OpSweep lim => plain_cmd "consumer.sweep" 0 RSweep (StoreSweep.SweepCmd (set_sweep st) lim)
  | OpRetire lim => plain_cmd "consumer.retire" 0 RRetire (StoreSweep.RetireCmd (set_sweep st) lim)
  | OpRetention batch => plain_cmd "retention.sweep" 0 RRetention (Retention.RetentionCmd batch)
  | OpTrimEvents c => plain_cmd "events.trim" 0 RTrim (Journal.TrimEvents c)
  | OpSeek s c to dry actor => plain_cmd "consumer.seek" 0 RSeek (ConsumerAdmin.seekCmd s c to dry actor)
  | OpSetPaused s c paused actor =>
      plain_cmd "consumer.pause" 0 (fun _ : unit => RPaused) (fun now => evs ← ConsumerAdmin.setPausedCmd s c paused actor now; mret (tt, evs))
  | OpDeleteConsumer s c actor =>
      plain_cmd "consumer.delete" 0 (fun '(p, i) => RDeletedConsumer p i) (ConsumerAdmin.deleteConsumerCmd s c actor)
  | OpPurgeAll s actor => plain_cmd "stream.purge" 0 RPurge (fun _ => Purge.purgeCmd s (Purge.MkPurgeSpec None "" 0) false actor)
  | OpAdminAction setting from to actor =>
      plain_cmd "admin.action" 0 (fun _ : unit => RAdmin) (Journal.adminActionCmd setting from to actor)
  | OpCheckpoint mode => solo_cmd "checkpoint" RCheckpoint (CheckpointSolo (set_checkpoint st) mode)
  | OpVacuum pages => solo_cmd "vacuum" RVacuum (VacuumSolo (set_vacuum st) pages)
  end.

(** [Store.enqueue]: which path a command takes. *)
Inductive route : Set := Refused (e : error) | ToEngine | ToSolo.

Definition enqueue (closed has_writer handedOff has_rw : bool) : route :=
  if closed then Refused (E ErrShuttingDown "store is closed")
  else if has_writer then ToEngine
  else if handedOff || negb has_rw then Refused (E ErrShuttingDown "no read-write handle")
  else ToSolo.

(** What the store's methods check before they enqueue. *)
Definition enqueued (o : op) : Prop :=
  match o with
  | OpPurgeAll s _ => ValidateExistingStreamName s = Ok tt
  | _ => True
  end.

End Commands.

(** ** Every command keeps its promise *)

Section Promises.
Context `{Ids} `{!FreshIds} (st : settings).

Lemma Keeps_plain {A} kind bytes (f : A -> reply) m :
  (forall now w, world_ok w -> wp (m now) (fun _ w' => world_ok w') any_error w) -> (forall now, grows (m now)) ->
  Keeps (plain_cmd kind bytes f m).
Proof.
  intros Hm Hg. split; [|intros now; unfold plain_cmd, replying; simpl; apply grows_bind; [auto|intros [a evs]; apply grows_ret]|done].
  intros now w w' out Hok. simpl. unfold replying, mbind, tx_bind. specialize (Hm now w Hok). unfold wp in Hm.
  destruct (m now w) as [w1 [[a evs]|e]]; [|done]. by intros [= <- _].
Qed.

Lemma Keeps_solo {A} kind (f : A -> reply) (m : tx A) : (forall w, (m w).1 = w) -> Keeps (solo_cmd kind f m).
Proof.
  intros Hm. split; [done|intros now; apply grows_fail|]. intros body [= <-] now w Hok. unfold mbind, tx_bind.
  specialize (Hm w). destruct (m w) as [w1 [a|e]]; simpl in *; by subst w1.
Qed.

Lemma publish_promise s r now w :
  world_ok w -> wp (Publish.publishWriteCmd (set_limits st) s r now) (fun _ w' => world_ok w') any_error w.
Proof.
  intros Hok. unfold wp. destruct (Publish.publishWriteCmd _ s r now w) as [w' [res|e]] eqn:Hrun; [|done].
  by eapply (Publish.publish_keeps (set_limits st)).
Qed.

Lemma batch_promise s rs now w :
  world_ok w -> wp (Publish.batchPublishCmd (set_limits st) s rs now) (fun _ w' => world_ok w') any_error w.
Proof.
  intros Hok. eapply wp_mono; [by apply Publish.batchPublishCmd_wp| |done].
  intros [acks evs] w' (n & added & _ & _ & Hb). exact (Publish.bat_ok _ _ _ _ _ _ Hb).
Qed.

Lemma sweepDedup_promise s now w :
  world_ok w -> wp (n ← Publish.sweepDedupCmd s now; mret (n, @nil event)) (fun _ w' => world_ok w') any_error w.
Proof.
  intros Hok. unfold Publish.sweepDedupCmd. wp_steps; [|done]. intros row _. wp_steps. destruct Hok as [HS HM HC HD].
  split; simpl; [done|by apply Publish.MsgInv_clear|done|]. eapply DelInv_messages; [|done]. by rewrite (key_update mkey).
Qed.

Lemma fetch_promise s c batch maxBytes now w :
  world_ok w -> wp (Fetch.fetchCmd s c batch maxBytes (set_consumerLimits st) now) (fun _ w' => world_ok w') any_error w.
Proof.
  intros Hok. unfold wp. destruct (Fetch.fetchCmd _ _ _ _ _ _ w) as [w' [res|e]] eqn:Hrun; [|done]. by eapply Fetch.fetch_keeps.
Qed.

Lemma settle_promise items now w :
  world_ok w -> wp (StoreSettle.SettleCmd (set_settle st) items now) (fun _ w' => world_ok w') any_error w.
Proof.
  intros Hok. eapply wp_mono; [by apply StoreSettle.SettleCmd_any| |done].
  intros out w' [Hf _]. exact (StoreSettle.stf_ok _ _ Hf).
Qed.

Lemma sweep_promise lim now w :
  world_ok w -> wp (StoreSweep.SweepCmd (set_sweep st) lim now) (fun _ w' => world_ok w') any_error w.
Proof.
  intros Hok. eapply wp_mono; [by apply StoreSweep.SweepCmd_wp| |done].
  intros [res evs] w' (D & a & Hs & _). exact (StoreSettle.stf_ok _ _ (StoreSweep.swp_frame _ _ _ _ _ _ _ Hs)).
Qed.

Lemma retire_promise lim now w :
  world_ok w -> wp (StoreSweep.RetireCmd (set_sweep st) lim now) (fun _ w' => world_ok w') any_error w.
Proof.
  intros Hok. eapply wp_mono; [by apply StoreSweep.RetireCmd_wp| |done].
  intros [res evs] w' (gone & a & Hr & _). exact (StoreSettle.stf_ok _ _ (StoreSweep.rtr_frame _ _ _ _ Hr)).
Qed.

Lemma retention_promise batch now w :
  world_ok w -> wp (Retention.RetentionCmd batch now) (fun _ w' => world_ok w') any_error w.
Proof.
  intros Hok. eapply wp_mono; [by apply Retention.RetentionCmd_wp| |done].
  intros [res evs] w' Hr. exact (Retention.rs_ok _ _ _ _ _ _ Hr).
Qed.

Lemma trim_promise c now w :
  world_ok w -> wp (Journal.TrimEvents c now) (fun _ w' => world_ok w') any_error w.
Proof.
  assert (Hchunk : forall p n w, world_ok w -> wp (Journal.trimDeleteChunk p n) (fun _ w' => world_ok w') any_error w).
  { intros p n w0 Hok. unfold Journal.trimDeleteChunk. wp_steps. by apply Inv_events. }
  assert (Hround : forall nowMS budget w, world_ok w -> wp (Journal.trim_round c nowMS budget) (fun _ w' => world_ok w') any_error w).
  { intros nowMS budget w0 Hok. unfold Journal.trim_round.
    apply wp_bind, (wp_mono _ (fun _ w' => world_ok w') _ any_error); [destruct (_ && _); [by apply Hchunk|by wp_steps]|intros n1 w1 Hok1|done].
    apply wp_bind, (wp_mono _ (fun _ w' => world_ok w') _ any_error); [|intros; by wp_steps|done].
    destruct (_ && _); [|by wp_steps]. wp_steps. destruct (0 <? _); [by apply Hchunk|by wp_steps]. }
  assert (Hloop : forall fuel nowMS budget deleted w, world_ok w ->
            wp (Journal.trim_loop fuel c nowMS budget deleted) (fun _ w' => world_ok w') any_error w).
  { induction fuel as [|fuel IH]; intros nowMS budget deleted w0 Hok; simpl; [by wp_steps|].
    apply wp_bind. eapply wp_mono; [by apply Hround| |done]. intros [n1 n2] w1 Hok1. destruct (_ || _); [by wp_steps|by apply IH]. }
  intros Hok. unfold Journal.TrimEvents. apply wp_bind. eapply wp_mono; [by apply Hloop| |done]. intros [n|] w1 Hok1; by wp_steps.
Qed.

Lemma seek_promise s c to dryRun actor now w :
  world_ok w -> wp (ConsumerAdmin.seekCmd s c to dryRun actor now) (fun _ w' => world_ok w') any_error w.
Proof.
  intros Hok. eapply wp_mono; [by apply ConsumerAdmin.seekCmd_wp| |done].
  intros [res evs] w' (con & _ & _ & _ & _ & _ & Hw). destruct dryRun; [by subst w'|tauto].
Qed.

Lemma pause_promise s c paused actor now w :
  world_ok w ->
  wp (evs ← ConsumerAdmin.setPausedCmd s c paused actor now; mret (tt, evs)) (fun _ w' => world_ok w') any_error w.
Proof.
  intros Hok. unfold ConsumerAdmin.setPausedCmd. wp_steps; [|done]. intros con Hfind. destruct (Bool.eqb _ _); wp_steps; [done|].
  apply Inv_events, Inv_consumers; [done| |].
  - apply ConInv_update; [done| |exact (inv_consumers _ _ Hok)]. intros x Hx _. exact (inv_con _ _ (inv_consumers _ _ Hok) x Hx).
  - apply DelInv_settings; [done|exact (inv_deliveries _ _ Hok)].
Qed.

Lemma deleteConsumer_promise s c actor now w :
  world_ok w -> wp (ConsumerAdmin.deleteConsumerCmd s c actor now) (fun _ w' => world_ok w') any_error w.
Proof.
  intros Hok. eapply wp_mono; [by apply ConsumerAdmin.delete_consumer_effect| |done]. intros [[p i] evs] w' Hw. tauto.
Qed.

Lemma purge_promise s actor w :
  ValidateExistingStreamName s = Ok tt -> world_ok w ->
  wp (Purge.purgeCmd s (Purge.MkPurgeSpec None "" 0) false actor) (fun _ w' => world_ok w') any_error w.
Proof.
  intros Hn Hok. pose proof (Purge.purge_wp s (Purge.MkPurgeSpec None "" 0) actor w Hok Hn eq_refl) as Hp.
  unfold wp, Purge.PurgeStream, lift, mbind, tx_bind in Hp. rewrite Hn in Hp. simpl in Hp. unfold wp.
  destruct (Purge.purgeCmd _ _ _ _ w) as [w' [[im evs]|e]]; [|done].
  destruct Hp as ((newCur & Hle & Hpu) & _ & _ & _ & Ha). eapply Purge.purged_ok; [exact Hok|exact Hpu|by apply Purge.whole_untorn| |exact Hle].
  intros n Hin%Ha. by apply Purge.elem_of_affected_by.
Qed.

(** The store discharges the promise for each of its commands. *)
#[export] Instance command_keeps o : enqueued o -> Keeps (command st o).
Proof.
  intros He. destruct o; simpl; try apply Keeps_plain; try apply Keeps_solo; intros.
  all: try first [by apply publish_promise|by apply batch_promise|by apply sweepDedup_promise|by apply fetch_promise|by apply settle_promise
    |by apply sweep_promise|by apply retire_promise|by apply retention_promise|by apply trim_promise|by apply seek_promise
    |by apply pause_promise|by apply deleteConsumer_promise|by apply purge_promise].
  all: auto using grows_publish, grows_batch, grows_fetch, grows_settle, grows_sweep, grows_retire, grows_retention, grows_trim,
    grows_seek, grows_deleteConsumer, grows_purge, grows_admin.
  - apply grows_bind; [apply grows_sweepDedup|intros; apply grows_ret].
  - apply grows_bind; [apply grows_pause|intros; apply grows_ret].
  - unfold Journal.adminActionCmd. wp_steps. by apply Inv_events.
  - unfold CheckpointSolo. destruct (_ && _); [done|]. unfold lift, mbind, tx_bind. by destruct (set_checkpoint st mode) as [[[? ?] ?]|].
  - unfold VacuumSolo. destruct (_ || _); [done|]. unfold lift, mbind, tx_bind. by destruct (set_vacuum st pages).
Qed.

End Promises.

(** ** The daemon *)

Section Daemon.
Context `{Ids} `{!FreshIds} (st : settings).

(** A step of the engine whose callers hand in the store's commands. *)
Definition served (cfg : Config) (g g' : engine reply) : Prop :=
  step cfg g g' /\
  forall r, r ∈ g_sending g' -> r ∈ g_sending g \/ exists o, enqueued o /\ rq_cmd r = command st o.

Lemma served_sound cfg g g' : sound g -> served cfg g g' -> sound g'.
Proof.
  intros Hs [Hstep Hnew]. eapply step_sound; [|exact Hs|exact Hstep]. intros r Hr. destruct (Hnew r Hr) as [? |(o & He & Ho)]; [by left|].
  right. unfold keeping. rewrite Ho. by apply command_keeps.
Qed.


End Daemon.

Import Samples.

Definition sample_settings : settings :=
  MkSettings DefaultLimits DefaultConsumerLimits StoreSettle.sample_env StoreSweep.sample_sweep
    (fun _ => Ok (0, 0, 0)) (fun _ => Ok None).

Definition publishing : request reply := MkRequest 0 (command sample_settings (OpPublish "orders" Publish.order_created)).

Definition sent_in : engine reply := set_waiting [publishing] None (start base).


End System.
