(* ===== verification/ApiPublish.v ===== *)
(** * Publishing over HTTP

    [internal/api/publish.go] and [devmode.go]: the raw publish and the NDJSON
    batch, from the request's headers to the store's commands, and the publish
    half of the client, [pkg/client/publish.go], with its one retry.  A request
    carries the header fields the server parsed, names in canonical form; the
    writer's outcome of a submission is an input, since a commit may be reported
    as unknown whether or not it is durable. *)

From S2P Require Import TextFields IdGen ApiErrors ApiCodec Routes StreamAdmin Publish ApiAdmin ClientErrors System.

Module ApiPublish.
Import ApiErrors ApiCodec Policy PublishReq ApiAdmin.

(** ** encoding/base64: the standard alphabet, padded *)

Definition b64_char (d : Z) : ascii :=
  byte_chr (if d <? 26 then 65 + d else if d <? 52 then 71 + d else if d <? 62 then d - 4 else if d =? 62 then 43 else 47).

Definition b64_val (c : ascii) : option Z :=
  let b := byte_z c in
  if (65 <=? b) && (b <=? 90) then Some (b - 65)
  else if (97 <=? b) && (b <=? 122) then Some (b - 71)
  else if (48 <=? b) && (b <=? 57) then Some (b + 4)
  else if b =? 43 then Some 62 else if b =? 47 then Some 63 else None.

Fixpoint b64_encode (s : string) : string :=
  match s with
  | EmptyString => EmptyString
  | String x EmptyString => let x := byte_z x in String (b64_char (x / 4)) (String (b64_char (x mod 4 * 16)) "==")
  | String x (String y EmptyString) =>
      let x := byte_z x in
      let y := byte_z y in
      String (b64_char (x / 4)) (String (b64_char (x mod 4 * 16 + y / 16)) (String (b64_char (y mod 16 * 4)) "="))
  | String x (String y (String z s)) =>
      let x := byte_z x in
      let y := byte_z y in
      let z := byte_z z in
      String (b64_char (x / 4)) (String (b64_char (x mod 4 * 16 + y / 16))
        (String (b64_char (y mod 16 * 4 + z / 64)) (String (b64_char (z mod 64)) (b64_encode s))))
  end.

(** [DecodeString] after the line breaks are dropped; the bits a last group does
    not use are ignored. *)
Fixpoint b64_groups (s : string) : option string :=
  match s with
  | EmptyString => Some EmptyString
  | String a (String b (String c (String d rest))) =>
      v0 ← b64_val a; v1 ← b64_val b;
      let b0 := byte_chr (v0 * 4 + v1 / 16) in
      if byte_z c =? 61 then
        if (byte_z d =? 61) && bool_decide (rest = "") then Some (String b0 "") else None
      else
        v2 ← b64_val c;
        let b1 := byte_chr (v1 mod 16 * 16 + v2 / 4) in
        if byte_z d =? 61 then if bool_decide (rest = "") then Some (String b0 (String b1 "")) else None
        else
          v3 ← b64_val d;
          t ← b64_groups rest;
          Some (String b0 (String b1 (String (byte_chr (v2 mod 4 * 64 + v3)) t)))
  | _ => None
  end.

Fixpoint drop_breaks (s : string) : string :=
  match s with
  | EmptyString => EmptyString
  | String c s => if (byte_z c =? 10) || (byte_z c =? 13) then drop_breaks s else String c (drop_breaks s)
  end.

Definition b64_decode (s : string) : option string := b64_groups (drop_breaks s).

(** ** The request *)

(** [pq_clen] is the declared length, -1 when there is none; [pq_limit] is the
    cap the chain put on the body. *)
Record http_publish : Set := MkHttpPublish {
  hp_stream : string;
  hp_subject : string;
  hp_headers : list (string * list string);
  hp_body : string;
  hp_clen : Z;
  hp_limit : Z;
}.

(** [Header.Get]: the first value of a name. *)
Definition header_get (k : string) (h : list (string * list string)) : string :=
  match List.find (fun x => bool_decide (x.1 = k)) h with Some (_, v :: _) => v | _ => "" end.

Definition publishSubject (q : http_publish) : api_error + string :=
  let query := hp_subject q in
  let header := header_get "Messq-Subject" (hp_headers q) in
  if bool_decide (query = "") && bool_decide (header = "") then inl (of_error (E ErrBadRequest "publish needs a subject"))
  else if negb (bool_decide (query = "")) && negb (bool_decide (header = "")) && negb (bool_decide (query = header))
  then inl (of_error (E ErrBadRequest "subject is given twice"))
  else if negb (bool_decide (header = "")) then inr header
  else inr query.

Definition header_prefix : string := "Messq-Header-".

Fixpoint publishHeaders_loop (acc : list (string * string)) (h : list (string * list string)) : api_error + list (string * string) :=
  match h with
  | [] => inr acc
  | (key, values) :: h =>
      if negb (has_prefix header_prefix key) then publishHeaders_loop acc h
      else
        let canonical := CanonicalMIMEHeaderKey (drop_str (String.length header_prefix) key) in
        match values with
        | [v] => if has_header canonical acc then inl (of_error (E ErrBadRequest "header was repeated"))
                 else publishHeaders_loop (acc ++ [(canonical, v)]) h
        | _ => inl (of_error (E ErrBadRequest "header was repeated"))
        end
  end.

Definition publishHeaders (q : http_publish) : api_error + list (string * string) := publishHeaders_loop [] (hp_headers q).

(** The bytes both capped readers let through. *)
Definition readBody (q : http_publish) (maxMsgSize : Z) : api_error + string :=
  if maxMsgSize <? hp_clen q then inl (MkApiError (E ErrTooLarge "body") None [TooLargeError "body"])
  else if Z.min (maxMsgSize + 1) (hp_limit q) <? slen (hp_body q) then inl (of_error (E ErrTooLarge "api.publishMessage"))
  else inr (hp_body q).

(** ** The writer's outcome *)

Inductive commit : Set := Committed | CommitLost (durable : bool).

Section Handlers.
Context `{Ids} (limits : Limits) (dev : bool).

(** A submission; an unknown commit is durable or not. *)
Definition submit_as {A} (co : commit) (m : tx A) (w : world) : world * (api_error + A) :=
  match m w with
  | (w', Err e) => (World (w_db w) (w_mem w'), inl (of_store e))
  | (w', Ok a) =>
      match co with
      | Committed => (w', inr a)
      | CommitLost durable =>
          (if durable then w' else World (w_db w) (w_mem w'), inl (MkApiError (Plain "commit outcome unknown") None [CommitUnknown]))
      end
  end.

(** *** devmode.go *)

Definition actorDevAutocreate : string := "dev-autocreate".

Definition isNotFound (e : error) : bool := is_kind ErrNotFound e.

Definition devAutocreateStream (name : string) (now : Z) (w : world) : world * result StreamAdmin.StreamInfo :=
  match ApiAdmin.submit (StreamAdmin.CreateStream limits (DefaultConfig name) actorDevAutocreate now) w with
  | (w', Err e) =>
      if bool_decide (StreamExists ∈ typed_of e) then (w', StreamAdmin.GetStream name (w_db w')) else (w', Err e)
  | (w', Ok _) => (w', StreamAdmin.GetStream name (w_db w'))
  end.

(** The stream a publish goes to, created on the fly under [--dev]. *)
Definition publish_stream (name : string) (now : Z) (w : world) : world * result StreamAdmin.StreamInfo :=
  match StreamAdmin.GetStream name (w_db w) with
  | Err e => if negb dev || negb (isNotFound e) then (w, Err e) else devAutocreateStream name now w
  | Ok info => (w, Ok info)
  end.

(** *** The raw publish *)

(** The request the handler submits, or the refusal. *)
Definition publish_request (q : http_publish) (sc : StreamConfig) (draws : list (string + string)) : api_error + PublishReq :=
  match publishSubject q with
  | inl e => inl e
  | inr subject =>
  match publishHeaders q with
  | inl e => inl e
  | inr headers =>
  let msgID := header_get "Messq-Msg-Id" (hp_headers q) in
  match ValidateMsgID msgID with
  | Err e => inl (of_store e)
  | Ok _ =>
  let explicitTrace := header_get "Messq-Trace-Id" (hp_headers q) in
  match ValidateTraceIDToken explicitTrace with
  | Err e => inl (of_store e)
  | Ok _ =>
  let traceID := IdGen.ResolveTraceID explicitTrace (header_get "Traceparent" (hp_headers q)) draws in
  match readBody q (sc_MaxMsgSize sc) with
  | inl e => inl e
  | inr body =>
  let req := MkPublishReq subject headers body msgID traceID in
  match ValidatePublish sc req limits with
  | Err e => inl (of_store e)
  | Ok _ => inr req
  end end end end end end.

Definition handlePublishMessage (q : http_publish) (draws : list (string + string)) (co : commit) (now : Z) (w : world)
  : world * answer Publish.Ack :=
  check (ValidateExistingStreamName (hp_stream q)) w
    match publish_stream (hp_stream q) now w with
    | (w1, Err e) => (w1, Refused (of_store e))
    | (w1, Ok info) =>
        match publish_request q (StreamAdmin.Config info) draws with
        | inl e => (w1, Refused e)
        | inr req =>
            match submit_as co (Publish.publishWriteCmd limits (hp_stream q) req now) w1 with
            | (w2, inl e) => (w2, Refused (classifySubmit "api.publishMessage" e))
            | (w2, inr (ack, _)) => (w2, Body (if Publish.ack_Duplicate ack then 200 else 201) ack)
            end
        end
    end.

(** *** The batch *)

Record batchEntry : Set := MkBatchEntry {
  be_Subject : string;
  be_BodyB64 : string;
  be_Body : string;
  be_MsgID : string;
  be_Headers : list (string * string);
  be_TraceID : string;
}.

(** Into a map of strings, over the entries it holds; the last value of a key wins. *)
Definition set_key (k v : string) (m : list (string * string)) : list (string * string) :=
  if has_header k m then map (fun x => if bool_decide (x.1 = k) then (k, v) else x) m else m ++ [(k, v)].

Definition of_string_map (old : list (string * string)) (v : json) : option (list (string * string)) :=
  match v with
  | JObj l => foldl (fun acc '(k, x) => m ← acc; s ← of_string "" x; Some (set_key k s m)) (Some old) l
  | JNull => Some []
  | _ => None
  end.

(** The batch decoder lets unknown names pass. *)
Definition set_entry (e : batchEntry) (k : string) (v : json) : option batchEntry :=
  let '(MkBatchEntry su b6 bo mi he tr) := e in
  if named "subject" k then (fun x => MkBatchEntry x b6 bo mi he tr) <$> of_string su v
  else if named "body_b64" k then (fun x => MkBatchEntry su x bo mi he tr) <$> of_string b6 v
  else if named "body" k then (fun x => MkBatchEntry su b6 x mi he tr) <$> of_string bo v
  else if named "msg_id" k then (fun x => MkBatchEntry su b6 bo x he tr) <$> of_string mi v
  else if named "headers" k then (fun x => MkBatchEntry su b6 bo mi x tr) <$> of_string_map he v
  else if named "trace_id" k then (fun x => MkBatchEntry su b6 bo mi he x) <$> of_string tr v
  else Some e.

(** One line: a value, text that is not JSON, or the end of what may be read. *)
Inductive line : Set := Value (v : json) | Invalid | Capped.

Definition entry_request (e : batchEntry) : api_error + PublishReq :=
  if negb (bool_decide (be_BodyB64 e = "")) && negb (bool_decide (be_Body e = ""))
  then inl (of_error (E ErrBadRequest "body and body_b64 are both present"))
  else
    match (if negb (bool_decide (be_BodyB64 e = "")) then b64_decode (be_BodyB64 e) else Some (be_Body e)) with
    | None => inl (of_error (E ErrBadRequest "body_b64 is not valid base64"))
    | Some body => inr (MkPublishReq (be_Subject e) (be_Headers e) body (be_MsgID e) (be_TraceID e))
    end.

Definition decode_entry (v : json) : option batchEntry := of_struct set_entry (MkBatchEntry "" "" "" "" [] "") v.

Fixpoint batch_requests (sc : StreamConfig) (lines : list line) : api_error + list PublishReq :=
  match lines with
  | [] => inr []
  | Capped :: _ => inl (of_error (E ErrTooLarge "api.publishBatch"))
  | Invalid :: _ => inl (of_error (E ErrBadRequest "invalid NDJSON"))
  | Value v :: lines =>
      match decode_entry v with
      | None => inl (of_error (E ErrBadRequest "invalid NDJSON"))
      | Some entry =>
          match entry_request entry with
          | inl e => inl e
          | inr req =>
              match ValidatePublish sc req limits with
              | Err e => inl (of_store e)
              | Ok _ => match batch_requests sc lines with inl e => inl e | inr reqs => inr (req :: reqs) end
              end
          end
      end
  end.

(** store/batch.go: the checks before the command is enqueued. *)
Definition store_PublishBatch (maxBatchMsgs : Z) (co : commit) (stream : string) (reqs : list PublishReq) (now : Z) (w : world)
  : world * (api_error + list Publish.Ack) :=
  match ValidateExistingStreamName stream with
  | Err e => (w, inl (of_store e))
  | Ok _ =>
      if (length reqs =? 0)%nat then (w, inl (of_error (E ErrBadRequest "batch holds no entries")))
      else if maxBatchMsgs <? Z.of_nat (length reqs) then (w, inl (of_error (E ErrBadRequest "batch entries")))
      else match submit_as co (Publish.batchPublishCmd limits stream reqs now) w with
           | (w', inl e) => (w', inl e)
           | (w', inr (acks, _)) => (w', inr acks)
           end
  end.

Definition handlePublishBatch (maxBatchMsgs : Z) (stream : string) (lines : list line) (clen maxBatchBytes : Z) (co : commit) (now : Z) (w : world)
  : world * answer (list Publish.Ack) :=
  check (ValidateExistingStreamName stream) w
    match publish_stream stream now w with
    | (w1, Err e) => (w1, Refused (of_store e))
    | (w1, Ok info) =>
        if maxBatchBytes <? clen then (w1, Refused (of_error (E ErrTooLarge "api.publishBatch")))
        else
          match batch_requests (StreamAdmin.Config info) lines with
          | inl e => (w1, Refused e)
          | inr [] => (w1, Refused (of_error (E ErrBadRequest "batch holds no entries")))
          | inr reqs =>
              match store_PublishBatch maxBatchMsgs co stream reqs now w1 with
              | (w2, inl e) => (w2, Refused (classifySubmit "api.publishBatch" e))
              | (w2, inr acks) => (w2, Body 201 acks)
              end
          end
    end.

End Handlers.

(** ** pkg/client/publish.go *)

#[local] Existing Instance ClientErrors.Kind_eq_dec.

(** The header of a message is a Go map: its entries in some iteration order. *)
Record Msg : Set := MkMsg {
  cm_Subject : string;
  cm_Body : string;
  cm_MsgID : string;
  cm_TraceID : string;
  cm_Header : list (string * string);
}.

Definition reservedHeaderPrefix : string := "Messq-".
Definition DefaultPublishBatchCap : Z := 1000.

Definition validHeaderKey (k : string) : bool := negb (bool_decide (k = "")) && all_bytes validHeaderFieldByte k.

Definition local_error (code : string) : ClientErrors.Error := ClientErrors.MkCErr code "" 0 0 ClientErrors.OtherCause.

Definition bad_key (k : string) : option ClientErrors.Error :=
  if negb (validHeaderKey k) then Some (local_error "bad_request")
  else if has_prefix reservedHeaderPrefix (CanonicalMIMEHeaderKey k) then Some (local_error "reserved_header")
  else None.

Definition validateMsg (m : Msg) : option ClientErrors.Error :=
  if bool_decide (cm_Subject m = "") then Some (local_error "bad_request")
  else head (omap (fun kv => bad_key kv.1) (cm_Header m)).

(** [Header.Set]: one value under the canonical name. *)
Definition header_set (h : list (string * list string)) (kv : string * string) : list (string * list string) :=
  let k := CanonicalMIMEHeaderKey kv.1 in
  if existsb (fun x => bool_decide (x.1 = k)) h then map (fun x => if bool_decide (x.1 = k) then (k, [kv.2]) else x) h
  else h ++ [(k, [kv.2])].

(** [net/http] trims the value of a field, and refuses one that holds a control
    character other than a tab. *)
Definition field_space (c : ascii) : bool := existsb (fun b => byte_z c =? b) [32; 9; 10; 13].
Fixpoint trim_left (s : string) : string :=
  match s with String c s' => if field_space c then trim_left s' else s | EmptyString => EmptyString end.
Fixpoint trim_right (s : string) : string :=
  match s with
  | EmptyString => EmptyString
  | String c s' => let t := trim_right s' in if field_space c && bool_decide (t = "") then EmptyString else String c t
  end.
Definition wire_value (v : string) : string := trim_right (trim_left v).
Definition valid_value (v : string) : bool := all_bytes (fun c => (byte_z c =? 9) || ((32 <=? byte_z c) && negb (byte_z c =? 127))) v.

(** The fields [publishOnce] sets, in order. *)
Definition extraHeaders (m : Msg) : list (string * string) :=
  [("Messq-Subject", cm_Subject m)]
  ++ (if bool_decide (cm_MsgID m = "") then [] else [("Messq-Msg-Id", cm_MsgID m)])
  ++ (if bool_decide (cm_TraceID m = "") then [] else [("Messq-Trace-Id", cm_TraceID m)])
  ++ map (fun kv => (header_prefix +:+ kv.1, kv.2)) (cm_Header m).

Definition wire_headers (m : Msg) : list (string * list string) :=
  map (fun x => (x.1, map wire_value x.2)) (foldl header_set [] (extraHeaders m)).

(** The request as the server reads it, under the cap of its chain. *)
Definition client_request (limit : Z) (stream : string) (m : Msg) : http_publish :=
  MkHttpPublish stream "" (wire_headers m) (cm_Body m) (slen (cm_Body m)) limit.

(** What becomes of one exchange: it never arrives, its answer is lost (by the
    deadline of the client or otherwise), or it is answered; the writer commits or
    reports an unknown outcome. *)
Inductive exchange : Set :=
| NotSent
| NoReply (co : commit) (deadline : bool)
| Replied (co : commit).

Section Client.
Context `{Ids} (limits : Limits) (dev : bool) (limit : Z).

Definition publishOnce (stream : string) (m : Msg) (x : exchange) (draws : list (string + string)) (now : Z) (w : world)
  : world * (ClientErrors.Error + Publish.Ack) :=
  let dead d := ClientErrors.unreachable "publish" "" d in
  if negb (forallb (fun kv => valid_value kv.2) (extraHeaders m)) then (w, inl (dead false))
  else
    let serve co := handlePublishMessage limits dev (client_request limit stream m) draws co now w in
    match x with
    | NotSent => (w, inl (dead false))
    | NoReply co d => ((serve co).1, inl (dead d))
    | Replied co =>
        match serve co with
        | (w', Body _ ack) => (w', inr ack)
        | (w', Refused e) => (w', inl (ClientErrors.decodeFailure "publish" (ClientErrors.error_response "" e)))
        end
    end.

Definition retrySafePublish (m : Msg) (e : ClientErrors.Error) : bool :=
  if bool_decide (cm_MsgID m = "") then false
  else match ClientErrors.e_err e with
       | ClientErrors.NoCause => bool_decide (ClientErrors.e_Code e = "commit_unknown")
       | _ => bool_decide (ClientErrors.Classify (Some (ClientErrors.Wire e)) = ClientErrors.KindUnavailable)
       end.

(** [Publish]: the two exchanges, their clocks and draws, and what else happens
    to the store between them. *)
Definition Publish (stream : string) (m : Msg) (x1 x2 : exchange) (d1 d2 : list (string + string)) (t1 t2 : Z)
    (between : world -> world) (w : world) : world * (ClientErrors.Error + Publish.Ack) :=
  match validateMsg m with
  | Some e => (w, inl e)
  | None =>
      if negb (ClientErrors.validStreamName stream) then (w, inl (local_error "bad_request"))
      else
        match publishOnce stream m x1 d1 t1 w with
        | (w1, inr ack) => (w1, inr ack)
        | (w1, inl e) =>
            if negb (retrySafePublish m e) then (w1, inl e)
            else publishOnce stream m x2 d2 t2 (between w1)
        end
  end.
End Client.

(** The NDJSON line of a message; absent fields are omitted. *)
Definition opt_field (k v : string) : list (string * json) := if bool_decide (v = "") then [] else [(k, JStr v)].

Definition batchEntryWire (m : Msg) : json :=
  JObj ([("subject", JStr (cm_Subject m))] ++ opt_field "body_b64" (b64_encode (cm_Body m)) ++ opt_field "msg_id" (cm_MsgID m)
        ++ (if bool_decide (cm_Header m = []) then [] else [("headers", JObj (map (fun kv => (kv.1, JStr kv.2)) (cm_Header m)))])
        ++ opt_field "trace_id" (cm_TraceID m)).

Definition PublishBatch (stream : string) (msgs : list Msg) : ClientErrors.Error + list json :=
  match msgs with
  | [] => inl (local_error "bad_request")
  | _ =>
      if negb (ClientErrors.validStreamName stream) then inl (local_error "bad_request")
      else if DefaultPublishBatchCap <? Z.of_nat (length msgs) then inl (local_error "too_large")
      else match head (omap validateMsg msgs) with
           | Some e => inl e
           | None => inr (map batchEntryWire msgs)
           end
  end.

(** Every chunk takes at least one message, so [length msgs] rounds are enough. *)
Fixpoint max_batch {A} (fuel : nat) (msgs : list A) (n : nat) : list (list A) :=
  match fuel, msgs with
  | S fuel, _ :: _ => take n msgs :: max_batch fuel (drop n msgs) n
  | _, _ => []
  end.

Definition MaxBatch {A} (msgs : list A) (n : Z) : list (list A) :=
  let n := if n <=? 0 then DefaultPublishBatchCap else n in max_batch (length msgs) msgs (Z.to_nat n).

(** ** Facts: base64 *)

Lemma b64_val_char d : 0 <= d < 64 -> b64_val (b64_char d) = Some d /\ byte_z (b64_char d) <> 61 /\ byte_z (b64_char d) <> 10 /\ byte_z (b64_char d) <> 13.
Proof.
  intros Hd.
  assert (forallb (fun d => bool_decide (b64_val (b64_char d) = Some d) && negb (existsb (fun b => byte_z (b64_char d) =? b) [61; 10; 13]))
            (map Z.of_nat (seq 0 64)) = true) as Hall by reflexivity.
  rewrite forallb_forall in Hall. specialize (Hall d). simpl existsb in Hall. rewrite !negb_orb in Hall. bool_prop.
  assert (List.In d (map Z.of_nat (seq 0 64))) as Hin by (apply in_map_iff; exists (Z.to_nat d); split; [lia|apply in_seq; lia]).
  specialize (Hall Hin). destruct Hall as (Hv & H1 & H2 & H3 & _). split_and!; [done|lia..].
Qed.

Lemma no_break_char d s : 0 <= d < 64 -> drop_breaks (String (b64_char d) s) = String (b64_char d) (drop_breaks s).
Proof.
  intros Hd. destruct (b64_val_char d Hd) as (_ & _ & H1 & H2). cbn [drop_breaks].
  by rewrite (proj2 (Z.eqb_neq _ 10) H1), (proj2 (Z.eqb_neq _ 13) H2).
Qed.

(** The six-bit digits of three bytes. *)
Lemma digits x y z : 0 <= x < 256 -> 0 <= y < 256 -> 0 <= z < 256 ->
  0 <= x / 4 < 64 /\ 0 <= x mod 4 * 16 + y / 16 < 64 /\ 0 <= y mod 16 * 4 + z / 64 < 64 /\ 0 <= z mod 64 < 64
  /\ x / 4 * 4 + (x mod 4 * 16 + y / 16) / 16 = x
  /\ (x mod 4 * 16 + y / 16) mod 16 * 16 + (y mod 16 * 4 + z / 64) / 4 = y
  /\ (y mod 16 * 4 + z / 64) mod 4 * 64 + z mod 64 = z.
Proof. intros. Z.to_euclidean_division_equations. lia. Qed.

Lemma b64_roundtrip s : b64_decode (b64_encode s) = Some s.
Proof.
  unfold b64_decode. remember (String.length s) as n eqn:Hn. revert s Hn.
  induction n as [n IH] using lt_wf_ind; intros s ->.
  destruct s as [|x [|y [|z s]]]; [done| | |]; cbn [b64_encode].
  - pose proof (digits (byte_z x) 0 0 (byte_z_bound x) ltac:(lia) ltac:(lia)) as (H0 & H1 & _ & _ & E0 & _).
    rewrite Z.div_0_l, Z.add_0_r in H1, E0 by lia. rewrite !no_break_char by lia. cbn [drop_breaks b64_groups].
    rewrite (proj1 (b64_val_char _ H0)), (proj1 (b64_val_char _ H1)). simpl. by rewrite E0, IdGen.byte_chr_z.
  - pose proof (digits (byte_z x) (byte_z y) 0 (byte_z_bound x) (byte_z_bound y) ltac:(lia)) as (H0 & H1 & H2 & _ & E0 & E1 & _).
    rewrite (Z.div_0_l 64), Z.add_0_r in H2, E1 by lia. rewrite !no_break_char by lia. cbn [drop_breaks b64_groups].
    rewrite (proj1 (b64_val_char _ H0)), (proj1 (b64_val_char _ H1)), (proj1 (b64_val_char _ H2)). simpl.
    rewrite (proj2 (Z.eqb_neq _ 61) (proj1 (proj2 (b64_val_char _ H2)))). simpl. by rewrite E0, E1, !IdGen.byte_chr_z.
  - pose proof (digits (byte_z x) (byte_z y) (byte_z z) (byte_z_bound x) (byte_z_bound y) (byte_z_bound z))
      as (H0 & H1 & H2 & H3 & E0 & E1 & E2).
    rewrite !no_break_char by lia. cbn [b64_groups].
    rewrite (proj1 (b64_val_char _ H0)), (proj1 (b64_val_char _ H1)), (proj1 (b64_val_char _ H2)), (proj1 (b64_val_char _ H3)).
    rewrite (proj2 (Z.eqb_neq _ 61) (proj1 (proj2 (b64_val_char _ H2)))), (proj2 (Z.eqb_neq _ 61) (proj1 (proj2 (b64_val_char _ H3)))).
    cbn [mbind option_bind]. rewrite (IH (String.length s)) by (simpl; lia || done). cbn [mbind option_bind].
    by rewrite E0, E1, E2, !IdGen.byte_chr_z.
Qed.

(** ** Facts: the batch line *)

Lemma set_key_fresh k v m : k ∉ map fst m -> set_key k v m = m ++ [(k, v)].
Proof.
  intros Hk. unfold set_key, has_header. destruct (existsb _ m) eqn:He; [|done].
  apply existsb_exists in He as ([k' v'] & Hin & Heq%bool_decide_eq_true). simpl in Heq. subst.
  exfalso. apply Hk. apply list_elem_of_In, in_map_iff. by exists (k, v').
Qed.

Lemma headers_decode h acc :
  NoDup (map fst (acc ++ h)) ->
  foldl (fun acc '(k, x) => m ← acc; s ← of_string "" x; Some (set_key k s m)) (Some acc) (map (fun kv => (kv.1, JStr kv.2)) h) = Some (acc ++ h).
Proof.
  revert acc. induction h as [|[k v] h IH]; intros acc Hnd; simpl; [by rewrite app_nil_r|].
  assert (k ∉ map fst acc) as Hk.
  { rewrite map_app in Hnd. apply NoDup_app in Hnd as (_ & Hd & _). intros Hin. apply (Hd k Hin). simpl. set_solver. }
  rewrite set_key_fresh by done. rewrite IH; [by rewrite <-app_assoc|]. by rewrite <-app_assoc.
Qed.

Definition entry_of (m : Msg) : batchEntry :=
  MkBatchEntry (cm_Subject m) (b64_encode (cm_Body m)) "" (cm_MsgID m) (cm_Header m) (cm_TraceID m).

Definition entry_step (acc : option batchEntry) (kv : string * json) : option batchEntry := t ← acc; set_entry t kv.1 kv.2.

Lemma decode_fields l : decode_entry (JObj l) = foldl entry_step (Some (MkBatchEntry "" "" "" "" [] "")) l.
Proof. unfold decode_entry. cbn [of_struct]. generalize (Some (MkBatchEntry "" "" "" "" [] "")). induction l as [|[k v] l IH]; intros e; [done|apply IH]. Qed.

Lemma fold_opt_field e e' k v :
  (v = "" -> e' = e) -> set_entry e k (JStr v) = Some e' -> foldl entry_step (Some e) (opt_field k v) = Some e'.
Proof. intros Hemp Hset. unfold opt_field. case_bool_decide as Hv; [by rewrite Hemp|]. exact Hset. Qed.

Lemma decode_line m : NoDup (map fst (cm_Header m)) -> decode_entry (batchEntryWire m) = Some (entry_of m).
Proof.
  intros Hnd. unfold batchEntryWire, entry_of. rewrite decode_fields, !foldl_app. set (b6 := b64_encode (cm_Body m)). clearbody b6.
  destruct m as [su bo mi tr he]. simpl cm_Subject in *. simpl cm_Header in *. simpl cm_MsgID. simpl cm_TraceID.
  change (foldl entry_step (Some (MkBatchEntry "" "" "" "" [] "")) [("subject", JStr su)]) with (Some (MkBatchEntry su "" "" "" [] "")).
  rewrite (fold_opt_field _ (MkBatchEntry su b6 "" "" [] "")) by (by intros -> || done).
  rewrite (fold_opt_field _ (MkBatchEntry su b6 "" mi [] "")) by (by intros -> || done).
  assert (foldl entry_step (Some (MkBatchEntry su b6 "" mi [] ""))
            (if bool_decide (he = []) then [] else [("headers", JObj (map (fun kv => (kv.1, JStr kv.2)) he))])
          = Some (MkBatchEntry su b6 "" mi he "")) as Hh.
  { destruct he as [|kv he]; [done|]. rewrite bool_decide_false by done. cbn [foldl]. unfold entry_step. cbn [mbind option_bind fst snd].
    change (set_entry (MkBatchEntry su b6 "" mi [] "") "headers" (JObj (map (fun kv => (kv.1, JStr kv.2)) (kv :: he))))
      with ((fun x => MkBatchEntry su b6 "" mi x "") <$> of_string_map [] (JObj (map (fun kv => (kv.1, JStr kv.2)) (kv :: he)))).
    unfold of_string_map. by rewrite (headers_decode (kv :: he) []) by done. }
  rewrite Hh. by rewrite (fold_opt_field _ (MkBatchEntry su b6 "" mi he tr)) by (by intros -> || done).
Qed.

(** The request a line of the batch becomes. *)
Definition request_of (m : Msg) : PublishReq := MkPublishReq (cm_Subject m) (cm_Header m) (cm_Body m) (cm_MsgID m) (cm_TraceID m).

Lemma entry_request_of m : entry_request (entry_of m) = inr (request_of m).
Proof.
  unfold entry_request, entry_of, request_of. cbn [be_BodyB64 be_Body be_Subject be_Headers be_MsgID be_TraceID].
  rewrite (bool_decide_true ("" = "")) by done. simpl. rewrite andb_false_r. case_bool_decide as Hb; simpl; [|by rewrite b64_roundtrip].
  pose proof (b64_roundtrip (cm_Body m)) as Hr. rewrite Hb in Hr. by injection Hr as <-.
Qed.

(** ** Facts: the header fields of a raw publish *)

Lemma canonical_byte upper c :
  let b := byte_z c in
  let b' := if upper && (97 <=? b) && (b <=? 122) then b - 32
            else if negb upper && (65 <=? b) && (b <=? 90) then b + 32 else b in
  byte_z (ascii_of_nat (Z.to_nat b')) = b' /\
  (if upper && (97 <=? b') && (b' <=? 122) then b' - 32
   else if negb upper && (65 <=? b') && (b' <=? 90) then b' + 32 else b') = b' /\
  (validHeaderFieldByte c = true -> validHeaderFieldByte (ascii_of_nat (Z.to_nat b')) = true).
Proof.
  destruct c as [b0 b1 b2 b3 b4 b5 b6 b7].
  destruct upper, b0, b1, b2, b3, b4, b5, b6, b7; vm_compute; split_and!; (reflexivity || (intros; reflexivity) || discriminate).
Qed.

Lemma canonical_bytes_idem upper s : canonical_bytes upper (canonical_bytes upper s) = canonical_bytes upper s.
Proof.
  revert upper. induction s as [|c s IH]; intros upper; [done|]. cbn [canonical_bytes].
  destruct (canonical_byte upper c) as (Hz & Hid & _). cbv zeta in Hz, Hid. rewrite Hz, Hid, IH. done.
Qed.

Lemma canonical_bytes_valid upper s : all_bytes validHeaderFieldByte s = true -> all_bytes validHeaderFieldByte (canonical_bytes upper s) = true.
Proof.
  revert upper. induction s as [|c s IH]; intros upper; [done|]. cbn [canonical_bytes all_bytes]. intros [Hc Hs]%andb_prop.
  destruct (canonical_byte upper c) as (_ & _ & Hv). cbv zeta in Hv. rewrite (Hv Hc). simpl. by apply IH.
Qed.

Lemma canonical_idem k : CanonicalMIMEHeaderKey (CanonicalMIMEHeaderKey k) = CanonicalMIMEHeaderKey k.
Proof.
  unfold CanonicalMIMEHeaderKey. destruct (all_bytes validHeaderFieldByte k) eqn:Hv; [|by rewrite Hv].
  by rewrite canonical_bytes_valid, canonical_bytes_idem.
Qed.

Lemma canonical_prefix k : validHeaderKey k = true ->
  CanonicalMIMEHeaderKey (header_prefix +:+ k) = header_prefix +:+ CanonicalMIMEHeaderKey k.
Proof.
  unfold validHeaderKey. intros [_ Hv]%andb_prop. unfold CanonicalMIMEHeaderKey. rewrite Hv.
  assert (all_bytes validHeaderFieldByte (header_prefix +:+ k) = true) as ->; [|done]. exact Hv.
Qed.

Lemma headers_append l :
  NoDup (map (fun kv => CanonicalMIMEHeaderKey kv.1) l) ->
  foldl header_set [] l = map (fun kv => (CanonicalMIMEHeaderKey kv.1, [kv.2])) l.
Proof.
  intros Hnd. change (map (fun kv => (CanonicalMIMEHeaderKey kv.1, [kv.2])) l) with ([] ++ map (fun kv => (CanonicalMIMEHeaderKey kv.1, [kv.2])) l).
  assert (forall k, k ∈ map (fun kv => CanonicalMIMEHeaderKey kv.1) l -> k ∉ map fst ([] : list (string * list string))) as Hd by set_solver.
  revert Hd. generalize ([] : list (string * list string)) as acc. induction l as [|kv l IH]; intros acc Hd; simpl; [by rewrite app_nil_r|].
  apply NoDup_cons in Hnd as [Hk Hnd]. unfold header_set at 2. destruct (existsb _ acc) eqn:He.
  - apply existsb_exists in He as (x & Hx & Heq%bool_decide_eq_true). exfalso. apply (Hd (CanonicalMIMEHeaderKey kv.1)); [set_solver|].
    rewrite <-Heq. by apply list_elem_of_In, in_map.
  - rewrite IH; [by rewrite <-app_assoc|done|]. intros k Hin. rewrite map_app. simpl. intros [Hacc|Hnew]%elem_of_app.
    + apply (Hd k); [set_solver|done].
    + apply list_elem_of_singleton in Hnew as ->. done.
Qed.

(** Fields a wire carries unchanged. *)
Definition wire_safe (v : string) : Prop := wire_value v = v /\ valid_value v = true.

(** A message whose fields all reach the server: header names distinct up to
    case, values without surrounding blanks. *)
Record sendable (m : Msg) : Prop := {
  snd_valid : validateMsg m = None;
  snd_names : NoDup (map (fun kv => CanonicalMIMEHeaderKey kv.1) (cm_Header m));
  snd_values : Forall (fun kv => wire_safe kv.2) (cm_Header m);
  snd_fields : wire_safe (cm_Subject m) /\ wire_safe (cm_MsgID m) /\ wire_safe (cm_TraceID m);
}.

Lemma validateMsg_keys m : validateMsg m = None -> Forall (fun kv => validHeaderKey kv.1 = true) (cm_Header m) /\ cm_Subject m <> "".
Proof.
  unfold validateMsg. case_bool_decide as Hs; [done|]. intros Hh. split; [|done]. induction (cm_Header m) as [|kv h IH]; [constructor|].
  simpl in Hh. destruct (bad_key kv.1) eqn:Hb; [done|]. constructor; [|by apply IH].
  unfold bad_key in Hb. by destruct (validHeaderKey kv.1).
Qed.

(** The fields of the message itself, and those of its header. *)
Definition own_fields (m : Msg) : list (string * string) :=
  [("Messq-Subject", cm_Subject m)]
  ++ (if bool_decide (cm_MsgID m = "") then [] else [("Messq-Msg-Id", cm_MsgID m)])
  ++ (if bool_decide (cm_TraceID m = "") then [] else [("Messq-Trace-Id", cm_TraceID m)]).

Definition single (kv : string * string) : string * list string := (kv.1, [kv.2]).
Definition user_field (kv : string * string) : string * list string := (header_prefix +:+ CanonicalMIMEHeaderKey kv.1, [kv.2]).

Lemma own_names m : map (fun kv => CanonicalMIMEHeaderKey kv.1) (own_fields m) = map fst (own_fields m)
  /\ NoDup (map fst (own_fields m)) /\ forallb (fun k => negb (has_prefix header_prefix k)) (map fst (own_fields m)) = true.
Proof.
  unfold own_fields. destruct (bool_decide (cm_MsgID m = "")), (bool_decide (cm_TraceID m = "")); simpl;
    (split; [done|]); (split; [|done]); apply (bool_decide_unpack _); by vm_compute.
Qed.

Lemma prefixed_has_prefix k : has_prefix header_prefix (header_prefix +:+ k) = true.
Proof. apply has_prefix_spec. by exists k. Qed.

Lemma wire_headers_sendable m : sendable m -> wire_headers m = map single (own_fields m) ++ map user_field (cm_Header m).
Proof.
  intros [Hv Hn Hvals (Hs & Hm & Ht)]. destruct (validateMsg_keys m Hv) as [Hkeys _]. destruct (own_names m) as (Hcan & Hnd & Hpre).
  assert (extraHeaders m = own_fields m ++ map (fun kv => (header_prefix +:+ kv.1, kv.2)) (cm_Header m)) as Hx
    by (unfold extraHeaders, own_fields; by rewrite <-!app_assoc).
  assert (map (fun kv => CanonicalMIMEHeaderKey kv.1) (map (fun kv => (header_prefix +:+ kv.1, kv.2)) (cm_Header m))
          = map (fun kv => header_prefix +:+ CanonicalMIMEHeaderKey kv.1) (cm_Header m)) as Huser.
  { rewrite map_map. apply map_ext_Forall. eapply Forall_impl; [exact Hkeys|]. intros kv Hkv. by apply canonical_prefix. }
  assert (NoDup (map (fun kv => CanonicalMIMEHeaderKey kv.1) (extraHeaders m))) as Hall.
  { rewrite Hx, map_app, Hcan, Huser. apply NoDup_app. split_and!; [done| |].
    - intros k Hk Hin. rewrite forallb_forall in Hpre. specialize (Hpre k (proj1 (list_elem_of_In _ _) Hk)).
      apply list_elem_of_In, in_map_iff in Hin as (kv & <- & _). by rewrite prefixed_has_prefix in Hpre.
    - rewrite <-(map_map (fun kv : string * string => CanonicalMIMEHeaderKey kv.1) (String.append header_prefix)).
      apply (NoDup_fmap_2_strong (String.append header_prefix)); [|done]. intros a b _ _ Hab. cbn in Hab. by injection Hab. }
  unfold wire_headers. rewrite headers_append by done. rewrite Hx, !map_app, !map_map. f_equal.
  - assert (Forall (fun kv => wire_safe kv.2) (own_fields m)) as Hsafe.
    { unfold own_fields. repeat case_bool_decide; simpl; repeat constructor; simpl; (apply Hs || apply Hm || apply Ht). }
    clear -Hcan Hsafe. unfold single. induction (own_fields m) as [|kv l IH]; [done|]. simpl in *. injection Hcan as Hk Hl.
    apply Forall_cons in Hsafe as [[Hv _] Hsafe]. simpl. by rewrite Hk, Hv, IH.
  - rewrite Forall_forall in Hkeys, Hvals. apply map_ext_in. intros kv Hin%list_elem_of_In. destruct (Hvals kv Hin) as [Hw _]. cbn [fst snd map].
    unfold user_field. by rewrite canonical_prefix, Hw by auto.
Qed.

Lemma headers_loop_own acc l h : forallb (fun k => negb (has_prefix header_prefix k)) (map fst l) = true ->
  publishHeaders_loop acc (map single l ++ h) = publishHeaders_loop acc h.
Proof.
  induction l as [|[k v] l IH]; [done|]. simpl. intros [Hk Hl]%andb_prop. by rewrite Hk, IH.
Qed.

Lemma headers_loop_user acc h :
  NoDup (map fst acc ++ map (fun kv => CanonicalMIMEHeaderKey kv.1) h) ->
  publishHeaders_loop acc (map user_field h) = inr (acc ++ map (fun kv => (CanonicalMIMEHeaderKey kv.1, kv.2)) h).
Proof.
  revert acc. induction h as [|[k v] h IH]; intros acc Hnd; [simpl; by rewrite app_nil_r|].
  cbn [map publishHeaders_loop user_field fst snd]. rewrite prefixed_has_prefix. cbn [negb].
  rewrite drop_str_app, canonical_idem.
  assert (has_header (CanonicalMIMEHeaderKey k) acc = false) as ->.
  { unfold has_header. apply not_true_iff_false. intros ([k' v'] & Hin & Heq%bool_decide_eq_true)%existsb_exists. simpl in Heq. subst.
    apply NoDup_app in Hnd as (_ & Hd & _). apply (Hd (CanonicalMIMEHeaderKey k)); [|simpl; set_solver].
    apply list_elem_of_In, in_map_iff. by exists (CanonicalMIMEHeaderKey k, v'). }
  rewrite IH; [by rewrite <-app_assoc|]. rewrite map_app, <-app_assoc. done.
Qed.

Lemma header_get_own k m : has_prefix header_prefix k = false ->
  header_get k (map single (own_fields m) ++ map user_field (cm_Header m)) = header_get k (map single (own_fields m)).
Proof.
  intros Hk. unfold header_get. generalize (map single (own_fields m)) as l. induction l as [|x l IH]; simpl.
  - induction (cm_Header m) as [|kv h IHh]; [done|]. cbn [map List.find user_field fst]. rewrite bool_decide_false; [exact IHh|].
    intros <-. by rewrite prefixed_has_prefix in Hk.
  - by case_bool_decide.
Qed.

(** What the handler reads back of a sendable message. *)
Lemma client_request_fields limit stream m :
  sendable m ->
  let q := client_request limit stream m in
  publishSubject q = inr (cm_Subject m)
  /\ publishHeaders q = inr (map (fun kv => (CanonicalMIMEHeaderKey kv.1, kv.2)) (cm_Header m))
  /\ header_get "Messq-Msg-Id" (hp_headers q) = cm_MsgID m
  /\ header_get "Messq-Trace-Id" (hp_headers q) = cm_TraceID m
  /\ header_get "Traceparent" (hp_headers q) = "".
Proof.
  intros Hsend. pose proof (wire_headers_sendable m Hsend) as Hw. destruct Hsend as [Hv Hn _ _].
  destruct (validateMsg_keys m Hv) as [_ Hsub]. destruct (own_names m) as (_ & _ & Hpre). simpl. rewrite Hw.
  split; [|split].
  - unfold publishSubject. simpl hp_subject. simpl hp_headers. rewrite Hw, header_get_own by done. unfold own_fields.
    cbn [app map single header_get List.find fst]. rewrite bool_decide_true by done. cbn. rewrite bool_decide_false by done. done.
  - unfold publishHeaders. simpl hp_headers. rewrite Hw, headers_loop_own by done. by rewrite headers_loop_user.
  - rewrite !header_get_own by done. unfold own_fields, header_get.
    repeat (case_bool_decide; cbn [app map single List.find fst snd]);
      repeat (rewrite bool_decide_false by done || rewrite bool_decide_true by done); done.
Qed.

(** ** Facts: one exchange *)

Section Exchange.
Context `{Ids} `{!FreshIds} (limits : Limits) (dev : bool) (limit : Z).

Lemma publish_stream_exists name now w row :
  ValidateExistingStreamName name = Ok tt -> find_stream name (w_db w) = Some row ->
  exists info, publish_stream limits dev name now w = (w, Ok info).
Proof.
  intros Hn Hrow. unfold publish_stream, StreamAdmin.GetStream. rewrite Hn. simpl. rewrite Hrow. eauto.
Qed.

Lemma rolled_back_ok stream r now w w' res :
  world_ok w -> Publish.publishWriteCmd limits stream r now w = (w', res) -> world_ok (World (w_db w) (w_mem w')).
Proof.
  intros Hok Hrun. pose proof (System.grows_publish limits stream r now w) as Hg. rewrite Hrun in Hg. by eapply Inv_mono.
Qed.

(** The world a served publish leaves: the database as it was, or the publish done. *)
Definition served (stream key : string) (now : Z) (row : stream_row) (w w' : world) (r : answer Publish.Ack) : Prop :=
  (w_db w' = w_db w /\ exists e, r = Refused e)
  \/ exists req ack, pr_MsgID req = key /\ Publish.publish_done limits (UnixMilli now) (Publish.config_of stream row) req w w' ack
     /\ match r with Body _ a => a = ack | Refused _ => True end.

Lemma handle_effect q draws co now w row :
  world_ok w -> find_stream (hp_stream q) (w_db w) = Some row ->
  let '(w', r) := handlePublishMessage limits dev q draws co now w in
  world_ok w' /\ served (hp_stream q) (header_get "Messq-Msg-Id" (hp_headers q)) now row w w' r.
Proof.
  intros Hok Hrow. unfold handlePublishMessage, check.
  destruct (ValidateExistingStreamName (hp_stream q)) as [[]|e] eqn:Hn; [|split; [done|left; eauto]].
  destruct (publish_stream_exists (hp_stream q) now w row Hn Hrow) as [info ->].
  destruct (publish_request limits q (StreamAdmin.Config info) draws) as [e|req] eqn:Hreq; [split; [done|left; eauto]|].
  assert (pr_MsgID req = header_get "Messq-Msg-Id" (hp_headers q)) as Hid.
  { unfold publish_request in Hreq. repeat case_match; try done. by injection Hreq as <-. }
  unfold submit_as. destruct (Publish.publishWriteCmd limits (hp_stream q) req now w) as [w1 [[ack evs]|e]] eqn:Hrun;
    [|split; [by eapply rolled_back_ok|left; eauto]].
  pose proof (wp_run _ _ _ _ _ _ (Publish.publishWriteCmd_wp limits (hp_stream q) req now w Hok) Hrun) as (row' & Hrow' & Hd).
  assert (row' = row) as -> by congruence.
  pose proof (Publish.publish_keeps _ _ _ _ _ _ _ Hok Hrun) as Hok1.
  destruct co as [|[]]; (split; [done || by eapply rolled_back_ok|]); [right|right|left]; eauto 10.
Qed.

(** The messages under a key. *)
Definition keyed_by (stream key : string) (d : db) (x : message) : Prop :=
  x ∈ messages d /\ m_stream x = stream /\ m_dedup_key x = Some key.

Definition receipt (ack : Publish.Ack) (x : message) : Prop :=
  (Publish.ack_Seq ack, Publish.ack_ID ack, Publish.ack_TraceID ack, Publish.ack_PublishedAt ack) = (m_seq x, m_id x, m_trace_id x, m_published_at x).

Lemma done_keeps now lc req w w' ack x : Publish.publish_done limits now lc req w w' ack -> x ∈ messages (w_db w) -> x ∈ messages (w_db w').
Proof.
  intros [_ [(orig & f & _ & _ & _ & _ & -> & _)|(m & _ & _ & Happ & _)]] Hx; [done|].
  rewrite (Publish.app_messages _ _ _ Happ). apply elem_of_app. by left.
Qed.

Lemma served_effect stream key now row w w' r :
  served stream key now row w w' r -> 0 < st_dedup_window_ms row -> key <> "" ->
  (forall x, keyed_by stream key (w_db w) x -> keyed_by stream key (w_db w') x)
  /\ streams (w_db w') = streams (w_db w)
  /\ match r with Body _ ack => exists x, keyed_by stream key (w_db w') x /\ receipt ack x | Refused _ => True end.
Proof.
  intros [(Hdb & e & ->)|(req & ack & <- & Hd & Hr)] Hwin Hkey; [rewrite Hdb; auto|].
  destruct (Publish.publish_done_keyed _ _ _ _ _ _ _ _ Hd Hwin Hkey) as [(m & Hm & Hs & Hk & Hack) Hstr].
  split; [|split; [done|]].
  - intros x (Hx & Hxs & Hxk). split; [by eapply done_keeps|done].
  - destruct r as [st a|]; [|done]. subst a. exists m. done.
Qed.
End Exchange.

(** ** Chunks *)

Lemma max_batch_spec {A} fuel (msgs : list A) n :
  (0 < n)%nat -> (length msgs <= fuel)%nat ->
  List.concat (max_batch fuel msgs n) = msgs /\ Forall (fun c => (0 < length c <= n)%nat) (max_batch fuel msgs n).
Proof.
  intros Hn. revert msgs. induction fuel as [|fuel IH]; intros msgs Hf; destruct msgs as [|a msgs]; simpl in *; try (split; [done|constructor]); [lia|].
  destruct n as [|n]; [lia|]. simpl.
  destruct (IH (drop n msgs)) as [Hc Ha]; [rewrite length_drop; lia|]. split; [rewrite Hc; f_equal; apply take_drop|].
  constructor; [|done]. simpl. rewrite length_take. lia.
Qed.

(** Chunking loses, repeats and reorders nothing. *)
Lemma MaxBatch_chunks {A} (msgs : list A) n :
  List.concat (MaxBatch msgs n) = msgs
  /\ Forall (fun c => 0 < Z.of_nat (length c) <= if n <=? 0 then DefaultPublishBatchCap else n) (MaxBatch msgs n).
Proof.
  unfold MaxBatch. set (k := if n <=? 0 then DefaultPublishBatchCap else n).
  assert (0 < k) as Hk by (unfold k, DefaultPublishBatchCap; destruct (Z.leb_spec n 0); lia).
  destruct (max_batch_spec (length msgs) msgs (Z.to_nat k)) as [Hc Ha]; [lia|done|]. split; [done|].
  eapply Forall_impl; [exact Ha|]. intros c. simpl. lia.
Qed.

(** ** Properties *)

Section Properties.
Context `{Ids} `{!FreshIds} (limits : Limits) (dev : bool) (limit : Z).

(** What may happen between the two exchanges: the stream stays, and no message
    that carries the key goes. *)
Definition keeps_key (stream key : string) (row : stream_row) (between : world -> world) : Prop :=
  forall w, world_ok w -> find_stream stream (w_db w) = Some row ->
    world_ok (between w) /\ find_stream stream (w_db (between w)) = Some row
    /\ forall x, keyed_by stream key (w_db w) x -> keyed_by stream key (w_db (between w)) x.

Lemma publishOnce_effect stream m x draws now w row :
  world_ok w -> find_stream stream (w_db w) = Some row -> 0 < st_dedup_window_ms row -> sendable m -> cm_MsgID m <> "" ->
  let '(w', r) := publishOnce limits dev limit stream m x draws now w in
  world_ok w' /\ find_stream stream (w_db w') = Some row
  /\ (forall y, keyed_by stream (cm_MsgID m) (w_db w) y -> keyed_by stream (cm_MsgID m) (w_db w') y)
  /\ match r with inr ack => exists y, keyed_by stream (cm_MsgID m) (w_db w') y /\ receipt ack y | inl _ => True end.
Proof.
  intros Hok Hrow Hwin Hsend Hkey. unfold publishOnce. destruct (negb _); [done|].
  assert (forall co, let '(w', r) := handlePublishMessage limits dev (client_request limit stream m) draws co now w in
            world_ok w' /\ find_stream stream (w_db w') = Some row
            /\ (forall y, keyed_by stream (cm_MsgID m) (w_db w) y -> keyed_by stream (cm_MsgID m) (w_db w') y)
            /\ match r with Body _ ack => exists y, keyed_by stream (cm_MsgID m) (w_db w') y /\ receipt ack y | Refused _ => True end) as Hserve.
  { intros co. pose proof (handle_effect limits dev (client_request limit stream m) draws co now w row Hok Hrow) as Hh.
    destruct (handlePublishMessage _ _ _ _ _ _ _) as [w' r]. destruct Hh as [Hok' Hs].
    destruct (client_request_fields limit stream m Hsend) as (_ & _ & Hid & _). rewrite Hid in Hs.
    destruct (served_effect _ _ _ _ _ _ _ _ Hs Hwin Hkey) as (Hk & Hstr & Hr). split_and!; try done.
    unfold find_stream in *. by rewrite Hstr. }
  destruct x as [|co d|co]; [done| |]; specialize (Hserve co); destruct (handlePublishMessage _ _ _ _ _ _ _) as [w' [st ack|e]]; simpl; naive_solver.
Qed.


(** A message arrives as it was sent, by either route.  For a message the
    client accepts, with header names distinct up to case and no blanks around
    its values: the raw route, if it takes the request, submits its subject,
    body, id and headers, the names in canonical form, with the trace id given
    or a valid fresh one; and the line of a batch decodes to exactly its
    fields. *)
Theorem publish_arrives_as_sent stream m sc draws :
  sendable m -> NoDup (map fst (cm_Header m)) ->
  (forall req, publish_request limits (client_request limit stream m) sc draws = inr req ->
     pr_Subject req = cm_Subject m /\ pr_Body req = cm_Body m /\ pr_MsgID req = cm_MsgID m
     /\ pr_Headers req = map (fun kv => (CanonicalMIMEHeaderKey kv.1, kv.2)) (cm_Header m)
     /\ pr_TraceID req = IdGen.ResolveTraceID (cm_TraceID m) "" draws)
  /\ (exists e, decode_entry (batchEntryWire m) = Some e /\ entry_request e = inr (request_of m)).
Proof.
  intros Hsend Hnd. split; [|exists (entry_of m); split; [by apply decode_line|apply entry_request_of]].
  intros req Hreq. destruct (client_request_fields limit stream m Hsend) as (Hsub & Hh & Hid & Htr & Htp).
  unfold publish_request in Hreq. rewrite Hsub, Hh, Hid, Htr, Htp in Hreq.
  destruct (ValidateMsgID _) as [?|?]; [|done]. destruct (ValidateTraceIDToken _) as [?|?]; [|done].
  unfold readBody in Hreq. destruct (_ <? _); [done|]. destruct (_ <? _); [done|].
  destruct (ValidatePublish _ _ _) as [?|?]; [|done]. by injection Hreq as <-.
Qed.
End Properties.

(** ** The theorems at work *)

Import Samples.

Definition paid : Msg := MkMsg "orders.paid" "{}" "order-17" "" [("x-tenant", "acme")].

Lemma paid_sendable : sendable paid.
Proof.
  split; [done|apply (bool_decide_unpack _); by vm_compute| |]; [repeat constructor|]; by vm_compute.
Qed.

(** The first reply is lost, the second exchange is answered as a duplicate. *)
Definition retried := Publish DefaultLimits false 1048576 "orders" paid (NoReply Committed false) (Replied Committed) [] [] 7000000 8000000 id base.


Lemma publish_arrives_as_sent_witness :
  exists e, decode_entry (batchEntryWire paid) = Some e /\ entry_request e = inr (request_of paid).
Proof.
  exact (proj2 (publish_arrives_as_sent DefaultLimits 1048576 "orders" paid (DefaultConfig "orders") [] paid_sendable (NoDup_singleton "x-tenant"))).
Defined.

(** Two header names that differ in case only: the client accepts them, sets the
    second over the first, and the message is stored with one of the two. *)
Definition cased : Msg := MkMsg "orders.paid" "{}" "" "" [("tenant", "a"); ("Tenant", "b")].

Lemma case_variant_header_dropped :
  validateMsg cased = None /\ publishHeaders (client_request 1048576 "orders" cased) = inr [("Tenant", "b")].
Proof. by vm_compute. Qed.

(** A body above the request cap of the chain is refused although the stream
    accepts messages of its size. *)
Lemma request_cap_refuses q maxMsgSize :
  hp_limit q < slen (hp_body q) <= maxMsgSize -> hp_clen q <= maxMsgSize -> exists e, readBody q maxMsgSize = inl e /\ mapCode e = CodeTooLarge.
Proof.
  intros Hb Hc. unfold readBody. rewrite (proj2 (Z.ltb_ge maxMsgSize (hp_clen q)) Hc).
  rewrite (proj2 (Z.ltb_lt (Z.min (maxMsgSize + 1) (hp_limit q)) (slen (hp_body q)))) by lia. eauto.
Qed.

(** The trace id of a raw publish always passes the check of the store. *)
Lemma resolved_trace_valid explicit tp draws :
  Forall IdGen.sixteen draws -> ValidateTraceIDToken explicit = Ok tt -> ValidateTraceIDToken (IdGen.ResolveTraceID explicit tp draws) = Ok tt.
Proof.
  intros Hd Hv. destruct (bool_decide (explicit = "")) eqn:He.
  2: { unfold IdGen.ResolveTraceID. by rewrite He. }
  apply bool_decide_eq_true in He as ->. destruct (IdGen.resolved_trace_parses tp draws Hd) as (t & Hp & ->).
  unfold IdGen.ParseTraceID in Hp. destruct (IdGen.decodeLowerHex _ 16) as [t'|] eqn:Hx; [|done].
  destruct (IdGen.IsZero t') eqn:Hz; [done|]. injection Hp as ->. apply IdGen.decodeLowerHex_inv in Hx as [_ Hl].
  unfold ValidateTraceIDToken, slen. rewrite encode_length, Hl. rewrite bool_decide_false by (by destruct t). simpl.
  assert (all_bytes printable (EncodeToString t) = true) as ->.
  { pose proof (encode_is_hex t) as Hh. induction (EncodeToString t) as [|c u IHu]; [done|]. cbn [all_bytes] in *.
    apply andb_prop in Hh as [Hc Hu]. rewrite (IHu Hu), andb_true_r. unfold printable, is_hex, is_digit, cont_in in *. bool_prop. lia. }
  simpl. rewrite bool_decide_false; [done|]. intros Heq.
  assert (t = IdGen.zero_id 16) as ->; [|done].
  assert (hex_decode (EncodeToString t) = hex_decode (EncodeToString (IdGen.zero_id 16))) as Hdec by (by rewrite Heq).
  rewrite !hex_decode_encode in Hdec. by injection Hdec.
Qed.

End ApiPublish.
