(* ===== verification/OpenStore.v ===== *)
(** * Opening and closing a data directory

    [internal/store/migrate.go], [migrations/*.sql], [store.go], [recovery.go]
    and [provenance.go]: the migration ladder, the startup sequence of [Open]
    up to the dirty marker, the hand-off of the write handle and [Close].

    [Open] is not one transaction: every statement outside a [BEGIN] commits on
    its own.  A startup is therefore modelled with the list of the states it
    commits, so that a crash may leave any of them on disk.

    The connection pools and their pragmas, the flock, the file sizes and the
    WAL checkpoint have no counterpart here. *)

From S2P Require Export StreamAdmin StoreSweep Flags.

Module OpenStore.
Import StreamAdmin StoreSweep.

(** ** The database file *)

(** [fl_objects] and [fl_columns] are what [sqlite_schema] lists: the tables and
    indexes, and the columns added to a table after its creation.  A table that
    is not listed has no rows. *)
Record file : Set := MkFile {
  fl_objects : list string;
  fl_columns : list (string * string);
  fl_user_version : Z;
  fl_db : db;
}.

Definition fresh_file : file := MkFile [] [] 0 empty_db.

Definition on_db (g : db -> db) (f : file) : file :=
  MkFile (fl_objects f) (fl_columns f) (fl_user_version f) (g (fl_db f)).
Definition on_user_version (v : Z) (f : file) : file :=
  MkFile (fl_objects f) (fl_columns f) v (fl_db f).

(** SELECT name FROM sqlite_schema WHERE name = ? *)
Definition exists_object (name : string) (f : file) : bool := existsb (String.eqb name) (fl_objects f).

(** ** migrations/*.sql *)

Inductive statement : Set :=
| CreateTable (table : string)
| CreateTableIfNotExists (table : string)
| CreateIndex (index table : string)
| AddColumn (table column : string).

(** A column added to [stream_stats] has the default 0 in the rows already there. *)
Definition add_default (column : string) (r : stats_row) : stats_row :=
  if String.eqb column "expired_seq" then StatsRow (ss_stream r) (ss_msgs r) (ss_bytes r) 0 (ss_expired_at r)
  else if String.eqb column "expired_at" then StatsRow (ss_stream r) (ss_msgs r) (ss_bytes r) (ss_expired_seq r) 0
  else r.

Definition add_object (name : string) (f : file) : file :=
  MkFile (fl_objects f ++ [name]) (fl_columns f) (fl_user_version f) (fl_db f).

Definition exec_statement (s : statement) (f : file) : result file :=
  match s with
  | CreateTable t => if exists_object t f then Err (Plain "table already exists") else Ok (add_object t f)
  | CreateTableIfNotExists t => if exists_object t f then Ok f else Ok (add_object t f)
  | CreateIndex i t =>
      if exists_object i f then Err (Plain "index already exists")
      else if negb (exists_object t f) then Err (Plain "no such table") else Ok (add_object i f)
  | AddColumn t c =>
      if negb (exists_object t f) then Err (Plain "no such table")
      else if bool_decide ((t, c) ∈ fl_columns f) then Err (Plain "duplicate column name")
      else Ok (MkFile (fl_objects f) (fl_columns f ++ [(t, c)]) (fl_user_version f)
                 (if String.eqb t "stream_stats" then on_stream_stats (map (add_default c)) (fl_db f) else fl_db f))
  end.

Fixpoint execScript (script : list statement) (f : file) : result file :=
  match script with
  | [] => Ok f
  | s :: script => let? f' := exec_statement s f in execScript script f'
  end.

Definition init_sql : list statement :=
  [CreateTable "meta"; CreateTable "streams"; CreateTable "stream_seq"; CreateTable "messages";
   CreateIndex "messages_id" "messages"; CreateIndex "messages_dedup" "messages";
   CreateIndex "messages_subj" "messages"; CreateIndex "messages_age" "messages";
   CreateTable "consumers"; CreateTable "deliveries";
   CreateIndex "deliveries_ready" "deliveries"; CreateIndex "deliveries_seq" "deliveries";
   CreateTable "events"; CreateIndex "events_msg" "events"; CreateIndex "events_trace" "events";
   CreateIndex "events_ts" "events"].
Definition stream_stats_sql : list statement := [CreateTable "stream_stats"].
Definition deliveries_expiry_sql : list statement := [CreateIndex "deliveries_expiry" "deliveries"].
Definition stream_stats_expiry_sql : list statement :=
  [AddColumn "stream_stats" "expired_seq"; AddColumn "stream_stats" "expired_at"].

(** ** migrate.go *)

Record migration : Set := MkMigration {
  mg_n : Z;
  mg_name : string;
  mg_sql : list statement;
  mg_sha : string;
}.

(** What [loadMigrations] makes of the embedded files: sorted by ordinal. *)
Definition embeddedMigrations : list migration :=
  [MkMigration 1 "init" init_sql "9c51535317165db10e5fd39c197b55c954f86a6b2ad6f325d73c83b0526028e4";
   MkMigration 2 "stream_stats" stream_stats_sql "ee10de39320ae187bbb342113f4955eb2a674efd81c32aca3d8676c869c5c18b";
   MkMigration 3 "deliveries_expiry" deliveries_expiry_sql "450bbd4090afb738101baca0292bc6fb4a7ae56cfa68347bae1b175aae81fe4d";
   MkMigration 4 "stream_stats_expiry" stream_stats_expiry_sql "61c7cd138d3537e583b11c00aca271852327eb79a60e54101a2d97525407c11d"].

Definition migrationChecksumKey (n : Z) : string := "migration_" +:+ format_int n +:+ "_sha256".

Definition metaSchemaVersion : string := "schema_version".
Definition metaSchemaAppliedAt : string := "schema_applied_at".
Definition metaTableDDL : statement := CreateTableIfNotExists "meta".

(** The two sentinels of the ladder, as tags. *)
Definition ErrMigrationDrift : error := Plain "migration drift".
Definition ErrSchemaTooNew : error := Plain "schema too new".
Definition ErrCorrupt : error := Plain "corrupt".

Definition readMeta (key : string) (f : file) : result (option string) :=
  if exists_object "meta" f then Ok (meta_get key (fl_db f)) else Err (Plain "no such table").

Definition upsertMeta (key val : string) (f : file) : result file :=
  if exists_object "meta" f then Ok (on_db (meta_put key val) f) else Err (Plain "no such table").

Definition readAppliedVersion (f : file) : result Z :=
  if negb (exists_object "meta" f) then Ok 0
  else match meta_get metaSchemaVersion (fl_db f) with
       | None => Err ErrMigrationDrift
       | Some raw => match atoi raw with
                     | Some v => Ok v
                     | None => Err (Plain "not an integer")
                     end
       end.

Definition pragmaUserVersion (f : file) : Z := fl_user_version f.

(** The loop over the shipped migrations, which stops at the first ordinal above [from]. *)
Fixpoint verify_checksums (from : Z) (ladder : list migration) (f : file) : result unit :=
  match ladder with
  | [] => Ok tt
  | m :: ladder =>
      if from <? mg_n m then Ok tt
      else let? recorded := readMeta (migrationChecksumKey (mg_n m)) f in
           match recorded with
           | None => Err ErrMigrationDrift
           | Some sha => if String.eqb sha (mg_sha m) then verify_checksums from ladder f else Err ErrMigrationDrift
           end
  end.

Definition verifyLadderState (ladder : list migration) (from : Z) (f : file) : result unit :=
  if negb (pragmaUserVersion f =? from) then Err ErrMigrationDrift else verify_checksums from ladder f.

(** The pending scripts, each followed by its digest; the flag is [applied]. *)
Fixpoint apply_pending (from : Z) (ladder : list migration) (f : file) (applied : bool) : result (file * bool) :=
  match ladder with
  | [] => Ok (f, applied)
  | m :: ladder =>
      if mg_n m <=? from then apply_pending from ladder f applied
      else let? f1 := execScript (mg_sql m) f in
           let? f2 := upsertMeta (migrationChecksumKey (mg_n m)) (mg_sha m) f1 in
           apply_pending from ladder f2 true
  end.

(** The statements between BEGIN IMMEDIATE and COMMIT. *)
Definition migrate_body (ladder : list migration) (now : Z) (f : file) : result (file * (Z * Z)) :=
  let to := Z.of_nat (length ladder) in
  let? from := readAppliedVersion f in
  if to <? from then Err ErrSchemaTooNew
  else
    let? _ := (if 0 <? from then verifyLadderState ladder from f else Ok tt) in
    let? fa := apply_pending from ladder f false in
    let '(f1, applied) := fa in
    let? f2 := exec_statement metaTableDDL f1 in
    let? f3 := upsertMeta metaSchemaVersion (format_int to) f2 in
    let? f4 := (if applied : bool then upsertMeta metaSchemaAppliedAt (format_int (UnixMilli now)) f3 else Ok f3) in
    Ok (on_user_version to f4, (from, to)).

(** ** Statements that commit on their own *)

(** A piece of the startup: the states it commits, in order, and its outcome. *)
Definition boot (A : Type) : Type := file -> list file * result A.

(** The file after the commits [h] on [f]. *)
Definition current (f : file) (h : list file) : file := default f (last h).

#[global] Instance boot_ret : MRet boot := fun A a f => ([], Ok a).
#[global] Instance boot_bind : MBind boot := fun A B g m f =>
  let '(h, r) := m f in
  match r with
  | Err e => (h, Err e)
  | Ok a => let '(h', r') := g a (current f h) in (h ++ h', r')
  end.

Definition refuse {A} (e : error) : boot A := fun f => ([], Err e).
(** A read. *)
Definition look {A} (q : file -> result A) : boot A := fun f => ([], q f).
(** A transaction: it commits one state, or rolls back. *)
Definition committing {A} (body : file -> result (file * A)) : boot A := fun f =>
  match body f with
  | Ok (f', a) => ([f'], Ok a)
  | Err e => ([], Err e)
  end.
(** A transaction on the tables, with the empty memory of a process that starts. *)

Definition transact {A} (t : tx A) : boot A := committing (fun f =>
  match t (World (fl_db f) empty_mem) with
  | (w, Ok a) => Ok (on_db (fun _ => w_db w) f, a)
  | (_, Err e) => Err e
  end).

Definition migrate (ladder : list migration) (now : Z) : boot (Z * Z) := committing (migrate_body ladder now).

(** ** store.go: the bookkeeping rows *)

Definition metaNodeID : string := "node_id".
Definition metaCreatedAt : string := "created_at".
Definition metaCleanShutdown : string := "clean_shutdown".

Definition upsertMetaDB (key val : string) : boot unit :=
  committing (fun f => let? f' := upsertMeta key val f in Ok (f', tt)).

(** A row that is read, and written when it is missing. *)
Definition ensure_row (key val : string) : boot string := fun f =>
  match readMeta key f with
  | Err e => ([], Err e)
  | Ok (Some stored) => ([], Ok stored)
  | Ok None => (_ ← upsertMetaDB key val; mret val) f
  end.

Definition ensureCreationBookkeeping (now : Z) (newID : string) : boot string :=
  stored ← ensure_row metaNodeID newID;
  _ ← ensure_row metaCreatedAt (format_int (UnixMilli now));
  mret stored.

Definition readOnDiskIdentity (f : file) : result (Z * string) :=
  if negb (exists_object "meta" f) then Ok (0, "")
  else
    let nodeID := default "" (meta_get metaNodeID (fl_db f)) in
    match meta_get metaSchemaVersion (fl_db f) with
    | None => Ok (0, nodeID)
    | Some raw => match atoi raw with
                  | Some v => Ok (v, nodeID)
                  | None => Err (Plain "not an integer")
                  end
    end.

(** ** recovery.go *)

Definition checkQuickCheck : string := "quick_check".
Definition checkIntegrityCheck : string := "integrity_check".
Definition checkSkipped : string := "skipped".
Definition maxReportedCheckProblems : nat := 8.

(** [uncleanEventSQL] *)
Definition unclean_event (nowMS : Z) (reason : string) : event :=
  Event nowMS "recovery.unclean" None None None None None None None None [("reason", DStr reason)].

Definition recordUncleanEvent (now : Z) (reason : string) : boot unit :=
  transact (insertEvent (unclean_event (UnixMilli now) reason)).

(** The rows of the PRAGMA become the problems: an "ok" row ends the reading
    with none, the cap ends it with what was read. *)
Fixpoint check_rows (rows problems : list string) : list string :=
  match rows with
  | [] => match problems with [] => ["check produced no result"] | _ => problems end
  | line :: rows =>
      if String.eqb line "ok" then []
      else let problems := problems ++ [line] in
           if (maxReportedCheckProblems <=? length problems)%nat then problems else check_rows rows problems
  end.

(** [pragma kind f] is what SQLite answers to PRAGMA [kind]. *)
Definition runStartupCheck (pragma : string -> file -> result (list string)) (kind : string) (f : file) : result (list string) :=
  let? rows := pragma kind f in Ok (check_rows rows []).

(** ** provenance.go *)

Definition metaSnapshotTakenAt : string := "snapshot_taken_at".
Definition metaSnapshotSourceNode : string := "snapshot_source_node".
Definition metaSnapshotToolVersion : string := "snapshot_tool_version".
Definition metaSnapshotStreamHeads : string := "snapshot_stream_heads".
Definition metaRestoredAt : string := "restored_at".
Definition metaRestoredFromNode : string := "restored_from_node".
Definition metaRestoredSnapshotAt : string := "restored_snapshot_at".
Definition metaRestoredStreamHeads : string := "restored_stream_heads".
Definition metaRestoredToolVersion : string := "restored_tool_version".

Record Provenance : Set := MkProvenance {
  pv_RestoredAt : Z;  (* unix ms *)
  pv_SnapshotAt : Z;
  pv_SourceNodeID : string;
  pv_StreamHeads : list (string * Z);
  pv_ToolVersion : string;
}.

Definition readMetaOrEmpty (key : string) (f : file) : string :=
  match readMeta key f with
  | Ok (Some v) => v
  | _ => ""
  end.

(** [provenanceSweepSQL]: in LIKE the underscore stands for any one character
    and letters match in either case. *)
Definition like_snapshot (k : string) : bool :=
  has_prefix "snapshot" (fold_case k) && (9 <=? String.length k)%nat.

(** [provenanceEventSQL] *)
Definition restore_event (nowMS takenMs : Z) (source : string) : event :=
  Event nowMS "admin.action" None None None None None None None None
    [("action", DStr "restore_detected"); ("snapshot_at_ms", DInt takenMs); ("source_node_id", DStr source)].

Definition rewrite_stamp (now takenMs : Z) (source headsRaw tool : string) : tx unit :=
  _ ← exec (meta_put metaRestoredAt (format_int (UnixMilli now)));
  _ ← exec (meta_put metaRestoredFromNode source);
  _ ← exec (meta_put metaRestoredSnapshotAt (format_int takenMs));
  _ ← exec (meta_put metaRestoredStreamHeads headsRaw);
  _ ← exec (meta_put metaRestoredToolVersion tool);
  _ ← exec (on_meta (delete_where (fun kv => like_snapshot kv.1)));
  insertEvent (restore_event (UnixMilli now) takenMs source).

Section Provenance.
(** [json.Unmarshal] of a text into [map[string]int64]. *)
Context (unmarshal_heads : string -> option (list (string * Z))).

Definition heads_of (raw : string) : result (list (string * Z)) :=
  if String.eqb raw "" then Ok []
  else match unmarshal_heads raw with
       | Some heads => Ok heads
       | None => Err ErrCorrupt
       end.

Definition loadRestoredProvenance (f : file) : result (option Provenance) :=
  let? at_row := readMeta metaRestoredAt f in
  match at_row with
  | None => Ok None
  | Some atRaw =>
      match atoi (TrimSpace atRaw) with
      | None => Err ErrCorrupt
      | Some atMs =>
          let snapRaw := readMetaOrEmpty metaRestoredSnapshotAt f in
          let snapMs := if String.eqb snapRaw "" then atMs else default atMs (atoi (TrimSpace snapRaw)) in
          let? heads := heads_of (readMetaOrEmpty metaRestoredStreamHeads f) in
          Ok (Some (MkProvenance atMs snapMs (readMetaOrEmpty metaRestoredFromNode f) heads
                      (readMetaOrEmpty metaRestoredToolVersion f)))
      end
  end.

Definition detectRestoredProvenance (now : Z) : boot (option Provenance * bool) :=
  taken ← look (readMeta metaSnapshotTakenAt);
  match taken with
  | None => p ← look loadRestoredProvenance; mret (p, false)
  | Some takenRaw =>
      match atoi (TrimSpace takenRaw) with
      | None => refuse ErrCorrupt
      | Some takenMs =>
          source ← look (fun f => Ok (readMetaOrEmpty metaSnapshotSourceNode f));
          tool ← look (fun f => Ok (readMetaOrEmpty metaSnapshotToolVersion f));
          headsRaw ← look (fun f => Ok (readMetaOrEmpty metaSnapshotStreamHeads f));
          heads ← look (fun _ => heads_of headsRaw);
          _ ← transact (rewrite_stamp now takenMs source headsRaw tool);
          mret (Some (MkProvenance (UnixMilli now) takenMs source heads tool), true)
      end
  end.
End Provenance.

(** ** Store.Open *)

(** commands.go, finishInterruptedReaps, with every chunk a commit of its own. *)
Fixpoint finish_reap (fuel : nat) (name : string) : boot bool :=
  match fuel with
  | O => mret false
  | S fuel =>
      '(removed, _) ← transact (reapChunkCmd name);
      if removed <? deleteChunkRows then mret true else finish_reap fuel name
  end.

Fixpoint finish_reaps (fuel : nat) (names : list string) : boot bool :=
  match names with
  | [] => mret true
  | name :: names => b ← finish_reap fuel name; b' ← finish_reaps fuel names; mret (b && b')
  end.

Record Options : Set := MkOptions {
  op_ReadOnly : bool;
  op_FullCheck : bool;
  op_ReclaimJitter : Z;
  op_NewID : string;  (* the identifier the generator would mint *)
}.

(** The readings of the clock, in the order [Open] takes them. *)
Record readings : Set := MkReadings {
  at_migrate : Z;
  at_create : Z;
  at_unclean : Z;
  at_restore : Z;
  at_reclaim : Z;
}.

(** RecoveryReport without the sizes, the page count and the durations. *)
Record RecoveryReport : Set := MkReport {
  rp_NodeID : string;
  rp_SchemaFrom : Z;
  rp_SchemaTo : Z;
  rp_Unclean : bool;
  rp_CheckKind : string;
  rp_Reclaimed : Z;
  rp_DedupExpired : Z;
  rp_Restored : option Provenance;
}.

(** The handles of a Store: [rw] and [ro] are the pools. *)
Record Store : Set := MkStore {
  so_rw : bool;
  so_ro : bool;
  so_handedOff : bool;
  so_closed : bool;
}.

(** Why a directory counts as uncleanly stopped; one this Open created does not. *)
Definition unclean_reason (from : Z) (marker : option string) : option string :=
  if 0 <? from then
    match marker with
    | None => Some "clean_shutdown marker absent"
    | Some m => if String.eqb m "0" then Some "clean_shutdown marker is 0" else None
    end
  else None.

(** What a startup meets that is not code of the store: the ladder it ships,
    SQLite's PRAGMA checks and random(), JSON, and the clock. *)
Record surroundings : Type := MkSurroundings {
  sr_ladder : list migration;
  sr_pragma : string -> file -> result (list string);
  sr_heads : string -> option (list (string * Z));
  sr_random : delivery -> Z;
  sr_clock : readings;
}.

Definition open_check (sr : surroundings) (opt : Options) (unclean : bool) : boot string :=
  if unclean || op_FullCheck opt then
    let kind := if op_FullCheck opt then checkIntegrityCheck else checkQuickCheck in
    problems ← look (runStartupCheck (sr_pragma sr) kind);
    match problems with
    | [] => mret kind
    | _ => refuse ErrCorrupt
    end
  else mret checkSkipped.

(** No deletion takes more chunks than there are messages, see [finish_reaps_end]. *)
Definition open_migrated (sr : surroundings) (opt : Options) (from to : Z) : boot (Store * RecoveryReport) :=
  let clk := sr_clock sr in
  nodeID ← ensureCreationBookkeeping (at_create clk) (op_NewID opt);
  marker ← (if 0 <? from then look (readMeta metaCleanShutdown) else mret None);
  let reason := unclean_reason from marker in
  _ ← match reason with
      | Some reason => recordUncleanEvent (at_unclean clk) reason
      | None => mret tt
      end;
  let unclean := bool_decide (is_Some reason) in
  kind ← open_check sr opt unclean;
  '(restored, announce) ← detectRestoredProvenance (sr_heads sr) (at_restore clk);
  '(reclaimed, dedupExpired) ← transact (reclaimLeasesAndTrimDedup (at_reclaim clk) (op_ReclaimJitter opt) (sr_random sr));
  '(names, fuel) ← look (fun f => Ok (reap_markers (fl_db f), S (length (messages (fl_db f)))));
  _ ← finish_reaps fuel names;
  _ ← upsertMetaDB metaCleanShutdown "0";
  mret (MkStore true true false false,
        MkReport nodeID from to unclean kind reclaimed dedupExpired (if announce : bool then restored else None)).

Definition Open (sr : surroundings) (opt : Options) : boot (Store * RecoveryReport) :=
  if op_ReadOnly opt then
    '(version, nodeID) ← look readOnDiskIdentity;
    mret (MkStore false true false false, MkReport nodeID version version false checkSkipped 0 0 None)
  else
    '(from, to) ← migrate (sr_ladder sr) (at_migrate (sr_clock sr));
    open_migrated sr opt from to.

(** ** Store.TakeWriter, Store.NewWriter, Store.Close *)

Definition TakeWriter (s : Store) : Store * result unit :=
  if so_closed s || so_handedOff s then (s, Err (Plain "writer taken"))
  else if negb (so_rw s) then (s, Err (Plain "no read-write handle"))
  else (MkStore (so_rw s) (so_ro s) true (so_closed s), Ok tt).

(** [agrees]: the durability of the writer's configuration is the store's;
    [starts]: the pool passes the engine's read-back. *)
Definition NewWriter (agrees starts : bool) (s : Store) : Store * result unit :=
  if negb agrees then (s, Err (E ErrBadRequest "durability"))
  else let '(s', r) := TakeWriter s in
       match r with
       | Err e => (s', Err e)
       | Ok _ => if starts then (s', Ok tt) else (s', Err (Plain "pool failed its read-back"))
       end.

Definition Close (s : Store) (f : file) : Store * list file :=
  if so_closed s then (s, [])
  else
    let writeShutdown := so_rw s && negb (so_handedOff s) in
    (MkStore false false (so_handedOff s) true,
     if writeShutdown then (upsertMetaDB metaCleanShutdown "1" f).1 else []).

(** ** Facts: what a change leaves alone *)

Abbreviation meta_of f k := (meta_get k (fl_db f)).

(** The meta table is not dropped, the header is kept and the rows of the keys
    [ks] read the same. *)
Record stays (ks : string -> Prop) (f s : file) : Prop := {
  sy_table : exists_object "meta" f = true -> exists_object "meta" s = true;
  sy_version : fl_user_version s = fl_user_version f;
  sy_rows : forall k, ks k -> meta_of s k = meta_of f k;
}.

Definition every : string -> Prop := fun _ => True.

#[export] Instance stays_preorder ks : PreOrder (stays ks).
Proof.
  split; [by split|]. intros f g s [T V R] [T' V' R']. split; [auto|congruence|].
  intros k Hk. rewrite R', R; done.
Qed.

Lemma stays_weaken (ks ks' : string -> Prop) f s : (forall k, ks' k -> ks k) -> stays ks f s -> stays ks' f s.
Proof. intros Hk [T V R]. split; auto. Qed.

Lemma stays_meta ks f g : (forall d, meta (g d) = meta d) -> stays ks f (on_db g f).
Proof. intros Hg. split; [done..|]. intros k _. unfold meta_get. simpl. by rewrite Hg. Qed.

Lemma stays_put (ks : string -> Prop) key val f : ~ ks key -> stays ks f (on_db (meta_put key val) f).
Proof.
  intros Hn. split; [done..|]. intros k Hk. simpl. apply meta_get_put_other. by intros ->.
Qed.

Lemma add_object_meta name f : exists_object "meta" f = true -> exists_object "meta" (add_object name f) = true.
Proof. unfold exists_object. simpl. rewrite existsb_app. by intros ->. Qed.

Lemma statement_stays ks st f f' : exec_statement st f = Ok f' -> stays ks f f'.
Proof.
  assert (Hadd : forall name, stays ks f (add_object name f)).
  { intros name. split; [apply add_object_meta|done..]. }
  destruct st as [t|t|i t|t c]; simpl.
  - by destruct (exists_object t f); intros [= <-].
  - by destruct (exists_object t f); intros [= <-].
  - by destruct (exists_object i f), (exists_object t f); intros [= <-].
  - destruct (exists_object t f); [|done]. simpl. case_bool_decide; [done|]. intros [= <-].
    split; [done..|]. intros k _. unfold meta_get. simpl. by case_match.
Qed.

Lemma script_stays ks sc f f' : execScript sc f = Ok f' -> stays ks f f'.
Proof.
  revert f. induction sc as [|st sc IH]; intros f; simpl; [by intros [= <-]|].
  destruct (exec_statement st f) as [g|] eqn:Hst; simpl; [|done]. intros Hrest.
  etrans; [by eapply statement_stays|by apply IH].
Qed.

Lemma upsertMeta_Ok key val f f' :
  upsertMeta key val f = Ok f' -> exists_object "meta" f = true /\ f' = on_db (meta_put key val) f.
Proof. unfold upsertMeta. case_match; [|done]. by intros [= <-]. Qed.

(** ** Facts: the ladder *)

(** The ordinals of a shipped ladder are 1, 2, ... *)
Definition ladder_ok (ladder : list migration) : Prop :=
  map mg_n ladder = seqZ 1 (Z.of_nat (length ladder)) /\ Z.of_nat (length ladder) <= max_int64.

(** A file that records the whole ladder. *)
Record at_head (ladder : list migration) (f : file) : Prop := {
  hd_table : exists_object "meta" f = true;
  hd_schema : meta_of f metaSchemaVersion = Some (format_int (Z.of_nat (length ladder)));
  hd_mirror : fl_user_version f = Z.of_nat (length ladder);
  hd_digests : forall m, m ∈ ladder -> meta_of f (migrationChecksumKey (mg_n m)) = Some (mg_sha m);
}.

Definition digest_key (m : migration) : string := migrationChecksumKey (mg_n m).

Lemma append_inj_r (a b c : string) : a +:+ c = b +:+ c -> a = b.
Proof.
  revert b. induction a as [|x a IH]; intros [|y b] Heq; simpl in Heq; [done|..].
  - apply (f_equal String.length) in Heq. simpl in Heq. rewrite sapp_length in Heq. lia.
  - apply (f_equal String.length) in Heq. simpl in Heq. rewrite sapp_length in Heq. lia.
  - injection Heq as -> Heq. f_equal. by apply IH.
Qed.

Lemma migrationChecksumKey_inj n m :
  0 <= n <= max_int64 -> 0 <= m <= max_int64 -> migrationChecksumKey n = migrationChecksumKey m -> n = m.
Proof.
  intros Hn Hm Heq. unfold migrationChecksumKey in Heq. apply sapp_inv_head, append_inj_r in Heq.
  pose proof (atoi_format n Hn) as H1. rewrite Heq, (atoi_format m Hm) in H1. congruence.
Qed.

(** The ordinals of a ladder that starts at [a]. *)
Definition numbered (a : Z) (ladder : list migration) : Prop :=
  map mg_n ladder = seqZ a (Z.of_nat (length ladder)) /\ 1 <= a /\ a + Z.of_nat (length ladder) <= max_int64 + 1.

Lemma numbered_cons a m ladder : numbered a (m :: ladder) -> mg_n m = a /\ numbered (a + 1) ladder.
Proof.
  intros (Hmap & Ha & Hle). simpl in Hmap, Hle. rewrite seqZ_cons in Hmap by lia. injection Hmap as Hm Hmap.
  split; [done|]. split_and!; [|lia..]. rewrite Hmap. unfold Z.succ. f_equal. lia.
Qed.

Lemma numbered_elem a ladder m :
  numbered a ladder -> m ∈ ladder -> a <= mg_n m < a + Z.of_nat (length ladder) /\ 0 <= mg_n m <= max_int64.
Proof.
  intros (Hmap & Ha & Hle) Hin. assert (Hz : mg_n m ∈ seqZ a (Z.of_nat (length ladder))).
  { rewrite <-Hmap. by apply list_elem_of_fmap_2. }
  apply elem_of_seqZ in Hz. lia.
Qed.

Lemma ladder_numbered ladder : ladder_ok ladder -> numbered 1 ladder.
Proof. intros [Hmap Hle]. split_and!; [done|lia..]. Qed.

Lemma digest_fresh a m ladder : numbered a (m :: ladder) -> digest_key m ∉ map digest_key ladder.
Proof.
  intros Hnum (m' & Heq & Hin)%list_elem_of_fmap.
  pose proof (numbered_elem _ _ m Hnum ltac:(set_solver)) as [_ Hm].
  apply numbered_cons in Hnum as [Ha Hnum]. pose proof (numbered_elem _ _ m' Hnum Hin) as [Hr Hm'].
  apply migrationChecksumKey_inj in Heq; lia.
Qed.

Lemma verify_recorded a from ladder f :
  numbered a ladder -> verify_checksums from ladder f = Ok tt ->
  forall m, m ∈ ladder -> mg_n m <= from -> meta_of f (digest_key m) = Some (mg_sha m).
Proof.
  revert a. induction ladder as [|m0 ladder IH]; intros a Hnum; simpl; [set_solver|].
  apply numbered_cons in Hnum as [Ha Hnum]. destruct (Z.ltb_spec from (mg_n m0)) as [Hlt|Hge].
  - intros _ m [->|Hin]%elem_of_cons Hle; [lia|]. pose proof (numbered_elem _ _ m Hnum Hin). lia.
  - unfold readMeta. destruct (exists_object "meta" f); simpl; [|done].
    destruct (meta_get _ _) as [sha|] eqn:Hget; [|done]. destruct (String.eqb_spec sha (mg_sha m0)) as [->|]; [|done].
    intros Hrest m [->|Hin]%elem_of_cons Hle; [done|]. by eapply IH.
Qed.

(** The pending scripts record their digests and touch no other row. *)
Lemma apply_pending_effect a from ladder f b f' b' :
  numbered a ladder -> apply_pending from ladder f b = Ok (f', b') ->
  stays (fun k => k ∉ map digest_key ladder) f f' /\
  (forall m, m ∈ ladder -> from < mg_n m -> meta_of f' (digest_key m) = Some (mg_sha m)) /\
  (forall m, m ∈ ladder -> mg_n m <= from -> meta_of f' (digest_key m) = meta_of f (digest_key m)).
Proof.
  revert a f b. induction ladder as [|m0 ladder IH]; intros a f b Hnum; simpl.
  { intros [= <- <-]. split_and!; [done|set_solver..]. }
  pose proof (digest_fresh _ _ _ Hnum) as Hfresh. apply numbered_cons in Hnum as [Ha Hnum].
  destruct (Z.leb_spec (mg_n m0) from) as [Hle|Hgt].
  - intros (S & P & O)%(IH _ _ _ Hnum). split_and!.
    + eapply stays_weaken; [|exact S]. intros k Hk. set_solver.
    + intros m [->|Hin]%elem_of_cons Hlt; [lia|auto].
    + intros m [->|Hin]%elem_of_cons Hm; [|auto]. by apply (sy_rows _ _ _ S).
  - destruct (execScript _ _) as [f1|] eqn:Hsc; simpl; [|done].
    destruct (upsertMeta _ _ _) as [f2|] eqn:Hup; simpl; [|done].
    apply upsertMeta_Ok in Hup as [_ ->]. intros (S & P & O)%(IH _ _ _ Hnum).
    assert (S1 : stays (fun k => k <> digest_key m0) f (on_db (meta_put (digest_key m0) (mg_sha m0)) f1)).
    { etrans; [by eapply script_stays|]. apply stays_put. tauto. }
    split_and!.
    + etrans; [eapply stays_weaken; [|exact S1]|eapply stays_weaken; [|exact S]]; simpl; intros k Hk; set_solver.
    + intros m [->|Hin]%elem_of_cons Hlt; [|auto]. rewrite (sy_rows _ _ _ S) by done. simpl. apply meta_get_put.
    + intros m [->|Hin]%elem_of_cons Hm; [lia|]. rewrite O by done. apply (sy_rows _ _ _ S1). intros Heq.
      apply Hfresh. rewrite <-Heq. by apply list_elem_of_fmap_2.
Qed.

(** The rows a migration writes. *)
Definition ladder_key (ladder : list migration) (k : string) : Prop :=
  k ∈ map digest_key ladder \/ k = metaSchemaVersion \/ k = metaSchemaAppliedAt.

Lemma digest_not_schema m : digest_key m <> metaSchemaVersion /\ digest_key m <> metaSchemaAppliedAt.
Proof. done. Qed.

Lemma pending_or_recorded ladder from f f1 b :
  numbered 1 ladder -> (0 < from -> verifyLadderState ladder from f = Ok tt) ->
  apply_pending from ladder f false = Ok (f1, b) ->
  forall m, m ∈ ladder -> meta_of f1 (digest_key m) = Some (mg_sha m).
Proof.
  intros Hnum Hver Happ m Hin. destruct (apply_pending_effect _ _ _ _ _ _ _ Hnum Happ) as (_ & P & O).
  destruct (Z.lt_ge_cases from (mg_n m)) as [Hlt|Hge]; [auto|]. rewrite O by done.
  pose proof (numbered_elem _ _ m Hnum Hin) as [[Hr _] _]. specialize (Hver ltac:(lia)). unfold verifyLadderState in Hver.
  destruct (negb _); [done|]. by eapply verify_recorded.
Qed.

Lemma migrate_body_effect ladder now f f' from to :
  ladder_ok ladder -> migrate_body ladder now f = Ok (f', (from, to)) ->
  at_head ladder f' /\ to = Z.of_nat (length ladder) /\ readAppliedVersion f = Ok from /\ from <= to /\
  (forall k, ~ ladder_key ladder k -> meta_of f' k = meta_of f k).
Proof.
  intros Hok. pose proof (ladder_numbered _ Hok) as Hnum. unfold migrate_body.
  destruct (readAppliedVersion f) as [v|] eqn:Hv; simpl; [|done]. destruct (Z.ltb_spec (Z.of_nat (length ladder)) v) as [|Hle]; [done|].
  destruct (if 0 <? v then _ else _) as [[]|] eqn:Hver; simpl; [|done].
  destruct (apply_pending _ _ _ _) as [[f1 b]|] eqn:Happ; simpl; [|done].
  destruct (if exists_object "meta" f1 then _ else _) as [f2|] eqn:Hddl; simpl; [|done].
  destruct (upsertMeta _ _ f2) as [f3|] eqn:Hup; simpl; [|done]. apply upsertMeta_Ok in Hup as [Ht ->].
  destruct (if b then _ else _) as [f4|] eqn:Hat; simpl; [|done]. intros [= <- <- <-].
  assert (Hrec := fun H => pending_or_recorded ladder v f f1 b Hnum H Happ).
  assert (Hver' : 0 < v -> verifyLadderState ladder v f = Ok tt).
  { intros Hpos. by rewrite (proj2 (Z.ltb_lt _ _) Hpos) in Hver. }
  specialize (Hrec Hver'). destruct (apply_pending_effect _ _ _ _ _ _ _ Hnum Happ) as (S1 & _).
  assert (S2 : stays every f1 f2) by exact (statement_stays every metaTableDDL f1 f2 Hddl).
  assert (S4 : stays (fun k => k <> metaSchemaAppliedAt) (on_db (meta_put metaSchemaVersion (format_int (Z.of_nat (length ladder)))) f2) f4).
  { destruct b; [|by injection Hat as <-]. apply upsertMeta_Ok in Hat as [_ ->]. apply stays_put. tauto. }
  split_and!; [split|done..|].
  - exact (sy_table _ _ _ S4 Ht).
  - simpl. rewrite (sy_rows _ _ _ S4) by done. apply meta_get_put.
  - done.
  - intros m Hm. destruct (digest_not_schema m). simpl. fold (digest_key m). rewrite (sy_rows _ _ _ S4) by done. simpl.
    rewrite meta_get_put_other by done. rewrite (sy_rows _ _ _ S2) by done. auto.
  - unfold ladder_key. intros k Hk. simpl. rewrite (sy_rows _ _ _ S4) by tauto. simpl. rewrite meta_get_put_other by tauto.
    rewrite (sy_rows _ _ _ S2), (sy_rows _ _ _ S1); try done; tauto.
Qed.

Lemma head_verifies from ladder f :
  exists_object "meta" f = true -> (forall m, m ∈ ladder -> meta_of f (digest_key m) = Some (mg_sha m)) ->
  verify_checksums from ladder f = Ok tt.
Proof.
  intros Ht. induction ladder as [|m ladder IH]; intros Hall; simpl; [done|]. case_match; [done|].
  unfold readMeta. rewrite Ht. simpl. fold (digest_key m). rewrite Hall by set_solver. rewrite String.eqb_refl. apply IH. set_solver.
Qed.

Lemma head_pending from ladder f b : (forall m, m ∈ ladder -> mg_n m <= from) -> apply_pending from ladder f b = Ok (f, b).
Proof.
  induction ladder as [|m ladder IH]; intros Hall; simpl; [done|].
  rewrite (proj2 (Z.leb_le _ _)) by (apply Hall; set_solver). apply IH. set_solver.
Qed.

(** On a file that records the ladder a migration rewrites the version with its
    own value and does nothing else. *)
Lemma migrate_head ladder now f :
  ladder_ok ladder -> at_head ladder f ->
  let to := Z.of_nat (length ladder) in
  let f' := on_user_version to (on_db (meta_put metaSchemaVersion (format_int to)) f) in
  migrate ladder now f = ([f'], Ok (to, to)) /\ stays every f f'.
Proof.
  intros Hok [Ht Hs Hm Hd]. pose proof (ladder_numbered _ Hok) as Hnum. destruct Hok as [_ Hmax]. split.
  - unfold migrate, committing, migrate_body, readAppliedVersion. rewrite Ht, Hs. simpl. rewrite atoi_format by lia. simpl.
    rewrite Z.ltb_irrefl. unfold verifyLadderState, pragmaUserVersion. rewrite Hm, Z.eqb_refl. simpl.
    rewrite head_verifies by done.
    rewrite head_pending by (intros m Hin; pose proof (numbered_elem _ _ m Hnum Hin); lia).
    destruct (0 <? _); simpl; rewrite Ht; simpl; unfold upsertMeta; by rewrite Ht.
  - split; [done|by rewrite Hm|]. intros k _. simpl. destruct (decide (k = metaSchemaVersion)) as [->|Hne].
    + by rewrite meta_get_put.
    + by rewrite meta_get_put_other.
Qed.

(** ** Reasoning about startups

    [bwp m Q F f]: run on [f], [m] either returns with [Q] of the value and of
    the file it leaves, or stops with an error and [F] holds. *)

Definition bwp {A} (m : boot A) (Q : A -> file -> Prop) (F : Prop) (f : file) : Prop :=
  match m f with
  | (h, Ok a) => Q a (current f h)
  | (_, Err _) => F
  end.

Lemma current_app f h h' : current f (h ++ h') = current (current f h) h'.
Proof. unfold current. rewrite last_app. by destruct (last h'). Qed.

Lemma bwp_bind {A B} (m : boot A) (k : A -> boot B) Q F f :
  bwp m (fun a g => bwp (k a) Q F g) F f -> bwp (m ≫= k) Q F f.
Proof.
  unfold bwp, mbind, boot_bind. destruct (m f) as [h [a|e]]; [|done].
  destruct (k a (current f h)) as [h' [b|e]]; [|done]. by rewrite current_app.
Qed.

Lemma bwp_mono {A} (m : boot A) (Q Q' : A -> file -> Prop) (F F' : Prop) f :
  bwp m Q F f -> (forall a g, Q a g -> Q' a g) -> (F -> F') -> bwp m Q' F' f.
Proof. unfold bwp. destruct (m f) as [h [a|e]]; auto. Qed.

Lemma bwp_ret {A} (a : A) (Q : A -> file -> Prop) F f : Q a f -> bwp (mret a) Q F f.
Proof. done. Qed.

Lemma bwp_look {A} (q : file -> result A) (Q : A -> file -> Prop) (F : Prop) f :
  match q f with Ok a => Q a f | Err _ => F end -> bwp (look q) Q F f.
Proof. unfold bwp, look. by destruct (q f). Qed.

Lemma bwp_committing {A} (body : file -> result (file * A)) (Q : A -> file -> Prop) (F : Prop) f :
  match body f with Ok (f', a) => Q a f' | Err _ => F end -> bwp (committing body) Q F f.
Proof. unfold bwp, committing. by destruct (body f) as [[f' a]|]. Qed.

Lemma bwp_transact {A} (t : tx A) (Q : A -> file -> Prop) (F : Prop) f :
  wp t (fun a w => Q a (on_db (fun _ => w_db w) f)) (fun _ _ => F) (World (fl_db f) empty_mem) -> bwp (transact t) Q F f.
Proof. intros Hw. apply bwp_committing. unfold wp in Hw. by destruct (t _) as [w [a|e]]. Qed.

(** Every state [m] commits is related to the one it started from. *)
Definition commits (R : file -> file -> Prop) {A} (m : boot A) : Prop := forall f, Forall (R f) (m f).1.

Section Commits.
Context (R : file -> file -> Prop) `{!PreOrder R}.

Lemma current_related f h : Forall (R f) h -> R f (current f h).
Proof.
  intros Hall. unfold current. destruct (last h) as [s|] eqn:Hl; simpl; [|done].
  apply last_Some in Hl as [h0 ->]. apply Forall_app in Hall as [_ [? _]%Forall_cons]. done.
Qed.

Lemma commits_ret {A} (a : A) : commits R (mret a : boot A).
Proof. intros f. constructor. Qed.

Lemma commits_look {A} (q : file -> result A) : commits R (look q).
Proof. intros f. constructor. Qed.

Lemma commits_refuse {A} e : commits R (refuse e : boot A).
Proof. intros f. constructor. Qed.

Lemma commits_bind {A B} (m : boot A) (k : A -> boot B) :
  commits R m -> (forall a, commits R (k a)) -> commits R (m ≫= k).
Proof.
  intros Hm Hk f. specialize (Hm f). unfold mbind, boot_bind. destruct (m f) as [h [a|e]]; [|done]. simpl in Hm.
  specialize (Hk a (current f h)). destruct (k a (current f h)) as [h' r']. simpl in *.
  apply Forall_app. split; [done|]. eapply Forall_impl; [exact Hk|]. intros s Hs. etrans; [|exact Hs].
  by apply current_related.
Qed.

Lemma commits_committing {A} (body : file -> result (file * A)) :
  (forall f f' a, body f = Ok (f', a) -> R f f') -> commits R (committing body).
Proof.
  intros Hb f. unfold committing. destruct (body f) as [[f' a]|] eqn:Hf; [|constructor].
  constructor; [by eapply Hb|constructor].
Qed.

Lemma commits_transact {A} (t : tx A) :
  (forall f, wp t (fun _ w => R f (on_db (fun _ => w_db w) f)) (fun _ _ => True) (World (fl_db f) empty_mem)) ->
  commits R (transact t).
Proof.
  intros Ht. apply commits_committing. intros f f' a Hb. specialize (Ht f). unfold wp in Ht.
  destruct (t _) as [w [b|e]]; [|done]. by injection Hb as <- <-.
Qed.
End Commits.

Create HintDb boot.
#[export] Hint Resolve commits_ret commits_look commits_refuse : boot.

(** Walks a startup down to the statements that commit. *)
Ltac commits_steps :=
  repeat first
    [ solve [auto with boot]
    | apply commits_bind; [typeclasses eauto| |intros ?]
    | case_match ].

Lemma commits_weaken {A} (R R' : file -> file -> Prop) (m : boot A) :
  (forall f s, R f s -> R' f s) -> commits R m -> commits R' m.
Proof. intros Hw Hm f. eapply Forall_impl; [apply Hm|]. apply Hw. Qed.

(** ** Facts: the steps of a startup *)

Lemma transact_stays {A} (t : tx A) ks :
  (forall w, wp t (fun _ w' => forall k, ks k -> meta_get k (w_db w') = meta_get k (w_db w)) (fun _ _ => True) w) ->
  commits (stays ks) (transact t).
Proof.
  intros Ht. apply commits_transact. intros f. specialize (Ht (World (fl_db f) empty_mem)). unfold wp in *.
  destruct (t _) as [w [a|e]]; [|done]. by split.
Qed.

Lemma unclean_stays now reason : commits (stays every) (recordUncleanEvent now reason).
Proof. apply transact_stays. intros w. by wp_steps. Qed.

Lemma reclaim_stays now jitter rnd : commits (stays every) (transact (reclaimLeasesAndTrimDedup now jitter rnd)).
Proof. apply transact_stays. intros w. unfold reclaimLeasesAndTrimDedup, insertEvent. wp_steps. intros k _. done. Qed.

Definition not_reap (k : string) : Prop := has_prefix metaReapPrefix k = false.

Lemma chunk_stays name : commits (stays not_reap) (transact (reapChunkCmd name)).
Proof.
  apply transact_stays. intros w. unfold wp. rewrite reap_chunk. cbv zeta. destruct (_ <? _); [|done].
  intros k Hk. simpl. rewrite meta_get_del_other; [done|]. intros ->. unfold not_reap in Hk.
  assert (Hp : has_prefix metaReapPrefix (metaReapPrefix +:+ name) = true) by (apply has_prefix_spec; eauto). exact (eq_true_false_abs _ Hp Hk).
Qed.

Lemma reaps_stay fuel names : commits (stays not_reap) (finish_reaps fuel names).
Proof.
  induction names as [|name names IH]; simpl; [auto with boot|].
  apply commits_bind; [typeclasses eauto| |intros b; commits_steps]. clear IH.
  induction fuel as [|fuel IH]; simpl; [auto with boot|].
  apply commits_bind; [typeclasses eauto|apply chunk_stays|]. intros [r c]. by case_match; [auto with boot|].
Qed.

Lemma delete_first_removed {R} (p : R -> bool) n (t : list R) :
  (length (delete_first p n t) + Nat.min n (length (where_ p t)) = length t)%nat.
Proof.
  revert n. induction t as [|r t IH]; intros n; simpl; [lia|].
  destruct (p r); simpl; [destruct n as [|n]; simpl; [|specialize (IH n)]; lia|specialize (IH n); lia].
Qed.

Lemma finish_reap_ends fuel name f :
  (length (messages (fl_db f)) < fuel)%nat ->
  bwp (finish_reap fuel name) (fun ended g => ended = true /\ (length (messages (fl_db g)) <= length (messages (fl_db f)))%nat) False f.
Proof.
  revert f. induction fuel as [|fuel IH]; intros f Hf; [lia|]. simpl. apply bwp_bind, bwp_transact.
  unfold wp. rewrite reap_chunk. cbv zeta. cbn [w_db].
  pose proof (delete_first_removed (on_stream name) (Z.to_nat deleteChunkRows) (messages (fl_db f))) as Hlen.
  destruct (Z.ltb_spec (count (on_stream name) (messages (fl_db f))) deleteChunkRows) as [Hlt|Hge].
  - rewrite (proj2 (Z.ltb_lt _ _) Hlt). apply bwp_ret. split; [done|]. simpl. lia.
  - rewrite Z.ltb_irrefl. unfold count in Hge. assert (0 < deleteChunkRows) by done.
    eapply bwp_mono; [apply IH| |done]; simpl; [lia|]. intros b g [-> Hg]. split; [done|lia].
Qed.

(** The fuel [Open] gives is enough: every interrupted deletion is finished. *)
Lemma finish_reaps_end fuel names f :
  (length (messages (fl_db f)) < fuel)%nat ->
  bwp (finish_reaps fuel names) (fun ended _ => ended = true) False f.
Proof.
  revert f. induction names as [|name names IH]; intros f Hf; simpl; [done|].
  apply bwp_bind. eapply bwp_mono; [by apply finish_reap_ends| |done]. intros b g [-> Hg].
  apply bwp_bind. eapply bwp_mono; [apply IH; lia| |done]. by intros b' g' ->.
Qed.

(** The rows that identify a directory and its schema. *)
Definition book (k : string) : Prop :=
  k ∈ [metaNodeID; metaCreatedAt; metaCleanShutdown; metaSchemaVersion; metaSchemaAppliedAt] \/
  exists n, k = migrationChecksumKey n.

Lemma book_keys k :
  book k -> has_prefix metaReapPrefix k = false /\ like_snapshot k = false /\
  k ∉ [metaRestoredAt; metaRestoredFromNode; metaRestoredSnapshotAt; metaRestoredStreamHeads; metaRestoredToolVersion].
Proof.
  intros [Hk|[n ->]]; [|split_and!; [done..|]; rewrite !not_elem_of_cons; split_and!; [done..|apply not_elem_of_nil]].
  repeat (apply elem_of_cons in Hk as [->|Hk]; [split_and!; [done..|by apply (bool_decide_unpack _)]|]).
  by apply elem_of_nil in Hk.
Qed.

Lemma meta_get_swept k d :
  meta_get k (on_meta (delete_where (fun kv => like_snapshot kv.1)) d) = if like_snapshot k then None else meta_get k d.
Proof.
  unfold meta_get. simpl. destruct (like_snapshot k) eqn:Hk.
  - destruct (query_row _ _) as [x|] eqn:Hq; [|done]. apply query_row_Some in Hq as [Hx%has_key_true Hin].
    apply elem_of_delete in Hin as [Hin _]. subst. congruence.
  - rewrite query_row_delete_other; [done|]. intros r _ Hr. congruence.
Qed.

(** What a converted stamp leaves in the table. *)
Lemma rewrite_stamp_meta now takenMs source headsRaw tool w :
  wp (rewrite_stamp now takenMs source headsRaw tool)
     (fun _ w' => (forall k, book k -> meta_get k (w_db w') = meta_get k (w_db w)) /\
                  meta_get metaSnapshotTakenAt (w_db w') = None)
     (fun _ _ => False) w.
Proof.
  unfold rewrite_stamp, insertEvent. wp_steps. cbn [w_db]. split.
  - intros k (_ & Hs & Hn)%book_keys. rewrite !not_elem_of_cons in Hn. destruct Hn as (? & ? & ? & ? & ? & _).
    transitivity (meta_get k (on_meta (delete_where (fun kv => like_snapshot kv.1))
      (meta_put metaRestoredToolVersion tool (meta_put metaRestoredStreamHeads headsRaw
        (meta_put metaRestoredSnapshotAt (format_int takenMs) (meta_put metaRestoredFromNode source
          (meta_put metaRestoredAt (format_int (UnixMilli now)) (w_db w)))))))); [done|].
    rewrite meta_get_swept, Hs. by rewrite !meta_get_put_other.
  - apply (meta_get_swept metaSnapshotTakenAt).
Qed.

Lemma detect_stays heads now : commits (stays book) (detectRestoredProvenance heads now).
Proof.
  unfold detectRestoredProvenance. commits_steps. apply transact_stays. intros w.
  pose proof (rewrite_stamp_meta now z a0 a2 a1 w) as Hw. unfold wp in *. destruct (rewrite_stamp _ _ _ _ _ _) as [w' [u|e]]; tauto.
Qed.

(** ** Facts: the states a startup commits *)

Definition schema_key (k : string) : Prop :=
  k = metaSchemaVersion \/ k = metaSchemaAppliedAt \/ exists n, k = migrationChecksumKey n.

(** From [f] to [s] the schema rows and the identity are kept, and the marker
    is kept or set to dirty. *)
Record onward (f s : file) : Prop := {
  ow_schema : stays schema_key f s;
  ow_node : forall v, meta_of f metaNodeID = Some v -> meta_of s metaNodeID = Some v;
  ow_created : forall v, meta_of f metaCreatedAt = Some v -> meta_of s metaCreatedAt = Some v;
  ow_marker : meta_of s metaCleanShutdown = meta_of f metaCleanShutdown \/ meta_of s metaCleanShutdown = Some "0";
}.

#[export] Instance onward_preorder : PreOrder onward.
Proof.
  split; [intros f; split; [done|done|done|by left]|].
  intros f g s [S N C M] [S' N' C' M']. split; [by etrans|auto..|].
  destruct M' as [->|?]; [done|by right].
Qed.

Lemma schema_key_not k : schema_key k -> k <> metaNodeID /\ k <> metaCreatedAt /\ k <> metaCleanShutdown.
Proof. by intros [->|[->|[n ->]]]. Qed.

Lemma schema_book k : schema_key k -> book k.
Proof. intros [->|[->|[n ->]]]; [left; set_solver..|right; eauto]. Qed.

Lemma stays_onward f s : stays book f s -> onward f s.
Proof.
  intros Hs. split.
  - eapply stays_weaken; [|exact Hs]. apply schema_book.
  - intros v. rewrite (sy_rows _ _ _ Hs); [done|left; set_solver].
  - intros v. rewrite (sy_rows _ _ _ Hs); [done|left; set_solver].
  - left. apply (sy_rows _ _ _ Hs). left. set_solver.
Qed.

Lemma every_onward f s : stays every f s -> onward f s.
Proof. intros Hs. by eapply stays_onward, stays_weaken, Hs. Qed.

Lemma not_reap_onward f s : stays not_reap f s -> onward f s.
Proof. intros Hs. eapply stays_onward, stays_weaken, Hs. by intros k (? & _)%book_keys. Qed.

(** A row that is written when it is missing. *)
Lemma put_missing_onward key val f :
  key = metaNodeID \/ key = metaCreatedAt -> meta_of f key = None -> onward f (on_db (meta_put key val) f).
Proof.
  intros Hkey Hnone. split.
  - apply stays_put. intros (? & ? & _)%schema_key_not. tauto.
  - intros v Hv. simpl. rewrite meta_get_put_other; [done|]. intros <-. congruence.
  - intros v Hv. simpl. rewrite meta_get_put_other; [done|]. intros <-. congruence.
  - left. simpl. apply meta_get_put_other. by destruct Hkey as [->| ->].
Qed.

(** The three outcomes of [ensure_row]. *)
Lemma ensure_row_run key val f :
  ensure_row key val f =
    if exists_object "meta" f then
      match meta_of f key with
      | Some stored => ([], Ok stored)
      | None => ([on_db (meta_put key val) f], Ok val)
      end
    else ([], Err (Plain "no such table")).
Proof.
  unfold ensure_row, readMeta, mbind, boot_bind, upsertMetaDB, committing, upsertMeta.
  destruct (exists_object "meta" f) eqn:Ht; [|done]. by destruct (meta_of f key).
Qed.

Lemma ensure_row_onward key val : key = metaNodeID \/ key = metaCreatedAt -> commits onward (ensure_row key val).
Proof.
  intros Hkey f. rewrite ensure_row_run. destruct (exists_object "meta" f); [|constructor].
  destruct (meta_of f key) eqn:Hk; [constructor|]. constructor; [by apply put_missing_onward|constructor].
Qed.

Lemma create_onward now id : commits onward (ensureCreationBookkeeping now id).
Proof.
  unfold ensureCreationBookkeeping. commits_steps; apply ensure_row_onward; tauto.
Qed.

Lemma dirty_onward : commits onward (upsertMetaDB metaCleanShutdown "0").
Proof.
  apply commits_committing. intros f f' u. destruct (upsertMeta _ _ f) as [g|] eqn:Hup; [|done]. intros [= <- _].
  apply upsertMeta_Ok in Hup as [_ ->]. split.
  - apply stays_put. by intros (_ & _ & ?)%schema_key_not.
  - intros v Hv. simpl. by rewrite meta_get_put_other.
  - intros v Hv. simpl. by rewrite meta_get_put_other.
  - right. apply meta_get_put.
Qed.

Lemma head_stays ladder f s : at_head ladder f -> stays schema_key f s -> at_head ladder s.
Proof.
  intros [T S M D] Hs. split.
  - by apply (sy_table _ _ _ Hs).
  - by rewrite (sy_rows _ _ _ Hs) by (by left).
  - by rewrite (sy_version _ _ _ Hs).
  - intros m Hm. rewrite (sy_rows _ _ _ Hs) by (right; right; eauto). auto.
Qed.

(** What follows the migration. *)
Lemma after_migration_onward sr opt from to : commits onward (open_migrated sr opt from to).
Proof.
  assert (Hu := fun n r => commits_weaken _ _ _ every_onward (unclean_stays n r)).
  assert (Hr := fun n j r => commits_weaken _ _ _ every_onward (reclaim_stays n j r)).
  assert (Hf := fun n l => commits_weaken _ _ _ not_reap_onward (reaps_stay n l)).
  assert (Hd := fun h n => commits_weaken _ _ _ stays_onward (detect_stays h n)).
  assert (Hc := create_onward). assert (Hm := dirty_onward). unfold open_migrated, open_check. cbv zeta. commits_steps.
Qed.

(** ** Facts: what a startup returns *)

Lemma bwp_related {A} R `{!PreOrder R} (m : boot A) (Q : A -> file -> Prop) F f :
  commits R m -> bwp m Q F f -> bwp m (fun a g => Q a g /\ R f g) F f.
Proof.
  intros Hm Hq. unfold bwp in *. specialize (Hm f). destruct (m f) as [h [a|e]]; [|done].
  split; [done|]. by apply current_related.
Qed.

(** The rows that are not written before the provenance is read. *)
Definition not_created (k : string) : Prop := k <> metaNodeID /\ k <> metaCreatedAt.

Lemma ensure_row_post key val f :
  exists_object "meta" f = true ->
  bwp (ensure_row key val)
    (fun stored g => stays (fun k => k <> key) f g /\ exists_object "meta" g = true /\
       meta_of g key = Some stored /\ (forall v, meta_of f key = Some v -> stored = v)) False f.
Proof.
  intros Ht. unfold bwp. rewrite ensure_row_run, Ht. destruct (meta_of f key) as [v|] eqn:Hk.
  - change (current f []) with f. split_and!; [done..|by intros ? [= <-]].
  - change (current f [on_db (meta_put key val) f]) with (on_db (meta_put key val) f).
    split_and!; [apply stays_put; tauto|done|apply meta_get_put|done].
Qed.

Lemma create_post now id f :
  exists_object "meta" f = true ->
  bwp (ensureCreationBookkeeping now id)
    (fun stored g => stays not_created f g /\ exists_object "meta" g = true /\ meta_of g metaNodeID = Some stored /\
       is_Some (meta_of g metaCreatedAt) /\ (forall v, meta_of f metaNodeID = Some v -> stored = v)) False f.
Proof.
  intros Ht. apply bwp_bind. eapply bwp_mono; [by apply ensure_row_post| |done]. intros stored g (S & Tg & N & V).
  apply bwp_bind. eapply bwp_mono; [by apply ensure_row_post| |done]. intros c g' (S' & Tg' & C & _). apply bwp_ret.
  split_and!; [|done| |by eexists|done].
  - etrans; [eapply stays_weaken; [|exact S]|eapply stays_weaken; [|exact S']]; unfold not_created; tauto.
  - by rewrite (sy_rows _ _ _ S').
Qed.

Lemma readMeta_stays ks key f g :
  exists_object "meta" f = true -> stays ks f g -> ks key -> readMeta key g = readMeta key f.
Proof. intros Ht S Hk. unfold readMeta. by rewrite Ht, (sy_table _ _ _ S Ht), (sy_rows _ _ _ S). Qed.

Lemma load_stays heads (ks : string -> Prop) f g :
  exists_object "meta" f = true -> stays ks f g ->
  Forall ks [metaRestoredAt; metaRestoredFromNode; metaRestoredSnapshotAt; metaRestoredStreamHeads; metaRestoredToolVersion] ->
  loadRestoredProvenance heads g = loadRestoredProvenance heads f.
Proof.
  intros Ht S Hks. rewrite !Forall_cons in Hks. destruct Hks as (K1 & K2 & K3 & K4 & K5 & _).
  unfold loadRestoredProvenance, readMetaOrEmpty. by rewrite !(readMeta_stays ks _ f g Ht S).
Qed.

Lemma detect_post heads now f :
  exists_object "meta" f = true ->
  bwp (detectRestoredProvenance heads now)
    (fun '(_, announce) g => meta_of g metaSnapshotTakenAt = None /\
       (meta_of f metaSnapshotTakenAt = None -> announce = false))
    (~ (meta_of f metaSnapshotTakenAt = None /\ is_ok (loadRestoredProvenance heads f) = true)) f.
Proof.
  intros Ht. apply bwp_bind, bwp_look. unfold readMeta. rewrite Ht. destruct (meta_of f metaSnapshotTakenAt) as [raw|] eqn:Hs.
  - destruct (atoi _) as [ms|]; [|by intros []]. do 3 (apply bwp_bind, bwp_look). apply bwp_bind, bwp_look.
    destruct (heads_of heads _) as [hs|]; [|by intros []]. apply bwp_bind, bwp_transact.
    eapply wp_mono; [apply rewrite_stamp_meta|..]; [|done]. intros u w [_ Hnone]. by apply bwp_ret.
  - apply bwp_bind, bwp_look. destruct (loadRestoredProvenance heads f) eqn:Hl; [|by intros []]. by apply bwp_ret.
Qed.

Lemma reclaim_total now jitter rnd f : bwp (transact (reclaimLeasesAndTrimDedup now jitter rnd)) (fun _ _ => True) False f.
Proof. apply bwp_transact. unfold reclaimLeasesAndTrimDedup, insertEvent. by wp_steps. Qed.

Lemma unclean_total now reason f : bwp (recordUncleanEvent now reason) (fun _ _ => True) False f.
Proof. apply bwp_transact. by wp_steps. Qed.

(** SQLite finds no damage, no snapshot stamp waits to be converted and the
    provenance on record reads back. *)
Definition healthy (sr : surroundings) (f : file) : Prop :=
  (forall kind g, sr_pragma sr kind g = Ok ["ok"]) /\
  meta_of f metaSnapshotTakenAt = None /\ is_ok (loadRestoredProvenance (sr_heads sr) f) = true.

Lemma check_post sr opt unclean f :
  bwp (open_check sr opt unclean) (fun kind g => g = f /\ (unclean = true -> kind <> checkSkipped))
    (~ (forall kind g, sr_pragma sr kind g = Ok ["ok"])) f.
Proof.
  unfold open_check. destruct (unclean || op_FullCheck opt) eqn:Hc; [|apply bwp_ret; by destruct unclean].
  apply bwp_bind, bwp_look. unfold runStartupCheck. destruct (sr_pragma _ _ _) as [rows|] eqn:Hp; simpl.
  - destruct (check_rows rows []) eqn:Hr; [|intros Hall; rewrite Hall in Hp; by injection Hp as <-].
    apply bwp_ret. split; [done|]. by destruct (op_FullCheck opt).
  - intros Hall. by rewrite Hall in Hp.
Qed.

(** What a writable Open establishes after its migration. *)
Record opened (sr : surroundings) (from to : Z) (f : file) (st : Store) (rep : RecoveryReport) (g : file) : Prop := {
  od_store : st = MkStore true true false false;
  od_onward : onward f g;
  od_node : meta_of g metaNodeID = Some (rp_NodeID rep);
  od_created : is_Some (meta_of g metaCreatedAt);
  od_same_node : forall v, meta_of f metaNodeID = Some v -> rp_NodeID rep = v;
  od_dirty : meta_of g metaCleanShutdown = Some "0";
  od_stamp : meta_of g metaSnapshotTakenAt = None;
  od_from : rp_SchemaFrom rep = from;
  od_to : rp_SchemaTo rep = to;
  od_unclean : rp_Unclean rep = bool_decide (is_Some (unclean_reason from (meta_of f metaCleanShutdown)));
  od_check : rp_Unclean rep = true -> rp_CheckKind rep <> checkSkipped;
  od_announce : meta_of f metaSnapshotTakenAt = None -> rp_Restored rep = None;
}.

Lemma unclean_marker from f g :
  exists_object "meta" g = true -> stays not_created f g ->
  bwp (if 0 <? from then look (readMeta metaCleanShutdown) else mret None)
    (fun marker g' => g' = g /\ unclean_reason from marker = unclean_reason from (meta_of f metaCleanShutdown)) False g.
Proof.
  intros Ht S. destruct (0 <? from) eqn:Hf.
  - apply bwp_look. unfold readMeta. rewrite Ht. split; [done|]. by rewrite (sy_rows _ _ _ S).
  - apply bwp_ret. split; [done|]. unfold unclean_reason. by rewrite Hf.
Qed.

(** From the reclaim to the dirty marker. *)
Lemma open_tail sr opt (f : file) {A} (k : Z -> Z -> boot A) Q F :
  exists_object "meta" f = true ->
  (forall r e g, stays not_reap f g -> exists_object "meta" g = true -> bwp (k r e) Q F (on_db (meta_put metaCleanShutdown "0") g)) ->
  bwp ('(r, e) ← transact (reclaimLeasesAndTrimDedup (at_reclaim (sr_clock sr)) (op_ReclaimJitter opt) (sr_random sr));
       '(names, fuel) ← look (fun f => Ok (reap_markers (fl_db f), S (length (messages (fl_db f)))));
       _ ← finish_reaps fuel names;
       _ ← upsertMetaDB metaCleanShutdown "0";
       k r e) Q F f.
Proof.
  intros Ht Hk. apply bwp_bind. eapply bwp_mono; [apply bwp_related; [..|apply reclaim_total]| |done]; [|apply reclaim_stays|].
  { apply stays_preorder. }
  intros [r e] g [_ S]. apply bwp_bind, bwp_look, bwp_bind.
  eapply bwp_mono; [apply bwp_related; [..|apply finish_reaps_end]| |done]; [|apply reaps_stay|lia|].
  { apply stays_preorder. }
  intros b g' [_ S']. apply bwp_bind, bwp_committing.
  assert (S2 : stays not_reap f g') by (etrans; [eapply stays_weaken; [|exact S]|exact S']; done).
  unfold upsertMeta. rewrite (sy_table _ _ _ S2 Ht). simpl. apply Hk; [done|]. exact (sy_table _ _ _ S2 Ht).
Qed.

Lemma open_migrated_post sr opt from to f :
  exists_object "meta" f = true ->
  bwp (open_migrated sr opt from to) (fun '(st, rep) g => opened sr from to f st rep g) (~ healthy sr f) f.
Proof.
  intros Ht. cut (bwp (open_migrated sr opt from to) (fun '(st, rep) g => onward f g -> opened sr from to f st rep g) (~ healthy sr f) f).
  { intros Hcut. eapply bwp_mono; [apply bwp_related; [..|exact Hcut]| |done]; [apply onward_preorder|apply after_migration_onward|].
    intros [st rep] g [Hg Ho]. auto. }
  unfold open_migrated. cbv zeta. apply bwp_bind. eapply bwp_mono; [by apply create_post| |done].
  intros node g (S & Tg & N & C & V). apply bwp_bind. eapply bwp_mono; [by apply (unclean_marker from f g)| |done].
  intros marker g' [-> ->]. set (reason := unclean_reason _ _). apply bwp_bind.
  apply (bwp_mono _ (fun _ g1 => stays every g g1) _ False); [|intros [] g1 S1|done].
  { destruct reason as [reason|]; [|apply bwp_ret; reflexivity].
    eapply bwp_mono; [apply bwp_related; [..|apply unclean_total]|by intros a b []|done]; [apply stays_preorder|apply unclean_stays]. }
  assert (T1 := sy_table _ _ _ S1 Tg).
  assert (S01 : stays not_created f g1) by (etrans; [exact S|eapply stays_weaken; [|exact S1]; done]).
  assert (Hload : loadRestoredProvenance (sr_heads sr) g1 = loadRestoredProvenance (sr_heads sr) f).
  { apply (load_stays _ not_created); [done..|]. by repeat constructor. }
  assert (Hstamp : meta_of g1 metaSnapshotTakenAt = meta_of f metaSnapshotTakenAt) by (by apply (sy_rows _ _ _ S01)).
  apply bwp_bind. eapply bwp_mono; [apply check_post| |unfold healthy; tauto]. intros kind g2 [-> Hkind].
  apply bwp_bind. eapply bwp_mono; [apply bwp_related; [..|by apply detect_post]| |]; [apply stays_preorder|apply detect_stays| |].
  2: { unfold healthy. rewrite Hload, Hstamp. tauto. }
  intros [restored announce] g3 [[Hnone Hann] S3]. apply open_tail; [exact (sy_table _ _ _ S3 T1)|].
  intros r e g4 S4 T4. apply bwp_ret. intros Ho. rewrite Hstamp in Hann.
  assert (Hback : forall k, k ∈ [metaNodeID; metaCreatedAt] -> meta_of (on_db (meta_put metaCleanShutdown "0") g4) k = meta_of g k).
  { intros k Hk. assert (Hb : book k) by (left; set_solver). destruct (book_keys k Hb) as [Hr _]. simpl.
    rewrite meta_get_put_other by (intros ->; set_solver).
    by rewrite (sy_rows _ _ _ S4), (sy_rows _ _ _ S3), (sy_rows _ _ _ S1). }
  split; try done; simpl.
  - rewrite Hback by set_solver. done.
  - rewrite Hback by set_solver. done.
  - apply meta_get_put.
  - by rewrite meta_get_put_other, (sy_rows _ _ _ S4).
  - intros Hs. by rewrite Hann.
Qed.

(** A file with the ladder and no stamp left is opened, whatever its marker. *)
Lemma reopen_total sr opt f :
  ladder_ok (sr_ladder sr) -> op_ReadOnly opt = false -> at_head (sr_ladder sr) f -> healthy sr f ->
  let to := Z.of_nat (length (sr_ladder sr)) in
  exists h st rep f0, Open sr opt f = (h, Ok (st, rep)) /\ stays every f f0 /\ opened sr to to f0 st rep (current f h).
Proof.
  intros Hok Hro Hhead Hh to. destruct (migrate_head _ (at_migrate (sr_clock sr)) f Hok Hhead) as [Hm S].
  fold to in Hm, S. set (f0 := on_user_version _ _) in Hm, S.
  assert (T0 := sy_table _ _ _ S (hd_table _ _ Hhead)).
  assert (Hh0 : healthy sr f0).
  { destruct Hh as (H1 & H2 & H3). split_and!; [done|by rewrite (sy_rows _ _ _ S)|].
    rewrite (load_stays _ every f f0); [done|apply Hhead|done|]. by repeat constructor. }
  assert (Hb : bwp (Open sr opt) (fun '(st, rep) g => opened sr to to f0 st rep g) False f).
  { unfold Open. rewrite Hro. apply bwp_bind. unfold bwp at 1. rewrite Hm. change (current f [f0]) with f0.
    eapply bwp_mono; [by apply open_migrated_post|done|by intros []]. }
  unfold bwp in Hb. destruct (Open sr opt f) as [h [[st rep]|e]]; [|done]. by exists h, st, rep, f0.
Qed.

(** ** The ladder *)

Lemma accepted_record ladder now f f' from to :
  ladder_ok ladder -> migrate_body ladder now f = Ok (f', (from, to)) -> 0 < from ->
  fl_user_version f = from /\ forall m, m ∈ ladder -> mg_n m <= from -> meta_of f (digest_key m) = Some (mg_sha m).
Proof.
  intros Hok. pose proof (ladder_numbered _ Hok) as Hnum. unfold migrate_body.
  destruct (readAppliedVersion f) as [v|]; simpl; [|done]. destruct (_ <? v); [done|].
  destruct (if 0 <? v then _ else _) as [[]|] eqn:Hver; simpl; [|done].
  destruct (apply_pending _ _ _ _) as [[f1 b]|]; simpl; [|done].
  destruct (if exists_object "meta" f1 then _ else _) as [f2|]; simpl; [|done].
  destruct (upsertMeta _ _ f2) as [f3|]; simpl; [|done].
  destruct (if b then _ else _) as [f4|]; simpl; [|done]. intros [= <- <- <-] Hpos.
  rewrite (proj2 (Z.ltb_lt _ _) Hpos) in Hver. unfold verifyLadderState, pragmaUserVersion in Hver.
  destruct (Z.eqb_spec (fl_user_version f) v) as [Hv|]; [|done]. split; [done|]. by eapply verify_recorded.
Qed.


Lemma embedded_ok : ladder_ok embeddedMigrations.
Proof. by split. Qed.


(** ** A crash in the middle of a startup *)


(** The surroundings of an undisturbed start, its options and a fresh node. *)
Definition calm : surroundings :=
  MkSurroundings embeddedMigrations (fun _ _ => Ok ["ok"]) (fun _ => None) (fun _ => 5)
    (MkReadings 7000000 7000000 7000000 7000000 7000000).
Definition plain_start : Options := MkOptions false false (5000 * Millisecond) "01J0NODE".


(** ** How a session ended, as the next start sees it *)

(** The rows a running daemon may write are the reap markers and the high-water
    marks; it keeps all others. *)
Definition durable_key (k : string) : Prop := not_reap k /\ has_prefix metaSeqHwmPrefix k = false.

Inductive ending : Set :=
| Killed
| Closed (served : bool).

(** The file a session leaves; one that served has handed its writer off. *)
Definition left_by (how : ending) (st : Store) (f : file) : file :=
  match how with
  | Killed => f
  | Closed served => current f (Close (if served then (NewWriter true true st).1 else st) f).2
  end.

Definition marked (how : ending) : string :=
  match how with
  | Closed false => "1"
  | _ => "0"
  end.

Lemma book_durable k : book k -> durable_key k.
Proof.
  intros Hk. split; [by apply book_keys|]. destruct Hk as [Hk|[n ->]]; [|done].
  repeat (apply elem_of_cons in Hk as [->|Hk]; [done|]). by apply elem_of_nil in Hk.
Qed.

Lemma left_by_post how st f :
  st = MkStore true true false false -> exists_object "meta" f = true -> meta_of f metaCleanShutdown = Some "0" ->
  stays (fun k => k <> metaCleanShutdown) f (left_by how st f) /\
  meta_of (left_by how st f) metaCleanShutdown = Some (marked how).
Proof.
  intros -> Ht Hm. destruct how as [|[]]; [split; [reflexivity|done]..|]. simpl.
  unfold upsertMetaDB, committing, upsertMeta. rewrite Ht. simpl. split; [|apply meta_get_put]. apply stays_put. tauto.
Qed.

(** What any successful writable Open leaves. *)
Lemma open_leaves sr opt f h st rep :
  ladder_ok (sr_ladder sr) -> op_ReadOnly opt = false -> Open sr opt f = (h, Ok (st, rep)) ->
  exists f0, opened sr (rp_SchemaFrom rep) (Z.of_nat (length (sr_ladder sr))) f0 st rep (current f h) /\
             at_head (sr_ladder sr) (current f h).
Proof.
  intros Hok Hw Hopen.
  assert (Hb : bwp (Open sr opt) (fun '(st, rep) g => exists f0,
      opened sr (rp_SchemaFrom rep) (Z.of_nat (length (sr_ladder sr))) f0 st rep g /\ at_head (sr_ladder sr) g) True f).
  { unfold Open. rewrite Hw. apply bwp_bind, bwp_committing.
    destruct (migrate_body _ _ f) as [[f1 [from to]]|] eqn:Hm; [|done].
    destruct (migrate_body_effect _ _ _ _ _ _ Hok Hm) as (Hh & -> & _). cbn beta iota.
    eapply bwp_mono; [apply open_migrated_post, Hh| |done]. intros [st' rep'] g Ho. exists f1.
    rewrite (od_from _ _ _ _ _ _ _ Ho). split; [done|]. eapply head_stays, ow_schema, od_onward; done. }
  unfold bwp in Hb. by rewrite Hopen in Hb.
Qed.

(** The bookkeeping of a session's end is that of its start, but for the marker. *)
Lemma left_by_keeps how st g f2 :
  st = MkStore true true false false -> exists_object "meta" g = true -> meta_of g metaCleanShutdown = Some "0" ->
  stays durable_key g f2 ->
  let f3 := left_by how st f2 in
  stays (fun k => durable_key k /\ k <> metaCleanShutdown) g f3 /\ stays (fun k => k <> metaCleanShutdown) f2 f3 /\
  meta_of f3 metaCleanShutdown = Some (marked how).
Proof.
  intros Hst Ht Hm S. destruct (left_by_post how st f2 Hst) as [S3 M3].
  - exact (sy_table _ _ _ S Ht).
  - rewrite (sy_rows _ _ _ S); [done|]. apply book_durable. left. set_solver.
  - split_and!; [|done..]. etrans; [eapply stays_weaken; [|exact S]|eapply stays_weaken; [|exact S3]]; tauto.
Qed.

(** C22: a writable Open leaves the directory marked dirty.  After a session that
    kept the bookkeeping rows, the next Open of a healthy directory succeeds, as
    the same node and at the same schema; it announces no restore, and it reports
    an unclean stop, with an integrity check, unless the session was closed
    without ever handing its writer off.  A daemon always hands it off, so that
    its graceful stop is reported exactly as a kill. *)
Theorem next_start_reports (sr sr' : surroundings) (opt opt' : Options) (f f2 : file) h st rep (how : ending) :
  ladder_ok (sr_ladder sr) -> sr_ladder sr <> [] -> sr_ladder sr' = sr_ladder sr ->
  op_ReadOnly opt = false -> op_ReadOnly opt' = false ->
  Open sr opt f = (h, Ok (st, rep)) -> stays durable_key (current f h) f2 ->
  (forall kind g, sr_pragma sr' kind g = Ok ["ok"]) -> is_ok (loadRestoredProvenance (sr_heads sr') f2) = true ->
  exists h' st' rep', Open sr' opt' (left_by how st f2) = (h', Ok (st', rep')) /\
    rp_Unclean rep' = match how with Closed false => false | _ => true end /\
    (rp_Unclean rep' = true -> rp_CheckKind rep' <> checkSkipped) /\
    rp_NodeID rep' = rp_NodeID rep /\ rp_SchemaFrom rep' = rp_SchemaTo rep /\ rp_Restored rep' = None.
Proof.
  intros Hok Hne Hsame Hw Hw' Hopen Swork Hpragma Hload.
  destruct (open_leaves _ _ _ _ _ _ Hok Hw Hopen) as (f0 & Ho & Hhg). set (g := current f h) in *.
  destruct (left_by_keeps how st g f2 (od_store _ _ _ _ _ _ _ Ho) (hd_table _ _ Hhg) (od_dirty _ _ _ _ _ _ _ Ho) Swork) as (S3 & S23 & M3).
  set (f3 := left_by how st f2) in *.
  assert (Hh3 : at_head (sr_ladder sr') f3).
  { rewrite Hsame. eapply head_stays; [exact Hhg|]. eapply stays_weaken; [|exact S3]. intros k Hk.
    split; [by apply book_durable, schema_book|]. by apply schema_key_not in Hk as (_ & _ & ?). }
  assert (Hstamp : meta_of f3 metaSnapshotTakenAt = None).
  { rewrite (sy_rows _ _ _ S3) by done. apply Ho. }
  assert (Hhealthy : healthy sr' f3).
  { split_and!; [done..|]. rewrite (load_stays _ (fun k => k <> metaCleanShutdown) f2 f3); [done| |done|by repeat constructor].
    exact (sy_table _ _ _ Swork (hd_table _ _ Hhg)). }
  rewrite <-Hsame in Hok, Hne. destruct (reopen_total sr' opt' f3 Hok Hw' Hh3 Hhealthy) as (h' & st' & rep' & f4 & Hopen' & S4 & Ho').
  exists h', st', rep'. split_and!; [done|..].
  - rewrite (od_unclean _ _ _ _ _ _ _ Ho'), (sy_rows _ _ _ S4), M3 by done. unfold unclean_reason.
    assert (0 < Z.of_nat (length (sr_ladder sr'))) as ->%Z.ltb_lt by (destruct (sr_ladder sr'); [done|simpl; lia]).
    by destruct how as [|[]].
  - apply Ho'.
  - apply (od_same_node _ _ _ _ _ _ _ Ho'). rewrite (sy_rows _ _ _ S4), (sy_rows _ _ _ S3) by done. exact (od_node _ _ _ _ _ _ _ Ho).
  - by rewrite (od_from _ _ _ _ _ _ _ Ho'), (od_to _ _ _ _ _ _ _ Ho), Hsame.
  - apply (od_announce _ _ _ _ _ _ _ Ho'). by rewrite (sy_rows _ _ _ S4).
Qed.

(** A first start, a served session and a graceful stop: the next start reports
    it unclean. *)
Lemma next_start_reports_witness :
  exists st rep f2 h' st' rep', (Open calm plain_start fresh_file).2 = Ok (st, rep) /\
    Open calm plain_start (left_by (Closed true) st f2) = (h', Ok (st', rep')) /\ rp_Unclean rep' = true.
Proof.
  destruct (Open calm plain_start fresh_file) as [h [[st rep]|e]] eqn:Hopen; [|by vm_compute in Hopen].
  assert (Hload : is_ok (loadRestoredProvenance (sr_heads calm) (current fresh_file h)) = true).
  { vm_compute in Hopen. injection Hopen as <- _ _. reflexivity. }
  destruct (next_start_reports calm calm plain_start plain_start fresh_file (current fresh_file h) h st rep (Closed true)
    embedded_ok ltac:(discriminate) eq_refl eq_refl eq_refl Hopen ltac:(reflexivity) (fun _ _ => eq_refl) Hload)
    as (h' & st' & rep' & Hopen' & Hu & _).
  exists st, rep, (current fresh_file h), h', st', rep'. split_and!; [done|exact Hopen'|exact Hu].
Defined.

(** ** The counters of a directory that had streams before they existed *)

(** A version-1 directory with one stream that holds one message. *)
Definition v1_file : file :=
  let ladder := take 1 embeddedMigrations in
  on_db (fun d => on_messages (fun _ => [Message "orders" 1 "01J0M" "orders.new" None "hi" 2 1 "t" None])
           (on_streams (fun _ => [StreamRow "orders" ["orders.>"] "limits" 0 0 604800000 1048576 "old" 120000 1]) d))
    (current fresh_file (migrate ladder 7000000 fresh_file).1).

(** Migration 0002 creates the counters without a row for the streams already
    there: such a stream reports no messages although it holds one. *)
Example migrated_counters_missing :
  let f := current v1_file (migrate embeddedMigrations 8000000 v1_file).1 in
  (migrate embeddedMigrations 8000000 v1_file).2 = Ok (1, 4) /\
  length (messages (fl_db f)) = 1%nat /\
  match GetStream "orders" (fl_db f) with
  | Ok i => sn_Msgs i = 0 /\ sn_LastSeq i = 1
  | Err _ => False
  end.
Proof. by vm_compute. Qed.

End OpenStore.
