(* ===== verification/Janitor.v ===== *)
(** * The janitor

    [internal/janitor]: the tick loop that shares a budget among the due jobs
    ([janitor.go]), the job adapters ([jobs.go]) and the disk monitor
    ([disk.go]).

    The janitor sees the outside through its clock, the context that stops it
    and the clients of its jobs; all three are functions on a state [S].  A job
    may change [S], its budget and nothing else. *)

From S2P Require Export Retention Journal StreamAdmin.

Module Janitor.
Import Disk Retention Journal StreamAdmin.

(** ** janitor.go: budgets *)

Record Result : Set := MkResult { rs_Rows : Z; rs_Bytes : Z; rs_More : bool }.

Definition no_result : Result := MkResult 0 0 false.

(** [bg_deadline] is [None] for the zero time. *)
Record Budget : Set := MkBudget {
  bg_deadline : option Z;
  bg_rowsLeft : Z;
  bg_unlimited : bool;
}.

Definition Take (rows : Z) (b : Budget) : Budget * bool :=
  if rows <=? 0 then (b, true)
  else if bg_unlimited b then (b, true)
  else if bg_rowsLeft b <? rows then (b, false)
  else (MkBudget (bg_deadline b) (bg_rowsLeft b - rows) false, true).

Record Config : Set := MkConfig {
  cf_Interval : Z;
  cf_Budget : Z;
  cf_MaxRowsPerTick : Z;
}.

Definition defaultBudget : Z := 250 * Millisecond.

Section Loop.
Context {S : Type} (now : S -> Z) (cancelled : S -> bool).

Definition Expired (b : Budget) (s : S) : bool :=
  match bg_deadline b with
  | None => false
  | Some d => d <=? now s
  end.

(** Budget.Wait; [sleep] is the clock's, which fails when the context ends. *)
Definition Wait (sleep : Z -> S -> S * result unit) (d : Z) (b : Budget) (s : S) : S * result unit :=
  if Expired b s then (s, Err (Plain "janitor: budget slice expired"))
  else match sleep d s with
       | (s', Err e) => (s', Err e)
       | (s', Ok _) => if Expired b s' then (s', Err (Plain "janitor: budget slice expired")) else (s', Ok tt)
       end.

(** [jb_Run] is [None] when its own loop runs out of fuel. *)
Record Job : Type := MkJob {
  jb_Name : string;
  jb_Every : Z;
  jb_Run : Budget -> S -> option (S * Budget * result Result);
}.

(** New, whose clock and logger are given. *)
Definition New (cfg : Config) (jobs : list Job) : result (Config * list Job) :=
  if existsb (fun j => String.eqb (jb_Name j) "") jobs then Err (Plain "janitor: job list holds an unnamed job")
  else Ok (MkConfig (cf_Interval cfg) (if cf_Budget cfg <=? 0 then defaultBudget else cf_Budget cfg) (cf_MaxRowsPerTick cfg), jobs).

(** Whether Start arms the ticker. *)
Definition Start (cfg : Config) : bool := 0 <? cf_Interval cfg.

Definition dueJobs (nextDue : gmap string Z) (jobs : list Job) (s : S) : list Job :=
  filter (fun j => (jb_Every j =? 0) ||
    match nextDue !! jb_Name j with
    | None => true
    | Some d => negb (now s <? d)
    end = true) jobs.

(** One entry of a job, with the time it started and the deadline of its slice. *)
Record entry : Set := MkEntry { en_job : string; en_started : Z; en_deadline : option Z }.

(** The inner loop: a job is entered again while it reports more work and its
    slice has room.  The entries it made are recorded. *)
Fixpoint run_slice (fuel : nat) (start : Z) (job : Job) (b : Budget) (s : S) (nextDue : gmap string Z)
    : option (S * gmap string Z * list entry) :=
  match fuel with
  | O => None
  | Datatypes.S fuel =>
      match jb_Run job b s with
      | None => None
      | Some (s', b', r) =>
          let this := MkEntry (jb_Name job) (now s) (bg_deadline b) in
          match r with
          | Err _ => Some (s', nextDue, [this])
          | Ok res =>
              let nextDue := <[jb_Name job := start + jb_Every job]> nextDue in
              if negb (rs_More res) || Expired b' s' || cancelled s' then Some (s', nextDue, [this])
              else '(s2, nd, rest) ← run_slice fuel start job b' s' nextDue; Some (s2, nd, this :: rest)
          end
      end
  end.

(** The due jobs of one tick, which stops early when the context ends. *)
Fixpoint run_due (fuel : nat) (cfg : Config) (start share : Z) (due : list Job) (s : S) (nextDue : gmap string Z)
    : option (S * gmap string Z * list entry) :=
  match due with
  | [] => Some (s, nextDue, [])
  | job :: due =>
      if cancelled s then Some (s, nextDue, [])
      else
        let sliceEnd := Z.min (now s + share) (start + cf_Budget cfg) in
        let b := MkBudget (Some sliceEnd) (cf_MaxRowsPerTick cfg) (cf_MaxRowsPerTick cfg <=? 0) in
        '(s1, nd1, es1) ← run_slice fuel start job b s nextDue;
        '(s2, nd2, es2) ← run_due fuel cfg start share due s1 nd1;
        Some (s2, nd2, es1 ++ es2)
  end.

(** One turn of the loop. *)
Definition tick (fuel : nat) (cfg : Config) (jobs : list Job) (s : S) (nextDue : gmap string Z)
    : option (S * gmap string Z * list entry) :=
  if cancelled s then Some (s, nextDue, [])
  else match dueJobs nextDue jobs s with
       | [] => Some (s, nextDue, [])
       | due => run_due fuel cfg (now s) (cf_Budget cfg / Z.of_nat (length due)) due s nextDue
       end.

(** ** jobs.go *)

(** RetentionJob.Run *)
Definition RetentionJob_Run (Retention : Z -> S -> S * result RetentionResult) (batch : Z) (b : Budget) (s : S)
    : option (S * Budget * result Result) :=
  match Retention batch s with
  | (s', Err e) => Some (s', b, Err e)
  | (s', Ok res) => Some (s', (Take (rr_Deleted res) b).1, Ok (MkResult (rr_Deleted res) (rr_FreedBytes res) (rr_More res)))
  end.

(** The loop of ReaperJob.Run and of EventsJob.Run: chunk after chunk while one
    is left.  [chunk] answers the rows it removed and whether more are owed;
    [on_cancel] is what [More] is when the context has ended. *)
Fixpoint chunk_loop (chunk : S -> S * result (Z * bool)) (on_cancel : bool) (fuel : nat) (rows : Z) (b : Budget) (s : S)
    : option (S * Budget * result Result) :=
  match fuel with
  | O => None
  | Datatypes.S fuel =>
      if cancelled s then Some (s, b, Ok (MkResult rows 0 on_cancel))
      else match chunk s with
           | (s', Err e) => Some (s', b, Err e)
           | (s', Ok (removed, pending)) =>
               let rows := rows + removed in
               if negb pending || Expired b s' then Some (s', b, Ok (MkResult rows 0 (pending && negb (Expired b s'))))
               else let '(b', admitted) := Take removed b in
                    if admitted : bool then chunk_loop chunk on_cancel fuel rows b' s'
                    else Some (s', b', Ok (MkResult rows 0 (pending && negb (Expired b' s'))))
           end
  end.

Definition ReaperJob_Run (ReapResume : S -> S * result (Z * bool)) (fuel : nat) (b : Budget) (s : S)
    : option (S * Budget * result Result) := chunk_loop ReapResume true fuel 0 b s.

Record TrimPolicy : Set := MkTrimPolicy { tp_MaxAgeMs : Z; tp_MaxRows : Z }.

Definition EventsJob_Run (TrimEvents : TrimEventsCmd -> S -> S * result TrimEventsResult) (policy : TrimPolicy)
    (fuel : nat) (b : Budget) (s : S) : option (S * Budget * result Result) :=
  let cmd := MkTrim (tp_MaxAgeMs policy) (tp_MaxRows policy) 0 in
  chunk_loop (fun s => let '(s', r) := TrimEvents cmd s in (s', let? x := r in Ok (tr_Deleted x, tr_More x))) false fuel 0 b s.

(** DedupJob: [cursor] is the rotation state of the job. *)
Record DedupJob : Set := MkDedupJob { dj_limit : Z; dj_cursor : Z }.

Definition defaultDedupLimit : Z := 32.

Definition NewDedupJob (start limit : Z) : DedupJob :=
  MkDedupJob (if limit <=? 0 then defaultDedupLimit else limit) start.

(** The window of one run, [i] streams into it: the rows cleared, the streams
    swept and whether the sweep of the next one failed. *)
Fixpoint dedup_window (SweepDedup : string -> S -> S * result Z) (names : list string) (b : Budget) (s : S) (rows swept : Z)
    : S * Z * Z * option error :=
  match names with
  | [] => (s, rows, swept, None)
  | name :: names =>
      match SweepDedup name s with
      | (s', Err e) => (s', rows, swept, Some e)
      | (s', Ok cleared) =>
          if Expired b s' then (s', rows + cleared, swept + 1, None)
          else dedup_window SweepDedup names b s' (rows + cleared) (swept + 1)
      end
  end.

Definition DedupJob_Run (ListStreams : S -> S * result (list string)) (SweepDedup : string -> S -> S * result Z)
    (j : DedupJob) (b : Budget) (s : S) : S * DedupJob * result Result :=
  match ListStreams s with
  | (s', Err e) => (s', j, Err e)
  | (s', Ok streams) =>
      let n := Z.of_nat (length streams) in
      if n =? 0 then (s', j, Ok no_result)
      else
        let start := dj_cursor j in
        let bound := if n - start <? dj_limit j then n - start else dj_limit j in
        let window := take (Z.to_nat bound) (drop (Z.to_nat start) streams) in
        let '(s2, rows, swept, failed) := dedup_window SweepDedup window b s' 0 0 in
        match failed with
        | Some e => (s2, MkDedupJob (dj_limit j) (start + swept), Err e)
        | None => (s2, MkDedupJob (dj_limit j) (Z.rem (start + swept) n),
                   Ok (MkResult rows 0 ((swept =? bound) && (start + swept <? n))))
        end
  end.

(** CheckpointJob.Run: [Do mode] submits the command. *)
Definition CheckpointJob_Run (WalBytes : S -> result Z) (Do : string -> S -> S * result unit) (WalMaxBytes : Z) (s : S)
    : S * result Result :=
  match WalBytes s with
  | Err e => (s, Err e)
  | Ok wal =>
      if (wal <=? 0) || (wrap64 (wal * 2) <=? WalMaxBytes) then (s, Ok no_result)
      else match Do (if WalMaxBytes <? wal then "TRUNCATE" else "PASSIVE") s with
           | (s', Err e) => (s', Err e)
           | (s', Ok _) => (s', Ok (MkResult wal 0 false))
           end
  end.

(** VacuumJob.Run; [broken] is the job's own flag. *)
Definition VacuumJob_Run (Freelist FreelistAfter : S -> result Z) (Do : Z -> S -> S * result unit) (pages freelistPages : Z)
    (broken : bool) (s : S) : S * bool * result Result :=
  if broken then (s, broken, Ok no_result)
  else match Freelist s with
       | Err e => (s, broken, Err e)
       | Ok before =>
           if before <=? freelistPages then (s, broken, Ok no_result)
           else match Do pages s with
                | (s', Err e) => (s', broken, Err e)
                | (s', Ok _) =>
                    match FreelistAfter s' with
                    | Err e => (s', broken, Err e)
                    | Ok after => (s', before - after <=? 0, Ok no_result)
                    end
                end
       end.

Record LagSample : Set := MkLag { lg_Stream : string; lg_Consumer : string; lg_Lag : Z }.

Record StatsJob : Set := MkStatsJob { sj_Threshold : Z; sj_Interval : Z; sj_lastLogMS : Z }.

Definition NewStatsJob (threshold interval : Z) : StatsJob :=
  MkStatsJob threshold (if interval <=? 0 then 60 * 1000 * Millisecond else interval) (-1).

(** StatsJob.Run, with the samples it logs. *)
Definition StatsJob_Run (sample : S -> result (list LagSample)) (j : StatsJob) (s : S)
    : StatsJob * list LagSample * result Result :=
  match sample s with
  | Err e => (j, [], Err e)
  | Ok samples =>
      let worst := filter (fun x => sj_Threshold j <= lg_Lag x) samples in
      let past := Z.of_nat (length worst) in
      let nowMS := UnixMilli (now s) in
      if (0 <=? sj_lastLogMS j) && (nowMS - sj_lastLogMS j <? Milliseconds (sj_Interval j))
      then (j, [], Ok (MkResult past 0 false))
      else (if 0 <? past then MkStatsJob (sj_Threshold j) (sj_Interval j) nowMS else j, worst, Ok (MkResult past 0 false))
  end.
End Loop.

Definition maxLagSamples : Z := 1000.

Definition SampleLag (d : db) : list LagSample :=
  limit maxLagSamples (order_by (fun a b => lg_Lag b <=? lg_Lag a)
    (map (fun c => MkLag (c_stream c) (c_name c) (default 0 (find_seq (c_stream c) d) - c_cursor_seq c)) (consumers d))).

(** ** disk.go: the monitor *)

Section Monitor.
Context (out_of_range : SpecFloat.spec_float -> Z).

(** One sample: a failed probe holds the state.  The second component is the
    transition that is logged and handed to [OnState], with its actions. *)
Definition monitor_step (p : DiskPolicy) (cur : DiskState) (probe : result Z) : DiskState * option (DiskState * list DiskAction) :=
  match probe with
  | Err _ => (cur, None)
  | Ok free =>
      let '(next, actions) := NextDiskState out_of_range cur free p in
      if bool_decide (next = cur) then (cur, None) else (next, Some (next, actions))
  end.

Fixpoint monitor (p : DiskPolicy) (cur : DiskState) (probes : list (result Z)) : DiskState * list (DiskState * list DiskAction) :=
  match probes with
  | [] => (cur, [])
  | probe :: probes =>
      let '(next, out) := monitor_step p cur probe in
      let '(last, outs) := monitor p next probes in
      (last, option_list out ++ outs)
  end.
End Monitor.

(** ** Facts: sharing a tick *)

Section Fair.
Context {S : Type} (now : S -> Z) (cancelled : S -> bool).

(** What the loop relies on: a job returns, the clock does not run backwards, a
    stopped context stays stopped, and a run that leaves work took time. *)
Record well_behaved (job : Job (S := S)) : Prop := {
  wb_returns : forall b s, exists s' b' r, jb_Run job b s = Some (s', b', r) /\
    bg_deadline b' = bg_deadline b /\ now s <= now s' /\ (cancelled s = true -> cancelled s' = true) /\
    match r with Ok res => rs_More res = true -> now s < now s' | Err _ => True end;
}.

(** The entries of one slice: the first at [t], the others before the deadline [d]. *)
Definition slice_ok (share limit t : Z) (job : Job (S := S)) (es : list entry) : Prop :=
  let d := Z.min (t + share) limit in
  exists rest, es = MkEntry (jb_Name job) t (Some d) :: rest /\
    Forall (fun e => en_job e = jb_Name job /\ en_deadline e = Some d /\ en_started e < d) rest.

Lemma run_slice_ok fuel start job b s nd d :
  well_behaved job -> bg_deadline b = Some d -> d - now s < Z.of_nat fuel -> (0 < fuel)%nat ->
  exists s' nd' rest, run_slice now cancelled fuel start job b s nd = Some (s', nd', MkEntry (jb_Name job) (now s) (Some d) :: rest) /\
    now s <= now s' /\ (cancelled s = true -> cancelled s' = true) /\
    Forall (fun e => en_job e = jb_Name job /\ en_deadline e = Some d /\ en_started e < d) rest.
Proof.
  intros Hwb. revert b s nd. induction fuel as [|fuel IH]; intros b s nd Hd Hf Hpos; [lia|]. simpl.
  destruct (wb_returns _ Hwb b s) as (s' & b' & r & -> & Hd' & Hnow & Hc & Hmore). rewrite Hd.
  destruct r as [res|e]; [|by exists s', nd, []].
  set (nd' := <[_ := _]> nd). destruct (negb (rs_More res) || Expired now b' s' || cancelled s') eqn:Hstop; [by exists s', nd', []|].
  apply orb_false_iff in Hstop as [[Hm%negb_false_iff He]%orb_false_iff _]. specialize (Hmore Hm).
  unfold Expired in He. rewrite Hd', Hd in He. apply Z.leb_gt in He.
  destruct (IH b' s' nd') as (s2 & nd2 & rest & -> & Hn2 & Hc2 & Hall); [congruence|lia..|].
  exists s2, nd2, (MkEntry (jb_Name job) (now s') (Some d) :: rest). simpl. split_and!; [done|lia|auto|].
  by constructor.
Qed.

Lemma run_due_ok fuel cfg start share due s nd :
  Forall well_behaved due -> share < Z.of_nat fuel -> (0 < fuel)%nat ->
  exists s' nd' groups, run_due now cancelled fuel cfg start share due s nd = Some (s', nd', concat groups) /\
    now s <= now s' /\ (cancelled s = true -> cancelled s' = true) /\ (cancelled s' = false -> length groups = length due) /\
    Forall2 (fun job es => exists t, now s <= t /\ slice_ok share (start + cf_Budget cfg) t job es) (take (length groups) due) groups.
Proof.
  intros Hall Hf Hpos. revert s nd. induction Hall as [|job due Hwb Hall IH]; intros s nd; simpl.
  { exists s, nd, []. by split_and!. }
  destruct (cancelled s) eqn:Hc; [exists s, nd, []; split_and!; try done; congruence|].
  set (d := Z.min (now s + share) (start + cf_Budget cfg)).
  destruct (run_slice_ok fuel start job (MkBudget (Some d) (cf_MaxRowsPerTick cfg) (cf_MaxRowsPerTick cfg <=? 0)) s nd d Hwb eq_refl)
    as (s1 & nd1 & rest & -> & Hn1 & Hc1 & Hrest); [lia|done|]. simpl.
  destruct (IH s1 nd1) as (s2 & nd2 & groups & -> & Hn2 & Hc2 & Hlen & Hgroups). simpl.
  exists s2, nd2, ((MkEntry (jb_Name job) (now s) (Some d) :: rest) :: groups). simpl. split_and!; [done|lia|done|..].
  - intros Hs2. by rewrite Hlen.
  - constructor; [exists (now s); split; [lia|by exists rest]|]. eapply Forall2_impl; [exact Hgroups|].
    intros j es (t & Ht & Hs). exists t. split; [lia|done].
Qed.

End Fair.

(** ** The row allowance *)

Section Rows.
Context {S : Type} (now : S -> Z) (cancelled : S -> bool).
Context (chunk : S -> S * result (Z * bool)).

(** Chunk after chunk until none is left, the deadline passes, the janitor is
    stopped or a chunk fails; rows are not counted. *)
Fixpoint drain (fuel : nat) (deadline : option Z) (s : S) : option S :=
  match fuel with
  | O => None
  | Datatypes.S fuel =>
      if cancelled s then Some s
      else match chunk s with
           | (s', Err _) => Some s'
           | (s', Ok (_, pending)) =>
               if negb pending || Expired now (MkBudget deadline 0 true) s' then Some s' else drain fuel deadline s'
           end
  end.

Lemma Take_deadline rows b : bg_deadline (Take rows b).1 = bg_deadline b.
Proof. unfold Take. by repeat case_match. Qed.

Lemma Expired_deadline b d s : bg_deadline b = d -> Expired now b s = Expired now (MkBudget d 0 true) s.
Proof. intros <-. done. Qed.

(** Where the loop of a job stops on the way of [drain]. *)
Lemma chunk_loop_drain n m on_cancel rows b s s' :
  drain n (bg_deadline b) s = Some s' -> (n <= m)%nat ->
  exists s1 b1 r, chunk_loop now cancelled chunk on_cancel m rows b s = Some (s1, b1, r) /\ bg_deadline b1 = bg_deadline b /\
    match r with
    | Err _ => s1 = s'
    | Ok res => if negb (rs_More res) || Expired now b1 s1 || cancelled s1 then s1 = s'
                else exists n', (n' < n)%nat /\ drain n' (bg_deadline b) s1 = Some s'
    end.
Proof.
  revert m rows b s. induction n as [|n IH]; intros m rows b s Hd Hm; [done|]. destruct m as [|m]; [lia|]. simpl in Hd |- *.
  destruct (cancelled s) eqn:Hc.
  { injection Hd as ->. do 3 eexists. split_and!; [done..|]. simpl. by rewrite Hc, orb_true_r. }
  destruct (chunk s) as [s1 [[removed pending]|e]]; [|injection Hd as ->; by do 3 eexists].
  rewrite (Expired_deadline b (bg_deadline b) s1 eq_refl). destruct (negb pending || _) eqn:Hstop.
  { injection Hd as ->. do 3 eexists. split_and!; [done..|]. simpl. rewrite (Expired_deadline b (bg_deadline b) s' eq_refl).
    destruct pending; simpl in *; [by rewrite Hstop|done]. }
  apply orb_false_iff in Hstop as [Hp%negb_false_iff He]. pose proof (Take_deadline removed b) as Htd.
  destruct (Take removed b) as [b' admitted]. simpl in Htd. destruct admitted.
  - rewrite <-Htd in Hd. destruct (IH m (rows + removed) b' s1 Hd ltac:(lia)) as (s2 & b2 & r & -> & Hb2 & Hr).
    do 3 eexists. split_and!; [done|congruence|]. destruct r as [res|]; [|done].
    destruct (_ || _); [done|]. destruct Hr as (n' & Hn' & Hrest). exists n'. rewrite <-Htd. split; [lia|done].
  - do 3 eexists. split_and!; [done..|]. simpl. rewrite (Expired_deadline b' _ s1 Htd), He, Hp. simpl.
    destruct (cancelled s1) eqn:Hc1; [|exists n; split; [lia|done]]. destruct n; simpl in Hd; [done|]. rewrite Hc1 in Hd. congruence.
Qed.

(** The row allowance of a slice has no effect on the reaper and on the
    event trim: whatever is left of it, and whether it is exhausted or not, the
    slice leaves the state that removing chunk after chunk without counting rows
    would leave.  A refused [Take] ends one run, which reports more work, and the
    loop enters the job again at once. *)
Theorem row_allowance_ineffective (n : nat) (on_cancel : bool) (name : string) (every start : Z) (b : Budget) (nd : gmap string Z) (s s' : S) :
  drain n (bg_deadline b) s = Some s' ->
  exists nd' es, run_slice now cancelled n start (MkJob name every (chunk_loop now cancelled chunk on_cancel n 0)) b s nd = Some (s', nd', es).
Proof.
  intros Hd. set (job := MkJob _ _ _).
  enough (Hgen : forall k j b s nd, (j <= k)%nat -> (j <= n)%nat -> drain j (bg_deadline b) s = Some s' ->
    exists nd' es, run_slice now cancelled k start job b s nd = Some (s', nd', es)) by (by apply (Hgen n n)).
  clear b s nd Hd. intros k. induction k as [|k IH]; intros j b s nd Hjk Hjn Hd; (destruct j as [|j]; [done|]); [lia|]. simpl.
  destruct (chunk_loop_drain (Datatypes.S j) n on_cancel 0 b s s' Hd Hjn) as (s1 & b1 & r & -> & Hb1 & Hr).
  destruct r as [res|e]; [|subst; eauto]. destruct (_ || _); [subst; eauto|]. destruct Hr as (n' & Hn' & Hrest).
  rewrite <-Hb1 in Hrest. edestruct (IH n' b1 s1) as (nd' & es & Hrun); [lia..|done|]. rewrite Hrun. simpl. eauto.
Qed.
End Rows.

(** ** The rotation of the dedup job *)

Section Rotation.
Context {S : Type} (now : S -> Z).
Context (names : list string) (ListStreams : S -> S * result (list string)) (SweepDedup : string -> S -> S * result Z).
Context (swept_of : S -> list string).
(** The streams do not change meanwhile, and every sweep succeeds. *)
Hypothesis list_ok : forall s, exists s', ListStreams s = (s', Ok names) /\ swept_of s' = swept_of s.
Hypothesis sweep_ok : forall name s, exists s' n, SweepDedup name s = (s', Ok n) /\ swept_of s' = swept_of s ++ [name].

(** Consecutive runs, one per budget. *)
Fixpoint dedup_runs (budgets : list Budget) (j : DedupJob) (s : S) : S * DedupJob :=
  match budgets with
  | [] => (s, j)
  | b :: budgets => let '(s', j', _) := DedupJob_Run now ListStreams SweepDedup j b s in dedup_runs budgets j' s'
  end.

Lemma dedup_window_swept window b s rows k :
  window <> [] ->
  exists s' rows' m, dedup_window now SweepDedup window b s rows k = (s', rows', k + Z.of_nat m, None) /\
    (0 < m <= length window)%nat /\ swept_of s' = swept_of s ++ take m window.
Proof.
  revert s rows k. induction window as [|name window IH]; intros s rows k Hne; [done|]. simpl.
  destruct (sweep_ok name s) as (s' & n & -> & Hlog). destruct (Expired now b s').
  { exists s', (rows + n), 1%nat. split_and!; [done|lia..|done]. }
  destruct window as [|name' window].
  { exists s', (rows + n), 1%nat. split_and!; [done|lia..|done]. }
  destruct (IH s' (rows + n) (k + 1) ltac:(done)) as (s2 & rows2 & m & -> & Hm & Hlog2).
  exists s2, rows2, (Datatypes.S m). split_and!; [f_equal; f_equal; lia|simpl in *; lia..|].
  rewrite Hlog2, Hlog, <-app_assoc. done.
Qed.

(** One run sweeps the streams from the cursor on and moves it behind them. *)
Lemma dedup_run_swept j b s :
  0 < dj_limit j -> 0 <= dj_cursor j < Z.of_nat (length names) ->
  exists s' r m, DedupJob_Run now ListStreams SweepDedup j b s =
      (s', MkDedupJob (dj_limit j) ((dj_cursor j + Z.of_nat m) mod Z.of_nat (length names)), r) /\
    (0 < m)%nat /\ dj_cursor j + Z.of_nat m <= Z.of_nat (length names) /\
    swept_of s' = swept_of s ++ take m (drop (Z.to_nat (dj_cursor j)) names).
Proof.
  intros Hl Hc. unfold DedupJob_Run. destruct (list_ok s) as (s0 & -> & Hlog0).
  rewrite (proj2 (Z.eqb_neq _ _)) by lia. cbv zeta.
  set (bound := if _ <? _ then _ else _). set (window := take _ _).
  assert (Hbound : 0 < bound <= Z.of_nat (length names) - dj_cursor j).
  { unfold bound. destruct (Z.ltb_spec (Z.of_nat (length names) - dj_cursor j) (dj_limit j)); lia. }
  assert (Hwlen : length window = Z.to_nat bound) by (unfold window; rewrite length_take, length_drop; lia).
  destruct (dedup_window_swept window b s0 0 0) as (s2 & rows & m & -> & Hm & Hlog).
  { intros He. rewrite He in Hwlen. simpl in Hwlen. lia. }
  rewrite Z.add_0_l, Z.rem_mod_nonneg by lia. do 3 eexists. split_and!; [done|lia..|].
  rewrite Hlog, Hlog0. unfold window. rewrite take_take. do 2 f_equal. lia.
Qed.

(** [k] consecutive runs sweep at least the [k] streams from the cursor on, cyclically. *)
Lemma dedup_runs_swept budgets j s :
  0 < dj_limit j -> 0 <= dj_cursor j < Z.of_nat (length names) ->
  swept_of s ⊆ swept_of (dedup_runs budgets j s).1 /\
  forall i, (i < length budgets)%nat -> exists name,
    names !! Z.to_nat ((dj_cursor j + Z.of_nat i) mod Z.of_nat (length names)) = Some name /\
    name ∈ swept_of (dedup_runs budgets j s).1.
Proof.
  revert j s. induction budgets as [|b budgets IH]; intros j s Hl Hc; simpl; [split; [done|lia]|].
  destruct (dedup_run_swept j b s Hl Hc) as (s1 & r & m & -> & Hm & Hle & Hlog).
  set (n := Z.of_nat (length names)) in *. set (c' := (dj_cursor j + Z.of_nat m) mod n).
  assert (Hc' : 0 <= c' < n) by (apply Z.mod_pos_bound; lia).
  destruct (IH (MkDedupJob (dj_limit j) c') s1 Hl Hc') as [Hsub Hall]. cbn [dj_cursor] in Hall.
  split; [intros x Hx; apply Hsub; rewrite Hlog; set_solver|]. intros i Hi.
  destruct (decide (i < m)%nat) as [Hin|Hout].
  - rewrite Z.mod_small by lia. destruct (lookup_lt_is_Some_2 names (Z.to_nat (dj_cursor j + Z.of_nat i))) as [name Hname]; [lia|].
    exists name. split; [done|]. apply Hsub. rewrite Hlog. apply elem_of_app. right.
    apply (list_elem_of_lookup_2 _ i). rewrite lookup_take_lt, lookup_drop by done. rewrite <-Hname. f_equal. lia.
  - destruct (Hall (i - m)%nat ltac:(lia)) as (name & Hname & Hin). exists name. split; [|done].
    rewrite <-Hname. do 2 f_equal. unfold c'. rewrite Zplus_mod_idemp_l. f_equal. lia.
Qed.

(** The dedup job covers every stream: from any cursor, one run per stream
    sweeps every stream at least once, however early the budgets cut the runs and
    however small the window is. *)
Theorem dedup_rotation_covers (budgets : list Budget) (j : DedupJob) (s : S) (name : string) :
  0 < dj_limit j -> 0 <= dj_cursor j < Z.of_nat (length names) -> length budgets = length names -> name ∈ names ->
  name ∈ swept_of (dedup_runs budgets j s).1.
Proof.
  intros Hl Hc Hlen [k Hk]%list_elem_of_lookup. pose proof (lookup_lt_Some _ _ _ Hk) as Hlt.
  destruct (dedup_runs_swept budgets j s Hl Hc) as [_ Hall]. set (n := Z.of_nat (length names)) in *.
  destruct (Hall (Z.to_nat ((Z.of_nat k - dj_cursor j) mod n))) as (name' & Hname' & Hin).
  { pose proof (Z.mod_pos_bound (Z.of_nat k - dj_cursor j) n). lia. }
  rewrite Z2Nat.id in Hname' by (apply Z.mod_pos_bound; lia).
  rewrite Zplus_mod_idemp_r, Z.mod_small in Hname' by lia.
  replace (Z.to_nat _) with k in Hname' by lia. congruence.
Qed.
End Rotation.

(** ** The reaper over the store *)

(** The janitor's view of a daemon: the clock, the stop flag and the store. *)
Record house : Set := MkHouse { hs_now : Z; hs_stopped : bool; hs_world : world }.

(** A command submitted to the writer; it takes [cost]. *)
Definition submit {A} (cost : Z) (t : tx A) (h : house) : house * result A :=
  let '(w, r) := savepoint t (hs_world h) in (MkHouse (hs_now h + cost) (hs_stopped h) w, r).

Definition store_reaper (cost : Z) (fuel : nat) : Job (S := house) :=
  MkJob "reaper" 0 (ReaperJob_Run hs_now hs_stopped (submit cost reapResumeCmd) fuel).

(** With one marker on record a resume is a chunk of that stream. *)
Lemma reapResume_one name w :
  reap_markers (w_db w) = [name] ->
  reapResumeCmd w = let '(w', r) := reapChunkCmd name w in (w', let? x := r in Ok (x.1, negb x.2)).
Proof.
  intros Hone. unfold reapResumeCmd, mbind, tx_bind, query.
  assert (reap_markers (on_meta (order_by (fun a b => String.leb a.1 b.1)) (w_db w)) = [name]) as ->.
  { unfold reap_markers in *. simpl. apply Permutation_singleton_r. rewrite <-Hone. apply Permutation_map.
    apply where_Permutation, order_by_Permutation. }
  by destruct (reapChunkCmd name w) as [w' [[r c]|e]].
Qed.

Lemma submit_chunk cost name h :
  reap_markers (w_db (hs_world h)) = [name] ->
  let w := hs_world h in
  let n := count (on_stream name) (messages (w_db w)) in
  let d := on_messages (delete_first (on_stream name) (Z.to_nat deleteChunkRows)) (w_db w) in
  submit cost reapResumeCmd h =
    if n <? deleteChunkRows
    then (MkHouse (hs_now h + cost) (hs_stopped h) (World (meta_del (metaReapPrefix +:+ name) d) (w_mem w)), Ok (n, false))
    else (MkHouse (hs_now h + cost) (hs_stopped h) (World d (w_mem w)), Ok (deleteChunkRows, true)).
Proof.
  intros Hone. cbv zeta. unfold submit, savepoint. rewrite (reapResume_one _ _ Hone), reap_chunk. cbv zeta.
  by destruct (_ <? _).
Qed.

(** The janitor's reaper finishes an interrupted deletion: with one marker on
    record and enough time in its slice, one run removes every message of the
    stream and the marker, counts exactly the rows it removed and reports that no
    work is left. *)
Theorem reaper_finishes_delete (cost : Z) (fuel : nat) (name : string) (d : Z) (h : house) :
  0 <= cost -> reap_markers (w_db (hs_world h)) = [name] -> hs_stopped h = false ->
  count (on_stream name) (messages (w_db (hs_world h))) < Z.of_nat fuel * deleteChunkRows ->
  hs_now h + Z.of_nat fuel * cost < d ->
  exists h', jb_Run (store_reaper cost fuel) (MkBudget (Some d) 0 true) h =
      Some (h', MkBudget (Some d) 0 true, Ok (MkResult (count (on_stream name) (messages (w_db (hs_world h)))) 0 false)) /\
    w_db (hs_world h') = reaped name (w_db (hs_world h)) /\ w_mem (hs_world h') = w_mem (hs_world h).
Proof.
  intros Hcost Hone Hrun Hfuel Htime. unfold store_reaper, ReaperJob_Run. cbn [jb_Run].
  enough (Hgen : forall rows, exists h', chunk_loop hs_now hs_stopped (submit cost reapResumeCmd) true fuel rows (MkBudget (Some d) 0 true) h =
      Some (h', MkBudget (Some d) 0 true, Ok (MkResult (rows + count (on_stream name) (messages (w_db (hs_world h)))) 0 false)) /\
      w_db (hs_world h') = reaped name (w_db (hs_world h)) /\ w_mem (hs_world h') = w_mem (hs_world h)) by apply (Hgen 0).
  revert h Hone Hrun Hfuel Htime. induction fuel as [|fuel IH]; intros h Hone Hrun Hfuel Htime rows.
  { pose proof (count_nonneg (on_stream name) (messages (w_db (hs_world h)))). lia. }
  cbn [chunk_loop]. rewrite Hrun, (submit_chunk _ _ _ Hone). cbv zeta.
  destruct (Z.ltb_spec (count (on_stream name) (messages (w_db (hs_world h)))) deleteChunkRows) as [Hlt|Hge].
  - simpl. eexists. split_and!; [done| |done]. simpl. unfold reaped, meta_del, on_meta, on_messages. simpl.
    rewrite delete_first_all; [done|]. unfold count in Hlt. lia.
  - set (h1 := MkHouse _ _ _). assert (Hexp : Expired hs_now (MkBudget (Some d) 0 true) h1 = false) by (apply Z.leb_gt; simpl; lia).
    cbn [negb orb]. rewrite Hexp. cbn [Take bg_unlimited]. unfold Take. cbn [bg_unlimited].
    rewrite (proj2 (Z.leb_gt _ _)) by done.
    assert (Hn1 : count (on_stream name) (messages (w_db (hs_world h1))) = count (on_stream name) (messages (w_db (hs_world h))) - deleteChunkRows).
    { unfold h1. cbn [hs_world w_db on_messages messages]. rewrite count_chunk. lia. }
    destruct (IH h1 Hone Hrun) with (rows := rows + deleteChunkRows) as (h' & -> & Hdb & Hmem); [rewrite Hn1; lia|simpl; lia|].
    rewrite Hn1. exists h'. split_and!; [do 3 f_equal; f_equal; lia| |done].
    rewrite Hdb. unfold h1, reaped, meta_del, on_meta, on_messages. simpl. by rewrite delete_rest.
Qed.

(** ** The disk monitor *)

Section Monitor_facts.
Context (out_of_range : SpecFloat.spec_float -> Z).

(** The readings of the probes that answered. *)
Definition answered (probes : list (result Z)) : list Z :=
  omap (fun r => match r with Ok free => Some free | Err _ => None end) probes.

(** A failed probe counts as no reading, and carrying out the actions of the
    logged transitions is what the state machine asks for. *)
Lemma monitor_follows p cur o probes :
  let '(last, outs) := monitor out_of_range p cur probes in
  foldl (reading out_of_range p) (cur, o) (answered probes) = (last, foldl act o (concat (map snd outs))).
Proof.
  revert cur o. induction probes as [|probe probes IH]; intros cur o; simpl; [done|]. unfold monitor_step.
  destruct probe as [free|e]; simpl; [|specialize (IH cur o); by destruct (monitor _ _ cur probes)].
  unfold reading at 2. cbn [fst snd]. destruct (NextDiskState out_of_range cur free p) as [next acts] eqn:Hn.
  assert (Hno : next = cur -> acts = []).
  { unfold NextDiskState in Hn. intros ->. by repeat case_match; simplify_eq. }
  case_bool_decide as Heq.
  - specialize (IH cur o). rewrite (Hno Heq), Heq. by destruct (monitor _ _ cur probes).
  - specialize (IH next (foldl act o acts)). destruct (monitor _ _ next probes) as [last outs]. simpl.
    by rewrite foldl_app.
Qed.
End Monitor_facts.

(** ** Samples *)

(** A clock in nanoseconds, a job that never finishes and takes 100 ms a run,
    and one that is done at once. *)
Definition greedy : Job (S := Z) :=
  MkJob "greedy" 0 (fun b t => Some (t + 100 * Millisecond, b, Ok (MkResult 1 0 true))).
Definition quick : Job (S := Z) := MkJob "quick" 0 (fun b t => Some (t, b, Ok no_result)).
Definition a_tick : Config := MkConfig (60 * 1000 * Millisecond) defaultBudget 0.


(** Three chunks of 5000 rows are left; a slice allows a single row. *)
Definition three_left (s : Z * Z) : (Z * Z) * result (Z * bool) :=
  ((s.1 + 1, s.2 - 1), Ok (5000, 1 <? s.2)).

Lemma row_allowance_ineffective_witness :
  exists nd es, run_slice fst (fun _ => false) 4 0 (MkJob "reaper" 0 (chunk_loop fst (fun _ => false) three_left true 4 0))
    (MkBudget (Some 1000) 1 false) (0, 3) ∅ = Some ((3, 0), nd, es).
Proof. apply (row_allowance_ineffective fst (fun _ => false) three_left 4 true). reflexivity. Defined.

Lemma dedup_rotation_covers_witness :
  "c" ∈ (dedup_runs (fun _ : list string => 0) (fun s => (s, Ok ["a"; "b"; "c"])) (fun n s => (s ++ [n], Ok 0))
           (replicate 3 (MkBudget (Some 0) 0 true)) (NewDedupJob 1 0) []).1.
Proof.
  apply (dedup_rotation_covers (fun _ : list string => 0) ["a"; "b"; "c"] (fun s => (s, Ok ["a"; "b"; "c"]))
           (fun n s => (s ++ [n], Ok 0)) (fun s => s)); [eauto|eauto|done|done|done|set_solver].
Defined.

(** A deleted stream with one message left to reap. *)
Definition half_deleted : house :=
  MkHouse 0 false (World (Db [] [] [Message "orders" 1 "m1" "orders.new" None "hi" 2 1 "t" None] [] [] [] []
    [("reap.orders", "1")]) empty_mem).

Lemma reaper_finishes_delete_witness :
  exists h', jb_Run (store_reaper 10 1) (MkBudget (Some 1000) 0 true) half_deleted =
      Some (h', MkBudget (Some 1000) 0 true, Ok (MkResult 1 0 false)) /\ messages (w_db (hs_world h')) = [] /\ meta (w_db (hs_world h')) = [].
Proof.
  destruct (reaper_finishes_delete 10 1 "orders" 1000 half_deleted) as (h' & Hrun & Hdb & _); [done|reflexivity|reflexivity|done|done|].
  exists h'. split; [exact Hrun|]. rewrite Hdb. split; reflexivity.
Defined.

End Janitor.
