(* ===== verification/ExecWorker.v ===== *)
(** * Running a command per message

    [internal/cli/exec]: the words of the command line ([words.go]), the
    reason kept of a child's stderr ([reason.go], [child.go]), the environment
    of the child ([env.go]), the exit-code table ([outcome.go]) and the handler
    that joins them ([runner.go]).

    A child is what the kernel reports of it: it could not be started, or it
    ended with a status after writing chunks to its stderr.  Signals, process
    groups and the rendering of records are not modelled. *)

From S2P Require Import ClientErrors ClientLease.
From S2P Require Export ClientWorker TextFields Dead.

Module ExecWorker.
Import ClientErrors ClientLease ClientWorker Dlq.

(** ** words.go *)

Inductive word_error : Set := ErrUnterminatedQuote | ErrDanglingBackslash.

Record scan : Set := MkScan {
  sc_out : list string;
  sc_cur : string;
  sc_building : bool;
  sc_single : bool;
  sc_double : bool;
  sc_escaped : bool;
}.

Definition flush (s : scan) : scan :=
  if sc_building s
  then MkScan (sc_out s ++ [sc_cur s]) "" false (sc_single s) (sc_double s) (sc_escaped s)
  else s.

(** [cur.WriteRune(r)] *)
Definition write_rune (r : Z) (s : scan) : scan :=
  MkScan (sc_out s) (sc_cur s +:+ encode_rune r) true (sc_single s) (sc_double s) false.

Definition bs : Z := 92.
Definition squote : Z := 39.
Definition dquote : Z := 34.

(** One rune; [last] when no byte is left behind it. *)
Definition scan_rune (last : bool) (r : Z) (s : scan) : scan + word_error :=
  if sc_escaped s then inl (write_rune r s)
  else if negb (sc_single s) && (r =? bs) then
    if last then inr ErrDanglingBackslash
    else inl (MkScan (sc_out s) (sc_cur s) (sc_building s) (sc_single s) (sc_double s) true)
  else if negb (sc_single s) && negb (sc_double s) && IsSpace r then inl (flush s)
  else if negb (sc_double s) && (r =? squote) then
    inl (MkScan (sc_out s) (sc_cur s) true (negb (sc_single s)) (sc_double s) (sc_escaped s))
  else if negb (sc_single s) && (r =? dquote) then
    inl (MkScan (sc_out s) (sc_cur s) true (sc_single s) (negb (sc_double s)) (sc_escaped s))
  else inl (write_rune r s).

Fixpoint scan_runes (cs : list (Z * string)) (s : scan) : scan + word_error :=
  match cs with
  | [] => inl s
  | c :: cs =>
      match scan_rune (match cs with [] => true | _ => false end) c.1 s with
      | inl s' => scan_runes cs s'
      | inr e => inr e
      end
  end.

Definition SplitWords (line : string) : list string + word_error :=
  match scan_runes (chunks line) (MkScan [] "" false false false false) with
  | inr e => inr e
  | inl s =>
      if sc_escaped s then inr ErrDanglingBackslash
      else if sc_single s || sc_double s then inr ErrUnterminatedQuote
      else inl (sc_out (flush s))
  end.

(** ** reason.go *)

Inductive StderrMode : Set := HeadStderr | TailStderr.

Definition maxReasonBytes : Z := Z.shiftl 64 10.

Definition ClampReasonCap (max : Z) : Z :=
  if max <? 0 then 0 else if maxReasonBytes <? max then maxReasonBytes else max.

(** The live fragments of the window, oldest first, and their size. *)
Record reasonWindow : Set := MkWindow { rw_limit : Z; rw_size : Z; rw_runes : list string }.

(** The evictions of the tail mode; the window keeps a size within the limit. *)
Fixpoint evict (limit size : Z) (runes : list string) : Z * list string :=
  match runes with
  | [] => (size, [])
  | r :: runes' => if limit <? size then evict limit (size - slen r) runes' else (size, runes)
  end.

Definition push (mode : StderrMode) (r : Z) (w : reasonWindow) : reasonWindow * bool :=
  let enc := encode_rune r in
  let n := slen enc in
  match mode with
  | HeadStderr =>
      if rw_limit w <? rw_size w + n then (w, false)
      else (MkWindow (rw_limit w) (rw_size w + n) (rw_runes w ++ [enc]), true)
  | TailStderr =>
      let '(size, runes) := evict (rw_limit w) (rw_size w + n) (rw_runes w ++ [enc]) in
      (MkWindow (rw_limit w) size runes, true)
  end.

Definition window_String (w : reasonWindow) : string := String.concat "" (rw_runes w).

(** The bytes of a CSI sequence behind its bracket, up to its final byte. *)
Fixpoint csi_length (s : string) : nat :=
  match s with
  | EmptyString => 0
  | String c s => if cont_in 64 126 c then 1 else S (csi_length s)
  end.

(** The bytes of an OSC sequence behind its bracket, up to BEL or ST. *)
Fixpoint osc_length (s : string) : nat :=
  match s with
  | EmptyString => 0
  | String c s' =>
      if byte_z c =? 7 then 1
      else if (byte_z c =? 27) && match s' with String d _ => byte_z d =? bs | EmptyString => false end then 2
      else S (osc_length s')
  end.

(** How many bytes behind an ESC belong to its sequence. *)
Definition skipEscape (rest : string) : nat :=
  match rest with
  | EmptyString => 0
  | String c s =>
      if byte_z c =? 91 then S (csi_length s)
      else if byte_z c =? 93 then S (osc_length s)
      else (decode_rune rest).2
  end.

(** What becomes of a rune, and the bytes of [rest] consumed with it. *)
Definition clean (r : Z) (rest : string) : option Z * nat :=
  if r =? 27 then (None, skipEscape rest)
  else if r =? 13 then (Some 10, if has_prefix (String "010" "") rest then 1%nat else 0%nat)
  else if (r =? 9) || (r =? 10) then (Some r, 0%nat)
  else if r =? RuneError then (Some RuneError, 0%nat)
  else if r <? 32 then (None, 0%nat)
  else if r <? 127 then (Some r, 0%nat)
  else if r <=? 159 then (None, 0%nat)
  else (Some r, 0%nat).

(** A stray DEL or C1 byte. *)
Definition stray (c : ascii) : bool := (byte_z c =? 127) || cont_in 128 159 c.

(** [None] when the fuel runs out; every step consumes a byte. *)
Fixpoint sanitizeInto (mode : StderrMode) (fuel : nat) (src : string) (w : reasonWindow) : option reasonWindow :=
  match src with
  | EmptyString => Some w
  | String c _ =>
      match fuel with
      | O => None
      | S fuel =>
          let '(r, sz) := decode_rune src in
          let rest := drop_str sz src in
          if (r =? RuneError) && (sz =? 1)%nat && stray c then sanitizeInto mode fuel rest w
          else
            let '(out, skip) := clean r rest in
            let rest := drop_str skip rest in
            match out with
            | None => sanitizeInto mode fuel rest w
            | Some r' =>
                let '(w', ok) := push mode r' w in
                if ok : bool then sanitizeInto mode fuel rest w' else Some w'
            end
      end
  end.

Definition SanitizeStderr (b : string) (max : Z) (mode : StderrMode) : option string :=
  let max := ClampReasonCap max in
  if bool_decide (b = "") || (max =? 0) then Some ""
  else window_String <$> sanitizeInto mode (String.length b) b (MkWindow max 0 []).

(** ** child.go: the bounded capture of stderr *)

Record captured : Set := MkCaptured {
  ca_cap : Z;
  ca_mode : StderrMode;
  ca_buf : string;
  ca_droppedOff : Z;
  ca_totalIn : Z;
}.

Definition newCaptured (capBytes : Z) (mode : StderrMode) : captured :=
  MkCaptured (ClampReasonCap capBytes) mode "" 0 0.

(** The new capture and the count that [Write] returns. *)
Definition writeLocked (p : string) (c : captured) : captured * Z :=
  let total := ca_totalIn c + slen p in
  if (ca_cap c <=? 0) || bool_decide (p = "")
  then (MkCaptured (ca_cap c) (ca_mode c) (ca_buf c) (ca_droppedOff c) total, slen p)
  else match ca_mode c with
       | HeadStderr =>
           let free := ca_cap c - slen (ca_buf c) in
           if 0 <? free
           then (MkCaptured (ca_cap c) HeadStderr (ca_buf c +:+ take_str (Z.to_nat free) p) (ca_droppedOff c) total, slen p)
           else (MkCaptured (ca_cap c) HeadStderr (ca_buf c) (ca_droppedOff c + slen p) total, slen p)
       | TailStderr =>
           let take := Z.min (slen p) (ca_cap c) in
           let p := drop_str (Z.to_nat (slen p - take)) p in
           let buf := ca_buf c +:+ p in
           let extra := slen buf - ca_cap c in
           (MkCaptured (ca_cap c) TailStderr (drop_str (Z.to_nat extra) buf) (ca_droppedOff c) total, take)
       end.

Definition truncated (c : captured) : bool :=
  match ca_mode c with
  | HeadStderr => (0 <? ca_droppedOff c) || (slen (ca_buf c) <? ca_totalIn c)
  | TailStderr => ca_cap c <? ca_totalIn c
  end.

(** io.Copy into the capture, chunk by chunk: a write that reports fewer bytes
    than it was given ends the copy.  The second component tells whether the
    copy went through. *)
Fixpoint copy_stderr (writes : list string) (c : captured) : captured * bool :=
  match writes with
  | [] => (c, true)
  | p :: writes =>
      let '(c', n) := writeLocked p c in
      if n =? slen p then copy_stderr writes c' else (c', false)
  end.

(** ** outcome.go *)

Inductive Outcome : Set := OutcomeAck | OutcomeNak | OutcomeTerm | OutcomeAbandon.
Inductive CauseKind : Set := CauseNone | CauseExecTimeout | CauseSpawnFailure | CauseLeaseLoss.

(** os.ProcessState, as ExitCode and WaitStatus tell it. *)
Inductive ProcessState : Set :=
| Exited (code : Z)
| Signaled (sig : Z)
| Unfinished.

Definition ExitCode (st : ProcessState) : Z :=
  match st with
  | Exited code => code
  | _ => -1
  end.

Record Result : Set := MkResult { ex_Outcome : Outcome; ex_ExitCode : Z; ex_Signal : Z; ex_Reason : string }.

Definition joinReason (prefix stderr : string) : string :=
  if bool_decide (prefix = "") then stderr
  else if bool_decide (stderr = "") then prefix
  else prefix +:+ ": " +:+ stderr.

(** The numbers are those of Linux on amd64. *)
Definition signalNames : list (Z * string) :=
  [(1, "SIGHUP"); (2, "SIGINT"); (3, "SIGQUIT"); (4, "SIGILL"); (5, "SIGTRAP"); (6, "SIGABRT"); (7, "SIGBUS");
   (8, "SIGFPE"); (9, "SIGKILL"); (10, "SIGUSR1"); (11, "SIGSEGV"); (12, "SIGUSR2"); (13, "SIGPIPE"); (14, "SIGALRM");
   (15, "SIGTERM"); (17, "SIGCHLD"); (18, "SIGCONT"); (19, "SIGSTOP"); (20, "SIGTSTP"); (21, "SIGTTIN");
   (22, "SIGTTOU"); (23, "SIGURG"); (24, "SIGXCPU"); (25, "SIGXFSZ"); (26, "SIGVTALRM"); (27, "SIGPROF");
   (28, "SIGWINCH"); (29, "SIGIO"); (30, "SIGPWR"); (31, "SIGSYS"); (16, "SIGSTKFLT")].

Definition signalName (s : Z) : string :=
  match List.find (fun x => x.1 =? s) signalNames with
  | Some x => x.2
  | None => "signal " +:+ format_int s
  end.

Definition Classify (st : option ProcessState) (kind : CauseKind) (detail stderr : string) : Result :=
  let code := match st with Some s => ExitCode s | None => -1 end in
  match kind with
  | CauseLeaseLoss => MkResult OutcomeAbandon code 0 ""
  | CauseSpawnFailure => MkResult OutcomeNak (-1) 0 (joinReason ("could not start " +:+ detail) "")
  | CauseExecTimeout => MkResult OutcomeNak code 0 (joinReason ("exec timeout after " +:+ detail) stderr)
  | CauseNone =>
      match st with
      | None => MkResult OutcomeNak (-1) 0 "child vanished without an exit status"
      | Some s =>
          if code <? 0 then
            match s with
            | Signaled sig => MkResult OutcomeNak (-1) sig (joinReason ("killed by " +:+ signalName sig) stderr)
            | _ => MkResult OutcomeNak code 0 "child ended without an exit or signal status"
            end
          else if code =? 0 then MkResult OutcomeAck 0 0 ""
          else if code =? 75 then MkResult OutcomeNak 75 0 stderr
          else if code =? 65 then MkResult OutcomeTerm 65 0 stderr
          else MkResult OutcomeNak code 0 (joinReason ("exit " +:+ format_int code) stderr)
      end
  end.

(** ** env.go *)

(** The fields of a client.Delivered that reach the child. *)
Record Delivered : Set := MkDelivered {
  dv_Stream : string;
  dv_Consumer : string;
  dv_ID : string;
  dv_Seq : Z;
  dv_Subject : string;
  dv_Attempt : Z;
  dv_MaxDeliver : Z;
  dv_TraceID : string;
  dv_DeadlineMS : Z;
  dv_PublishedAt : Z;
  dv_Size : Z;
  dv_AckToken : string;
  dv_Header : list (string * string);
  dv_Body : string;
}.

Definition prefixReserved : string := "MESSQ_".
Definition nul : ascii := "000".
Definition eq_sign : ascii := "=".

Definition cleanEnvAllowlist : list string := ["PATH"; "HOME"; "TZ"; "LANG"; "MESSQ_ADDR"; "MESSQ_TOKEN_FILE"].

Definition splitKv (s : string) : option (string * string) := cut eq_sign s.

Definition isReserved (name : string) : bool := has_prefix prefixReserved name || String.eqb name "traceparent".

Definition kv (name val : string) : string := name +:+ "=" +:+ val.

(** Whether a parent entry survives. *)
Definition parent_entry (cleanEnv : bool) (x : string) : option string :=
  match splitKv x with
  | None => None
  | Some (name, val) =>
      if bool_decide (name = "") || has_byte nul val || has_byte nul name then None
      else if cleanEnv && negb (existsb (String.eqb name) cleanEnvAllowlist) then None
      else if isReserved name && negb (String.eqb name "MESSQ_ADDR") && negb (String.eqb name "MESSQ_TOKEN_FILE") then None
      else Some (kv name val)
  end.

Definition filterParent (parent : list string) (cleanEnv : bool) : list string := omap (parent_entry cleanEnv) parent.

Fixpoint validatedExtras (extras : list string) : result (list string) :=
  match extras with
  | [] => Ok []
  | x :: extras =>
      match splitKv x with
      | None => Err (Plain "--exec-env: want NAME=value")
      | Some (name, _) =>
          if bool_decide (name = "") then Err (Plain "--exec-env: empty NAME")
          else if has_byte nul x then Err (Plain "--exec-env: NUL byte is not representable")
          else let? ok := validatedExtras extras in Ok (if isReserved name then ok else x :: ok)
      end
  end.

Definition removeNamed (env : list string) (name : string) : list string :=
  List.filter (fun x => negb (has_prefix (name +:+ "=") x)) env.

Definition upper_byte (c : ascii) : ascii :=
  let b := byte_z c in if (97 <=? b) && (b <=? 122) then byte_chr (b - 32) else c.

Definition mangle_byte (c : ascii) : ascii :=
  let b := byte_z c in if ((65 <=? b) && (b <=? 90)) || is_digit c then c else "_"%char.

Fixpoint map_bytes (f : ascii -> ascii) (s : string) : string :=
  match s with
  | EmptyString => EmptyString
  | String c s => String (f c) (map_bytes f s)
  end.

Section Env.
(** [strings.ToUpper] of a text that is not all ASCII, and [json.Marshal] of a header map. *)
Context (unicode_upper : string -> string) (marshal_header : list (string * string) -> string).

Definition ToUpper (s : string) : string :=
  if all_bytes (fun c => byte_z c <? 128) s then map_bytes upper_byte s else unicode_upper s.

Definition mangleHeaderName (name : string) : string :=
  let up := ToUpper name in
  (match up with String c _ => if is_digit c then "_" else "" | EmptyString => "" end) +:+ map_bytes mangle_byte up.

(** The headers in the order of their names, the winner of a collision first;
    [taken] holds the mangled names already given out. *)
Fixpoint header_vars_from (taken : list string) (h : list (string * string)) : list (string * string) :=
  match h with
  | [] => []
  | (original, val) :: h =>
      let mangled := mangleHeaderName original in
      if bool_decide (original = "") || has_byte nul val || all_bytes (fun c => bool_decide (c = "_"%char)) mangled
         || existsb (String.eqb mangled) taken
      then header_vars_from taken h
      else (prefixReserved +:+ "HEADER_" +:+ mangled, val) :: header_vars_from (mangled :: taken) h
  end.

Definition headerVars (h : list (string * string)) : list (string * string) :=
  order_by (fun a b => String.leb a.1 b.1) (header_vars_from [] (order_by (fun a b => String.leb a.1 b.1) h)).

(** The block computed from the message, before the headers. *)
Definition message_vars (m : Delivered) : list (string * string) :=
  [("MESSQ_STREAM", dv_Stream m); ("MESSQ_CONSUMER", dv_Consumer m); ("MESSQ_MSG_ID", dv_ID m);
   ("MESSQ_SEQ", format_int (dv_Seq m)); ("MESSQ_SUBJECT", dv_Subject m); ("MESSQ_ATTEMPT", format_int (dv_Attempt m));
   ("MESSQ_MAX_DELIVER", format_int (dv_MaxDeliver m)); ("MESSQ_REDELIVERED", if 1 <? dv_Attempt m then "1" else "0");
   ("MESSQ_TRACE_ID", dv_TraceID m); ("MESSQ_DEADLINE", formatRFC3339MS (dv_DeadlineMS m));
   ("MESSQ_DEADLINE_MS", format_int (dv_DeadlineMS m)); ("MESSQ_PUBLISHED_AT", formatRFC3339MS (dv_PublishedAt m));
   ("MESSQ_SIZE", format_int (dv_Size m)); ("MESSQ_ACK_TOKEN", dv_AckToken m)].

Definition computed_vars (m : Delivered) (traceparent : string) : list (string * string) :=
  message_vars m ++ headerVars (dv_Header m) ++ [("MESSQ_HEADERS_JSON", marshal_header (dv_Header m))]
  ++ (if bool_decide (traceparent = "") || has_byte nul traceparent then [] else [("traceparent", traceparent)]).

Record EnvOptions : Set := MkEnvOptions { eo_ExtraEnv : list string; eo_CleanEnv : bool; eo_Traceparent : string }.

Definition add_extra (env : list string) (x : string) : list string :=
  match splitKv x with
  | Some (name, val) => removeNamed env name ++ [kv name val]
  | None => env
  end.

(** The warnings are not kept. *)
Definition BuildEnv (m : Delivered) (parent : list string) (opts : EnvOptions) : result (list string) :=
  if bool_decide (dv_Subject m = "") || bool_decide (dv_ID m = "") then Err (Plain "message lacks subject/id")
  else
    let? extraOK := validatedExtras (eo_ExtraEnv opts) in
    Ok (foldl add_extra (filterParent parent (eo_CleanEnv opts)
          ++ map (fun x => kv x.1 x.2) (computed_vars m (eo_Traceparent opts))) extraOK).

(** ** runner.go *)

Definition ResolveArgv (cmd shellPath : string) : result (list string) :=
  if bool_decide (TrimSpace cmd = "") then Err (Plain "--exec requires a command")
  else if bool_decide (shellPath = "") then
    match SplitWords cmd with
    | inl argv => Ok argv
    | inr ErrUnterminatedQuote => Err (Plain "unterminated quote")
    | inr ErrDanglingBackslash => Err (Plain "dangling backslash")
    end
  else Ok [shellPath; "-c"; cmd].

Definition is_hex_digit (c : ascii) : bool := is_digit c || cont_in 97 102 c || cont_in 65 70 c.
Definition isHex (n : nat) (s : string) : bool := (String.length s =? n)%nat && all_bytes is_hex_digit s.

Definition traceparentOf (traceID span : string) : string :=
  if isHex 32 traceID && isHex 16 span then "00-" +:+ traceID +:+ "-" +:+ span +:+ "-01" else "".

Record RunnerOptions : Set := MkRunnerOptions {
  ro_Cmd : string;
  ro_ShellPath : string;
  ro_ParentEnv : list string;
  ro_ExtraEnv : list string;
  ro_CleanEnv : bool;
  ro_ExecTimeout : string;  (* as formatDuration shows it; "" for none *)
  ro_StderrBytes : Z;
  ro_StderrMode : StderrMode;
}.

(** Why a context ended, as context.Cause tells it. *)
Inductive ctx_cause : Set := LeaseLostCause | TimeoutCause | OtherCause.

(** The causes of the handler's context and of the child's, which ends with it. *)
Definition resolveTerminalCause (timeout : string) (tctx ctx : option ctx_cause) : CauseKind * string :=
  let one c rest :=
    match c with
    | Some LeaseLostCause => (CauseLeaseLoss, "")
    | Some TimeoutCause => if bool_decide (timeout = "") then rest else (CauseExecTimeout, timeout)
    | _ => rest
    end in
  one tctx (one ctx (CauseNone, "")).

Definition spawnRetryDelay : Z := 5 * Second.

(** What became of the child: [runChild]'s error, or the status and the writes
    to stderr, with what had ended the two contexts by then. *)
Inductive child : Set :=
| NotStarted (text : string)
| Ended (st : option ProcessState) (writes : list string) (tctx ctx : option ctx_cause).

Definition abandonError (detail : string) : gerr := Unwraps (Some (Leaf cErrLeaseLost detail)).

Definition err_text (e : error) : string :=
  match e with
  | E _ t | Plain t => t
  | CmdErr _ => ""
  end.

(** The error for a classified child, and the spawn streak after it. *)
Definition settle_error (res : Result) (streak : Z) : option gerr * Z :=
  match ex_Outcome res with
  | OutcomeAck => (None, 0)
  | OutcomeTerm => (Some (Permanent (Leaf "" (ex_Reason res))), 0)
  | OutcomeNak => (Some (Leaf "" (ex_Reason res)), 0)
  | OutcomeAbandon => (Some (abandonError "token fenced while child ran"), streak)
  end.

(** Runner.Handle: the error it returns and the spawn streak; [run env argv] is
    the child.  [None] never happens, see [SanitizeStderr_total]. *)
Definition Handle (o : RunnerOptions) (run : list string -> list string -> child) (span : string) (m : Delivered) (streak : Z)
    : option (option gerr * Z) :=
  let spawn_failure text := Some (Some (RetryAfter spawnRetryDelay (Some (Leaf "" text))), streak + 1) in
  let env := BuildEnv m (ro_ParentEnv o) (MkEnvOptions (ro_ExtraEnv o) (ro_CleanEnv o) (traceparentOf (dv_TraceID m) span)) in
  match ResolveArgv (ro_Cmd o) (ro_ShellPath o) with
  | Err e => spawn_failure (err_text e)
  | Ok argv =>
      match env with
      | Err e => Some (Some (Permanent (Unwraps (Some (Leaf "" (err_text e))))), streak)
      | Ok env =>
          match (match argv with [] | EmptyString :: _ => NotStarted "empty command" | _ => run env argv end) with
          | NotStarted text => spawn_failure ("could not start " +:+ join_with " " argv +:+ ": " +:+ text)
          | Ended st writes tctx ctx =>
              let '(kind, detail) := resolveTerminalCause (ro_ExecTimeout o) tctx ctx in
              let capture := (copy_stderr writes (newCaptured (ClampReasonCap (ro_StderrBytes o)) (ro_StderrMode o))).1 in
              reason ← SanitizeStderr (ca_buf capture) (ro_StderrBytes o) (ro_StderrMode o);
              let res := Classify st kind detail reason in
              Some (settle_error res streak)
          end
      end
  end.
End Env.

(** ** guards.go *)

Definition ClampConcurrency (n maxAckPending : Z) (ordered : bool) : Z :=
  if n <=? 0 then 1
  else if ordered && (1 <? n) then 1
  else if (0 <? maxAckPending) && (maxAckPending <? n) then maxAckPending
  else n.

(** ** Words that survive quoting *)

(** A word in single quotes, with every quote of its own escaped between two
    quoted parts. *)
Fixpoint quote_body (w : string) : string :=
  match w with
  | EmptyString => EmptyString
  | String c w => if byte_z c =? squote then "'\''" +:+ quote_body w else String c (quote_body w)
  end.

Definition quote_word (w : string) : string := "'" +:+ quote_body w +:+ "'".
Definition quote_line (ws : list string) : string := join_with " " (map quote_word ws).

Definition ascii_text (s : string) : bool := all_bytes (fun c => byte_z c <? 128) s.

Lemma chunks_byte c s : (byte_z c <? 128) = true -> chunks (String c s) = (byte_z c, String c "") :: chunks s.
Proof. intros Hc. unfold chunks. cbn [chunks_from]. unfold decode_rune. rewrite Hc. done. Qed.

Lemma encode_byte c : (byte_z c <? 128) = true -> encode_rune (byte_z c) = String c "".
Proof.
  intros Hc. unfold encode_rune. rewrite Hc. unfold byte_chr. by rewrite Nat2Z.id, ascii_nat_embedding.
Qed.

(** A quoted word of the line, up to the quote that closes it. *)
Lemma scan_body w rest out cur :
  ascii_text w = true ->
  scan_runes (chunks (quote_body w +:+ String "'" rest)) (MkScan out cur true true false false) =
  scan_runes (chunks rest) (MkScan out (cur +:+ w) true false false false).
Proof.
  revert cur. induction w as [|c w IH]; intros cur Hw.
  { cbn [quote_body]. change ("" +:+ String "'" rest) with (String "'" rest). rewrite chunks_byte by done. simpl.
    by rewrite sapp_nil_r. }
  unfold ascii_text in Hw. cbn [all_bytes] in Hw. apply andb_true_iff in Hw as [Hc Hw]. cbn [quote_body].
  destruct (Z.eqb_spec (byte_z c) squote) as [Hq|Hq].
  - assert (c = "'"%char) as ->.
    { apply (f_equal Z.to_nat) in Hq. rewrite Nat2Z.id in Hq. apply (f_equal ascii_of_nat) in Hq.
      by rewrite ascii_nat_embedding in Hq. }
    rewrite sapp_assoc. change ("'\''" +:+ ?x) with (String "'" (String "\" (String "'" (String "'" x)))).
    do 4 (rewrite chunks_byte by done). change (byte_z "'") with 39. change (byte_z "\") with 92.
    cbn -[chunks append quote_body]. rewrite IH by done. do 2 f_equal. by rewrite sapp_assoc.
  - change (String c (quote_body w) +:+ ?x) with (String c (quote_body w +:+ x)). rewrite chunks_byte by done.
    cbn [scan_runes]. unfold scan_rune at 1. cbn [sc_escaped sc_single sc_double negb andb fst].
    rewrite (proj2 (Z.eqb_neq _ _) Hq). unfold write_rune. cbn [sc_out sc_cur sc_single sc_double].
    rewrite encode_byte, IH by done. by rewrite sapp_assoc.
Qed.

(** The words of a line, from between two of them. *)
Lemma scan_words w ws out :
  ascii_text w = true -> Forall (fun w => ascii_text w = true) ws ->
  exists s, scan_runes (chunks (quote_line (w :: ws))) (MkScan out "" false false false false) = inl s /\
    sc_escaped s = false /\ sc_single s = false /\ sc_double s = false /\ sc_out (flush s) = out ++ w :: ws.
Proof.
  revert w out. induction ws as [|w' ws IH]; intros w out Hw Hws; unfold quote_line; cbn [map join_with]; unfold quote_word at 1.
  - change ("'" +:+ ?x) with (String "'" x). rewrite chunks_byte by done. change (byte_z "'") with 39.
    cbn -[chunks append quote_body]. change "'" with (String "'" "") at 1. rewrite scan_body by done. simpl.
    eexists. by split_and!.
  - inversion_clear Hws as [|? ? Hw' Hws']. rewrite !sapp_assoc. change ("'" +:+ quote_body w +:+ ?x) with (String "'" (quote_body w +:+ x)).
    rewrite chunks_byte by done. change (byte_z "'") with 39. cbn -[chunks append quote_body quote_word join_with map].
    change ("'" +:+ String " " ?x) with (String "'" (String " " x)). rewrite scan_body by done.
    rewrite chunks_byte by done. change (byte_z " ") with 32. cbn -[chunks append quote_body quote_word join_with map].
    change (join_with " " (quote_word w' :: map quote_word ws)) with (quote_line (w' :: ws)).
    destruct (IH w' (out ++ [w]) Hw' Hws') as (s & Hs & H1 & H2 & H3 & Hout). exists s. split_and!; [exact Hs|done..|].
    by rewrite Hout, <-app_assoc.
Qed.

(** Splitting undoes quoting: any list of ASCII words, each put in single
    quotes with its own quotes escaped, is read back word for word, the empty
    words and the metacharacters included. *)
Theorem split_words_roundtrip (ws : list string) :
  Forall (fun w => ascii_text w = true) ws -> SplitWords (quote_line ws) = inl ws.
Proof.
  intros Hws. destruct ws as [|w ws]; [done|]. inversion_clear Hws as [|? ? Hw Hws'].
  destruct (scan_words w ws [] Hw Hws') as (s & Hs & H1 & H2 & H3 & Hout). unfold SplitWords. by rewrite Hs, H1, H2, H3, Hout.
Qed.

Lemma split_words_roundtrip_witness : SplitWords (quote_line ["./h.sh"; ""; "it's $HOME"]) = inl ["./h.sh"; ""; "it's $HOME"].
Proof. apply split_words_roundtrip. by repeat constructor. Defined.

(** ** What is kept of stderr *)

(** The runes that may appear in a reason. *)
Definition safe_rune (r : Z) : Prop := r = 9 \/ r = 10 \/ 32 <= r < 127 \/ 159 < r.

(** The whole cleaned sequence, before the budget. *)
Fixpoint cleaned (fuel : nat) (src : string) : option (list Z) :=
  match src with
  | EmptyString => Some []
  | String c _ =>
      match fuel with
      | O => None
      | S fuel =>
          let '(r, sz) := decode_rune src in
          let rest := drop_str sz src in
          if (r =? RuneError) && (sz =? 1)%nat && stray c then cleaned fuel rest
          else let '(out, skip) := clean r rest in
               rs ← cleaned fuel (drop_str skip rest);
               Some (option_list out ++ rs)
      end
  end.

Lemma clean_safe r rest r' : (clean r rest).1 = Some r' -> safe_rune r'.
Proof.
  unfold clean, safe_rune, RuneError. repeat case_match; simpl; intros [= <-]; bool_prop; lia.
Qed.

Lemma cleaned_total fuel src : (String.length src <= fuel)%nat -> exists rs, cleaned fuel src = Some rs /\ Forall safe_rune rs.
Proof.
  revert src. induction fuel as [|fuel IH]; intros [|c src] Hf; simpl in Hf; [by eexists|lia|by eexists|].
  cbn [cleaned]. pose proof (decode_fits (String c src) ltac:(done)) as Hfit.
  destruct (decode_rune (String c src)) as [r sz]. cbn [snd] in Hfit.
  assert (Hrest : forall k, (String.length (drop_str k (drop_str sz (String c src))) <= fuel)%nat).
  { intros k. rewrite !drop_str_length. simpl. lia. }
  destruct (_ && _); [apply (IH _ (Hrest 0%nat))|].
  pose proof (clean_safe r (drop_str sz (String c src))) as Hsafe.
  destruct (clean r _) as [out skip]. destruct (IH _ (Hrest skip)) as (rs & -> & Hall). simpl.
  eexists. split; [done|]. apply Forall_app. split; [|done]. destruct out as [r'|]; [|constructor].
  constructor; [by apply Hsafe|constructor].
Qed.

(** Pushing a sequence of runes, up to the first that is refused. *)
Fixpoint push_all (mode : StderrMode) (rs : list Z) (w : reasonWindow) : reasonWindow :=
  match rs with
  | [] => w
  | r :: rs => let '(w', ok) := push mode r w in if ok : bool then push_all mode rs w' else w'
  end.

Lemma sanitize_push mode fuel src w rs : cleaned fuel src = Some rs -> sanitizeInto mode fuel src w = Some (push_all mode rs w).
Proof.
  revert src w rs. induction fuel as [|fuel IH]; intros [|c src] w rs; try (by intros [= <-]).
  cbn [cleaned sanitizeInto]. destruct (decode_rune (String c src)) as [r sz]. destruct (_ && _); [apply IH|].
  destruct (clean r _) as [out skip]. destruct (cleaned fuel _) as [rs'|] eqn:Hc; simpl; [|done]. intros [= <-].
  destruct out as [r'|]; simpl; [|by apply IH]. destruct (push mode r' w) as [w' ok]. destruct ok; [by apply IH|done].
Qed.

Definition total (l : list string) : Z := sumZ (map (fun s => slen s) l).

Lemma total_app l k : total (l ++ k) = total l + total k.
Proof. unfold total. by rewrite map_app, sumZ_app. Qed.

Lemma total_nonneg l : 0 <= total l.
Proof. unfold total. induction l as [|s l IH]; simpl; lia. Qed.

Abbreviation encoded rs := (map encode_rune rs).

(** The head mode keeps the longest prefix that fits. *)
Lemma push_all_head rs w :
  rw_size w = total (rw_runes w) -> rw_size w <= rw_limit w ->
  exists kept rest, rs = kept ++ rest /\ rw_runes (push_all HeadStderr rs w) = rw_runes w ++ encoded kept /\
    total (rw_runes w ++ encoded kept) <= rw_limit w /\
    match rest with [] => True | r :: _ => rw_limit w < total (rw_runes w ++ encoded kept) + slen (encode_rune r) end.
Proof.
  revert w. induction rs as [|r rs IH]; intros w Hsize Hle; simpl.
  { exists [], []. simpl. rewrite app_nil_r, <-Hsize. by split_and!. }
  destruct (Z.ltb_spec (rw_limit w) (rw_size w + slen (encode_rune r))) as [Hlt|Hge].
  - exists [], (r :: rs). simpl. rewrite app_nil_r, <-Hsize. split_and!; [done..|lia|lia].
  - set (w' := MkWindow _ _ _). assert (Hs' : rw_size w' = total (rw_runes w')).
    { simpl. rewrite total_app, <-Hsize. unfold total. simpl. lia. }
    destruct (IH w' Hs') as (kept & rest & -> & Hr & Ht & Hrest); [simpl; lia|].
    exists (r :: kept), rest. simpl in *. rewrite Hr, <-!app_assoc in *. by split_and!.
Qed.

(** The evictions drop the shortest prefix that makes the rest fit. *)
Lemma evict_spec limit runes :
  0 <= limit ->
  exists gone kept, runes = gone ++ kept /\ evict limit (total runes) runes = (total kept, kept) /\ total kept <= limit /\
    match last gone with None => True | Some g => limit < slen g + total kept end.
Proof.
  intros Hl. induction runes as [|r runes IH]; simpl; [by exists [], []|].
  destruct (Z.ltb_spec limit (total (r :: runes))) as [Hlt|Hge]; [|by exists [], (r :: runes)].
  replace (total (r :: runes) - slen r) with (total runes) by (unfold total; simpl; lia).
  destruct IH as (gone & kept & -> & -> & Hle & Hlast). exists (r :: gone), kept. split_and!; [done..|].
  destruct gone as [|g gone]; [simpl in *; unfold total in *; simpl in *; lia|]. exact Hlast.
Qed.

(** The tail mode keeps the longest suffix that fits. *)
Lemma push_all_tail rs w gone :
  0 <= rw_limit w -> rw_size w = total (rw_runes w) -> rw_size w <= rw_limit w ->
  match last gone with None => True | Some g => rw_limit w < slen g + total (rw_runes w) end ->
  exists gone' kept, gone ++ rw_runes w ++ encoded rs = gone' ++ kept /\ rw_runes (push_all TailStderr rs w) = kept /\
    total kept <= rw_limit w /\
    match last gone' with None => True | Some g => rw_limit w < slen g + total kept end.
Proof.
  revert w gone. induction rs as [|r rs IH]; intros w gone Hl Hsize Hle Hg; simpl.
  { exists gone, (rw_runes w). rewrite app_nil_r. split_and!; [done..|lia|done]. }
  replace (rw_size w + slen (encode_rune r)) with (total (rw_runes w ++ [encode_rune r])) by (rewrite total_app, Hsize; unfold total; simpl; lia).
  destruct (evict_spec (rw_limit w) (rw_runes w ++ [encode_rune r]) Hl) as (g1 & kept & Hsplit & -> & Hk & Hlast).
  destruct (IH (MkWindow (rw_limit w) (total kept) kept) (gone ++ g1) Hl eq_refl Hk) as (g2 & k2 & Heq & Hr & Ht & Hl2).
  - simpl. rewrite last_app. destruct (last g1) as [g|] eqn:Hg1; [done|]. apply last_None in Hg1 as ->. simpl in Hsplit. subst kept.
    destruct (last gone) as [g|]; [|done]. rewrite total_app. pose proof (total_nonneg [encode_rune r]). lia.
  - exists g2, k2. split_and!; [|done..]. rewrite <-Heq. simpl. rewrite <-!app_assoc.
    change (encode_rune r :: encoded rs) with ([encode_rune r] ++ encoded rs). f_equal. rewrite !app_assoc. f_equal. done.
Qed.

Lemma encode_nonempty r : 1 <= slen (encode_rune r).
Proof. unfold encode_rune. repeat case_match; simpl; lia. Qed.

(** C40: the reason made of a child's stderr is safe and bounded.  It is a
    sequence of whole runes, none of them a control but tab and newline, of at
    most the clamped number of bytes; in head mode it is the longest prefix of
    the cleaned text that fits, in tail mode the longest suffix. *)
Theorem reason_safe_and_bounded (b : string) (max : Z) (mode : StderrMode) :
  exists clean kept, cleaned (String.length b) b = Some clean /\ Forall safe_rune clean /\
    SanitizeStderr b max mode = Some (String.concat "" (encoded kept)) /\ total (encoded kept) <= ClampReasonCap max /\
    match mode with
    | HeadStderr => exists rest, clean = kept ++ rest /\
        match rest with [] => True | r :: _ => ClampReasonCap max < total (encoded kept) + slen (encode_rune r) end
    | TailStderr => exists gone, clean = gone ++ kept /\
        match last gone with None => True | Some r => ClampReasonCap max < slen (encode_rune r) + total (encoded kept) end
    end.
Proof.
  destruct (cleaned_total (String.length b) b ltac:(lia)) as (clean & Hc & Hsafe). exists clean.
  unfold SanitizeStderr. set (limit := ClampReasonCap max).
  assert (Hl : 0 <= limit) by (unfold limit, ClampReasonCap; change maxReasonBytes with 65536; repeat case_match; bool_prop; lia).
  destruct (bool_decide (b = "")) eqn:Hb.
  { apply bool_decide_eq_true in Hb as ->. injection Hc as <-. exists []. split_and!; [done..|].
    by destruct mode; exists []. }
  destruct (Z.eqb_spec limit 0) as [H0|Hn0]; cbn [orb].
  { exists []. rewrite H0. split_and!; [done..|]. destruct mode; exists clean.
    - split; [done|]. destruct clean as [|r ?]; [done|]. pose proof (encode_nonempty r). simpl. unfold total. simpl. lia.
    - split; [by rewrite app_nil_r|]. destruct (last clean) as [r|]; [|done]. pose proof (encode_nonempty r). simpl. unfold total. simpl. lia. }
  rewrite (sanitize_push mode _ _ _ clean Hc). simpl. destruct mode.
  - destruct (push_all_head clean (MkWindow limit 0 []) eq_refl Hl) as (kept & rest & -> & Hr & Ht & Hrest). simpl in *.
    exists kept. unfold window_String. rewrite Hr. split_and!; [done..|]. eauto.
  - destruct (push_all_tail clean (MkWindow limit 0 []) [] Hl eq_refl Hl I) as (gone & kept & Heq & Hr & Ht & Hrest). simpl in *.
    apply map_eq_app in Heq as (rs1 & rs2 & -> & <- & <-). exists rs2. unfold window_String. rewrite Hr. split_and!; [done..|].
    exists rs1. split; [done|]. rewrite fmap_last in Hrest. by destruct (last rs1).
Qed.

(** ** The capture of stderr *)

Lemma writeLocked_count p c :
  ca_cap (writeLocked p c).1 = ca_cap c /\ ca_mode (writeLocked p c).1 = ca_mode c /\
  ((writeLocked p c).2 =? slen p) =
    match ca_mode c with HeadStderr => true | TailStderr => (ca_cap c <=? 0) || (slen p <=? ca_cap c) end.
Proof.
  unfold writeLocked. destruct (Z.leb_spec (ca_cap c) 0) as [Hc|Hc]; cbn [orb].
  { simpl. split_and!; [done..|]. rewrite Z.eqb_refl. by destruct (ca_mode c). }
  destruct (bool_decide (p = "")) eqn:Hp.
  { apply bool_decide_eq_true in Hp as ->. simpl. split_and!; [done..|]. destruct (ca_mode c); [done|]. symmetry. apply Z.leb_le. lia. }
  destruct (ca_mode c) eqn:Hm; [by case_match; simpl; rewrite ?Z.eqb_refl|]. simpl. split_and!; [done..|].
  destruct (Z.leb_spec (slen p) (ca_cap c)); [apply Z.eqb_eq; lia|apply Z.eqb_neq; lia].
Qed.

(** In head mode the capture takes all a child writes to its stderr; in tail
    mode a single write of more bytes than the capture holds reports fewer bytes
    than it was given, and that ends the copying for good: the child's next
    write meets a closed pipe. *)
Theorem tail_capture_stops (writes : list string) (cap : Z) (mode : StderrMode) :
  (copy_stderr writes (newCaptured cap mode)).2 =
    match mode with
    | HeadStderr => true
    | TailStderr => (ClampReasonCap cap <=? 0) || forallb (fun p => slen p <=? ClampReasonCap cap) writes
    end.
Proof.
  enough (Hgen : forall c, (copy_stderr writes c).2 =
    match ca_mode c with HeadStderr => true | TailStderr => (ca_cap c <=? 0) || forallb (fun p => slen p <=? ca_cap c) writes end)
    by (rewrite Hgen; done).
  induction writes as [|p writes IH]; intros c; simpl; [by destruct (ca_mode c); rewrite ?orb_true_r|].
  destruct (writeLocked_count p c) as (Hcap & Hmode & Hn). destruct (writeLocked p c) as [c' n]. simpl in *. rewrite Hn.
  destruct (ca_mode c) eqn:Hm; [by rewrite IH, Hmode|].
  destruct (ca_cap c <=? 0) eqn:Hz; simpl; [by rewrite IH, Hmode, Hcap, Hz|].
  destruct (slen p <=? ca_cap c) eqn:Hp; simpl; [by rewrite IH, Hmode, Hcap, Hz|done].
Qed.

(** ** The environment of a child *)

(** getenv: the first entry of that name. *)
Fixpoint getenv (name : string) (env : list string) : option string :=
  match env with
  | [] => None
  | x :: env =>
      match splitKv x with
      | Some (n, v) => if String.eqb n name then Some v else getenv name env
      | None => getenv name env
      end
  end.

Definition assoc (name : string) (vars : list (string * string)) : option string :=
  snd <$> List.find (fun x => String.eqb x.1 name) vars.

Lemma splitKv_kv n v : has_byte eq_sign n = false -> splitKv (kv n v) = Some (n, v).
Proof. intros Hn. unfold splitKv, kv. by apply (cut_app eq_sign). Qed.

Lemma getenv_app name e1 e2 :
  getenv name (e1 ++ e2) = match getenv name e1 with Some v => Some v | None => getenv name e2 end.
Proof.
  induction e1 as [|x e1 IH]; simpl; [done|]. destruct (splitKv x) as [[n v]|]; [|done]. by destruct (String.eqb n name).
Qed.

Lemma getenv_vars name vars :
  Forall (fun x => has_byte eq_sign x.1 = false) vars -> getenv name (map (fun x => kv x.1 x.2) vars) = assoc name vars.
Proof.
  induction 1 as [|[n v] vars Hn Hall IH]; simpl; [done|]. simpl in Hn. rewrite splitKv_kv by done. unfold assoc. simpl.
  by destruct (String.eqb n name).
Qed.

(** Entries of other names may be removed and added. *)
Lemma getenv_removed name n env :
  has_byte eq_sign n = false -> n <> name -> getenv name (removeNamed env n) = getenv name env.
Proof.
  intros Hn Hne. induction env as [|x env IH]; simpl; [done|]. destruct (has_prefix (n +:+ "=") x) eqn:Hp; simpl.
  - apply has_prefix_spec in Hp as [t ->]. rewrite IH, sapp_assoc. change (n +:+ "=" +:+ t) with (kv n t). rewrite (splitKv_kv n t Hn).
    by destruct (String.eqb_spec n name).
  - by rewrite IH.
Qed.

Lemma getenv_extra name x env n v : splitKv x = Some (n, v) -> n <> name -> getenv name (add_extra env x) = getenv name env.
Proof.
  intros Hx Hne. unfold add_extra. rewrite Hx. apply cut_Some in Hx as [_ Hn].
  rewrite getenv_app, getenv_removed by done. simpl. rewrite splitKv_kv by done.
  destruct (getenv name env); [done|]. by destruct (String.eqb_spec n name).
Qed.

Lemma validated_not_reserved extras ok :
  validatedExtras extras = Ok ok -> Forall (fun x => exists n v, splitKv x = Some (n, v) /\ isReserved n = false) ok.
Proof.
  revert ok. induction extras as [|x extras IH]; intros ok; simpl; [by intros [= <-]|].
  destruct (splitKv x) as [[n v]|] eqn:Hx; [|done]. do 2 (case_match; [done|]).
  destruct (validatedExtras extras) as [ok'|]; simpl; [|done]. intros [= <-]. specialize (IH _ eq_refl).
  destruct (isReserved n) eqn:Hr; [done|]. constructor; [eauto|done].
Qed.

(** A reserved variable that is not handed down to the child. *)
Definition owned (name : string) : Prop := isReserved name = true /\ name <> "MESSQ_ADDR" /\ name <> "MESSQ_TOKEN_FILE".

Lemma parent_not_owned name parent cleanEnv : owned name -> getenv name (filterParent parent cleanEnv) = None.
Proof.
  intros (Hr & Ha & Ht). unfold filterParent. induction parent as [|x parent IH]; simpl; [done|].
  unfold parent_entry at 1. destruct (splitKv x) as [[n v]|] eqn:Hx; [|exact IH].
  destruct (bool_decide (n = "") || _ || _); [exact IH|]. destruct (cleanEnv && _); [exact IH|].
  destruct (isReserved n && _ && _) eqn:Hc; [exact IH|]. simpl.
  apply cut_Some in Hx as [_ Hn]. rewrite splitKv_kv by done. destruct (String.eqb_spec n name) as [->|]; [|done].
  exfalso. apply String.eqb_neq in Ha, Ht. by rewrite Hr, Ha, Ht in Hc.
Qed.

Lemma map_bytes_no_eq s : has_byte eq_sign (map_bytes mangle_byte s) = false.
Proof.
  induction s as [|c s IH]; simpl; [done|]. rewrite IH, orb_false_r. apply bool_decide_eq_false. unfold mangle_byte.
  destruct (_ || _) eqn:Hc; [|done]. intros ->. by vm_compute in Hc.
Qed.

Section Env_facts.
Context (unicode_upper : string -> string) (marshal_header : list (string * string) -> string).

Lemma header_names taken h : Forall (fun x => has_byte eq_sign x.1 = false) (header_vars_from unicode_upper taken h).
Proof.
  revert taken. induction h as [|[original val] h IH]; intros taken; cbn [header_vars_from]; [constructor|]. case_match; [apply IH|].
  constructor; [|apply IH]. cbn [fst]. rewrite !has_byte_app. unfold mangleHeaderName. rewrite has_byte_app, map_bytes_no_eq.
  cbn [prefixReserved]. destruct (ToUpper _ _) as [|c t]; [done|]. by destruct (is_digit c).
Qed.

Lemma computed_names m tp : Forall (fun x => has_byte eq_sign x.1 = false) (computed_vars unicode_upper marshal_header m tp).
Proof.
  unfold computed_vars. apply Forall_app. split; [by repeat constructor|]. apply Forall_app. split.
  - apply Forall_forall. intros x Hx. unfold headerVars in Hx. apply elem_of_order_by in Hx.
    eapply Forall_forall in Hx; [|apply header_names]. done.
  - constructor; [done|]. case_match; by repeat constructor.
Qed.

(** C39: the variables of a message cannot be forged.  Every variable of the
    reserved names, the two that are handed down apart, reads in the child as
    what was computed from this message, whatever the parent's environment and
    the extra entries hold; what the message does not define is not set. *)
Theorem env_not_forged (m : Delivered) (parent : list string) (opts : EnvOptions) (env : list string) (name : string) :
  BuildEnv unicode_upper marshal_header m parent opts = Ok env -> owned name ->
  getenv name env = assoc name (computed_vars unicode_upper marshal_header m (eo_Traceparent opts)).
Proof.
  unfold BuildEnv. case_match; [done|]. destruct (validatedExtras _) as [ok|] eqn:Hok; cbn [rbind]; [|done].
  set (base := filterParent _ _ ++ _). intros Henv Ho. assert (Hbase : getenv name base = assoc name (computed_vars unicode_upper marshal_header m (eo_Traceparent opts))).
  { unfold base. rewrite getenv_app, parent_not_owned by done. apply getenv_vars, computed_names. }
  apply validated_not_reserved in Hok. rewrite <-Hbase. clearbody base. clear Hbase. injection Henv as <-. revert base.
  induction Hok as [|x ok (n & v & Hx & Hr) Hall IH]; intros base; simpl; [done|].
  rewrite IH. apply (getenv_extra _ _ _ n v); [done|]. intros ->. destruct Ho as [Ho _]. congruence.
Qed.
End Env_facts.

(** The parent's own duplicates are passed on. *)
Example duplicate_parent_kept : filterParent ["PATH=/a"; "PATH=/b"] false = ["PATH=/a"; "PATH=/b"].
Proof. done. Qed.

(** ** The exit code is the decision *)

Lemma SanitizeStderr_total b max mode : exists reason, SanitizeStderr b max mode = Some reason.
Proof.
  unfold SanitizeStderr. case_match; [by eexists|]. destruct (cleaned_total (String.length b) b ltac:(lia)) as (rs & Hc & _).
  rewrite (sanitize_push mode _ _ _ rs Hc). by eexists.
Qed.

(** The outcome of a classification does not depend on the texts. *)
Lemma Classify_outcome st kind detail stderr :
  ex_Outcome (Classify st kind detail stderr) =
    match kind, st with
    | CauseLeaseLoss, _ => OutcomeAbandon
    | CauseNone, Some (Exited 0) => OutcomeAck
    | CauseNone, Some (Exited 65) => OutcomeTerm
    | _, _ => OutcomeNak
    end.
Proof.
  destruct kind; [|done..]. destruct st as [[code|sig|]|]; [|done..]. unfold Classify, ExitCode.
  destruct (Z.ltb_spec code 0); [by destruct code|]. destruct (Z.eqb_spec code 0) as [->|H0]; [done|].
  destruct (Z.eqb_spec code 75) as [->|H75]; [done|]. destruct (Z.eqb_spec code 65) as [->|H65]; [done|]. simpl.
  destruct code as [|p|p]; [done| |done]. do 7 (destruct p as [p|p|]; try done).
Qed.

Lemma settle_error_handled onPanic res streak :
  runHandler onPanic (Returned (settle_error res streak).1) =
    Some (match ex_Outcome res with
          | OutcomeAck => ActAck
          | OutcomeTerm => ActTerm (truncateReason (ex_Reason res))
          | OutcomeNak => ActNak 0 (truncateReason (ex_Reason res))
          | OutcomeAbandon => ActNothing
          end).
Proof. unfold settle_error. by destruct (ex_Outcome res). Qed.

(** What the broker is asked for one child. *)
Definition settled_as (o : RunnerOptions) (c : child) (act : settleAction) : Prop :=
  let short r := Z.of_nat (String.length r) <= reasonLimit in
  match c with
  | NotStarted _ => exists r, short r /\ act = ActNak spawnRetryDelay r
  | Ended st _ tctx ctx =>
      match (resolveTerminalCause (ro_ExecTimeout o) tctx ctx).1, st with
      | CauseLeaseLoss, _ => act = ActNothing
      | CauseNone, Some (Exited 0) => act = ActAck
      | CauseNone, Some (Exited 65) => exists r, short r /\ act = ActTerm r
      | _, _ => exists r, short r /\ act = ActNak 0 r
      end
  end.

Section Decision.
Context (unicode_upper : string -> string) (marshal_header : list (string * string) -> string).

(** C15: the exit code of the child is the decision on its message.  Through the
    worker that runs the handler, status 0 acknowledges it, status 65 and no
    other sends it to the dead letters, a lost lease settles nothing, and every
    other end, a signal, a timeout or a failed start among them, returns it with
    a reason of bounded length, after five seconds when the child never ran. *)
Theorem exec_decides (o : RunnerOptions) (run : list string -> list string -> child) (span : string) (m : Delivered) (streak : Z)
    (cmd : string) (args env : list string) (onPanic : PanicPolicy) :
  ResolveArgv (ro_Cmd o) (ro_ShellPath o) = Ok (cmd :: args) -> cmd <> "" ->
  BuildEnv unicode_upper marshal_header m (ro_ParentEnv o)
    (MkEnvOptions (ro_ExtraEnv o) (ro_CleanEnv o) (traceparentOf (dv_TraceID m) span)) = Ok env ->
  exists err streak' act, Handle unicode_upper marshal_header o run span m streak = Some (err, streak') /\
    runHandler onPanic (Returned err) = Some act /\ settled_as o (run env (cmd :: args)) act.
Proof.
  intros Hargv Hcmd Henv. unfold Handle, settled_as. rewrite Hargv, Henv. destruct cmd as [|c0 cmd0]; [done|].
  destruct (run env (String c0 cmd0 :: args)) as [text|st writes tctx ctx].
  { do 3 eexists. split_and!; [reflexivity|reflexivity|]. eexists. split; [apply truncateReason_length|done]. }
  destruct (resolveTerminalCause _ tctx ctx) as [kind detail].
  destruct (SanitizeStderr_total (ca_buf (copy_stderr writes (newCaptured (ClampReasonCap (ro_StderrBytes o)) (ro_StderrMode o))).1)
    (ro_StderrBytes o) (ro_StderrMode o)) as [reason ->].
  cbn [mbind option_bind fst]. set (res := Classify st kind detail reason).
  destruct (settle_error res streak) as [err streak'] eqn:Herr. exists err, streak'.
  pose proof (settle_error_handled onPanic res streak) as Hrun. rewrite Herr in Hrun. cbn [fst] in Hrun.
  eexists. split_and!; [done|exact Hrun|]. pose proof (Classify_outcome st kind detail reason) as Ho. fold res in Ho.
  assert (Hshort := truncateReason_length (ex_Reason res)).
  rewrite Ho. destruct kind; [|eauto..|done]. destruct st as [[code|sig|]|]; [|eauto..].
  destruct code as [|p|p]; [done| |eauto]. do 7 (destruct p as [p|p|]; eauto).
Qed.
End Decision.

(** ** Samples *)

Definition a_message : Delivered :=
  MkDelivered "orders" "billing" "01J0M" 7 "orders.new" 2 5 "t" 1000 500 2 "tok" [("x-tenant", "acme")] "hi".
Definition a_worker : RunnerOptions :=
  MkRunnerOptions "./h.sh --fast" "" ["PATH=/bin"; "MESSQ_SEQ=99"] ["MESSQ_SEQ=98"; "TZ=UTC"] false "" 4096 HeadStderr.
Definition plain_json (h : list (string * string)) : string := "{}".

Definition an_env : list string :=
  match BuildEnv (fun s => s) plain_json a_message (ro_ParentEnv a_worker) (MkEnvOptions (ro_ExtraEnv a_worker) false "") with
  | Ok env => env
  | Err _ => []
  end.

(** A stale sequence number of the shell and one forged by an extra entry. *)
Lemma env_not_forged_witness : getenv "MESSQ_SEQ" an_env = Some "7" /\ getenv "TZ" an_env = Some "UTC".
Proof.
  split; [|reflexivity].
  apply (env_not_forged (fun s => s) plain_json a_message (ro_ParentEnv a_worker) (MkEnvOptions (ro_ExtraEnv a_worker) false "") an_env "MESSQ_SEQ");
    [reflexivity|by split_and!].
Defined.

Lemma exec_decides_witness :
  exists err streak act, Handle (fun s => s) plain_json a_worker (fun _ _ => Ended (Some (Exited 65)) ["bad payload"] None None) "" a_message 3 = Some (err, streak) /\
    runHandler NakAndContinue (Returned err) = Some act /\ exists r, act = ActTerm r.
Proof.
  destruct (exec_decides (fun s => s) plain_json a_worker (fun _ _ => Ended (Some (Exited 65)) ["bad payload"] None None) "" a_message 3
    "./h.sh" ["--fast"] an_env NakAndContinue) as (err & streak & act & Hh & Hr & r & _ & Ha); [reflexivity|done|reflexivity|].
  exists err, streak, act. split_and!; [exact Hh|exact Hr|by exists r].
Defined.

End ExecWorker.
