(* ===== verification/Verify.v ===== *)
(** * messq verify: the invariant checkers

    The registry of checks behind [messq verify] ([internal/verify]), the shape
    of a report, the delivery, dead-letter and retention checks and the replay
    of the journal.  A check is a read of one database; its violations carry
    the format and the arguments of their sentence, or the columns of the
    offending row.

    The theorems relate the checks to the invariant the commands keep: what a
    check that reports nothing guarantees, which checks stay silent on every
    database the daemon can commit, and which report a healthy one. *)

From S2P Require Import Journal Purge Retention StoreSettle StreamAdmin.

(** ** Joins and groups *)

Section Joins.
Context {A B : Type}.

Definition join (on : A -> B -> bool) (t : list A) (u : list B) : list (A * B) :=
  a ← t; (fun b => (a, b)) <$> where_ (on a) u.

(** Every left row appears, with NULLs when nothing matches. *)
Definition left_join (on : A -> B -> bool) (t : list A) (u : list B) : list (A * option B) :=
  a ← t;
  match where_ (on a) u with
  | [] => [(a, None)]
  | l => (fun b => (a, Some b)) <$> l
  end.

Lemma join_cons on a t u : join on (a :: t) u = ((fun b => (a, b)) <$> where_ (on a) u) ++ join on t u.
Proof. done. Qed.

Lemma elem_of_join on t u a b : (a, b) ∈ join on t u <-> a ∈ t /\ b ∈ u /\ on a b = true.
Proof.
  unfold join. rewrite list_elem_of_bind. split.
  - intros (a' & Hb & Ha). apply list_elem_of_fmap in Hb as (b' & [= -> ->] & [? ?]%elem_of_where). done.
  - intros (Ha & Hb & Hon). exists a. split; [|done]. apply list_elem_of_fmap. exists b. split; [done|].
    by apply elem_of_where.
Qed.

Lemma elem_of_left_join on t u a o :
  (a, o) ∈ left_join on t u <->
  a ∈ t /\ match o with
           | Some b => b ∈ u /\ on a b = true
           | None => forall b, b ∈ u -> on a b = false
           end.
Proof.
  unfold left_join. rewrite list_elem_of_bind. split.
  - intros (a' & Ho & Ha). destruct (where_ (on a') u) as [|b0 l] eqn:Hw.
    + apply list_elem_of_singleton in Ho as [= -> ->]. split; [done|]. intros b Hb. apply not_true_is_false.
      intros Hon. assert (Hin : b ∈ where_ (on a') u) by (by apply elem_of_where). rewrite Hw in Hin.
      by apply elem_of_nil in Hin.
    + rewrite <-Hw in Ho. apply list_elem_of_fmap in Ho as (b & [= -> ->] & [? ?]%elem_of_where). done.
  - intros [Ha Ho]. exists a. split; [|done]. destruct o as [b|].
    + assert (Hin : b ∈ where_ (on a) u) by (apply elem_of_where; tauto).
      destruct (where_ (on a) u) as [|b0 l]; [by apply elem_of_nil in Hin|]. apply list_elem_of_fmap. by exists b.
    + rewrite (where_nil (on a) u) by done. by left.
Qed.
End Joins.

Section Groups.
Context {R K : Type} `{EqDecision K} (key : R -> K).

(** [GROUP BY]: one group per key, none of them empty. *)
Definition group_by (t : list R) : list (K * list R) :=
  (fun k => (k, where_ (has_key key k) t)) <$> remove_dups (map key t).

Lemma elem_of_group_by t k g :
  (k, g) ∈ group_by t <-> k ∈ map key t /\ g = where_ (has_key key k) t.
Proof.
  unfold group_by. rewrite list_elem_of_fmap. setoid_rewrite elem_of_remove_dups. naive_solver.
Qed.
End Groups.

Lemma impl_cong (A P Q : Prop) : (P <-> Q) -> (A -> P) <-> (A -> Q).
Proof. tauto. Qed.

Lemma fmap_empty {A B} (f : A -> B) (l : list A) : f <$> l = [] <-> l = [].
Proof. by destruct l. Qed.

Lemma ok_app_nil {A} (a b : list A) : Ok (a ++ b) = Ok [] <-> a = [] /\ b = [].
Proof. rewrite <-app_nil. split; intros H; [by injection H|by rewrite H]. Qed.

(** [LIMIT n] hides rows, never all of them. *)
Lemma limit_nil {A} n (l : list A) : 0 < n -> limit n l = [] <-> l = [].
Proof.
  intros Hn. unfold limit. replace (n <? 0) with false by (symmetry; bool_prop; lia).
  destruct l as [|a l]; [by rewrite take_nil|]. destruct (Z.to_nat n) eqn:He; [lia|]. done.
Qed.

(** ** internal/verify *)

Module Verify.
Import Subject Dlq PublishReq Disk StreamAdmin.

(** The sentence of a violation: a format with its arguments, or a row by column. *)
Inductive detail : Set :=
| Msg (format : string) (args : list dval)
| Cols (row : list (string * dval)).

Record Violation : Set := MkViolation { v_ID : string; v_Detail : detail }.

(** What SQLite answers about itself: the two integrity scans, row by row, and
    the value of a pragma. *)
Class Engine : Type := {
  quick_check : db -> list string;
  integrity_check : db -> list string;
  pragma : string -> db -> string;
}.

Inductive check_body : Type :=
| Query (q : db -> list (list (string * dval)))
| Run_ (f : bool -> db -> result (list Violation)).

Record Check : Type := MkCheck {
  ck_ID : string;
  ck_Name : string;
  ck_Deep : bool;
  ck_Body : check_body;
}.

Record Options : Set := MkOptions { vo_Deep : bool; vo_FailFast : bool; vo_Limit : Z }.

Definition opt_limit (o : Options) : Z := if vo_Limit o <=? 0 then 100 else vo_Limit o.

Record CheckResult : Set := MkCheckResult {
  cr_ID : string;
  cr_Name : string;
  cr_OK : bool;
  cr_Skipped : bool;
  cr_Violations : list Violation;
}.

Record Report : Set := MkReport { rp_Checks : list CheckResult; rp_Violations : list Violation }.

Definition Failed (r : Report) : bool := (0 <? length (rp_Violations r))%nat.

(** One row, one violation, up to the limit. *)
Definition runQueryCheck (id : string) (rows : list (list (string * dval))) (lim : Z) : list Violation :=
  (fun row => MkViolation id (Cols row)) <$> limit (Z.max 1 lim) rows.

(** *** checks.go *)

Definition currentSchemaVersion : Z := 4.

Definition parseVersion (raw : string) : option Z := atoi raw.

Definition checkV1 (deep : bool) (d : db) : result (list Violation) :=
  match meta_get "schema_version" d with
  | None => Ok [MkViolation "V1" (Msg "meta.schema_version is absent" [])]
  | Some raw =>
      match parseVersion raw with
      | None => Ok [MkViolation "V1" (Msg "meta.schema_version=%q is not an integer" [DStr raw])]
      | Some v =>
          if currentSchemaVersion <? v
          then Ok [MkViolation "V1" (Msg "schema v%d is newer than this binary's v%d; refuse, never interpret"
                                      [DInt v; DInt currentSchemaVersion])]
          else if v <? 1 then Ok [MkViolation "V1" (Msg "schema_version=%d is not a known messq schema" [DInt v])]
          else Ok []
      end
  end.

Definition checkV2 `{Engine} (deep : bool) (d : db) : result (list Violation) :=
  let rows := if deep then integrity_check d else quick_check d in
  Ok ((fun r => MkViolation "V2" (Msg "%s" [DStr r])) <$> where_ (fun r => negb (bool_decide (r = "ok"))) rows).

(** [PRAGMA foreign_key_check]: the two child tables of the schema.  A row is
    named by its stream, where SQLite gives the rowid and the key number. *)
Definition orphan_seq (d : db) (r : seq_row) : bool := negb (existsb (has_key st_name (sq_stream r)) (streams d)).
Definition orphan_stats (d : db) (r : stats_row) : bool := negb (existsb (has_key st_name (ss_stream r)) (streams d)).

Definition checkV3 (deep : bool) (d : db) : result (list Violation) :=
  let orphan table stream := MkViolation "V3" (Cols [("table", DStr table); ("stream", DStr stream); ("parent", DStr "streams")]) in
  Ok (((fun r => orphan "stream_seq" (sq_stream r)) <$> where_ (orphan_seq d) (stream_seq d))
      ++ ((fun r => orphan "stream_stats" (ss_stream r)) <$> where_ (orphan_stats d) (stream_stats d))).

Definition checkV4 `{Engine} (deep : bool) (d : db) : result (list Violation) :=
  let journal := pragma "journal_mode" d in
  let sync := pragma "synchronous" d in
  let vacuum := pragma "auto_vacuum" d in
  Ok ((if bool_decide (fold_case journal = "wal") then []
       else [MkViolation "V4" (Msg "journal_mode=%s, want wal" [DStr journal])])
      ++ (if bool_decide (sync = "1") || bool_decide (sync = "2") then []
          else [MkViolation "V4" (Msg "synchronous=%s, want 1 (NORMAL) or 2 (FULL)" [DStr sync])])
      ++ (if bool_decide (vacuum = "2") then []
          else [MkViolation "V4" (Msg "auto_vacuum=%s, want 2 (incremental)" [DStr vacuum])])).

(** The compiled patterns of every stream, or the stream whose patterns do not parse. *)
Fixpoint pattern_sets (ss : list stream_row) : list (string * Set_) + string :=
  match ss with
  | [] => inl []
  | r :: ss =>
      match ParseSet (st_subjects r) with
      | Err _ => inr (st_name r)
      | Ok set => match pattern_sets ss with
                  | inl l => inl ((st_name r, set) :: l)
                  | inr n => inr n
                  end
      end
  end.

Definition checkV5_row (sets : list (string * Set_)) (m : message) : list Violation :=
  let at_ := [DStr (m_stream m); DInt (m_seq m)] in
  (if m_size m =? slen (m_body m) then []
   else [MkViolation "V5" (Msg "stream=%s seq=%d size=%d != length(body)=%d"
                             (at_ ++ [DInt (m_size m); DInt (slen (m_body m))]))])
  ++ match m_hdr m with
     | Some h => if 4096 <? json_object_len h
                 then [MkViolation "V5" (Msg "stream=%s seq=%d hdr is %d bytes or not valid JSON"
                                           (at_ ++ [DInt (json_object_len h)]))]
                 else []
     | None => []
     end
  ++ match query_row (has_key fst (m_stream m)) sets with
     | Some (_, set) => if SetMatch set (m_subject m) then []
                        else [MkViolation "V5" (Msg "stream=%s seq=%d subject=%q matches no accepted pattern"
                                                  (at_ ++ [DStr (m_subject m)]))]
     | None => []
     end.

Definition checkV5 (deep : bool) (d : db) : result (list Violation) :=
  match pattern_sets (streams d) with
  | inr name => Ok [MkViolation "V5" (Msg "stream %s subjects do not parse" [DStr name])]
  | inl sets => Ok (messages d ≫= checkV5_row sets)
  end.

(** The joins the delivery checks share. *)
Definition of_consumer (r : delivery) (c : consumer) : bool := bool_decide (ckey c = (d_stream r, d_consumer r)).
Definition of_message (r : delivery) (m : message) : bool := bool_decide (mkey m = (d_stream r, d_seq r)).
Definition con_join (d : db) : list (delivery * consumer) := join of_consumer (deliveries d) (consumers d).
Definition msg_join (d : db) : list (delivery * option message) := left_join of_message (deliveries d) (messages d).

Definition drow (r : delivery) : list (string * dval) :=
  [("stream", DStr (d_stream r)); ("consumer", DStr (d_consumer r)); ("seq", DInt (d_seq r))].

Definition seq_max (d : db) (s : string) : Z := default 0 (max_of m_seq (where_ (on_stream s) (messages d))).

Definition v6Query (d : db) : list (list (string * dval)) :=
  (fun s => [("stream", DStr (sq_stream s)); ("next", DInt (sq_next s)); ("max_seq", DInt (seq_max d (sq_stream s)))])
    <$> limit 100 (where_ (fun s => sq_next s <=? seq_max d (sq_stream s)) (stream_seq d)).

Definition stateless (x : delivery * option message) : bool :=
  match x.2 with
  | None => true
  | Some _ => negb ((d_state x.1 =? 0) || (d_state x.1 =? 1))
  end.

Definition i2Query (d : db) : list (list (string * dval)) :=
  (fun x => drow x.1 ++ [("state", DInt (d_state x.1))]) <$> limit 100 (where_ stateless (msg_join d)).

Definition overdelivered (x : delivery * consumer) : bool :=
  (0 <? c_max_deliver x.2) && (c_max_deliver x.2 <? d_attempts x.1).

Definition i4Query (d : db) : list (list (string * dval)) :=
  (fun x => drow x.1 ++ [("attempts", DInt (d_attempts x.1)); ("max_deliver", DInt (c_max_deliver x.2))])
    <$> limit 100 (where_ overdelivered (con_join d)).

Definition pair_key (x : delivery * consumer) : string * string := (d_stream x.1, d_consumer x.1).

(** The bound read with a group is that of the consumer all its rows share. *)
Definition group_bound (g : list (delivery * consumer)) : Z :=
  match g with
  | x :: _ => c_max_ack_pending x.2
  | [] => 0
  end.

Definition i5Query (d : db) : list (list (string * dval)) :=
  (fun g => [("stream", DStr g.1.1); ("consumer", DStr g.1.2); ("pending", DInt (Z.of_nat (length g.2)));
             ("max_ack_pending", DInt (group_bound g.2))])
    <$> limit 100 (where_ (fun g => group_bound g.2 <? Z.of_nat (length g.2)) (group_by pair_key (con_join d))).

Definition ahead_of_counter (x : consumer * seq_row) : bool := sq_next x.2 <? c_cursor_seq x.1.
Definition past_cursor (x : delivery * consumer) : bool := c_cursor_seq x.2 <=? d_seq x.1.

Definition checkI6 (deep : bool) (d : db) : result (list Violation) :=
  Ok (runQueryCheck "I6"
        ((fun x => [("stream", DStr (c_stream x.1)); ("name", DStr (c_name x.1)); ("cursor_seq", DInt (c_cursor_seq x.1));
                    ("next", DInt (sq_next x.2))])
           <$> where_ ahead_of_counter (join (fun c s => bool_decide (sq_stream s = c_stream c)) (consumers d) (stream_seq d)))
        100
      ++ runQueryCheck "I6"
           ((fun x => drow x.1 ++ [("cursor_seq", DInt (c_cursor_seq x.2))]) <$> where_ past_cursor (con_join d)) 100).

Definition unnumbered (r : delivery) : bool := (d_state r =? 1) && (d_attempts r <? 1).
Definition other_generation (x : delivery * consumer) : bool := negb (d_generation x.1 =? c_generation x.2).
Definition gen_rows (d : db) : list (list (string * dval)) :=
  (fun x => drow x.1 ++ [("generation", DInt (d_generation x.1)); ("generation", DInt (c_generation x.2))])
    <$> limit 100 (where_ other_generation (con_join d)).

Definition checkI7 (deep : bool) (d : db) : result (list Violation) :=
  Ok (runQueryCheck "I7"
        ((fun r => drow r ++ [("state", DInt (d_state r)); ("attempts", DInt (d_attempts r))])
           <$> limit 100 (where_ unnumbered (deliveries d))) 100
      ++ runQueryCheck "I7" (gen_rows d) 100).

(** *** sweep.go *)

Definition now_proxy (d : db) : Z := default 0 (max_of (fun x => ev_ts x.2) (events d)).

Definition checkS1 (deep : bool) (d : db) : result (list Violation) :=
  let now := now_proxy d in
  Ok ((fun r => MkViolation "S1" (Msg "stream=%s consumer=%s seq=%d visible_at=%d expired but unswept (now_proxy=%d)"
         [DStr (d_stream r); DStr (d_consumer r); DInt (d_seq r); DInt (d_visible_at r); DInt now]))
        <$> limit 100 (where_ (fun r => (d_state r =? 1) && (d_visible_at r <=? now)) (deliveries d))).

Definition s2Query (d : db) : list (list (string * dval)) :=
  (fun x => drow x.1 ++ [("attempts", DInt (d_attempts x.1)); ("max_deliver", DInt (c_max_deliver x.2))])
    <$> limit 100 (where_ (fun x => overdelivered x && (d_state x.1 =? 0)) (con_join d)).

Definition s3Query (d : db) : list (list (string * dval)) := gen_rows d.

(** *** checks_dlq.go *)

Record deadDetail : Set := MkDeadDetail { dd_dlq : string; dd_stream : string; dd_seq : Z; dd_generation : Z }.

Definition asString (v : option dval) : string :=
  match v with
  | Some (DStr s) => s
  | _ => ""
  end.

(** A JSON number is decoded as a float64 and converted back; a float no int64
    represents becomes the least one, as the amd64 instruction does. *)
Definition asInt (v : option dval) : Z :=
  match v with
  | Some (DInt z) => to_int64 (fun _ => - 2 ^ 63) (of_int64 z)
  | _ => 0
  end.

Definition detail_field (k : string) (l : list (string * dval)) : option dval := snd <$> query_row (has_key fst k) l.

(** No detail at all is stored as NULL. *)
Definition parseDeadDetail (raw : list (string * dval)) : option deadDetail :=
  match raw with
  | [] => None
  | _ => Some (MkDeadDetail (asString (detail_field "dlq" raw)) (asString (detail_field "dlq_stream" raw))
                 (asInt (detail_field "dlq_seq" raw)) (asInt (detail_field "generation" raw)))
  end.

Definition by_id (a b : Z * event) : bool := a.1 <=? b.1.

(** The deaths in order; a NULL stream or consumer does not scan into a string. *)
Definition deaths (d : db) : result (list event) :=
  let l := map snd (order_by by_id (where_ (fun x => bool_decide (ev_name x.2 = "msg.dead")) (events d))) in
  if forallb (fun e => bool_decide (is_Some (ev_stream e)) && bool_decide (is_Some (ev_consumer e))) l then Ok l
  else Err (Plain "converting NULL to string is unsupported").

Definition death_at (e : event) : list dval :=
  [DStr (default "" (ev_stream e)); DStr (default "" (ev_consumer e)); DInt (default 0 (ev_seq e))].

Definition death_key (e : event) (dd : deadDetail) : string * string * Z * Z :=
  (default "" (ev_stream e), default "" (ev_consumer e), default 0 (ev_seq e), dd_generation dd).

Fixpoint dupe_loop (id : string) (seen : list (string * string * Z * Z)) (l : list event) : list Violation :=
  match l with
  | [] => []
  | e :: l =>
      match parseDeadDetail (ev_detail e) with
      | None => MkViolation id (Msg "msg.dead stream=%s consumer=%s seq=%d has an unparseable detail (no generation)"
                                  (death_at e)) :: dupe_loop id seen l
      | Some dd =>
          (if bool_decide (death_key e dd ∈ seen)
           then [MkViolation id (Msg "two msg.dead share (stream=%s consumer=%s seq=%d generation=%d)"
                                   (death_at e ++ [DInt (dd_generation dd)]))]
           else [])
          ++ dupe_loop id (death_key e dd :: seen) l
      end
  end.

Definition deadDupeCount (id : string) (d : db) : result (list Violation) :=
  let? l := deaths d in Ok (dupe_loop id [] l).

Definition checkI8 (deep : bool) (d : db) : result (list Violation) := deadDupeCount "I8" d.
Definition checkP_DLQ5 (deep : bool) (d : db) : result (list Violation) := deadDupeCount "P-DLQ5" d.

Definition dlq1_row (d : db) (e : event) : list Violation :=
  match parseDeadDetail (ev_detail e) with
  | Some dd =>
      if negb (bool_decide (dd_dlq dd = "written")) then []
      else if count (has_key mkey (dd_stream dd, dd_seq dd)) (messages d) =? 1 then []
      else if match min_of m_seq (where_ (on_stream (dd_stream dd)) (messages d)) with
              | Some first => dd_seq dd <? first
              | None => false
              end then []
      else [MkViolation "P-DLQ1" (Msg "msg.dead stream=%s consumer=%s seq=%d claims written copy at %s/%d, but no row and first_seq has not passed it"
                                    (death_at e ++ [DStr (dd_stream dd); DInt (dd_seq dd)]))]
  | None => []
  end.

Definition checkP_DLQ1 (deep : bool) (d : db) : result (list Violation) :=
  let? l := deaths d in Ok (l ≫= dlq1_row d).

Definition like_dlq (s : string) : bool := has_suffix ".dlq" (fold_case s).

Definition by_stream_seq (a b : message) : bool :=
  String.ltb (m_stream a) (m_stream b) || (bool_decide (m_stream a = m_stream b) && (m_seq a <=? m_seq b)).

Definition required : list string :=
  ["Messq-Origin-Id"; "Messq-Origin-Stream"; "Messq-Origin-Seq"; "Messq-Origin-Consumer"; "Messq-Attempts"; "Messq-Cause"; "Messq-Dead-At"].

Definition hdr_get (k : string) (h : list (string * string)) : string := default "" (snd <$> query_row (has_key fst k) h).

Definition dlq2_row (m : message) : list Violation :=
  match m_hdr m with
  | None => [MkViolation "P-DLQ2" (Msg "stream=%s seq=%d hdr is empty or not a JSON object (must carry provenance)"
                                     [DStr (m_stream m); DInt (m_seq m)])]
  | Some h => (fun k => MkViolation "P-DLQ2" (Msg "stream=%s seq=%d missing provenance header %q"
                                               [DStr (m_stream m); DInt (m_seq m); DStr k]))
                <$> where_ (fun k => bool_decide (hdr_get k h = "")) required
  end.

Definition checkP_DLQ2 (deep : bool) (d : db) : result (list Violation) :=
  Ok (order_by by_stream_seq (where_ (fun m => like_dlq (m_stream m)) (messages d)) ≫= dlq2_row).

Definition pdlq3Query (d : db) : list (list (string * dval)) :=
  (fun c => [("stream", DStr (c_stream c)); ("name", DStr (c_name c))])
    <$> limit 100 (where_ (fun c => like_dlq (c_stream c) && bool_decide (c_dead_policy c = "dlq")) (consumers d)).

Definition dlq4_row (e : event) : list Violation :=
  match parseDeadDetail (ev_detail e) with
  | Some dd => if bool_decide (dd_dlq dd = "origin_missing")
               then [MkViolation "P-DLQ4" (Msg "msg.dead stream=%s consumer=%s seq=%d is origin_missing (a death raced a purge)"
                                             (death_at e))]
               else []
  | None => []
  end.

Definition checkP_DLQ4 (deep : bool) (d : db) : result (list Violation) :=
  let? l := deaths d in Ok (l ≫= dlq4_row).

Definition pid1Query (d : db) : list (list (string * dval)) :=
  (fun g => [("id", DStr g.1); ("n", DInt (Z.of_nat (length g.2))); ("streams", DStrs (map m_stream g.2))])
    <$> limit 100 (where_ (fun g => (1 <? length g.2)%nat)
                     (group_by m_id (where_ (fun m => negb (IsDLQ (m_stream m))) (messages d)))).

(** *** checks_pts1.go *)

Fixpoint pts1_walk (curStream : string) (prevPub : Z) (l : list message) : list Violation :=
  match l with
  | [] => []
  | m :: l =>
      if negb (bool_decide (m_stream m = curStream)) then pts1_walk (m_stream m) (m_published_at m) l
      else
        (if m_published_at m <? prevPub
         then [MkViolation "P-TS1" (Msg "published_at inversion: stream=%s seq=%d published_at=%d follows %d"
                 [DStr (m_stream m); DInt (m_seq m); DInt (m_published_at m); DInt prevPub])]
         else [])
        ++ pts1_walk curStream (m_published_at m) l
  end.

Definition checkPTS1 (deep : bool) (d : db) : result (list Violation) :=
  Ok (pts1_walk "" 0 (order_by by_stream_seq (messages d))).

(** *** checks_retention.go *)

Definition drift_row (d : db) (x : stream_row * option stats_row) : list Violation :=
  let name := st_name x.1 in
  let msgs := count (on_stream name) (messages d) in
  let bytes := sum_of m_size (on_stream name) (messages d) in
  match x.2 with
  | None => [MkViolation "V7" (Msg "stream %s has no stream_stats row (scan found %d msgs / %d bytes)"
                                 [DStr name; DInt msgs; DInt bytes])]
  | Some ss => if (ss_msgs ss =? msgs) && (ss_bytes ss =? bytes) then []
               else [MkViolation "V7" (Msg "stream %s stats report %d msgs / %d bytes, scan found %d / %d"
                       [DStr name; DInt (ss_msgs ss); DInt (ss_bytes ss); DInt msgs; DInt bytes])]
  end.

Definition checkV7 (deep : bool) (d : db) : result (list Violation) :=
  Ok ((left_join (fun s ss => bool_decide (ss_stream ss = st_name s)) (streams d) (stream_stats d) ≫= drift_row d)
      ++ ((fun ss => MkViolation "V7" (Msg "stream_stats row names no live stream: %s" [DStr (ss_stream ss)]))
            <$> where_ (orphan_stats d) (stream_stats d))).

(** *** fold.go: the journal replayed *)

Record foldState : Type := MkFold {
  fs_streams : gmap string bool;
  fs_lastSeq : gmap string Z;
  fs_count : gmap string Z;
}.

Definition no_state_change : list string := ["stream.update"; "msg.dup"; "recovery.unclean"; "recovery.reclaimed"].

Definition no_arm_yet : list string :=
  ["server.start"; "server.stop"; "server.reload"; "storage.fatal"; "stream.purge"; "retention.expire"; "retention.blocked";
   "consumer.create"; "consumer.update"; "consumer.delete"; "consumer.seek"; "consumer.pause"; "consumer.lag";
   "msg.deliver"; "msg.ack"; "msg.ack_dup"; "msg.ack_stale"; "msg.nak"; "msg.term"; "msg.extend"; "msg.timeout"; "msg.dead";
   "dlq.redrive"; "flow.blocked"; "disk.degraded"; "auth.denied"; "api.error"; "admin.action"].

Definition fold (name stream : string) (seq : Z) (f : foldState) : foldState * list Violation :=
  let last := default 0 (fs_lastSeq f !! stream) in
  let f1 := MkFold (fs_streams f) (fs_lastSeq f) (<[stream := default 0 (fs_count f !! stream) + 1]> (fs_count f)) in
  if bool_decide (name = "stream.create") then (MkFold (<[stream := true]> (fs_streams f)) (fs_lastSeq f) (fs_count f), [])
  else if bool_decide (name = "stream.delete") then (MkFold (<[stream := false]> (fs_streams f)) (fs_lastSeq f) (fs_count f), [])
  else if bool_decide (name = "msg.publish")
  then if negb (last =? 0) && negb (seq =? last + 1)
       then (f1, [MkViolation "I10" (Msg "stream=%s seq=%d is not contiguous after %d" [DStr stream; DInt seq; DInt last])])
       else (MkFold (fs_streams f1) (<[stream := seq]> (fs_lastSeq f1)) (fs_count f1), [])
  else if bool_decide (name ∈ no_state_change) then (f, [])
  else if bool_decide (name ∈ no_arm_yet)
  then (f, [MkViolation "I10" (Msg "event %q has no fold arm yet; its owning issue must add one when it ships the event" [DStr name])])
  else (f, [MkViolation "I10" (Msg "event %q is not a member of the S2.4 vocabulary" [DStr name])]).

Definition fold_event (x : foldState * list Violation) (e : Z * event) : foldState * list Violation :=
  let '(f, vs) := fold (ev_name e.2) (default "" (ev_stream e.2)) (default 0 (ev_seq e.2)) x.1 in (f, x.2 ++ vs).

Definition replay (d : db) : foldState * list Violation :=
  foldl fold_event (MkFold ∅ ∅ ∅, []) (order_by by_id (events d)).

Definition live_in (name : string) (f : foldState) : bool := default false (fs_streams f !! name).
Definition in_streams (name : string) (d : db) : bool := existsb (has_key st_name name) (streams d).

Definition names_diff (f : foldState) (d : db) : list Violation :=
  (map_to_list (fs_streams f) ≫= fun '(name, live) =>
     (if live && negb (in_streams name d)
      then [MkViolation "I10" (Msg "stream %s was created but is not in the streams table" [DStr name])] else [])
     ++ (if negb live && in_streams name d
         then [MkViolation "I10" (Msg "stream %s was deleted but is still in the streams table" [DStr name])] else []))
  ++ (streams d ≫= fun r =>
        if live_in (st_name r) f then []
        else [MkViolation "I10" (Msg "stream %s exists but has no stream.create event" [DStr (st_name r)])]).

Definition counts_row (f : foldState) (d : db) (name : string) (last : Z) : result (list Violation) :=
  if last =? 0 then Ok []
  else
    let n := count (on_stream name) (messages d) in
    let predicted := default 0 (fs_count f !! name) in
    match find_seq name d with
    | None => Err (Plain "sql: no rows in result set")
    | Some next =>
        Ok ((if n =? predicted then []
             else [MkViolation "I10" (Msg "stream %s has %d messages, fold predicts %d" [DStr name; DInt n; DInt predicted])])
            ++ (if next =? last + 1 then []
                else [MkViolation "I10" (Msg "stream %s has stream_seq.next=%d, fold predicts %d"
                                           [DStr name; DInt next; DInt (last + 1)])]))
    end.

Fixpoint collect {A B} (f : A -> result (list B)) (l : list A) : result (list B) :=
  match l with
  | [] => Ok []
  | a :: l => let? vs := f a in let? rest := collect f l in Ok (vs ++ rest)
  end.

Definition diff (f : foldState) (d : db) : result (list Violation) :=
  let? counts := collect (fun '(name, last) => counts_row f d name last) (map_to_list (fs_lastSeq f)) in
  Ok (names_diff f d ++ counts).

Definition checkI10 (deep : bool) (d : db) : result (list Violation) :=
  let '(f, vs) := replay d in
  let? rest := diff f d in
  Ok (vs ++ rest).

(** *** verify.go *)

Section Running.
Context `{Engine}.

Definition Registry : list Check :=
  [MkCheck "V1" "schema version" false (Run_ checkV1);
   MkCheck "V2" "quick_check" false (Run_ checkV2);
   MkCheck "V3" "foreign_key_check" false (Run_ checkV3);
   MkCheck "V4" "pragma readback" false (Run_ checkV4);
   MkCheck "V5" "message integrity" false (Run_ checkV5);
   MkCheck "V6" "seq allocator" false (Query v6Query);
   MkCheck "I2" "delivery partition" false (Query i2Query);
   MkCheck "I4" "attempts <= max_deliver" false (Query i4Query);
   MkCheck "I5" "flow control" false (Query i5Query);
   MkCheck "I6" "cursor bounds" false (Run_ checkI6);
   MkCheck "I7" "settle fence" false (Run_ checkI7);
   MkCheck "S1" "no expired inflight survives a sweep" false (Run_ checkS1);
   MkCheck "S2" "no stranded row above max_deliver" false (Query s2Query);
   MkCheck "S3" "delivery generation matches consumer" false (Query s3Query);
   MkCheck "I8" "DLQ conservation (per generation)" true (Run_ checkI8);
   MkCheck "P-DLQ1" "P-DLQ1 written-copy conservation" true (Run_ checkP_DLQ1);
   MkCheck "P-DLQ2" "P-DLQ2 DLQ rows carry provenance" true (Run_ checkP_DLQ2);
   MkCheck "P-DLQ3" "P-DLQ3 no dlq policy on a .dlq consumer" false (Query pdlq3Query);
   MkCheck "P-DLQ4" "P-DLQ4 no origin_missing deaths" true (Run_ checkP_DLQ4);
   MkCheck "P-DLQ5" "P-DLQ5 no double-death" true (Run_ checkP_DLQ5);
   MkCheck "P-ID1" "P-ID1 unique id outside a DLQ" true (Query pid1Query);
   MkCheck "P-TS1" "published_at monotone in seq" true (Run_ checkPTS1);
   MkCheck "I10" "log = state" true (Run_ checkI10);
   MkCheck "V7" "stream_stats equals scan" true (Run_ checkV7)].

Definition run_check (o : Options) (c : Check) (d : db) : result (list Violation) :=
  match ck_Body c with
  | Query q => Ok (runQueryCheck (ck_ID c) (q d) (opt_limit o))
  | Run_ f => f (vo_Deep o) d
  end.

Fixpoint run_loop (o : Options) (d : db) (cs : list Check) (rep : Report) : result Report :=
  match cs with
  | [] => Ok rep
  | c :: cs =>
      if ck_Deep c && negb (vo_Deep o)
      then run_loop o d cs (MkReport (rp_Checks rep ++ [MkCheckResult (ck_ID c) (ck_Name c) false true []]) (rp_Violations rep))
      else
        let? vs := run_check o c d in
        let rep := MkReport (rp_Checks rep ++ [MkCheckResult (ck_ID c) (ck_Name c) (bool_decide (vs = [])) false vs])
                     (rp_Violations rep ++ vs) in
        if vo_FailFast o && negb (bool_decide (vs = [])) then Ok rep else run_loop o d cs rep
  end.

Definition Run (o : Options) (d : db) : result Report := run_loop o d Registry (MkReport [] []).
End Running.

(** *** What silence means *)

(** The tables as the structural checks want them. *)
Record structural (d : db) : Prop := {
  str_next : forall s, s ∈ stream_seq d -> where_ (on_stream (sq_stream s)) (messages d) = [] -> 0 < sq_next s;
  str_counter : forall s m, s ∈ stream_seq d -> m ∈ messages d -> m_stream m = sq_stream s -> m_seq m < sq_next s;
  str_message : forall r, r ∈ deliveries d -> (d_stream r, d_seq r) ∈ map mkey (messages d);
  str_state : forall r, r ∈ deliveries d -> d_state r = 0 \/ d_state r = 1 /\ 1 <= d_attempts r;
  str_bound : forall c r, c ∈ consumers d -> r ∈ deliveries d -> held_by (c_stream c) (c_name c) r = true ->
    count (held_by (c_stream c) (c_name c)) (deliveries d) <= c_max_ack_pending c;
  str_cursor : forall c s, c ∈ consumers d -> s ∈ stream_seq d -> sq_stream s = c_stream c -> c_cursor_seq c <= sq_next s;
  str_fence : forall r c, r ∈ deliveries d -> c ∈ consumers d -> ckey c = (d_stream r, d_consumer r) ->
    d_seq r < c_cursor_seq c /\ d_generation r = c_generation c;
}.

Lemma where_empty {R} (p : R -> bool) t : where_ p t = [] <-> forall r, r ∈ t -> p r = false.
Proof.
  split; [|apply where_nil]. intros Hw r Hr. apply not_true_is_false. intros Hp.
  assert (Hin : r ∈ where_ p t) by (by apply elem_of_where). rewrite Hw in Hin. by apply elem_of_nil in Hin.
Qed.

Lemma selected_none {R B} (f : R -> B) n p (t : list R) :
  0 < n -> f <$> limit n (where_ p t) = [] <-> forall r, r ∈ t -> p r = false.
Proof. intros Hn. by rewrite fmap_empty, limit_nil, where_empty. Qed.

Lemma query_silent id rows lim : runQueryCheck id rows lim = [] <-> rows = [].
Proof. unfold runQueryCheck. by rewrite fmap_empty, limit_nil by lia. Qed.

Lemma query_nil id lim : runQueryCheck id [] lim = [].
Proof. apply (proj2 (query_silent id [] lim)). reflexivity. Qed.

Lemma mapped_none {R B} (f : R -> B) p (t : list R) : f <$> where_ p t = [] <-> forall r, r ∈ t -> p r = false.
Proof. by rewrite fmap_empty, where_empty. Qed.

(** The rows of one consumer, joined to it. *)
Lemma con_join_of d c :
  NoDup (map ckey (consumers d)) -> c ∈ consumers d ->
  where_ (has_key pair_key (ckey c)) (con_join d) =
  (fun r => (r, c)) <$> where_ (held_by (c_stream c) (c_name c)) (deliveries d).
Proof.
  intros Hk Hc. unfold con_join. induction (deliveries d) as [|r t IH]; [done|].
  rewrite join_cons, where_app, IH. unfold where_ at 4. simpl. fold (where_ (held_by (c_stream c) (c_name c)) t).
  unfold held_by at 2. change (c_stream c, c_name c) with (ckey c). case_bool_decide as Hr; simpl.
  - assert (where_ (of_consumer r) (consumers d) = [c]) as ->.
    { apply (where_one ckey _ (ckey c)); try done; [intros c'|]; unfold of_consumer; rewrite bool_decide_eq_true; congruence. }
    simpl. unfold where_ at 1, has_key at 1, pair_key at 1. simpl. by rewrite bool_decide_true.
  - assert (where_ (has_key pair_key (ckey c)) ((fun b => (r, b)) <$> where_ (of_consumer r) (consumers d)) = []) as ->; [|done].
    apply where_empty. intros [r' c'] (c0 & [= -> ->] & _)%list_elem_of_fmap. by apply bool_decide_false.
Qed.

Lemma pair_group d k g :
  NoDup (map ckey (consumers d)) -> (k, g) ∈ group_by pair_key (con_join d) ->
  exists c r, c ∈ consumers d /\ r ∈ deliveries d /\ ckey c = k /\ held_by (c_stream c) (c_name c) r = true /\
    group_bound g = c_max_ack_pending c /\ Z.of_nat (length g) = count (held_by (c_stream c) (c_name c)) (deliveries d).
Proof.
  intros Hk [Hin ->]%elem_of_group_by. apply mapped_in in Hin as ([r c] & -> & (Hr & Hc & Hon)%elem_of_join).
  unfold of_consumer in Hon. apply bool_decide_eq_true in Hon. exists c, r.
  change (pair_key (r, c)) with (d_stream r, d_consumer r). rewrite <-Hon, (con_join_of d c Hk Hc).
  assert (Hheld : held_by (c_stream c) (c_name c) r = true) by (apply held_by_true; unfold ckey in Hon; naive_solver).
  split_and!; try done; [|by rewrite length_fmap].
  assert (Hin : r ∈ where_ (held_by (c_stream c) (c_name c)) (deliveries d)) by (by apply elem_of_where).
  destruct (where_ _ _); [by apply elem_of_nil in Hin|done].
Qed.

Lemma i5_silent d :
  NoDup (map ckey (consumers d)) ->
  i5Query d = [] <-> forall c r, c ∈ consumers d -> r ∈ deliveries d -> held_by (c_stream c) (c_name c) r = true ->
    count (held_by (c_stream c) (c_name c)) (deliveries d) <= c_max_ack_pending c.
Proof.
  intros Hk. unfold i5Query. rewrite selected_none by lia. split.
  - intros Hall c r Hc Hr Hheld. assert (Hckey : ckey c = pair_key (r, c)) by (apply held_by_true in Hheld as [Hs Hn]; unfold ckey, pair_key; simpl; congruence).
    assert (Hg : (ckey c, where_ (has_key pair_key (ckey c)) (con_join d)) ∈ group_by pair_key (con_join d)).
    { apply elem_of_group_by. split; [|done]. rewrite Hckey. apply in_mapped. apply elem_of_join. split_and!; [done..|].
      unfold of_consumer. by apply bool_decide_eq_true. }
    specialize (Hall _ Hg). simpl in Hall. bool_prop.
    destruct (pair_group d _ _ Hk Hg) as (c' & r' & Hc' & _ & Hk' & _ & Hb & Hl).
    assert (c' = c) as -> by (eapply (key_unique ckey); eauto). lia.
  - intros Hall [k g] Hg. simpl. bool_prop. destruct (pair_group d k g Hk Hg) as (c & r & Hc & Hr & _ & Hh & -> & ->). eauto.
Qed.

Lemma v6_silent d :
  v6Query d = [] <-> forall s, s ∈ stream_seq d ->
    (where_ (on_stream (sq_stream s)) (messages d) = [] -> 0 < sq_next s) /\
    forall m, m ∈ messages d -> m_stream m = sq_stream s -> m_seq m < sq_next s.
Proof.
  unfold v6Query. rewrite selected_none by lia. apply forall_proper; intros s. apply impl_cong.
  rewrite Z.leb_gt. unfold seq_max. set (t := where_ _ _).
  assert (Ht : forall m, m ∈ t <-> m ∈ messages d /\ m_stream m = sq_stream s).
  { intros m. unfold t. rewrite elem_of_where. unfold on_stream. rewrite bool_decide_eq_true. tauto. }
  destruct (max_of m_seq t) as [mx|] eqn:Hmx; simpl.
  - assert (t <> []) by (intros Hn; by rewrite <-max_of_None, Hmx in Hn). destruct (max_of_elem _ _ _ Hmx) as (m0 & Hm0 & <-). split.
    + intros Hlt. split; [done|]. intros m Hm Hs. pose proof (max_of_bound _ _ _ m Hmx ltac:(by apply Ht)). lia.
    + intros [_ Hall]. apply Ht in Hm0 as [? ?]. auto.
  - apply max_of_None in Hmx as Hn. split; [|intros [Hpos _]; auto]. intros ?. split; [done|]. intros m Hm Hs.
    exfalso. assert (Hin : m ∈ t) by (by apply Ht). rewrite Hn in Hin. by apply elem_of_nil in Hin.
Qed.

Lemma con_pairs d (P : delivery -> consumer -> Prop) :
  (forall x, x ∈ con_join d -> P x.1 x.2) <->
  (forall r c, r ∈ deliveries d -> c ∈ consumers d -> ckey c = (d_stream r, d_consumer r) -> P r c).
Proof.
  unfold con_join. split.
  - intros Hall r c Hr Hc Hk. apply (Hall (r, c)). apply elem_of_join. unfold of_consumer. by rewrite bool_decide_eq_true.
  - intros Hall [r c] (Hr & Hc & Hon)%elem_of_join. unfold of_consumer in Hon. apply bool_decide_eq_true in Hon. auto.
Qed.

Lemma i2_silent d :
  i2Query d = [] <-> forall r, r ∈ deliveries d ->
    (d_stream r, d_seq r) ∈ map mkey (messages d) /\ (d_state r = 0 \/ d_state r = 1).
Proof.
  unfold i2Query. rewrite selected_none by lia. unfold msg_join. split.
  - intros Hall r Hr. destruct (decide ((d_stream r, d_seq r) ∈ map mkey (messages d))) as [Hin|Hno].
    + split; [done|]. apply mapped_in in Hin as (m & Hm & Hin).
      assert (Hj : (r, Some m) ∈ left_join of_message (deliveries d) (messages d)).
      { apply elem_of_left_join. split; [done|]. split; [done|]. unfold of_message. by rewrite bool_decide_eq_true. }
      specialize (Hall _ Hj). unfold stateless in Hall. simpl in Hall. bool_prop. lia.
    + assert (Hj : (r, None) ∈ left_join of_message (deliveries d) (messages d)); [|by specialize (Hall _ Hj)].
      apply elem_of_left_join. split; [done|]. intros m Hm. unfold of_message. apply bool_decide_eq_false. intros Heq.
      apply Hno. rewrite <-Heq. by apply in_mapped.
  - intros Hall [r o] [Hr Ho]%elem_of_left_join. destruct (Hall r Hr) as [Hin Hst]. unfold stateless. simpl.
    destruct o as [m|]; [bool_prop; lia|]. apply mapped_in in Hin as (m & Hm & Hin). specialize (Ho m Hin).
    unfold of_message in Ho. by apply bool_decide_eq_false in Ho.
Qed.

Lemma i6_silent deep d :
  checkI6 deep d = Ok [] <->
  (forall c s, c ∈ consumers d -> s ∈ stream_seq d -> sq_stream s = c_stream c -> c_cursor_seq c <= sq_next s) /\
  (forall r c, r ∈ deliveries d -> c ∈ consumers d -> ckey c = (d_stream r, d_consumer r) -> d_seq r < c_cursor_seq c).
Proof.
  unfold checkI6. rewrite ok_app_nil, !query_silent, !mapped_none. split; intros [H1 H2].
  - split.
    + intros c s Hc Hs Hk. specialize (H1 (c, s)). unfold ahead_of_counter in H1. simpl in H1. rewrite Z.ltb_ge in H1.
      apply H1. apply elem_of_join. by rewrite bool_decide_eq_true.
    + apply con_pairs. intros x Hx. specialize (H2 x Hx). unfold past_cursor in H2. bool_prop. lia.
  - rewrite <-con_pairs in H2. split.
    + intros [c s] (Hc & Hs & Hk)%elem_of_join. unfold ahead_of_counter. simpl. bool_prop. auto.
    + intros x Hx. specialize (H2 x Hx). unfold past_cursor. bool_prop. lia.
Qed.

Lemma s3_silent d :
  s3Query d = [] <->
  (forall r c, r ∈ deliveries d -> c ∈ consumers d -> ckey c = (d_stream r, d_consumer r) -> d_generation r = c_generation c).
Proof.
  unfold s3Query, gen_rows. rewrite selected_none, <-con_pairs by lia. apply forall_proper; intros x. apply impl_cong.
  unfold other_generation. by rewrite negb_false_iff, Z.eqb_eq.
Qed.

Lemma i7_silent deep d :
  checkI7 deep d = Ok [] <-> (forall r, r ∈ deliveries d -> d_state r = 1 -> 1 <= d_attempts r) /\ s3Query d = [].
Proof.
  unfold checkI7. rewrite ok_app_nil, !query_silent, selected_none by lia. apply and_iff_compat_r. apply forall_proper; intros r.
  apply impl_cong. unfold unnumbered. rewrite andb_false_iff, Z.eqb_neq, Z.ltb_ge. lia.
Qed.

Lemma structural_silent deep d :
  NoDup (map ckey (consumers d)) ->
  (v6Query d = [] /\ i2Query d = [] /\ i5Query d = [] /\ checkI6 deep d = Ok [] /\ checkI7 deep d = Ok [] /\ s3Query d = [])
  <-> structural d.
Proof.
  intros Hk. rewrite v6_silent, i2_silent, i5_silent, i6_silent, i7_silent, s3_silent by done. split.
  - intros (H6 & H2 & H5 & [Hc Hp] & [Hi _] & Hg). split.
    + intros s Hs. apply (H6 s Hs).
    + intros s m Hs. by apply (H6 s Hs).
    + intros r Hr. apply (H2 r Hr).
    + intros r Hr. destruct (H2 r Hr) as [_ [?|?]]; [by left|]. right. auto.
    + done.
    + done.
    + intros r c Hr Hc' Hkc. auto.
  - intros [Hn Hm Hmsg Hst Hb Hc Hf]. split_and!; try done.
    + intros s Hs. eauto.
    + intros r Hr. split; [auto|]. destruct (Hst r Hr) as [?|[? _]]; auto.
    + intros r c Hr Hc' Hkc. by apply (Hf r c).
    + intros r Hr He. destruct (Hst r Hr) as [?|[_ ?]]; [lia|done].
    + intros r c Hr Hc' Hkc. by apply (Hf r c).
    + intros r c Hr Hc' Hkc. by apply (Hf r c).
Qed.


(** *** Databases the daemon commits *)

Lemma Inv_structural `{Ids} d k : Inv d k -> structural d.
Proof.
  intros [IS IM IC ID]. pose proof (inv_con_key _ _ IC) as Hck.
  assert (Hseq : forall s, s ∈ stream_seq d -> seq_of (sq_stream s) (stream_seq d) = Some (sq_next s)).
  { intros s Hs. unfold seq_of. by rewrite (query_row_unique sq_stream _ _ s (inv_seq_key _ _ _ _ IM) Hs). }
  split.
  - intros s Hs _. pose proof (inv_next_pos _ _ _ _ IM _ _ (Hseq s Hs)). lia.
  - intros s m Hs Hm Hsm. destruct (inv_msg_seq _ _ _ _ IM m Hm) as (n & Hn & ?). rewrite Hsm, Hseq in Hn by done.
    simplify_eq. lia.
  - apply (inv_del_msg _ _ _ ID).
  - intros r Hr. destruct (inv_del_row _ _ _ ID r Hr) as [[? _]|(? & ? & _)]; auto.
  - intros c r Hc _ _. by apply (inv_del_bound _ _ _ ID).
  - intros c s Hc Hs Hsc. destruct (inv_con _ _ IC c Hc) as (_ & _ & _ & n & Hn & ?). rewrite <-Hsc, Hseq in Hn by done.
    simplify_eq. lia.
  - intros r c Hr Hc Hkc. destruct (DelInv_consumer _ _ _ r c Hck ID Hr Hc Hkc). done.
Qed.

Lemma compare_self s : String.compare s s = Eq.
Proof. pose proof (String.compare_antisym s s) as Ha. by destruct (String.compare s s). Qed.

#[local] Instance by_stream_seq_total : Total (fun a b => Is_true (by_stream_seq a b)).
Proof.
  intros a b. unfold by_stream_seq, String.ltb. rewrite (String.compare_antisym (m_stream b) (m_stream a)).
  destruct (String.compare (m_stream a) (m_stream b)) eqn:Hc; simpl; [|by left|by right].
  apply String.compare_eq_iff in Hc as ->. rewrite bool_decide_true by done. simpl.
  destruct (Z.leb_spec (m_seq a) (m_seq b)); [by left|]. right. apply Is_true_true, Z.leb_le. lia.
Qed.

(** Along a list whose neighbours are in order, the walk finds no inversion. *)
Lemma pts1_sorted cur prev l :
  (forall m, head l = Some m -> m_stream m = cur -> prev <= m_published_at m) ->
  Sorted (fun a b => m_stream a = m_stream b -> m_published_at a <= m_published_at b) l -> pts1_walk cur prev l = [].
Proof.
  intros Hhd Hs. revert cur prev Hhd. induction Hs as [|m l Hs IH Hm]; intros cur prev Hhd; [done|]. simpl.
  assert (Hnext : forall m', head l = Some m' -> m_stream m' = m_stream m -> m_published_at m <= m_published_at m').
  { intros m' Hl Heq. destruct Hm as [|m1 l' H1]; [done|]. injection Hl as <-. auto. }
  case_bool_decide as Hcur; simpl; [|by apply IH].
  specialize (Hhd m eq_refl Hcur). replace (m_published_at m <? prev) with false by (symmetry; bool_prop; lia).
  rewrite <-Hcur. by apply IH.
Qed.

Lemma pts1_silent `{Ids} d k deep :
  Inv d k -> (forall m, m ∈ messages d -> m_stream m <> "") -> checkPTS1 deep d = Ok [].
Proof.
  intros HI Hname. pose proof (inv_messages _ _ HI) as IM. unfold checkPTS1. f_equal.
  set (l := order_by by_stream_seq (messages d)).
  assert (Hin : forall m, m ∈ l -> m ∈ messages d) by (intros m; apply elem_of_order_by).
  assert (Hs : Sorted (fun a b => Is_true (by_stream_seq a b)) l) by apply Sorted_merge_sort, _.
  assert (Hnd : NoDup (map mkey l)) by (apply key_order_by, IM). clearbody l. apply pts1_sorted.
  - intros m Hm Hs'. destruct l as [|m0 l]; [done|]. injection Hm as ->. destruct (Hname m); [apply Hin; by left|done].
  - induction Hs as [|m l Hs IH Hm]; constructor; [apply IH; [set_solver|by apply NoDup_cons in Hnd as [_ ?]]|].
    destruct Hm as [|m' l H1]; constructor. intros Heq. unfold by_stream_seq in H1. apply Is_true_true, orb_true_iff in H1.
    rewrite <-Heq, bool_decide_true in H1 by done. unfold String.ltb in H1. rewrite compare_self in H1. destruct H1 as [?|Hle]; [done|]. simpl in Hle. apply Z.leb_le in Hle.
    destruct (decide (m_seq m = m_seq m')) as [He|].
    + exfalso. simpl in Hnd. apply NoDup_cons in Hnd as [Hno _]. apply Hno. unfold mkey. rewrite Heq, He. by left.
    + apply (inv_msg_order _ _ _ _ IM); [apply Hin; by left|apply Hin; right; by left|done|lia].
Qed.

Section Reports.
Context `{Engine}.

(** Every result of a report is that of a check of the registry. *)
Lemma run_loop_results o d cs rep rep' r :
  run_loop o d cs rep = Ok rep' -> r ∈ rp_Checks rep' ->
  r ∈ rp_Checks rep \/ exists c, c ∈ cs /\ cr_ID r = ck_ID c /\
    (cr_Violations r = [] \/ run_check o c d = Ok (cr_Violations r)).
Proof.
  revert rep. induction cs as [|c cs IH]; intros rep Hrun Hr; simpl in Hrun; [by simplify_eq; left|].
  destruct (ck_Deep c && negb (vo_Deep o)).
  - destruct (IH _ Hrun Hr) as [[Hin| ->]%elem_of_snoc|(c' & Hc' & Hres)]; [by left| |].
    + right. exists c. split; [by left|]. auto.
    + right. exists c'. split; [by right|done].
  - apply rbind_ok in Hrun as (vs & Hvs & Hrun). assert (Hnew : forall x, x = MkCheckResult (ck_ID c) (ck_Name c) (bool_decide (vs = [])) false vs ->
      exists c0, c0 ∈ c :: cs /\ cr_ID x = ck_ID c0 /\ (cr_Violations x = [] \/ run_check o c0 d = Ok (cr_Violations x))).
    { intros x ->. exists c. split; [by left|]. auto. }
    case_match.
    + injection Hrun as <-. apply elem_of_snoc in Hr as [Hin|Hr]; [by left|]. right. by apply Hnew.
    + destruct (IH _ Hrun Hr) as [[Hin|Hr']%elem_of_snoc|(c' & Hc' & Hres)]; [by left|right; by apply Hnew|].
      right. exists c'. split; [by right|done].
Qed.

Definition structural_ids : list string := ["V6"; "I2"; "I5"; "I6"; "I7"; "S3"; "P-TS1"].

Lemma registry_silent `{Ids} o d k c :
  Inv d k -> (forall m, m ∈ messages d -> m_stream m <> "") -> c ∈ Registry ->
  bool_decide (ck_ID c ∈ structural_ids) = true -> run_check o c d = Ok [].
Proof.
  intros HI Hname. pose proof (inv_con_key _ _ (inv_consumers _ _ HI)) as Hck.
  pose proof (proj2 (structural_silent (vo_Deep o) d Hck) (Inv_structural d k HI)) as (H6 & H2 & H5 & HI6 & HI7 & H3).
  pose proof (pts1_silent d k (vo_Deep o) HI Hname) as Hts.
  assert (Hq : forall id q, q d = [] -> run_check o (MkCheck id "" false (Query q)) d = Ok []).
  { intros id q Hq. unfold run_check. cbn [ck_Body ck_ID]. by rewrite Hq, query_nil. }
  unfold Registry. intros Hc. repeat (apply elem_of_cons in Hc as [-> |Hc]); [..|by apply elem_of_nil in Hc].
  all: intros Hid; first [discriminate Hid|exact (Hq _ _ H6)|exact (Hq _ _ H2)|exact (Hq _ _ H5)|exact (Hq _ _ H3)|exact HI6|exact HI7|exact Hts].
Qed.

#[local] Strategy opaque [run_loop].

(** [messq verify] raises no structural alarm on a database the daemon can
    commit.  Under the store invariant, and with no stream of the empty name,
    every report, shallow or deep, stopped at the first failure or not, lists
    the checks V6, I2, I5, I6, I7, S3 and P-TS1 without a violation. *)
Lemma verify_silent `{Ids} o d k rep :
  Inv d k -> (forall m, m ∈ messages d -> m_stream m <> "") -> Run o d = Ok rep ->
  forall r, r ∈ rp_Checks rep -> cr_ID r ∈ structural_ids -> cr_Violations r = [].
Proof.
  intros HI Hname Hrun r Hr Hid. unfold Run in Hrun.
  destruct (run_loop_results _ _ _ _ _ _ Hrun Hr) as [Hnil|(c & Hc & Hcid & Hres)]; [by apply elem_of_nil in Hnil|].
  destruct Hres as [|Hres]; [done|]. rewrite Hcid in Hid.
  rewrite (registry_silent o d k c HI Hname Hc (bool_decide_eq_true_2 _ Hid)) in Hres. by injection Hres.
Qed.
End Reports.

(** *** The journal replayed *)

Lemma fold_event_keeps x e : exists vs, (fold_event x e).2 = x.2 ++ vs.
Proof. unfold fold_event. destruct (fold _ _ _ _) as [f vs]. by exists vs. Qed.

Lemma replay_keeps x l : exists vs, (foldl fold_event x l).2 = x.2 ++ vs.
Proof.
  revert x. induction l as [|e l IH]; intros x; simpl; [exists []; by rewrite app_nil_r|].
  destruct (IH (fold_event x e)) as [vs ->]. destruct (fold_event_keeps x e) as [vs' ->]. eexists. by rewrite <-app_assoc.
Qed.

Lemma fold_no_arm name stream seq f : name ∈ no_arm_yet -> (fold name stream seq f).2 <> [].
Proof.
  intros Hin. unfold fold.
  assert (Hne : name <> "stream.create" /\ name <> "stream.delete" /\ name <> "msg.publish" /\ name ∉ no_state_change).
  { split_and!; intros Heq; subst; revert Hin; try (apply (bool_decide_unpack (~ _)); by vm_compute).
    unfold no_state_change in Heq. repeat (apply elem_of_cons in Heq as [-> |Heq]); [..|by apply elem_of_nil in Heq].
    all: apply (bool_decide_unpack (~ _)); by vm_compute. }
  destruct Hne as (H1 & H2 & H3 & H4). rewrite !bool_decide_false by done. by rewrite bool_decide_true.
Qed.

(** [messq verify --deep] condemns every store that has done its work.  The
    check I10 has no arm for the events of starting, delivering, settling,
    dead-lettering, purging, retention and consumer administration: as soon as
    the journal holds one of them, I10 never reports success, whatever the
    tables hold. *)
Lemma deep_verify_condemns deep d e :
  e ∈ events d -> ev_name e.2 ∈ no_arm_yet -> checkI10 deep d <> Ok [].
Proof.
  intros He Hname. unfold checkI10, replay. apply (elem_of_order_by by_id) in He. apply list_elem_of_split in He as (pre & post & ->).
  rewrite foldl_app. cbn [foldl]. set (x := foldl fold_event _ pre).
  destruct (replay_keeps (fold_event x e) post) as [vs Hvs]. destruct (foldl fold_event (fold_event x e) post) as [f ws].
  simpl in Hvs. subst ws. intros Hok. apply rbind_ok in Hok as (rest & _ & Hok). injection Hok as Hnil.
  apply app_eq_nil in Hnil as [Hnil _]. apply app_eq_nil in Hnil as [Hnil _]. revert Hnil. unfold fold_event.
  pose proof (fold_no_arm (ev_name e.2) (default "" (ev_stream e.2)) (default 0 (ev_seq e.2)) x.1 Hname) as Hne.
  destruct (fold _ _ _ _) as [f' vs']. simpl in *. intros [_ ?]%app_eq_nil. done.
Qed.

(** The journal and the tables agree: what the check establishes, and the count
    of a stream nothing was published to. *)
Record agrees (f : foldState) (d : db) : Prop := {
  agr_streams : forall s b, fs_streams f !! s = Some b -> b = in_streams s d;
  agr_live : forall r, r ∈ streams d -> fs_streams f !! st_name r = Some true;
  agr_last : forall s last, fs_lastSeq f !! s = Some last -> last <> 0 ->
    find_seq s d = Some (last + 1) /\ count (on_stream s) (messages d) = default 0 (fs_count f !! s);
  agr_none : forall r, r ∈ streams d -> default 0 (fs_lastSeq f !! st_name r) = 0 ->
    count (on_stream (st_name r)) (messages d) = default 0 (fs_count f !! st_name r);
}.

Definition log_is_state (d : db) : Prop := exists f, replay d = (f, []) /\ agrees f d.

Lemma collect_nil {A B} (f : A -> result (list B)) l : (forall a, a ∈ l -> f a = Ok []) -> collect f l = Ok [].
Proof. induction l as [|a l IH]; intros Hf; [done|]. simpl. rewrite (Hf a) by left. simpl. by rewrite IH by (intros; apply Hf; by right). Qed.

Lemma bind_nil {A B} (f : A -> list B) l : (forall a, a ∈ l -> f a = []) -> l ≫= f = [].
Proof. induction l as [|a l IH]; intros Hf; [done|]. rewrite bind_cons, (Hf a) by left. apply IH. intros b Hb. apply Hf. by right. Qed.

Lemma agrees_clean f d : agrees f d -> diff f d = Ok [].
Proof.
  intros [As Al Alast _]. unfold diff. rewrite collect_nil; simpl.
  - f_equal. rewrite app_nil_r. unfold names_diff. rewrite !bind_nil; [done|..].
    + intros r Hr. unfold live_in. by rewrite (Al r Hr).
    + intros [s b] Hb%elem_of_map_to_list. rewrite (As s b Hb). by destruct (in_streams s d).
  - intros [s last] Hs%elem_of_map_to_list. unfold counts_row. destruct (last =? 0) eqn:Hz; [done|]. bool_prop.
    destruct (Alast s last Hs Hz) as [-> ->]. by rewrite !Z.eqb_refl.
Qed.

Lemma log_is_state_clean deep d : log_is_state d -> checkI10 deep d = Ok [].
Proof. intros (f & Hr & Ha). unfold checkI10. rewrite Hr, (agrees_clean f d Ha). done. Qed.

(** Replaying one more row continues the replay. *)
Lemma replay_append d d' e :
  Journal.journal_ok (events d) -> events d' = events d ++ [(next_event_id (events d), e)] ->
  replay d' = fold_event (replay d) (next_event_id (events d), e).
Proof.
  intros Hj He. pose proof (Journal.journal_append _ e Hj) as Hj'. unfold replay.
  unfold by_id. rewrite He, !(order_by_id fst) by (by apply Hj || by apply Hj'). by rewrite foldl_app.
Qed.

Lemma fold_publish s seq f :
  default 0 (fs_lastSeq f !! s) = 0 \/ seq = default 0 (fs_lastSeq f !! s) + 1 ->
  fold "msg.publish" s seq f =
  (MkFold (fs_streams f) (<[s := seq]> (fs_lastSeq f)) (<[s := default 0 (fs_count f !! s) + 1]> (fs_count f)), []).
Proof.
  intros Hseq. unfold fold. rewrite !bool_decide_false, bool_decide_true by done.
  replace (negb _ && negb _) with false; [done|]. symmetry. apply andb_false_iff.
  rewrite !negb_false_iff, !Z.eqb_eq. tauto.
Qed.

Lemma agrees_published `{Ids} f d w w' m :
  w_db w = d -> Publish.appended w w' m -> agrees f d -> (exists r, r ∈ streams d /\ st_name r = m_stream m) ->
  seq_of (m_stream m) (stream_seq d) = Some (m_seq m) -> 1 <= m_seq m ->
  (default 0 (fs_lastSeq f !! m_stream m) = 0 \/ m_seq m = default 0 (fs_lastSeq f !! m_stream m) + 1) /\
  agrees (MkFold (fs_streams f) (<[m_stream m := m_seq m]> (fs_lastSeq f))
            (<[m_stream m := default 0 (fs_count f !! m_stream m) + 1]> (fs_count f))) (w_db w').
Proof.
  intros <- Happ [As Al Alast Anone] (r & Hr & Hrn) Hseq Hpos. set (s := m_stream m) in *.
  assert (Hcount : forall s', count (on_stream s') (messages (w_db w')) =
            count (on_stream s') (messages (w_db w)) + if bool_decide (s' = s) then 1 else 0).
  { intros s'. rewrite (Publish.app_messages _ _ _ Happ), count_app, count_cons, count_nil. unfold on_stream. fold s.
    repeat case_bool_decide; congruence || lia. }
  assert (Hold : default 0 (fs_lastSeq f !! s) = 0 \/ m_seq m = default 0 (fs_lastSeq f !! s) + 1).
  { destruct (fs_lastSeq f !! s) as [last|] eqn:Hl; [|by left]. simpl. destruct (decide (last = 0)) as [->|Hnz]; [by left|].
    right. destruct (Alast s last Hl Hnz) as [Hn _]. unfold find_seq in Hn. change (seq_of s (stream_seq (w_db w)) = Some (last + 1)) in Hn.
    rewrite Hseq in Hn. by injection Hn. }
  assert (Hcnt : count (on_stream s) (messages (w_db w)) = default 0 (fs_count f !! s)).
  { destruct (decide (default 0 (fs_lastSeq f !! s) = 0)) as [Hz|Hnz]; [rewrite <-Hrn in *; by apply Anone|].
    destruct (fs_lastSeq f !! s) as [last|] eqn:Hl; [|done]. by apply (Alast s last). }
  split; [done|]. split; simpl.
  - intros s' b. unfold in_streams. rewrite (Publish.app_streams _ _ _ Happ). apply As.
  - intros r' Hr'. rewrite (Publish.app_streams _ _ _ Happ) in Hr'. by apply Al.
  - intros s' last. unfold find_seq. rewrite (Publish.app_seq _ _ _ Happ). fold s.
    change (sq_next <$> query_row (has_key sq_stream s') ?t) with (seq_of s' t). rewrite Publish.seq_of_bump, Hcount.
    destruct (decide (s' = s)) as [->|Hne].
    + rewrite !lookup_insert_eq, !bool_decide_true, Hseq by done. simpl. intros [= <-] _. split; [f_equal; lia|lia].
    + rewrite !lookup_insert_ne, !bool_decide_false, option_fmap_id by done. intros Hl Hnz.
      destruct (Alast s' last Hl Hnz) as [Hn Hc]. split; [exact Hn|lia].
  - intros r'. rewrite (Publish.app_streams _ _ _ Happ), Hcount. intros Hr'. destruct (decide (st_name r' = s)) as [He|Hne].
    + rewrite He, lookup_insert_eq. simpl. lia.
    + rewrite !lookup_insert_ne, bool_decide_false by done. intros Hz. rewrite (Anone r' Hr' Hz). lia.
Qed.

(** A publish keeps the journal equal to the state.  If replaying the
    journal reproduces the streams, the message counts and the sequence
    allocator of the tables, then it still does after a publish that stores a
    message or answers a duplicate, and check I10 reports nothing. *)
Theorem publish_log_is_state `{Ids} `{!FreshIds} limits stream r now w w' res deep :
  world_ok w -> Journal.journal_ok (events (w_db w)) -> log_is_state (w_db w) ->
  Publish.publishWriteCmd limits stream r now w = (w', Ok res) ->
  log_is_state (w_db w') /\ checkI10 deep (w_db w') = Ok [].
Proof.
  intros Hok Hj (f & Hrep & Hagr) Hrun. cut (log_is_state (w_db w')); [intros Hl; split; [done|by apply log_is_state_clean]|].
  pose proof (wp_run _ _ _ _ _ _ (Publish.publishWriteCmd_wp limits stream r now w Hok) Hrun) as Hpost. destruct res as [ack evs].
  destruct Hpost as (row & [Hrn%has_key_true Hrow]%query_row_Some & _ & [(orig & g & _ & _ & _ & _ & -> & e & He & Hn & Hs & Hq)|
    (m & _ & Hst & Happ & (e & He & Hn & Hs & Hq) & _)]); pose proof (replay_append _ _ e Hj He) as Hr; rewrite Hrep in Hr.
  - exists f. split; [|by destruct Hagr]. rewrite Hr. unfold fold_event. simpl. by rewrite Hn.
  - pose proof (Publish.sto_stream _ _ _ _ _ Hst) as Hms. simpl in Hms. pose proof (Publish.sto_seq _ _ _ _ _ Hst) as Hseq.
    destruct (agrees_published f _ w w' m eq_refl Happ Hagr) as [Hcont Hagr']; [by exists row; rewrite Hms|done| |].
    + by apply (inv_next_pos _ _ _ _ (inv_messages _ _ Hok) _ _ Hseq).
    + eexists. split; [|exact Hagr']. rewrite Hr. unfold fold_event. simpl. by rewrite Hn, Hs, Hq, fold_publish.
Qed.

(** *** The theorems at work *)

Import Policy Samples.

(** An engine that finds its file sound. *)
Definition sound_engine : Engine := {|
  quick_check _ := ["ok"];
  integrity_check _ := ["ok"];
  pragma p _ := if bool_decide (p = "journal_mode") then "wal" else "2" |}.


(** One delivery is enough, on a database that keeps the store's invariant. *)
(** The sample stream with the journal row of its creation. *)
Definition created : event :=
  Event 0 "stream.create" (Some "orders") None None None None None None (Some "ops") [].
Definition logged_base : world := World (on_events (fun _ => [(1, created)]) base_db) empty_mem.

Lemma logged_base_agrees : log_is_state (w_db logged_base).
Proof.
  exists (MkFold {["orders" := true]} ∅ ∅). split; [reflexivity|]. split; simpl.
  - intros s b [<- <-]%lookup_singleton_Some. reflexivity.
  - intros r ->%list_elem_of_singleton. by rewrite lookup_singleton_eq.
  - intros s last. by rewrite lookup_empty.
  - intros r Hr _. by rewrite lookup_empty.
Qed.

Lemma publish_log_is_state_witness :
  exists w' ack evs, Publish.publishWriteCmd DefaultLimits "orders" Publish.order_created 7000000 logged_base = (w', Ok (ack, evs)) /\
    checkI10 true (w_db w') = Ok [].
Proof.
  destruct (ran (Publish.publishWriteCmd DefaultLimits "orders" Publish.order_created 7000000 logged_base)
              ltac:(vm_compute; reflexivity)) as (w' & [ack evs] & Hrun).
  exists w', ack, evs. split; [exact Hrun|].
  apply (publish_log_is_state DefaultLimits "orders" Publish.order_created 7000000 logged_base w' (ack, evs) true).
  - apply (Inv_events (fun _ => [(1, created)])), base_ok.
  - split; simpl; repeat constructor.
  - exact logged_base_agrees.
  - exact Hrun.
Defined.

(** Deleting a stream that had messages makes the deep run fail outright: the
    replay still counts the stream, and its allocator row is gone. *)
Lemma deleted_stream_stops_verify :
  let w1 := fst (Publish.publishWriteCmd DefaultLimits "orders" Publish.order_created 7000000 logged_base) in
  let w2 := fst (DeleteStream 1 "orders" "orders" "ops" 9000000 w1) in
  checkI10 true (w_db w1) = Ok [] /\
  checkI10 true (w_db w2) = Err (Plain "sql: no rows in result set").
Proof. vm_compute. by split. Qed.

(** Purging a dead-letter queue empty is reported as a lost copy: with no row
    left there is no first sequence number to have passed the copy. *)
Lemma emptied_dlq_condemned :
  let term := StoreSettle.MkSettleItem (StoreSettle.token "billing" 1 1) "term" None "bad" in
  let w1 := fst (StoreSettle.SettleCmd StoreSettle.sample_env [term] 9000000 Fetch.after_fetch) in
  let w2 := fst (Purge.PurgeStream "orders.dlq" Purge.whole false "ops" w1) in
  map mkey (messages (w_db w1)) = [("orders", 1); ("orders.dlq", 1)] /\ checkP_DLQ1 true (w_db w1) = Ok [] /\
  map mkey (messages (w_db w2)) = [("orders", 1)] /\
  (let? vs := checkP_DLQ1 true (w_db w2) in Ok (map v_ID vs)) = Ok ["P-DLQ1"].
Proof. vm_compute. by split_and!. Qed.

(** A dead-letter copy may carry headers of twice the publish limit, and V5
    reports every one that uses more than the limit itself. *)
Lemma dlq_headers_condemned m h sets :
  m_hdr m = Some h -> 4096 < json_object_len h <= DeadSink.maxDLQHeaderBytes DefaultLimits -> checkV5_row sets m <> [].
Proof.
  intros Hh [Hlt _]. unfold checkV5_row. rewrite Hh. replace (4096 <? json_object_len h) with true by (symmetry; bool_prop; lia).
  intros [_ [? _]%app_eq_nil]%app_eq_nil. done.
Qed.

End Verify.
