(* ===== verification/StoreAudits.v ===== *)
(** * The audits of the store

    [CheckPublishInvariants] and [CheckConsumerInvariants], which the store
    exports for the crash tests and the reference model
    ([internal/store/invariants.go], [invariants_consumer.go]).  The theorems
    say what a clean audit establishes, down to the invariant the commands rely
    on, and where an audit condemns a healthy store. *)

From S2P Require Import Purge StreamAdmin Verify.

Module StoreAudit.
Import Verify StreamAdmin.

Record Violation : Set := MkViolation {
  sv_ID : string;
  sv_Stream : string;
  sv_Consumer : string;
  sv_Detail : detail;
  sv_Advisory : bool;
}.

(** *** invariants.go *)

Definition publish_violation (id stream format : string) (args : list dval) : Violation :=
  MkViolation id stream "" (Msg format args) false.

Record scan_state : Set := MkScan { prevSeq : Z; prevPub : Z; scanned : Z; bytesSum : Z; found : list Violation }.

Section PublishAudit.
(** The clock in milliseconds and the dedup sweep interval. *)
Context (nowMS dedupSweepMS : Z).

Definition scan_row (name : string) (window : Z) (st : scan_state) (m : message) : scan_state :=
  let seq := m_seq m in
  let pub := m_published_at m in
  let bound := nowMS - window - dedupSweepMS in
  MkScan seq pub (scanned st + 1) (bytesSum st + m_size m)
    (found st
     ++ (if (0 <=? prevSeq st) && negb (seq =? prevSeq st + 1)
         then [publish_violation "P1" name "gap between seq %d and %d" [DInt (prevSeq st); DInt seq]] else [])
     ++ (if (0 <=? prevPub st) && (pub <? prevPub st)
         then [publish_violation "P4" name "published_at goes backwards from seq %d to %d" [DInt (prevSeq st); DInt seq]] else [])
     ++ (if m_size m =? slen (m_body m) then []
         else [publish_violation "P5" name "seq %d has size %d but body length %d"
                 [DInt seq; DInt (m_size m); DInt (slen (m_body m))]])
     ++ (if (match m_dedup_key m with Some _ => true | None => false end) && (0 <? window) && (pub <? bound)
         then [publish_violation "P3" name "dedup key at seq %d outlived its window by %d ms" [DInt seq; DInt (bound - pub)]]
         else [])).

Definition by_seq (a b : message) : bool := m_seq a <=? m_seq b.

Definition counter_findings (name : string) (last : Z) (d : db) : list Violation :=
  match find_seq name d with
  | None => [publish_violation "P2" name "stream_seq row missing" []]
  | Some next =>
      (if next <=? last then [publish_violation "P2" name "max seq %d >= stream_seq.next %d" [DInt last; DInt next]] else [])
      ++ match meta_get (metaSeqHwmPrefix +:+ name) d with
         | Some raw =>
             match sscanf_d raw with
             | Some recorded => if next <=? recorded
                                then [publish_violation "P2" name "stream_seq.next %d reused deleted hwm %d" [DInt next; DInt recorded]]
                                else []
             | None => []
             end
         | None => []
         end
  end.

Definition stats_findings (name : string) (msgs bytes : Z) (d : db) : list Violation :=
  match query_row (has_key ss_stream name) (stream_stats d) with
  | Some ss => if (ss_msgs ss =? msgs) && (ss_bytes ss =? bytes) then []
               else [publish_violation "P5" name "stream_stats reports %d msgs / %d bytes, scan found %d / %d"
                       [DInt (ss_msgs ss); DInt (ss_bytes ss); DInt msgs; DInt bytes]]
  | None => []
  end.

Definition checkStreamInvariants (name : string) (d : db) : result (list Violation) :=
  match find_stream name d with
  | None => Err (Plain "read window")
  | Some row =>
      let st := foldl (scan_row name (st_dedup_window_ms row)) (MkScan (-1) (-1) 0 0 [])
                  (order_by by_seq (where_ (on_stream name) (messages d))) in
      Ok (found st ++ counter_findings name (prevSeq st) d ++ stats_findings name (scanned st) (bytesSum st) d)
  end.

Definition dedup_pair (m : message) : string * option string := (m_stream m, m_dedup_key m).

Definition checkStoreWideInvariants (d : db) : list Violation :=
  (fun g => publish_violation "P3" g.1.1 "key %q occurs %d times (unique index bypassed?)"
              [DStr (default "" g.1.2); DInt (Z.of_nat (length g.2))])
    <$> where_ (fun g => (1 <? length g.2)%nat)
          (group_by dedup_pair (where_ (fun m => match m_dedup_key m with Some _ => true | None => false end) (messages d))).

Definition CheckPublishInvariants (d : db) : result (list Violation) :=
  let? out := collect (fun r => checkStreamInvariants (st_name r) d)
                (order_by (fun a b => String.leb (st_name a) (st_name b)) (streams d)) in
  Ok (out ++ checkStoreWideInvariants d).
End PublishAudit.

(** *** invariants_consumer.go *)

Definition row_violation (id : string) (r : delivery) (format : string) (args : list dval) : Violation :=
  MkViolation id (d_stream r) (d_consumer r) (Msg format args) false.

Definition checkC1 (d : db) : list Violation :=
  (fun x => row_violation "C1" x.1 "delivery seq %d >= cursor_seq %d" [DInt (d_seq x.1); DInt (c_cursor_seq x.2)])
    <$> limit 100 (where_ past_cursor (con_join d)).

Definition no_message (x : delivery * option message) : bool := match x.2 with None => true | Some _ => false end.

Definition checkC2a (d : db) : list Violation :=
  (fun x => row_violation "C2" x.1 "delivery seq %d has no message row" [DInt (d_seq x.1)])
    <$> limit 100 (where_ no_message (msg_join d)).

Definition other_subject (x : delivery * message) : bool := negb (bool_decide (d_subject x.1 = m_subject x.2)).

Definition checkC2b (d : db) : list Violation :=
  (fun x => row_violation "C2" x.1 "delivery seq %d subject %q != message subject %q"
              [DInt (d_seq x.1); DStr (d_subject x.1); DStr (m_subject x.2)])
    <$> limit 100 (where_ other_subject (join of_message (deliveries d) (messages d))).

Definition checkC3 (d : db) : list Violation :=
  (fun x => row_violation "C3" x.1 "delivery seq %d generation %d != consumer generation %d"
              [DInt (d_seq x.1); DInt (d_generation x.1); DInt (c_generation x.2)])
    <$> limit 100 (where_ other_generation (con_join d)).

(** A comparison with the NULL of a missing counter is not true. *)
Definition cursor_outside (d : db) (c : consumer) : bool :=
  (c_cursor_seq c <? 1) || match find_seq (c_stream c) d with Some next => next <? c_cursor_seq c | None => false end.

Definition checkC4 (d : db) : list Violation :=
  (fun c => MkViolation "C4" (c_stream c) (c_name c)
              (Msg "cursor_seq %d outside [1, %d]" [DInt (c_cursor_seq c); DInt (default 0 (find_seq (c_stream c) d))]) false)
    <$> limit 100 (where_ (cursor_outside d) (consumers d)).

Definition pending_of (d : db) (c : consumer) : Z := count (held_by (c_stream c) (c_name c)) (deliveries d).
Definition ready_of (d : db) (c : consumer) : Z :=
  count (fun r => held_by (c_stream c) (c_name c) r && (d_state r =? 0)) (deliveries d).

(** [GROUP BY] the key of [consumers] in a left join: one group per consumer. *)
Definition checkC5 (d : db) : list Violation :=
  (fun c => MkViolation "C5" (c_stream c) (c_name c)
              (Msg "pending %d exceeds max_ack_pending %d" [DInt (pending_of d c); DInt (c_max_ack_pending c)])
              (ready_of d c <=? c_max_ack_pending c))
    <$> limit 100 (where_ (fun c => c_max_ack_pending c <? pending_of d c) (consumers d)).

Definition ill_formed (x : delivery * consumer) : bool :=
  let r := x.1 in
  negb ((d_state r =? 0) || (d_state r =? 1))
  || (d_attempts r <? 0)
  || ((0 <? c_max_deliver x.2) && (c_max_deliver x.2 <? d_attempts r))
  || ((d_state r =? 1) && match d_delivered_at r with None => true | Some t => d_visible_at r <=? t end)
  || ((d_state r =? 0) && match d_delivered_at r with None => false | Some _ => true end && (d_attempts r =? 0)).

Definition checkC6 (d : db) : list Violation :=
  (fun x => row_violation "C6" x.1 "delivery seq %d: state %d attempts %d delivered_at %v visible_at %v max_deliver %d"
              [DInt (d_seq x.1); DInt (d_state x.1); DInt (d_attempts x.1); DInt (default 0 (d_delivered_at x.1));
               DInt (d_visible_at x.1); DInt (c_max_deliver x.2)])
    <$> limit 100 (where_ ill_formed (con_join d)).

Definition CheckConsumerInvariants (d : db) : list Violation :=
  checkC1 d ++ checkC2a d ++ checkC2b d ++ checkC3 d ++ checkC4 d ++ checkC5 d ++ checkC6 d.

(** *** What the consumer audit establishes *)

(** Delivery rows name a live consumer, consumers a stream with a counter, and
    primary keys are unique: what the schema and the cascade guarantee. *)
Record referenced (d : db) : Prop := {
  ref_dkey : NoDup (map dkey (deliveries d));
  ref_ckey : NoDup (map ckey (consumers d));
  ref_consumer : forall r, r ∈ deliveries d -> exists c, c ∈ consumers d /\ ckey c = (d_stream r, d_consumer r);
  ref_counter : forall c, c ∈ consumers d -> is_Some (find_seq (c_stream c) d);
}.

(** A lease ends after its delivery, a bounded row is within its bound, and a
    row once delivered has been counted. *)
Definition lease_ok (r : delivery) (c : consumer) : Prop :=
  (0 < c_max_deliver c -> d_attempts r <= c_max_deliver c) /\
  (d_state r = 1 -> forall t, d_delivered_at r = Some t -> t < d_visible_at r) /\
  (d_state r = 0 -> d_delivered_at r <> None -> d_attempts r <> 0).

Lemma C2_silent d :
  checkC2a d = [] /\ checkC2b d = [] <->
  forall r, r ∈ deliveries d -> (d_stream r, d_seq r) ∈ map mkey (messages d) /\
    forall m, m ∈ messages d -> mkey m = (d_stream r, d_seq r) -> d_subject r = m_subject m.
Proof.
  unfold checkC2a, checkC2b. rewrite !selected_none by lia. split.
  - intros [Ha Hb] r Hr. split.
    + destruct (decide ((d_stream r, d_seq r) ∈ map mkey (messages d))) as [|Hno]; [done|]. exfalso.
      assert (Hj : (r, None) ∈ msg_join d); [|by specialize (Ha _ Hj)]. apply elem_of_left_join. split; [done|].
      intros m Hm. unfold of_message. apply bool_decide_eq_false. intros Heq. apply Hno. rewrite <-Heq. by apply in_mapped.
    + intros m Hm Hk. specialize (Hb (r, m)). unfold other_subject in Hb. simpl in Hb.
      rewrite negb_false_iff, bool_decide_eq_true in Hb. apply Hb. apply elem_of_join. unfold of_message. by rewrite bool_decide_eq_true.
  - intros Hall. split.
    + intros [r o] [Hr Ho]%elem_of_left_join. destruct o as [m|]; [done|]. destruct (Hall r Hr) as [Hin _].
      apply mapped_in in Hin as (m & Hm & Hin). specialize (Ho m Hin). unfold of_message in Ho. by apply bool_decide_eq_false in Ho.
    + intros [r m] (Hr & Hm & Hk)%elem_of_join. unfold of_message in Hk. apply bool_decide_eq_true in Hk.
      unfold other_subject. simpl. apply negb_false_iff, bool_decide_eq_true. by apply (Hall r Hr).
Qed.

Lemma C4_silent d :
  (forall c, c ∈ consumers d -> is_Some (find_seq (c_stream c) d)) ->
  checkC4 d = [] <-> forall c, c ∈ consumers d -> exists n, find_seq (c_stream c) d = Some n /\ 1 <= c_cursor_seq c <= n.
Proof.
  intros Hseq. unfold checkC4. rewrite selected_none by lia. apply forall_proper; intros c. unfold cursor_outside. split.
  - intros Hc Hin. specialize (Hc Hin). destruct (Hseq c Hin) as [n Hn]. rewrite Hn in Hc. bool_prop. exists n. split; [done|lia].
  - intros Hc Hin. destruct (Hc Hin) as (n & -> & ?). bool_prop. lia.
Qed.

Lemma C6_silent d :
  checkC6 d = [] <-> forall r c, r ∈ deliveries d -> c ∈ consumers d -> ckey c = (d_stream r, d_consumer r) ->
    (d_state r = 0 \/ d_state r = 1 /\ d_delivered_at r <> None) /\ 0 <= d_attempts r /\ lease_ok r c.
Proof.
  unfold checkC6. rewrite selected_none, <-con_pairs by lia. apply forall_proper; intros [r c]. apply impl_cong.
  unfold ill_formed, lease_ok. simpl.
  rewrite !orb_false_iff, !andb_false_iff, negb_false_iff, orb_true_iff, !Z.eqb_eq, !Z.eqb_neq, !Z.ltb_ge.
  destruct (d_delivered_at r) as [t|]; rewrite ?Z.leb_gt.
  - split; [intros ((((Hst & Ha) & Hm) & Hv) & Hz)|intros (Hst & Ha & Hm & Hv & Hz)].
    + split_and!; [intuition congruence|done|lia|intros ? ? [= <-]; lia|intros; lia].
    + split_and!; [tauto|done|lia| |].
      * destruct (Z.eq_dec (d_state r) 1) as [He|]; [|by left]. right. by apply Hv.
      * destruct (Z.eq_dec (d_state r) 0) as [He|]; [|by left; left]. right. by apply Hz.
  - split; [intros ((((Hst & Ha) & Hm) & Hv) & Hz)|intros (Hst & Ha & Hm & Hv & Hz)].
    + split_and!; [intuition congruence|done|lia|done|done].
    + split_and!; [tauto|done|lia|left; intros ?; destruct Hst as [?|[_ ?]]; [lia|done]|by left; right].
Qed.

Lemma audit_silent d :
  (forall c, c ∈ consumers d -> is_Some (find_seq (c_stream c) d)) ->
  CheckConsumerInvariants d = [] <->
  (forall r, r ∈ deliveries d -> (d_stream r, d_seq r) ∈ map mkey (messages d) /\
     forall m, m ∈ messages d -> mkey m = (d_stream r, d_seq r) -> d_subject r = m_subject m) /\
  (forall c, c ∈ consumers d -> exists n, find_seq (c_stream c) d = Some n /\ 1 <= c_cursor_seq c <= n) /\
  (forall c, c ∈ consumers d -> pending_of d c <= c_max_ack_pending c) /\
  (forall r c, r ∈ deliveries d -> c ∈ consumers d -> ckey c = (d_stream r, d_consumer r) ->
     d_seq r < c_cursor_seq c /\ d_generation r = c_generation c /\
     (d_state r = 0 \/ d_state r = 1 /\ d_delivered_at r <> None) /\ 0 <= d_attempts r /\ lease_ok r c).
Proof.
  intros Hseq. unfold CheckConsumerInvariants. rewrite !app_nil.
  assert (H1 : checkC1 d = [] <-> forall r c, r ∈ deliveries d -> c ∈ consumers d -> ckey c = (d_stream r, d_consumer r) ->
            d_seq r < c_cursor_seq c).
  { unfold checkC1. rewrite selected_none, <-con_pairs by lia. apply forall_proper; intros x. apply impl_cong.
    unfold past_cursor. by rewrite Z.leb_gt. }
  assert (H3 : checkC3 d = [] <-> s3Query d = []) by (unfold checkC3, s3Query, gen_rows; by rewrite !fmap_empty).
  assert (H5 : checkC5 d = [] <-> forall c, c ∈ consumers d -> pending_of d c <= c_max_ack_pending c).
  { unfold checkC5. rewrite selected_none by lia. apply forall_proper; intros c. apply impl_cong. by rewrite Z.ltb_ge. }
  pose proof (C2_silent d) as H2. rewrite s3_silent in H3. rewrite (C4_silent d Hseq), C6_silent, H1, H3, H5. split.
  - intros (P1 & P2a & P2b & P3 & P4 & P5 & P6). split_and!; [by apply H2|done|done|]. intros r c Hr Hc Hk.
    split_and!; [by apply P1|by apply P3|apply (P6 r c Hr Hc Hk)..].
  - intros (P2 & P4 & P5 & Pp). apply H2 in P2 as [P2a P2b].
    split_and!; try done; intros r c Hr Hc Hk; by destruct (Pp r c Hr Hc Hk) as (? & ? & ? & ? & ?).
Qed.

(** The store's consumer audit, with verify's settle-fence check, is exact.
    On tables that keep the schema's keys and references, C1 to C6 and I7
    report nothing if and only if the pending set keeps the invariant the
    commands rely on ([DelInv]), every cursor lies between 1 and its counter,
    every row carries the subject of its message, and every lease is well
    formed: it ends after its delivery, and counts no more attempts than the
    bound allows. *)
Theorem consumer_audit_exact deep d :
  referenced d ->
  (CheckConsumerInvariants d = [] /\ checkI7 deep d = Ok []) <->
  DelInv (messages d) (consumers d) (deliveries d) /\
  (forall c, c ∈ consumers d -> exists n, find_seq (c_stream c) d = Some n /\ 1 <= c_cursor_seq c <= n) /\
  (forall r m, r ∈ deliveries d -> m ∈ messages d -> mkey m = (d_stream r, d_seq r) -> d_subject r = m_subject m) /\
  (forall r c, r ∈ deliveries d -> c ∈ consumers d -> ckey c = (d_stream r, d_consumer r) -> lease_ok r c).
Proof.
  intros [Hdk Hck Hcon Hseq]. rewrite (audit_silent d Hseq), i7_silent, s3_silent. split.
  - intros [(P2 & P4 & P5 & Pp) [Hi _]]. split_and!; [split| | |]; try done.
    + intros r Hr. destruct (Hcon r Hr) as (c & Hc & Hk). destruct (Pp r c Hr Hc Hk) as (_ & _ & Hst & Ha & _).
      destruct Hst as [?|[? ?]]; [by left|]. right. auto.
    + intros r Hr. destruct (Hcon r Hr) as (c & Hc & Hk). exists c. destruct (Pp r c Hr Hc Hk) as (? & ? & _). done.
    + intros r Hr. apply (P2 r Hr).
    + intros r m Hr Hm Hk. by apply (P2 r Hr).
    + intros r c Hr Hc Hk. apply (Pp r c Hr Hc Hk).
  - intros (HD & P4 & Psub & Pl). destruct HD as [_ Irow Icon Imsg Ibound].
    assert (Hfence : forall r c, r ∈ deliveries d -> c ∈ consumers d -> ckey c = (d_stream r, d_consumer r) ->
              d_seq r < c_cursor_seq c /\ d_generation r = c_generation c).
    { intros r c Hr Hc Hk. destruct (Icon r Hr) as (c' & Hc' & Hk' & Hg & Hs).
      assert (c = c') as -> by (eapply (key_unique ckey); eauto; congruence). done. }
    split_and!; try done.
    + intros r Hr. split; [by apply Imsg|]. intros m Hm Hk. by apply Psub.
    + intros r c Hr Hc Hk. destruct (Hfence r c Hr Hc Hk) as [? ?]. split_and!; try done; [| |by apply Pl].
      * destruct (Irow r Hr) as [[? _]|(? & _ & ?)]; auto.
      * destruct (Irow r Hr) as [[_ ?]|(_ & ? & _)]; lia.
    + intros r Hr He. destruct (Irow r Hr) as [[? _]|(_ & ? & _)]; [lia|done].
    + intros r c Hr Hc Hk. by apply Hfence.
Qed.

(** *** What the publish audit establishes *)

Section Scan.
Context (nowMS sweepMS : Z) (name : string) (window : Z).

(** One row after another: no gap, no step back, sizes and keys in order. *)
Fixpoint in_order (ps pp : Z) (l : list message) : Prop :=
  match l with
  | [] => True
  | m :: l => (0 <= ps -> m_seq m = ps + 1) /\ (0 <= pp -> pp <= m_published_at m) /\ m_size m = slen (m_body m) /\
      (m_dedup_key m <> None -> 0 < window -> nowMS - window - sweepMS <= m_published_at m) /\
      in_order (m_seq m) (m_published_at m) l
  end.

Lemma finding_nil (b : bool) (v : Violation) : (if b then [v] else []) = [] <-> b = false.
Proof. by destruct b. Qed.

Lemma scan_row_found st m :
  found (scan_row nowMS sweepMS name window st m) = [] <->
  found st = [] /\ (0 <= prevSeq st -> m_seq m = prevSeq st + 1) /\ (0 <= prevPub st -> prevPub st <= m_published_at m) /\
  m_size m = slen (m_body m) /\
  (m_dedup_key m <> None -> 0 < window -> nowMS - window - sweepMS <= m_published_at m).
Proof.
  unfold scan_row. simpl. rewrite !app_nil, !finding_nil, !andb_false_iff, negb_false_iff, Z.eqb_eq, Z.leb_gt, !Z.ltb_ge, Z.leb_gt.
  assert (Hsz : forall v : Violation, (if m_size m =? slen (m_body m) then [] else [v]) = [] <-> m_size m = slen (m_body m)).
  { intros v. destruct (Z.eqb_spec (m_size m) (slen (m_body m))); split; done. }
  rewrite Hsz. split; intros (H0 & H1 & H2 & H3 & H4); split_and!; try done; try lia.
  - intros Hk Hw. destruct (m_dedup_key m); [|done]. destruct H4 as [[?|?]|?]; [done|lia|done].
  - destruct (m_dedup_key m) as [key|]; [|by left; left]. destruct (Z.lt_decidable 0 window); [right; by apply H4|left; right; lia].
Qed.

Lemma audit_scan_spec st l :
  let st' := foldl (scan_row nowMS sweepMS name window) st l in
  (found st' = [] <-> found st = [] /\ in_order (prevSeq st) (prevPub st) l) /\
  scanned st' = scanned st + Z.of_nat (length l) /\ bytesSum st' = bytesSum st + sumZ (map m_size l) /\
  prevSeq st' = default (prevSeq st) (m_seq <$> list.last l).
Proof.
  revert st. induction l as [|m l IH]; intros st; cbn [foldl].
  - cbn [in_order length map sumZ foldr list.last fmap option_fmap option_map default]. split_and!; [tauto|lia|lia|done].
  - specialize (IH (scan_row nowMS sweepMS name window st m)). cbv zeta in IH |- *. destruct IH as (Hf & Hn & Hb & Hl).
    rewrite Hf, Hn, Hb, Hl, scan_row_found. cbn [in_order length map sumZ foldr]. split_and!;
      [|rewrite Nat2Z.inj_succ; unfold scan_row; cbn [scanned]; lia|unfold scan_row, sumZ; cbn [bytesSum foldr map]; lia|].
    + unfold scan_row at 1 2. cbn [prevSeq prevPub]. tauto.
    + destruct l as [|m' l]; [done|]. rewrite last_cons_cons. destruct (list.last (m' :: l)) eqn:Hlast; [done|].
      by apply last_None in Hlast.
Qed.

(** From the first row on, the sequence numbers are consecutive. *)
Lemma in_order_seqs ps pp l :
  (forall m, m ∈ l -> 0 <= m_seq m /\ 0 <= m_published_at m) -> in_order ps pp l ->
  map m_seq l = seqZ (default 0 (m_seq <$> head l)) (Z.of_nat (length l)) /\ Sorted Z.le (map m_published_at l).
Proof.
  revert ps pp. induction l as [|m l IH]; intros ps pp Hpos Hord; [split; [done|constructor]|].
  cbn [in_order] in Hord. destruct Hord as (_ & _ & _ & _ & Hord). destruct (Hpos m ltac:(left)) as [Hs Hp].
  destruct (IH _ _ ltac:(intros; apply Hpos; by right) Hord) as [Hseq Hsorted].
  destruct l as [|m' l]; [split; [done|repeat constructor]|]. cbn [in_order] in Hord. destruct Hord as (Hnext & Hpub & _). split.
  - cbn [map length head fmap option_fmap option_map default] in Hseq |- *. rewrite Nat2Z.inj_succ, seqZ_cons by lia. f_equal.
    rewrite Hseq, (Hnext Hs). f_equal; lia.
  - cbn [map] in Hsorted |- *. constructor; [done|]. constructor. auto.
Qed.
End Scan.

(** A stream the audit finds sound has consecutive sequence numbers, publication
    times that never step back, exact sizes and statistics, no overdue key and a
    counter above its rows and above every number the name used before. *)
Lemma publish_audit_sound nowMS sweepMS name d :
  (forall m, m ∈ messages d -> 0 <= m_seq m /\ 0 <= m_published_at m) ->
  checkStreamInvariants nowMS sweepMS name d = Ok [] ->
  let l := order_by by_seq (where_ (on_stream name) (messages d)) in
  map m_seq l = seqZ (default 0 (m_seq <$> head l)) (Z.of_nat (length l)) /\ Sorted Z.le (map m_published_at l) /\
  (exists next, find_seq name d = Some next /\ default (-1) (m_seq <$> list.last l) < next /\
     forall raw hwm, meta_get (metaSeqHwmPrefix +:+ name) d = Some raw -> sscanf_d raw = Some hwm -> hwm < next) /\
  (forall ss, query_row (has_key ss_stream name) (stream_stats d) = Some ss ->
     ss_msgs ss = count (on_stream name) (messages d) /\ ss_bytes ss = sum_of m_size (on_stream name) (messages d)).
Proof.
  intros Hpos Hrun l. unfold checkStreamInvariants in Hrun. destruct (find_stream name d) as [row|]; [|done]. fold l in Hrun.
  destruct (audit_scan_spec nowMS sweepMS name (st_dedup_window_ms row) (MkScan (-1) (-1) 0 0 []) l) as (Hf & Hn & Hb & Hl).
  cbv zeta in Hrun. rewrite Hn, Hb, Hl in Hrun. clear Hn Hb Hl. apply ok_app_nil in Hrun as [Hfound Hrest].
  apply app_nil in Hrest as [Hcnt Hst]. apply Hf in Hfound as [_ Hord]. clear Hf. cbn [prevSeq scanned bytesSum] in Hcnt, Hst.
  assert (Hperm : Permutation l (where_ (on_stream name) (messages d))) by apply order_by_Permutation.
  assert (Hin : forall m, m ∈ l -> m ∈ messages d) by (intros m; rewrite Hperm, elem_of_where; tauto).
  destruct (in_order_seqs _ _ _ _ _ l (fun m Hm => Hpos m (Hin m Hm)) Hord) as [Hseq Hsorted]. clearbody l.
  split_and!; [exact Hseq|exact Hsorted|..].
  - unfold counter_findings in Hcnt. destruct (find_seq name d) as [next|]; [|done]. exists next. split; [done|].
    apply app_nil in Hcnt as [Hmax Hhwm]. rewrite finding_nil in Hmax. bool_prop. split; [done|].
    intros raw hwm Hraw Hscan. rewrite Hraw, Hscan, finding_nil in Hhwm. bool_prop. lia.
  - intros ss Hss. unfold stats_findings in Hst. rewrite Hss in Hst. case_match eqn:He; [|done]. bool_prop.
    unfold count, sum_of. rewrite <-(Permutation_length Hperm), <-(sumZ_Permutation _ _ (Permutation_map m_size Hperm)). lia.
Qed.

(** The audit takes the gap an ordinary filtered purge leaves for damage. *)
Lemma purge_gap_condemned :
  let three := fst (Publish.publishWriteCmd Policy.DefaultLimits "orders" Publish.order_created 7600000
                      (fst (Publish.publishWriteCmd Policy.DefaultLimits "orders" Purge.second 7500000
                              (fst (Publish.publishWriteCmd Policy.DefaultLimits "orders"
                                      (PublishReq.MkPublishReq "orders.created" [] "{}" "" "") 7000000 Samples.base))))) in
  let purged := fst (Purge.PurgeStream "orders" (Purge.MkPurgeSpec None "orders.paid" 0) false "ops" three) in
  map m_seq (messages (w_db three)) = [1; 2; 3] /\ CheckPublishInvariants 8 1000 (w_db three) = Ok [] /\
  map m_seq (messages (w_db purged)) = [1; 3] /\
  (let? vs := CheckPublishInvariants 8 1000 (w_db purged) in Ok (map sv_ID vs)) = Ok ["P1"].
Proof. vm_compute. by split_and!. Qed.

Lemma consumer_audit_exact_witness :
  referenced (w_db Fetch.after_fetch) /\ lease_ok (Delivery "orders" "billing" 1 "orders.created" 1 1 30008 1 (Some 8) None)
    (Consumer "orders" "billing" [">"] 30000 5 1000 [1000; 5000] "dlq" 2 1 false 0).
Proof.
  assert (Href : referenced (w_db Fetch.after_fetch)).
  { split.
    - apply (bool_decide_unpack (NoDup _)). by vm_compute.
    - apply (bool_decide_unpack (NoDup _)). by vm_compute.
    - intros r Hr. vm_compute in Hr. apply list_elem_of_singleton in Hr as ->.
      exists (Consumer "orders" "billing" [">"] 30000 5 1000 [1000; 5000] "dlq" 2 1 false 0). split; [vm_compute; left|done].
    - apply Forall_forall. apply (bool_decide_unpack (Forall _ _)). by vm_compute. }
  split; [exact Href|].
  assert (Hclean : CheckConsumerInvariants (w_db Fetch.after_fetch) = [] /\ checkI7 false (w_db Fetch.after_fetch) = Ok []) by (vm_compute; by split).
  apply (proj1 (consumer_audit_exact false (w_db Fetch.after_fetch) Href) Hclean).
  - vm_compute. by left.
  - vm_compute. by left.
  - reflexivity.
Defined.

End StoreAudit.
